(* ===== verification/_CoqProject ===== *)
-Q . S2P
Prelude.v
OrdMap.v
Primitives.v
Gas.v
ContractStorage.v
Codec.v
BaseContract.v
Savitri20.v
Savitri20Correct.v
Savitri20Ledger.v
Savitri721.v
Account.v
CallStack.v
Fee.v
Evm.v
StorageRoot.v
Abi.v
CallExec.v
CallExecCorrect.v
Score.v
Observations.v
Slashing.v
Bonds.v
Lattice.v
LatticeCommit.v
Pivot.v
QueuedPool.v
Replay.v
Admission.v
AdmissionCorrect.v
MempoolCore.v
MempoolInv.v
MempoolOps.v
MempoolCorrect.v
SignedTx.v
BlockStore.v
BlockExec.v
BlockCommit.v
BlockCorrect.v
BlockTheorems.v
BlockStm.v
Certificates.v
CertRegistry.v
Dag.v
DagCorrect.v
CommitScheduler.v
SchedCorrect.v
Proposals.v
Votes.v
VoteCorrect.v
Masternode.v
MasternodeCorrect.v
Merkle.v
GovStore.v
Governance.v
GovExec.v
GovCorrect.v
GovVotes.v
GovLife.v
Savitri1155.v
Savnft.v
SavnftCorrect.v
Bft.v
BftCorrect.v
Slots.v
FlAi.v
FlAiCorrect.v
FlAiRewards.v
Float64.v
Groups.v
GroupsCorrect.v
GroupsWitness.v
Trie.v
Latency.v
NonceResolve.v
Registers.v
Upgrade.v
