(* ===== verification/Prelude.v ===== *)
(** * Savitri Network: a verification library

    Savitri Network is a blockchain in Rust: light nodes propose blocks,
    masternodes certify them, contracts run on the ledger.  This library models
    the parts that decide who owns what and what is final.  Every definition is
    executable and follows the source function it is named after; the comment at
    the top of a file names its source.

    ** The program and the files that model it

    Foundations
    - [Prelude]: results, the state-and-error monad with its rules [wp] and
      [keeps], machine integers, sums, bytes, the rewrite database [mach].
    - [OrdMap]: ordered iteration over maps, sums over maps, the lexicographic
      order of byte strings.
    - [Codec]: the classes of the third-party primitives (hexadecimal, hashes,
      signatures) with the laws used of them, and executable instances.
    - [Primitives] ([savitri-consensus/src/primitives], [types/lattice.rs]):
      quorum sizes and the epoch clock.

    Contracts ([Savitri-contracts/src])
    - [Gas], [ContractStorage], [StorageRoot]: the gas meter, the overlay and read
      cache over the database, the commit and the storage root.
    - [BaseContract] with [Upgrade] ([contracts/base.rs], [upgrade.rs]),
      [Savitri20] with [Savitri20Correct] and [Savitri20Ledger], [Savitri721]: the
      base contract and the two token standards; [Savitri1155] and [Savnft] with
      [SavnftCorrect]: the multi-token and the NFT standard.
    - [Account], [CallStack], [Fee], [Evm], [Abi], [CallExec] with
      [CallExecCorrect]: accounts, the call stack, fees and treasury, the byte
      code interpreter, the encoding of calls, and the executor that ties them
      together.
    - [GovStore] ([savitri-storage/src/storage/governance.rs]), [Governance],
      [GovExec] ([governance/]) with [GovCorrect], [GovVotes] and [GovLife]: the
      records, the proposals and votes, and the execution of proposals.
    - [FlAi] ([contracts/fl]) with [FlAiCorrect] and [FlAiRewards]: federated
      learning, its models, rounds and rewards.

    Validators and consensus
    - [Score], [Observations], [Slashing], [Bonds]: the score of a node, its
      samples, the two validator registers.
    - [Lattice], [LatticeCommit], [Pivot]: certified cells, the commit rule and
      its poller.
    - [Bft] ([protocols/bft.rs]) with [BftCorrect]: the voting engine.
    - [Slots] ([savitri-core/src/core/slot_scheduler.rs], [unified_slot.rs]):
      slots, epochs and leaders.
    - [Merkle] ([savitri-consensus/src/crypto/merkle.rs]).
    - [Latency] ([types/latency_canon.rs], [latency_table.rs], and on the light
      node [latency_canon_state.rs], [latency_canon_publisher.rs]): reports of
      round trip times, their table and their buffer.

    Storage crate ([savitri-storage/src/storage], beside [GovStore])
    - [Trie] ([merkle_trie.rs]): state roots and proofs of entries.
    - [Registers] ([treasury.rs], [vote_tokens.rs]).

    Mempool ([savitri-mempool/src])
    - [QueuedPool], [Replay], [Admission] with [AdmissionCorrect]: what is let in;
      [MempoolCore] with [MempoolInv], [MempoolOps] and [MempoolCorrect]: the
      pool, its invariant and the drain.
    - [NonceResolve] ([executor/nonce_conflict_resolver.rs]): one transaction per
      sender and nonce of a batch.

    Light node ([savitri-lightnode/src])
    - [SignedTx], [BlockStore], [BlockExec], [BlockCommit] with [BlockCorrect] and
      [BlockTheorems]; [BlockStm]: transactions, the execution of blocks and their
      commit, the parallel executor.
    - [Certificates] with [CertRegistry]; [Dag] with [DagCorrect];
      [CommitScheduler] with [SchedCorrect]: certificates and the blocks that wait
      for them, the block DAG, the release of certified blocks.

    Masternode ([savitri-masternode/src])
    - [Proposals], [Votes] with [VoteCorrect]; [Masternode] with
      [MasternodeCorrect]: the validation of proposals and elections, the
      aggregation of votes into certificates, and the handlers that compose them.
    - [Float64], [Groups] ([group_formation.rs], [group_consensus.rs]) with
      [GroupsCorrect] and [GroupsWitness]: binary64 arithmetic, the groups of
      light nodes, the votes of the masternodes on them, leader elections.

    A component is a record of its state and one function per method.  Code behind
    a [&mut] that may return early is in the monad [M], which keeps the state
    reached at the early return.  Registers that are driven by messages have a
    type of operations and a run over lists of them (or a [step] relation); their
    invariants hold after every run.

    ** What the theorems show

    - Storage and tokens: the layers implement a map, apart from a zero written
      over a persisted value; every operation of the tokens on every branch; the
      supply is the sum of the balances over call sequences.  An upgrade through
      the base contract never succeeds.
    - Calls: the interpreter terminates and cannot leave its contract; the
      executor keeps the call stack disciplined; a failed call commits.
    - Mempool: the invariant of every reachable pool, a drain returns the sorted
      fair schedule, a nonce is admitted once, a commit advances it.
    - Blocks: proposer and followers compute the same block, the parallel executor
      is the sequential one, a committed block refines the abstract ledger and,
      if all its transfers apply, burns half of its fees; where this fails (a
      transfer to oneself, fees of skipped transactions, unbound transactions).
    - Certificates: on the masternode a proposal is certified exactly when enough
      distinct keys approved it, and once; what the validation leaves open (forged
      proposals, self-made elections, conflicting blocks); on the light node the
      registry of waiting blocks and what its checks accept.
    - Scheduling: a transaction that a released block applied is in no block
      released later, one it skipped can be; blocks that are never released.
    - Consensus: quorum intersection, sound certificates and commits of the
      lattice, what every report of misbehaviour does in every reachable slashing
      manager, invariants of bonds, Merkle proofs.
    - Governance: votes are conserved and one call per block executes the first
      approved proposals of the storage crate and moves the others by a step; the
      contract governance never approves a proposal, pays deposits repeatedly, and
      cannot create proposals at all.
    - Federated learning: a round only moves forward once created, a reward is
      claimed once, claims never exceed the funds of their pool.
    - BFT engine: no round ever ends, and a valid vote blocks the engine. Slots
      never go back, also over a restart.
    - Groups: a formation partitions the nodes and the shards; a certificate
      counts votes for more than two thirds of the masternodes, though several may
      be of one; and where the consensus on groups fails (repeated proposals, a
      proposer that refuses its own proposal, forged elections).

    - Registers of the storage crate: proofs of entries verify, a treasury and the
      vote tokens keep their books; what a restart forgets.
    - Latency: a bucket resists a minority of its reporters; one key can make up
      the majority; when the table depends on the order of the reports.

    ** Conventions

    - Integers are [Z] with their width written out.  [checked_add],
      [saturating_sub] and the like are Rust's.  Plain operators wrap, as in the
      release profile; where a wrap is impossible the theorem proves it or assumes
      the bound.  Counts of the mempool are [nat].
    - Readings of the clock are arguments, one for each reading whose difference
      shows (as in the making of a group proposal).  Log output and metrics are
      left out.  Poisoned locks are not modelled; a lock held for a method makes
      it one step.
    - An [anyhow] context only adds text to an error.  Error constructors stand
      for the messages.  A failing database read is an [Err] of the parameter
      [Storage].
    - Third-party code is a class, and theorems hold for all instances: hashes,
      signatures ([Ed25519], [Ed25519Strict], [Ed25519Sign] with
      [Ed25519SignLaws]), hexadecimal ([Hex], [HexLaws]), 256-bit integers
      ([U256]), encodings ([AccountBincode], [InfoBincode], [TxBincode],
      [GovBincode], [ConfigBincode], [ExecBincode], [ElectionJson]), the LRU cache
      of replay records ([LruCache]), the block database
      ([BlockAndAccountStorage], [StorageLaws]).  [HashOrder] is the iteration
      order of hash maps.  Witnesses use concrete instances.  Where collisions
      matter their absence is a hypothesis, or the theorem yields one.
    - Fuel: the causal walk uses [walk_fuel], the merge of overlay and database
      for the storage root [merge_fuel], calls [call_fuel] (the depth limit of
      64), the interpreter the charges the gas pays for; each is proved enough
      where it is used. Draining and peeking take one round more than the maximum,
      sweeps one per queue, the levels of a Merkle tree one per leaf; string and
      chunk loops consume at least one unit of their length per iteration.

    ** What is not modelled

    With logic worth modelling: deployment, the oracle contracts, the streak
    daemon, the BFT protocols other than the engine of [bft.rs], the DAG and
    validators of the consensus crate, the layers around the mempool core, the
    transaction dispatcher, and the final validation of blocks on the light node.
    Networking, RPC, RocksDB, the event loops of the nodes and the zero-knowledge
    back ends are I/O or wrap third-party code. *)

From stdpp Require Export base gmap strings list sorting numbers option fin_maps.
From Stdlib Require Export ZArith Lia.
From Stdlib Require Import Strings.Byte.

#[global] Open Scope Z_scope.

(** ** Fallible computations *)

(** Rust's [Result<A, E>]. *)
Inductive result (E A : Type) : Type :=
| Ok (a : A)
| Err (e : E).
Arguments Ok {E A} a.
Arguments Err {E A} e.

Definition is_ok {E A} (r : result E A) : bool :=
  match r with Ok _ => true | Err _ => false end.

Definition ok_or {E A} (o : option A) (e : E) : result E A :=
  match o with Some a => Ok a | None => Err e end.

(** Code that mutates a state [S] behind a [&mut] reference and may return
    early with an error: the state reached at the early return is kept,
    as it is in Rust. *)
Definition M (S E A : Type) : Type := S -> result E A * S.

Section Monad.
Context {S E : Type}.

#[global] Instance M_ret : MRet (M S E) := fun A a s => (Ok a, s).

#[global] Instance M_bind : MBind (M S E) := fun A B f m s =>
  match m s with
  | (Ok a, s') => f a s'
  | (Err e, s') => (Err e, s')
  end.

Definition fail {A} (e : E) : M S E A := fun s => (Err e, s).
Definition get : M S E S := fun s => (Ok s, s).
Definition put (s : S) : M S E unit := fun _ => (Ok tt, s).
Definition gets {A} (f : S -> A) : M S E A := fun s => (Ok (f s), s).
Definition modify (f : S -> S) : M S E unit := fun s => (Ok tt, f s).
(** [expr?] on a pure [Result]. *)
Definition lift {A} (r : result E A) : M S E A := fun s => (r, s).
(** [if c { bail!(e) }]. *)
Definition bail_if (c : bool) (e : E) : M S E unit :=
  if c then fail e else mret tt.

(** Weakest precondition over both exits: [Q] on [Ok], [R] on [Err]. *)
Definition wp {A} (m : M S E A) (Q : A -> S -> Prop) (R : E -> S -> Prop)
    (s : S) : Prop :=
  match m s with (Ok a, s') => Q a s' | (Err e, s') => R e s' end.

Lemma wp_ret {A} (a : A) (Q : A -> S -> Prop) R s : Q a s -> wp (mret a) Q R s.
Proof. done. Qed.

Lemma wp_bind {A B} (m : M S E A) (f : A -> M S E B) Q R s :
  wp m (fun a => wp (f a) Q R) R s -> wp (m ≫= f) Q R s.
Proof. unfold wp, mbind, M_bind. by destruct (m s) as [[a|e] s']. Qed.

Lemma wp_fail {A} (e : E) (Q : A -> S -> Prop) (R : E -> S -> Prop) s :
  R e s -> wp (fail e) Q R s.
Proof. done. Qed.

Lemma wp_lift {A} (r : result E A) (Q : A -> S -> Prop) (R : E -> S -> Prop) s :
  (forall a, r = Ok a -> Q a s) -> (forall e, r = Err e -> R e s) ->
  wp (lift r) Q R s.
Proof. unfold wp, lift. destruct r; naive_solver. Qed.

Lemma wp_bail_if (c : bool) (e : E) (Q : unit -> S -> Prop) (R : E -> S -> Prop) s :
  (c = true -> R e s) -> (c = false -> Q tt s) -> wp (bail_if c e) Q R s.
Proof. unfold wp, bail_if. destruct c; naive_solver. Qed.

Lemma wp_get (Q : S -> S -> Prop) R s : Q s s -> wp get Q R s.
Proof. done. Qed.

Lemma wp_gets {A} (f : S -> A) (Q : A -> S -> Prop) R s :
  Q (f s) s -> wp (gets f) Q R s.
Proof. done. Qed.

Lemma wp_modify (f : S -> S) (Q : unit -> S -> Prop) R s :
  Q tt (f s) -> wp (modify f) Q R s.
Proof. done. Qed.

Lemma wp_mono {A} (m : M S E A) (Q Q' : A -> S -> Prop) (R R' : E -> S -> Prop) s :
  wp m Q R s -> (forall a s', Q a s' -> Q' a s') ->
  (forall e s', R e s' -> R' e s') -> wp m Q' R' s.
Proof. unfold wp. destruct (m s) as [[?|?] ?]; naive_solver. Qed.

Lemma wp_mono_ok {A} (m : M S E A) (Q Q' : A -> S -> Prop) (R : E -> S -> Prop) s :
  wp m Q R s -> (forall a s', Q a s' -> Q' a s') -> wp m Q' R s.
Proof. intros Hm HQ. by eapply wp_mono. Qed.

Lemma wp_ok {A} (m : M S E A) Q R s a s' :
  wp m Q R s -> m s = (Ok a, s') -> Q a s'.
Proof. unfold wp. intros H E'. by rewrite E' in H. Qed.

Lemma wp_err {A} (m : M S E A) (Q : A -> S -> Prop) (R : E -> S -> Prop) s e s' :
  wp m Q R s -> m s = (Err e, s') -> R e s'.
Proof. unfold wp. intros H E'. by rewrite E' in H. Qed.
End Monad.

(** What a computation preserves on both exits. *)
Section Keeps.
Context {S E : Type} (P : S -> Prop).

Definition keeps {A} (m : M S E A) : Prop := forall s, P s -> P (m s).2.

Lemma keeps_ret {A} (a : A) : keeps (mret a).
Proof. by intros s. Qed.
Lemma keeps_fail {A} (e : E) : keeps (A:=A) (fail e).
Proof. by intros s. Qed.
Lemma keeps_gets {A} (f : S -> A) : keeps (gets f).
Proof. by intros s. Qed.
Lemma keeps_lift {A} (r : result E A) : keeps (lift r).
Proof. by intros s. Qed.
Lemma keeps_bail_if c (e : E) : keeps (bail_if c e).
Proof. intros s Hs. by destruct c. Qed.
Lemma keeps_modify (f : S -> S) : (forall s, P s -> P (f s)) -> keeps (modify f).
Proof. intros Hf s. apply Hf. Qed.
Lemma keeps_bind {A B} (m : M S E A) (f : A -> M S E B) :
  keeps m -> (forall a, keeps (f a)) -> keeps (m ≫= f).
Proof.
  intros Hm Hf s Hs. unfold mbind, M_bind. specialize (Hm s Hs). destruct (m s) as [[a|e] s']; [|done].
  by apply Hf.
Qed.
Lemma keeps_wp {A} (m : M S E A) s : keeps m -> P s -> wp m (fun _ => P) (fun _ => P) s.
Proof. intros Hm Hs. specialize (Hm s Hs). unfold wp. by destruct (m s) as [[?|?] ?]. Qed.
Lemma wp_keeps {A} (m : M S E A) : (forall s, P s -> wp m (fun _ => P) (fun _ => P) s) -> keeps m.
Proof. intros Hm s Hs. specialize (Hm s Hs). unfold wp in Hm. by destruct (m s) as [[?|?] ?]. Qed.
End Keeps.

Create HintDb keeps.
#[export] Hint Resolve keeps_ret keeps_fail keeps_gets keeps_lift keeps_bail_if : keeps.
#[export] Hint Extern 1 (keeps _ (_ ≫= _)) => apply keeps_bind : keeps.
#[export] Hint Extern 2 (keeps _ (match ?x with _ => _ end)) => destruct x : keeps.
(** Follows the structure of a computation down to its primitives. *)
Ltac keep := repeat (intros; try (solve [auto 3 with keeps nocore]); first
  [ apply keeps_bind | progress case_match ]).

(** Run a computation on a component of the state, mapping its error. *)
Definition zoom {S T E F A} (view : S -> T) (upd : T -> S -> S) (err : E -> F)
    (m : M T E A) : M S F A :=
  fun s => match m (view s) with
           | (Ok a, t) => (Ok a, upd t s)
           | (Err e, t) => (Err (err e), upd t s)
           end.

(** ** Machine integers

    Unsigned integers are [Z] values in [0 .. max]; [u8] .. [u128] and
    [usize] (64 bits) differ in [max] only.  Operators of the source that
    carry no check ([+], [-], [*]) wrap in a release build; the definitions
    that use one write [wrap] explicitly. *)

Definition U16_MAX : Z := 65535.
Definition U32_MAX : Z := 4294967295.
Definition U64_MAX : Z := 18446744073709551615.
Definition U128_MAX : Z := 340282366920938463463374607431768211455.

Definition wrap (max x : Z) : Z := x mod (max + 1).

Definition in_range (max x : Z) : Prop := 0 <= x <= max.

Definition checked_add (max a b : Z) : option Z :=
  if a + b <=? max then Some (a + b) else None.
Definition checked_sub (a b : Z) : option Z :=
  if b <=? a then Some (a - b) else None.
Definition checked_mul (max a b : Z) : option Z :=
  if a * b <=? max then Some (a * b) else None.
Definition saturating_add (max a b : Z) : Z := Z.min max (a + b).
Definition saturating_sub (a b : Z) : Z := Z.max 0 (a - b).
Definition saturating_mul (max a b : Z) : Z := Z.min max (a * b).

(** Arithmetic goals with the width constants and the checked operators
    unfolded and every division replaced by its defining equations. *)
Ltac mach_unfold :=
  unfold in_range, saturating_add, saturating_sub, saturating_mul, wrap,
    U16_MAX, U32_MAX, U64_MAX, U128_MAX in *.
Ltac mlia := mach_unfold; Z.div_mod_to_equations; lia.

Lemma wrap_id max x : in_range max x -> wrap max x = x.
Proof. intros ?. unfold wrap. apply Z.mod_small. unfold in_range in *; lia. Qed.

Lemma checked_add_Some max a b c :
  checked_add max a b = Some c <-> c = a + b /\ a + b <= max.
Proof. unfold checked_add. destruct (Z.leb_spec (a + b) max); naive_solver lia. Qed.

Lemma checked_add_None max a b : checked_add max a b = None <-> max < a + b.
Proof. unfold checked_add. destruct (Z.leb_spec (a + b) max); naive_solver lia. Qed.

Lemma checked_sub_Some a b c : checked_sub a b = Some c <-> c = a - b /\ b <= a.
Proof. unfold checked_sub. destruct (Z.leb_spec b a); naive_solver lia. Qed.

Lemma checked_sub_None a b : checked_sub a b = None <-> a < b.
Proof. unfold checked_sub. destruct (Z.leb_spec b a); naive_solver lia. Qed.

Lemma checked_mul_Some max a b c :
  checked_mul max a b = Some c <-> c = a * b /\ a * b <= max.
Proof. unfold checked_mul. destruct (Z.leb_spec (a * b) max); naive_solver lia. Qed.

Lemma checked_mul_None max a b : checked_mul max a b = None <-> max < a * b.
Proof. unfold checked_mul. destruct (Z.leb_spec (a * b) max); naive_solver lia. Qed.

(** A closed run that evaluates to [Ok] has a result, named without
    evaluating it again. *)
Lemma run_ok {E A} (r : result E A) : is_ok r = true -> exists a, r = Ok a.
Proof. destruct r as [a|e]; [by exists a|done]. Qed.
Lemma run_ok_state {S E A} (r : result E A * S) : is_ok r.1 = true -> exists a s, r = (Ok a, s).
Proof. destruct r as [[a|e] s]; [by exists a, s|done]. Qed.

Lemma ok_or_Ok {E A} (o : option A) (e : E) a : ok_or o e = Ok a <-> o = Some a.
Proof. destruct o; simpl; naive_solver. Qed.

Lemma ok_or_Err {E A} (o : option A) (e e' : E) :
  ok_or o e = Err e' <-> o = None /\ e' = e.
Proof. destruct o; simpl; naive_solver. Qed.

Create Rewrite HintDb mach.
#[export] Hint Rewrite Z.ltb_lt Z.ltb_ge Z.leb_le Z.leb_gt Z.eqb_eq Z.eqb_neq
  checked_add_Some checked_add_None checked_sub_Some checked_sub_None
  checked_mul_Some checked_mul_None @ok_or_Ok @ok_or_Err
  andb_true_iff andb_false_iff orb_true_iff orb_false_iff
  negb_true_iff negb_false_iff Z.gtb_lt Z.geb_le : mach.

(** ** Lists *)

Lemma filter_keep_all {T} (P : T -> Prop) `{forall x, Decision (P x)} l : Forall P l -> filter P l = l.
Proof. induction 1 as [|x l Hx Hl IH]; [done|]. rewrite filter_cons_True by done. by rewrite IH. Qed.

(** ** Sums *)

Definition sumZ (l : list Z) : Z := foldr Z.add 0 l.

Lemma sumZ_app l l' : sumZ (l ++ l') = sumZ l + sumZ l'.
Proof. unfold sumZ. induction l; simpl; lia. Qed.

Section Sum.
Context {A : Type} `{EqDecision A}.

Lemma sumZ_ext (f g : A -> Z) l : (forall x, x ∈ l -> f x = g x) -> sumZ (map f l) = sumZ (map g l).
Proof.
  induction l as [|x l IH]; intros Hx; simpl; [done|].
  rewrite (Hx x), IH; [done|intros; apply Hx; by right|by left].
Qed.

(** Changing the summand at one element of a duplicate-free list. *)
Lemma sumZ_update (f g : A -> Z) l a :
  NoDup l -> a ∈ l -> (forall x, x ∈ l -> x <> a -> g x = f x) ->
  sumZ (map g l) = sumZ (map f l) + (g a - f a).
Proof.
  induction l as [|x l IH]; intros Hnd Ha He; [by apply not_elem_of_nil in Ha|].
  apply NoDup_cons in Hnd as [Hx Hnd]. simpl. apply elem_of_cons in Ha as [->|Ha].
  - rewrite (sumZ_ext g f l); [lia|]. intros y Hy. apply He; [by right|]. by intros ->.
  - rewrite IH; [|done..|intros; apply He; [by right|done]].
    rewrite (He x); [lia|by left|]. by intros ->.
Qed.

Lemma sumZ_update2 (f g : A -> Z) l a b :
  NoDup l -> a ∈ l -> b ∈ l -> a <> b ->
  (forall x, x ∈ l -> x <> a -> x <> b -> g x = f x) ->
  sumZ (map g l) = sumZ (map f l) + (g a - f a) + (g b - f b).
Proof.
  intros Hnd Ha Hb Hab He.
  rewrite (sumZ_update (fun x => if decide (x = a) then g a else f x) g l b); [|done..|].
  - rewrite (sumZ_update f _ l a); [|done..|].
    + rewrite decide_True, decide_False by done. lia.
    + intros x _ Hx. by rewrite decide_False.
  - intros x Hx Hxb. case_decide; [by subst|]. by apply He.
Qed.

Lemma sumZ_nonneg_le (f : A -> Z) l a :
  (forall x, x ∈ l -> 0 <= f x) -> a ∈ l -> f a <= sumZ (map f l).
Proof.
  assert (forall l, (forall x, x ∈ l -> 0 <= f x) -> 0 <= sumZ (map f l)) as Hn.
  { clear. induction l as [|x l IH]; intros Hx; simpl; [lia|].
    pose proof (Hx x ltac:(by left)). specialize (IH ltac:(intros; apply Hx; by right)). lia. }
  induction l as [|x l IH]; intros Hx Ha; [by apply not_elem_of_nil in Ha|]. simpl.
  pose proof (Hx x ltac:(by left)). pose proof (Hn l ltac:(intros; apply Hx; by right)).
  apply elem_of_cons in Ha as [->|Ha]; [lia|].
  specialize (IH ltac:(intros; apply Hx; by right) Ha). lia.
Qed.
End Sum.

(** ** Bytes *)

#[global] Instance byte_eq_decision : EqDecision byte := byte_eq_dec.
#[global] Program Instance byte_countable : Countable byte :=
  inj_countable' Byte.to_N (fun n => default x00 (Byte.of_N n)) _.
Next Obligation. intros b. simpl. by rewrite Byte.of_to_N. Qed.

Abbreviation bytes := (list byte).

(** The bytes of a string literal, [b"..."] or [as_bytes()]. *)
Definition bytes_of_string (s : string) : bytes := String.list_byte_of_string s.

Definition byte_to_Z (b : byte) : Z := Z.of_N (Byte.to_N b).
(** [z as u8]. *)
Definition byte_of_Z (z : Z) : byte :=
  default x00 (Byte.of_N (Z.to_N (z mod 256))).

Definition zeros (n : nat) : bytes := replicate n x00.

(** [iter().all(|&b| b == 0)]. *)
Definition is_zero (v : bytes) : bool := forallb (fun b => Byte.eqb b x00) v.

(** [to_le_bytes] of an [n]-byte unsigned integer, and [from_le_bytes]. *)
Fixpoint to_le_bytes (n : nat) (z : Z) : bytes :=
  match n with
  | O => []
  | S n' => byte_of_Z z :: to_le_bytes n' (z / 256)
  end.

Fixpoint from_le_bytes (l : bytes) : Z :=
  match l with
  | [] => 0
  | b :: l' => byte_to_Z b + 256 * from_le_bytes l'
  end.

Lemma byte_to_Z_range b : 0 <= byte_to_Z b < 256.
Proof.
  unfold byte_to_Z. pose proof (Byte.to_N_bounded b). lia.
Qed.

Lemma byte_to_of_Z z : byte_to_Z (byte_of_Z z) = z mod 256.
Proof.
  unfold byte_to_Z, byte_of_Z.
  pose proof (Z.mod_pos_bound z 256 ltac:(lia)) as Hb.
  pose proof (Byte.to_of_N_option_map (Z.to_N (z mod 256))) as H.
  destruct (N.leb_spec (Z.to_N (z mod 256)) 255); [|lia].
  destruct (Byte.of_N _) as [b|] eqn:Eb; simpl in *; [|done].
  injection H as H. rewrite H. lia.
Qed.

Lemma byte_of_to_Z b : byte_of_Z (byte_to_Z b) = b.
Proof.
  pose proof (byte_to_Z_range b).
  unfold byte_of_Z. rewrite Z.mod_small by lia.
  unfold byte_to_Z. rewrite N2Z.id, Byte.of_to_N. done.
Qed.

Lemma length_to_le_bytes n z : length (to_le_bytes n z) = n.
Proof. revert z; induction n; intros; simpl; auto. Qed.

Lemma from_le_bytes_range l : 0 <= from_le_bytes l < 256 ^ Z.of_nat (length l).
Proof.
  induction l as [|b l IH]; [simpl; lia|].
  cbn [from_le_bytes length]. rewrite Nat2Z.inj_succ, Z.pow_succ_r by lia.
  pose proof (byte_to_Z_range b). lia.
Qed.

Lemma from_to_le_bytes n z : from_le_bytes (to_le_bytes n z) = z mod 256 ^ Z.of_nat n.
Proof.
  revert z; induction n as [|n IH]; intros z; [simpl; by rewrite Z.mod_1_r|].
  cbn [to_le_bytes from_le_bytes].
  rewrite IH, byte_to_of_Z, Nat2Z.inj_succ, Z.pow_succ_r by lia.
  rewrite Z.rem_mul_r by lia. done.
Qed.

Lemma to_from_le_bytes l : to_le_bytes (length l) (from_le_bytes l) = l.
Proof.
  induction l as [|b l IH]; [done|]. cbn [to_le_bytes from_le_bytes length].
  pose proof (byte_to_Z_range b).
  rewrite Z.mul_comm, Z.div_add, Z.div_small, Z.add_0_l, IH by lia.
  f_equal. rewrite <- (byte_of_to_Z b) at 2. unfold byte_of_Z.
  by rewrite Z.mod_add by lia.
Qed.

Lemma is_zero_spec v : is_zero v = true <-> v = zeros (length v).
Proof.
  induction v as [|b v IH]; [done|].
  cbn [is_zero forallb length zeros replicate].
  rewrite andb_true_iff.
  split.
  - intros [Hb Hv]. apply Byte.byte_dec_bl in Hb. subst. f_equal. by apply IH.
  - intros [= -> Hv]. split; [done|]. by apply IH.
Qed.

Lemma is_zero_zeros n : is_zero (zeros n) = true.
Proof. apply is_zero_spec. unfold zeros. by rewrite length_replicate. Qed.

Lemma length_zeros n : length (zeros n) = n.
Proof. apply length_replicate. Qed.

Lemma from_le_bytes_zeros n : from_le_bytes (zeros n) = 0.
Proof. induction n; simpl; [done|]. unfold zeros in IHn. rewrite IHn. done. Qed.

Lemma from_le_bytes_app_zeros l n :
  from_le_bytes (l ++ zeros n) = from_le_bytes l.
Proof.
  induction l as [|b l IH]; cbn [app from_le_bytes];
    [apply from_le_bytes_zeros|by rewrite IH].
Qed.

Lemma from_le_bytes_0_inv l : from_le_bytes l = 0 -> l = zeros (length l).
Proof.
  induction l as [|b l IH]; [done|]. cbn [from_le_bytes length]. intros H.
  pose proof (byte_to_Z_range b). pose proof (from_le_bytes_range l).
  cbn [zeros replicate]. f_equal; [|apply IH; lia].
  rewrite <- (byte_of_to_Z b). replace (byte_to_Z b) with 0 by lia. done.
Qed.
