(* ===== verification/OrdMap.v ===== *)
(** * Ordered maps

    Rust's [BTreeMap] with integer keys: a finite map together with the list
    of its entries in ascending order of the keys, which is the order every
    iteration sees; and sums over finite maps, the running totals that the
    registers of the program keep. *)

From S2P Require Import Prelude.

Section OrdMap.
Context {V : Type}.

Definition entry_le (p q : Z * V) : Prop := p.1 <= q.1.
Definition entry_lt (p q : Z * V) : Prop := p.1 < q.1.

#[global] Instance entry_le_dec p q : Decision (entry_le p q).
Proof. unfold entry_le. apply _. Defined.
#[global] Typeclasses Opaque entry_le.
#[global] Instance entry_le_total : Total entry_le.
Proof. intros p q. unfold entry_le. lia. Qed.
#[global] Instance entry_le_trans : Transitive entry_le.
Proof. intros p q r. unfold entry_le. lia. Qed.

Definition btree_iter (m : gmap Z V) : list (Z * V) := merge_sort entry_le (map_to_list m).

Lemma btree_iter_perm m : btree_iter m ≡ₚ map_to_list m.
Proof. apply merge_sort_Permutation. Qed.

Lemma btree_iter_nodup m : NoDup (btree_iter m).*1.
Proof. rewrite btree_iter_perm. apply NoDup_fst_map_to_list. Qed.

Lemma elem_of_btree_iter m k v : (k, v) ∈ btree_iter m <-> m !! k = Some v.
Proof. rewrite btree_iter_perm. apply elem_of_map_to_list. Qed.

Lemma length_btree_iter m : length (btree_iter m) = size m.
Proof. rewrite btree_iter_perm. apply length_map_to_list. Qed.

Lemma sorted_lt_of_le (l : list (Z * V)) :
  StronglySorted entry_le l -> NoDup l.*1 -> StronglySorted entry_lt l.
Proof.
  induction l as [|[k v] l IH]; intros Hs Hn; [constructor|]. simpl in Hn.
  apply NoDup_cons in Hn as [Hk Hn]. inversion Hs as [|? ? Hs' Hf]; subst. constructor; [by apply IH|].
  rewrite Forall_forall in *. intros [k' v'] Hin. specialize (Hf _ Hin).
  unfold entry_le, entry_lt in *. simpl in *.
  assert (k <> k'); [|lia]. intros ->. apply Hk. by apply (list_elem_of_fmap_2 fst _ (k', v')).
Qed.

Lemma btree_iter_sorted m : StronglySorted entry_lt (btree_iter m).
Proof.
  apply sorted_lt_of_le; [apply StronglySorted_merge_sort; apply _|apply btree_iter_nodup].
Qed.

Lemma entry_lt_cons_inv p l : StronglySorted entry_lt (p :: l) ->
  StronglySorted entry_lt l /\ forall k v, (k, v) ∈ l -> p.1 < k.
Proof.
  intros Hs. inversion Hs as [|? ? Hl Hf]; subst. split; [done|]. intros k v Hin.
  rewrite Forall_forall in Hf. apply (Hf (k, v) Hin).
Qed.

Lemma entry_lt_nodup l : StronglySorted entry_lt l -> NoDup l.
Proof.
  induction l as [|p l IH]; intros Hs; [constructor|]. apply entry_lt_cons_inv in Hs as [Hs Hp].
  constructor; [|by apply IH]. destruct p as [k v]. intros Hin. specialize (Hp _ _ Hin). simpl in Hp. lia.
Qed.

(** A strictly sorted list is determined by its elements. *)
Lemma entry_lt_ext l l' :
  StronglySorted entry_lt l -> StronglySorted entry_lt l' -> (forall x, x ∈ l <-> x ∈ l') -> l = l'.
Proof.
  intros Hl Hl' He. apply (StronglySorted_unique_strong entry_lt); [|done|done|].
  - unfold entry_lt. intros. lia.
  - apply NoDup_Permutation; [by apply entry_lt_nodup..|done].
Qed.

Lemma btree_iter_insert_perm (m : gmap Z V) k v :
  m !! k = None -> btree_iter (<[k := v]> m) ≡ₚ (k, v) :: btree_iter m.
Proof. intros Hk. rewrite !btree_iter_perm. by apply map_to_list_insert. Qed.
End OrdMap.

(** *** Taking entries off either end *)

Lemma elem_of_drop_sorted {V} n (l : list (Z * V)) k v : StronglySorted entry_lt l ->
  (k, v) ∈ drop n l <-> (k, v) ∈ l /\ k ∉ (take n l).*1.
Proof.
  revert n; induction l as [|[k' v'] l IH]; intros n Hs.
  { rewrite drop_nil, take_nil. set_solver. }
  apply entry_lt_cons_inv in Hs as [Hs Hlt]. destruct n as [|n]; [rewrite drop_0; simpl; set_solver|].
  simpl. rewrite (IH n Hs), !elem_of_cons. split.
  - intros [Hin Hn]. split; [by right|]. intros [->|?]; [|done]. specialize (Hlt _ _ Hin). simpl in Hlt. lia.
  - intros [[[= -> ->]|Hin] Hn]; [|split; [done|]]; naive_solver.
Qed.

Lemma fold_delete_lookup `{Countable K} {V} (r : list K) (m : gmap K V) k :
  fold_left (fun m n => delete n m) r m !! k = if decide (k ∈ r) then None else m !! k.
Proof.
  revert m; induction r as [|n r IH]; intros m; [done|]. simpl. rewrite IH.
  destruct (decide (k ∈ r)); [by rewrite decide_True by (by right)|].
  destruct (decide (k = n)) as [->|Hne].
  - rewrite lookup_delete_eq. by rewrite decide_True by (by left).
  - rewrite lookup_delete_ne by done. rewrite decide_False; [done|]. rewrite elem_of_cons. tauto.
Qed.

(** Removing the first keys removes the first entries. *)
Lemma iter_fold_delete {V} n (m : gmap Z V) :
  btree_iter (fold_left (fun m h => delete h m) (take n (btree_iter m).*1) m) = drop n (btree_iter m).
Proof.
  apply entry_lt_ext; [apply btree_iter_sorted| |].
  - pose proof (btree_iter_sorted m) as Hs. rewrite <- (take_drop n (btree_iter m)) in Hs.
    by apply StronglySorted_app in Hs as (_ & _ & ?).
  - intros [k v]. rewrite elem_of_btree_iter, fold_delete_lookup, elem_of_drop_sorted by apply btree_iter_sorted.
    rewrite elem_of_btree_iter, <- fmap_take. destruct (decide _); naive_solver.
Qed.

Lemma iter_insert_last {V} (m : gmap Z V) h v : (forall k w, m !! k = Some w -> k < h) ->
  btree_iter (<[h := v]> m) = btree_iter m ++ [(h, v)].
Proof.
  intros Hm. assert (m !! h = None) as Hn.
  { destruct (m !! h) eqn:E; [|done]. specialize (Hm _ _ E). lia. }
  apply entry_lt_ext; [apply btree_iter_sorted| |].
  - apply StronglySorted_app_2; [|apply btree_iter_sorted|repeat constructor].
    intros [k w] [k' w'] Hk ->%list_elem_of_singleton. apply elem_of_btree_iter in Hk. apply (Hm _ _ Hk).
  - intros [k w]. rewrite elem_of_app, list_elem_of_singleton, !elem_of_btree_iter, lookup_insert_Some.
    split; [|naive_solver].
    intros [[<- <-]|[? ?]]; auto.
Qed.

Lemma last_sorted {V} (l : list (Z * V)) p k v : StronglySorted entry_lt l ->
  last l = Some p -> (k, v) ∈ l -> k <= p.1.
Proof.
  intros Hs Hl Hin. apply last_Some in Hl as [l' ->]. apply elem_of_app in Hin as [Hin|Hin].
  - apply StronglySorted_app in Hs as (Hlt & _ & _). specialize (Hlt (k, v) p Hin ltac:(by left)).
    unfold entry_lt in Hlt. simpl in Hlt. lia.
  - apply list_elem_of_singleton in Hin as <-. simpl. lia.
Qed.

(** ** Sums over a map *)

Section MapSum.
Context `{Countable K} {V : Type} (f : V -> Z).

Definition map_sum (m : gmap K V) : Z := map_fold (fun _ v acc => f v + acc) 0 m.

Lemma map_sum_empty : map_sum ∅ = 0.
Proof. done. Qed.

Lemma map_sum_fresh m k v : m !! k = None -> map_sum (<[k := v]> m) = f v + map_sum m.
Proof. intros Hk. unfold map_sum. rewrite map_fold_insert_L; [done|intros; lia|done]. Qed.

Lemma map_sum_delete m k v : m !! k = Some v -> map_sum m = f v + map_sum (delete k m).
Proof. intros Hk. unfold map_sum. rewrite (map_fold_delete_L _ _ k v m); [done|intros; lia|done]. Qed.

Lemma map_sum_insert m k v v' :
  m !! k = Some v -> map_sum (<[k := v']> m) = f v' - f v + map_sum m.
Proof.
  intros Hk. rewrite (map_sum_delete m k v Hk), <- insert_delete_eq.
  rewrite map_sum_fresh by apply lookup_delete_eq. lia.
Qed.

(** Both cases: the old entry counts as zero when there is none. *)
Lemma map_sum_update m k v :
  map_sum (<[k := v]> m) = f v - from_option f 0 (m !! k) + map_sum m.
Proof.
  destruct (m !! k) as [w|] eqn:E; simpl; [by apply map_sum_insert|].
  rewrite map_sum_fresh by done. lia.
Qed.

Lemma map_sum_nonneg m : map_Forall (fun _ v => 0 <= f v) m -> 0 <= map_sum m.
Proof.
  induction m as [|k v m Hk IH] using map_ind; intros Hall; [done|].
  apply map_Forall_insert in Hall as [Hv Hm]; [|done]. specialize (IH Hm).
  rewrite map_sum_fresh by done. lia.
Qed.

Lemma map_sum_lookup_le m k v :
  map_Forall (fun _ v => 0 <= f v) m -> m !! k = Some v -> f v <= map_sum m.
Proof.
  intros Hall Hk. rewrite (map_sum_delete m k v Hk).
  pose proof (map_sum_nonneg (delete k m) (map_Forall_delete _ _ _ Hall)). lia.
Qed.
End MapSum.

(** ** Byte strings in lexicographic order

    The [Ord] of [Vec<u8>] and of byte arrays, and the order of the keys of a
    column family. *)

Fixpoint lex_leb (a b : bytes) : bool :=
  match a, b with
  | [], _ => true
  | _ :: _, [] => false
  | x :: a', y :: b' =>
      if byte_to_Z x <? byte_to_Z y then true
      else if byte_to_Z y <? byte_to_Z x then false
      else lex_leb a' b'
  end.
Lemma lex_leb_app p x y : lex_leb (p ++ x) (p ++ y) = lex_leb x y.
Proof. induction p as [|b p IH]; [done|]. simpl. by rewrite Z.ltb_irrefl. Qed.

(** Different strings of one length decide the order of their extensions. *)
Lemma lex_leb_ext a a' x y :
  length a = length a' -> a <> a' -> lex_leb (a ++ x) (a' ++ y) = lex_leb a a'.
Proof.
  revert a'; induction a as [|b a IH]; intros [|b' a'] Hl Hne; simplify_eq/=.
  destruct (Z.ltb_spec (byte_to_Z b) (byte_to_Z b')); [done|].
  destruct (Z.ltb_spec (byte_to_Z b') (byte_to_Z b)); [done|]. apply IH; [done|].
  intros ->. apply Hne. f_equal. rewrite <- (byte_of_to_Z b), <- (byte_of_to_Z b'). f_equal. lia.
Qed.

Lemma lex_leb_total a b : lex_leb a b = true \/ lex_leb b a = true.
Proof.
  revert b; induction a as [|x a IH]; intros [|y b]; simpl; auto.
  destruct (Z.ltb_spec (byte_to_Z x) (byte_to_Z y)), (Z.ltb_spec (byte_to_Z y) (byte_to_Z x)); auto.
Qed.

Lemma lex_leb_trans a b c : lex_leb a b = true -> lex_leb b c = true -> lex_leb a c = true.
Proof.
  revert b c; induction a as [|x a IH]; intros [|y b] [|z c]; simpl; try done.
  destruct (Z.ltb_spec (byte_to_Z x) (byte_to_Z y)), (Z.ltb_spec (byte_to_Z y) (byte_to_Z x)),
    (Z.ltb_spec (byte_to_Z y) (byte_to_Z z)), (Z.ltb_spec (byte_to_Z z) (byte_to_Z y)),
    (Z.ltb_spec (byte_to_Z x) (byte_to_Z z)), (Z.ltb_spec (byte_to_Z z) (byte_to_Z x)); try done; try lia.
  apply IH.
Qed.

Lemma lex_leb_antisym a b : lex_leb a b = true -> lex_leb b a = true -> a = b.
Proof.
  revert b; induction a as [|x a IH]; intros [|y b]; simpl; try done.
  destruct (Z.ltb_spec (byte_to_Z x) (byte_to_Z y)), (Z.ltb_spec (byte_to_Z y) (byte_to_Z x));
    try done; try lia. intros Ha Hb. f_equal; [|by apply IH].
  rewrite <- (byte_of_to_Z x), <- (byte_of_to_Z y). f_equal. lia.
Qed.

Definition bytes_le (a b : bytes) : Prop := lex_leb a b = true.
#[global] Instance bytes_le_dec a b : Decision (bytes_le a b).
Proof. unfold bytes_le. apply _. Defined.
#[global] Instance bytes_le_total : Total bytes_le.
Proof. intros a b. apply lex_leb_total. Qed.
#[global] Instance bytes_le_trans : Transitive bytes_le.
Proof. intros a b c. apply lex_leb_trans. Qed.
#[global] Instance bytes_le_antisym : AntiSymm (=) bytes_le.
Proof. intros a b. apply lex_leb_antisym. Qed.
