(* ===== verification/Primitives.v ===== *)
(** * Consensus primitives

    [savitri-consensus/src/primitives]: the BFT quorum threshold
    ([quorum.rs]) and the slot/epoch arithmetic ([epoch.rs]); and
    [lattice_quorum] of [types/lattice.rs], the threshold the lattice
    aggregator uses.  The theorems relate the two thresholds to the
    quorum-intersection argument certificates rely on. *)

From S2P Require Import Prelude.

Module Quorum.

(** [quorum_for_voters], [usize] arithmetic. *)
Definition quorum_for_voters (n : Z) : Z :=
  if n =? 0 then 0 else wrap U64_MAX (2 * n + 2) / 3.

(** [lattice_quorum]. *)
Definition lattice_quorum (group_size : Z) : Z :=
  if group_size =? 0 then 0
  else let f := (group_size - 1) / 3 in 2 * f + 1.

(** The number of Byzantine members a set of [n] tolerates. *)
Definition max_faulty (n : Z) : Z := (n - 1) / 3.

(** Voter sets of at most 2{^62} members: no operation above wraps. *)
Definition voter_count (n : Z) : Prop := 0 < n <= 2 ^ 62.

Lemma quorum_for_voters_eq n :
  voter_count n -> quorum_for_voters n = (2 * n + 2) / 3.
Proof.
  unfold voter_count, quorum_for_voters. intros Hn.
  destruct (Z.eqb_spec n 0); [lia|]. rewrite wrap_id; [done|mlia].
Qed.

Lemma lattice_quorum_eq n : 0 < n -> lattice_quorum n = 2 * ((n - 1) / 3) + 1.
Proof. unfold lattice_quorum. intros. destruct (Z.eqb_spec n 0); [lia|done]. Qed.

(** Two sets of voters drawn from [V] overlap in at least as many voters as
    their sizes exceed [V] together. *)
Lemma overlap_size (V Q1 Q2 : gset string) :
  Q1 ⊆ V -> Q2 ⊆ V ->
  Z.of_nat (size Q1) + Z.of_nat (size Q2) - Z.of_nat (size V)
    <= Z.of_nat (size (Q1 ∩ Q2)).
Proof.
  intros H1 H2.
  pose proof (subseteq_size (Q1 ∪ Q2) V ltac:(set_solver)) as HV.
  rewrite size_union_alt in HV.
  assert (size Q2 = size (Q2 ∖ Q1) + size (Q1 ∩ Q2))%nat as HQ.
  { rewrite <- size_union by set_solver. f_equal. apply set_eq. intros x.
    destruct (decide (x ∈ Q1)); set_solver. }
  lia.
Qed.

(** More voters than there are Byzantine ones include an honest one. *)
Lemma honest_member (I B : gset string) :
  (size B < size I)%nat -> exists v, v ∈ I /\ v ∉ B.
Proof.
  intros Hlt. destruct (decide (I ⊆ B)) as [Hs|Hs].
  - apply subseteq_size in Hs. lia.
  - destruct (set_choose_L (I ∖ B)) as [v Hv]; [|set_solver].
    intros He. apply Hs. intros x Hx. destruct (decide (x ∈ B)); set_solver.
Qed.

(** [quorum_for_voters] is the ceiling of two thirds: the least threshold
    whose triple reaches twice the voter count. *)
Lemma quorum_for_voters_ceil n q :
  voter_count n -> (quorum_for_voters n <= q <-> 2 * n <= 3 * q).
Proof. intros Hn. rewrite quorum_for_voters_eq by done. unfold voter_count in *. mlia. Qed.

(** any two quorums of the canonical threshold [quorum_for_voters] drawn
    from the same voter set share a voter outside any set of at most
    [(n - 1) / 3] Byzantine voters, and honest voters alone can still reach
    the threshold; so two conflicting certificates need an honest double
    vote, and certification stays live. *)
Theorem quorum_for_voters_safe (V B Q1 Q2 : gset string) :
  voter_count (Z.of_nat (size V)) ->
  B ⊆ V -> Z.of_nat (size B) <= max_faulty (Z.of_nat (size V)) ->
  Q1 ⊆ V -> Q2 ⊆ V ->
  quorum_for_voters (Z.of_nat (size V)) <= Z.of_nat (size Q1) ->
  quorum_for_voters (Z.of_nat (size V)) <= Z.of_nat (size Q2) ->
  (exists v, v ∈ Q1 /\ v ∈ Q2 /\ v ∉ B) /\
  quorum_for_voters (Z.of_nat (size V)) <= Z.of_nat (size (V ∖ B)).
Proof.
  intros Hn HB Hf H1 H2 Hq1 Hq2.
  pose proof (overlap_size V Q1 Q2 H1 H2) as Ho.
  rewrite quorum_for_voters_eq in * by done. unfold voter_count, max_faulty in *.
  split.
  - destruct (honest_member (Q1 ∩ Q2) B) as (v & Hv & HvB); [mlia|]. set_solver.
  - rewrite size_difference by done. apply subseteq_size in HB. mlia.
Qed.

Definition v4 : gset string := list_to_set ["a"; "b"; "c"; "d"].
Lemma quorum_for_voters_safe_witness :
  exists v, v ∈ (list_to_set ["a"; "b"; "c"] : gset string) /\
            v ∈ (list_to_set ["b"; "c"; "d"] : gset string) /\ v ∉ ({["b"]} : gset string).
Proof.
  apply (quorum_for_voters_safe v4 {["b"]} (list_to_set ["a"; "b"; "c"])
           (list_to_set ["b"; "c"; "d"])); try (vm_compute; done);
  try (vm_compute; split; done); set_solver.
Defined.

(** The two thresholds of the code base agree exactly on voter sets of
    size [3f + 1]; elsewhere [lattice_quorum] is smaller by one.  (Its doc
    comment states that it mirrors [quorum_for_voters].) *)
Theorem lattice_quorum_vs_canonical (n : Z) :
  voter_count n ->
  lattice_quorum n = quorum_for_voters n - (if n mod 3 =? 1 then 0 else 1).
Proof.
  intros Hn. rewrite quorum_for_voters_eq by done.
  unfold voter_count in Hn. rewrite lattice_quorum_eq by lia.
  destruct (Z.eqb_spec (n mod 3) 1); mlia.
Qed.

Lemma lattice_quorum_vs_canonical_witness :
  lattice_quorum 5 = quorum_for_voters 5 - 1.
Proof. apply (lattice_quorum_vs_canonical 5). vm_compute; split; done. Defined.

(** What [lattice_quorum] guarantees.  A lattice quorum always holds an
    honest member and is reachable by honest members alone; the overlap
    [2q - n] that any two of them are sure to have exceeds the number of
    Byzantine members exactly when the group size is [3f + 1]. *)
Theorem lattice_quorum_guarantees (n : Z) :
  voter_count n ->
  let f := max_faulty n in
  f < lattice_quorum n <= n - f /\
  (n mod 3 = 1 <-> f < 2 * lattice_quorum n - n).
Proof.
  unfold voter_count. intros Hn. cbv zeta. rewrite lattice_quorum_eq by lia.
  unfold max_faulty. mlia.
Qed.

Lemma lattice_quorum_guarantees_witness : 1 < lattice_quorum 5 <= 4.
Proof. apply (lattice_quorum_guarantees 5). vm_compute; split; done. Defined.

(** At the aggregator's default group size of five, two lattice quorums
    exist whose only common member is Byzantine, so two conflicting
    certificates can be formed without any honest double vote. *)
Theorem lattice_quorum_default_overlap :
  exists V B Q1 Q2 : gset string,
    Z.of_nat (size V) = 5 /\ B ⊆ V /\ Z.of_nat (size B) <= max_faulty 5 /\
    Q1 ⊆ V /\ Q2 ⊆ V /\
    lattice_quorum 5 <= Z.of_nat (size Q1) /\ lattice_quorum 5 <= Z.of_nat (size Q2) /\
    (forall v, v ∈ Q1 -> v ∈ Q2 -> v ∈ B).
Proof.
  exists (list_to_set ["a"; "b"; "c"; "d"; "e"]), {["c"]},
    (list_to_set ["a"; "b"; "c"]), (list_to_set ["c"; "d"; "e"]).
  repeat split; try (vm_compute; done); set_solver.
Qed.

End Quorum.

Module Epoch.

(** [current_slot]. *)
Definition current_slot (now_ms genesis_ms heartbeat_ms : Z) : Z :=
  if (heartbeat_ms =? 0) || (now_ms <=? genesis_ms) then 0
  else (now_ms - genesis_ms) / heartbeat_ms.

(** [current_epoch]. *)
Definition current_epoch (now_ms genesis_ms heartbeat_ms slots_per_epoch : Z) : Z :=
  let spe := Z.max slots_per_epoch 1 in
  current_slot now_ms genesis_ms heartbeat_ms / spe.

(** The epoch of a time is the elapsed time divided by the epoch length,
    zero before genesis; it never exceeds the clock value, and it is monotone
    in the clock. *)
Theorem current_epoch_formula (t t' g h s : Z) :
  0 <= g -> 0 < h -> 0 < s -> 0 <= t <= t' ->
  current_epoch t g h s = Z.max 0 (t - g) / (h * s) /\
  current_epoch t g h s <= current_epoch t' g h s <= t'.
Proof.
  intros Hg Hh Hs Ht.
  assert (forall x, current_epoch x g h s = Z.max 0 (x - g) / (h * s)) as E.
  { intros x. unfold current_epoch, current_slot.
    destruct (Z.eqb_spec h 0); [lia|]. rewrite (Z.max_l s 1) by lia.
    destruct (Z.leb_spec x g); simpl.
    - rewrite Z.max_l by lia. by rewrite Z.div_0_l, Z.div_0_l by nia.
    - rewrite Z.max_r by lia. apply Z.div_div; lia. }
  rewrite !E. split; [done|]. split.
  - apply Z.div_le_mono; nia.
  - transitivity (Z.max 0 (t' - g)); [|lia].
    assert (1 <= h * s) by nia. apply Z.div_le_upper_bound; [lia|].
    generalize (Z.max 0 (t' - g)) (Z.le_max_l 0 (t' - g)). nia.
Qed.

Lemma current_epoch_formula_witness : current_epoch 5000 1000 100 8 = 5.
Proof. apply (current_epoch_formula 5000 6000 1000 100 8); lia. Defined.

End Epoch.
