(* ===== verification/Gas.v ===== *)
(** * Gas metering

    [Savitri-contracts/src/contracts/gas.rs]: the cost table and the batched
    gas meter.  Every [&mut self] method is a computation in the state monad
    over [GasMeter]; an error keeps the meter as the method left it. *)

From S2P Require Import Prelude.

Module Gas.

Record GasCosts := {
  sload : Z;
  sstore_new : Z;
  sstore_update : Z;
  call : Z;
  create : Z;
  transfer : Z;
  log : Z;
  log_topic : Z;
  log_data : Z;
  calldata_byte : Z;
}.

(** [impl Default for GasCosts]. *)
Definition GasCosts_default : GasCosts := {|
  sload := 100;
  sstore_new := 20000;
  sstore_update := 5000;
  call := 2300;
  create := 32000;
  transfer := 300;
  log := 375;
  log_topic := 375;
  log_data := 8;
  calldata_byte := 16;
|}.

Record GasMeter := mkMeter {
  gas_limit : Z;
  gas_used : Z;
  costs : GasCosts;
  batch_accumulator : Z;
  batch_count : Z;
  batch_limit : Z;
}.

Inductive GasError :=
| GasOverflow
| OutOfGas (used limit : Z).

Definition new (limit : Z) : GasMeter :=
  mkMeter limit 0 GasCosts_default 0 0 100.

Definition with_batch_limit (limit blimit : Z) : GasMeter :=
  mkMeter limit 0 GasCosts_default 0 0 blimit.

Definition set_used (v : Z) (m : GasMeter) : GasMeter :=
  mkMeter (gas_limit m) v (costs m) (batch_accumulator m) (batch_count m) (batch_limit m).
Definition set_batch (acc cnt : Z) (m : GasMeter) : GasMeter :=
  mkMeter (gas_limit m) (gas_used m) (costs m) acc cnt (batch_limit m).

Definition G (A : Type) : Type := M GasMeter GasError A.

(** [commit_batch]: [gas_used] is written before the limit is checked and the
    accumulator is cleared only after the check. *)
Definition commit_batch : G unit :=
  m ← get;
  if batch_accumulator m >? 0 then
    used ← lift (ok_or (checked_add U64_MAX (gas_used m) (batch_accumulator m)) GasOverflow);
    modify (set_used used);;
    bail_if (used >? gas_limit m) (OutOfGas used (gas_limit m));;
    modify (set_batch 0 0)
  else mret tt.

Definition consume (amount : Z) : G unit :=
  m ← get;
  acc ← lift (ok_or (checked_add U64_MAX (batch_accumulator m) amount) GasOverflow);
  modify (set_batch acc (wrap U64_MAX (batch_count m + 1)));;
  m' ← get;
  if batch_count m' >=? batch_limit m' then commit_batch else mret tt.

Definition consume_immediate (amount : Z) : G unit :=
  commit_batch;;
  modify (set_batch amount 1);;
  commit_batch.

Definition consume_sload : G unit :=
  m ← get; consume (sload (costs m)).

Definition consume_sstore (is_new : bool) : G unit :=
  m ← get;
  consume (if is_new then sstore_new (costs m) else sstore_update (costs m)).

Definition consume_call (calldata_len : option Z) : G unit :=
  m ← get;
  cost ← lift match calldata_len with
    | Some len =>
        match checked_mul U64_MAX len (calldata_byte (costs m)) with
        | Some c => ok_or (checked_add U64_MAX (call (costs m)) c) GasOverflow
        | None => Err GasOverflow
        end
    | None => Ok (call (costs m))
    end;
  consume cost.

Definition consume_create (bytecode_len : Z) : G unit :=
  m ← get;
  c ← lift (ok_or (checked_mul U64_MAX bytecode_len (calldata_byte (costs m))) GasOverflow);
  cost ← lift (ok_or (checked_add U64_MAX (create (costs m)) c) GasOverflow);
  consume cost.

Definition consume_log (topics data_len : Z) : G unit :=
  m ← get;
  base ← lift (if topics >? 0 then
      match checked_mul U64_MAX (topics - 1) (log_topic (costs m)) with
      | Some c => ok_or (checked_add U64_MAX (log (costs m)) c) GasOverflow
      | None => Err GasOverflow
      end
    else Ok (log (costs m)));
  d ← lift (ok_or (checked_mul U64_MAX data_len (log_data (costs m))) GasOverflow);
  cost ← lift (ok_or (checked_add U64_MAX base d) GasOverflow);
  consume cost.

Definition consume_transfer : G unit :=
  m ← get; consume (transfer (costs m)).

Definition gas_remaining (m : GasMeter) : Z := saturating_sub (gas_limit m) (gas_used m).

(** The getter [gas_used()] includes the batch accumulator. *)
Definition total_used (m : GasMeter) : Z :=
  wrap U64_MAX (gas_used m + batch_accumulator m).

Definition has_gas (m : GasMeter) (amount : Z) : bool :=
  match checked_add U64_MAX (wrap U64_MAX (gas_used m + batch_accumulator m)) amount with
  | Some total => total <=? gas_limit m
  | None => false
  end.

Definition reset (limit : Z) : G unit :=
  fun m =>
    let m' := snd (commit_batch m) in
    (Ok tt, mkMeter limit 0 (costs m') 0 0 (batch_limit m')).

Definition batch_stats (m : GasMeter) : Z * Z := (batch_count m, batch_accumulator m).

(** ** The meter as a ledger *)

(** A meter no error has been raised on. *)
Definition meter_ok (m : GasMeter) : Prop :=
  0 <= gas_used m <= gas_limit m /\ gas_limit m <= U64_MAX /\
  0 <= batch_accumulator m <= U64_MAX /\
  (0 < batch_accumulator m -> 0 <= batch_count m < batch_limit m) /\
  (batch_accumulator m = 0 -> batch_count m = 0) /\
  0 < batch_limit m <= U64_MAX.

(** Charge a list of amounts in order, stopping at the first error. *)
Fixpoint consume_all (amounts : list Z) : G unit :=
  match amounts with
  | [] => mret tt
  | a :: rest => consume a;; consume_all rest
  end.

Definition pend (m : GasMeter) : Z := gas_used m + batch_accumulator m.

(** Committing keeps the ledger total, fails exactly on a total over the
    limit, and clears the batch on success. *)
Lemma commit_batch_spec m :
  meter_ok m ->
  commit_batch m =
    if pend m <=? gas_limit m
    then (Ok tt, mkMeter (gas_limit m) (pend m) (costs m) 0 0 (batch_limit m))
    else if pend m <=? U64_MAX
         then (Err (OutOfGas (pend m) (gas_limit m)), set_used (pend m) m)
         else (Err GasOverflow, m).
Proof.
  destruct m as [lim used cs acc cnt bl].
  unfold meter_ok, pend, commit_batch, mbind, M_bind, get, lift, modify, bail_if,
    fail, mret, M_ret, set_used, set_batch. simpl. intros Hok.
  rewrite Z.gtb_ltb. destruct (Z.ltb_spec 0 acc) as [Hacc|Hacc].
  - unfold checked_add. destruct (Z.leb_spec (used + acc) U64_MAX); simpl.
    + rewrite Z.gtb_ltb, Z.ltb_antisym.
      destruct (Z.leb_spec (used + acc) lim); done.
    + destruct (Z.leb_spec (used + acc) lim); [lia|done].
  - assert (acc = 0) as -> by lia. assert (cnt = 0) as -> by (apply Hok; lia).
    rewrite Z.add_0_r. destruct (Z.leb_spec used lim); [done|lia].
Qed.

(** A successful charge of a positive amount adds it to the ledger and keeps
    the meter well formed; below the batch limit the limit is not consulted. *)
Lemma consume_spec m amount m' :
  meter_ok m -> 0 < amount ->
  consume amount m = (Ok tt, m') ->
  meter_ok m' /\ pend m' = pend m + amount /\
  gas_limit m' = gas_limit m /\ batch_limit m' = batch_limit m /\
  ((gas_used m' = gas_used m /\ batch_count m' = batch_count m + 1) \/
   (gas_used m' = pend m' /\ batch_accumulator m' = 0 /\ batch_count m' = 0 /\
    batch_limit m <= batch_count m + 1)).
Proof.
  intros Hok Ha Hc. destruct m as [lim used cs acc cnt bl].
  unfold consume, mbind, M_bind, get, lift, modify in Hc. simpl in Hc.
  unfold checked_add in Hc. destruct (Z.leb_spec (acc + amount) U64_MAX); [|done].
  simpl in Hc. rewrite wrap_id in Hc by (unfold meter_ok in Hok; simpl in Hok; mlia).
  rewrite Z.geb_leb in Hc.
  destruct (Z.leb_spec bl (cnt + 1)) as [Hbl|Hbl]; simpl in Hc.
  - set (m1 := set_batch _ _ _) in Hc.
    unfold commit_batch, mbind, M_bind, get, lift, modify, bail_if, fail in Hc.
    simpl in Hc. rewrite Z.gtb_ltb in Hc.
    unfold meter_ok in *; simpl in *.
    destruct (Z.ltb_spec 0 (acc + amount)); [|lia]. unfold checked_add in Hc.
    destruct (Z.leb_spec (used + (acc + amount)) U64_MAX); simpl in Hc; [|done].
    rewrite Z.gtb_ltb in Hc.
    destruct (Z.ltb_spec lim (used + (acc + amount))); simpl in Hc; [done|].
    injection Hc as <-. unfold pend; simpl. repeat split; lia.
  - injection Hc as <-. unfold meter_ok, pend in *; simpl in *.
    repeat split; lia.
Qed.

(** No operation changes the cost table. *)
Lemma consume_costs amount m : costs (snd (consume amount m)) = costs m.
Proof.
  unfold consume, commit_batch, mbind, M_bind, get, lift, modify, bail_if, fail, mret, M_ret.
  repeat (simpl; first [done|case_match; simplify_eq/=]).
Qed.

(** Whether it succeeds or not, a charge keeps the limit and does not
    overflow. *)
Lemma consume_bounds m amount : meter_ok m -> 0 < amount ->
  let m' := snd (consume amount m) in
  gas_limit m' = gas_limit m /\ in_range U64_MAX (gas_used m') /\ in_range U64_MAX (batch_accumulator m').
Proof.
  intros Hok Ha. destruct m as [lim used cs acc cnt bl]. unfold meter_ok in Hok. simpl in Hok.
  unfold consume, commit_batch, mbind, M_bind, get, lift, modify, bail_if, fail, mret, M_ret, checked_add. simpl.
  destruct (Z.leb_spec (acc + amount) U64_MAX); simpl; [|mlia].
  destruct (_ >=? bl); simpl; [|mlia]. destruct (acc + amount >? 0); simpl; [|mlia].
  destruct (Z.leb_spec (used + (acc + amount)) U64_MAX); simpl; [|mlia]. destruct (_ >? lim); simpl; mlia.
Qed.

(** ** How long a meter lasts

    A meter that has charged only positive amounts holds at least as much gas
    as it has counted charges, so each further charge that succeeds uses up
    one of [charges_left]. *)
Definition lasting (m : GasMeter) : Prop := meter_ok m /\ batch_count m <= batch_accumulator m.

Definition charges_left (m : GasMeter) : Z :=
  (gas_limit m - gas_used m) + (batch_limit m - batch_count m).

Lemma lasting_new limit : in_range U64_MAX limit ->
  lasting (new limit) /\ charges_left (new limit) = limit + 100.
Proof. unfold lasting, meter_ok, charges_left. simpl. mlia. Qed.

Lemma lasting_charges_left m : lasting m -> 0 < charges_left m.
Proof.
  unfold lasting, meter_ok, charges_left. intros [(? & ? & ? & Hc & Hz & ?) ?].
  destruct (Z.eq_dec (batch_accumulator m) 0) as [E|E]; [rewrite Hz by done; lia|].
  specialize (Hc ltac:(lia)). lia.
Qed.

Lemma consume_lasting amount m m' :
  lasting m -> 0 < amount -> consume amount m = (Ok tt, m') ->
  lasting m' /\ charges_left m' < charges_left m.
Proof.
  intros [Hok Hle] Ha Hc. destruct (consume_spec m amount m' Hok Ha Hc)
    as (Hok' & Hp & Hl & Hb & Hcase).
  unfold lasting, charges_left, pend in *. rewrite Hl, Hb.
  assert (0 <= batch_count m < batch_limit m \/ batch_count m = 0) as Hcnt.
  { destruct Hok as (_ & _ & ? & Hc1 & Hc2 & ?).
    destruct (Z.eq_dec (batch_accumulator m) 0) as [E|E];
      [right; by apply Hc2|left; apply Hc1; lia]. }
  unfold meter_ok in *. destruct Hcase as [[Hu Hn]|(Hu & Hz & Hn & Hb1)]; split; lia.
Qed.

(** a fresh meter charged with a list of positive amounts without an
    error has its ledger equal to their sum; every amount except fewer than
    [batch_limit] trailing ones has been checked against the gas limit; and
    the final [commit_batch] succeeds exactly when the whole sum fits. *)
Theorem consume_all_ledger (limit blimit : Z) (amounts : list Z) (m : GasMeter) :
  0 <= limit <= U64_MAX -> 0 < blimit <= U64_MAX -> Forall (Z.lt 0) amounts ->
  consume_all amounts (with_batch_limit limit blimit) = (Ok tt, m) ->
  gas_used m + batch_accumulator m = sumZ amounts /\
  (exists checked unchecked, amounts = checked ++ unchecked /\
     sumZ checked = gas_used m /\ gas_used m <= limit /\ Z.of_nat (length unchecked) < blimit) /\
  (is_ok (fst (commit_batch m)) = true <-> sumZ amounts <= limit).
Proof.
  intros Hl Hb Hpos Hrun.
  assert (forall l m0 pre, Forall (Z.lt 0) l -> meter_ok m0 ->
    gas_limit m0 = limit -> batch_limit m0 = blimit -> pend m0 = sumZ pre ->
    (exists c u, pre = c ++ u /\ sumZ c = gas_used m0 /\
       Z.of_nat (length u) = batch_count m0) ->
    consume_all l m0 = (Ok tt, m) ->
    meter_ok m /\ gas_limit m = limit /\ batch_limit m = blimit /\
    pend m = sumZ (pre ++ l) /\
    (exists c u, pre ++ l = c ++ u /\ sumZ c = gas_used m /\
       Z.of_nat (length u) = batch_count m)) as Hgen.
  { clear Hrun amounts Hpos. induction l as [|a l IH]; intros m0 pre Hp Hok Hlim Hbl Hpe Hsp Hr.
    - injection Hr as <-. by rewrite app_nil_r.
    - inversion Hp; subst. simpl in Hr. unfold mbind, M_bind in Hr.
      destruct (consume a m0) as [[[]|e] m1] eqn:E1; [|done].
      destruct (consume_spec m0 a m1) as (Hok1 & Hp1 & Hl1 & Hb1 & Hc1); try done.
      replace (pre ++ a :: l) with ((pre ++ [a]) ++ l) by (by rewrite <- app_assoc).
      apply (IH m1); try congruence; try done.
      + rewrite Hp1, Hpe, sumZ_app. simpl. lia.
      + destruct Hsp as (c & u & -> & Hc & Hu). destruct Hc1 as [[Hu1 Hn1]|(Hu1 & _ & Hn1 & _)].
        * exists c, (u ++ [a]). rewrite app_assoc, length_app. simpl. split; [done|lia].
        * exists ((c ++ u) ++ [a]), []. rewrite app_nil_r. split; [done|]. split; [|simpl; lia].
          rewrite Hu1, Hp1, Hpe, (sumZ_app _ [a]). simpl. lia. }
  specialize (Hgen amounts (with_batch_limit limit blimit) [] Hpos).
  destruct Hgen as (Hok & Hlim & Hbl & Hpe & c & u & Hcu & Hc & Hu); try done.
  { unfold meter_ok; simpl. lia. }
  { exists [], []. done. }
  simpl in Hpe, Hcu. unfold pend in Hpe. split; [done|]. split.
  - exists c, u. split; [done|]. unfold meter_ok in Hok. split; [lia|]. split; [lia|].
    destruct (Z.eq_dec (batch_accumulator m) 0) as [E|E]; [|lia].
    assert (batch_count m = 0) by (apply Hok; done). lia.
  - rewrite commit_batch_spec by done. unfold pend.
    destruct (Z.leb_spec (gas_used m + batch_accumulator m) (gas_limit m));
      [|destruct (Z.leb_spec (gas_used m + batch_accumulator m) U64_MAX)];
      simpl; rewrite ?Hpe in *; split; intros; try done; lia.
Qed.

Lemma consume_all_ledger_witness :
  let m := snd (consume_all [100; 5000; 100] (with_batch_limit 6000 2)) in
  gas_used m + batch_accumulator m = 5200.
Proof.
  intros m. apply (consume_all_ledger 6000 2 [100; 5000; 100] m);
    [vm_compute; split; done|vm_compute; split; done|repeat constructor|reflexivity].
Defined.

(** The limit is not enforced between commits.  On the default meter (batch
    limit 100) with a gas limit of zero, 99 writes to fresh slots are all
    charged without an error, [gas_remaining] and [gas_limit] agree that
    nothing was spent, and only the hundredth charge reports the shortage. *)
Theorem default_meter_overdraft :
  let writes n := consume_all (replicate n (sstore_new GasCosts_default)) (new 0) in
  is_ok (fst (writes 99%nat)) = true /\
  gas_used (snd (writes 99%nat)) = 0 /\
  total_used (snd (writes 99%nat)) = 1980000 /\
  has_gas (snd (writes 99%nat)) 0 = false /\
  fst (writes 100%nat) = Err (OutOfGas 2000000 0).
Proof. vm_compute. repeat split; done. Qed.

End Gas.
