(* ===== verification/ContractStorage.v ===== *)
(** * Contract storage, call frames and events

    [Savitri-contracts/src/contracts]: the per-contract slot storage with its
    write overlay and read cache ([storage.rs]), the part of the runtime the
    standards read ([runtime.rs]: the top call frame) and the event buffers
    ([events.rs]).  All of them are threaded, with the optional gas meter,
    through one execution state.

    The database ([savitri_storage::Storage] over RocksDB) is a parameter: a
    record of the functions the contract code calls. *)

From S2P Require Import Prelude Gas.

(** ** The database, the runtime and the execution state *)

(** What contract code uses of [savitri_storage::Storage]. *)
Record Storage := {
  get_cf : string -> bytes -> result unit (option bytes);
}.

Definition CF_CONTRACTS : string := "contracts"%string.

Inductive ContractError :=
| GasFailed (e : Gas.GasError)
| DatabaseError
| InvalidDbLength (len : nat)
| InvalidValueLength (len : nat)
| ReservedSlot (slot : Z)
| NotReservedSlot (slot : Z)
| AccessViolation
| InvalidAddressLength (len : nat)
| NoCaller
| NoContract
| ValueTooShort
| Paused
| NotPaused
| AlreadyPaused
| OnlyOwner
| ZeroAddress
| SameOwner
| BadHex
| InsufficientBalance (have_ need : Z)
| InsufficientAllowance (have_ need : Z)
| BurnNotAuthorized
| Underflow
| Overflow
| BadUtf8
| InvalidProposalId
| TokenExists
| NoSuchToken
| NotTokenOwner
| CannotApproveOwner
| NotOwnerNorApproved
| GasMeterRequired
| ReceiverRejected
| LengthMismatch
| BurnDisabled
| EnumerationDisabled
| IndexOutOfBounds (index length : Z)
| OperatorIsOwner
| Message (m : string).

Record CallFrame := {
  cf_contract_address : bytes;
  cf_caller : bytes;
  cf_value : Z;
  cf_calldata : bytes;
  cf_return_data : bytes;
  cf_gas_remaining : Z;
  cf_depth : Z;
  cf_storage_snapshot : bytes;
}.

Record Runtime := {
  call_stack : list CallFrame;
  block_timestamp : Z;
}.

Inductive StandardEvent :=
| EvOwnershipTransferred (previous_owner new_owner : string)
| EvPaused (account : string)
| EvUnpaused (account : string)
| EvUpgraded (contract_address : string) (new_version : Z)
| EvGovernanceHookTriggered (contract_address proposal_id action_type : string)
| EvFeeHookTriggered (contract_address caller : string) (amount : Z)
| EvCallbackTriggered (callback_id payload_hash : string) (payload : bytes).

Record CustomEvent := {
  ev_contract_address : string;
  ev_name : string;
  ev_topics : list bytes;
  ev_data : bytes;
}.

Record ContractStorage := mkCS {
  contract_address : bytes;
  overlay : gmap Z bytes;
  read_cache : gmap Z bytes;
}.

(** Everything an operation can mutate: the contract storage, the optional
    gas meter and the two event buffers of the event system. *)
Record ExecState := mkES {
  es_cs : ContractStorage;
  es_gas : option Gas.GasMeter;
  es_events : list StandardEvent;
  es_custom : list CustomEvent;
}.

Definition X (A : Type) : Type := M ExecState ContractError A.

Module CS.

(** [Runtime::current_frame] and [current_contract_address]. *)
Definition current_frame (r : Runtime) : option CallFrame := last (call_stack r).
Definition current_contract_address (r : Runtime) : option bytes :=
  cf_contract_address <$> current_frame r.

(** [ContractStorage::new]. *)
Definition new (addr : bytes) : result ContractError ContractStorage :=
  if bool_decide (length addr = 32%nat) then Ok (mkCS addr ∅ ∅)
  else Err (InvalidAddressLength (length addr)).

(** [if let Some(gas_meter) = gas_meter { gas_meter.op().map_err(..)?; }]. *)
Definition meter (op : Gas.G unit) : X unit := fun s =>
  match es_gas s with
  | None => (Ok tt, s)
  | Some m =>
      match op m with
      | (Ok _, m') => (Ok tt, mkES (es_cs s) (Some m') (es_events s) (es_custom s))
      | (Err e, m') => (Err (GasFailed e), mkES (es_cs s) (Some m') (es_events s) (es_custom s))
      end
  end.

Definition upd_cs (f : ContractStorage -> ContractStorage) (s : ExecState) : ExecState :=
  mkES (f (es_cs s)) (es_gas s) (es_events s) (es_custom s).

Definition storage_prefix : bytes := bytes_of_string "storage:"%string.

(** [make_storage_key]: ["storage:" ++ address ++ slot_le]. *)
Definition make_storage_key (addr : bytes) (slot : Z) : bytes :=
  storage_prefix ++ addr ++ to_le_bytes 8 slot.

Definition make_storage_prefix (addr : bytes) : bytes := storage_prefix ++ addr.

Section Ops.
Context (st : Storage).

(** The [get_cf(CF_CONTRACTS, key)?] both accessors perform. *)
Definition db_get (addr : bytes) (slot : Z) : result ContractError (option bytes) :=
  match get_cf st CF_CONTRACTS (make_storage_key addr slot) with
  | Ok o => Ok o
  | Err _ => Err DatabaseError
  end.

(** [ContractStorage::sload]. *)
Definition sload (slot : Z) : X bytes :=
  meter Gas.consume_sload;;
  cs ← gets es_cs;
  match overlay cs !! slot with
  | Some v => mret v
  | None =>
      match read_cache cs !! slot with
      | Some v => mret v
      | None =>
          o ← lift (db_get (contract_address cs) slot);
          value ← lift match o with
            | Some v => if bool_decide (length v = 32%nat) then Ok v
                        else Err (InvalidDbLength (length v))
            | None => Ok (zeros 32)
            end;
          modify (upd_cs (fun c => mkCS (contract_address c) (overlay c)
                                     (<[slot := value]> (read_cache c))));;
          mret value
      end
  end.

(** Shared tail of [sstore] and [sstore_reserved]: the new-slot test, the
    gas charge and the write, where an all-zero value removes the entry. *)
Definition is_new_slot (cs : ContractStorage) (slot : Z) : result ContractError bool :=
  let from_db :=
    match db_get (contract_address cs) slot with
    | Ok o => Ok (bool_decide (o = None))
    | Err e => Err e
    end in
  match overlay cs !! slot with
  | Some current => if is_zero current then from_db else Ok false
  | None => from_db
  end.

Definition write_slot (slot : Z) (value : bytes) : ContractStorage -> ContractStorage :=
  fun c => if is_zero value
    then mkCS (contract_address c) (delete slot (overlay c)) (delete slot (read_cache c))
    else mkCS (contract_address c) (<[slot := value]> (overlay c))
           (<[slot := value]> (read_cache c)).

Definition charge_and_write (slot : Z) (value : bytes) : X unit :=
  cs ← gets es_cs;
  is_new ← lift (is_new_slot cs slot);
  meter (Gas.consume_sstore is_new);;
  modify (upd_cs (write_slot slot value)).

(** [BaseContract::is_reserved_slot] / [validate_slot_not_reserved]. *)
Definition is_reserved_slot (slot : Z) : bool := (0 <=? slot) && (slot <=? 99).

(** [ContractStorage::sstore]. *)
Definition sstore (slot : Z) (value : bytes) : X unit :=
  bail_if (negb (bool_decide (length value = 32%nat))) (InvalidValueLength (length value));;
  bail_if (is_reserved_slot slot) (ReservedSlot slot);;
  charge_and_write slot value.

(** [ContractStorage::sstore_reserved]. *)
Definition sstore_reserved (slot : Z) (value : bytes) : X unit :=
  bail_if (negb (bool_decide (length value = 32%nat))) (InvalidValueLength (length value));;
  bail_if (negb (is_reserved_slot slot)) (NotReservedSlot slot);;
  charge_and_write slot value.

(** [is_isolated], [validate_access] and the isolated accessors. *)
Definition is_isolated (cs : ContractStorage) (other : bytes) : bool :=
  negb (bool_decide (contract_address cs = other)).

Definition validate_access (accessing : bytes) : X unit :=
  bail_if (negb (bool_decide (length accessing = 32%nat)))
    (InvalidAddressLength (length accessing));;
  cs ← gets es_cs;
  bail_if (negb (bool_decide (accessing = contract_address cs))) AccessViolation.

Definition sload_with_isolation (accessing : bytes) (slot : Z) : X bytes :=
  validate_access accessing;; sload slot.
Definition sstore_with_isolation (accessing : bytes) (slot : Z) (v : bytes) : X unit :=
  validate_access accessing;; sstore slot v.
Definition sload_with_runtime (r : Runtime) (slot : Z) : X bytes :=
  cur ← lift (ok_or (current_contract_address r) NoContract);
  validate_access cur;; sload slot.
Definition sstore_with_runtime (r : Runtime) (slot : Z) (v : bytes) : X unit :=
  cur ← lift (ok_or (current_contract_address r) NoContract);
  validate_access cur;; sstore slot v.
Definition clear_read_cache : X unit :=
  modify (upd_cs (fun c => mkCS (contract_address c) (overlay c) ∅)).
Definition clear_overlay : X unit :=
  modify (upd_cs (fun c => mkCS (contract_address c) ∅ (read_cache c))).

End Ops.

(** ** Events: the gas for the log is charged first; a shortage drops the
    event and is not reported to the caller. *)

Definition standard_event_size (e : StandardEvent) : Z * Z :=
  match e with
  | EvOwnershipTransferred _ _ => (2, 0)
  | EvPaused _ => (1, 0)
  | EvUnpaused _ => (1, 0)
  | EvUpgraded _ _ => (2, 0)
  | EvGovernanceHookTriggered _ _ _ => (3, 0)
  | EvFeeHookTriggered _ _ _ => (2, 32)
  | EvCallbackTriggered _ _ payload => (2, Z.of_nat (length payload))
  end.

Definition emit_standard_event (e : StandardEvent) : X unit := fun s =>
  match meter (Gas.consume_log (fst (standard_event_size e)) (snd (standard_event_size e))) s with
  | (Ok _, s') => (Ok tt, mkES (es_cs s') (es_gas s') (es_events s' ++ [e]) (es_custom s'))
  | (Err _, s') => (Ok tt, s')
  end.

Definition emit_custom_event (e : CustomEvent) : X unit := fun s =>
  match meter (Gas.consume_log (Z.of_nat (length (ev_topics e)))
                 (Z.of_nat (length (ev_data e)))) s with
  | (Ok _, s') => (Ok tt, mkES (es_cs s') (es_gas s') (es_events s') (es_custom s' ++ [e]))
  | (Err _, s') => (Ok tt, s')
  end.

(** ** The logical content of a storage *)

(** What the database holds for a slot; absent slots read as zero. *)
Definition db_value (st : Storage) (addr : bytes) (slot : Z) : bytes :=
  match db_get st addr slot with Ok (Some v) => v | _ => zeros 32 end.

(** What a read of the slot returns: overlay over database. *)
Definition view_cs (st : Storage) (cs : ContractStorage) (slot : Z) : bytes :=
  default (db_value st (contract_address cs) slot) (overlay cs !! slot).

Definition view (st : Storage) (s : ExecState) (slot : Z) : bytes := view_cs st (es_cs s) slot.

(** Overlay values are 32 bytes and the read cache only repeats what a read
    would return. *)
Record cs_wf (st : Storage) (cs : ContractStorage) : Prop := {
  wf_overlay : forall slot v, overlay cs !! slot = Some v -> length v = 32%nat;
  wf_cache : forall slot v, read_cache cs !! slot = Some v ->
    length v = 32%nat /\ v = view_cs st cs slot;
}.

(** No access of this contract's slots fails in the database. *)
Definition db_ok (st : Storage) (addr : bytes) : Prop :=
  forall slot, exists o, db_get st addr slot = Ok o /\
    (forall v, o = Some v -> length v = 32%nat).

(** The operations can fail for lack of gas or a database error only here. *)
Definition fallible (st : Storage) (s : ExecState) : Prop :=
  es_gas s <> None \/ ~ db_ok st (contract_address (es_cs s)).

(** [s'] is reached from [s] by reads, charges and events only: everything
    observable of the storage is as before. *)
Record reads (st : Storage) (s s' : ExecState) : Prop := {
  rd_wf : cs_wf st (es_cs s');
  rd_addr : contract_address (es_cs s') = contract_address (es_cs s);
  rd_gas : es_gas s = None <-> es_gas s' = None;
  rd_view : forall k, view st s' k = view st s k;
}.

(** What a slot holds after [v] is written to it. *)
Definition stored (st : Storage) (s : ExecState) (slot : Z) (v : bytes) : bytes :=
  if is_zero v then db_value st (contract_address (es_cs s)) slot else v.

Record writes (st : Storage) (slot : Z) (v : bytes) (s s' : ExecState) : Prop := {
  wr_wf : cs_wf st (es_cs s');
  wr_addr : contract_address (es_cs s') = contract_address (es_cs s);
  wr_gas : es_gas s = None <-> es_gas s' = None;
  wr_view : forall k, view st s' k = if decide (k = slot) then stored st s slot v else view st s k;
}.

Lemma reads_refl st s : cs_wf st (es_cs s) -> reads st s s.
Proof. by constructor. Qed.

#[global] Instance reads_trans st : Transitive (reads st).
Proof.
  intros a b c [] []. constructor; [done|congruence|by etransitivity|].
  intros k. by rewrite rd_view1.
Qed.

Lemma reads_fallible st s s' : reads st s s' -> fallible st s' -> fallible st s.
Proof. intros []. unfold fallible. rewrite rd_addr0. tauto. Qed.

Lemma writes_fallible st k v s s' : writes st k v s s' -> fallible st s' -> fallible st s.
Proof. intros []. unfold fallible. rewrite wr_addr0. tauto. Qed.

Lemma reads_stored st s s' k v : reads st s s' -> stored st s' k v = stored st s k v.
Proof. intros []. unfold stored. by rewrite rd_addr0. Qed.

Lemma writes_stored st k0 v0 s s' k v :
  writes st k0 v0 s s' -> stored st s' k v = stored st s k v.
Proof. intros []. unfold stored. by rewrite wr_addr0. Qed.

(** Reads before and after a write leave it the only change. *)
Lemma writes_between st k v a b c d :
  reads st a b -> writes st k v b c -> reads st c d -> writes st k v a d.
Proof.
  intros H1 H2 H3. split; [apply H3|..].
  - rewrite (rd_addr _ _ _ H3), (wr_addr _ _ _ _ _ H2). apply H1.
  - rewrite (rd_gas _ _ _ H1), (wr_gas _ _ _ _ _ H2). apply H3.
  - intros i. rewrite (rd_view _ _ _ H3), (wr_view _ _ _ _ _ H2), (reads_stored _ _ _ _ _ H1).
    case_decide; [done|apply H1].
Qed.

(** ** Rules for the accessors *)

Lemma meter_reads st op s :
  cs_wf st (es_cs s) ->
  exists s', reads st s s' /\
    ((meter op s = (Ok tt, s')) \/
     (es_gas s <> None /\ exists e, meter op s = (Err (GasFailed e), s'))).
Proof.
  intros Hwf. unfold meter. destruct (es_gas s) as [m|] eqn:Hg.
  - destruct (op m) as [[[]|e] m'].
    + eexists. split; [|by left]. split; simpl; try done. by rewrite Hg.
    + eexists. split; [|by right; split; [|by eexists]]. split; simpl; try done. by rewrite Hg.
  - exists s. split; [by apply reads_refl|by left].
Qed.

Lemma cs_wf_insert_cache st cs slot v :
  cs_wf st cs -> length v = 32%nat -> overlay cs !! slot = None ->
  v = db_value st (contract_address cs) slot ->
  cs_wf st (mkCS (contract_address cs) (overlay cs) (<[slot := v]> (read_cache cs))).
Proof.
  intros [Ho Hc] Hl Hn Hv. split; simpl; [done|].
  intros k w Hk. apply lookup_insert_Some in Hk as [[<- <-]|[Hne Hk]].
  - split; [done|]. unfold view_cs; simpl. by rewrite Hn.
  - by apply Hc.
Qed.

(** The rule for [sload]: it returns the logical content of the slot, 32
    bytes long, and changes nothing observable. *)
Lemma wp_sload st slot (Q : bytes -> ExecState -> Prop) R s :
  cs_wf st (es_cs s) ->
  (forall s', reads st s s' -> length (view st s slot) = 32%nat -> Q (view st s slot) s') ->
  (forall e s', reads st s s' -> fallible st s -> R e s') ->
  wp (sload st slot) Q R s.
Proof.
  intros Hwf HQ HR. unfold sload. apply wp_bind. unfold wp at 1.
  destruct (meter_reads st Gas.consume_sload s Hwf) as (s1 & Hr & [->|[Hg [e ->]]]);
    [|apply HR; [done|by left]].
  apply wp_bind, wp_gets.
  destruct Hr as [Hwf1 Ha1 Hg1 Hv1].
  assert (reads st s s1) as Hr by done.
  destruct (overlay (es_cs s1) !! slot) as [v|] eqn:Eo.
  { apply wp_ret. assert (view st s slot = v) as <-.
    { rewrite <- Hv1. unfold view, view_cs. by rewrite Eo. }
    apply HQ; [done|]. rewrite <- Hv1. unfold view, view_cs. rewrite Eo.
    by apply (wf_overlay _ _ Hwf1 slot). }
  destruct (read_cache (es_cs s1) !! slot) as [v|] eqn:Ec.
  { apply wp_ret. destruct (wf_cache _ _ Hwf1 _ _ Ec) as [Hl ->].
    fold (view st s1 slot) in *. rewrite Hv1 in *. by apply HQ. }
  assert (view st s slot = db_value st (contract_address (es_cs s)) slot) as Hview.
  { rewrite <- Hv1. unfold view, view_cs. by rewrite Eo, Ha1. }
  apply wp_bind, wp_lift; [|intros e He; apply HR; [done|]; right; rewrite <- Ha1;
    intros Hdb; destruct (Hdb slot) as (o & Ho & _); congruence].
  intros o Ho. apply wp_bind, wp_lift.
  - intros v Hv. apply wp_bind, wp_modify, wp_ret.
    assert (length v = 32%nat /\ v = view st s slot) as [Hl ->].
    { rewrite Hview. unfold db_value. rewrite <- Ha1, Ho.
      destruct o as [w|]; [|by injection Hv as <-].
      case_bool_decide; [|done]. by injection Hv as <-. }
    apply HQ; [|done]. etransitivity; [done|]. split; simpl; try done.
    apply cs_wf_insert_cache; try done. by rewrite Ha1.
  - intros e He. apply HR; [done|]. right. rewrite <- Ha1. intros Hdb.
    destruct (Hdb slot) as (o' & Ho' & Hlen). rewrite Ho in Ho'. injection Ho' as <-.
    destruct o as [w|]; [|discriminate He].
    rewrite bool_decide_eq_true_2 in He by auto. discriminate He.
Qed.

Lemma cs_wf_write st cs slot v :
  cs_wf st cs -> length v = 32%nat -> cs_wf st (write_slot slot v cs).
Proof.
  intros [Ho Hc] Hl. unfold write_slot. destruct (is_zero v) eqn:Hz; split; simpl.
  - intros k w [Hne Hk]%lookup_delete_Some. by eapply Ho.
  - intros k w [Hne Hk]%lookup_delete_Some. destruct (Hc _ _ Hk) as [? ->].
    unfold view_cs; simpl. by rewrite lookup_delete_ne.
  - intros k w [[<- <-]|[Hne Hk]]%lookup_insert_Some; [done|by eapply Ho].
  - intros k w [[<- <-]|[Hne Hk]]%lookup_insert_Some; unfold view_cs; simpl.
    + by rewrite lookup_insert_eq.
    + rewrite lookup_insert_ne by done. by apply Hc.
Qed.

Lemma view_write st s slot v k :
  view_cs st (write_slot slot v (es_cs s)) k =
  if decide (k = slot) then stored st s slot v else view st s k.
Proof.
  unfold view, view_cs, write_slot, stored. destruct (is_zero v); simpl; case_decide; subst.
  - by rewrite lookup_delete_eq.
  - by rewrite lookup_delete_ne.
  - by rewrite lookup_insert_eq.
  - by rewrite lookup_insert_ne.
Qed.

Lemma wp_charge_and_write st slot v (Q : unit -> ExecState -> Prop) R s :
  cs_wf st (es_cs s) -> length v = 32%nat ->
  (forall s', writes st slot v s s' -> Q tt s') ->
  (forall e s', reads st s s' -> fallible st s -> R e s') ->
  wp (charge_and_write st slot v) Q R s.
Proof.
  intros Hwf Hl HQ HR. unfold charge_and_write.
  apply wp_bind, wp_gets, wp_bind, wp_lift.
  - intros b Hb. apply wp_bind. unfold wp at 1.
    destruct (meter_reads st (Gas.consume_sstore b) s Hwf) as (s1 & Hr & [->|[Hg [e ->]]]);
      [|apply HR; [done|by left]].
    apply wp_modify, HQ. destruct Hr as [Hwf1 Ha Hg Hv]. split; simpl.
    + by apply cs_wf_write.
    + rewrite <- Ha. unfold write_slot. by destruct (is_zero v).
    + done.
    + intros k. unfold view at 1. simpl. rewrite view_write, Hv.
      unfold stored. by rewrite Ha.
  - intros e He. apply HR; [by apply reads_refl|]. right. intros Hdb.
    destruct (Hdb slot) as (o & Ho & _). unfold is_new_slot in He. rewrite Ho in He.
    destruct (overlay (es_cs s) !! slot) as [w|]; [destruct (is_zero w)|]; done.
Qed.

(** The rule for [sstore]: the slot now holds [stored v], every other slot
    what it held; an error leaves the content alone. *)
Lemma wp_sstore st slot v (Q : unit -> ExecState -> Prop) R s :
  cs_wf st (es_cs s) -> length v = 32%nat ->
  (forall s', writes st slot v s s' -> is_reserved_slot slot = false -> Q tt s') ->
  (forall e s', reads st s s' -> (fallible st s \/ is_reserved_slot slot = true) -> R e s') ->
  wp (sstore st slot v) Q R s.
Proof.
  intros Hwf Hl HQ HR. unfold sstore. rewrite bool_decide_eq_true_2 by done.
  apply wp_bind, wp_bail_if; [done|intros _]. apply wp_bind, wp_bail_if.
  - intros Hres. apply HR; [by apply reads_refl|by right].
  - intros Hres. apply wp_charge_and_write; [done..|by auto|]. intros e s' ? ?.
    apply HR; [done|by left].
Qed.

Lemma wp_sstore_reserved st slot v (Q : unit -> ExecState -> Prop) R s :
  cs_wf st (es_cs s) -> length v = 32%nat -> is_reserved_slot slot = true ->
  (forall s', writes st slot v s s' -> Q tt s') ->
  (forall e s', reads st s s' -> fallible st s -> R e s') ->
  wp (sstore_reserved st slot v) Q R s.
Proof.
  intros Hwf Hl Hres HQ HR. unfold sstore_reserved. rewrite bool_decide_eq_true_2 by done.
  apply wp_bind, wp_bail_if; [done|intros _]. apply wp_bind, wp_bail_if.
  - by rewrite Hres.
  - intros _. by apply wp_charge_and_write.
Qed.

Lemma wp_emit_custom st e (Q : unit -> ExecState -> Prop) R s :
  cs_wf st (es_cs s) ->
  (forall s', reads st s s' -> Q tt s') -> wp (emit_custom_event e) Q R s.
Proof.
  intros Hwf HQ. unfold wp, emit_custom_event.
  destruct (meter_reads st (Gas.consume_log (Z.of_nat (length (ev_topics e)))
    (Z.of_nat (length (ev_data e)))) s Hwf) as (s1 & Hr & [->|[Hg [e' ->]]]); apply HQ; [|done].
  destruct Hr. by split.
Qed.

Lemma wp_emit_standard st e (Q : unit -> ExecState -> Prop) R s :
  cs_wf st (es_cs s) ->
  (forall s', reads st s s' -> Q tt s') -> wp (emit_standard_event e) Q R s.
Proof.
  intros Hwf HQ. unfold wp, emit_standard_event.
  destruct (meter_reads st (Gas.consume_log (fst (standard_event_size e))
    (snd (standard_event_size e))) s Hwf) as (s1 & Hr & [->|[Hg [e' ->]]]); apply HQ; [|done].
  destruct Hr. by split.
Qed.

(** Discharge one accessor at the head of a [wp] goal, naming what it leaves. *)
Ltac wp_accessor :=
  lazymatch goal with
  | |- wp (sload _ _ ≫= _) _ _ _ => apply wp_bind, wp_sload
  | |- wp (sload _ _) _ _ _ => apply wp_sload
  | |- wp (sstore _ _ _ ≫= _) _ _ _ => apply wp_bind, wp_sstore
  | |- wp (sstore _ _ _) _ _ _ => apply wp_sstore
  | |- wp (sstore_reserved _ _ _ ≫= _) _ _ _ => apply wp_bind, wp_sstore_reserved
  | |- wp (sstore_reserved _ _ _) _ _ _ => apply wp_sstore_reserved
  | |- wp (emit_custom_event _ ≫= _) _ _ _ => apply wp_bind; eapply wp_emit_custom
  | |- wp (emit_custom_event _) _ _ _ => eapply wp_emit_custom
  | |- wp (emit_standard_event _ ≫= _) _ _ _ => apply wp_bind; eapply wp_emit_standard
  | |- wp (emit_standard_event _) _ _ _ => eapply wp_emit_standard
  end.

(** Rewrite the content of a later state to that of the earlier one, through
    the [reads] and [writes] facts in the context. *)
Ltac views :=
  repeat match goal with
  | H : reads ?st ?s ?s' |- context [view ?st ?s' ?k] => rewrite (rd_view _ _ _ H k)
  | H : writes ?st _ _ ?s ?s' |- context [view ?st ?s' ?k] => rewrite (wr_view _ _ _ _ _ H k)
  | H : reads ?st ?s ?s' |- context [stored ?st ?s' ?k ?v] => rewrite (reads_stored _ _ _ k v H)
  | H : writes ?st _ _ ?s ?s' |- context [stored ?st ?s' ?k ?v] =>
      rewrite (writes_stored _ _ _ _ _ k v H)
  | H : reads ?st ?s ?s', H' : context [view ?st ?s' ?k] |- _ =>
      lazymatch type of H' with reads _ _ _ => fail | writes _ _ _ _ _ => fail
      | _ => rewrite (rd_view _ _ _ H k) in H' end
  | H : writes ?st _ _ ?s ?s', H' : context [view ?st ?s' ?k] |- _ =>
      lazymatch type of H' with reads _ _ _ => fail | writes _ _ _ _ _ => fail
      | _ => rewrite (wr_view _ _ _ _ _ H k) in H' end
  end.

Lemma stored_nonzero st s k v : is_zero v = false -> stored st s k v = v.
Proof. unfold stored. by intros ->. Qed.

(** A write of [v] to [slot] takes effect unless it writes zero over a
    persisted non-zero value. *)
Definition effective (st : Storage) (addr : bytes) (slot : Z) (v : bytes) : Prop :=
  is_zero v = true -> is_zero (db_value st addr slot) = true.

Lemma db_value_length st addr slot : db_ok st addr -> length (db_value st addr slot) = 32%nat.
Proof.
  intros Hdb. unfold db_value. destruct (Hdb slot) as (o & -> & Hl).
  destruct o; [by apply Hl|apply length_zeros].
Qed.

Lemma stored_effective st s k v :
  db_ok st (contract_address (es_cs s)) -> length v = 32%nat ->
  effective st (contract_address (es_cs s)) k v -> stored st s k v = v.
Proof.
  intros Hdb Hl He. unfold stored. destruct (is_zero v) eqn:Hz; [|done].
  specialize (He Hz). apply is_zero_spec in Hz, He. rewrite He, Hz, Hl.
  by rewrite db_value_length.
Qed.

(** ** The storage as a map: refinement *)

Inductive access :=
| Rd (slot : Z)
| Wr (slot : Z) (value : bytes).

Fixpoint run_storage (st : Storage) (l : list access) : X (list bytes) :=
  match l with
  | [] => mret []
  | Rd k :: rest => v ← sload st k; vs ← run_storage st rest; mret (v :: vs)
  | Wr k v :: rest => sstore st k v;; run_storage st rest
  end.

(** The specification: a total map from slots to 32-byte words. *)
Fixpoint run_map (m : Z -> bytes) (l : list access) : list bytes :=
  match l with
  | [] => []
  | Rd k :: rest => m k :: run_map m rest
  | Wr k v :: rest => run_map (fun i => if decide (i = k) then v else m i) rest
  end.

Definition access_ok (st : Storage) (addr : bytes) (a : access) : Prop :=
  match a with
  | Rd _ => True
  | Wr k v => length v = 32%nat /\ is_reserved_slot k = false /\ effective st addr k v
  end.

Lemma run_map_ext m m' l : (forall k, m k = m' k) -> run_map m l = run_map m' l.
Proof.
  revert m m'; induction l as [|[k|k v] l IH]; intros m m' He; simpl; [done| |].
  - by rewrite He, (IH _ _ He).
  - apply IH. intros i. by case_decide.
Qed.

Lemma not_fallible st s :
  es_gas s = None -> db_ok st (contract_address (es_cs s)) -> ~ fallible st s.
Proof. unfold fallible. tauto. Qed.

(** C10: the overlay, the read cache and the database together implement a
    plain map.  From any well-formed state with no meter and a database that
    answers, every sequence of reads and of writes to non-reserved slots runs
    to completion and its reads return exactly what the map returns, provided
    no write puts zero over a persisted non-zero value. *)
Theorem run_storage_refines_map (st : Storage) (s : ExecState) (l : list access) :
  cs_wf st (es_cs s) -> es_gas s = None -> db_ok st (contract_address (es_cs s)) ->
  Forall (access_ok st (contract_address (es_cs s))) l ->
  exists s', run_storage st l s = (Ok (run_map (view st s) l), s').
Proof.
  revert s; induction l as [|[k|k v] l IH]; intros s Hwf Hg Hdb Hl.
  - by exists s.
  - inversion Hl as [|? ? _ Hl']; subst.
    assert (wp (sload st k) (fun v s' => v = view st s k /\ reads st s s') (fun _ _ => False) s)
      as Hw. { apply wp_sload; [done..|]. intros e s' _ Hf. by apply (not_fallible st s) in Hf. }
    simpl. unfold mbind at 1, M_bind at 1. unfold wp in Hw.
    destruct (sload st k s) as [[v|e] s1]; [|done]. destruct Hw as [-> Hr].
    destruct (IH s1) as [s2 H2]; [apply Hr|by apply (rd_gas _ _ _ Hr)|by rewrite (rd_addr _ _ _ Hr)..|].
    exists s2. unfold mbind, M_bind. rewrite H2. unfold mret, M_ret. do 3 f_equal.
    apply run_map_ext, Hr.
  - inversion Hl as [|? ? Hok Hl']; subst. destruct Hok as (Hlen & Hres & Heff).
    assert (wp (sstore st k v) (fun _ s' => writes st k v s s') (fun _ _ => False) s) as Hw.
    { apply wp_sstore; [done..|]. intros e s' _ [Hf|Hf]; [by apply (not_fallible st s) in Hf|congruence]. }
    simpl. unfold mbind at 1, M_bind at 1. unfold wp in Hw.
    destruct (sstore st k v s) as [[[]|e] s1]; [|done].
    destruct (IH s1) as [s2 H2]; [apply Hw|by apply (wr_gas _ _ _ _ _ Hw)|
      by rewrite (wr_addr _ _ _ _ _ Hw)..|].
    exists s2. rewrite H2. do 2 f_equal. apply run_map_ext. intros i.
    rewrite (wr_view _ _ _ _ _ Hw). case_decide; [|done]. by apply stored_effective.
Qed.

(** An in-memory database with the given slots of one contract. *)
Definition mem_storage (m : gmap bytes bytes) : Storage := {|
  get_cf := fun cf key => if decide (cf = CF_CONTRACTS) then Ok (m !! key) else Err tt
|}.
Definition addr0 : bytes := zeros 32.
Definition word (n : Z) : bytes := to_le_bytes 32 n.
Definition fresh (addr : bytes) : ExecState := mkES (mkCS addr ∅ ∅) None [] [].

Lemma cs_wf_fresh st addr : cs_wf st (es_cs (fresh addr)).
Proof. split; simpl; intros ? ? H; by rewrite lookup_empty in H. Qed.

(** Well-formedness of a concrete state, by evaluation. *)
Lemma cs_wf_decide st cs :
  bool_decide (map_Forall (fun _ v => length v = 32%nat) (overlay cs)) = true ->
  bool_decide (map_Forall (fun slot v => length v = 32%nat /\ v = view_cs st cs slot)
    (read_cache cs)) = true ->
  cs_wf st cs.
Proof. intros Ho%bool_decide_eq_true Hc%bool_decide_eq_true. split; intros; eauto. Qed.

Lemma db_ok_mem m addr :
  map_Forall (fun _ v => length v = 32%nat) m -> db_ok (mem_storage m) addr.
Proof.
  intros Hm slot. exists (m !! make_storage_key addr slot). split; [done|].
  intros v Hv. by apply (Hm _ _ Hv).
Qed.

Lemma run_storage_refines_map_witness :
  exists s', run_storage (mem_storage ∅) [Rd 200; Wr 200 (word 7); Wr 201 (word 8);
     Wr 200 (word 0); Rd 200; Rd 201] (fresh addr0)
   = (Ok [word 0; word 0; word 8], s').
Proof.
  destruct (run_storage_refines_map (mem_storage ∅) (fresh addr0)
    [Rd 200; Wr 200 (word 7); Wr 201 (word 8); Wr 200 (word 0); Rd 200; Rd 201]) as [s' H].
  - apply cs_wf_fresh.
  - done.
  - by apply db_ok_mem.
  - repeat constructor.
  - exists s'. rewrite H. reflexivity.
Defined.

(** A write of zero to a slot the database holds a non-zero value for is
    lost: the call succeeds, and the next read returns the old persisted
    value instead of zero. *)
Theorem sstore_zero_lost (st : Storage) (s : ExecState) (slot : Z) :
  cs_wf st (es_cs s) -> es_gas s = None -> db_ok st (contract_address (es_cs s)) ->
  is_reserved_slot slot = false ->
  exists s' s'', sstore st slot (zeros 32) s = (Ok tt, s') /\
    sload st slot s' = (Ok (db_value st (contract_address (es_cs s)) slot), s'').
Proof.
  intros Hwf Hg Hdb Hres.
  assert (wp (sstore st slot (zeros 32);; sload st slot)
    (fun v _ => v = db_value st (contract_address (es_cs s)) slot) (fun _ _ => False) s) as H.
  { wp_accessor; [done..| |].
    - intros s1 Hw _. wp_accessor; [apply Hw|intros s2 _ _|].
      + views. by rewrite decide_True.
      + intros e s2 _ Hf. by apply (writes_fallible _ _ _ _ _ Hw), (not_fallible st s) in Hf.
    - intros e s1 _ [Hf|]; [by apply (not_fallible st s) in Hf|congruence]. }
  unfold wp, mbind, M_bind in H. destruct (sstore st slot (zeros 32) s) as [[[]|e] s1]; [|done].
  destruct (sload st slot s1) as [[v|e] s2] eqn:E; [|done]. subst v. by exists s1, s2.
Qed.

Definition persisted7 : Storage := mem_storage {[ make_storage_key addr0 200 := word 7 ]}.
Lemma persisted7_ok : db_ok persisted7 addr0.
Proof. apply db_ok_mem. by apply map_Forall_singleton. Qed.

Lemma sstore_zero_lost_witness :
  exists s' s'', sstore persisted7 200 (zeros 32) (fresh addr0) = (Ok tt, s') /\
    sload persisted7 200 s' = (Ok (word 7), s'').
Proof.
  apply (sstore_zero_lost persisted7 (fresh addr0) 200);
    [apply cs_wf_fresh|done|apply persisted7_ok|done].
Defined.

(** Storage keys identify the contract and the slot: for 32-byte
    addresses and [u64] slots the keys are equal exactly when both are. *)
Theorem make_storage_key_inj (a a' : bytes) (k k' : Z) :
  length a = 32%nat -> length a' = 32%nat -> in_range U64_MAX k -> in_range U64_MAX k' ->
  make_storage_key a k = make_storage_key a' k' <-> a = a' /\ k = k'.
Proof.
  intros Ha Ha' Hk Hk'. split; [intros H|by intros [-> ->]].
  unfold make_storage_key in H. apply app_inv_head in H.
  apply app_inj_1 in H as [-> H]; [|congruence]. split; [done|].
  apply (f_equal from_le_bytes) in H. rewrite !from_to_le_bytes in H.
  rewrite !Z.mod_small in H; [done|mlia..].
Qed.

Lemma make_storage_key_inj_witness :
  make_storage_key addr0 5 = make_storage_key (word 1) 5 <-> addr0 = word 1 /\ 5 = 5.
Proof. apply (make_storage_key_inj addr0 (word 1) 5 5); done. Defined.

(** Contract code cannot reach the slots of the base contract through
    [sstore]: whatever slot and value it passes and however the call ends,
    slots 0 to 99 keep their content. *)
Theorem sstore_preserves_reserved (st : Storage) (s : ExecState) (slot k : Z) (v : bytes) :
  cs_wf st (es_cs s) -> is_reserved_slot k = true ->
  view st (snd (sstore st slot v s)) k = view st s k.
Proof.
  intros Hwf Hk. destruct (decide (length v = 32%nat)) as [Hl|Hl].
  - assert (wp (sstore st slot v) (fun _ s' => view st s' k = view st s k)
      (fun _ s' => view st s' k = view st s k) s) as H.
    { wp_accessor; [done..|intros s' Hw Hs|intros e s' Hr _]; views; [|done].
      rewrite decide_False; [done|congruence]. }
    unfold wp in H. by destruct (sstore st slot v s) as [[?|?] ?].
  - unfold sstore. rewrite (bool_decide_eq_false_2 _ Hl). done.
Qed.

Lemma sstore_preserves_reserved_witness :
  view persisted7 (snd (sstore persisted7 0 (word 3) (fresh addr0))) 0 = word 0.
Proof.
  rewrite (sstore_preserves_reserved persisted7 (fresh addr0) 0 0 (word 3));
    [reflexivity|apply cs_wf_fresh|done].
Defined.

(** An accessor called with the address of another contract fails with
    an isolation error and changes nothing. *)
Theorem isolation (st : Storage) (s : ExecState) (other : bytes) (slot : Z) (v : bytes) :
  length other = 32%nat -> other <> contract_address (es_cs s) ->
  sload_with_isolation st other slot s = (Err AccessViolation, s) /\
  sstore_with_isolation st other slot v s = (Err AccessViolation, s) /\
  is_isolated (es_cs s) other = true.
Proof.
  intros Hl Hne. unfold sload_with_isolation, sstore_with_isolation, validate_access, is_isolated.
  rewrite (bool_decide_eq_true_2 _ Hl). unfold bail_if, mbind, M_bind, mret, M_ret, gets, fail.
  simpl. rewrite !bool_decide_eq_false_2 by congruence. done.
Qed.

Lemma isolation_witness :
  is_isolated (es_cs (fresh addr0)) (word 1) = true.
Proof. apply (isolation persisted7 (fresh addr0) (word 1) 200 (word 2)); [done|vm_compute; done]. Defined.

End CS.
