(* ===== verification/Codec.v ===== *)
(** * External codecs and hashes

    The crates [hex], [sha2], [sha3], [blake3] and [ed25519_dalek] are not
    part of the repository.  Their functions are class parameters of the
    models that call them; the laws the properties use are separate classes.
    The concrete instances at the end are executable, for witnesses. *)

From S2P Require Import Prelude.
From Stdlib Require Import Strings.Byte Strings.Ascii.

Lemma bytes_of_string_inj s s' : bytes_of_string s = bytes_of_string s' -> s = s'.
Proof.
  intros E. apply (f_equal String.string_of_list_byte) in E. unfold bytes_of_string in E.
  by rewrite !String.string_of_list_byte_of_string in E.
Qed.

(** [hex::encode], [hex::decode] ([None] for [Err]). *)
Class Hex := {
  hex_encode : bytes -> string;
  hex_decode : string -> option bytes;
}.

Definition hex_digit (a : ascii) : bool :=
  let n := nat_of_ascii a in
  ((48 <=? n) && (n <=? 57) || ((97 <=? n) && (n <=? 102)))%nat.

(** Documented behaviour of the crate: [encode] writes lower-case
    hexadecimal digits only and [decode] inverts it. *)
Class HexLaws `{Hex} : Prop := {
  hex_decode_encode : forall b, hex_decode (hex_encode b) = Some b;
  hex_encode_digits : forall b,
    Forall (fun a => hex_digit a = true) (String.list_ascii_of_string (hex_encode b));
}.

(** [Keccak256::digest] of a byte string. *)
Class Keccak := { keccak256 : bytes -> bytes }.

(** [blake3::hash], [Sha256::digest], [Sha512::digest]. *)
Class Blake3 := { blake3 : bytes -> bytes }.
Class Sha256 := { sha256 : bytes -> bytes }.
Class Sha512 := { sha512 : bytes -> bytes }.

(** [VerifyingKey::from_bytes(pk)] and [key.verify(msg, sig)]: false when the
    key does not parse or the signature does not verify. *)
Class Ed25519 := { ed25519_verify : bytes -> bytes -> bytes -> bool }.

(** The first eight bytes of a digest, as the [u64] slot number. *)
Definition hash_slot (h : bytes) : Z := from_le_bytes (take 8 h).

Lemma hash_slot_range h : in_range U64_MAX (hash_slot h).
Proof.
  unfold hash_slot, in_range. pose proof (from_le_bytes_range (take 8 h)) as [Hl Hu].
  split; [done|].
  assert (256 ^ Z.of_nat (length (take 8 h)) <= 256 ^ 8).
  { apply Z.pow_le_mono_r; [lia|]. rewrite length_take. lia. }
  mlia.
Qed.

(** [str::strip_prefix("0x")]. *)
Definition strip_0x (s : string) : option string :=
  match s with
  | String "0" (String "x" rest) => Some rest
  | _ => None
  end.

(** [decode_address] of the token standards: optional ["0x"], then exactly
    32 bytes of hexadecimal. *)
Inductive AddressError := BadHexDigits | BadAddressLength (len : nat).

Definition decode_address `{Hex} (s : string) : result AddressError bytes :=
  match hex_decode (default s (strip_0x s)) with
  | None => Err BadHexDigits
  | Some b => if bool_decide (length b = 32%nat) then Ok b else Err (BadAddressLength (length b))
  end.

Lemma decode_address_length `{Hex} s b : decode_address s = Ok b -> length b = 32%nat.
Proof.
  unfold decode_address. destruct (hex_decode _) as [v|]; [|done].
  case_bool_decide; [|done]. by intros [= <-].
Qed.

(** Printing an address and parsing it back is the identity, with or without
    the ["0x"] prefix. *)
Lemma decode_encode_address `{HexLaws} b :
  length b = 32%nat ->
  decode_address (hex_encode b) = Ok b /\ decode_address ("0x" +:+ hex_encode b) = Ok b.
Proof.
  intros Hl. unfold decode_address. split.
  - assert (strip_0x (hex_encode b) = None) as ->.
    { pose proof (hex_encode_digits b) as Hd.
      destruct (hex_encode b) as [|a [|a' r]]; [done|destruct a as [[] [] [] [] [] [] [] []]; done|].
      inversion Hd as [|? ? _ Hd']; subst. inversion Hd' as [|? ? Hx _]; subst.
      destruct (strip_0x (String a (String a' r))) eqn:E; [|done]. exfalso.
      simpl in E. destruct a as [[] [] [] [] [] [] [] []]; try done.
      destruct a' as [[] [] [] [] [] [] [] []]; done. }
    simpl. rewrite hex_decode_encode. by rewrite bool_decide_eq_true_2.
  - change (strip_0x ("0x" +:+ hex_encode b)) with (Some (hex_encode b)).
    cbn. rewrite hex_decode_encode. by rewrite bool_decide_eq_true_2.
Qed.

(** ** Executable instances *)

Definition nibble_char (n : N) : ascii :=
  ascii_of_N (if (n <? 10)%N then 48 + n else 87 + n)%N.

Definition char_nibble (a : ascii) : option N :=
  let n := N_of_ascii a in
  if ((48 <=? n) && (n <=? 57))%N then Some (n - 48)%N
  else if ((97 <=? n) && (n <=? 102))%N then Some (n - 87)%N
  else if ((65 <=? n) && (n <=? 70))%N then Some (n - 55)%N
  else None.

Fixpoint hex_encode_c (b : bytes) : string :=
  match b with
  | [] => EmptyString
  | x :: r => String (nibble_char (Byte.to_N x / 16))
                (String (nibble_char (Byte.to_N x mod 16)) (hex_encode_c r))
  end.

Fixpoint hex_decode_c (s : string) : option bytes :=
  match s with
  | EmptyString => Some []
  | String a (String a' r) =>
      match char_nibble a, char_nibble a', hex_decode_c r with
      | Some h, Some l, Some bs =>
          match Byte.of_N (16 * h + l) with Some b => Some (b :: bs) | None => None end
      | _, _, _ => None
      end
  | _ => None
  end.

#[global] Instance hex_concrete : Hex := {|
  hex_encode := hex_encode_c; hex_decode := hex_decode_c |}.

#[global] Instance hex_concrete_laws : HexLaws.
Proof.
  split; simpl.
  - induction b as [|x r IH]; [done|]. simpl. rewrite IH. by destruct x.
  - induction b as [|x r IH]; simpl; [constructor|].
    constructor; [by destruct x|]. constructor; [by destruct x|done].
Qed.

(** A small mixing function in the place of Keccak-256, for witnesses only. *)
Definition toy_hash (b : bytes) : bytes :=
  to_le_bytes 8 (foldl (fun acc x => (acc * 257 + byte_to_Z x + 1) mod 18446744073709551557) 1469 b)
  ++ zeros 24.
Definition keccak_toy : Keccak := {| keccak256 := toy_hash |}.

(** Stand-ins for a hash and for signatures, for witnesses only: the hash is
    the identity and a signature is the key followed by the message. *)
Definition toy_blake3 : Blake3 := {| blake3 := fun b => b |}.
Definition toy_sha256 : Sha256 := {| sha256 := fun b => b |}.
Definition toy_ed25519 : Ed25519 :=
  {| ed25519_verify := fun pk msg sig => bool_decide (sig = pk ++ msg) |}.
