(* ===== verification/BaseContract.v ===== *)
(** * The base contract

    [Savitri-contracts/src/contracts/base.rs]: ownership, version, pause flag
    and hook flags in the reserved slots, every operation of [BaseContract]
    except [upgrade] (which drives the upgrade system). *)

From S2P Require Import Prelude Gas ContractStorage Codec.
From Stdlib Require Import Strings.Byte.
Import CS.

Record ConnectorConfig := {
  max_ingest_per_minute : Z;
  max_payload_size : Z;
  rate_limit_window_secs : Z;
}.

(** [governance::proposals::ProposalAction]. *)
Inductive ProposalAction :=
| FeeVariation (new_base_fee new_max_fee : option Z)
| ProjectSelection (project_address : string) (amount : Z)
| Standards (standard_name standard_version : string)
| NonCore (description : string)
| ContractUpgrade (address new_code_hash : bytes) (description : string)
| SlashingParamsUpdate (new_min_bond_amount new_equivocation new_double_vote
    new_invalid_attestation : option Z)
| SetFlPolicy (fee_treasury_bps max_models : Z) (whitelist_aggregators : list string)
| ApproveFlModel (model_id : string)
| AbortFlRound (model_id : string) (round_id : Z)
| AddConnector (connector_id : string) (pubkey : bytes) (config : ConnectorConfig)
| RemoveConnector (connector_id : string).

Module Base.

Definition SLOT_OWNER : Z := 0.
Definition SLOT_VERSION : Z := 1.
Definition SLOT_GOVERNANCE_HOOK_ENABLED : Z := 2.
Definition SLOT_FEE_HOOK_ENABLED : Z := 3.
Definition SLOT_PAUSED : Z := 4.

Definition u64_to_storage_value (value : Z) : bytes := to_le_bytes 8 value ++ zeros 24.

Definition storage_value_to_u64 (value : bytes) : result ContractError Z :=
  if (length value <? 8)%nat then Err ValueTooShort else Ok (from_le_bytes (take 8 value)).

Definition bool_to_storage_value (value : bool) : bytes :=
  (if value then x01 else x00) :: zeros 31.

Definition storage_value_to_bool (value : bytes) : bool :=
  match value with [] => false | b :: _ => negb (Byte.eqb b x00) end.

(** The match of [on_governance_proposal] on the action. *)
Definition action_type (a : ProposalAction) : string :=
  match a with
  | FeeVariation _ _ => "FeeVariation"
  | ProjectSelection _ _ => "ProjectSelection"
  | Standards _ _ => "Standards"
  | NonCore _ => "NonCore"
  | ContractUpgrade _ _ _ => "ContractUpgrade"
  | SlashingParamsUpdate _ _ _ _ => "SlashingParamsUpdate"
  | SetFlPolicy _ _ _ => "SetFlPolicy"
  | ApproveFlModel _ => "ApproveFlModel"
  | AbortFlRound _ _ => "AbortFlRound"
  | AddConnector _ _ _ => "AddConnector"
  | RemoveConnector _ => "RemoveConnector"
  end%string.

(** [runtime.current_frame().ok_or_else(..)?.caller]. *)
Definition current_caller (rt : Runtime) : X bytes :=
  f ← lift (ok_or (current_frame rt) NoCaller); mret (cf_caller f).

Definition current_contract (rt : Runtime) : X bytes :=
  lift (ok_or (current_contract_address rt) NoContract).

Section Ops.
Context `{Hex} (st : Storage) (rt : Runtime).

Definition initialize (owner_address : bytes) : X unit :=
  bail_if (negb (bool_decide (length owner_address = 32%nat)))
    (InvalidAddressLength (length owner_address));;
  sstore_reserved st SLOT_OWNER owner_address;;
  sstore_reserved st SLOT_VERSION (u64_to_storage_value 1);;
  sstore_reserved st SLOT_GOVERNANCE_HOOK_ENABLED (bool_to_storage_value false);;
  sstore_reserved st SLOT_FEE_HOOK_ENABLED (bool_to_storage_value false);;
  sstore_reserved st SLOT_PAUSED (bool_to_storage_value false).

Definition get_owner : X bytes :=
  value ← sload st SLOT_OWNER;
  bail_if (negb (bool_decide (length value = 32%nat))) (InvalidValueLength (length value));;
  mret value.

Definition set_owner (owner_address : bytes) : X unit :=
  bail_if (negb (bool_decide (length owner_address = 32%nat)))
    (InvalidAddressLength (length owner_address));;
  sstore_reserved st SLOT_OWNER owner_address.

Definition get_version : X Z :=
  value ← sload st SLOT_VERSION; lift (storage_value_to_u64 value).

Definition set_version (version : Z) : X unit :=
  sstore_reserved st SLOT_VERSION (u64_to_storage_value version).

Definition is_paused : X bool :=
  value ← sload st SLOT_PAUSED; mret (storage_value_to_bool value).

Definition set_paused (paused : bool) : X unit :=
  sstore_reserved st SLOT_PAUSED (bool_to_storage_value paused).

Definition is_governance_hook_enabled : X bool :=
  value ← sload st SLOT_GOVERNANCE_HOOK_ENABLED; mret (storage_value_to_bool value).

Definition set_governance_hook_enabled (enabled : bool) : X unit :=
  sstore_reserved st SLOT_GOVERNANCE_HOOK_ENABLED (bool_to_storage_value enabled).

Definition is_fee_hook_enabled : X bool :=
  value ← sload st SLOT_FEE_HOOK_ENABLED; mret (storage_value_to_bool value).

Definition set_fee_hook_enabled (enabled : bool) : X unit :=
  sstore_reserved st SLOT_FEE_HOOK_ENABLED (bool_to_storage_value enabled).

Definition owner : X bytes := get_owner.
Definition version : X Z := get_version.

Definition transfer_ownership (new_owner : bytes) : X bool :=
  bail_if (negb (bool_decide (length new_owner = 32%nat)))
    (InvalidAddressLength (length new_owner));;
  bail_if (is_zero new_owner) ZeroAddress;;
  caller ← current_caller rt;
  current_owner ← get_owner;
  bail_if (negb (bool_decide (caller = current_owner))) OnlyOwner;;
  bail_if (bool_decide (new_owner = current_owner)) SameOwner;;
  set_owner new_owner;;
  emit_standard_event
    (EvOwnershipTransferred (hex_encode current_owner) (hex_encode new_owner));;
  mret true.

Definition pause : X bool :=
  caller ← current_caller rt;
  owner ← get_owner;
  bail_if (negb (bool_decide (caller = owner))) OnlyOwner;;
  p ← is_paused;
  bail_if p AlreadyPaused;;
  set_paused true;;
  emit_standard_event (EvPaused (hex_encode caller));;
  mret true.

Definition unpause : X bool :=
  caller ← current_caller rt;
  owner ← get_owner;
  bail_if (negb (bool_decide (caller = owner))) OnlyOwner;;
  p ← is_paused;
  bail_if (negb p) NotPaused;;
  set_paused false;;
  emit_standard_event (EvUnpaused (hex_encode caller));;
  mret true.

Definition set_governance_hook (enabled : bool) : X bool :=
  caller ← current_caller rt;
  owner ← get_owner;
  bail_if (negb (bool_decide (caller = owner))) OnlyOwner;;
  set_governance_hook_enabled enabled;;
  mret true.

Definition on_governance_proposal (proposal_id : bytes) (action : ProposalAction) : X bool :=
  bail_if (negb (bool_decide (length proposal_id = 32%nat))) InvalidProposalId;;
  hook ← is_governance_hook_enabled;
  if negb hook then mret true
  else
    addr ← current_contract rt;
    emit_standard_event (EvGovernanceHookTriggered (hex_encode addr)
      (hex_encode proposal_id) (action_type action));;
    mret true.

Definition trigger_governance_hook (proposal_id : bytes) (action : ProposalAction) : X bool :=
  hook ← is_governance_hook_enabled;
  if negb hook then mret true else on_governance_proposal proposal_id action.

Definition set_fee_hook (enabled : bool) : X bool :=
  caller ← current_caller rt;
  owner ← get_owner;
  bail_if (negb (bool_decide (caller = owner))) OnlyOwner;;
  set_fee_hook_enabled enabled;;
  mret true.

Definition on_fee_paid (amount : Z) : X bool :=
  hook ← is_fee_hook_enabled;
  if negb hook then mret true
  else
    caller ← current_caller rt;
    addr ← current_contract rt;
    emit_standard_event (EvFeeHookTriggered (hex_encode addr) (hex_encode caller) amount);;
    mret true.

Definition trigger_fee_hook (amount : Z) : X bool :=
  hook ← is_fee_hook_enabled;
  if negb hook then mret true else on_fee_paid amount.

(** ** Reading the fields of a state *)

Definition owner_of (s : ExecState) : bytes := view st s SLOT_OWNER.
Definition paused (s : ExecState) : bool := storage_value_to_bool (view st s SLOT_PAUSED).

Lemma wp_current_caller (Q : bytes -> ExecState -> Prop) (R : ContractError -> ExecState -> Prop) s :
  (forall f, current_frame rt = Some f -> Q (cf_caller f) s) ->
  (current_frame rt = None -> R NoCaller s) ->
  wp (current_caller rt) Q R s.
Proof.
  intros HQ HR. unfold current_caller. apply wp_bind, wp_lift.
  - intros f Hf%ok_or_Ok. apply wp_ret. by apply HQ.
  - intros e [Hn ->]%ok_or_Err. by apply HR.
Qed.

Lemma wp_current_contract (Q : bytes -> ExecState -> Prop) (R : ContractError -> ExecState -> Prop) s :
  (forall f, current_frame rt = Some f -> Q (cf_contract_address f) s) ->
  (current_frame rt = None -> R NoContract s) ->
  wp (current_contract rt) Q R s.
Proof.
  intros HQ HR. unfold current_contract, current_contract_address.
  destruct (current_frame rt) as [f|]; simpl; apply wp_lift; simpl; intros ? He; simplify_eq.
  - by apply HQ.
  - by apply HR.
Qed.

Lemma wp_get_owner (Q : bytes -> ExecState -> Prop) R s :
  cs_wf st (es_cs s) ->
  (forall s', reads st s s' -> Q (owner_of s) s') ->
  (forall e s', reads st s s' -> fallible st s -> R e s') ->
  wp get_owner Q R s.
Proof.
  intros Hwf HQ HR. unfold get_owner. wp_accessor; [done| |done].
  intros s1 H1 Hl. rewrite (bool_decide_eq_true_2 _ Hl).
  apply wp_bind, wp_bail_if; [done|]. intros _. apply wp_ret. by apply HQ.
Qed.

Lemma wp_is_paused (Q : bool -> ExecState -> Prop) R s :
  cs_wf st (es_cs s) ->
  (forall s', reads st s s' -> Q (paused s) s') ->
  (forall e s', reads st s s' -> fallible st s -> R e s') ->
  wp is_paused Q R s.
Proof.
  intros Hwf HQ HR. unfold is_paused. wp_accessor; [done| |done].
  intros s1 H1 Hl. apply wp_ret. by apply HQ.
Qed.

(** The common prologue of the owner-only operations. *)
Lemma wp_only_owner {A} (k : bytes -> X A) (Q : A -> ExecState -> Prop) R s :
  cs_wf st (es_cs s) ->
  (forall f s', current_frame rt = Some f -> cf_caller f = owner_of s ->
     reads st s s' -> wp (k (cf_caller f)) Q R s') ->
  (forall e s', reads st s s' -> R e s') ->
  wp (caller ← current_caller rt; owner ← get_owner;
      bail_if (negb (bool_decide (caller = owner))) OnlyOwner;; k caller) Q R s.
Proof.
  intros Hwf HQ HR. apply wp_bind, wp_current_caller; [|intros _; by apply HR, reads_refl].
  intros f Hf. apply wp_bind, wp_get_owner; [done| |by auto].
  intros s1 Hr. apply wp_bind, wp_bail_if.
  - intros _. by apply HR.
  - intros Hb%negb_false_iff%bool_decide_eq_true. by apply (HQ f).
Qed.
End Ops.

(** ** Properties *)

Lemma length_bool_value b : length (bool_to_storage_value b) = 32%nat.
Proof. by destruct b. Qed.

Lemma length_u64_value v : length (u64_to_storage_value v) = 32%nat.
Proof. unfold u64_to_storage_value. by rewrite length_app, length_to_le_bytes, length_zeros. Qed.

#[export] Hint Resolve length_bool_value length_u64_value : core.

(** The encodings of the base-contract fields round-trip, and the
    [false] flag is the all-zero word. *)
Theorem storage_value_roundtrip (v : Z) (b : bool) :
  in_range U64_MAX v ->
  storage_value_to_u64 (u64_to_storage_value v) = Ok v /\
  storage_value_to_bool (bool_to_storage_value b) = b /\
  is_zero (bool_to_storage_value b) = negb b.
Proof.
  intros Hv. split; [|by destruct b].
  unfold storage_value_to_u64. rewrite length_u64_value. simpl (_ <? _)%nat.
  unfold u64_to_storage_value. rewrite take_app_le by (by rewrite length_to_le_bytes).
  rewrite take_ge by (by rewrite length_to_le_bytes). rewrite from_to_le_bytes.
  rewrite Z.mod_small; [done|]. mlia.
Qed.

Lemma storage_value_roundtrip_witness :
  storage_value_to_u64 (u64_to_storage_value 770) = Ok 770.
Proof. apply (storage_value_roundtrip 770 true). done. Defined.

(** The owner-only operations succeed only for the owner, and an error of any
    of them leaves the contract storage as it was. *)
Lemma wp_transfer_ownership `{Hex} st rt new s :
  cs_wf st (es_cs s) ->
  wp (transfer_ownership st rt new)
    (fun _ s' => (exists f, current_frame rt = Some f /\ cf_caller f = owner_of st s) /\
       length new = 32%nat /\ is_zero new = false /\ new <> owner_of st s /\
       writes st SLOT_OWNER new s s')
    (fun _ s' => reads st s s') s.
Proof.
  intros Hwf. unfold transfer_ownership.
  apply wp_bind, wp_bail_if; [intros _; by apply reads_refl|].
  intros Hl%negb_false_iff%bool_decide_eq_true.
  apply wp_bind, wp_bail_if; [intros _; by apply reads_refl|]. intros Hz.
  apply wp_bind, wp_current_caller; [|intros _; by apply reads_refl]. intros f Hf.
  apply wp_bind, wp_get_owner; [done| |done]. intros s1 H1.
  apply wp_bind, wp_bail_if; [done|]. intros Hc%negb_false_iff%bool_decide_eq_true.
  apply wp_bind, wp_bail_if; [done|]. intros Hd%bool_decide_eq_false.
  apply wp_bind. unfold set_owner. rewrite (bool_decide_eq_true_2 _ Hl).
  apply wp_bind, wp_bail_if; [done|]. intros _.
  apply wp_sstore_reserved; [apply H1|done|done| |].
  - intros s2 H2. wp_accessor; [apply H2|]. intros s3 H3. apply wp_ret.
    split; [by exists f|]. split_and!; try done. by eapply writes_between.
  - intros e s2 H2 _. by etransitivity.
Qed.

Lemma wp_set_flag_tail `{Hex} st slot b ev s s1 (f : bool) :
  reads st s s1 -> is_reserved_slot slot = true ->
  wp (sstore_reserved st slot (bool_to_storage_value b);;
      (if f then emit_standard_event ev else mret tt);; mret true)
    (fun _ s' => writes st slot (bool_to_storage_value b) s s') (fun _ s' => reads st s s') s1.
Proof.
  intros H1 Hres. wp_accessor; [apply H1|auto|done| |].
  - intros s2 H2.
    assert (forall s3, reads st s2 s3 -> writes st slot (bool_to_storage_value b) s s3) as Hk.
    { intros s3 H3. by eapply writes_between. }
    destruct f.
    + wp_accessor; [apply H2|]. intros s3 H3. by apply wp_ret, Hk.
    + apply wp_bind, wp_ret, wp_ret, Hk, reads_refl, H2.
  - intros e s2 H2 _. by etransitivity.
Qed.

Lemma wp_pause `{Hex} st rt s :
  cs_wf st (es_cs s) ->
  wp (pause st rt)
    (fun _ s' => (exists f, current_frame rt = Some f /\ cf_caller f = owner_of st s) /\
       paused st s = false /\ writes st SLOT_PAUSED (bool_to_storage_value true) s s')
    (fun _ s' => reads st s s') s.
Proof.
  intros Hwf. unfold pause. apply wp_only_owner; [done| |done]. intros f s1 Hf Hc H1.
  apply wp_bind, wp_is_paused; [apply H1| |intros; by etransitivity]. intros s2 H2.
  assert (reads st s s2) as H12 by (by etransitivity).
  apply wp_bind, wp_bail_if; [done|]. unfold paused. rewrite (rd_view _ _ _ H1). intros Hp.
  eapply wp_mono; [by apply (wp_set_flag_tail st SLOT_PAUSED true _ s s2 true)| |done].
  intros a s' Hw. split; [by exists f|done].
Qed.

Lemma wp_unpause `{Hex} st rt s :
  cs_wf st (es_cs s) ->
  wp (unpause st rt)
    (fun _ s' => (exists f, current_frame rt = Some f /\ cf_caller f = owner_of st s) /\
       paused st s = true /\ writes st SLOT_PAUSED (bool_to_storage_value false) s s')
    (fun _ s' => reads st s s') s.
Proof.
  intros Hwf. unfold unpause. apply wp_only_owner; [done| |done]. intros f s1 Hf Hc H1.
  apply wp_bind, wp_is_paused; [apply H1| |intros; by etransitivity]. intros s2 H2.
  assert (reads st s s2) as H12 by (by etransitivity).
  apply wp_bind, wp_bail_if; [done|]. unfold paused. rewrite (rd_view _ _ _ H1).
  intros Hp%negb_false_iff.
  eapply wp_mono; [by apply (wp_set_flag_tail st SLOT_PAUSED false _ s s2 true)| |done].
  intros a s' Hw. split; [by exists f|done].
Qed.

Lemma wp_set_hook `{Hex} st rt slot enabled s :
  cs_wf st (es_cs s) -> is_reserved_slot slot = true ->
  wp (caller ← current_caller rt; owner ← get_owner st;
      bail_if (negb (bool_decide (caller = owner))) OnlyOwner;;
      sstore_reserved st slot (bool_to_storage_value enabled);; mret true)
    (fun _ s' => (exists f, current_frame rt = Some f /\ cf_caller f = owner_of st s) /\
       writes st slot (bool_to_storage_value enabled) s s')
    (fun _ s' => reads st s s') s.
Proof.
  intros Hwf Hres. apply (wp_only_owner st rt (fun _ => _)); [done| |done]. intros f s1 Hf Hc H1.
  eapply wp_mono; [apply (wp_set_flag_tail st slot enabled (EvPaused "") s s1 false); done| |done].
  intros a s' Hw. split; [by exists f|done].
Qed.

(** Ownership moves only at the owner's request.  When
    [transfer_ownership] succeeds the caller was the owner, the new owner is
    a different non-zero address, it is the owner afterwards and no other
    slot changed; when it fails, no slot changed. *)
Theorem transfer_ownership_correct `{Hex} (st : Storage) (rt : Runtime) (new : bytes)
    (s : ExecState) :
  cs_wf st (es_cs s) ->
  match transfer_ownership st rt new s with
  | (Ok _, s') =>
      (exists f, current_frame rt = Some f /\ cf_caller f = owner_of st s) /\
      is_zero new = false /\ new <> owner_of st s /\ owner_of st s' = new /\
      forall k, k <> SLOT_OWNER -> view st s' k = view st s k
  | (Err _, s') => forall k, view st s' k = view st s k
  end.
Proof.
  intros Hwf. pose proof (wp_transfer_ownership st rt new s Hwf) as Hw. unfold wp in Hw.
  destruct (transfer_ownership st rt new s) as [[a|e] s']; [|apply Hw].
  destruct Hw as (Hf & Hl & Hz & Hne & Hw). repeat split; try done.
  - unfold owner_of. views. by rewrite decide_True, stored_nonzero.
  - intros k Hk. views. by rewrite decide_False.
Qed.

Definition frame_of (contract caller : bytes) : CallFrame := {|
  cf_contract_address := contract; cf_caller := caller; cf_value := 0; cf_calldata := [];
  cf_return_data := []; cf_gas_remaining := 0; cf_depth := 0; cf_storage_snapshot := [] |}.
Definition runtime_of (contract caller : bytes) : Runtime := {|
  call_stack := [frame_of contract caller]; block_timestamp := 0 |}.
Definition alice : bytes := word 65.
Definition bob : bytes := word 66.
Definition carol : bytes := word 67.
(** A deployed contract at [addr0] owned by Alice, all of it in the overlay. *)
Definition deployed : ExecState := snd (initialize (mem_storage ∅) alice (fresh addr0)).

Lemma wp_initialize st own s :
  cs_wf st (es_cs s) -> length own = 32%nat ->
  wp (initialize st own)
    (fun _ s' => cs_wf st (es_cs s') /\
       contract_address (es_cs s') = contract_address (es_cs s) /\
       (es_gas s = None <-> es_gas s' = None) /\
       forall k, view st s' k =
         if decide (k = SLOT_OWNER) then stored st s k own
         else if decide (k = SLOT_VERSION) then stored st s k (u64_to_storage_value 1)
         else if decide (2 <= k <= 4) then stored st s k (bool_to_storage_value false)
         else view st s k)
    (fun _ s' => fallible st s) s.
Proof.
  intros Hwf Hl. unfold initialize. rewrite (bool_decide_eq_true_2 _ Hl).
  apply wp_bind, wp_bail_if; [done|intros _].
  wp_accessor; [done..| |done]. intros s1 H1.
  wp_accessor; [apply H1|auto|done| |intros; by eapply writes_fallible]. intros s2 H2.
  wp_accessor; [apply H2|auto|done| |intros; do 2 (eapply writes_fallible; [done|]); done].
  intros s3 H3.
  wp_accessor; [apply H3|auto|done| |intros; do 3 (eapply writes_fallible; [done|]); done].
  intros s4 H4.
  wp_accessor; [apply H4|auto|done| |intros; do 4 (eapply writes_fallible; [done|]); done].
  intros s5 H5. split; [apply H5|]. split; [|split].
  - by rewrite (wr_addr _ _ _ _ _ H5), (wr_addr _ _ _ _ _ H4), (wr_addr _ _ _ _ _ H3),
      (wr_addr _ _ _ _ _ H2), (wr_addr _ _ _ _ _ H1).
  - by rewrite (wr_gas _ _ _ _ _ H1), (wr_gas _ _ _ _ _ H2), (wr_gas _ _ _ _ _ H3),
      (wr_gas _ _ _ _ _ H4), (wr_gas _ _ _ _ _ H5).
  - intros k. views. unfold SLOT_OWNER, SLOT_VERSION, SLOT_GOVERNANCE_HOOK_ENABLED,
      SLOT_FEE_HOOK_ENABLED, SLOT_PAUSED.
    repeat case_decide; subst; try lia; done.
Qed.

(** Deployment.  On a contract with nothing persisted, [initialize] with
    a non-zero 32-byte owner succeeds; the owner, version 1 and the cleared
    flags can then be read back and no other slot is touched. *)
Theorem initialize_correct (own : bytes) (addr : bytes) :
  length own = 32%nat -> is_zero own = false ->
  exists s', initialize (mem_storage ∅) own (fresh addr) = (Ok tt, s') /\
    cs_wf (mem_storage ∅) (es_cs s') /\
    owner_of (mem_storage ∅) s' = own /\
    storage_value_to_u64 (view (mem_storage ∅) s' SLOT_VERSION) = Ok 1 /\
    paused (mem_storage ∅) s' = false /\
    forall k, 4 < k -> view (mem_storage ∅) s' k = zeros 32.
Proof.
  intros Hl Hz. set (st := mem_storage ∅). set (s := fresh addr).
  pose proof (wp_initialize st own s (cs_wf_fresh _ _) Hl) as Hw. unfold wp in Hw.
  destruct (initialize st own s) as [[[]|e] s'].
  2: { exfalso. revert Hw. by apply not_fallible, db_ok_mem. }
  destruct Hw as (Hwf & _ & _ & Hv). exists s'. split; [done|]. split; [done|].
  unfold owner_of, paused. rewrite !Hv. unfold SLOT_OWNER, SLOT_VERSION, SLOT_PAUSED. simpl.
  split; [by rewrite stored_nonzero|]. split; [done|]. split; [done|].
  intros k Hk. rewrite Hv. unfold SLOT_OWNER, SLOT_VERSION.
  repeat (rewrite decide_False by lia). done.
Qed.

Lemma initialize_correct_witness :
  exists s', initialize (mem_storage ∅) alice (fresh addr0) = (Ok tt, s') /\
    owner_of (mem_storage ∅) s' = alice.
Proof.
  destruct (initialize_correct alice addr0) as (s' & H1 & _ & H2 & _); [done|reflexivity|].
  by exists s'.
Defined.

Lemma deployed_wf : cs_wf (mem_storage ∅) (es_cs deployed).
Proof.
  pose proof (wp_initialize (mem_storage ∅) alice (fresh addr0) (cs_wf_fresh _ _) eq_refl) as Hw.
  unfold wp in Hw. unfold deployed.
  destruct (initialize (mem_storage ∅) alice (fresh addr0)) as [[a|e] s']; [apply Hw|].
  exfalso. revert Hw. by apply not_fallible, db_ok_mem.
Qed.

Lemma transfer_ownership_correct_witness :
  owner_of (mem_storage ∅)
    (snd (transfer_ownership (mem_storage ∅) (runtime_of addr0 alice) bob deployed)) = bob.
Proof.
  pose proof (transfer_ownership_correct (mem_storage ∅) (runtime_of addr0 alice) bob deployed
    deployed_wf) as H.
  destruct (transfer_ownership (mem_storage ∅) (runtime_of addr0 alice) bob deployed)
    as [[a|e] s'] eqn:E; [apply H|]. vm_compute in E. discriminate E.
Defined.

(** A caller who is not the owner (or an empty call stack) gets an error
    from every owner-only operation, and no storage slot changes. *)
Theorem only_owner `{Hex} (st : Storage) (rt : Runtime) (s : ExecState)
    (new : bytes) (enabled : bool) :
  cs_wf st (es_cs s) ->
  (forall f, current_frame rt = Some f -> cf_caller f <> owner_of st s) ->
  let denied (m : X bool) :=
    is_ok (fst (m s)) = false /\ forall k, view st (snd (m s)) k = view st s k in
  denied (transfer_ownership st rt new) /\ denied (pause st rt) /\ denied (unpause st rt) /\
  denied (set_governance_hook st rt enabled) /\ denied (set_fee_hook st rt enabled).
Proof.
  intros Hwf Hno. cbv zeta.
  assert (forall (m : X bool) (P : ExecState -> Prop),
    wp m (fun _ s' => (exists f, current_frame rt = Some f /\ cf_caller f = owner_of st s) /\ P s')
       (fun _ s' => reads st s s') s ->
    is_ok (fst (m s)) = false /\ forall k, view st (snd (m s)) k = view st s k) as Hden.
  { intros m P Hw. unfold wp in Hw. destruct (m s) as [[a|e] s']; simpl.
    - destruct Hw as [(f & Hf & Hc) _]. by destruct (Hno f Hf).
    - split; [done|apply Hw]. }
  split; [exact (Hden _ _ (wp_transfer_ownership st rt new s Hwf))|].
  split; [exact (Hden _ _ (wp_pause st rt s Hwf))|].
  split; [exact (Hden _ _ (wp_unpause st rt s Hwf))|].
  split; [exact (Hden _ _ (wp_set_hook st rt SLOT_GOVERNANCE_HOOK_ENABLED enabled s Hwf eq_refl))|
          exact (Hden _ _ (wp_set_hook st rt SLOT_FEE_HOOK_ENABLED enabled s Hwf eq_refl))].
Qed.

Lemma only_owner_witness :
  is_ok (fst (pause (mem_storage ∅) (runtime_of addr0 bob) deployed)) = false.
Proof.
  apply (only_owner (mem_storage ∅) (runtime_of addr0 bob) deployed bob true).
  - apply deployed_wf.
  - intros f [= <-]. vm_compute. done.
Defined.

(** What [pause] and [unpause] achieve.  After a successful [pause] the
    contract is paused.  After a successful [unpause] the flag is the one the
    database holds: a pause made in the same execution is lifted, a pause that
    was already persisted is not, although the call reports success. *)
Theorem pause_unpause_effect `{Hex} (st : Storage) (rt : Runtime) (s s' : ExecState) (b : bool) :
  cs_wf st (es_cs s) ->
  (pause st rt s = (Ok b, s') -> paused st s' = true) /\
  (unpause st rt s = (Ok b, s') ->
     paused st s' = storage_value_to_bool (db_value st (contract_address (es_cs s)) SLOT_PAUSED)).
Proof.
  intros Hwf. split; intros E.
  - pose proof (wp_ok _ _ _ _ _ _ (wp_pause st rt s Hwf) E) as (_ & _ & Hw).
    unfold paused. views. done.
  - pose proof (wp_ok _ _ _ _ _ _ (wp_unpause st rt s Hwf) E) as (_ & _ & Hw).
    unfold paused. views. done.
Qed.

(** A contract whose owner (Alice) and pause flag are persisted. *)
Definition persisted_paused : Storage := mem_storage
  {[ make_storage_key addr0 SLOT_OWNER := alice;
     make_storage_key addr0 SLOT_PAUSED := bool_to_storage_value true ]}.

Lemma pause_unpause_effect_witness :
  let r := unpause persisted_paused (runtime_of addr0 alice) (fresh addr0) in
  fst r = Ok true /\ paused persisted_paused (snd r) = true.
Proof.
  intros r. assert (r = (Ok true, snd r)) as Hr by (vm_compute; done). split; [done|].
  destruct (pause_unpause_effect persisted_paused (runtime_of addr0 alice) (fresh addr0) (snd r) true)
    as [_ H]; [apply cs_wf_fresh|]. rewrite (H Hr). vm_compute. done.
Defined.

End Base.
