(* ===== verification/Savitri20.v ===== *)
(** * SAVITRI-20: the fungible token

    [Savitri-contracts/src/contracts/standards/savitri20.rs], every function.
    Balances and allowances live in hashed slots of the contract storage; the
    hash (crate [sha3]) and the hexadecimal codec (crate [hex]) are
    parameters.  Errors keep the writes made before them, as [&mut] does. *)

From S2P Require Import Prelude Gas ContractStorage Codec BaseContract.
From Stdlib Require Import Strings.Byte.
Import CS.

(** ** [String::from_utf8] of the standard library *)

Module Utf8.

Definition cont (b : byte) : bool := (128 <=? byte_to_Z b) && (byte_to_Z b <=? 191).
Definition between (lo hi : Z) (b : byte) : bool := (lo <=? byte_to_Z b) && (byte_to_Z b <=? hi).

(** Well-formed UTF-8 byte sequences (no overlong forms, no surrogates, at
    most U+10FFFF); [fuel] bounds the number of characters. *)
Fixpoint valid_fuel (fuel : nat) (l : bytes) : bool :=
  match fuel, l with
  | _, [] => true
  | O, _ => false
  | S n, a :: r =>
      if byte_to_Z a <=? 127 then valid_fuel n r
      else if between 194 223 a then
        match r with b :: r => cont b && valid_fuel n r | _ => false end
      else if between 224 239 a then
        match r with
        | b :: c :: r =>
            between (if byte_to_Z a =? 224 then 160 else 128)
                    (if byte_to_Z a =? 237 then 159 else 191) b
            && cont c && valid_fuel n r
        | _ => false
        end
      else if between 240 244 a then
        match r with
        | b :: c :: d :: r =>
            between (if byte_to_Z a =? 240 then 144 else 128)
                    (if byte_to_Z a =? 244 then 143 else 191) b
            && cont c && cont d && valid_fuel n r
        | _ => false
        end
      else false
  end.

Definition valid (l : bytes) : bool := valid_fuel (length l) l.

End Utf8.

Module Sav20.

Definition SLOT_TOTAL_SUPPLY : Z := 100.
Definition SLOT_BALANCES_BASE : Z := 101.
Definition SLOT_ALLOWANCES_BASE : Z := 200.
Definition SLOT_NAME_BASE : Z := 300.
Definition SLOT_SYMBOL_BASE : Z := 400.

Definition u128_to_storage_value (value : Z) : bytes := to_le_bytes 16 value ++ zeros 16.

Definition storage_value_to_u128 (value : bytes) : result ContractError Z :=
  if (length value <? 16)%nat then Err ValueTooShort else Ok (from_le_bytes (take 16 value)).

Definition ensure_non_zero_address (address : bytes) : X unit :=
  bail_if (bool_decide (address = zeros 32)) ZeroAddress.

(** [Self::decode_address(..)?]. *)
Definition decode `{Hex} (s : string) : X bytes :=
  lift match decode_address s with
  | Ok b => Ok b
  | Err BadHexDigits => Err BadHex
  | Err (BadAddressLength n) => Err (InvalidAddressLength n)
  end.

(** [bytes.chunks(32)]. *)
Fixpoint chunks_fuel (fuel : nat) (l : bytes) : list bytes :=
  match fuel, l with
  | S n, _ :: _ => take 32 l :: chunks_fuel n (drop 32 l)
  | _, _ => []
  end.
Definition chunks (l : bytes) : list bytes := chunks_fuel (length l) l.

(** [slot_value[..chunk.len()].copy_from_slice(chunk)] on a zero word. *)
Definition pad32 (chunk : bytes) : bytes := chunk ++ zeros (32 - length chunk).

Section Ops.
Context `{Hex} `{Keccak} (st : Storage) (rt : Runtime).

Definition calculate_balance_slot (address : bytes) : Z :=
  hash_slot (keccak256 (address ++ to_le_bytes 8 SLOT_BALANCES_BASE)).

Definition calculate_allowance_slot (owner spender : bytes) : Z :=
  let hash1 := keccak256 (owner ++ to_le_bytes 8 SLOT_ALLOWANCES_BASE) in
  hash_slot (keccak256 (spender ++ hash1)).

(** [sload] followed by [storage_value_to_u128], and the converse write. *)
Definition load_u128 (slot : Z) : X Z :=
  v ← sload st slot; lift (storage_value_to_u128 v).
Definition store_u128 (slot : Z) (v : Z) : X unit :=
  sstore st slot (u128_to_storage_value v).

Fixpoint write_chunks (base_slot : Z) (index : Z) (l : list bytes) : X unit :=
  match l with
  | [] => mret tt
  | c :: r =>
      sstore st (wrap U64_MAX (base_slot + 1 + index)) (pad32 c);;
      write_chunks base_slot (index + 1) r
  end.

Definition write_string_to_storage (base_slot : Z) (value : bytes) : X unit :=
  sstore st base_slot (to_le_bytes 8 (Z.of_nat (length value)) ++ zeros 24);;
  match value with
  | [] => mret tt
  | _ => write_chunks base_slot 0 (chunks value)
  end.

Fixpoint read_chunks (base_slot : Z) (index : Z) (n : nat) : X bytes :=
  match n with
  | O => mret []
  | S n' =>
      c ← sload st (wrap U64_MAX (base_slot + 1 + index));
      r ← read_chunks base_slot (index + 1) n';
      mret (c ++ r)
  end.

Definition read_string_from_storage (base_slot : Z) : X bytes :=
  len_value ← sload st base_slot;
  bail_if (length len_value <? 8)%nat ValueTooShort;;
  let len := from_le_bytes (take 8 len_value) in
  if len =? 0 then mret []
  else
    bytes ← read_chunks base_slot 0 (Z.to_nat ((len + 31) / 32));
    let bytes := take (Z.to_nat len) bytes in
    if Utf8.valid bytes then mret bytes else fail BadUtf8.

Definition set_name (name : bytes) : X unit := write_string_to_storage SLOT_NAME_BASE name.
Definition name : X bytes := read_string_from_storage SLOT_NAME_BASE.
Definition set_symbol (symbol : bytes) : X unit := write_string_to_storage SLOT_SYMBOL_BASE symbol.
Definition symbol : X bytes := read_string_from_storage SLOT_SYMBOL_BASE.

Definition initialize (owner name symbol : bytes) (initial_supply : Z) : X unit :=
  set_name name;;
  set_symbol symbol;;
  store_u128 SLOT_TOTAL_SUPPLY initial_supply;;
  if initial_supply >? 0
  then store_u128 (calculate_balance_slot owner) initial_supply
  else mret tt.

Definition emit_transfer_event (contract from to : bytes) (amount : Z) : X unit :=
  emit_custom_event {|
    ev_contract_address := hex_encode contract;
    ev_name := "Transfer";
    ev_topics := [keccak256 (bytes_of_string "Transfer(address,address,uint256)"); from; to];
    ev_data := to_le_bytes 16 amount ++ zeros 16 |}.

Definition emit_approval_event (contract owner spender : bytes) (amount : Z) : X unit :=
  emit_custom_event {|
    ev_contract_address := hex_encode contract;
    ev_name := "Approval";
    ev_topics := [keccak256 (bytes_of_string "Approval(address,address,uint256)"); owner; spender];
    ev_data := to_le_bytes 16 amount ++ zeros 16 |}.

Definition total_supply : X Z := load_u128 SLOT_TOTAL_SUPPLY.

Definition balance_of (address : string) : X Z :=
  a ← decode address; load_u128 (calculate_balance_slot a).

Definition allowance (owner spender : string) : X Z :=
  o ← decode owner;
  sp ← decode spender;
  load_u128 (calculate_allowance_slot o sp).

(** The debit and credit both transfers perform once the sender's balance
    has been read and found sufficient. *)
Definition move_balance (from_balance : Z) (from to : bytes) (amount : Z) : X unit :=
  new_from ← lift (ok_or (checked_sub from_balance amount) Underflow);
  to_balance ← load_u128 (calculate_balance_slot to);
  new_to ← lift (ok_or (checked_add U128_MAX to_balance amount) Overflow);
  store_u128 (calculate_balance_slot from) new_from;;
  store_u128 (calculate_balance_slot to) new_to.

Definition transfer (to : string) (amount : Z) : X unit :=
  p ← Base.is_paused st;
  bail_if p Paused;;
  from ← Base.current_caller rt;
  contract ← Base.current_contract rt;
  to_bytes ← decode to;
  ensure_non_zero_address to_bytes;;
  from_balance ← load_u128 (calculate_balance_slot from);
  bail_if (from_balance <? amount) (InsufficientBalance from_balance amount);;
  if bool_decide (from = to_bytes) then
    emit_transfer_event contract from to_bytes amount
  else
    move_balance from_balance from to_bytes amount;;
    emit_transfer_event contract from to_bytes amount.

Definition approve (spender : string) (amount : Z) : X unit :=
  p ← Base.is_paused st;
  bail_if p Paused;;
  owner ← Base.current_caller rt;
  contract ← Base.current_contract rt;
  spender_bytes ← decode spender;
  ensure_non_zero_address spender_bytes;;
  store_u128 (calculate_allowance_slot owner spender_bytes) amount;;
  emit_approval_event contract owner spender_bytes amount.

Definition transfer_from (from to : string) (amount : Z) : X unit :=
  p ← Base.is_paused st;
  bail_if p Paused;;
  spender ← Base.current_caller rt;
  from_bytes ← decode from;
  to_bytes ← decode to;
  ensure_non_zero_address from_bytes;;
  ensure_non_zero_address to_bytes;;
  let allowance_slot := calculate_allowance_slot from_bytes spender in
  allowance ← load_u128 allowance_slot;
  bail_if (allowance <? amount) (InsufficientAllowance allowance amount);;
  new_allowance ← lift (ok_or (checked_sub allowance amount) Underflow);
  store_u128 allowance_slot new_allowance;;
  from_balance ← load_u128 (calculate_balance_slot from_bytes);
  bail_if (from_balance <? amount) (InsufficientBalance from_balance amount);;
  move_balance from_balance from_bytes to_bytes amount;;
  contract ← Base.current_contract rt;
  emit_transfer_event contract from_bytes to_bytes amount.

Definition mint (to : string) (amount : Z) : X unit :=
  p ← Base.is_paused st;
  bail_if p Paused;;
  caller ← Base.current_caller rt;
  owner ← Base.get_owner st;
  bail_if (negb (bool_decide (caller = owner))) OnlyOwner;;
  contract ← Base.current_contract rt;
  to_bytes ← decode to;
  ensure_non_zero_address to_bytes;;
  current_supply ← total_supply;
  new_supply ← lift (ok_or (checked_add U128_MAX current_supply amount) Overflow);
  store_u128 SLOT_TOTAL_SUPPLY new_supply;;
  to_balance ← load_u128 (calculate_balance_slot to_bytes);
  new_to ← lift (ok_or (checked_add U128_MAX to_balance amount) Overflow);
  store_u128 (calculate_balance_slot to_bytes) new_to;;
  emit_transfer_event contract (zeros 32) to_bytes amount.

(** The holder burns freely; anyone else spends the allowance first. *)
Definition authorise_burn (from : string) (from_bytes caller : bytes) (amount : Z) : X unit :=
  if bool_decide (caller = from_bytes) then mret tt
  else
    allow ← allowance from (hex_encode caller);
    bail_if (allow <? amount) BurnNotAuthorized;;
    new_allowance ← lift (ok_or (checked_sub allow amount) Underflow);
    store_u128 (calculate_allowance_slot from_bytes caller) new_allowance.

Definition burn (from : string) (amount : Z) : X unit :=
  p ← Base.is_paused st;
  bail_if p Paused;;
  caller ← Base.current_caller rt;
  from_bytes ← decode from;
  authorise_burn from from_bytes caller amount;;
  contract ← Base.current_contract rt;
  from_balance ← load_u128 (calculate_balance_slot from_bytes);
  bail_if (from_balance <? amount) (InsufficientBalance from_balance amount);;
  new_from ← lift (ok_or (checked_sub from_balance amount) Underflow);
  current_supply ← total_supply;
  new_supply ← lift (ok_or (checked_sub current_supply amount) Underflow);
  store_u128 (calculate_balance_slot from_bytes) new_from;;
  store_u128 SLOT_TOTAL_SUPPLY new_supply;;
  emit_transfer_event contract from_bytes (zeros 32) amount.
End Ops.

End Sav20.
