(* ===== verification/Savitri20Correct.v ===== *)
(** * SAVITRI-20: correctness

    The functional behaviour of every operation of [Savitri20.v] on every
    branch, including the two behaviours that break the token's ledger.  [amt]
    reads the amount a slot holds; [bal], [allow] and [supply] read the token's ledger. *)

From S2P Require Import Prelude Gas ContractStorage Codec BaseContract Savitri20.
From Stdlib Require Import Strings.Byte.
Import CS Sav20.

(** ** Amounts in slots *)

Definition word_amount (w : bytes) : Z := from_le_bytes (take 16 w).
Definition amt (st : Storage) (s : ExecState) (slot : Z) : Z := word_amount (view st s slot).
Definition db_amt (st : Storage) (s : ExecState) (slot : Z) : Z :=
  word_amount (db_value st (contract_address (es_cs s)) slot).

(** Writing amount [v] to [slot] takes effect: it is not a zero written over a
    persisted non-zero amount. *)
Definition eff (st : Storage) (s : ExecState) (slot v : Z) : Prop :=
  v = 0 -> db_amt st s slot = 0.
(** What is read after amount [v] was written: over a persisted amount a zero
    is lost, and the persisted amount is read again. *)
Definition left_by (st : Storage) (s : ExecState) (slot v : Z) : Z :=
  if v =? 0 then db_amt st s slot else v.
Lemma left_by_eff st s slot v : eff st s slot v -> left_by st s slot v = v.
Proof. unfold eff, left_by. destruct (Z.eqb_spec v 0) as [->|]; auto. Qed.

Lemma word_amount_range w : in_range U128_MAX (word_amount w).
Proof.
  unfold word_amount, in_range. pose proof (from_le_bytes_range (take 16 w)) as [Hl Hu].
  split; [done|].
  assert (256 ^ Z.of_nat (length (take 16 w)) <= 256 ^ 16).
  { apply Z.pow_le_mono_r; [lia|]. rewrite length_take. lia. }
  mlia.
Qed.

Lemma amt_range st s k : in_range U128_MAX (amt st s k).
Proof. apply word_amount_range. Qed.

Lemma length_u128_value v : length (u128_to_storage_value v) = 32%nat.
Proof. unfold u128_to_storage_value. by rewrite length_app, length_to_le_bytes, length_zeros. Qed.
#[export] Hint Resolve length_u128_value : core.

Lemma word_amount_value v : in_range U128_MAX v -> word_amount (u128_to_storage_value v) = v.
Proof.
  intros Hv. unfold word_amount, u128_to_storage_value.
  rewrite take_app_le by (by rewrite length_to_le_bytes).
  rewrite take_ge by (by rewrite length_to_le_bytes).
  rewrite from_to_le_bytes, Z.mod_small; [done|mlia].
Qed.

Lemma is_zero_value v : in_range U128_MAX v -> is_zero (u128_to_storage_value v) = (v =? 0).
Proof.
  intros Hv. destruct (Z.eqb_spec v 0) as [->|Hne]; [done|].
  destruct (is_zero _) eqn:E; [|done]. exfalso. apply Hne.
  apply is_zero_spec in E. rewrite <- (word_amount_value v Hv), E, length_u128_value.
  reflexivity.
Qed.

Lemma storage_value_to_u128_word w :
  length w = 32%nat -> storage_value_to_u128 w = Ok (word_amount w).
Proof. intros Hl. unfold storage_value_to_u128. by rewrite Hl. Qed.

(** Amounts survive storage: encoding and decoding a [u128] is the
    identity and a decoded word always fits. *)
Theorem u128_storage_roundtrip (v : Z) :
  in_range U128_MAX v ->
  storage_value_to_u128 (u128_to_storage_value v) = Ok v /\
  length (u128_to_storage_value v) = 32%nat.
Proof.
  intros Hv. split; [|done].
  by rewrite storage_value_to_u128_word, word_amount_value.
Qed.

Lemma u128_storage_roundtrip_witness :
  storage_value_to_u128 (u128_to_storage_value (U128_MAX - 1)) = Ok (U128_MAX - 1).
Proof. apply (u128_storage_roundtrip (U128_MAX - 1)). vm_compute; split; done. Defined.

Lemma amt_written st slot v s s' k :
  in_range U128_MAX v -> writes st slot (u128_to_storage_value v) s s' ->
  amt st s' k = if decide (k = slot) then left_by st s slot v else amt st s k.
Proof.
  intros Hv Hw. unfold amt, left_by. rewrite (wr_view _ _ _ _ _ Hw). case_decide; [|done].
  unfold stored. rewrite is_zero_value by done.
  destruct (Z.eqb_spec v 0); [done|by apply word_amount_value].
Qed.

Lemma amt_writes st slot v s s' k :
  in_range U128_MAX v -> writes st slot (u128_to_storage_value v) s s' -> eff st s slot v ->
  amt st s' k = if decide (k = slot) then v else amt st s k.
Proof. intros Hv Hw He. by rewrite (amt_written _ _ _ _ _ _ Hv Hw), left_by_eff. Qed.

Lemma amt_reads st s s' k : reads st s s' -> amt st s' k = amt st s k.
Proof. intros Hr. unfold amt. by rewrite (rd_view _ _ _ Hr). Qed.

Lemma left_by_reads st s s' k v : reads st s s' -> left_by st s' k v = left_by st s k v.
Proof. intros Hr. unfold left_by, db_amt. by rewrite (rd_addr _ _ _ Hr). Qed.

Lemma left_by_writes st k0 w s s' k v : writes st k0 w s s' -> left_by st s' k v = left_by st s k v.
Proof. intros Hr. unfold left_by, db_amt. by rewrite (wr_addr _ _ _ _ _ Hr). Qed.

Lemma eff_reads st s s' k v : reads st s s' -> eff st s k v -> eff st s' k v.
Proof. intros Hr. unfold eff, db_amt. by rewrite (rd_addr _ _ _ Hr). Qed.

Lemma eff_writes st k0 w s s' k v : writes st k0 w s s' -> eff st s k v -> eff st s' k v.
Proof. intros Hr. unfold eff, db_amt. by rewrite (wr_addr _ _ _ _ _ Hr). Qed.

(** An outcome no property of the token's own logic can exclude: gas ran out,
    the database failed, or a hashed slot fell into the reserved range. *)
Definition trouble (st : Storage) (s : ExecState) (slots : list Z) : Prop :=
  fallible st s \/ Exists (fun k => is_reserved_slot k = true) slots.

Lemma wp_load_u128 st slot (Q : Z -> ExecState -> Prop) R s :
  cs_wf st (es_cs s) ->
  (forall s', reads st s s' -> Q (amt st s slot) s') ->
  (forall e s', reads st s s' -> fallible st s -> R e s') ->
  wp (load_u128 st slot) Q R s.
Proof.
  intros Hwf HQ HR. unfold load_u128. wp_accessor; [done| |done].
  intros s1 H1 Hl. rewrite storage_value_to_u128_word by done.
  apply wp_lift; [|done]. intros a [= <-]. by apply HQ.
Qed.

Lemma wp_store_u128 st slot v (Q : unit -> ExecState -> Prop) R s :
  cs_wf st (es_cs s) ->
  (forall s', writes st slot (u128_to_storage_value v) s s' -> Q tt s') ->
  (forall e s', reads st s s' -> (fallible st s \/ is_reserved_slot slot = true) -> R e s') ->
  wp (store_u128 st slot v) Q R s.
Proof. intros Hwf HQ HR. unfold store_u128. wp_accessor; auto. Qed.

Section Spec.
Context `{Hex} `{Keccak} (st : Storage) (rt : Runtime).

Definition bal (s : ExecState) (a : bytes) : Z := amt st s (calculate_balance_slot a).
Definition allow (s : ExecState) (o sp : bytes) : Z := amt st s (calculate_allowance_slot o sp).
Definition supply (s : ExecState) : Z := amt st s SLOT_TOTAL_SUPPLY.

Lemma wp_decode str b (Q : bytes -> ExecState -> Prop) R s :
  decode_address str = Ok b -> Q b s -> wp (decode str) Q R s.
Proof. intros E HQ. unfold decode. rewrite E. done. Qed.

(** Two writes in sequence, seen from the state before both. *)
Record moved (k1 v1 k2 v2 : Z) (s s' : ExecState) : Prop := {
  mv_wf : cs_wf st (es_cs s');
  mv_addr : contract_address (es_cs s') = contract_address (es_cs s);
  mv_gas : es_gas s = None <-> es_gas s' = None;
  mv_view : forall k, k <> k1 -> k <> k2 -> view st s' k = view st s k;
  mv_left1 : k1 <> k2 -> amt st s' k1 = left_by st s k1 v1;
  mv_left2 : amt st s' k2 = left_by st s k2 v2;
}.

Lemma mv_1 k1 v1 k2 v2 s s' : moved k1 v1 k2 v2 s s' -> k1 <> k2 -> eff st s k1 v1 -> amt st s' k1 = v1.
Proof. intros Hm Hne He. by rewrite (mv_left1 _ _ _ _ _ _ Hm), left_by_eff. Qed.
Lemma mv_2 k1 v1 k2 v2 s s' : moved k1 v1 k2 v2 s s' -> eff st s k2 v2 -> amt st s' k2 = v2.
Proof. intros Hm He. by rewrite (mv_left2 _ _ _ _ _ _ Hm), left_by_eff. Qed.

Lemma moved_intro k1 v1 k2 v2 s s1 s2 s3 s4 :
  in_range U128_MAX v1 -> in_range U128_MAX v2 ->
  reads st s s1 -> writes st k1 (u128_to_storage_value v1) s1 s2 ->
  writes st k2 (u128_to_storage_value v2) s2 s3 -> reads st s3 s4 ->
  moved k1 v1 k2 v2 s s4.
Proof.
  intros Hv1 Hv2 H1 H2 H3 H4. split; [apply H4|..].
  - by rewrite (rd_addr _ _ _ H4), (wr_addr _ _ _ _ _ H3), (wr_addr _ _ _ _ _ H2), (rd_addr _ _ _ H1).
  - rewrite (rd_gas _ _ _ H1), (wr_gas _ _ _ _ _ H2), (wr_gas _ _ _ _ _ H3). apply H4.
  - intros k Hk1 Hk2. views. by rewrite !decide_False.
  - intros Hne. rewrite (amt_reads _ _ _ _ H4), (amt_written _ _ _ _ _ _ Hv2 H3), decide_False by done.
    rewrite (amt_written _ _ _ _ _ _ Hv1 H2), decide_True by done. by apply left_by_reads.
  - rewrite (amt_reads _ _ _ _ H4), (amt_written _ _ _ _ _ _ Hv2 H3), decide_True by done.
    by rewrite (left_by_writes _ _ _ _ _ _ _ H2), (left_by_reads _ _ _ _ _ H1).
Qed.

Local Abbreviation bs := calculate_balance_slot.

Lemma wp_move_balance fb from to amount (Q : unit -> ExecState -> Prop) R s :
  cs_wf st (es_cs s) -> in_range U128_MAX fb -> 0 <= amount <= fb ->
  (forall s', bal s to + amount <= U128_MAX ->
     moved (bs from) (fb - amount) (bs to) (bal s to + amount) s s' -> Q tt s') ->
  (forall e s', (U128_MAX < bal s to + amount /\ reads st s s') \/
     (trouble st s [bs from; bs to] /\
      (reads st s s' \/ bal s to + amount <= U128_MAX /\ writes st (bs from) (u128_to_storage_value (fb - amount)) s s')) -> R e s') ->
  wp (move_balance st fb from to amount) Q R s.
Proof.
  intros Hwf Hfb Ha HQ HR. unfold move_balance.
  apply wp_bind, wp_lift; [|intros e [Hn%checked_sub_None _]%ok_or_Err; lia].
  intros nf [-> _]%ok_or_Ok%checked_sub_Some.
  apply wp_bind, wp_load_u128; [done| |intros; apply HR; right; split; [by left|by left]]. intros s1 H1.
  apply wp_bind, wp_lift.
  2: { intros e [Ho%checked_add_None _]%ok_or_Err. apply HR. by left. }
  intros nt [-> Hmax]%ok_or_Ok%checked_add_Some.
  pose proof (amt_range st s (bs to)) as Hr. fold (bal s to) in *.
  apply wp_bind, wp_store_u128; [apply H1| |].
  2: { intros e s2 H2 Hf. apply HR. right. split; [|left; by etransitivity].
       destruct Hf as [Hf|Hf]; [left; by eapply reads_fallible|right; by apply Exists_cons_hd]. }
  intros s2 H2. apply wp_store_u128; [apply H2| |].
  - intros s3 H3. apply HQ; [done|].
    apply (moved_intro _ _ _ _ s s1 s2 s3 s3); try done; [mlia..|by apply reads_refl, H3].
  - intros e s3 H3 Hf. apply HR. right. split; [|right; split; [done|by eapply writes_between]].
    destruct Hf as [Hf|Hf]; [left; by eapply reads_fallible, writes_fallible|right; by apply Exists_cons_tl, Exists_cons_hd].
Qed.

(** When [transfer] is meant to succeed. *)
Definition can_transfer (s : ExecState) (from to : bytes) (amount : Z) : Prop :=
  Base.paused st s = false /\ to <> zeros 32 /\ amount <= bal s from /\
  (from = to \/ bal s to + amount <= U128_MAX).

Lemma paused_reads s s' : reads st s s' -> Base.paused st s' = Base.paused st s.
Proof. intros Hr. unfold Base.paused. by rewrite (rd_view _ _ _ Hr). Qed.

Lemma owner_reads s s' : reads st s s' -> Base.owner_of st s' = Base.owner_of st s.
Proof. intros Hr. apply Hr. Qed.

Lemma bal_reads s s' a : reads st s s' -> bal s' a = bal s a.
Proof. apply amt_reads. Qed.

Lemma moved_reads k1 v1 k2 v2 a b c d :
  reads st a b -> moved k1 v1 k2 v2 b c -> reads st c d -> moved k1 v1 k2 v2 a d.
Proof.
  intros H1 H2 H3. split; [apply H3|..].
  - by rewrite (rd_addr _ _ _ H3), (mv_addr _ _ _ _ _ _ H2), (rd_addr _ _ _ H1).
  - rewrite (rd_gas _ _ _ H1), (mv_gas _ _ _ _ _ _ H2). apply H3.
  - intros k Hk1 Hk2. by rewrite (rd_view _ _ _ H3), (mv_view _ _ _ _ _ _ H2), (rd_view _ _ _ H1).
  - intros Hne. rewrite (amt_reads _ _ _ _ H3), (mv_left1 _ _ _ _ _ _ H2) by done. by apply left_by_reads.
  - rewrite (amt_reads _ _ _ _ H3), (mv_left2 _ _ _ _ _ _ H2). by apply left_by_reads.
Qed.

Lemma trouble_reads s s' l : reads st s s' -> trouble st s' l -> trouble st s l.
Proof. intros Hr [Hf|Hf]; [left; by eapply reads_fallible|by right]. Qed.

Lemma trouble_mono s l l' : incl l l' -> trouble st s l -> trouble st s l'.
Proof.
  intros Hi [Hf|Hf]; [by left|right]. apply Exists_exists in Hf as (k & Hin & Hk).
  apply Exists_exists. exists k. split; [|done]. apply list_elem_of_In, Hi.
  by apply list_elem_of_In.
Qed.

(** [transfer] and [transfer_from] agree on what follows the checks. *)
Definition transferred (from to : bytes) (amount : Z) (s s' : ExecState) : Prop :=
  moved (bs from) (bal s from - amount) (bs to) (bal s to + amount) s s'.

Lemma wp_transfer to tb f amount s :
  cs_wf st (es_cs s) -> current_frame rt = Some f -> decode_address to = Ok tb ->
  0 <= amount ->
  wp (transfer st rt to amount)
    (fun _ s' => can_transfer s (cf_caller f) tb amount /\
       if bool_decide (cf_caller f = tb) then reads st s s'
       else transferred (cf_caller f) tb amount s s')
    (fun _ s' => (~ can_transfer s (cf_caller f) tb amount /\ reads st s s') \/
       (trouble st s [bs (cf_caller f); bs tb] /\
        (reads st s s' \/ can_transfer s (cf_caller f) tb amount /\
           writes st (bs (cf_caller f)) (u128_to_storage_value (bal s (cf_caller f) - amount)) s s'))) s.
Proof.
  intros Hwf Hf Hd Ha. unfold transfer, can_transfer.
  apply wp_bind, Base.wp_is_paused; [done| |intros; right; split; [by left|by left]]. intros s1 H1.
  apply wp_bind, wp_bail_if; [intros Hp; left; split; [naive_solver congruence|done]|]. intros Hp.
  apply wp_bind, Base.wp_current_caller; [|congruence]. intros f' Hf'. assert (f' = f) as -> by congruence. clear Hf'.
  apply wp_bind, Base.wp_current_contract; [|congruence]. intros f' Hf'. assert (f' = f) as -> by congruence. clear Hf'.
  apply wp_bind. eapply wp_decode; [done|].
  apply wp_bind, wp_bail_if.
  { intros Hz%bool_decide_eq_true. left. split; [tauto|done]. }
  intros Hz%bool_decide_eq_false.
  apply wp_bind, wp_load_u128; [apply H1| |intros; right; split; [eapply trouble_reads; [done|by left]|left; by etransitivity]].
  intros s2 H2. fold (bal s1 (cf_caller f)). rewrite (bal_reads _ _ _ H1).
  assert (reads st s s2) as H12 by (by etransitivity).
  apply wp_bind, wp_bail_if.
  { intros Hlt%Z.ltb_lt. left. split; [lia|done]. }
  intros Hge%Z.ltb_ge. case_bool_decide as Hself.
  - unfold emit_transfer_event. wp_accessor; [apply H12|]. intros s3 H3. split; [naive_solver|by etransitivity].
  - apply wp_bind, wp_move_balance; [apply H12|apply amt_range|done|..].
    + rewrite (bal_reads _ _ _ H12). intros s3 Hmax H3.
      unfold emit_transfer_event. wp_accessor; [apply H3|]. intros s4 H4. split; [naive_solver|].
      by eapply moved_reads.
    + rewrite (bal_reads _ _ _ H12). intros e s3 [[Hmax H3]|[Ht Hpart]].
      * left. split; [|by etransitivity]. intros (_ & _ & _ & [|]); [done|lia].
      * right. split; [by eapply trouble_reads|]. destruct Hpart as [Hpart|[Hmax Hpart]]; [left; by etransitivity|right].
        split; [naive_solver congruence|]. eapply writes_between; [exact H12|exact Hpart|]. by apply reads_refl, Hpart.
Qed.

(** C19: [transfer], on every branch.  It succeeds only when the contract is
    not paused, the recipient is not the zero address, the sender has the
    amount and the recipient's balance does not overflow; then the amount
    moves from the caller to the recipient and no other slot changes (and
    nothing at all changes when they are the same account).  A balance that
    becomes zero over a persisted one is read as the persisted one again.
    When the call is refused nothing changes.  The only other failures are a
    gas or database failure and a hashed slot in the reserved range; they
    leave everything as it was, or the sender debited and nobody credited.
    The two balances are assumed to be in different slots. *)
Theorem transfer_correct (to : string) (tb : bytes) (f : CallFrame) (amount : Z) (s : ExecState) :
  cs_wf st (es_cs s) -> current_frame rt = Some f -> decode_address to = Ok tb -> 0 <= amount ->
  (cf_caller f <> tb -> calculate_balance_slot (cf_caller f) <> calculate_balance_slot tb) ->
  let from := cf_caller f in
  let debited := left_by st s (calculate_balance_slot from) (bal s from - amount) in
  match transfer st rt to amount s with
  | (Ok _, s') =>
      can_transfer s from tb amount /\
      (forall k, k <> calculate_balance_slot from -> k <> calculate_balance_slot tb -> view st s' k = view st s k) /\
      if bool_decide (from = tb) then bal s' tb = bal s tb
      else bal s' from = debited /\ bal s' tb = left_by st s (calculate_balance_slot tb) (bal s tb + amount)
  | (Err _, s') =>
      (~ can_transfer s from tb amount /\ forall k, view st s' k = view st s k) \/
      (trouble st s [calculate_balance_slot from; calculate_balance_slot tb] /\
       (forall k, k <> calculate_balance_slot from -> view st s' k = view st s k) /\
       (bal s' from = bal s from \/ can_transfer s from tb amount /\ bal s' from = debited))
  end.
Proof.
  intros Hwf Hf Hd Ha Hinj from debited. pose proof (wp_transfer to tb f amount s Hwf Hf Hd Ha) as Hw.
  unfold wp in Hw. fold from in Hw, Hinj. destruct (transfer st rt to amount s) as [[a|e] s'].
  - destruct Hw as [Hc Hw]. split; [done|]. case_bool_decide.
    + split; [intros; apply Hw|by apply bal_reads].
    + split; [apply Hw|]. split; [apply Hw; by apply Hinj|apply Hw].
  - destruct Hw as [[Hn Hr]|[Ht Hp]]; [left; split; [done|apply Hr]|right]. split; [done|].
    destruct Hp as [Hr|[Hc Hw]]; [split; [intros; apply Hr|left; by apply bal_reads]|].
    assert (in_range U128_MAX (bal s from - amount)) as Hin.
    { pose proof (amt_range st s (bs from)). fold (bal s from) in *. destruct Hc as (_ & _ & ? & _). mlia. }
    split; [intros k Hk; views; by rewrite decide_False|right; split; [done|]].
    unfold bal at 1. by rewrite (amt_written _ _ _ _ _ _ Hin Hw), decide_True.
Qed.

Local Abbreviation als := calculate_allowance_slot.

Lemma trouble_writes k v s s' l : writes st k v s s' -> trouble st s' l -> trouble st s l.
Proof. intros Hr [Hf|Hf]; [left; by eapply writes_fallible|by right]. Qed.

(** The checks [transfer_from] and [burn] make before the first write. *)
Definition may_spend (s : ExecState) (from to spender : bytes) (amount : Z) : Prop :=
  Base.paused st s = false /\ from <> zeros 32 /\ to <> zeros 32 /\
  amount <= allow s from spender.

Lemma wp_transfer_from from to fb tb f amount s :
  cs_wf st (es_cs s) -> current_frame rt = Some f ->
  decode_address from = Ok fb -> decode_address to = Ok tb -> 0 <= amount ->
  wp (transfer_from st rt from to amount)
    (fun _ s' => may_spend s fb tb (cf_caller f) amount /\
       exists m, writes st (als fb (cf_caller f))
                   (u128_to_storage_value (allow s fb (cf_caller f) - amount)) s m /\
         amount <= bal m fb /\ bal m tb + amount <= U128_MAX /\
         transferred fb tb amount m s')
    (fun _ s' => (~ may_spend s fb tb (cf_caller f) amount /\ reads st s s') \/
       (may_spend s fb tb (cf_caller f) amount /\
        writes st (als fb (cf_caller f))
          (u128_to_storage_value (allow s fb (cf_caller f) - amount)) s s' /\
        (bal s' fb < amount \/ U128_MAX < bal s' tb + amount)) \/
       trouble st s [als fb (cf_caller f); bs fb; bs tb]) s.
Proof.
  intros Hwf Hf Hdf Hdt Ha. unfold transfer_from, may_spend.
  apply wp_bind, Base.wp_is_paused; [done| |intros; right; right; by left]. intros s1 H1.
  apply wp_bind, wp_bail_if; [intros Hp; left; split; [naive_solver congruence|done]|]. intros Hp.
  apply wp_bind, Base.wp_current_caller; [|congruence]. intros f' Hf'.
  assert (f' = f) as -> by congruence. clear Hf'. set (sp := cf_caller f).
  apply wp_bind. eapply wp_decode; [done|]. apply wp_bind. eapply wp_decode; [done|].
  apply wp_bind, wp_bail_if; [intros Hz%bool_decide_eq_true; left; split; [tauto|done]|].
  intros Hz1%bool_decide_eq_false.
  apply wp_bind, wp_bail_if; [intros Hz%bool_decide_eq_true; left; split; [tauto|done]|].
  intros Hz2%bool_decide_eq_false.
  apply wp_bind, wp_load_u128; [apply H1| |intros; right; right; eapply trouble_reads; [done|by left]].
  intros s2 H2. rewrite (amt_reads _ _ _ _ H1). fold (allow s fb sp).
  assert (reads st s s2) as H12 by (by etransitivity).
  apply wp_bind, wp_bail_if; [intros Hlt%Z.ltb_lt; left; split; [lia|done]|].
  intros Hge%Z.ltb_ge.
  assert (may_spend s fb tb sp amount) as Hms by (unfold may_spend; tauto).
  apply wp_bind, wp_lift; [|intros e [Hn%checked_sub_None _]%ok_or_Err; lia].
  intros na [-> _]%ok_or_Ok%checked_sub_Some.
  apply wp_bind, wp_store_u128; [apply H12| |].
  2: { intros e s3 _ [Hfa|Hr]; right; right; [left; by eapply reads_fallible|right].
       by apply Exists_cons_hd. }
  intros s3 H3.
  assert (writes st (als fb sp) (u128_to_storage_value (allow s fb sp - amount)) s s3) as Hw.
  { eapply writes_between; [done..|]. by apply reads_refl, H3. }
  assert (forall s' l, incl l [als fb sp; bs fb; bs tb] -> trouble st s' l ->
    reads st s3 s' -> trouble st s [als fb sp; bs fb; bs tb]) as Ht.
  { intros s' l Hi Hl Hr. eapply trouble_mono; [done|]. by eapply trouble_writes, trouble_reads. }
  apply wp_bind, wp_load_u128; [apply H3| |].
  2: { intros e s4 H4 Hfa. right; right. apply (Ht s3 []); [by intros ? []|by left|].
       by apply reads_refl, H3. }
  intros s4 H4. fold (bal s3 fb).
  assert (writes st (als fb sp) (u128_to_storage_value (allow s fb sp - amount)) s s4) as Hw4.
  { eapply writes_between; [|done..]. by apply reads_refl. }
  apply wp_bind, wp_bail_if.
  { intros Hlt%Z.ltb_lt. right; left. split; [done|]. split; [done|]. left.
    by rewrite (bal_reads _ _ _ H4). }
  intros Hge2%Z.ltb_ge.
  apply wp_bind, wp_move_balance; [apply H4|apply amt_range|done|..];
    rewrite (bal_reads _ _ _ H4).
  - intros s5 Hmax H5. apply wp_bind, Base.wp_current_contract; [|congruence]. intros f' _.
    unfold emit_transfer_event. wp_accessor; [apply H5|]. intros s6 H6.
    split; [done|]. exists s3. split_and!; try done. by eapply moved_reads.
  - intros e s5 [[Hmax H5]|[Htr _]].
    + right; left. split; [done|]. split; [by eapply writes_between; [apply reads_refl|..]|].
      right. rewrite (bal_reads _ _ _ H5). by rewrite (bal_reads _ _ _ H4).
    + right; right. apply (Ht s4 [bs fb; bs tb]); [|done..]. by apply incl_tl, incl_refl.
Qed.

Lemma wp_approve sp spb f amount s :
  cs_wf st (es_cs s) -> current_frame rt = Some f -> decode_address sp = Ok spb ->
  wp (approve st rt sp amount)
    (fun _ s' => (Base.paused st s = false /\ spb <> zeros 32) /\
       writes st (als (cf_caller f) spb) (u128_to_storage_value amount) s s')
    (fun _ s' => (~ (Base.paused st s = false /\ spb <> zeros 32) /\ reads st s s') \/
       trouble st s [als (cf_caller f) spb]) s.
Proof.
  intros Hwf Hf Hd. unfold approve.
  apply wp_bind, Base.wp_is_paused; [done| |intros; right; by left]. intros s1 H1.
  apply wp_bind, wp_bail_if; [intros Hp; left; split; [naive_solver congruence|done]|]. intros Hp.
  apply wp_bind, Base.wp_current_caller; [|congruence]. intros f' Hf'.
  assert (f' = f) as -> by congruence. clear Hf'.
  apply wp_bind, Base.wp_current_contract; [|congruence]. intros f' _.
  apply wp_bind. eapply wp_decode; [done|].
  apply wp_bind, wp_bail_if; [intros Hz%bool_decide_eq_true; left; split; [tauto|done]|].
  intros Hz%bool_decide_eq_false.
  apply wp_bind, wp_store_u128; [apply H1| |].
  - intros s2 H2. unfold emit_approval_event. wp_accessor; [apply H2|]. intros s3 H3.
    split; [done|]. by eapply writes_between.
  - intros e s2 _ [Hfa|Hr]; right; [left; by eapply reads_fallible|right].
    by apply Exists_cons_hd.
Qed.

(** When [mint] is meant to succeed. *)
Definition can_mint (s : ExecState) (caller to : bytes) (amount : Z) : Prop :=
  Base.paused st s = false /\ caller = Base.owner_of st s /\ to <> zeros 32 /\
  supply s + amount <= U128_MAX.

Lemma wp_mint to tb f amount s :
  cs_wf st (es_cs s) -> current_frame rt = Some f -> decode_address to = Ok tb -> 0 <= amount ->
  bs tb <> SLOT_TOTAL_SUPPLY ->
  wp (mint st rt to amount)
    (fun _ s' => can_mint s (cf_caller f) tb amount /\ bal s tb + amount <= U128_MAX /\
       moved SLOT_TOTAL_SUPPLY (supply s + amount) (bs tb) (bal s tb + amount) s s')
    (fun _ s' => (~ can_mint s (cf_caller f) tb amount /\ reads st s s') \/
       (can_mint s (cf_caller f) tb amount /\
        writes st SLOT_TOTAL_SUPPLY (u128_to_storage_value (supply s + amount)) s s' /\
        U128_MAX < bal s tb + amount) \/
       trouble st s [bs tb]) s.
Proof.
  intros Hwf Hf Hd Ha Hne. unfold mint, can_mint.
  apply wp_bind, Base.wp_is_paused; [done| |intros; right; right; by left]. intros s1 H1.
  apply wp_bind, wp_bail_if; [intros Hp; left; split; [naive_solver congruence|done]|]. intros Hp.
  apply wp_bind, Base.wp_current_caller; [|congruence]. intros f' Hf'.
  assert (f' = f) as -> by congruence. clear Hf'.
  apply wp_bind, Base.wp_get_owner; [apply H1| |intros; right; right; left; by eapply reads_fallible].
  intros s2 H2. assert (reads st s s2) as H12 by (by etransitivity).
  rewrite (owner_reads _ _ H1).
  apply wp_bind, wp_bail_if.
  { intros Hc%negb_true_iff%bool_decide_eq_false. left. split; [tauto|done]. }
  intros Hc%negb_false_iff%bool_decide_eq_true.
  apply wp_bind, Base.wp_current_contract; [|congruence]. intros f' _.
  apply wp_bind. eapply wp_decode; [done|].
  apply wp_bind, wp_bail_if; [intros Hz%bool_decide_eq_true; left; split; [tauto|done]|].
  intros Hz%bool_decide_eq_false.
  apply wp_bind, wp_load_u128; [apply H12| |intros; right; right; left; by eapply reads_fallible].
  intros s3 H3. rewrite (amt_reads _ _ _ _ H12). fold (supply s).
  assert (reads st s s3) as H13 by (by etransitivity).
  apply wp_bind, wp_lift.
  2: { intros e [Ho%checked_add_None _]%ok_or_Err. left. split; [lia|done]. }
  intros ns [-> Hmax]%ok_or_Ok%checked_add_Some.
  pose proof (amt_range st s SLOT_TOTAL_SUPPLY) as Hrs. fold (supply s) in Hrs.
  apply wp_bind, wp_store_u128; [apply H13| |].
  2: { intros e s4 _ [Hfa|Hr]; [|done]. right; right; left. by eapply reads_fallible. }
  intros s4 H4.
  apply wp_bind, wp_load_u128; [apply H4| |].
  2: { intros. right; right; left. by eapply reads_fallible, writes_fallible. }
  intros s5 H5. assert (amt st s4 (bs tb) = bal s tb) as ->.
  { unfold amt. views. by rewrite decide_False. }
  apply wp_bind, wp_lift.
  2: { intros e [Ho%checked_add_None _]%ok_or_Err. right; left. split_and!; try done.
       by eapply writes_between. }
  intros nt [-> Hmax2]%ok_or_Ok%checked_add_Some.
  pose proof (amt_range st s (bs tb)) as Hrb. fold (bal s tb) in Hrb.
  apply wp_bind, wp_store_u128; [apply H5| |].
  - intros s6 H6. unfold emit_transfer_event. wp_accessor; [apply H6|]. intros s7 H7.
    split; [done|]. split; [done|].
    apply (moved_intro _ _ _ _ s s3 s5 s6 s7); try done; [mlia..| ].
    by eapply writes_between; [apply reads_refl, H13|done|].
  - intros e s6 _ [Hfa|Hr]; right; right; [left|right; by apply Exists_cons_hd].
    by eapply reads_fallible, writes_fallible, reads_fallible.
Qed.

(** Who may burn [amount] of [from]: the holder, or a spender with the
    allowance. *)
Definition may_burn (s : ExecState) (from caller : bytes) (amount : Z) : Prop :=
  caller = from \/ amount <= allow s from caller.

(** The authorisation step of [burn]: nothing for the holder, the allowance
    spent for anyone else. *)
Definition authorised (s : ExecState) (from caller : bytes) (amount : Z) (m : ExecState) : Prop :=
  if bool_decide (caller = from) then reads st s m
  else amount <= allow s from caller /\
    writes st (als from caller) (u128_to_storage_value (allow s from caller - amount)) s m.

Lemma authorised_reads s from caller amount m m' :
  cs_wf st (es_cs s) ->
  authorised s from caller amount m -> reads st m m' -> authorised s from caller amount m'.
Proof.
  unfold authorised. intros Hwf. case_bool_decide; [intros; by etransitivity|].
  intros [? Hw] Hr. split; [done|]. by eapply writes_between; [apply reads_refl|..].
Qed.

Lemma authorised_trouble s from caller amount m l :
  authorised s from caller amount m -> trouble st m l -> trouble st s l.
Proof.
  unfold authorised. case_bool_decide; [by apply trouble_reads|].
  intros [_ ?]. by eapply trouble_writes.
Qed.

Lemma authorised_wf s from caller amount m :
  authorised s from caller amount m -> cs_wf st (es_cs m).
Proof. unfold authorised. case_bool_decide; [intros Hr; apply Hr|intros [_ Hw]; apply Hw]. Qed.

Lemma wp_authorise_burn `{HL : !HexLaws} from fb sp amount s :
  cs_wf st (es_cs s) -> decode_address from = Ok fb -> length sp = 32%nat ->
  wp (authorise_burn st from fb sp amount)
    (fun _ m => authorised s fb sp amount m)
    (fun _ s' => (~ may_burn s fb sp amount /\ reads st s s') \/
       trouble st s [als fb sp; bs fb]) s.
Proof.
  intros Hwf Hd Hl. unfold authorise_burn, authorised, may_burn.
  case_bool_decide as Hsp; [by apply wp_ret, reads_refl|].
  unfold allowance. apply wp_bind, wp_bind. eapply wp_decode; [done|].
  apply wp_bind. eapply wp_decode; [by apply decode_encode_address|].
  apply wp_load_u128; [done| |intros; right; by left].
  intros s2 H2. fold (allow s fb sp). apply wp_bind, wp_bail_if.
  { intros Hlt%Z.ltb_lt. left. split; [|done]. intros [|]; [done|lia]. }
  intros Hge%Z.ltb_ge.
  apply wp_bind, wp_lift; [|intros e [Hn%checked_sub_None _]%ok_or_Err; lia].
  intros na [-> _]%ok_or_Ok%checked_sub_Some.
  apply wp_store_u128; [apply H2| |].
  - intros s3 H3. split; [done|]. by eapply writes_between; [..|apply reads_refl, H3].
  - intros e s3 _ [Hfa|Hr]; right; [left; by eapply reads_fallible|right].
    by apply Exists_cons_hd.
Qed.

(** [burn] after the authorisation. *)
Lemma wp_burn_tail fb amount contract m :
  cs_wf st (es_cs m) -> 0 <= amount ->
  wp (from_balance ← load_u128 st (bs fb);
      bail_if (from_balance <? amount) (InsufficientBalance from_balance amount);;
      new_from ← lift (ok_or (checked_sub from_balance amount) Underflow);
      current_supply ← total_supply st;
      new_supply ← lift (ok_or (checked_sub current_supply amount) Underflow);
      store_u128 st (bs fb) new_from;;
      store_u128 st SLOT_TOTAL_SUPPLY new_supply;;
      emit_transfer_event contract fb (zeros 32) amount)
    (fun _ s' => amount <= bal m fb /\ amount <= supply m /\
       moved (bs fb) (bal m fb - amount) SLOT_TOTAL_SUPPLY (supply m - amount) m s')
    (fun _ s' => (reads st m s' /\ (bal s' fb < amount \/ supply s' < amount)) \/
       trouble st m [bs fb]) m.
Proof.
  intros Hwm Ha.
  apply wp_bind, wp_load_u128; [done| |intros; right; by left].
  intros m1 H1. fold (bal m fb). apply wp_bind, wp_bail_if.
  { intros Hlt%Z.ltb_lt. left. split; [done|]. left. by rewrite (bal_reads _ _ _ H1). }
  intros Hge%Z.ltb_ge.
  apply wp_bind, wp_lift; [|intros e [Hn%checked_sub_None _]%ok_or_Err; lia].
  intros nf [-> _]%ok_or_Ok%checked_sub_Some.
  apply wp_bind, wp_load_u128; [apply H1| |intros; right; left; by eapply reads_fallible].
  intros m2 H2. rewrite (amt_reads _ _ _ _ H1). fold (supply m).
  assert (reads st m m2) as H12 by (by etransitivity).
  apply wp_bind, wp_lift.
  2: { intros e [Hn%checked_sub_None _]%ok_or_Err. left. split; [done|].
       right. unfold supply. by rewrite (amt_reads _ _ _ _ H12). }
  intros ns [-> Hs]%ok_or_Ok%checked_sub_Some.
  pose proof (amt_range st m (bs fb)) as Hrb. fold (bal m fb) in Hrb.
  pose proof (amt_range st m SLOT_TOTAL_SUPPLY) as Hrs. fold (supply m) in Hrs.
  apply wp_bind, wp_store_u128; [apply H12| |].
  2: { intros e m3 _ [Hfa|Hr]; right; [left; by eapply reads_fallible|right].
       by apply Exists_cons_hd. }
  intros m3 H3. apply wp_bind, wp_store_u128; [apply H3| |].
  2: { intros e m4 _ [Hfa|Hr]; [|done]. right; left. by eapply reads_fallible, writes_fallible. }
  intros m4 H4. unfold emit_transfer_event. wp_accessor; [apply H4|]. intros m5 H5.
  split; [done|]. split; [done|]. apply (moved_intro _ _ _ _ m m2 m3 m4 m5); try done; mlia.
Qed.

Lemma wp_burn `{HL : !HexLaws} from fb f amount s :
  cs_wf st (es_cs s) -> current_frame rt = Some f -> decode_address from = Ok fb ->
  length (cf_caller f) = 32%nat -> 0 <= amount ->
  wp (burn st rt from amount)
    (fun _ s' => Base.paused st s = false /\
       exists m, authorised s fb (cf_caller f) amount m /\
         amount <= bal m fb /\ amount <= supply m /\
         moved (bs fb) (bal m fb - amount) SLOT_TOTAL_SUPPLY (supply m - amount) m s')
    (fun _ s' => (~ (Base.paused st s = false /\ may_burn s fb (cf_caller f) amount) /\
         reads st s s') \/
       (Base.paused st s = false /\ authorised s fb (cf_caller f) amount s' /\
         (bal s' fb < amount \/ supply s' < amount)) \/
       trouble st s [als fb (cf_caller f); bs fb]) s.
Proof.
  intros Hwf Hf Hd Hl Ha. unfold burn.
  apply wp_bind, Base.wp_is_paused; [done| |intros; right; right; by left]. intros s1 H1.
  apply wp_bind, wp_bail_if; [intros Hp; left; split; [naive_solver congruence|done]|]. intros Hp.
  apply wp_bind, Base.wp_current_caller; [|congruence]. intros f' Hf'.
  assert (f' = f) as -> by congruence. clear Hf'. set (sp := cf_caller f) in *.
  apply wp_bind. eapply wp_decode; [done|]. apply wp_bind.
  assert (forall m, authorised s1 fb sp amount m -> authorised s fb sp amount m) as Hau.
  { unfold authorised. intros m. case_bool_decide; [by etransitivity|].
    unfold allow. rewrite (amt_reads _ _ _ _ H1). intros [? Hw]. split; [done|].
    by eapply writes_between; [..|apply reads_refl, Hw]. }
  eapply wp_mono; [by apply wp_authorise_burn; [apply H1|..]| |].
  - intros a m Hm%Hau. apply wp_bind, Base.wp_current_contract; [|congruence]. intros f' _.
    eapply wp_mono; [by apply wp_burn_tail; [eapply authorised_wf|]| |].
    + intros b s' Hs'. split; [done|]. by exists m.
    + intros e s' [[Hr Hlt]|Ht]; right; [left|right].
      * split; [done|]. split; [by eapply authorised_reads|done].
      * eapply authorised_trouble; [done|]. eapply trouble_mono; [|done]. by apply incl_tl, incl_refl.
  - intros e s' [[Hn Hr]|Ht]; [left|right; right; by eapply trouble_reads].
    split; [|by etransitivity]. intros [_ Hmb]. apply Hn. unfold may_burn, allow in *.
    by rewrite (amt_reads _ _ _ _ H1).
Qed.

Lemma amt_other k v s s' i : writes st k v s s' -> i <> k -> amt st s' i = amt st s i.
Proof. intros Hw Hne. unfold amt. by rewrite (wr_view _ _ _ _ _ Hw), decide_False. Qed.

Lemma moved_amt_other k1 v1 k2 v2 s s' i :
  moved k1 v1 k2 v2 s s' -> i <> k1 -> i <> k2 -> amt st s' i = amt st s i.
Proof. intros Hm H1 H2. unfold amt. by rewrite (mv_view _ _ _ _ _ _ Hm). Qed.

(** [transfer_from] between two different accounts, on every branch.
    On success the spender had the allowance, the allowance and the two
    balances are adjusted by exactly the amount and no other slot changes.
    A call refused for lack of allowance (or paused, or a zero address)
    changes nothing; a call refused for lack of balance has already spent
    the allowance. *)
Theorem transfer_from_correct (from to : string) (fb tb : bytes) (f : CallFrame) (amount : Z)
    (s : ExecState) :
  cs_wf st (es_cs s) -> current_frame rt = Some f ->
  decode_address from = Ok fb -> decode_address to = Ok tb -> 0 <= amount ->
  let sp := cf_caller f in
  NoDup [calculate_allowance_slot fb sp; calculate_balance_slot fb; calculate_balance_slot tb] ->
  eff st s (calculate_allowance_slot fb sp) (allow s fb sp - amount) ->
  eff st s (calculate_balance_slot fb) (bal s fb - amount) ->
  eff st s (calculate_balance_slot tb) (bal s tb + amount) ->
  let affordable := amount <= bal s fb /\ bal s tb + amount <= U128_MAX in
  match transfer_from st rt from to amount s with
  | (Ok _, s') =>
      may_spend s fb tb sp amount /\ affordable /\
      allow s' fb sp = allow s fb sp - amount /\
      bal s' fb = bal s fb - amount /\ bal s' tb = bal s tb + amount /\
      forall k, k <> calculate_allowance_slot fb sp -> k <> calculate_balance_slot fb ->
        k <> calculate_balance_slot tb -> view st s' k = view st s k
  | (Err _, s') =>
      (~ may_spend s fb tb sp amount /\ forall k, view st s' k = view st s k) \/
      (may_spend s fb tb sp amount /\ ~ affordable /\
       allow s' fb sp = allow s fb sp - amount /\
       forall k, k <> calculate_allowance_slot fb sp -> view st s' k = view st s k) \/
      trouble st s [calculate_allowance_slot fb sp; calculate_balance_slot fb;
                    calculate_balance_slot tb]
  end.
Proof.
  intros Hwf Hf Hdf Hdt Ha sp Hnd Hea Hef Het affordable.
  apply NoDup_cons in Hnd as [Hn1 Hnd]. apply NoDup_cons in Hnd as [Hn2 _].
  rewrite !not_elem_of_cons in Hn1. rewrite not_elem_of_cons in Hn2.
  destruct Hn1 as (Hab & Hat & _). destruct Hn2 as (Hft & _).
  pose proof (wp_transfer_from from to fb tb f amount s Hwf Hf Hdf Hdt Ha) as Hw. fold sp in Hw.
  pose proof (amt_range st s (als fb sp)) as Hra. fold (allow s fb sp) in Hra.
  assert (forall m, writes st (als fb sp) (u128_to_storage_value (allow s fb sp - amount)) s m ->
    may_spend s fb tb sp amount ->
    bal m fb = bal s fb /\ bal m tb = bal s tb /\ allow m fb sp = allow s fb sp - amount) as Hm.
  { intros m Hwm (_ & _ & _ & Hle). split; [by apply (amt_other _ _ _ _ _ Hwm)|].
    split; [by apply (amt_other _ _ _ _ _ Hwm)|]. unfold allow at 1.
    assert (in_range U128_MAX (allow s fb sp - amount)) as Hin by mlia.
    rewrite (amt_writes _ _ _ _ _ _ Hin Hwm Hea). by rewrite decide_True. }
  unfold wp in Hw. destruct (transfer_from st rt from to amount s) as [[a|e] s'].
  - destruct Hw as (Hms & m & Hwm & Hb & Hmax & Hmv). destruct (Hm m Hwm Hms) as (Hbf & Hbt & Hal).
    unfold transferred in Hmv. rewrite Hbf, Hbt in *. split; [done|]. split; [done|].
    split; [|split; [|split]].
    + unfold allow at 1. rewrite (moved_amt_other _ _ _ _ _ _ _ Hmv) by done. done.
    + apply (mv_1 _ _ _ _ _ _ Hmv); [done|by eapply eff_writes].
    + apply (mv_2 _ _ _ _ _ _ Hmv). by eapply eff_writes.
    + intros k Hk1 Hk2 Hk3. rewrite (mv_view _ _ _ _ _ _ Hmv) by done. views. by rewrite decide_False.
  - destruct Hw as [[Hn Hr]|[(Hms & Hwm & Hlt)|Ht]]; [left|right; left|by right; right].
    + split; [done|apply Hr].
    + destruct (Hm s' Hwm Hms) as (Hbf & Hbt & Hal). rewrite Hbf, Hbt in Hlt.
      split_and!; try done; [unfold affordable; lia|]. intros k Hk. views. by rewrite decide_False.
Qed.

(** a spender moving an account's tokens to the same account creates
    tokens.  Whenever the checks of [transfer_from] pass for [from = to],
    the call succeeds, the balance grows by the amount and the recorded
    total supply does not. *)
Theorem self_transfer_from_inflates (acct : string) (a : bytes) (f : CallFrame) (amount : Z)
    (s : ExecState) :
  cs_wf st (es_cs s) -> current_frame rt = Some f -> decode_address acct = Ok a -> 0 < amount ->
  ~ trouble st s [calculate_allowance_slot a (cf_caller f); calculate_balance_slot a;
                  calculate_balance_slot a] ->
  NoDup [calculate_allowance_slot a (cf_caller f); calculate_balance_slot a; SLOT_TOTAL_SUPPLY] ->
  may_spend s a a (cf_caller f) amount -> amount <= bal s a -> bal s a + amount <= U128_MAX ->
  exists s', transfer_from st rt acct acct amount s = (Ok tt, s') /\
    bal s' a = bal s a + amount /\ supply s' = supply s.
Proof.
  intros Hwf Hf Hd Ha Hnt Hnd Hms Hb Hmax.
  apply NoDup_cons in Hnd as [Hn1 Hnd]. apply NoDup_cons in Hnd as [Hn2 _].
  rewrite !not_elem_of_cons in Hn1. rewrite not_elem_of_cons in Hn2.
  destruct Hn1 as (Hab & Has & _). destruct Hn2 as (Hbs & _).
  pose proof (wp_transfer_from acct acct a a f amount s Hwf Hf Hd Hd ltac:(lia)) as Hw.
  unfold wp in Hw. destruct (transfer_from st rt acct acct amount s) as [[[]|e] s'].
  - destruct Hw as (_ & m & Hwm & _ & _ & Hmv). exists s'. split; [done|].
    assert (bal m a = bal s a) as Hba by (by apply (amt_other _ _ _ _ _ Hwm)).
    unfold transferred in Hmv. rewrite Hba in Hmv. split.
    + apply (mv_2 _ _ _ _ _ _ Hmv). unfold eff. pose proof (amt_range st s (bs a)).
      fold (bal s a) in *. mlia.
    + unfold supply. rewrite (moved_amt_other _ _ _ _ _ _ _ Hmv) by done.
      by apply (amt_other _ _ _ _ _ Hwm).
  - exfalso. destruct Hw as [[Hn _]|[(_ & Hwm & Hlt)|Ht]]; [by apply Hn| |by apply Hnt].
    assert (bal s' a = bal s a) as Hba by (by apply (amt_other _ _ _ _ _ Hwm)).
    rewrite Hba in Hlt. lia.
Qed.

(** [approve] sets the allowance that [allowance] then reports, for the
    printed addresses of owner and spender, and changes nothing else; a
    refused [approve] changes nothing. *)
Theorem approve_allowance `{HL : !HexLaws} (sp : bytes) (f : CallFrame) (amount : Z)
    (s : ExecState) :
  cs_wf st (es_cs s) -> current_frame rt = Some f ->
  length (cf_caller f) = 32%nat -> length sp = 32%nat -> in_range U128_MAX amount ->
  eff st s (calculate_allowance_slot (cf_caller f) sp) amount ->
  match approve st rt (hex_encode sp) amount s with
  | (Ok _, s') =>
      (forall k, k <> calculate_allowance_slot (cf_caller f) sp -> view st s' k = view st s k) /\
      match allowance st (hex_encode (cf_caller f)) (hex_encode sp) s' with
      | (Ok v, s'') => v = amount
      | (Err _, s'') => fallible st s
      end
  | (Err _, s') =>
      ((Base.paused st s = true \/ sp = zeros 32) /\ forall k, view st s' k = view st s k) \/
      trouble st s [calculate_allowance_slot (cf_caller f) sp]
  end.
Proof.
  intros Hwf Hf Hlc Hls Hr He.
  pose proof (wp_approve (hex_encode sp) sp f amount s Hwf Hf
    (proj1 (decode_encode_address sp Hls))) as Hw.
  unfold wp in Hw. destruct (approve st rt (hex_encode sp) amount s) as [[[]|e] s'].
  - destruct Hw as [_ Hw]. split; [intros k Hk; views; by rewrite decide_False|].
    assert (wp (allowance st (hex_encode (cf_caller f)) (hex_encode sp))
      (fun v _ => v = amount) (fun _ _ => fallible st s) s') as Hall.
    { unfold allowance. apply wp_bind. eapply wp_decode; [by apply decode_encode_address|].
      apply wp_bind. eapply wp_decode; [by apply decode_encode_address|].
      apply wp_load_u128; [apply Hw| |intros; by eapply writes_fallible].
      intros s2 _. rewrite (amt_writes _ _ _ _ _ _ Hr Hw He). by rewrite decide_True. }
    exact Hall.
  - destruct Hw as [[Hn Hrd]|Ht]; [left|by right]. split; [|apply Hrd].
    destruct (Base.paused st s); [by left|right].
    destruct (decide (sp = zeros 32)); [done|]. by destruct Hn.
Qed.

(** [mint], on every branch: only the owner mints, supply and the
    recipient's balance grow by exactly the amount and nothing else changes;
    a refused call changes nothing, provided the recipient's balance does
    not exceed the supply. *)
Theorem mint_correct (to : string) (tb : bytes) (f : CallFrame) (amount : Z) (s : ExecState) :
  cs_wf st (es_cs s) -> current_frame rt = Some f -> decode_address to = Ok tb -> 0 <= amount ->
  calculate_balance_slot tb <> SLOT_TOTAL_SUPPLY -> bal s tb <= supply s ->
  eff st s SLOT_TOTAL_SUPPLY (supply s + amount) ->
  eff st s (calculate_balance_slot tb) (bal s tb + amount) ->
  match mint st rt to amount s with
  | (Ok _, s') =>
      can_mint s (cf_caller f) tb amount /\
      supply s' = supply s + amount /\ bal s' tb = bal s tb + amount /\
      forall k, k <> SLOT_TOTAL_SUPPLY -> k <> calculate_balance_slot tb ->
        view st s' k = view st s k
  | (Err _, s') =>
      (~ can_mint s (cf_caller f) tb amount /\ forall k, view st s' k = view st s k) \/
      trouble st s [calculate_balance_slot tb]
  end.
Proof.
  intros Hwf Hf Hd Ha Hne Hle He1 He2.
  pose proof (wp_mint to tb f amount s Hwf Hf Hd Ha Hne) as Hw.
  unfold wp in Hw. destruct (mint st rt to amount s) as [[a|e] s'].
  - destruct Hw as (Hc & Hmax & Hmv). split; [done|].
    split; [by apply (mv_1 _ _ _ _ _ _ Hmv)|]. split; [by apply (mv_2 _ _ _ _ _ _ Hmv)|apply Hmv].
  - destruct Hw as [[Hn Hr]|[((_ & _ & _ & Hs) & _ & Hov)|Ht]]; [left|lia|by right].
    split; [done|apply Hr].
Qed.

(** [burn], on every branch: the holder or a spender with the allowance
    burns; the balance and the supply shrink by exactly the amount, the
    spender's allowance too, and nothing else changes.  A refused call
    changes at most the allowance of the spender that made it. *)
Theorem burn_correct `{HL : !HexLaws} (from : string) (fb : bytes) (f : CallFrame) (amount : Z)
    (s : ExecState) :
  cs_wf st (es_cs s) -> current_frame rt = Some f -> decode_address from = Ok fb ->
  length (cf_caller f) = 32%nat -> 0 <= amount ->
  let sp := cf_caller f in
  NoDup [calculate_allowance_slot fb sp; calculate_balance_slot fb; SLOT_TOTAL_SUPPLY] ->
  eff st s (calculate_allowance_slot fb sp) (allow s fb sp - amount) ->
  eff st s (calculate_balance_slot fb) (bal s fb - amount) ->
  eff st s SLOT_TOTAL_SUPPLY (supply s - amount) ->
  match burn st rt from amount s with
  | (Ok _, s') =>
      (Base.paused st s = false /\ may_burn s fb sp amount /\
       amount <= bal s fb /\ amount <= supply s) /\
      bal s' fb = bal s fb - amount /\ supply s' = supply s - amount /\
      allow s' fb sp = (if bool_decide (sp = fb) then allow s fb sp else allow s fb sp - amount) /\
      forall k, k <> calculate_allowance_slot fb sp -> k <> calculate_balance_slot fb ->
        k <> SLOT_TOTAL_SUPPLY -> view st s' k = view st s k
  | (Err _, s') =>
      (~ (Base.paused st s = false /\ may_burn s fb sp amount /\
          amount <= bal s fb /\ amount <= supply s) /\
       forall k, (sp <> fb -> k <> calculate_allowance_slot fb sp) ->
         view st s' k = view st s k) \/
      trouble st s [calculate_allowance_slot fb sp; calculate_balance_slot fb]
  end.
Proof.
  intros Hwf Hf Hd Hl Ha sp Hnd Hea Heb Hes.
  apply NoDup_cons in Hnd as [Hn1 Hnd]. apply NoDup_cons in Hnd as [Hn2 _].
  rewrite !not_elem_of_cons in Hn1. rewrite not_elem_of_cons in Hn2.
  destruct Hn1 as (Hab & Has & _). destruct Hn2 as (Hbs & _).
  pose proof (wp_burn from fb f amount s Hwf Hf Hd Hl Ha) as Hw. fold sp in Hw.
  pose proof (amt_range st s (als fb sp)) as Hra. fold (allow s fb sp) in Hra.
  assert (forall m, authorised s fb sp amount m ->
    may_burn s fb sp amount /\ contract_address (es_cs m) = contract_address (es_cs s) /\
    (forall k, (sp <> fb -> k <> als fb sp) -> view st m k = view st s k) /\
    allow m fb sp = (if bool_decide (sp = fb) then allow s fb sp else allow s fb sp - amount)) as Hm.
  { intros m. unfold authorised, may_burn. case_bool_decide as Hsp.
    - intros Hr. split; [by left|]. split; [apply Hr|]. split; [intros; apply Hr|by apply amt_reads].
    - intros [Hle Hwm]. split; [by right|]. split; [apply Hwm|]. split.
      + intros k Hk. views. rewrite decide_False; [done|by apply Hk].
      + assert (in_range U128_MAX (allow s fb sp - amount)) as Hin by mlia. unfold allow at 1.
        rewrite (amt_writes _ _ _ _ _ _ Hin Hwm Hea). by rewrite decide_True. }
  assert (forall m, authorised s fb sp amount m -> bal m fb = bal s fb /\ supply m = supply s) as Hbal.
  { intros m (_ & _ & Hv & _)%Hm. unfold bal, supply, amt. by rewrite !Hv. }
  unfold wp in Hw. destruct (burn st rt from amount s) as [[a|e] s'].
  - destruct Hw as (Hp & m & Hau & Hb & Hs & Hmv). destruct (Hbal m Hau) as [E1 E2].
    destruct (Hm m Hau) as (Hmb & Had & Hv & Hal). rewrite E1, E2 in *.
    assert (forall k v, eff st s k v -> eff st m k v) as Heff
      by (intros k v; unfold eff, db_amt; by rewrite Had).
    split; [done|]. split; [by apply (mv_1 _ _ _ _ _ _ Hmv); [|apply Heff]|].
    split; [by apply (mv_2 _ _ _ _ _ _ Hmv), Heff|]. split.
    + unfold allow at 1. by rewrite (moved_amt_other _ _ _ _ _ _ _ Hmv).
    + intros k Hk1 Hk2 Hk3. rewrite (mv_view _ _ _ _ _ _ Hmv) by done. by apply Hv.
  - destruct Hw as [[Hn Hr]|[(Hp & Hau & Hlt)|Ht]]; [left|left|by right].
    + split; [tauto|]. intros k _. apply Hr.
    + destruct (Hbal s' Hau) as [E1 E2]. destruct (Hm s' Hau) as (_ & _ & Hv & _).
      rewrite E1, E2 in Hlt. split; [lia|done].
Qed.
End Spec.
