(* ===== verification/Savitri20Ledger.v ===== *)
(** * SAVITRI-20: the supply invariant

    The ledger over sequences of calls: [supply_is_sum_of_balances] shows that
    no sequence of calls, failing ones included, breaks the equation between
    the recorded supply and the sum of the balances, unless a call writes zero
    over a persisted amount, is cut short by the gas meter, or delegates a
    transfer of an account to itself.  The second half applies
    the theorems of [Savitri20Correct.v] to a concrete token. *)

From S2P Require Import Prelude Gas ContractStorage Codec BaseContract Savitri20 Savitri20Correct.
From Stdlib Require Import Strings.Byte.
Import CS Sav20.

(** The state-changing entry points of the token, with addresses as bytes. *)
Inductive Call :=
  | CTransfer (to : bytes) (amount : Z)
  | CApprove (spender : bytes) (amount : Z)
  | CTransferFrom (from to : bytes) (amount : Z)
  | CMint (to : bytes) (amount : Z)
  | CBurn (from : bytes) (amount : Z).

Definition call_addresses (c : Call) : list bytes :=
  match c with
  | CTransfer to _ => [to]
  | CApprove sp _ => [sp]
  | CTransferFrom from to _ => [from; to]
  | CMint to _ => [to]
  | CBurn from _ => [from]
  end.

Definition call_amount (c : Call) : Z :=
  match c with
  | CTransfer _ a | CApprove _ a | CTransferFrom _ _ a | CMint _ a | CBurn _ a => a
  end.

Section Invariant.
Context `{HexLaws} `{Keccak} (st : Storage).

Definition run_call (rt : Runtime) (c : Call) : X unit :=
  match c with
  | CTransfer to a => transfer st rt (hex_encode to) a
  | CApprove sp a => approve st rt (hex_encode sp) a
  | CTransferFrom from to a => transfer_from st rt (hex_encode from) (hex_encode to) a
  | CMint to a => mint st rt (hex_encode to) a
  | CBurn from a => burn st rt (hex_encode from) a
  end.

(** Calls in sequence; whatever one returns, the next starts from the state
    it left. *)
Fixpoint run_calls (l : list (Runtime * Call)) (s : ExecState) : ExecState :=
  match l with
  | [] => s
  | (rt, c) :: r => run_calls r (snd (run_call rt c s))
  end.

Context (addr : bytes) (holders : list bytes).

(** The slots of the ledger do not collide and are not reserved. *)
Record ledger_ok : Prop := {
  lk_len : Forall (fun a => length a = 32%nat) holders;
  lk_nodup : NoDup (SLOT_TOTAL_SUPPLY :: map calculate_balance_slot holders);
  lk_allow : forall o sp, o ∈ holders -> sp ∈ holders ->
    calculate_allowance_slot o sp ∉ SLOT_TOTAL_SUPPLY :: map calculate_balance_slot holders;
  lk_bal_free : Forall (fun a => is_reserved_slot (calculate_balance_slot a) = false) holders;
  lk_allow_free : forall o sp, o ∈ holders -> sp ∈ holders ->
    is_reserved_slot (calculate_allowance_slot o sp) = false;
  lk_db : db_ok st addr;
}.

(** A call of the trace: made by a holder, about holders, with a [u128]
    amount; a [transfer_from] is between two different accounts. *)
Definition call_ok (rc : Runtime * Call) : Prop :=
  (exists f, current_frame (fst rc) = Some f /\ cf_caller f ∈ holders) /\
  Forall (fun a => a ∈ holders) (call_addresses (snd rc)) /\
  in_range U128_MAX (call_amount (snd rc)) /\
  match snd rc with CTransferFrom from to _ => from <> to | _ => True end.

(** The balances and the supply a call writes, with the amounts. *)
Definition written (rt : Runtime) (c : Call) (s : ExecState) : list (Z * Z) :=
  let b := calculate_balance_slot in
  match c with
  | CTransfer to a =>
      from_option (fun f => [(b (cf_caller f), bal st s (cf_caller f) - a); (b to, bal st s to + a)]) [] (current_frame rt)
  | CApprove _ _ => []
  | CTransferFrom from to a => [(b from, bal st s from - a); (b to, bal st s to + a)]
  | CMint to a => [(SLOT_TOTAL_SUPPLY, supply st s + a); (b to, bal st s to + a)]
  | CBurn from a => [(b from, bal st s from - a); (SLOT_TOTAL_SUPPLY, supply st s - a)]
  end.

(** What the run must not do: write a zero over a persisted amount, or stop a
    call half way for want of gas.  A call that succeeds, is refused before it
    writes, or runs without a meter is not stopped half way. *)
Definition whole (rt : Runtime) (c : Call) (s : ExecState) : Prop :=
  Forall (fun kv : Z * Z => eff st s kv.1 kv.2) (written rt c s) /\
  (es_gas s = None \/ is_ok (fst (run_call rt c s)) = true \/ reads st s (snd (run_call rt c s))).
Fixpoint whole_calls (l : list (Runtime * Call)) (s : ExecState) : Prop :=
  match l with
  | [] => True
  | (rt, c) :: l => whole rt c s /\ whole_calls l (snd (run_call rt c s))
  end.

Record ledger_inv (s : ExecState) : Prop := {
  li_wf : cs_wf st (es_cs s);
  li_addr : contract_address (es_cs s) = addr;
  li_sum : sumZ (map (bal st s) holders) = supply st s;
}.

Context (Hok : ledger_ok).
Local Abbreviation bs := calculate_balance_slot.
Local Abbreviation als := calculate_allowance_slot.

Lemma holder_len a : a ∈ holders -> length a = 32%nat.
Proof. intros Ha. pose proof (lk_len Hok) as Hl. rewrite Forall_forall in Hl. by apply Hl. Qed.

Lemma holder_decode a : a ∈ holders -> decode_address (hex_encode a) = Ok a.
Proof. intros Ha%holder_len. by apply decode_encode_address. Qed.

Lemma bs_in a : a ∈ holders -> bs a ∈ map bs holders.
Proof. intros Ha. apply list_elem_of_In, in_map, list_elem_of_In, Ha. Qed.

Lemma bs_supply a : a ∈ holders -> bs a <> SLOT_TOTAL_SUPPLY.
Proof.
  intros Ha E. pose proof (lk_nodup Hok) as Hn. apply NoDup_cons in Hn as [Hn _].
  apply Hn. rewrite <- E. by apply bs_in.
Qed.

Lemma bs_inj a b : a ∈ holders -> b ∈ holders -> bs a = bs b -> a = b.
Proof.
  intros Ha Hb E. pose proof (lk_nodup Hok) as Hn. apply NoDup_cons in Hn as [_ Hn].
  apply list_elem_of_lookup in Ha as [i Hi]. apply list_elem_of_lookup in Hb as [j Hj].
  assert (map bs holders !! i = Some (bs a)) as Hi' by (by rewrite list_lookup_fmap, Hi).
  assert (map bs holders !! j = Some (bs a)) as Hj' by (by rewrite list_lookup_fmap, Hj, E).
  pose proof (NoDup_lookup _ _ _ _ Hn Hi' Hj'). congruence.
Qed.

Lemma holders_nodup : NoDup holders.
Proof.
  pose proof (lk_nodup Hok) as Hn. apply NoDup_cons in Hn as [_ Hn].
  by apply NoDup_fmap_1 in Hn.
Qed.

Lemma als_ne o sp a : o ∈ holders -> sp ∈ holders -> a ∈ holders ->
  als o sp <> bs a /\ als o sp <> SLOT_TOTAL_SUPPLY.
Proof.
  intros Ho Hs Ha. pose proof (lk_allow Hok o sp Ho Hs) as Hn.
  apply not_elem_of_cons in Hn as [Hn1 Hn2]. split; [|done].
  intros E. apply Hn2. rewrite E. by apply bs_in.
Qed.

Lemma no_trouble s l :
  ledger_inv s -> es_gas s = None ->
  Forall (fun k => (exists a, a ∈ holders /\ k = bs a) \/
    exists o sp, o ∈ holders /\ sp ∈ holders /\ k = als o sp) l ->
  ~ trouble st s l.
Proof.
  intros Hi Hg Hl [Hf|Hr].
  - revert Hf. apply not_fallible; [done|]. rewrite (li_addr _ Hi). apply Hok.
  - apply Exists_exists in Hr as (k & Hk & Hres). rewrite Forall_forall in Hl.
    destruct (Hl k Hk) as [(a & Ha & ->)|(o & sp & Ho & Hsp & ->)].
    + pose proof (lk_bal_free Hok) as Hb. rewrite Forall_forall in Hb. rewrite Hb in Hres; done.
    + rewrite (lk_allow_free Hok) in Hres; done.
Qed.

Lemma bal_le_supply s a : ledger_inv s -> a ∈ holders -> bal st s a <= supply st s.
Proof.
  intros Hi Ha. rewrite <- (li_sum _ Hi). apply sumZ_nonneg_le; [|done].
  intros x _. apply amt_range.
Qed.

(** A state that agrees on every slot of the ledger keeps the invariant. *)
Lemma inv_same s s' :
  ledger_inv s -> cs_wf st (es_cs s') ->
  contract_address (es_cs s') = contract_address (es_cs s) ->
  (forall a, a ∈ holders -> bal st s' a = bal st s a) -> supply st s' = supply st s ->
  ledger_inv s'.
Proof.
  intros Hi Hwf Ha Hb Hs. split; [done|by rewrite Ha; apply Hi|].
  rewrite Hs, <- (li_sum _ Hi). by apply sumZ_ext.
Qed.

Lemma inv_reads s s' : ledger_inv s -> reads st s s' -> ledger_inv s'.
Proof.
  intros Hi Hr. apply (inv_same s); try apply Hr; [done|..].
  - intros a _. by apply amt_reads.
  - by apply amt_reads.
Qed.

Lemma inv_allowance s s' o sp v :
  ledger_inv s -> o ∈ holders -> sp ∈ holders -> writes st (als o sp) v s s' -> ledger_inv s'.
Proof.
  intros Hi Ho Hs Hw. apply (inv_same s); try apply Hw; [done|..].
  - intros a Ha. apply (amt_other _ _ _ _ _ _ Hw).
    destruct (als_ne o sp a); congruence.
  - apply (amt_other _ _ _ _ _ _ Hw). destruct (als_ne o sp o); congruence.
Qed.

Lemma inv_transferred s s' from to amount :
  ledger_inv s -> from ∈ holders -> to ∈ holders -> from <> to ->
  eff st s (bs from) (bal st s from - amount) -> eff st s (bs to) (bal st s to + amount) ->
  transferred st from to amount s s' -> ledger_inv s'.
Proof.
  intros Hi Hf Ht Hne He1 He2 Hm. pose proof (bs_supply from Hf). pose proof (bs_supply to Ht).
  assert (bs from <> bs to) by (intros E; by apply Hne, bs_inj).
  split; [apply Hm|rewrite (mv_addr _ _ _ _ _ _ _ Hm); apply Hi|].
  unfold supply. rewrite (moved_amt_other _ _ _ _ _ _ _ _ Hm) by done. fold (supply st s).
  rewrite (sumZ_update2 (bal st s) (bal st s') holders from to); [|by apply holders_nodup|done..|].
  - unfold bal at 2 4. rewrite (mv_1 _ _ _ _ _ _ _ Hm), (mv_2 _ _ _ _ _ _ _ Hm), (li_sum _ Hi);
      [lia|done..].
  - intros x Hx Hx1 Hx2. apply (moved_amt_other _ _ _ _ _ _ _ _ Hm); intros E; by apply bs_inj in E.
Qed.

(** Supply and one balance move together, by [d]. *)
Lemma inv_supply_moved s s' a d k1 v1 k2 v2 :
  ledger_inv s -> a ∈ holders -> moved st k1 v1 k2 v2 s s' ->
  (k1 = SLOT_TOTAL_SUPPLY /\ v1 = supply st s + d /\ k2 = bs a /\ v2 = bal st s a + d \/
   k1 = bs a /\ v1 = bal st s a + d /\ k2 = SLOT_TOTAL_SUPPLY /\ v2 = supply st s + d) ->
  eff st s k1 v1 -> eff st s k2 v2 -> ledger_inv s'.
Proof.
  intros Hi Ha Hm Hk He1 He2. pose proof (bs_supply a Ha) as Hne.
  split; [apply Hm|rewrite (mv_addr _ _ _ _ _ _ _ Hm); apply Hi|].
  assert (supply st s' = supply st s + d /\ bal st s' a = bal st s a + d) as [Es Eb].
  { destruct Hk as [(-> & -> & -> & ->)|(-> & -> & -> & ->)]; split;
      first [by apply (mv_1 _ _ _ _ _ _ _ Hm)|by apply (mv_2 _ _ _ _ _ _ _ Hm)]. }
  rewrite (sumZ_update (bal st s) (bal st s') holders a), (li_sum _ Hi);
    [lia|by apply holders_nodup|done|].
  intros x Hx Hxa. assert (bs x <> bs a) by (intros E; by apply bs_inj in E).
  pose proof (bs_supply x Hx). apply (moved_amt_other _ _ _ _ _ _ _ _ Hm); naive_solver.
Qed.

Ltac slots := repeat apply Forall_cons_2; try apply Forall_nil_2;
  first [left; eexists; split; [|reflexivity]; assumption
        |right; do 2 eexists; split; [|split; [|reflexivity]]; assumption].

Lemma inv_authorised s m from caller amount :
  ledger_inv s -> from ∈ holders -> caller ∈ holders ->
  authorised st s from caller amount m -> ledger_inv m.
Proof.
  intros Hi Hf Hc. unfold authorised. case_bool_decide.
  - by apply inv_reads.
  - intros [_ Hw]. by apply (inv_allowance s m from caller _ Hi Hf Hc Hw).
Qed.

(** A call that fails for gas or the database: it is not stopped half way. *)
Lemma inv_trouble rt c s s' e l : run_call rt c s = (Err e, s') -> whole rt c s -> ledger_inv s ->
  Forall (fun k => (exists a, a ∈ holders /\ k = bs a) \/
    exists o sp, o ∈ holders /\ sp ∈ holders /\ k = als o sp) l ->
  trouble st s l -> ledger_inv s'.
Proof.
  intros E [_ Hw] Hi Hl Ht. rewrite E in Hw. destruct Hw as [Hg|[?|Hr]]; [|done|by eapply inv_reads].
  destruct (no_trouble s l Hi Hg Hl Ht).
Qed.

(** Spending an allowance leaves the other amounts of the ledger. *)
Lemma authorised_amt s m from caller amount a :
  from ∈ holders -> caller ∈ holders -> a ∈ holders -> authorised st s from caller amount m ->
  bal st m a = bal st s a /\ supply st m = supply st s /\ forall k v, eff st s k v -> eff st m k v.
Proof.
  intros Hf Hc Ha. destruct (als_ne from caller a Hf Hc Ha). unfold authorised. case_bool_decide.
  - intros Hr. split; [by apply amt_reads|]. split; [by apply amt_reads|]. intros k v. by apply eff_reads.
  - intros [_ Hw]. split; [by apply (amt_other _ _ _ _ _ _ Hw)|]. split; [by apply (amt_other _ _ _ _ _ _ Hw)|].
    intros k v. by eapply eff_writes.
Qed.

Lemma run_call_inv rt c s :
  call_ok (rt, c) -> whole rt c s -> ledger_inv s -> ledger_inv (snd (run_call rt c s)).
Proof.
  intros ((f & Hf & Hc) & Hadd & Hamt & Hne) Hwh Hi. cbn [fst snd] in *. pose proof (li_wf _ Hi) as Hwf.
  pose proof Hwh as [He _]. pose proof (inv_trouble rt c s) as Hcut.
  destruct c as [to a|sp a|from to a|to a|from a]; cbn [call_addresses call_amount run_call written] in *;
    try rewrite Hf in He; cbn [from_option] in He;
    repeat match goal with Hx : Forall _ (_ :: _) |- _ => inversion Hx; subst; clear Hx end; cbn [fst snd] in *.
  - pose proof (wp_transfer st rt _ to f a s Hwf Hf (holder_decode _ ltac:(done)) ltac:(mlia)) as Hw.
    unfold wp in Hw. destruct (transfer _ _ _ _ _) as [[u|e] s']; cbn [snd].
    + destruct Hw as [_ Hw]. case_bool_decide; [by eapply inv_reads|by apply (inv_transferred s s' (cf_caller f) to a)].
    + destruct Hw as [[_ Hr]|[Ht _]]; [by eapply inv_reads|]. eapply Hcut; [reflexivity|exact Hwh|exact Hi| |exact Ht]; slots.
  - pose proof (wp_approve st rt _ sp f a s Hwf Hf (holder_decode _ ltac:(done))) as Hw.
    unfold wp in Hw. destruct (approve _ _ _ _ _) as [[u|e] s']; cbn [snd].
    + destruct Hw as [_ Hw]. by apply (inv_allowance _ _ _ _ _ Hi Hc ltac:(done) Hw).
    + destruct Hw as [[_ Hr]|Ht]; [by eapply inv_reads|]. eapply Hcut; [reflexivity|exact Hwh|exact Hi| |exact Ht]; slots.
  - pose proof (wp_transfer_from st rt _ _ from to f a s Hwf Hf (holder_decode from ltac:(done))
      (holder_decode to ltac:(done)) ltac:(mlia)) as Hw.
    unfold wp in Hw. destruct (transfer_from _ _ _ _ _ _) as [[u|e] s']; cbn [snd].
    + destruct Hw as (_ & m & Hm & _ & _ & Ht).
      destruct (als_ne from (cf_caller f) from), (als_ne from (cf_caller f) to); try done.
      apply (inv_transferred m s' from to a);
        [by apply (inv_allowance _ _ from _ _ Hi ltac:(done) Hc Hm)|done|done|done| | |done];
        eapply eff_writes; try exact Hm; unfold bal; rewrite (amt_other _ _ _ _ _ _ Hm); done.
    + destruct Hw as [[_ Hr]|[(_ & Hm & _)|Ht]]; [by eapply inv_reads|by apply (inv_allowance _ _ from _ _ Hi ltac:(done) Hc Hm)|].
      eapply Hcut; [reflexivity|exact Hwh|exact Hi| |exact Ht]; slots.
  - pose proof (wp_mint st rt _ to f a s Hwf Hf (holder_decode _ ltac:(done)) ltac:(mlia)
      (bs_supply to ltac:(done))) as Hw.
    unfold wp in Hw. destruct (mint _ _ _ _ _) as [[u|e] s']; cbn [snd].
    + destruct Hw as (_ & _ & Hm). eapply (inv_supply_moved s s' to a); [done|done|done|by left|done|done].
    + destruct Hw as [[_ Hr]|[((_ & _ & _ & Hs) & _ & Hov)|Ht]]; [by eapply inv_reads|..].
      * pose proof (bal_le_supply s to Hi ltac:(done)). lia.
      * eapply Hcut; [reflexivity|exact Hwh|exact Hi| |exact Ht]; slots.
  - pose proof (wp_burn st rt _ from f a s Hwf Hf (holder_decode _ ltac:(done))
      (holder_len _ Hc) ltac:(mlia)) as Hw.
    unfold wp in Hw. destruct (burn _ _ _ _ _) as [[u|e] s']; cbn [snd].
    + destruct Hw as (_ & m & Hm & _ & _ & Ht).
      destruct (authorised_amt s m from (cf_caller f) a from) as (Eb & Es & Heff); try done.
      eapply (inv_supply_moved m s' from (- a)); [by apply (inv_authorised s m from _ _ Hi ltac:(done) Hc Hm)|done|done|by right| |];
        apply Heff; rewrite ?Eb, ?Es; done.
    + destruct Hw as [[_ Hr]|[(_ & Hm & _)|Ht]]; [by eapply inv_reads|by apply (inv_authorised s s' from _ _ Hi ltac:(done) Hc Hm)|].
      eapply Hcut; [reflexivity|exact Hwh|exact Hi| |exact Ht]; slots.
Qed.

End Invariant.

(** C2: the recorded supply is the sum of the balances.  Whatever sequence
    of transfers, approvals, mints and burns holders make, whether the calls
    succeed or fail, the sum over all holders stays equal to the total supply.
    The conditions: the hashed slots of the holders do not collide and are
    outside the reserved range; no call writes a zero over a persisted amount
    (the write would be lost) or is stopped half way by the gas meter; and
    [transfer_from] is not made from an account to itself. *)
Theorem supply_is_sum_of_balances `{HexLaws} `{Keccak} (st : Storage) (addr : bytes)
    (holders : list bytes) (calls : list (Runtime * Call)) (s : ExecState) :
  ledger_ok st addr holders -> Forall (call_ok holders) calls -> whole_calls st calls s ->
  ledger_inv st addr holders s -> ledger_inv st addr holders (run_calls st calls s).
Proof.
  intros Hok Hc. revert s. induction Hc as [|[rt c] l Hrc _ IH]; intros s Hw Hi; simpl; [done|].
  destruct Hw as [Hw Hws]. apply IH; [done|]. by apply run_call_inv.
Qed.

(** ** A concrete token

    Alice owns the contract and 1000 tokens; she has approved Bob for 300. *)

#[local] Existing Instance keccak_toy.
Import Base (alice, bob, carol, runtime_of, deployed).
Definition none : Storage := mem_storage ∅.
Definition by_alice : Runtime := runtime_of addr0 alice.
Definition by_bob : Runtime := runtime_of addr0 bob.
Definition token : ExecState :=
  snd (approve none by_alice (hex_encode bob) 300
    (snd (initialize none alice (bytes_of_string "Token") (bytes_of_string "TOK") 1000
      deployed))).

Lemma token_wf : cs_wf none (es_cs token).
Proof. apply cs_wf_decide; vm_compute; done. Qed.

Lemma token_ok l : Forall (fun k => is_reserved_slot k = false) l -> ~ trouble none token l.
Proof.
  intros Hl [Hf|Hr].
  - revert Hf. apply not_fallible; [vm_compute; done|]. by apply db_ok_mem.
  - apply Exists_exists in Hr as (k & Hk & Hr). rewrite Forall_forall in Hl.
    rewrite Hl in Hr; done.
Qed.

Lemma eff_none s k v : eff none s k v.
Proof. intros _. unfold db_amt. done. Qed.

Lemma transfer_correct_witness :
  bal none (snd (transfer none by_alice (hex_encode bob) 250 token)) alice = 750 /\
  bal none (snd (transfer none by_alice (hex_encode bob) 250 token)) bob = 250.
Proof.
  pose proof (transfer_correct none by_alice (hex_encode bob) bob _ 250 token token_wf eq_refl
    ltac:(vm_compute; done) ltac:(done) ltac:(vm_compute; done)) as Hc.
  destruct (transfer none by_alice (hex_encode bob) 250 token) as [[u|e] s'] eqn:E.
  - destruct Hc as (_ & _ & Ha & Hb). split; [refine (eq_trans Ha _)|refine (eq_trans Hb _)];
      vm_compute; done.
  - vm_compute in E. discriminate E.
Defined.

Lemma transfer_from_correct_witness :
  let s' : ExecState := snd (transfer_from none by_bob (hex_encode alice) (hex_encode carol) 100 token) in
  allow none s' alice bob = 200 /\ bal none s' carol = 100.
Proof.
  pose proof (transfer_from_correct none by_bob (hex_encode alice) (hex_encode carol) alice carol
    _ 100 token token_wf eq_refl ltac:(vm_compute; done) ltac:(vm_compute; done) ltac:(done)
    ltac:(apply (bool_decide_eq_true_1 _); vm_compute; done)
    (eff_none _ _ _) (eff_none _ _ _) (eff_none _ _ _)) as Hc.
  destruct (transfer_from none by_bob (hex_encode alice) (hex_encode carol) 100 token)
    as [[u|e] s'] eqn:E.
  - destruct Hc as (_ & _ & Ha & _ & Hb & _).
    split; [refine (eq_trans Ha _)|refine (eq_trans Hb _)]; vm_compute; done.
  - vm_compute in E. discriminate E.
Defined.

Lemma self_transfer_from_inflates_witness :
  exists s' : ExecState, transfer_from none by_bob (hex_encode alice) (hex_encode alice) 300 token =
    (Ok tt, s') /\
  bal none s' alice = bal none token alice + 300 /\ supply none s' = supply none token.
Proof.
  apply (self_transfer_from_inflates none by_bob (hex_encode alice) alice
    (Base.frame_of addr0 bob) 300 token token_wf).
  - vm_compute; done.
  - vm_compute; done.
  - done.
  - apply token_ok. repeat constructor.
  - apply (bool_decide_eq_true_1 _). vm_compute. done.
  - vm_compute. done.
  - vm_compute. done.
  - vm_compute. done.
Defined.

Lemma approve_allowance_witness :
  fst (allowance none (hex_encode alice) (hex_encode carol)
    (snd (approve none by_alice (hex_encode carol) 42 token))) = Ok 42.
Proof.
  pose proof (approve_allowance none by_alice carol (Base.frame_of addr0 alice) 42 token token_wf eq_refl eq_refl eq_refl
    ltac:(vm_compute; split; discriminate) (eff_none _ _ _)) as Hc.
  destruct (approve none by_alice (hex_encode carol) 42 token) as [[u|e] s'] eqn:E.
  - destruct Hc as [_ Hc]. change (snd (Ok u, s')) with s'.
    change (cf_caller (Base.frame_of addr0 alice)) with alice in Hc.
    destruct (allowance none (hex_encode alice) (hex_encode carol) s') as [[v|e] s''].
    + exact (f_equal Ok Hc).
    + exfalso. apply (token_ok [] ltac:(constructor)). by left.
  - vm_compute in E. discriminate E.
Defined.

Lemma mint_correct_witness :
  let s' : ExecState := snd (mint none by_alice (hex_encode bob) 50 token) in
  supply none s' = 1050 /\ bal none s' bob = 50.
Proof.
  pose proof (mint_correct none by_alice (hex_encode bob) bob _ 50 token token_wf eq_refl
    ltac:(vm_compute; done) ltac:(done) ltac:(vm_compute; done) ltac:(vm_compute; done)
    (eff_none _ _ _) (eff_none _ _ _)) as Hc.
  destruct (mint none by_alice (hex_encode bob) 50 token) as [[u|e] s'] eqn:E.
  - destruct Hc as (_ & Ha & Hb & _).
    split; [refine (eq_trans Ha _)|refine (eq_trans Hb _)]; vm_compute; done.
  - vm_compute in E. discriminate E.
Defined.

Lemma burn_correct_witness :
  let s' : ExecState := snd (burn none by_bob (hex_encode alice) 120 token) in
  bal none s' alice = 880 /\ supply none s' = 880 /\ allow none s' alice bob = 180.
Proof.
  pose proof (burn_correct none by_bob (hex_encode alice) alice _ 120 token token_wf eq_refl
    ltac:(vm_compute; done) eq_refl ltac:(done)
    ltac:(apply (bool_decide_eq_true_1 _); vm_compute; done)
    (eff_none _ _ _) (eff_none _ _ _) (eff_none _ _ _)) as Hc.
  destruct (burn none by_bob (hex_encode alice) 120 token) as [[u|e] s'] eqn:E.
  - destruct Hc as (_ & Ha & Hb & Hc & _).
    split; [refine (eq_trans Ha _)|split; [refine (eq_trans Hb _)|refine (eq_trans Hc _)]];
      vm_compute; done.
  - vm_compute in E. discriminate E.
Defined.

Definition holders3 : list bytes := [alice; bob; carol].

Lemma holders3_in a : a ∈ holders3 <-> a = alice \/ a = bob \/ a = carol.
Proof. unfold holders3. rewrite !elem_of_cons, elem_of_nil. tauto. Qed.

Lemma holders3_ok : ledger_ok none addr0 holders3.
Proof.
  split.
  - repeat constructor.
  - apply (bool_decide_eq_true_1 _). vm_compute. done.
  - intros o sp Ho Hs. apply (bool_decide_eq_true_1 _).
    apply holders3_in in Ho as [->|[->| ->]], Hs as [->|[->| ->]]; vm_compute; done.
  - repeat constructor.
  - intros o sp Ho Hs.
    apply holders3_in in Ho as [->|[->| ->]], Hs as [->|[->| ->]]; vm_compute; done.
  - by apply db_ok_mem.
Qed.

Lemma supply_is_sum_of_balances_witness :
  ledger_inv none addr0 holders3
    (run_calls none [(by_bob, CTransferFrom alice carol 200); (by_alice, CMint bob 5);
                     (by_bob, CMint bob 5); (by_bob, CBurn alice 100); (by_bob, CTransfer carol 9)]
       token).
Proof.
  apply supply_is_sum_of_balances.
  - apply holders3_ok.
  - repeat apply Forall_cons_2; try apply Forall_nil_2;
      (split; [eexists; split; [reflexivity|]; apply holders3_in; auto|]);
      (split; [repeat apply Forall_cons_2; try apply Forall_nil_2; apply holders3_in; auto|]);
      (split; [vm_compute; split; discriminate|]); vm_compute; done.
  - repeat split; try (apply Forall_forall; intros; apply eff_none); left; vm_compute; done.
  - split; [apply token_wf|vm_compute; done..].
Defined.
