(* ===== verification/Savitri721.v ===== *)
(** * SAVITRI-721: the non-fungible token

    [Savitri-contracts/src/contracts/standards/savitri721.rs]: minting,
    ownership, approvals, transfers and token URIs.  [safe_transfer_from] calls
    back into the receiver contract through the call machinery and is not
    modelled.  The [u64] word encoding is that of the base contract. *)

From S2P Require Import Prelude Gas ContractStorage Codec BaseContract Savitri20 Savitri20Correct.
From Stdlib Require Import Strings.Byte.
Import CS.

Module Sav721.

Definition SLOT_TOKEN_OWNERS_BASE : Z := 100.
Definition SLOT_TOKEN_BALANCES_BASE : Z := 200.
Definition SLOT_TOKEN_APPROVALS_BASE : Z := 300.
Definition SLOT_TOKEN_URIS_BASE : Z := 400.

Section Ops.
Context `{Hex} `{Keccak} (st : Storage) (rt : Runtime).

Definition encode_address (a : bytes) : string := "0x" +:+ hex_encode a.

Definition token_owner_slot (token_id : Z) : Z :=
  hash_slot (keccak256 (to_le_bytes 8 SLOT_TOKEN_OWNERS_BASE ++ to_le_bytes 8 token_id)).
Definition token_approval_slot (token_id : Z) : Z :=
  hash_slot (keccak256 (to_le_bytes 8 SLOT_TOKEN_APPROVALS_BASE ++ to_le_bytes 8 token_id)).
Definition token_uri_slot (token_id : Z) : Z :=
  hash_slot (keccak256 (to_le_bytes 8 SLOT_TOKEN_URIS_BASE ++ to_le_bytes 8 token_id)).
Definition owner_balance_slot (owner : bytes) : Z :=
  hash_slot (keccak256 (owner ++ to_le_bytes 8 SLOT_TOKEN_BALANCES_BASE)).

Definition storage_value_to_address (value : bytes) : result ContractError bytes :=
  if bool_decide (length value = 32%nat) then Ok value
  else Err (InvalidAddressLength (length value)).

Definition emit_transfer_event (contract from to : bytes) (token_id : Z) : X unit :=
  emit_custom_event {|
    ev_contract_address := hex_encode contract;
    ev_name := "Transfer";
    ev_topics := [keccak256 (bytes_of_string "Transfer(address,address,uint256)"); from; to];
    ev_data := to_le_bytes 8 token_id ++ zeros 24 |}.

Definition emit_approval_event (contract owner approved : bytes) (token_id : Z) : X unit :=
  emit_custom_event {|
    ev_contract_address := hex_encode contract;
    ev_name := "Approval";
    ev_topics := [keccak256 (bytes_of_string "Approval(address,address,uint256)"); owner; approved];
    ev_data := to_le_bytes 8 token_id ++ zeros 24 |}.

Definition load_u64 (slot : Z) : X Z := v ← sload st slot; lift (Base.storage_value_to_u64 v).
Definition store_u64 (slot v : Z) : X unit := sstore st slot (Base.u64_to_storage_value v).

(** The owner of an existing token. *)
Definition load_owner (token_id : Z) : X bytes :=
  v ← sload st (token_owner_slot token_id);
  bail_if (is_zero v) NoSuchToken;;
  lift (storage_value_to_address v).

Definition mint (to : string) (token_id : Z) : X unit :=
  p ← Base.is_paused st;
  bail_if p Paused;;
  caller ← Base.current_caller rt;
  owner ← Base.get_owner st;
  bail_if (negb (bool_decide (caller = owner))) OnlyOwner;;
  contract ← Base.current_contract rt;
  to_bytes ← Sav20.decode to;
  bail_if (bool_decide (to_bytes = zeros 32)) ZeroAddress;;
  current ← sload st (token_owner_slot token_id);
  bail_if (negb (is_zero current)) TokenExists;;
  sstore st (token_owner_slot token_id) to_bytes;;
  balance ← load_u64 (owner_balance_slot to_bytes);
  new_balance ← lift (ok_or (checked_add U64_MAX balance 1) Overflow);
  store_u64 (owner_balance_slot to_bytes) new_balance;;
  emit_transfer_event contract (zeros 32) to_bytes token_id.

Definition balance_of (owner : string) : X Z :=
  o ← Sav20.decode owner; load_u64 (owner_balance_slot o).

Definition owner_of (token_id : Z) : X string :=
  o ← load_owner token_id; mret (encode_address o).

Definition get_approved (token_id : Z) : X (option string) :=
  owner_value ← sload st (token_owner_slot token_id);
  bail_if (is_zero owner_value) NoSuchToken;;
  value ← sload st (token_approval_slot token_id);
  if is_zero value then mret None
  else
    a ← lift (storage_value_to_address value);
    mret (Some (encode_address a)).

Definition approve (to : string) (token_id : Z) : X unit :=
  p ← Base.is_paused st;
  bail_if p Paused;;
  caller ← Base.current_caller rt;
  contract ← Base.current_contract rt;
  token_owner ← load_owner token_id;
  bail_if (negb (bool_decide (caller = token_owner))) NotTokenOwner;;
  approved ← Sav20.decode to;
  bail_if (bool_decide (approved = token_owner)) CannotApproveOwner;;
  sstore st (token_approval_slot token_id) approved;;
  emit_approval_event contract token_owner approved token_id.

(** The writes of a transfer between two different accounts. *)
Definition move_token (from to : bytes) (token_id : Z) : X unit :=
  sstore st (token_owner_slot token_id) to;;
  sstore st (token_approval_slot token_id) (zeros 32);;
  from_balance ← load_u64 (owner_balance_slot from);
  new_from ← lift (ok_or (checked_sub from_balance 1) Underflow);
  store_u64 (owner_balance_slot from) new_from;;
  to_balance ← load_u64 (owner_balance_slot to);
  new_to ← lift (ok_or (checked_add U64_MAX to_balance 1) Overflow);
  store_u64 (owner_balance_slot to) new_to.

Definition transfer_from (from to : string) (token_id : Z) : X unit :=
  p ← Base.is_paused st;
  bail_if p Paused;;
  caller ← Base.current_caller rt;
  contract ← Base.current_contract rt;
  from_bytes ← Sav20.decode from;
  to_bytes ← Sav20.decode to;
  bail_if (bool_decide (to_bytes = zeros 32)) ZeroAddress;;
  token_owner ← load_owner token_id;
  bail_if (negb (bool_decide (token_owner = from_bytes))) NotTokenOwner;;
  approval ← sload st (token_approval_slot token_id);
  approved ← lift (if is_zero approval then Ok None
                   else match storage_value_to_address approval with
                        | Ok a => Ok (Some a)
                        | Err e => Err e
                        end);
  bail_if (negb (bool_decide (caller = token_owner)) && negb (bool_decide (approved = Some caller)))
    NotOwnerNorApproved;;
  if bool_decide (from_bytes = to_bytes)
  then emit_transfer_event contract from_bytes to_bytes token_id
  else
    move_token from_bytes to_bytes token_id;;
    emit_transfer_event contract from_bytes to_bytes token_id.

(** The chunk loops of the URI: from [offset] on, at [base + slot_offset]. *)
Fixpoint write_uri_chunks (base slot_offset : Z) (l : list bytes) : X unit :=
  match l with
  | [] => mret tt
  | c :: r =>
      slot ← lift (ok_or (checked_add U64_MAX base slot_offset) Overflow);
      sstore st slot (Sav20.pad32 c);;
      next ← lift (ok_or (checked_add U64_MAX slot_offset 1) Overflow);
      write_uri_chunks base next r
  end.

Definition write_uri_to_storage (base_slot : Z) (uri : bytes) : X unit :=
  let len := length uri in
  sstore st base_slot (to_le_bytes 8 (Z.of_nat len) ++ take 24 uri ++ zeros (24 - len));;
  if (len <=? 24)%nat then mret tt
  else write_uri_chunks base_slot 1 (Sav20.chunks (drop 24 uri)).

Fixpoint read_uri_chunks (base slot_offset : Z) (remaining : Z) (fuel : nat) : X bytes :=
  match fuel with
  | O => mret []
  | S n =>
      if remaining <=? 0 then mret []
      else
        slot ← lift (ok_or (checked_add U64_MAX base slot_offset) Overflow);
        chunk ← sload st slot;
        let size := Z.min 32 remaining in
        next ← lift (ok_or (checked_add U64_MAX slot_offset 1) Overflow);
        rest ← read_uri_chunks base next (remaining - size) n;
        mret (take (Z.to_nat size) chunk ++ rest)
  end.

Definition read_uri_from_storage (base_slot : Z) : X bytes :=
  first ← sload st base_slot;
  bail_if (length first <? 8)%nat ValueTooShort;;
  let uri_len := from_le_bytes (take 8 first) in
  if uri_len =? 0 then mret []
  else
    uri ← (if uri_len <=? 24 then mret (take (Z.to_nat uri_len) (drop 8 first))
           else
             rest ← read_uri_chunks base_slot 1 (uri_len - 24) (Z.to_nat ((uri_len - 24 + 31) / 32));
             mret (take 24 (drop 8 first) ++ rest));
    if Utf8.valid uri then mret uri else fail BadUtf8.

Definition set_token_uri (token_id : Z) (uri : bytes) : X unit :=
  p ← Base.is_paused st;
  bail_if p Paused;;
  caller ← Base.current_caller rt;
  token_owner ← load_owner token_id;
  bail_if (negb (bool_decide (caller = token_owner))) NotTokenOwner;;
  write_uri_to_storage (token_uri_slot token_id) uri.

Definition token_uri (token_id : Z) : X bytes :=
  owner_value ← sload st (token_owner_slot token_id);
  bail_if (is_zero owner_value) NoSuchToken;;
  read_uri_from_storage (token_uri_slot token_id).

End Ops.

(** ** Correctness of the transfer *)

Definition word64 (w : bytes) : Z := from_le_bytes (take 8 w).

Lemma word64_range w : in_range U64_MAX (word64 w).
Proof. apply hash_slot_range. Qed.

Lemma word64_value v : in_range U64_MAX v -> word64 (Base.u64_to_storage_value v) = v.
Proof.
  intros Hv. unfold word64, Base.u64_to_storage_value.
  rewrite take_app_le, take_ge by (by rewrite length_to_le_bytes).
  rewrite from_to_le_bytes, Z.mod_small; [done|mlia].
Qed.

Lemma is_zero_value64 v :
  in_range U64_MAX v -> is_zero (Base.u64_to_storage_value v) = (v =? 0).
Proof.
  intros Hv. destruct (Z.eqb_spec v 0) as [->|Hne]; [done|].
  destruct (is_zero _) eqn:E; [|done]. exfalso. apply Hne.
  apply is_zero_spec in E. rewrite <- (word64_value v Hv), E, Base.length_u64_value. reflexivity.
Qed.

Section Spec.
Context `{Hex} `{Keccak} (st : Storage) (rt : Runtime).
Local Abbreviation os := token_owner_slot.
Local Abbreviation aps := token_approval_slot.
Local Abbreviation obs := owner_balance_slot.

Definition nft_balance (s : ExecState) (o : bytes) : Z := word64 (view st s (obs o)).

Lemma wp_load_u64 slot (Q : Z -> ExecState -> Prop) R s :
  cs_wf st (es_cs s) ->
  (forall s', reads st s s' -> Q (word64 (view st s slot)) s') ->
  (forall e s', reads st s s' -> fallible st s -> R e s') ->
  wp (load_u64 st slot) Q R s.
Proof.
  intros Hwf HQ HR. unfold load_u64. wp_accessor; [done| |done].
  intros s1 H1 Hl. unfold Base.storage_value_to_u64. rewrite Hl.
  apply wp_lift; [|done]. intros a [= <-]. by apply HQ.
Qed.

Lemma wp_load_owner t (Q : bytes -> ExecState -> Prop) R s :
  cs_wf st (es_cs s) ->
  (forall s', reads st s s' -> is_zero (view st s (os t)) = false ->
     Q (view st s (os t)) s') ->
  (forall e s', reads st s s' -> (is_zero (view st s (os t)) = true \/ fallible st s) -> R e s') ->
  wp (load_owner st t) Q R s.
Proof.
  intros Hwf HQ HR. unfold load_owner. wp_accessor; [done| |by auto].
  intros s1 H1 Hl. apply wp_bind, wp_bail_if; [by auto|]. intros Hz.
  unfold storage_value_to_address. rewrite bool_decide_eq_true_2 by done.
  apply wp_lift; [|done]. intros a [= <-]. by apply HQ.
Qed.

(** Who may move token [t] of [from]. *)
Definition can_move (s : ExecState) (caller from to : bytes) (t : Z) : Prop :=
  Base.paused st s = false /\ to <> zeros 32 /\ from <> zeros 32 /\ view st s (os t) = from /\
  (caller = from \/ (view st s (aps t) = caller /\ is_zero caller = false)).

(** The four writes of [move_token], in order. *)
Definition moved_token (from to : bytes) (t : Z) (s s' : ExecState) : Prop :=
  exists a b c, writes st (os t) to s a /\ writes st (aps t) (zeros 32) a b /\
    writes st (obs from) (Base.u64_to_storage_value (nft_balance b from - 1)) b c /\
    0 < nft_balance b from /\
    writes st (obs to) (Base.u64_to_storage_value (nft_balance c to + 1)) c s' /\
    nft_balance c to + 1 <= U64_MAX.

(** Nothing but the token, its approval and the two balances changes. *)
Definition token_only (from to : bytes) (t : Z) (s s' : ExecState) : Prop :=
  forall k, k ∉ [os t; aps t; obs from; obs to] -> view st s' k = view st s k.

Ltac token_only :=
  let k := fresh "k" in let Hk := fresh "Hk" in
  intros k Hk; rewrite !not_elem_of_cons in Hk; destruct Hk as (? & ? & ? & ? & _);
  views; by rewrite ?decide_False.

Lemma wp_move_token from to t (Q : unit -> ExecState -> Prop) R s :
  cs_wf st (es_cs s) -> length to = 32%nat ->
  (forall s', moved_token from to t s s' -> Q tt s') ->
  (forall e s', token_only from to t s s' -> (exists a b, writes st (os t) to s a /\ writes st (aps t) (zeros 32) a b /\
       (nft_balance b from = 0 \/ exists c, nft_balance c to = U64_MAX /\
          writes st (obs from) (Base.u64_to_storage_value (nft_balance b from - 1)) b c)) \/
     trouble st s [os t; aps t; obs from; obs to] -> R e s') ->
  wp (move_token st from to t) Q R s.
Proof.
  intros Hwf Hl HQ HR. unfold move_token.
  assert (forall k x, k ∈ [os t; aps t; obs from; obs to] -> is_reserved_slot k = true ->
    trouble st x [os t; aps t; obs from; obs to]) as Hres.
  { intros k x Hk Hr. right. apply Exists_exists. eauto. }
  wp_accessor; [done..| |]. 2: { intros e a Ha [Hf|Hr]; (apply HR; [token_only|right]); [by left|].
    eapply Hres; [|done]. by left. }
  intros a Ha _. wp_accessor; [apply Ha|done| |].
  2: { intros e b Hb [Hf|Hr]; (apply HR; [token_only|right]); [left; by eapply writes_fallible|].
       eapply Hres; [|done]. right; by left. }
  intros b Hb _. apply wp_bind, wp_load_u64; [apply Hb| |].
  2: { intros e c Hc Hf. apply HR; [token_only|]. right. left. by do 2 (eapply writes_fallible; [done|]). }
  intros b1 Hb1. fold (nft_balance b from).
  pose proof (word64_range (view st b (obs from))) as Hrf. fold (nft_balance b from) in Hrf.
  apply wp_bind, wp_lift.
  2: { intros e [Hn%checked_sub_None _]%ok_or_Err. apply HR; [token_only|]. left. exists a, b. split; [done|].
       split; [done|]. left. mlia. }
  intros nf [-> Hpos]%ok_or_Ok%checked_sub_Some.
  apply wp_bind. unfold store_u64. wp_accessor; [apply Hb1|apply Base.length_u64_value| |].
  2: { intros e c Hc [Hf|Hr]; (apply HR; [token_only|right]).
       - left. do 2 (eapply writes_fallible; [done|]). by eapply reads_fallible.
       - eapply Hres; [|done]. right; right; by left. }
  intros c Hc _.
  assert (writes st (obs from) (Base.u64_to_storage_value (nft_balance b from - 1)) b c) as Hbc.
  { eapply writes_between; [exact Hb1|exact Hc|]. apply reads_refl, Hc. }
  apply wp_bind, wp_load_u64; [apply Hc| |].
  2: { intros e d Hd Hf. apply HR; [token_only|]. right. left. by do 3 (eapply writes_fallible; [done|]). }
  intros c1 Hc1. fold (nft_balance c to).
  pose proof (word64_range (view st c (obs to))) as Hrt. fold (nft_balance c to) in Hrt.
  apply wp_bind, wp_lift.
  2: { intros e [Ho%checked_add_None _]%ok_or_Err. apply HR; [token_only|]. left. exists a, b. split; [done|].
       split; [done|]. right. exists c. split; [mlia|done]. }
  intros nt [-> Hmax]%ok_or_Ok%checked_add_Some.
  wp_accessor; [apply Hc1|apply Base.length_u64_value| |].
  - intros d Hd _. apply HQ. exists a, b, c. split_and!; try done; [mlia|].
    eapply writes_between; [exact Hc1|exact Hd|]. apply reads_refl, Hd.
  - intros e d Hd [Hf|Hr]; (apply HR; [token_only|right]).
    + left. do 3 (eapply writes_fallible; [done|]). by eapply reads_fallible.
    + eapply Hres; [|done]. do 3 right; by left.
Qed.

Lemma is_zero_32 w : length w = 32%nat -> is_zero w = bool_decide (w = zeros 32).
Proof.
  intros Hl. case_bool_decide as Hw; [by subst|].
  destruct (is_zero w) eqn:E; [|done]. apply is_zero_spec in E. rewrite Hl in E. done.
Qed.

Definition balances_off (from to : bytes) (t : Z) (s : ExecState) : Prop :=
  exists m a b, reads st s m /\ writes st (os t) to m a /\ writes st (aps t) (zeros 32) a b /\
    (nft_balance b from = 0 \/ exists c, nft_balance c to = U64_MAX /\
       writes st (obs from) (Base.u64_to_storage_value (nft_balance b from - 1)) b c).

Lemma wp_nft_transfer from to fb tb f t s :
  cs_wf st (es_cs s) -> current_frame rt = Some f ->
  decode_address from = Ok fb -> decode_address to = Ok tb ->
  wp (transfer_from st rt from to t)
    (fun _ s' => can_move s (cf_caller f) fb tb t /\
       if bool_decide (fb = tb) then reads st s s'
       else exists m n, reads st s m /\ moved_token fb tb t m n /\ reads st n s')
    (fun _ s' => (~ can_move s (cf_caller f) fb tb t /\ reads st s s') \/
       token_only fb tb t s s' /\
       (fb <> tb /\ balances_off fb tb t s \/ trouble st s [os t; aps t; obs fb; obs tb])) s.
Proof.
  intros Hwf Hf Hdf Hdt. unfold transfer_from, can_move.
  pose proof (decode_address_length _ _ Hdf) as Hlf. pose proof (decode_address_length _ _ Hdt) as Hlt.
  apply wp_bind, Base.wp_is_paused; [done| |intros; right; split; [token_only|right; by left]]. intros s1 H1.
  apply wp_bind, wp_bail_if; [intros Hp; left; split; [naive_solver congruence|done]|]. intros Hp.
  apply wp_bind, Base.wp_current_caller; [|congruence]. intros f' Hf'.
  assert (f' = f) as -> by congruence. clear Hf'. set (sp := cf_caller f).
  apply wp_bind, Base.wp_current_contract; [|congruence]. intros f' _.
  apply wp_bind. eapply wp_decode; [done|]. apply wp_bind. eapply wp_decode; [done|].
  apply wp_bind, wp_bail_if; [intros Hz%bool_decide_eq_true; left; split; [tauto|done]|].
  intros Hz%bool_decide_eq_false.
  apply wp_bind, wp_load_owner; [apply H1| |].
  2: { intros e s2 H2 [Ho|Ho]; [left|right; split; [token_only|right; left; by eapply reads_fallible]].
       split; [|by etransitivity]. intros (_ & _ & Hfb & Hown & _). views. subst fb.
       rewrite is_zero_32 in Ho by done. by apply bool_decide_eq_true in Ho. }
  intros s2 H2 Ho. rewrite (rd_view _ _ _ H1) in *.
  assert (reads st s s2) as H12 by (by etransitivity).
  apply wp_bind, wp_bail_if.
  { intros Hne%negb_true_iff%bool_decide_eq_false. left. split; [tauto|done]. }
  intros Heq%negb_false_iff%bool_decide_eq_true.
  assert (fb <> zeros 32) as Hfz.
  { rewrite <- Heq. rewrite is_zero_32 in Ho by congruence. by apply bool_decide_eq_false in Ho. }
  wp_accessor; [apply H12| |intros; right; split; [token_only|right; left; by eapply reads_fallible]].
  intros s3 H3 Hla. rewrite (rd_view _ _ _ H12) in *.
  assert (reads st s s3) as H13 by (by etransitivity).
  apply wp_bind, wp_lift.
  2: { intros e. unfold storage_value_to_address. rewrite bool_decide_eq_true_2 by done.
       destruct (is_zero (view st s (aps t))); intros [=]. }
  intros ap Hap.
  assert (ap = Some sp <-> view st s (aps t) = sp /\ is_zero sp = false) as Hsp.
  { unfold storage_value_to_address in Hap. rewrite bool_decide_eq_true_2 in Hap by done.
    destruct (is_zero (view st s (aps t))) eqn:Ez; injection Hap as <-; split; try done.
    - intros [E Hn]. congruence.
    - intros [= E]. split; congruence.
    - intros [-> _]. done. }
  rewrite Heq. apply wp_bind, wp_bail_if.
  { intros [Hc%negb_true_iff%bool_decide_eq_false Hd%negb_true_iff%bool_decide_eq_false]%andb_true_iff.
    left. split; [tauto|done]. }
  intros Hau%andb_false_iff.
  assert (sp = fb \/ (view st s (aps t) = sp /\ is_zero sp = false)) as Hauth.
  { destruct Hau as [Hau|Hau]; apply negb_false_iff, bool_decide_eq_true in Hau; tauto. }
  destruct (decide (fb = tb)) as [Hself|Hself];
    [rewrite !bool_decide_eq_true_2 by done|rewrite !bool_decide_eq_false_2 by done].
  - unfold emit_transfer_event. wp_accessor; [apply H13|]. intros s4 H4.
    split; [tauto|by etransitivity].
  - apply wp_bind, wp_move_token; [apply H13|done| |].
    + intros s4 Hmv. unfold emit_transfer_event.
      assert (cs_wf st (es_cs s4)) as Hw4 by (destruct Hmv as (? & ? & ? & _ & _ & _ & _ & Hw & _); apply Hw).
      wp_accessor; [done|]. intros s5 H5. split; [tauto|]. by exists s3, s4.
    + intros e s4 Hk [(a & b & Ha & Hb & Hbal)|Ht]; right; (split; [intros k Hnk; by rewrite Hk, (rd_view _ _ _ H13)|]);
        [left|right; by eapply trouble_reads].
      split; [done|]. by exists s3, a, b.
Qed.

(** The balance left of [o] when a token moves away: one less; the zero of the
    last token is lost over a persisted balance, which is read again. *)
Definition left_after (s : ExecState) (o : bytes) : Z :=
  if nft_balance s o =? 1 then word64 (db_value st (contract_address (es_cs s)) (obs o))
  else nft_balance s o - 1.

(** What the four writes do to the ledger, when their slots differ. *)
Lemma moved_token_effect fb tb t s m n s' :
  reads st s m -> moved_token fb tb t m n -> reads st n s' ->
  NoDup [os t; aps t; obs fb; obs tb] -> tb <> zeros 32 -> length tb = 32%nat ->
  view st s' (os t) = tb /\
  view st s' (aps t) = db_value st (contract_address (es_cs s)) (aps t) /\
  nft_balance s' fb = left_after s fb /\ nft_balance s' tb = nft_balance s tb + 1 /\
  forall k, k ∉ [os t; aps t; obs fb; obs tb] -> view st s' k = view st s k.
Proof.
  intros Hm (a & b & c & Wa & Wb & Wc & Hpos & Wd & Hmax) Hn Hnd Htz Hlt.
  apply NoDup_cons in Hnd as [N1 Hnd]. apply NoDup_cons in Hnd as [N2 Hnd].
  apply NoDup_cons in Hnd as [N3 _]. rewrite !not_elem_of_cons in N1.
  rewrite !not_elem_of_cons in N2. rewrite !not_elem_of_cons in N3.
  destruct N1 as (Noa & Nof & Not & _), N2 as (Naf & Nat & _), N3 as (Nft & _).
  assert (forall k, k <> os t -> k <> aps t -> view st b k = view st s k) as Hb.
  { intros k Hk1 Hk2. rewrite (wr_view _ _ _ _ _ Wb), decide_False by done.
    rewrite (wr_view _ _ _ _ _ Wa), decide_False by done. apply Hm. }
  assert (forall k, k <> obs tb -> view st s' k = view st c k) as Hlast.
  { intros k Hk. rewrite (rd_view _ _ _ Hn), (wr_view _ _ _ _ _ Wd), decide_False; done. }
  assert (nft_balance b fb = nft_balance s fb) as Ef by (unfold nft_balance; by rewrite Hb).
  assert (nft_balance c tb = nft_balance s tb) as Et.
  { unfold nft_balance. rewrite (wr_view _ _ _ _ _ Wc), decide_False by done. by rewrite Hb. }
  assert (contract_address (es_cs b) = contract_address (es_cs s)) as Hab
    by (by rewrite (wr_addr _ _ _ _ _ Wb), (wr_addr _ _ _ _ _ Wa), (rd_addr _ _ _ Hm)).
  pose proof (word64_range (view st s (obs fb))) as Hrf. fold (nft_balance s fb) in Hrf.
  pose proof (word64_range (view st s (obs tb))) as Hrt. fold (nft_balance s tb) in Hrt.
  split; [|split; [|split; [|split]]].
  - rewrite Hlast, (wr_view _ _ _ _ _ Wc), decide_False, (wr_view _ _ _ _ _ Wb), decide_False,
      (wr_view _ _ _ _ _ Wa), decide_True by done.
    apply stored_nonzero. rewrite is_zero_32 by done. by apply bool_decide_eq_false.
  - rewrite Hlast, (wr_view _ _ _ _ _ Wc), decide_False, (wr_view _ _ _ _ _ Wb), decide_True by done.
    unfold stored. cbn [is_zero]. by rewrite (wr_addr _ _ _ _ _ Wa), (rd_addr _ _ _ Hm).
  - unfold nft_balance at 1. rewrite Hlast, (wr_view _ _ _ _ _ Wc), decide_True by done.
    rewrite Ef. unfold stored, left_after. rewrite is_zero_value64 by mlia.
    destruct (Z.eqb_spec (nft_balance s fb - 1) 0), (Z.eqb_spec (nft_balance s fb) 1); try lia;
      [by rewrite Hab|apply word64_value; mlia].
  - unfold nft_balance at 1. rewrite (rd_view _ _ _ Hn), (wr_view _ _ _ _ _ Wd), decide_True by done.
    rewrite Et in *. unfold stored. rewrite is_zero_value64 by mlia.
    destruct (Z.eqb_spec (nft_balance s tb + 1) 0); [mlia|]. apply word64_value. mlia.
  - intros k Hk. rewrite !not_elem_of_cons in Hk. destruct Hk as (K1 & K2 & K3 & K4 & _).
    rewrite Hlast, (wr_view _ _ _ _ _ Wc), decide_False by done. by apply Hb.
Qed.

(** A transfer that stops half way met inconsistent balances. *)
Lemma balances_off_spec fb tb t s :
  NoDup [os t; aps t; obs fb; obs tb] -> balances_off fb tb t s ->
  nft_balance s fb = 0 \/ nft_balance s tb = U64_MAX.
Proof.
  intros Hnd (m & a & b & Hm & Wa & Wb & Hbal).
  apply NoDup_cons in Hnd as [N1 Hnd]. apply NoDup_cons in Hnd as [N2 Hnd].
  apply NoDup_cons in Hnd as [N3 _]. rewrite !not_elem_of_cons in N1.
  rewrite !not_elem_of_cons in N2. rewrite !not_elem_of_cons in N3.
  destruct N1 as (Noa & Nof & Not & _), N2 as (Naf & Nat & _), N3 as (Nft & _).
  assert (forall k, k <> os t -> k <> aps t -> view st b k = view st s k) as Hb.
  { intros k Hk1 Hk2. rewrite (wr_view _ _ _ _ _ Wb), decide_False by done.
    rewrite (wr_view _ _ _ _ _ Wa), decide_False by done. apply Hm. }
  destruct Hbal as [Hbal|(c & Hbal & Wc)]; [left|right]; rewrite <- Hbal; unfold nft_balance.
  - by rewrite Hb.
  - rewrite (wr_view _ _ _ _ _ Wc), decide_False by done. by rewrite Hb.
Qed.

End Spec.

(** C34: [transfer_from] of a non-fungible token, on every branch.  It succeeds
    only for the owner or the approved address of an existing token, when the
    contract is not paused and neither account is zero.  From an account to
    itself it then changes nothing.  Between two accounts the recipient owns
    the token and holds one more; the sender holds one less, or, when it was
    its last, the balance the database holds for it; the approval becomes what
    the database holds for it (empty if none was persisted); no other slot
    changes.  A refused call changes nothing.  The only other failures are a
    balance counter at its bound, a gas or database failure and a hashed slot
    in the reserved range: they change at most the four slots.  The slots of
    the token and of the two accounts are assumed not to collide. *)
Theorem nft_transfer_from_correct `{Hex} `{Keccak} (st : Storage) (rt : Runtime)
    (from to : string) (fb tb : bytes) (f : CallFrame) (t : Z) (s : ExecState) :
  cs_wf st (es_cs s) -> current_frame rt = Some f ->
  decode_address from = Ok fb -> decode_address to = Ok tb ->
  let slots := [token_owner_slot t; token_approval_slot t; owner_balance_slot fb; owner_balance_slot tb] in
  (fb <> tb -> NoDup slots) ->
  match transfer_from st rt from to t s with
  | (Ok _, s') =>
      can_move st s (cf_caller f) fb tb t /\
      (forall k, fb = tb \/ k ∉ slots -> view st s' k = view st s k) /\
      (fb <> tb ->
         view st s' (token_owner_slot t) = tb /\
         view st s' (token_approval_slot t) =
           db_value st (contract_address (es_cs s)) (token_approval_slot t) /\
         nft_balance st s' fb = left_after st s fb /\
         nft_balance st s' tb = nft_balance st s tb + 1)
  | (Err _, s') =>
      (~ can_move st s (cf_caller f) fb tb t /\ forall k, view st s' k = view st s k) \/
      (forall k, k ∉ slots -> view st s' k = view st s k) /\
      (nft_balance st s fb = 0 \/ nft_balance st s tb = U64_MAX \/ trouble st s slots)
  end.
Proof.
  intros Hwf Hf Hdf Hdt slots Hnd.
  pose proof (wp_nft_transfer st rt from to fb tb f t s Hwf Hf Hdf Hdt) as Hw. unfold wp in Hw.
  destruct (transfer_from st rt from to t s) as [[u|e] s'].
  - destruct Hw as [Hc Hw]. split; [done|]. case_bool_decide as Hself; [split; [intros; apply Hw|done]|].
    destruct Hw as (m & n & Hm & Hmv & Hn). pose proof Hc as (_ & Htz & _).
    destruct (moved_token_effect st fb tb t s m n s') as (Ho & Ha & Hf' & Ht' & Hk);
      try done; [by apply Hnd|by eapply decode_address_length|].
    split; [intros k [?|?]; [done|by apply Hk]|done].
  - destruct Hw as [[Hn Hr]|[Hk Hw]]; [left|right].
    + split; [done|apply Hr].
    + split; [done|]. destruct Hw as [[Hne Hoff]|Ht]; [|by right; right].
      destruct (balances_off_spec st fb tb t s (Hnd Hne) Hoff); auto.
Qed.

(** an approval that was persisted survives the transfer.  Clearing it
    writes zero over a persisted value, which is lost: after a successful
    transfer to a new owner, the previously approved address is still allowed
    to move the token, now away from the new owner. *)
Theorem persisted_approval_survives `{Hex} `{Keccak} (st : Storage) (rt : Runtime)
    (from to : string) (fb tb ap : bytes) (f : CallFrame) (t : Z) (s s' : ExecState) :
  cs_wf st (es_cs s) -> current_frame rt = Some f ->
  decode_address from = Ok fb -> decode_address to = Ok tb -> fb <> tb ->
  NoDup [token_owner_slot t; token_approval_slot t; owner_balance_slot fb; owner_balance_slot tb] ->
  Base.SLOT_PAUSED ∉ [token_owner_slot t; token_approval_slot t; owner_balance_slot fb;
                 owner_balance_slot tb] ->
  db_value st (contract_address (es_cs s)) (token_approval_slot t) = ap -> is_zero ap = false ->
  transfer_from st rt from to t s = (Ok tt, s') ->
  forall thief, thief <> zeros 32 -> can_move st s' ap tb thief t.
Proof.
  intros Hwf Hf Hdf Hdt Hne Hnd Hpn Hap Hz E thief Hth.
  pose proof (wp_nft_transfer st rt from to fb tb f t s Hwf Hf Hdf Hdt) as Hw. unfold wp in Hw.
  rewrite E in Hw. destruct Hw as [Hc Hw]. rewrite bool_decide_eq_false_2 in Hw by done.
  destruct Hw as (m & n & Hm & Hmv & Hn). destruct Hc as (Hp & Htz & _).
  destruct (moved_token_effect st fb tb t s m n s' Hm Hmv Hn Hnd Htz
    (decode_address_length _ _ Hdt)) as (Ho & Ha & _ & _ & Hk).
  split; [unfold Base.paused; by rewrite Hk|]. split_and!; try done. right. split; [congruence|done].
Qed.

(** ** A concrete token

    Alice owns token 7 and the contract; in [persisted_nft] Carol's approval
    for it is already in the database. *)

#[local] Existing Instance keccak_toy.
Import Base (alice, bob, carol, runtime_of, deployed).
Definition nobody : Storage := mem_storage ∅.
Definition nft : ExecState :=
  snd (mint nobody (runtime_of addr0 alice) (hex_encode alice) 7 deployed).
Definition persisted_nft : Storage :=
  mem_storage {[ make_storage_key addr0 (token_approval_slot 7) := carol ]}.
Definition nft_p : ExecState :=
  snd ((Base.initialize persisted_nft alice;;
        mint persisted_nft (runtime_of addr0 alice) (hex_encode alice) 7) (fresh addr0)).

Lemma nft_transfer_from_correct_witness :
  let s' : ExecState := snd (transfer_from nobody (runtime_of addr0 alice) (hex_encode alice) (hex_encode bob) 7 nft) in
  view nobody s' (token_owner_slot 7) = bob /\ nft_balance nobody s' bob = 1.
Proof.
  pose proof (nft_transfer_from_correct nobody (runtime_of addr0 alice) (hex_encode alice)
    (hex_encode bob) alice bob (Base.frame_of addr0 alice) 7 nft) as Hc.
  destruct (transfer_from nobody (runtime_of addr0 alice) (hex_encode alice) (hex_encode bob) 7 nft)
    as [[u|e] s'] eqn:E.
  - destruct Hc as (_ & _ & Hc).
    + apply cs_wf_decide; vm_compute; reflexivity.
    + reflexivity.
    + vm_compute; reflexivity.
    + vm_compute; reflexivity.
    + intros _. apply (bool_decide_eq_true_1 _). vm_compute. reflexivity.
    + destruct Hc as (Ho & _ & _ & Hb); [vm_compute; discriminate|].
      split; [exact Ho|refine (eq_trans Hb _); vm_compute; reflexivity].
  - vm_compute in E. discriminate E.
Defined.

Lemma persisted_approval_survives_witness :
  can_move persisted_nft (snd (transfer_from persisted_nft (runtime_of addr0 alice)
    (hex_encode alice) (hex_encode bob) 7 nft_p)) carol bob carol 7 /\
  fst (transfer_from persisted_nft (runtime_of addr0 carol) (hex_encode bob) (hex_encode carol) 7
    (snd (transfer_from persisted_nft (runtime_of addr0 alice)
      (hex_encode alice) (hex_encode bob) 7 nft_p))) = Ok tt.
Proof.
  split; [|vm_compute; reflexivity].
  apply (persisted_approval_survives persisted_nft (runtime_of addr0 alice) (hex_encode alice)
    (hex_encode bob) alice bob carol (Base.frame_of addr0 alice) 7 nft_p).
  - apply cs_wf_decide; vm_compute; reflexivity.
  - reflexivity.
  - vm_compute; reflexivity.
  - vm_compute; reflexivity.
  - vm_compute; discriminate.
  - apply (bool_decide_eq_true_1 _). vm_compute. reflexivity.
  - apply (bool_decide_eq_true_1 _). vm_compute. reflexivity.
  - vm_compute; reflexivity.
  - vm_compute; reflexivity.
  - vm_compute; reflexivity.
  - vm_compute; discriminate.
Defined.

End Sav721.
