(* ===== verification/Account.v ===== *)
(** * Ledger accounts

    [savitri-core/src/core/types.rs]: the account record, its two binary
    formats and its guarded updates. *)

From S2P Require Import Prelude.

Module Acct.

Record Account := mkAccount {
  balance : Z;
  nonce : Z;
}.

#[global] Instance Account_eq_dec : EqDecision Account.
Proof. solve_decision. Defined.

(** [#[derive(Default)]]. *)
Definition Account_default : Account := mkAccount 0 0.

Inductive AccountError :=
| InvalidLength (len : nat)
| BalanceOverflow
| BalanceUnderflow
| NonceOverflow.

Definition encode (a : Account) : bytes :=
  to_le_bytes 16 (balance a) ++ to_le_bytes 8 (nonce a).

(** 24 bytes: balance and nonce; 16 bytes (the old format): balance only. *)
Definition decode (b : bytes) : result AccountError Account :=
  if bool_decide (length b = 24%nat)
  then Ok (mkAccount (from_le_bytes (take 16 b)) (from_le_bytes (take 8 (drop 16 b))))
  else if bool_decide (length b = 16%nat)
  then Ok (mkAccount (from_le_bytes (take 16 b)) 0)
  else Err (InvalidLength (length b)).

Definition A (T : Type) : Type := M Account AccountError T.

Definition credit (amount : Z) : A unit :=
  a ← get;
  b ← lift (ok_or (checked_add U128_MAX (balance a) amount) BalanceOverflow);
  modify (fun a => mkAccount b (nonce a)).

Definition debit (amount : Z) : A unit :=
  a ← get;
  b ← lift (ok_or (checked_sub (balance a) amount) BalanceUnderflow);
  modify (fun a => mkAccount b (nonce a)).

Definition increment_nonce : A unit :=
  a ← get;
  n ← lift (ok_or (checked_add U64_MAX (nonce a) 1) NonceOverflow);
  modify (fun a => mkAccount (balance a) n).

(** An account whose fields fit their types. *)
Definition account_ok (a : Account) : Prop :=
  in_range U128_MAX (balance a) /\ in_range U64_MAX (nonce a).

#[global] Instance account_ok_dec a : Decision (account_ok a).
Proof. unfold account_ok, in_range. solve_decision. Defined.

Lemma length_encode a : length (encode a) = 24%nat.
Proof. unfold encode. by rewrite length_app, !length_to_le_bytes. Qed.

Lemma decode_encode a : account_ok a -> decode (encode a) = Ok a.
Proof.
  intros [Hb Hn]. unfold decode. rewrite bool_decide_eq_true_2 by apply length_encode.
  unfold encode. rewrite !take_app_le, !drop_app_ge by (rewrite length_to_le_bytes; lia).
  rewrite length_to_le_bytes, drop_0.
  rewrite !firstn_all2 by (rewrite length_to_le_bytes; lia).
  rewrite !from_to_le_bytes, !Z.mod_small by (mach_unfold; lia). by destruct a.
Qed.

Lemma decode_ok b a : decode b = Ok a -> account_ok a.
Proof.
  unfold decode, account_ok, in_range. intros H.
  assert (forall n l, 0 <= from_le_bytes (take n l) < 256 ^ Z.of_nat n) as Hr.
  { intros n l. pose proof (from_le_bytes_range (take n l)) as Hl.
    assert (256 ^ Z.of_nat (length (take n l)) <= 256 ^ Z.of_nat n); [|lia].
    apply Z.pow_le_mono_r; [lia|]. rewrite length_take. lia. }
  pose proof (Hr 16%nat b) as H16. pose proof (Hr 8%nat (drop 16 b)) as H8.
  case_bool_decide; [|case_bool_decide; [|done]]; injection H as <-; simpl balance; simpl nonce;
    unfold U128_MAX, U64_MAX; lia.
Qed.

(** The bytes of the current format are determined by the account. *)
Lemma encode_decode b a : length b = 24%nat -> decode b = Ok a -> encode a = b.
Proof.
  intros Hl. unfold decode. rewrite bool_decide_eq_true_2 by done. intros [= <-]. unfold encode. cbn [balance nonce].
  assert (forall n l, (n <= length l)%nat ->
    to_le_bytes n (from_le_bytes (take n l)) = take n l) as Hle.
  { intros n l Hn. pose proof (to_from_le_bytes (take n l)) as H.
    by rewrite length_take, Nat.min_l in H. }
  rewrite !Hle by (rewrite ?length_drop; lia).
  rewrite (firstn_all2 (n := 8)) by (rewrite length_drop; lia). apply take_drop.
Qed.

(** Account records round trip.  Encoding then decoding gives the account
    back; the 24-byte encoding of every decodable 24-byte string is that
    string; the 16-byte format decodes to its balance with nonce zero; and
    every other length is the length error. *)
Theorem account_roundtrip (a : Account) (b : bytes) :
  account_ok a ->
  decode (encode a) = Ok a /\
  decode (to_le_bytes 16 (balance a)) = Ok (mkAccount (balance a) 0) /\
  (length b = 24%nat -> exists a', decode b = Ok a' /\ account_ok a' /\ encode a' = b) /\
  (length b <> 24%nat -> length b <> 16%nat -> decode b = Err (InvalidLength (length b))).
Proof.
  intros Ha. split; [by apply decode_encode|]. split; [|split].
  - unfold decode. rewrite length_to_le_bytes. cbn [bool_decide].
    rewrite bool_decide_eq_false_2, bool_decide_eq_true_2 by done.
    rewrite firstn_all2 by (by rewrite length_to_le_bytes).
    destruct Ha as [Hb _]. rewrite from_to_le_bytes, Z.mod_small by (mach_unfold; lia). done.
  - intros Hl. destruct (decode b) as [a'|e] eqn:E.
    + exists a'. split; [done|]. split; [by eapply decode_ok|by apply encode_decode].
    + unfold decode in E. by rewrite bool_decide_eq_true_2 in E.
  - intros H24 H16. unfold decode. by rewrite !bool_decide_eq_false_2.
Qed.

Lemma account_roundtrip_witness :
  decode (encode (mkAccount 1000000 7)) = Ok (mkAccount 1000000 7) /\
  decode [] = Err (InvalidLength 0).
Proof.
  destruct (account_roundtrip (mkAccount 1000000 7) []) as (H & _ & _ & H');
    [vm_compute; split; split; discriminate|].
  split; [exact H|apply H'; discriminate].
Defined.

(** The guarded updates change exactly one field, keep the account well
    formed, and leave it alone when they fail. *)
Lemma credit_spec amount a :
  account_ok a -> 0 <= amount ->
  wp (credit amount)
    (fun _ a' => a' = mkAccount (balance a + amount) (nonce a) /\ account_ok a')
    (fun e a' => e = BalanceOverflow /\ a' = a /\ U128_MAX < balance a + amount) a.
Proof.
  intros [Hb Hn] ?. unfold credit. apply wp_bind, wp_get, wp_bind, wp_lift.
  - intros b [-> ?]%ok_or_Ok%checked_add_Some. apply wp_modify. split; [done|]. split; [|done].
    unfold in_range in *. simpl. lia.
  - intros e [?%checked_add_None ->]%ok_or_Err. done.
Qed.

Lemma debit_spec amount a :
  account_ok a -> 0 <= amount ->
  wp (debit amount)
    (fun _ a' => a' = mkAccount (balance a - amount) (nonce a) /\ account_ok a')
    (fun e a' => e = BalanceUnderflow /\ a' = a /\ balance a < amount) a.
Proof.
  intros [Hb Hn] ?. unfold debit. apply wp_bind, wp_get, wp_bind, wp_lift.
  - intros b [-> ?]%ok_or_Ok%checked_sub_Some. apply wp_modify. split; [done|]. split; [|done].
    unfold in_range in *. simpl. lia.
  - intros e [?%checked_sub_None ->]%ok_or_Err. done.
Qed.

End Acct.
