(* ===== verification/CallStack.v ===== *)
(** * The call stack of the contract runtime

    [Savitri-contracts/src/contracts/runtime.rs] and the frame limit of
    [memory_monitor.rs].  [RuntimeState] is the whole runtime; contract code
    sees the part [as_runtime].  Every reachable stack holds each contract at
    most once, numbers its frames by position and stays within both depth
    limits. *)

From S2P Require Import Prelude Gas ContractStorage Account.

Module Calls.

Definition MAX_CALL_DEPTH : Z := 64.

Inductive CallError :=
| MemoryLimit
| Reentrancy
| MaxDepthExceeded
| DepthExceedsU8
| StackTooLong
| BadFrameDepth (index : nat)
| NonDeterministic
| NoContractInContext
| BadStorageAddress (len : nat)
| IsolationViolation.

Record RuntimeState := mkRt {
  rt_overlay : gmap bytes Acct.Account;
  rt_gas_meter : Gas.GasMeter;
  rt_call_stack : list CallFrame;
  max_call_depth : Z;
  rt_timestamp : Z;
  non_deterministic_access_detected : bool;
  rt_events : list StandardEvent;
  rt_custom_events : list CustomEvent;
}.

Definition new (overlay : gmap bytes Acct.Account) (gas_limit max_depth ts : Z) : RuntimeState :=
  mkRt overlay (Gas.new gas_limit) [] max_depth ts false [] [].
Definition with_empty_overlay (gas_limit ts : Z) : RuntimeState :=
  new ∅ gas_limit MAX_CALL_DEPTH ts.

Definition set_stack (l : list CallFrame) (r : RuntimeState) : RuntimeState :=
  mkRt (rt_overlay r) (rt_gas_meter r) l (max_call_depth r) (rt_timestamp r)
    (non_deterministic_access_detected r) (rt_events r) (rt_custom_events r).

(** What contract code reads of the runtime. *)
Definition as_runtime (r : RuntimeState) : Runtime :=
  {| call_stack := rt_call_stack r; block_timestamp := rt_timestamp r |}.

Definition R (T : Type) : Type := M RuntimeState CallError T.

(** [MemoryMonitor::check_call_frames]. *)
Definition check_call_frames (depth : nat) : result CallError unit :=
  if bool_decide (1024 < depth)%nat then Err MemoryLimit else Ok tt.

Definition call_depth (r : RuntimeState) : nat := length (rt_call_stack r).
Definition call_path (r : RuntimeState) : list bytes := cf_contract_address <$> rt_call_stack r.
Definition is_in_call_path (a : bytes) (r : RuntimeState) : bool :=
  existsb (fun f => bool_decide (cf_contract_address f = a)) (rt_call_stack r).
Definition call_count_in_path (a : bytes) (r : RuntimeState) : nat :=
  length (filter (fun f => cf_contract_address f = a) (rt_call_stack r)).
Definition frame_at_depth (d : nat) (r : RuntimeState) : option CallFrame := rt_call_stack r !! d.
Definition root_frame (r : RuntimeState) : option CallFrame := frame_at_depth 0 r.

Definition check_reentrancy (a : bytes) : R unit :=
  r ← get; bail_if (is_in_call_path a r) Reentrancy.

Definition set_depth (d : Z) (f : CallFrame) : CallFrame := {|
  cf_contract_address := cf_contract_address f; cf_caller := cf_caller f;
  cf_value := cf_value f; cf_calldata := cf_calldata f; cf_return_data := cf_return_data f;
  cf_gas_remaining := cf_gas_remaining f; cf_depth := d;
  cf_storage_snapshot := cf_storage_snapshot f |}.

Definition push_frame (f : CallFrame) : R unit :=
  r ← get;
  lift (check_call_frames (length (rt_call_stack r) + 1));;
  bail_if (is_in_call_path (cf_contract_address f) r) Reentrancy;;
  bail_if (Z.of_nat (length (rt_call_stack r)) >=? max_call_depth r) MaxDepthExceeded;;
  let depth := Z.of_nat (length (rt_call_stack r)) mod 256 in
  bail_if ((depth =? 255) && (255 <=? Z.of_nat (length (rt_call_stack r)))) DepthExceedsU8;;
  modify (fun r => set_stack (rt_call_stack r ++ [set_depth depth f]) r).

(** [Vec::pop]. *)
Definition pop_frame : R (option CallFrame) := fun r =>
  (Ok (last (rt_call_stack r)), set_stack (removelast (rt_call_stack r)) r).

(** The loop over the frames with their indices. *)
Fixpoint check_depths (i : nat) (l : list CallFrame) : result CallError unit :=
  match l with
  | [] => Ok tt
  | f :: rest =>
      if negb (cf_depth f =? Z.of_nat i mod 256) then Err (BadFrameDepth i)
      else check_depths (S i) rest
  end.

Definition validate_call_stack (r : RuntimeState) : result CallError unit :=
  if Z.of_nat (length (rt_call_stack r)) >? max_call_depth r then Err StackTooLong
  else check_depths 0 (rt_call_stack r).

Definition mark_non_deterministic_access : R unit :=
  modify (fun r => mkRt (rt_overlay r) (rt_gas_meter r) (rt_call_stack r) (max_call_depth r)
    (rt_timestamp r) true (rt_events r) (rt_custom_events r)).

Definition check_determinism : R unit :=
  r ← get; bail_if (non_deterministic_access_detected r) NonDeterministic.

Definition set_block_timestamp (ts : Z) : R unit :=
  modify (fun r => mkRt (rt_overlay r) (rt_gas_meter r) (rt_call_stack r) (max_call_depth r)
    ts (non_deterministic_access_detected r) (rt_events r) (rt_custom_events r)).

(** The overlay survives a reset. *)
Definition reset (gas_limit ts : Z) : R unit :=
  modify (fun r => mkRt (rt_overlay r) (Gas.new gas_limit) [] (max_call_depth r) ts false [] []).

Definition validate_storage_access (a : bytes) : R unit :=
  r ← get;
  cur ← lift (ok_or (CS.current_contract_address (as_runtime r)) NoContractInContext);
  bail_if (negb (bool_decide (length a = 32%nat))) (BadStorageAddress (length a));;
  bail_if (negb (bool_decide (a = cur))) IsolationViolation.

(** ** The stack invariant *)

Record stack_ok (r : RuntimeState) : Prop := {
  ok_nodup : NoDup (call_path r);
  ok_length : Z.of_nat (call_depth r) <= Z.min (max_call_depth r) 255;
  ok_depths : forall i f, rt_call_stack r !! i = Some f -> cf_depth f = Z.of_nat i;
}.

Lemma is_in_call_path_spec a r : is_in_call_path a r = true <-> a ∈ call_path r.
Proof.
  unfold is_in_call_path, call_path. rewrite existsb_exists, list_elem_of_fmap.
  split; intros (f & H1 & H2).
  - exists f. apply bool_decide_eq_true in H2. split; [done|]. by apply list_elem_of_In.
  - exists f. split; [by apply list_elem_of_In|]. by apply bool_decide_eq_true.
Qed.

(** The exact condition under which a frame can be pushed. *)
Definition can_push (a : bytes) (r : RuntimeState) : Prop :=
  a ∉ call_path r /\ Z.of_nat (call_depth r) < Z.min (max_call_depth r) 255.

Lemma wp_push_frame f (Q : unit -> RuntimeState -> Prop) (E : CallError -> RuntimeState -> Prop) r :
  stack_ok r ->
  (can_push (cf_contract_address f) r ->
   Q tt (set_stack (rt_call_stack r ++ [set_depth (Z.of_nat (call_depth r)) f]) r)) ->
  (forall e, ~ can_push (cf_contract_address f) r -> E e r) ->
  wp (push_frame f) Q E r.
Proof.
  intros Hok HQ HE. unfold push_frame, can_push, call_depth in *.
  pose proof (ok_length r Hok) as Hlen. unfold call_depth in Hlen.
  set (n := length (rt_call_stack r)) in *.
  apply wp_bind, wp_get, wp_bind, wp_lift; [intros [] _|].
  2: { unfold check_call_frames. case_bool_decide; [|done]. lia. }
  apply wp_bind, wp_bail_if; intros Hp.
  { apply HE. intros [Hn _]. by apply Hn, is_in_call_path_spec. }
  assert (cf_contract_address f ∉ call_path r) as Hnin.
  { intros Hin. apply is_in_call_path_spec in Hin. congruence. }
  apply wp_bind, wp_bail_if; rewrite Z.geb_leb; intros Hd; [apply HE; lia|].
  apply wp_bind, wp_bail_if; intros Hu; [apply HE; lia|]. apply wp_modify.
  apply Z.leb_gt in Hd. apply andb_false_iff in Hu.
  assert (Z.of_nat n < 255) as Hn.
  { destruct Hu as [Hu|Hu]; [|lia]. apply Z.eqb_neq in Hu.
    destruct (Z.eq_dec (Z.of_nat n) 255) as [E'|]; [|lia].
      unfold n in *. by rewrite E' in Hu. }
  rewrite Z.mod_small by lia. apply HQ. split; [done|lia].
Qed.

Lemma stack_ok_new o g d ts : 0 <= d -> stack_ok (new o g d ts).
Proof. split; simpl; [constructor|unfold call_depth; simpl; lia|done]. Qed.

Lemma stack_ok_push f r : stack_ok r -> can_push (cf_contract_address f) r ->
  stack_ok (set_stack (rt_call_stack r ++ [set_depth (Z.of_nat (call_depth r)) f]) r).
Proof.
  intros [Hnd Hlen Hd] [Hnin Hlt]. split.
  - unfold call_path. simpl. rewrite fmap_app. apply NoDup_app. split; [done|]. split.
    + intros x Hx Hx'. apply list_elem_of_singleton in Hx'. by subst.
    + apply NoDup_singleton.
  - unfold call_depth in *. simpl. rewrite length_app. simpl. lia.
  - intros i f' Hf. simpl in Hf. apply lookup_app_Some in Hf as [Hf|[Hge Hf]]; [by apply Hd|].
    apply list_lookup_singleton_Some in Hf as [Hi <-]. simpl. unfold call_depth in *. lia.
Qed.

Lemma stack_ok_pop r : stack_ok r -> stack_ok (set_stack (removelast (rt_call_stack r)) r).
Proof.
  intros [Hnd Hlen Hd]. unfold call_path, call_depth in *.
  destruct (rt_call_stack r) as [|f l _] eqn:E using rev_ind; [split; simpl; rewrite ?E; done|].
  split; unfold call_path, call_depth; simpl; rewrite removelast_last.
  - rewrite fmap_app in Hnd. by apply NoDup_app in Hnd as [? _].
  - rewrite length_app in Hlen. simpl in Hlen. lia.
  - intros i f' Hf. apply Hd. by apply lookup_app_l_Some.
Qed.

(** The operations that change the runtime. *)
Inductive op :=
| OpPush (f : CallFrame)
| OpPop
| OpReset (gas_limit ts : Z)
| OpSetTimestamp (ts : Z)
| OpMark.

Definition apply_op (o : op) (r : RuntimeState) : RuntimeState :=
  match o with
  | OpPush f => snd (push_frame f r)
  | OpPop => snd (pop_frame r)
  | OpReset g ts => snd (reset g ts r)
  | OpSetTimestamp ts => snd (set_block_timestamp ts r)
  | OpMark => snd (mark_non_deterministic_access r)
  end.

Lemma apply_op_ok o r : stack_ok r -> 0 <= max_call_depth r ->
  stack_ok (apply_op o r) /\ max_call_depth (apply_op o r) = max_call_depth r.
Proof.
  intros Hok Hm. destruct o as [f| | | |]; simpl.
  - assert (wp (push_frame f) (fun _ r' => stack_ok r' /\ max_call_depth r' = max_call_depth r)
      (fun _ r' => stack_ok r' /\ max_call_depth r' = max_call_depth r) r) as Hw.
    { apply wp_push_frame; [done|intros Hp; split; [by apply stack_ok_push|done]|done]. }
    unfold wp in Hw. by destruct (push_frame f r) as [[?|?] ?].
  - split; [by apply stack_ok_pop|done].
  - split; [|done]. split; simpl; [constructor|unfold call_depth; simpl; lia|done].
  - split; [|done]. destruct Hok. by split.
  - split; [|done]. destruct Hok. by split.
Qed.

Lemma check_depths_ok l i :
  (forall j f, l !! j = Some f -> cf_depth f = Z.of_nat (i + j)) ->
  (i + length l <= 256)%nat -> check_depths i l = Ok tt.
Proof.
  revert i; induction l as [|f l IH]; intros i Hd Hl; [done|]. simpl in *.
  rewrite (Hd 0%nat f), Nat.add_0_r, Z.mod_small, Z.eqb_refl by (done || lia). simpl.
  apply IH; [|lia]. intros j f' Hj. rewrite (Hd (S j) f' Hj). f_equal. lia.
Qed.

Lemma count_nodup l (a : bytes) :
  NoDup (cf_contract_address <$> l) ->
  length (filter (fun f => cf_contract_address f = a) l) =
  if decide (a ∈ cf_contract_address <$> l) then 1%nat else 0%nat.
Proof.
  induction l as [|f l IH]; intros Hnd; [by rewrite decide_False by apply not_elem_of_nil|].
  simpl in *. apply NoDup_cons in Hnd as [Hnin Hnd]. rewrite filter_cons.
  destruct (decide (cf_contract_address f = a)) as [<-|Hne].
  - simpl. rewrite IH, decide_False, decide_True by (done || by left). done.
  - rewrite IH by done. apply decide_ext. rewrite elem_of_cons. naive_solver.
Qed.

(** The call stack of every reachable runtime is sound.  After any
    sequence of pushes, pops, resets and the other runtime operations, no
    contract is on the stack twice, the depth is at most the configured
    maximum and 255, [validate_call_stack] succeeds, and a contract can be
    pushed exactly when it is not in the call path and the depth is below the
    limit, in which case its frame gets the next depth and a pop gives the
    old stack back. *)
Theorem call_stack_sound (o : gmap bytes Acct.Account) (gas depth ts : Z) (ops : list op)
    (f : CallFrame) :
  0 <= depth ->
  let r := fold_left (fun r o => apply_op o r) ops (new o gas depth ts) in
  NoDup (call_path r) /\ Z.of_nat (call_depth r) <= Z.min depth 255 /\
  validate_call_stack r = Ok tt /\
  (forall a, call_count_in_path a r = if decide (a ∈ call_path r) then 1%nat else 0%nat) /\
  (is_ok (fst (push_frame f r)) = true <->
   cf_contract_address f ∉ call_path r /\ Z.of_nat (call_depth r) < Z.min depth 255) /\
  (is_ok (fst (push_frame f r)) = true ->
   pop_frame (snd (push_frame f r)) = (Ok (Some (set_depth (Z.of_nat (call_depth r)) f)), r)).
Proof.
  intros Hd r.
  assert (stack_ok r /\ max_call_depth r = depth) as [Hok Hm].
  { unfold r. assert (stack_ok (new o gas depth ts) /\
      max_call_depth (new o gas depth ts) = depth) as H0 by (split; [by apply stack_ok_new|done]).
    revert H0. generalize (new o gas depth ts). induction ops as [|x l IH]; intros r0 [H1 H2]; [done|].
    simpl. apply IH. destruct (apply_op_ok x r0) as [H3 H4]; [done|lia|]. split; [done|congruence]. }
  clearbody r. pose proof (ok_length r Hok) as Hlen. rewrite Hm in Hlen.
  split; [apply Hok|]. split; [done|]. split; [|split].
  - unfold validate_call_stack, call_depth in *. rewrite Z.gtb_ltb.
    destruct (Z.ltb_spec (max_call_depth r) (Z.of_nat (length (rt_call_stack r)))); [lia|].
    apply check_depths_ok; [apply (ok_depths r Hok)|lia].
  - intros a. apply count_nodup, Hok.
  - assert (wp (push_frame f)
      (fun _ r' => can_push (cf_contract_address f) r /\
         pop_frame r' = (Ok (Some (set_depth (Z.of_nat (call_depth r)) f)), r))
      (fun _ _ => ~ can_push (cf_contract_address f) r) r) as Hw.
    { apply wp_push_frame; [done| |done]. intros Hp. split; [done|]. unfold pop_frame. simpl.
      rewrite last_snoc, removelast_last. by destruct r. }
    unfold wp, can_push in Hw. rewrite Hm in Hw.
    destruct (push_frame f r) as [[[]|e] r']; simpl; naive_solver.
Qed.

Definition frame0 (a : bytes) : CallFrame := {|
  cf_contract_address := a; cf_caller := zeros 32; cf_value := 0; cf_calldata := [];
  cf_return_data := []; cf_gas_remaining := 0; cf_depth := 9; cf_storage_snapshot := [] |}.

Lemma call_stack_sound_witness :
  let r := fold_left (fun r o => apply_op o r)
    [OpPush (frame0 (CS.word 1)); OpPush (frame0 (CS.word 2)); OpPush (frame0 (CS.word 1)); OpPop;
     OpPush (frame0 (CS.word 3))] (new ∅ 1000 2 0) in
  call_path r = [CS.word 1; CS.word 3] /\ validate_call_stack r = Ok tt.
Proof.
  cbv zeta. split; [vm_compute; reflexivity|].
  apply (call_stack_sound ∅ 1000 2 0 [OpPush (frame0 (CS.word 1)); OpPush (frame0 (CS.word 2));
    OpPush (frame0 (CS.word 1)); OpPop; OpPush (frame0 (CS.word 3))] (frame0 (CS.word 4))). done.
Defined.

End Calls.
