(* ===== verification/Fee.v ===== *)
(** * Fees and vote tokens

    [Savitri-contracts/src/fee.rs] (burn engine, fee split, treasury, halving
    schedule), [governance/vote_token.rs] and [contracts/fee.rs] (the fee of a
    contract call: computed from gas, deducted from the caller, distributed).

    The vote token balances of the storage are a map from addresses.  The
    clock the treasury stamps itself with is an argument. *)

From S2P Require Import Prelude OrdMap Gas Account.
From Stdlib Require Import Strings.Byte.

(** ** The fee module *)

Module Fee.

Inductive FeeError :=
| InsufficientTreasury (available required : Z)
| SpendCapExceeded (amount max_spend balance : Z)
| BurnExceedsFees
| FeeOverflow
| VoteTokenOverflow
| GasFeeOverflow (gas_used gas_price : Z)
| InsufficientForFee (balance required shortfall : Z)
| DebitFailed.

(** *** Treasury *)

Record Treasury := mkTreasury {
  tr_balance : Z;
  total_collected : Z;
  total_burned : Z;
  last_update : Z;
}.

Definition Treasury_new (now : Z) : Treasury := mkTreasury 0 0 0 now.

Definition T (A : Type) : Type := M Treasury FeeError A.

Definition deposit (now amount : Z) : T unit :=
  modify (fun t => mkTreasury (saturating_add U128_MAX (tr_balance t) amount)
    (saturating_add U128_MAX (total_collected t) amount) (total_burned t) now).

Definition withdraw (now amount : Z) : T unit :=
  t ← get;
  if tr_balance t >=? amount
  then modify (fun t => mkTreasury (saturating_sub (tr_balance t) amount) (total_collected t)
                          (total_burned t) now)
  else fail (InsufficientTreasury (tr_balance t) amount).

Definition spend (now amount : Z) : T unit :=
  t ← get;
  let max_spend := tr_balance t / 20 in
  bail_if (amount >? max_spend) (SpendCapExceeded amount max_spend (tr_balance t));;
  withdraw now amount.

Definition burn_treasury (now amount : Z) : T unit :=
  t ← get;
  if tr_balance t >=? amount
  then modify (fun t => mkTreasury (saturating_sub (tr_balance t) amount) (total_collected t)
                          (saturating_add U128_MAX (total_burned t) amount) now)
  else fail (InsufficientTreasury (tr_balance t) amount).

(** *** Splitting a fee *)

Record DistributionAmounts := mkAmounts {
  burn_amount : Z;
  treasury_amount : Z;
  validator_amount : Z;
  proposer_amount : Z;
  treasury : Z;
  masternode : Z;
  proposer_p2p : Z;
}.

(** The products and the sum carry no check. *)
Definition from_total (total burn_pct treasury_pct validator_pct : Z) : DistributionAmounts :=
  let b := wrap U128_MAX (total * burn_pct) / 10000 in
  let t := wrap U128_MAX (total * treasury_pct) / 10000 in
  let v := wrap U128_MAX (total * validator_pct) / 10000 in
  mkAmounts b t v (saturating_sub total (wrap U128_MAX (b + t + v))) 0 0 0.

Definition amounts_total (a : DistributionAmounts) : Z :=
  wrap U128_MAX (burn_amount a + treasury_amount a + validator_amount a + proposer_amount a).

Record FeeDistribution := mkDist {
  burn_rate : Z;
  treasury_rate : Z;
  validator_rate : Z;
}.
Definition FeeDistribution_default : FeeDistribution := mkDist 5000 3000 2000.

(** [FeeDistributor::distribute] on the distributor's own treasury. *)
Definition distribute (d : FeeDistribution) (now total_amount : Z) : T DistributionAmounts :=
  let amounts := from_total total_amount (burn_rate d) (treasury_rate d) (validator_rate d) in
  (if burn_amount amounts >? 0 then burn_treasury now (burn_amount amounts) else mret tt);;
  (if treasury_amount amounts >? 0 then deposit now (treasury_amount amounts) else mret tt);;
  mret amounts.

(** The engine: its distributor keeps a treasury of its own, apart from
    [engine_treasury]. *)
Record FeeEngine := mkEngine {
  distributor_config : FeeDistribution;
  distributor_treasury : Treasury;
  engine_treasury : Treasury;
}.
Definition FeeEngine_default (now : Z) : FeeEngine :=
  mkEngine FeeDistribution_default (Treasury_new now) (Treasury_new now).

Definition process_fees (now total_amount : Z) : M FeeEngine FeeError unit :=
  e ← get;
  zoom distributor_treasury
    (fun t e => mkEngine (distributor_config e) t (engine_treasury e)) (fun x => x)
    (distribute (distributor_config e) now total_amount);;
  mret tt.

(** *** Burn engine *)

Record BurnEngine := mkBurn {
  be_total_burned : Z;
  be_burn_rate : Z;
  current_volume : Z;
}.
Definition BurnEngine_default : BurnEngine := mkBurn 0 0 0.
Definition update_volume (volume : Z) (b : BurnEngine) : BurnEngine :=
  mkBurn (be_total_burned b) (be_burn_rate b) volume.
Definition calculate_burn_amount (b : BurnEngine) : Z :=
  saturating_add U128_MAX 1000 (wrap U128_MAX (current_volume b * be_burn_rate b) / 10000).
Definition execute_burn (amount : Z) (b : BurnEngine) : BurnEngine :=
  if amount >? 0
  then mkBurn (saturating_add U128_MAX (be_total_burned b) amount) (be_burn_rate b) (current_volume b)
  else b.

(** *** Halving schedule *)

Record HalvingEngine := mkHalving {
  current_epoch : Z;
  halving_interval : Z;
  initial_reward : Z;
}.
Definition halving_from_storage : HalvingEngine := mkHalving 0 25000000 50000000000.
Definition get_current_reward (h : HalvingEngine) : Z :=
  Z.shiftr (initial_reward h) (Z.min (current_epoch h / halving_interval h) 63).
Definition advance_epoch (h : HalvingEngine) : HalvingEngine :=
  mkHalving (wrap U64_MAX (current_epoch h + 1)) (halving_interval h) (initial_reward h).
Definition is_halving_due (h : HalvingEngine) : bool :=
  (current_epoch h >? 0) && (current_epoch h mod halving_interval h =? 0).
Definition blocks_until_halving (h : HalvingEngine) : Z :=
  wrap U64_MAX (wrap U64_MAX ((current_epoch h / halving_interval h + 1) * halving_interval h)
    - current_epoch h).

(** [FeeDistribution::distribute_fees_after_burn]: the split; the overlay,
    the halving engine and the addresses it is given are not used. *)
Definition distribute_fees_after_burn (net_fee : Z) (_ : gmap bytes Acct.Account)
    (_ : HalvingEngine) : DistributionAmounts :=
  let t := net_fee / 10 in
  let m := net_fee / 10 in
  let p := saturating_sub (saturating_sub net_fee t) m in
  mkAmounts 0 t m p t m p.

(** ** Facts *)

Lemma from_total_sum total b t v :
  0 <= total -> 0 <= b -> 0 <= t -> 0 <= v -> b + t + v <= 10000 ->
  total * 10000 <= U128_MAX ->
  let a := from_total total b t v in
  amounts_total a = total /\ burn_amount a = total * b / 10000 /\
  treasury_amount a = total * t / 10000 /\ validator_amount a = total * v / 10000 /\
  total * (10000 - b - t - v) / 10000 <= proposer_amount a.
Proof.
  intros Ht0 Hb Ht Hv Hs Hmax a. subst a. unfold amounts_total, from_total. simpl.
  assert (forall r, 0 <= r <= 10000 -> wrap U128_MAX (total * r) = total * r) as Hw.
  { intros r Hr. apply wrap_id. unfold in_range. nia. }
  rewrite !Hw by lia.
  assert (forall r, 0 <= r <= 10000 -> 0 <= total * r / 10000 /\
    10000 * (total * r / 10000) <= total * r) as Hd.
  { intros r Hr. split; [apply Z.div_pos; nia|]. apply Z.mul_div_le. lia. }
  pose proof (Hd b) as Hb'. pose proof (Hd t) as Ht'. pose proof (Hd v) as Hv'.
  set (B := total * b / 10000) in *. set (Tr := total * t / 10000) in *.
  set (V := total * v / 10000) in *.
  assert (B + Tr + V <= total) by nia.
  rewrite (wrap_id _ (B + Tr + V)) by (unfold in_range; lia).
  unfold saturating_sub. rewrite Z.max_r by lia.
  replace (B + Tr + V + (total - (B + Tr + V))) with total by lia.
  split; [apply wrap_id; unfold in_range; nia|]. split; [done|]. split; [done|]. split; [done|].
  assert (total * (10000 - b - t - v) / 10000 <= total - (B + Tr + V)); [|lia].
  apply Z.div_le_upper_bound; [lia|]. nia.
Qed.

(** The split of a fee loses and invents nothing.  With rates that sum to
    at most 100%, burn, treasury, validator and proposer parts add up to the
    total, the first three being the floors of their percentages, so the
    rounding goes to the proposer; and the split after the burn gives 10%,
    10% and the rest. *)
Theorem fee_split_exact (total b t v : Z) (ov : gmap bytes Acct.Account) (h : HalvingEngine) :
  0 <= total -> 0 <= b -> 0 <= t -> 0 <= v -> b + t + v <= 10000 -> total * 10000 <= U128_MAX ->
  (let a := from_total total b t v in
   amounts_total a = total /\ burn_amount a = total * b / 10000 /\
   treasury_amount a = total * t / 10000 /\ validator_amount a = total * v / 10000) /\
  (let a := distribute_fees_after_burn total ov h in
   treasury a + masternode a + proposer_p2p a = total /\
   10 * treasury a <= total < 10 * treasury a + 10 /\ treasury a = masternode a).
Proof.
  intros ? ? ? ? ? ?. split.
  - destruct (from_total_sum total b t v) as (? & ? & ? & ? & _); done.
  - simpl. unfold saturating_sub. Z.div_mod_to_equations. lia.
Qed.

Lemma fee_split_exact_witness :
  amounts_total (from_total 1000003 5000 3000 1999) = 1000003.
Proof. apply (fee_split_exact 1000003 5000 3000 1999 ∅ halving_from_storage); done. Defined.

(** The default fee engine cannot process a fee.  Its distributor burns
    the 50% out of its own, empty treasury before it deposits anything, so
    for every amount of at least two units [process_fees] fails and leaves the
    engine as it was; however often it is called, nothing is ever collected. *)
Theorem process_fees_default_fails (now now' amount : Z) :
  2 <= amount -> amount * 10000 <= U128_MAX ->
  process_fees now' amount (FeeEngine_default now) =
    (Err (InsufficientTreasury 0 (amount / 2)), FeeEngine_default now).
Proof.
  intros H2 Hmax.
  assert (burn_amount (from_total amount 5000 3000 2000) = amount / 2) as Hb.
  { simpl. rewrite wrap_id by (unfold in_range; lia).
    change 10000 with (2 * 5000). rewrite Z.div_mul_cancel_r by lia. done. }
  assert (1 <= amount / 2) by (apply Z.div_le_lower_bound; lia).
  unfold process_fees, zoom, distribute, burn_treasury, mbind, M_bind, get. cbn [distributor_config
    FeeEngine_default FeeDistribution_default burn_rate treasury_rate validator_rate
    distributor_treasury]. rewrite Hb. rewrite Z.gtb_ltb.
  destruct (Z.ltb_spec 0 (amount / 2)); [|lia]. cbn [tr_balance Treasury_new].
  rewrite Z.geb_leb. destruct (Z.leb_spec (amount / 2) 0); [lia|]. done.
Qed.

Lemma process_fees_default_fails_witness :
  process_fees 5 1000 (FeeEngine_default 0) = (Err (InsufficientTreasury 0 500), FeeEngine_default 0).
Proof. apply (process_fees_default_fails 0 5 1000); done. Defined.

(** A treasury spends at most a twentieth of what it holds at a time. *)
Lemma spend_spec now amount t :
  0 <= tr_balance t -> 0 <= amount ->
  wp (spend now amount)
    (fun _ t' => 20 * amount <= tr_balance t /\ tr_balance t' = tr_balance t - amount /\
       total_collected t' = total_collected t /\ total_burned t' = total_burned t)
    (fun _ t' => t' = t /\ tr_balance t < 20 * amount) t.
Proof.
  intros Hb Ha. unfold spend. apply wp_bind, wp_get, wp_bind, wp_bail_if; rewrite Z.gtb_ltb; intros Hc.
  - split; [done|]. apply Z.ltb_lt in Hc. Z.div_mod_to_equations; lia.
  - apply Z.ltb_ge in Hc. assert (20 * amount <= tr_balance t) by (Z.div_mod_to_equations; lia).
    unfold withdraw. apply wp_bind, wp_get. rewrite Z.geb_leb.
    destruct (Z.leb_spec amount (tr_balance t)); [|lia]. apply wp_modify. simpl.
    unfold saturating_sub. split; [done|]. split; [lia|done].
Qed.

(** The halving schedule.  The reward starts at the initial reward, never
    grows from one epoch to the next, halves exactly at the multiples of the
    interval (until 63 halvings), and the number of blocks announced until
    the next halving leads to an epoch at which one is due. *)
Theorem halving_schedule (h : HalvingEngine) :
  0 <= current_epoch h < U64_MAX -> 0 < halving_interval h -> 0 <= initial_reward h ->
  current_epoch h + halving_interval h <= U64_MAX ->
  0 <= get_current_reward (advance_epoch h) <= get_current_reward h /\
  get_current_reward h <= initial_reward h /\
  (is_halving_due (advance_epoch h) = true -> current_epoch h / halving_interval h < 63 ->
   get_current_reward (advance_epoch h) = get_current_reward h / 2) /\
  (is_halving_due (advance_epoch h) = false ->
   get_current_reward (advance_epoch h) = get_current_reward h) /\
  (1 <= blocks_until_halving h <= halving_interval h /\
   is_halving_due (mkHalving (current_epoch h + blocks_until_halving h) (halving_interval h)
     (initial_reward h)) = true).
Proof.
  destruct h as [e i r]. unfold get_current_reward, advance_epoch, is_halving_due, blocks_until_halving.
  simpl. intros He Hi Hr Hei. rewrite (wrap_id _ (e + 1)) by (unfold in_range; lia).
  set (q := e / i). set (m := e mod i). assert (e = i * q + m /\ 0 <= m < i /\ 0 <= q) as (Eq & Hm & Hq).
  { pose proof (Z.div_mod e i). pose proof (Z.mod_pos_bound e i). pose proof (Z.div_pos e i). lia. }
  assert (((e + 1) / i = q /\ (e + 1) mod i = m + 1 /\ m + 1 < i) \/
    ((e + 1) / i = q + 1 /\ (e + 1) mod i = 0 /\ m + 1 = i)) as Hs.
  { destruct (Z.eq_dec (m + 1) i) as [E|E].
    - right. rewrite <- (Z.div_unique (e + 1) i (q + 1) 0), <- (Z.mod_unique (e + 1) i (q + 1) 0); lia.
    - left. rewrite <- (Z.div_unique (e + 1) i q (m + 1)), <- (Z.mod_unique (e + 1) i q (m + 1)); lia. }
  rewrite !Z.shiftr_div_pow2 by lia.
  assert (0 < 2 ^ Z.min q 63) by (apply Z.pow_pos_nonneg; lia).
  assert (forall k, 0 <= k -> r / 2 ^ (k + 1) = r / 2 ^ k / 2) as Hhalf.
  { intros k Hk. rewrite Z.pow_add_r, Z.div_div by lia. done. }
  assert (0 <= r / 2 ^ Z.min q 63) by (apply Z.div_pos; lia).
  rewrite (wrap_id _ ((q + 1) * i)) by (unfold in_range; nia).
  rewrite (wrap_id _ ((q + 1) * i - e)) by (unfold in_range; nia).
  split; [|split; [|split; [|split; [|split]]]].
  - destruct Hs as [(-> & _ & _)|(-> & _ & _)]; [lia|].
    destruct (Z.le_gt_cases 63 q); [replace (Z.min (q + 1) 63) with (Z.min q 63) by lia; lia|].
    replace (Z.min (q + 1) 63) with (Z.min q 63 + 1) by lia. rewrite Hhalf by lia.
    Z.div_mod_to_equations; lia.
  - apply Z.div_le_upper_bound; nia.
  - intros Hdue Hq63. destruct Hs as [(_ & Hmod & _)|(-> & _ & _)].
    + rewrite Hmod in Hdue. lia.
    + replace (Z.min (q + 1) 63) with (Z.min q 63 + 1) by lia. apply Hhalf. lia.
  - intros Hdue. destruct Hs as [(-> & _ & _)|(_ & Hmod & _)]; [done|]. rewrite Hmod in Hdue. lia.
  - nia.
  - replace (e + ((q + 1) * i - e)) with ((q + 1) * i) by lia.
    rewrite Z.mod_mul by lia. assert (0 < (q + 1) * i) by nia. lia.
Qed.

Lemma halving_schedule_witness :
  blocks_until_halving (mkHalving 7 4 1000) = 1 /\ get_current_reward (mkHalving 8 4 1000) = 250.
Proof.
  destruct (halving_schedule (mkHalving 7 4 1000)) as (_ & _ & H & _); [done..|].
  split; [reflexivity|exact (H eq_refl eq_refl)].
Defined.

End Fee.

(** ** Vote tokens and the fee of a contract call *)

(** [bincode]'s encoding of an account: 16 and 8 little-endian bytes, and a
    decoder that wants all 24. *)
Class AccountBincode := {
  deserialize_account : bytes -> option Acct.Account;
}.
Class AccountBincodeLaws `{AccountBincode} : Prop := {
  deserialize_encode : forall a, Acct.account_ok a -> deserialize_account (Acct.encode a) = Some a;
  deserialize_short : forall b, (length b < 24)%nat -> deserialize_account b = None;
}.

Module ContractFee.
Import Fee.

(** [Storage::get_account]: an error reads as no account at every caller. *)
Definition AccountDb : Type := bytes -> result unit (option bytes).

(** The vote token balances of the storage. *)
Abbreviation Votes := (gmap bytes Z).
Definition get_vote_token_balance (v : Votes) (a : bytes) : Z := default 0 (v !! a).

Definition VT (A : Type) : Type := M Votes FeeError A.

Definition increment_vote_token_balance (a : bytes) (amount : Z) : VT unit :=
  modify (fun v => <[a := saturating_add U128_MAX (get_vote_token_balance v a) amount]> v).

(** [VoteToken::mint_from_fees]: 0.1%. *)
Definition mint_from_fees (total_fees : Z) : Z := total_fees / 1000.

Definition mint_vote_tokens (total_fees : Z) : Z := mint_from_fees total_fees.

(** [x.checked_mul(y).and_then(|z| z.checked_div(d)).unwrap_or(0)]. *)
Definition mul_div (x y d : Z) : Z :=
  match checked_mul U128_MAX x y with Some z => z / d | None => 0 end.

(** The [for] loop of [distribute_proportional]; the last participant gets
    what is left. *)
Fixpoint proportional_loop (total fees : Z) (distributed : Z) (l : list (bytes * Z)) : VT unit :=
  match l with
  | [] => mret tt
  | (address, fee) :: rest =>
      let vote_tokens := match rest with
        | [] => wrap U128_MAX (total - distributed)
        | _ => mul_div total fee fees
        end in
      if vote_tokens >? 0 then
        increment_vote_token_balance address vote_tokens;;
        d ← lift (ok_or (checked_add U128_MAX distributed vote_tokens) VoteTokenOverflow);
        proportional_loop total fees d rest
      else proportional_loop total fees distributed rest
  end.

Fixpoint checked_sum (acc : Z) (l : list (bytes * Z)) : option Z :=
  match l with
  | [] => Some acc
  | (_, fee) :: rest => acc' ← checked_add U128_MAX acc fee; checked_sum acc' rest
  end.

Definition distribute_proportional (total : Z) (participants : list (bytes * Z)) : VT unit :=
  if (total =? 0) || bool_decide (participants = []) then mret tt
  else
    fees ← lift (ok_or (checked_sum 0 participants) FeeOverflow);
    if fees =? 0 then mret tt
    else proportional_loop total fees 0 participants.

Definition mint_to_sender (address : bytes) (fee_paid : Z) : VT unit :=
  if fee_paid =? 0 then mret tt
  else if mint_from_fees fee_paid >? 0
       then increment_vote_token_balance address (mint_from_fees fee_paid)
       else mret tt.

(** The conditional increment of [distribute_vote_tokens]. *)
Definition give (a : bytes) (amount : Z) : VT unit :=
  if amount >? 0 then increment_vote_token_balance a amount else mret tt.

(** The first node with the least score, [min_by_key]. *)
Fixpoint lowest (l : list (bytes * Z)) : option (bytes * Z) :=
  match l with
  | [] => None
  | n :: rest =>
      match lowest rest with
      | Some m => if snd m <? snd n then Some m else Some n
      | None => Some n
      end
  end.

(** Remove the first node equal to [n]. *)
Fixpoint exclude (n : bytes * Z) (l : list (bytes * Z)) : list (bytes * Z) :=
  match l with
  | [] => []
  | m :: rest => if bool_decide (m = n) then rest else m :: exclude n rest
  end.

Definition eligible_nodes (l : list (bytes * Z)) : list (bytes * Z) :=
  match lowest l with Some n => exclude n l | None => l end.

(** Shares by score, the last node taking the remainder. *)
Fixpoint pou_loop (p2p_tokens pou_sum distributed : Z) (l : list (bytes * Z)) : VT unit :=
  match l with
  | [] => mret tt
  | (account, score) :: rest =>
      let vote_tokens := match rest with
        | [] => wrap U128_MAX (p2p_tokens - distributed)
        | _ => mul_div p2p_tokens score pou_sum
        end in
      if vote_tokens >? 0 then
        increment_vote_token_balance account vote_tokens;;
        pou_loop p2p_tokens pou_sum
          (default distributed (checked_add U128_MAX distributed vote_tokens)) rest
      else pou_loop p2p_tokens pou_sum distributed rest
  end.

(** Equal shares, the first node taking the remainder. *)
Fixpoint equal_loop (first each : Z) (l : list (bytes * Z)) : VT unit :=
  match l with
  | [] => mret tt
  | (account, _) :: rest => give account first;; equal_loop each each rest
  end.

Definition distribute_p2p (p2p_tokens : Z) (nodes : list (bytes * Z)) : VT unit :=
  let el := eligible_nodes nodes in
  if bool_decide (el = []) then mret tt
  else
    let pou_sum := wrap U64_MAX (sumZ (map snd el)) in
    if pou_sum >? 0 then pou_loop p2p_tokens pou_sum 0 el
    else
      let n := Z.of_nat (length el) in
      equal_loop (p2p_tokens / n + p2p_tokens mod n) (p2p_tokens / n) el.

(** The masternode's and the proposer's share of [distribute_vote_tokens];
    one increment when they are the same account. *)
Definition pay_operators (total masternode_fee proposer_fee received : Z)
    (masternode_address proposer_address : bytes) : VT unit :=
  if bool_decide (masternode_address = proposer_address) then
    combined ← lift (ok_or (checked_add U128_MAX masternode_fee proposer_fee) FeeOverflow);
    if combined >? 0 then give masternode_address (mul_div total combined received) else mret tt
  else
    (if masternode_fee >? 0
     then give masternode_address (mul_div total masternode_fee received) else mret tt);;
    (if proposer_fee >? 0
     then give proposer_address (mul_div total proposer_fee received) else mret tt).

(** [distribute_vote_tokens]. *)
Definition distribute_vote_tokens (total : Z) (d : DistributionAmounts)
    (masternode_address proposer_address : bytes) (p2p_nodes : option (list (bytes * Z)))
    (net_fee : Z) : VT unit :=
  if (total =? 0) || (net_fee =? 0) then mret tt
  else
    let masternode_fee := masternode d in
    let proposer_p2p_fee := proposer_p2p d in
    let proposer_fee := mul_div proposer_p2p_fee 8500 10000 in
    let p2p_fee := default 0 (checked_sub proposer_p2p_fee proposer_fee) in
    received ← lift (ok_or (checked_add U128_MAX masternode_fee proposer_p2p_fee) FeeOverflow);
    if received =? 0 then mret tt
    else
      pay_operators total masternode_fee proposer_fee received masternode_address proposer_address;;
      match p2p_nodes with
      | Some nodes =>
          if (p2p_fee >? 0) && negb (bool_decide (nodes = []))
          then distribute_p2p (mul_div total p2p_fee received) nodes else mret tt
      | None =>
          if p2p_fee >? 0 then give proposer_address (mul_div total p2p_fee received) else mret tt
      end.

(** [distribute_fees]: burn, split, vote tokens.  The account overlay is
    passed through. *)
Definition distribute_fees (total_fees : Z) (masternode_address proposer_address : bytes)
    (p2p_nodes : option (list (bytes * Z))) (ov : gmap bytes Acct.Account) :
    VT (DistributionAmounts * gmap bytes Acct.Account) :=
  if total_fees =? 0 then mret (mkAmounts 0 0 0 0 0 0 0, ov)
  else
    let be := update_volume total_fees BurnEngine_default in
    let burn := calculate_burn_amount be in
    let be := execute_burn burn be in
    net ← lift (ok_or (checked_sub total_fees burn) BurnExceedsFees);
    let result := distribute_fees_after_burn net ov halving_from_storage in
    let votes := mint_from_fees total_fees in
    (if votes >? 0
     then distribute_vote_tokens votes result masternode_address proposer_address p2p_nodes net
     else mret tt);;
    mret (result, ov).

(** *** The fee of a call *)

Definition default_gas_price : Z := 1000000.

Definition calculate_fee_from_gas (self_price gas_used : Z) (gas_price : option Z) :
    result FeeError Z :=
  let price := default self_price gas_price in
  ok_or (checked_mul U128_MAX gas_used price) (GasFeeOverflow gas_used price).

Definition calculate_fee_from_gas_meter (self_price : Z) (m : Gas.GasMeter) (gas_price : option Z) :
    result FeeError Z :=
  calculate_fee_from_gas self_price (Gas.total_used m) gas_price.

(** The deprecated, saturating variant. *)
Definition calculate_fee (self_price gas_used gas_price : Z) : Z :=
  match calculate_fee_from_gas self_price gas_used (Some gas_price) with
  | Ok fee => fee | Err _ => U128_MAX
  end.

Section Deduct.
Context `{AccountBincode}.

(** The caller's account: overlay first, then the database through
    [bincode]. *)
Definition read_account (db : AccountDb) (ov : gmap bytes Acct.Account) (key : bytes) : Acct.Account :=
  match ov !! key with
  | Some a => a
  | None =>
      match db key with
      | Ok (Some data) =>
          if (1048576 <? Z.of_nat (length data)) then Acct.Account_default
          else default Acct.Account_default (deserialize_account data)
      | _ => Acct.Account_default
      end
  end.

(** [calculate_and_deduct_fee_from_caller_with_gas]. *)
Definition deduct_fee (self_price gas_used : Z) (caller_key : bytes) (db : AccountDb)
    (gas_price : option Z) : M (gmap bytes Acct.Account) FeeError Z :=
  fee ← lift (calculate_fee_from_gas self_price gas_used gas_price);
  if fee =? 0 then mret 0
  else
    ov ← get;
    let a := read_account db ov caller_key in
    bail_if (Acct.balance a <? fee)
      (InsufficientForFee (Acct.balance a) fee (wrap U128_MAX (fee - Acct.balance a)));;
    match Acct.debit fee a with
    | (Ok _, a') => modify (<[caller_key := a']>);; mret fee
    | (Err _, _) => fail DebitFailed
    end.

(** [calculate_and_deduct_fee_from_caller]. *)
Definition deduct_fee_meter (self_price : Z) (m : Gas.GasMeter) (caller_key : bytes) (db : AccountDb)
    (gas_price : option Z) : M (gmap bytes Acct.Account) FeeError Z :=
  deduct_fee self_price (Gas.total_used m) caller_key db gas_price.
End Deduct.

(** ** Vote tokens are conserved *)

(** All vote tokens in existence. *)
Definition supply (v : Votes) : Z := map_sum (fun x : Z => x) v.

Definition votes_ok (v : Votes) : Prop := map_Forall (fun _ x => 0 <= x) v.

Lemma supply_insert v a x :
  supply (<[a := x]> v) = supply v - get_vote_token_balance v a + x.
Proof.
  unfold supply. rewrite map_sum_update. unfold get_vote_token_balance.
  destruct (v !! a); simpl; lia.
Qed.

Lemma supply_nonneg v : votes_ok v -> 0 <= supply v.
Proof. apply map_sum_nonneg. Qed.

Lemma balance_le_supply v a : votes_ok v -> 0 <= get_vote_token_balance v a <= supply v.
Proof.
  intros Hv. unfold get_vote_token_balance. destruct (v !! a) as [y|] eqn:E; simpl.
  - split; [exact (Hv a y E)|]. by apply (map_sum_lookup_le (fun x : Z => x) v a).
  - split; [done|by apply supply_nonneg].
Qed.

(** [v'] holds [n] tokens more than [v]. *)
Record minted (n : Z) (v v' : Votes) : Prop := {
  mt_ok : votes_ok v';
  mt_supply : supply v' = supply v + n;
}.

Lemma minted_trans n m v w u : minted n v w -> minted m w u -> minted (n + m) v u.
Proof. intros [] []. split; [done|lia]. Qed.

Lemma wp_increment (a : bytes) (amount : Z) (Q : unit -> Votes -> Prop) (R : FeeError -> Votes -> Prop) (v : Votes) :
  votes_ok v -> 0 <= amount -> supply v + amount <= U128_MAX ->
  (forall v', minted amount v v' -> Q tt v') -> wp (increment_vote_token_balance a amount) Q R v.
Proof.
  intros Hv Ha Hs HQ. apply wp_modify, HQ. pose proof (balance_le_supply v a Hv).
  unfold saturating_add. rewrite Z.min_r by lia. split.
  - apply map_Forall_insert_2; [lia|done].
  - rewrite supply_insert. lia.
Qed.

Lemma wp_give (a : bytes) (amount : Z) (Q : unit -> Votes -> Prop) (R : FeeError -> Votes -> Prop) (v : Votes) :
  votes_ok v -> 0 <= amount -> supply v + amount <= U128_MAX ->
  (forall v', minted amount v v' -> Q tt v') -> wp (give a amount) Q R v.
Proof.
  intros Hv Ha Hs HQ. unfold give. destruct (Z.gtb_spec amount 0).
  - by apply wp_increment.
  - apply wp_ret, HQ. split; [done|lia].
Qed.

Lemma mul_div_floor x y d : 0 <= x -> 0 <= y <= d -> 0 < d ->
  0 <= mul_div x y d /\ d * mul_div x y d <= x * y.
Proof.
  intros Hx Hy Hd. unfold mul_div. destruct (checked_mul U128_MAX x y) as [z|] eqn:E.
  - apply checked_mul_Some in E as [-> _]. split; [apply Z.div_pos; nia|]. by apply Z.mul_div_le.
  - nia.
Qed.

(** The common form of the two loops: they differ in how they advance the
    amount distributed so far. *)
Fixpoint share_loop (advance : Z -> Z -> VT Z) (total sum distributed : Z) (l : list (bytes * Z)) :
    VT unit :=
  match l with
  | [] => mret tt
  | (a, w) :: rest =>
      let share := match rest with
        | [] => wrap U128_MAX (total - distributed)
        | _ => mul_div total w sum
        end in
      if share >? 0 then
        increment_vote_token_balance a share;;
        d ← advance distributed share;
        share_loop advance total sum d rest
      else share_loop advance total sum distributed rest
  end.

Lemma proportional_loop_share total fees l d v :
  proportional_loop total fees d l v =
  share_loop (fun d x => lift (ok_or (checked_add U128_MAX d x) VoteTokenOverflow)) total fees d l v.
Proof.
  revert d v; induction l as [|[a w] l IH]; intros d v; [done|]. simpl. case_match; [|apply IH].
  unfold mbind, M_bind, lift, increment_vote_token_balance, modify.
  destruct (ok_or _ _); [apply IH|done].
Qed.

Lemma pou_loop_share total sum l d v :
  pou_loop total sum d l v =
  share_loop (fun d x => mret (default d (checked_add U128_MAX d x))) total sum d l v.
Proof.
  revert d v; induction l as [|[a w] l IH]; intros d v; [done|]. simpl. case_match; [|apply IH].
  apply IH.
Qed.

(** Shares that are floors of proportions, with the remainder to the last
    participant, add up to exactly the amount shared. *)
Lemma wp_share_loop (advance : Z -> Z -> VT Z) (total sum : Z) (l : list (bytes * Z))
    (distributed counted : Z) (Q : unit -> Votes -> Prop) (R : FeeError -> Votes -> Prop) (v : Votes) :
  (forall d x v, d + x <= U128_MAX -> advance d x v = (Ok (d + x), v)) ->
  votes_ok v -> l <> [] -> 0 < sum -> 0 <= total -> 0 <= counted ->
  Forall (fun n => 0 <= snd n) l -> counted + sumZ (map snd l) = sum ->
  0 <= distributed -> sum * distributed <= total * counted ->
  supply v + (total - distributed) <= U128_MAX -> total <= U128_MAX ->
  (forall v', minted (total - distributed) v v' -> Q tt v') ->
  wp (share_loop advance total sum distributed l) Q R v.
Proof.
  intros Hadv.
  revert distributed counted v; induction l as [|[a s] l IH];
    intros distributed counted v Hv Hne Hp Ht Hd0 Hl Hsum Hdist Hle Hs Ht' HQ; [done|].
  inversion Hl as [|? ? Hs0 Hl']; subst x l0. simpl in Hs0, Hsum. simpl share_loop.
  assert (0 <= sumZ (map snd l)) as Hrest by (clear -Hl'; induction Hl'; simpl; lia).
  pose proof (supply_nonneg v Hv).
  assert (distributed <= total) by nia.
  destruct l as [|n l].
  - rewrite wrap_id by (unfold in_range; lia).
    destruct (Z.gtb_spec (total - distributed) 0); [|apply wp_ret, HQ; split; [done|lia]].
    apply wp_bind, wp_increment; [done|lia|lia|]. intros v' Hm. apply wp_bind. unfold wp at 1.
    rewrite Hadv by lia. by apply wp_ret, HQ.
  - destruct (mul_div_floor total s sum) as [Hm0 Hm]; [done|lia|done|].
    set (x := mul_div total s sum) in *.
    assert (distributed + x <= total) by nia.
    destruct (Z.gtb_spec x 0); [|apply (IH _ (counted + s)); try done; [lia|lia|nia]].
    apply wp_bind, wp_increment; [done|lia|lia|]. intros v' Hmt. apply wp_bind. unfold wp at 1.
    rewrite Hadv by lia.
    apply (IH _ (counted + s)); try done; [apply Hmt|lia|lia|lia|nia|rewrite (mt_supply _ _ _ Hmt); lia|].
    intros v'' Hm2. apply HQ. replace (total - distributed) with (x + (total - (distributed + x))) by lia.
    by eapply minted_trans.
Qed.

Lemma checked_sum_spec acc l s :
  Forall (fun n : bytes * Z => 0 <= snd n) l -> 0 <= acc ->
  checked_sum acc l = Some s -> s = acc + sumZ (map snd l).
Proof.
  revert acc; induction l as [|[a f] l IH]; intros acc Hl Ha; simpl; [intros [= <-]; lia|].
  inversion Hl as [|? ? Hf Hl']; subst. simpl in Hf.
  destruct (checked_add U128_MAX acc f) as [acc'|] eqn:E; [|done]. simpl.
  apply checked_add_Some in E as [-> ?]. intros Hs. apply IH in Hs; [lia|done|lia].
Qed.

(** [distribute_proportional] mints exactly what it is told to.  Whatever
    the participants and their fees, if the supply has room, either it fails
    because the fees overflow, and then no balance has changed, or it
    succeeds and the total supply of vote tokens grows by exactly the amount
    when some fee is positive, and not at all otherwise. *)
Theorem distribute_proportional_conserves (total : Z) (l : list (bytes * Z)) (v : Votes) :
  votes_ok v -> 0 <= total -> supply v + total <= U128_MAX -> Forall (fun n => 0 <= snd n) l ->
  match distribute_proportional total l v with
  | (Ok _, v') => votes_ok v' /\
      supply v' = supply v + (if 0 <? sumZ (map snd l) then total else 0)
  | (Err e, v') => e = FeeOverflow /\ v' = v
  end.
Proof.
  intros Hv Ht Hs Hl. fold (wp (distribute_proportional total l)
    (fun _ v' => votes_ok v' /\ supply v' = supply v + (if 0 <? sumZ (map snd l) then total else 0))
    (fun e v' => e = FeeOverflow /\ v' = v) v).
  assert (0 <= sumZ (map snd l)) as Hsum by (clear -Hl; induction Hl; simpl; lia).
  pose proof (supply_nonneg v Hv). unfold distribute_proportional.
  destruct (Z.eqb_spec total 0) as [->|Hne].
  { apply wp_ret. split; [done|]. destruct (0 <? _); lia. }
  case_bool_decide as Hnil; [apply wp_ret; subst; split; [done|simpl; lia]|]. simpl.
  apply wp_bind, wp_lift; [|by intros e [_ ->]%ok_or_Err].
  intros fees Hf%ok_or_Ok. apply checked_sum_spec in Hf; [|done|done]. rewrite Z.add_0_l in Hf. subst fees.
  destruct (Z.eqb_spec (sumZ (map snd l)) 0) as [Hz|Hz].
  { apply wp_ret. rewrite Hz. split; [done|simpl; lia]. }
  destruct (Z.ltb_spec 0 (sumZ (map snd l))); [|lia]. unfold wp. rewrite proportional_loop_share.
  apply (wp_share_loop _ total _ l 0 0 (fun _ v' => _ /\ _)); try done; try lia.
  - intros d x v0 Hdx. unfold lift, checked_add. destruct (Z.leb_spec (d + x) U128_MAX); [done|lia].
  - intros v' [Ho Hm]. split; [done|lia].
Qed.

Definition va : bytes := [x01].
Definition vb : bytes := [x02].
Definition vc : bytes := [x03].

Lemma distribute_proportional_conserves_witness :
  let v' := snd (distribute_proportional 100 [(va, 1); (vb, 1); (vc, 1)] {[ va := 5 ]}) in
  supply v' = 105.
Proof.
  cbv zeta. pose proof (distribute_proportional_conserves 100 [(va, 1); (vb, 1); (vc, 1)] {[ va := 5 ]}) as H.
  assert (is_ok (fst (distribute_proportional 100 [(va, 1); (vb, 1); (vc, 1)] {[ va := 5 ]})) = true)
    as Hok by (vm_compute; reflexivity).
  destruct (distribute_proportional 100 _ _) as [[[]|e] v']; [|discriminate Hok].
  destruct H as [_ H]; [by apply map_Forall_singleton|done|done|repeat constructor; done|].
  simpl. rewrite H. reflexivity.
Defined.

(** *** The vote tokens of a distribution *)

Lemma wp_equal_loop (first each : Z) (l : list (bytes * Z)) (Q : unit -> Votes -> Prop)
    (R : FeeError -> Votes -> Prop) (v : Votes) :
  votes_ok v -> l <> [] -> 0 <= first -> 0 <= each ->
  supply v + (first + each * (Z.of_nat (length l) - 1)) <= U128_MAX ->
  (forall v', minted (first + each * (Z.of_nat (length l) - 1)) v v' -> Q tt v') ->
  wp (equal_loop first each l) Q R v.
Proof.
  revert first v; induction l as [|[a w] l IH]; intros first v Hv Hne Hf He Hs HQ; [done|].
  cbn [length] in Hs, HQ. simpl equal_loop. apply wp_bind, wp_give; [done|done|nia|].
  intros v' Hm. destruct l as [|n l].
  - apply wp_ret, HQ. cbn [length]. by replace (first + each * (Z.of_nat 1 - 1)) with first by lia.
  - apply IH; [apply Hm|done|done|done|rewrite (mt_supply _ _ _ Hm); lia|].
    intros v'' Hm2. apply HQ. eapply minted_trans in Hm2; [|exact Hm].
    replace (first + each * (Z.of_nat (S (length (n :: l))) - 1))
      with (first + (each + each * (Z.of_nat (length (n :: l)) - 1))) by lia. done.
Qed.

(** The excluded node leaves a sublist. *)
Lemma eligible_sublist l : eligible_nodes l `sublist_of` l.
Proof.
  unfold eligible_nodes. destruct (lowest l) as [n|]; [|done]. clear.
  induction l as [|m l IH]; simpl; [constructor|]. case_bool_decide; [by constructor|by constructor].
Qed.

Lemma sublist_scores l l' :
  l' `sublist_of` l -> Forall (fun n : bytes * Z => 0 <= snd n) l ->
  Forall (fun n => 0 <= snd n) l' /\ 0 <= sumZ (map snd l') <= sumZ (map snd l).
Proof.
  induction 1 as [|x l' l Hs IH|x l' l Hs IH]; intros Hl; [by split|..];
    inversion Hl as [|? ? Hx Hl']; subst; destruct (IH Hl') as (H1 & H2); simpl.
  - split; [by constructor|lia].
  - split; [done|lia].
Qed.

Lemma wp_distribute_p2p (tokens : Z) (l : list (bytes * Z)) (Q : unit -> Votes -> Prop)
    (R : FeeError -> Votes -> Prop) (v : Votes) :
  votes_ok v -> 0 <= tokens <= U128_MAX -> supply v + tokens <= U128_MAX ->
  Forall (fun n => 0 <= snd n) l -> sumZ (map snd l) <= U64_MAX ->
  (forall n v', 0 <= n <= tokens -> minted n v v' -> Q tt v') ->
  wp (distribute_p2p tokens l) Q R v.
Proof.
  intros Hv Ht Hs Hl Hsum HQ. unfold distribute_p2p.
  destruct (sublist_scores _ _ (eligible_sublist l) Hl) as [Hel Hes].
  set (el := eligible_nodes l) in *.
  case_bool_decide as Hnil; [apply wp_ret, (HQ 0); [lia|split; [done|lia]]|].
  rewrite wrap_id by (unfold in_range; lia).
  destruct (Z.gtb_spec (sumZ (map snd el)) 0).
  - unfold wp. rewrite pou_loop_share.
    apply (wp_share_loop _ tokens _ el 0 0 Q R); try done; try lia.
    + intros d x v0 Hdx. unfold checked_add. destruct (Z.leb_spec (d + x) U128_MAX); [done|lia].
    + intros v' Hm. apply (HQ (tokens - 0)); [lia|done].
  - assert (0 < Z.of_nat (length el)) by (destruct el; [done|simpl; lia]).
    assert (tokens / Z.of_nat (length el) + tokens mod Z.of_nat (length el) +
      tokens / Z.of_nat (length el) * (Z.of_nat (length el) - 1) = tokens) as Et
      by (pose proof (Z.div_mod tokens (Z.of_nat (length el))); nia).
    pose proof (Z.div_pos tokens (Z.of_nat (length el))).
    pose proof (Z.mod_pos_bound tokens (Z.of_nat (length el))).
    apply wp_equal_loop; [done|done|lia|lia|lia|]. rewrite Et. intros v' Hm. apply (HQ tokens); [lia|done].
Qed.

(** The share for a part [k] of the [r] received. *)
Lemma wp_share (a : bytes) (total k r : Z) (Q : unit -> Votes -> Prop) (R : FeeError -> Votes -> Prop)
    (v : Votes) :
  votes_ok v -> 0 <= total -> 0 <= k <= r -> 0 < r -> supply v + mul_div total k r <= U128_MAX ->
  (forall n v', minted n v v' -> 0 <= n -> r * n <= total * k -> Q tt v') ->
  wp (if k >? 0 then give a (mul_div total k r) else mret tt) Q R v.
Proof.
  intros Hv Ht Hk Hr Hs HQ. destruct (mul_div_floor total k r) as [H0 H1]; [done..|].
  destruct (Z.gtb_spec k 0); [|apply wp_ret, (HQ 0); [split; [done|lia]|lia|nia]].
  apply wp_give; [done|done|done|]. intros v' Hm. by apply (HQ (mul_div total k r)).
Qed.

Lemma wp_pay_operators (total m f r : Z) (ma pa : bytes) (Q : unit -> Votes -> Prop)
    (R : FeeError -> Votes -> Prop) (v : Votes) :
  votes_ok v -> 0 <= total -> 0 <= m -> 0 <= f -> m + f <= r -> 0 < r <= U128_MAX ->
  supply v + total <= U128_MAX ->
  (forall n v', minted n v v' -> 0 <= n -> r * n <= total * (m + f) -> Q tt v') ->
  wp (pay_operators total m f r ma pa) Q R v.
Proof.
  intros Hv Ht Hm Hf Hr Hr0 Hs HQ. unfold pay_operators.
  destruct (mul_div_floor total (m + f) r) as [Hc0 Hc]; [lia..|].
  destruct (mul_div_floor total m r) as [Hm0 Hm1]; [lia..|].
  destruct (mul_div_floor total f r) as [Hf0 Hf1]; [lia..|].
  case_bool_decide.
  - unfold checked_add. destruct (Z.leb_spec (m + f) U128_MAX); [|lia]. simpl ok_or.
    apply wp_bind, wp_lift; [|done]. intros c [= <-]. apply wp_share; [done|done|lia|lia|nia|done].
  - apply wp_bind, wp_share; [done|done|lia|lia|nia|]. intros n v1 Hmt Hn0 Hn.
    apply wp_share; [apply Hmt|done|lia|lia|rewrite (mt_supply _ _ _ Hmt); nia|].
    intros n' v2 Hmt' Hn0' Hn'. apply (HQ (n + n')); [by eapply minted_trans|lia|nia].
Qed.

(** A fee distribution mints no more vote tokens than it is told to.
    With the parts of the split positive and scores whose sum fits, the
    distribution never fails, no balance becomes negative or saturates, and
    the supply grows by at most the amount to distribute, whoever the
    masternode and the proposer are and whatever the peer nodes. *)
Lemma distribute_vote_tokens_bounded (total : Z) (d : DistributionAmounts) (ma pa : bytes)
    (nodes : option (list (bytes * Z))) (net : Z) (v : Votes) :
  votes_ok v -> 0 <= total -> supply v + total <= U128_MAX ->
  0 <= masternode d -> 0 <= proposer_p2p d -> masternode d + proposer_p2p d <= U128_MAX ->
  (forall l, nodes = Some l ->
    Forall (fun n => 0 <= snd n) l /\ sumZ (map snd l) <= U64_MAX) ->
  exists v', distribute_vote_tokens total d ma pa nodes net v = (Ok tt, v') /\
    votes_ok v' /\ supply v <= supply v' <= supply v + total.
Proof.
  intros Hv Ht Hs Hm Hp Hmp Hn.
  assert (wp (distribute_vote_tokens total d ma pa nodes net)
    (fun _ v' => votes_ok v' /\ supply v <= supply v' <= supply v + total) (fun _ _ => False) v) as Hw.
  2: { unfold wp in Hw. destruct (distribute_vote_tokens _ _ _ _ _ _ v) as [[[]|e] v']; [|done]. by exists v'. }
  pose proof (supply_nonneg v Hv).
  unfold distribute_vote_tokens. destruct (_ || _); [apply wp_ret; split; [done|lia]|].
  destruct (mul_div_floor (proposer_p2p d) 8500 10000) as [Hf0 Hf]; [done|lia|lia|].
  set (m := masternode d) in *. set (pp := proposer_p2p d) in *. set (f := mul_div pp 8500 10000) in *.
  assert (f <= pp) by nia. unfold checked_sub. destruct (Z.leb_spec f pp); [|lia]. simpl default.
  unfold checked_add at 1. destruct (Z.leb_spec (m + pp) U128_MAX); [|lia]. simpl ok_or.
  apply wp_bind, wp_lift; [|done]. intros r [= <-].
  destruct (Z.eqb_spec (m + pp) 0); [apply wp_ret; split; [done|lia]|].
  apply wp_bind, wp_pay_operators; [done|done|done|done|lia|lia|lia|].
  intros n1 v1 Hmt Hn0 Hrn.
  destruct (mul_div_floor total (pp - f) (m + pp)) as [Hq0 Hq]; [lia..|].
  set (q := mul_div total (pp - f) (m + pp)) in *.
  assert (n1 + q <= total) by nia. pose proof (mt_supply _ _ _ Hmt) as Hsup.
  assert (votes_ok v1 /\ supply v <= supply v1 <= supply v + total) as Hstop
    by (split; [apply Hmt|lia]).
  destruct nodes as [l|].
  - destruct ((_ >? 0) && _); [|by apply wp_ret].
    destruct (Hn l eq_refl) as [Hl Hls].
    apply wp_distribute_p2p; [apply Hmt|lia|lia|done|done|]. intros k v' Hk' [Hok Hsp].
    split; [done|lia].
  - destruct (_ >? 0); [|by apply wp_ret]. apply wp_give; [apply Hmt|done|lia|].
    intros v' [Hok Hsp]. split; [done|lia].
Qed.

(** Contract fees are split but nobody is paid.  [distribute_fees] fails
    for every fee below the fixed burn of 1000; from there on it returns parts
    that add up to the fee minus 1000, and hands the account overlay back
    unchanged, so no account receives its part: only vote tokens are minted,
    at most a thousandth of the fee. *)
Theorem distribute_fees_pays_nobody (fees : Z) (ma pa : bytes) (nodes : option (list (bytes * Z)))
    (ov : gmap bytes Acct.Account) (v : Votes) :
  votes_ok v -> 0 < fees <= U128_MAX -> supply v + fees / 1000 <= U128_MAX ->
  (forall l, nodes = Some l ->
    Forall (fun n => 0 <= snd n) l /\ sumZ (map snd l) <= U64_MAX) ->
  if fees <? 1000 then distribute_fees fees ma pa nodes ov v = (Err BurnExceedsFees, v)
  else exists d v', distribute_fees fees ma pa nodes ov v = (Ok (d, ov), v') /\
    treasury d + masternode d + proposer_p2p d = fees - 1000 /\
    supply v <= supply v' <= supply v + fees / 1000.
Proof.
  intros Hv Hf Hs Hn. unfold distribute_fees.
  destruct (Z.eqb_spec fees 0) as [|_]; [lia|].
  assert (calculate_burn_amount (update_volume fees BurnEngine_default) = 1000) as ->.
  { unfold calculate_burn_amount. simpl. rewrite Z.mul_0_r. reflexivity. }
  destruct (Z.ltb_spec fees 1000).
  - unfold checked_sub. destruct (Z.leb_spec 1000 fees); [lia|]. done.
  - unfold checked_sub. destruct (Z.leb_spec 1000 fees); [|lia]. simpl ok_or.
    unfold mbind at 1, M_bind at 1, lift.
    set (d := distribute_fees_after_burn (fees - 1000) ov halving_from_storage).
    assert (treasury d + masternode d + proposer_p2p d = fees - 1000 /\ 0 <= masternode d /\
      0 <= proposer_p2p d /\ masternode d + proposer_p2p d <= U128_MAX) as (Hd & ? & ? & ?).
    { unfold d, distribute_fees_after_burn, saturating_sub. simpl. Z.div_mod_to_equations. lia. }
    assert (0 <= fees / 1000) as Hk by (apply Z.div_pos; lia).
    unfold mint_from_fees. destruct (Z.gtb_spec (fees / 1000) 0).
    + destruct (distribute_vote_tokens_bounded (fees / 1000) d ma pa nodes (fees - 1000) v)
        as (v' & Hr & _ & Hsup); try done.
      unfold mbind, M_bind. rewrite Hr. by exists d, v'.
    + exists d, v. split; [done|]. split; [done|lia].
Qed.

Lemma distribute_fees_pays_nobody_witness :
  distribute_fees 999 va vb None ∅ ∅ = (Err BurnExceedsFees, ∅) /\
  exists d v', distribute_fees 5000 va vb None ∅ ∅ = (Ok (d, ∅), v') /\ supply v' <= 5.
Proof.
  split.
  - apply (distribute_fees_pays_nobody 999 va vb None ∅ ∅); done.
  - destruct (distribute_fees_pays_nobody 5000 va vb None ∅ ∅) as (d & v' & H & _ & Hs); try done.
    exists d, v'. split; [exact H|apply Hs].
Defined.

Section DeductFacts.
Context `{AccountBincodeLaws}.

(** The outcome of the deduction as a function of the caller's balance. *)
Definition deducted (fee : Z) (key : bytes) (a : Acct.Account) (ov : gmap bytes Acct.Account) :
    result FeeError Z * gmap bytes Acct.Account :=
  if fee =? 0 then (Ok 0, ov)
  else if Acct.balance a <? fee
  then (Err (InsufficientForFee (Acct.balance a) fee (fee - Acct.balance a)), ov)
  else (Ok fee, <[key := Acct.mkAccount (Acct.balance a - fee) (Acct.nonce a)]> ov).

(** The fee of a call is gas times price, taken once from the caller.
    The product either overflows, which is an error, or is the fee; a balance
    that covers it drops by exactly the fee in the overlay, nonce and every
    other account untouched; a balance that does not leaves the overlay alone
    and reports the exact shortfall. *)
Theorem deduct_fee_correct (price gas : Z) (key : bytes) (db : AccountDb) (p : option Z)
    (ov : gmap bytes Acct.Account) :
  0 <= gas -> 0 <= default price p -> Acct.account_ok (read_account db ov key) ->
  deduct_fee price gas key db p ov =
  if gas * default price p <=? U128_MAX
  then deducted (gas * default price p) key (read_account db ov key) ov
  else (Err (GasFeeOverflow gas (default price p)), ov).
Proof.
  intros Hg Hp Ha. unfold deduct_fee, calculate_fee_from_gas, checked_mul.
  destruct (Z.leb_spec (gas * default price p) U128_MAX) as [Hm|Hm]; [|done]. simpl ok_or.
  unfold mbind at 1, M_bind at 1, lift. set (fee := gas * default price p) in *.
  unfold deducted. destruct (Z.eqb_spec fee 0); [done|].
  unfold mbind, M_bind, get, bail_if. set (a := read_account db ov key) in *.
  destruct (Z.ltb_spec (Acct.balance a) fee).
  - unfold fail. rewrite wrap_id; [done|]. destruct Ha as [Hb _]. unfold in_range in *. lia.
  - unfold mret, M_ret. unfold Acct.debit, mbind, M_bind, get, lift, checked_sub.
    destruct (Z.leb_spec fee (Acct.balance a)); [|lia]. done.
Qed.

(** The fee code does not read accounts the way the rest of the ledger
    does.  A database record in the 16-byte format, which
    [Account::decode] accepts with its balance, reads as an empty account
    here, so its owner cannot pay any fee; a 24-byte record reads the same in
    both. *)
Theorem fee_ignores_old_accounts (key : bytes) (a : Acct.Account) (ov : gmap bytes Acct.Account)
    (db : AccountDb) (gas : Z) :
  Acct.account_ok a -> ov !! key = None -> 0 < gas -> gas * default_gas_price <= U128_MAX ->
  (db key = Ok (Some (to_le_bytes 16 (Acct.balance a))) ->
   Acct.decode (to_le_bytes 16 (Acct.balance a)) = Ok (Acct.mkAccount (Acct.balance a) 0) /\
   deduct_fee default_gas_price gas key db None ov =
     (Err (InsufficientForFee 0 (gas * default_gas_price) (gas * default_gas_price)), ov)) /\
  (db key = Ok (Some (Acct.encode a)) -> read_account db ov key = a).
Proof.
  intros Ha Hov Hg Hmax. split.
  - intros Hdb.
    assert (read_account db ov key = Acct.Account_default) as Hr.
    { unfold read_account. rewrite Hov, Hdb, length_to_le_bytes.
      change (1048576 <? Z.of_nat 16) with false. cbv iota.
      by rewrite deserialize_short by (rewrite length_to_le_bytes; lia). }
    split.
    + unfold Acct.decode. rewrite length_to_le_bytes. rewrite bool_decide_eq_false_2, bool_decide_eq_true_2 by done.
      rewrite firstn_all2 by (by rewrite length_to_le_bytes).
      destruct Ha as [Hb _]. rewrite from_to_le_bytes, Z.mod_small by (mach_unfold; lia). done.
    + unfold deduct_fee, calculate_fee_from_gas, checked_mul, mbind, M_bind, lift, get, bail_if.
      change (default default_gas_price None) with default_gas_price.
      destruct (Z.leb_spec (gas * default_gas_price) U128_MAX); [|lia]. cbn [ok_or].
      unfold default_gas_price in *. destruct (Z.eqb_spec (gas * 1000000) 0); [lia|].
      cbv beta. rewrite Hr.
      cbn [Acct.balance Acct.Account_default].
      destruct (Z.ltb_spec 0 (gas * 1000000)); [|lia]. unfold fail.
      by rewrite wrap_id, Z.sub_0_r by (unfold in_range; lia).
  - intros Hdb. unfold read_account. rewrite Hov, Hdb, Acct.length_encode. simpl.
    by rewrite deserialize_encode.
Qed.
End DeductFacts.

(** A decoder of the format, and concrete instances. *)
Definition bincode_demo : AccountBincode := {|
  deserialize_account := fun b =>
    if (length b <? 24)%nat then None
    else match Acct.decode (take 24 b) with Ok a => Some a | Err _ => None end |}.

Lemma bincode_demo_laws : @AccountBincodeLaws bincode_demo.
Proof.
  split.
  - intros a Ha. unfold deserialize_account, bincode_demo. rewrite Acct.length_encode.
    change ((24 <? 24)%nat) with false. cbv iota. rewrite firstn_all2 by (by rewrite Acct.length_encode). by rewrite Acct.decode_encode.
  - intros b Hb. simpl. by destruct (Nat.ltb_spec (length b) 24); [|lia].
Qed.

Definition rich : Acct.Account := Acct.mkAccount 5000000 3.

Lemma deduct_fee_correct_witness :
  @deduct_fee bincode_demo default_gas_price 2 va (fun _ => Ok None) None {[ va := rich ]} =
  (Ok 2000000, {[ va := Acct.mkAccount 3000000 3 ]}).
Proof.
  rewrite (@deduct_fee_correct bincode_demo default_gas_price 2 va (fun _ => Ok None) None
    {[ va := rich ]}); [vm_compute; reflexivity|done|done|vm_compute; repeat split; discriminate].
Defined.

Lemma fee_ignores_old_accounts_witness :
  @deduct_fee bincode_demo default_gas_price 1 va (fun _ => Ok (Some (to_le_bytes 16 5000000))) None ∅ =
  (Err (InsufficientForFee 0 1000000 1000000), ∅).
Proof.
  apply (@fee_ignores_old_accounts bincode_demo bincode_demo_laws va rich ∅
    (fun _ => Ok (Some (to_le_bytes 16 5000000))) 1);
    [vm_compute; repeat split; discriminate|reflexivity|done|done|reflexivity].
Defined.

End ContractFee.
