(* ===== verification/Evm.v ===== *)
(** * The EVM interpreter

    [Savitri-contracts/src/contracts/evm_interpreter.rs]: the stack machine
    that runs the byte code of a contract no built-in selector answers.

    A word is [primitive_types::U256]: any implementation of coqutil's
    256-bit [word] with its laws, together with the two byte conversions of
    the crate (class [U256]).  The machine is a state monad over [Vm]; the
    borrowed, never written parts of the Rust structure are [Env].  [usize]
    is 64 bits.  The stack is a list whose head is the last element of the
    Rust vector.

    A memory that must grow beyond [isize::MAX] bytes panics in the
    allocator ([Panic]); smaller requests are taken to succeed.  [run] takes
    fuel; [run_terminates] gives the fuel that is always enough. *)

From coqutil Require Import Word.Interface Word.Properties Word.Naive.
From Stdlib Require Import Strings.Byte.
From S2P Require Import Prelude Gas ContractStorage Codec BaseContract.

(** The 256-bit words and their conversions to and from 32 bytes. *)
Class U256 := {
  uint :: word.word 256;
  from_big_endian : bytes -> uint;
  to_big_endian : uint -> bytes;
}.

(** The big-endian value of a byte string. *)
Definition be_value (l : bytes) : Z := from_le_bytes (rev l).

Class U256Laws `{U256} : Prop := {
  uint_ok :: word.ok uint;
  from_be_spec : forall l, length l = 32%nat ->
    word.unsigned (from_big_endian l) = be_value l;
  to_be_spec : forall w, to_big_endian w = rev (to_le_bytes 32 (word.unsigned w));
}.

Module Evm.

Definition ISIZE_MAX : Z := 9223372036854775807.

Inductive EvmError :=
| GasExhausted (e : Gas.GasError)
| StackUnderflow
| PushExceedsCode
| TooLargeForUsize
| SloadFailed (e : ContractError)
| JumpOutOfBounds
| NotJumpdest
| Revert (data : bytes)
| InvalidOpcode
| UnsupportedOpcode (op : byte)
| BadContractAddress
| Panic.

Section Machine.
Context `{U256} `{Keccak} (st : Storage).

(** The shared, read-only part of [Vm]. *)
Record Env := {
  code : bytes;
  calldata : bytes;
  contract_address : bytes;
  caller : bytes;
  value : Z;
  block_timestamp : Z;
}.

(** The mutable part. *)
Record Vm := mkVm {
  pc : Z;
  stack : list uint;
  memory : bytes;
  contract_storage : ContractStorage;
  gas_meter : Gas.GasMeter;
}.

Definition set_pc (v : Z) (s : Vm) : Vm :=
  mkVm v (stack s) (memory s) (contract_storage s) (gas_meter s).
Definition set_stack (v : list uint) (s : Vm) : Vm :=
  mkVm (pc s) v (memory s) (contract_storage s) (gas_meter s).
Definition set_memory (v : bytes) (s : Vm) : Vm :=
  mkVm (pc s) (stack s) v (contract_storage s) (gas_meter s).
Definition set_storage (v : ContractStorage) (s : Vm) : Vm :=
  mkVm (pc s) (stack s) (memory s) v (gas_meter s).
Definition set_gas (v : Gas.GasMeter) (s : Vm) : Vm :=
  mkVm (pc s) (stack s) (memory s) (contract_storage s) v.

Definition V (A : Type) : Type := M Vm EvmError A.

(** A gas meter operation on the machine's meter. *)
Definition charge (op : Gas.G unit) : V unit := zoom gas_meter set_gas GasExhausted op.

Definition U256_from (z : Z) : uint := word.of_Z z.
Definition U256_zero : uint := word.of_Z 0.
Definition U256_one : uint := word.of_Z 1.
Definition is_zero256 (w : uint) : bool := word.eqb w U256_zero.

Definition u256_to_usize (v : uint) : V Z :=
  if word.unsigned v >? U64_MAX then fail TooLargeForUsize else mret (word.unsigned v).

Definition bytes32_to_u256 (b : bytes) : uint := from_big_endian b.

(** The low 64 bits of a storage slot. *)
Definition slot_to_u64 (slot : uint) : Z :=
  word.unsigned (word.and slot (U256_from U64_MAX)).

Definition sign_bit : uint := word.slu U256_one (word.of_Z 255).

Definition signed_lt (a b : uint) : bool :=
  let a_neg := negb (is_zero256 (word.and a sign_bit)) in
  let b_neg := negb (is_zero256 (word.and b sign_bit)) in
  if negb (Bool.eqb a_neg b_neg) then a_neg else word.ltu a b.

Definition signed_gt (a b : uint) : bool :=
  let a_neg := negb (is_zero256 (word.and a sign_bit)) in
  let b_neg := negb (is_zero256 (word.and b sign_bit)) in
  if negb (Bool.eqb a_neg b_neg) then b_neg else word.gtu a b.

(** ** Stack *)

Definition push (v : uint) : V unit := modify (fun s => set_stack (v :: stack s) s).

Definition pop : V uint :=
  s ← get;
  match stack s with
  | [] => fail StackUnderflow
  | v :: rest => modify (set_stack rest);; mret v
  end.

Definition peek (idx_from_top : nat) : V uint :=
  s ← get; lift (ok_or (stack s !! idx_from_top) StackUnderflow).

Definition binop (f : uint -> uint -> uint) : V unit :=
  b ← pop; a ← pop; push (f a b).

Definition cmpop (f : uint -> uint -> bool) : V unit :=
  b ← pop; a ← pop; push (if f a b then U256_one else U256_zero).

Definition pushn (e : Env) (op : byte) : V unit :=
  let n := byte_to_Z op - 95 in
  s ← get;
  if pc s + n >? Z.of_nat (length (code e)) then fail PushExceedsCode
  else
    let buf := zeros (Z.to_nat (32 - n)) ++
      take (Z.to_nat n) (drop (Z.to_nat (pc s)) (code e)) in
    modify (set_pc (pc s + n));;
    push (from_big_endian buf).

Definition dup (op : byte) : V unit :=
  let depth := Z.to_nat (byte_to_Z op - 127) in
  v ← peek (depth - 1); push v.

Definition swap (op : byte) : V unit :=
  let depth := Z.to_nat (byte_to_Z op - 143) in
  s ← get;
  if bool_decide (length (stack s) <= depth)%nat then fail StackUnderflow
  else
    match stack s !! 0%nat, stack s !! depth with
    | Some top, Some other =>
        modify (set_stack (<[0%nat := other]> (<[depth := top]> (stack s))))
    | _, _ => fail StackUnderflow
    end.

(** The shift count is clamped to 256 before it is used. *)
Definition shift_left : V unit :=
  shift ← pop; v ← pop;
  push (if word.unsigned shift >? 255 then U256_zero else word.slu v shift).

Definition shift_right : V unit :=
  shift ← pop; v ← pop;
  push (if word.unsigned shift >? 255 then U256_zero else word.sru v shift).

(** Opcode 0x1a; [idx] is on top. *)
Definition byte_op : V unit :=
  idx ← pop; w ← pop;
  i ← u256_to_usize idx;
  push (if i >=? 32 then U256_zero
        else word.and (word.sru w (word.of_Z ((31 - i) * 8))) (U256_from 255)).

(** ** Memory *)

Definition ensure_memory (end_ : Z) : V unit :=
  s ← get;
  if Z.of_nat (length (memory s)) <? end_ then
    if end_ >? ISIZE_MAX then fail Panic
    else modify (set_memory (memory s ++ zeros (Z.to_nat end_ - length (memory s))))
  else mret tt.

(** [&memory[offset..offset + n]]. *)
Definition mem_slice (offset n : Z) : V bytes :=
  s ← get;
  let last := wrap U64_MAX (offset + n) in
  if (last <? offset) || (Z.of_nat (length (memory s)) <? last) then fail Panic
  else mret (take (Z.to_nat n) (drop (Z.to_nat offset) (memory s))).

(** [memory[offset..offset + len].copy_from_slice(data)]. *)
Definition mem_write (offset : Z) (data : bytes) : V unit :=
  s ← get;
  let last := wrap U64_MAX (offset + Z.of_nat (length data)) in
  if (last <? offset) || (Z.of_nat (length (memory s)) <? last) then fail Panic
  else modify (set_memory (take (Z.to_nat offset) (memory s) ++ data ++
         drop (Z.to_nat last) (memory s))).

Definition mload : V unit :=
  w ← pop; offset ← u256_to_usize w;
  ensure_memory (saturating_add U64_MAX offset 32);;
  word ← mem_slice offset 32;
  push (from_big_endian word).

Definition mstore : V unit :=
  w ← pop; offset ← u256_to_usize w;
  v ← pop;
  ensure_memory (saturating_add U64_MAX offset 32);;
  mem_write offset (to_big_endian v).

Definition mstore8 : V unit :=
  w ← pop; offset ← u256_to_usize w;
  v ← pop;
  ensure_memory (saturating_add U64_MAX offset 1);;
  mem_write offset [byte_of_Z (word.unsigned (word.and v (U256_from 255)))].

(** The byte loop of [calldatacopy] and [codecopy]: source indices past the
    end read as zero, and [data_offset + i] wraps. *)
Definition src_byte (data : bytes) (data_offset : Z) (i : nat) : byte :=
  let src := wrap U64_MAX (data_offset + Z.of_nat i) in
  if src <? Z.of_nat (length data) then nth (Z.to_nat src) data x00 else x00.

Fixpoint copy_loop (data : bytes) (mem_offset data_offset : Z) (idxs : list nat) : V unit :=
  match idxs with
  | [] => mret tt
  | i :: rest =>
      s ← get;
      let dst := wrap U64_MAX (mem_offset + Z.of_nat i) in
      (if dst <? Z.of_nat (length (memory s))
       then modify (set_memory (<[Z.to_nat dst := src_byte data data_offset i]> (memory s)))
       else fail Panic);;
      copy_loop data mem_offset data_offset rest
  end.

Definition copy_op (data : bytes) : V unit :=
  a ← pop; mem_offset ← u256_to_usize a;
  b ← pop; data_offset ← u256_to_usize b;
  c ← pop; len ← u256_to_usize c;
  ensure_memory (saturating_add U64_MAX mem_offset len);;
  copy_loop data mem_offset data_offset (seq 0 (Z.to_nat len)).

Definition calldatacopy (e : Env) : V unit := copy_op (calldata e).
Definition codecopy (e : Env) : V unit := copy_op (code e).

Definition calldataload (e : Env) : V unit :=
  w ← pop; offset ← u256_to_usize w;
  let out :=
    if offset <? Z.of_nat (length (calldata e))
    then let d := take 32 (drop (Z.to_nat offset) (calldata e)) in
         d ++ zeros (32 - length d)
    else zeros 32 in
  push (from_big_endian out).

Definition sha3 : V unit :=
  a ← pop; offset ← u256_to_usize a;
  b ← pop; len ← u256_to_usize b;
  ensure_memory (saturating_add U64_MAX offset len);;
  d ← mem_slice offset len;
  push (from_big_endian (keccak256 d)).

Definition return_data : V bytes :=
  a ← pop; offset ← u256_to_usize a;
  b ← pop; size ← u256_to_usize b;
  ensure_memory (saturating_add U64_MAX offset size);;
  mem_slice offset size.

(** ** Storage *)

(** [contract_storage.sload(storage, slot, Some(gas_meter))]. *)
Definition storage_sload (slot : Z) : V bytes := fun s =>
  match CS.sload st slot (mkES (contract_storage s) (Some (gas_meter s)) [] []) with
  | (r, es) =>
      let s' := mkVm (pc s) (stack s) (memory s) (es_cs es) (default (gas_meter s) (es_gas es)) in
      match r with Ok v => (Ok v, s') | Err er => (Err (SloadFailed er), s') end
  end.

Definition sload : V unit :=
  slot ← pop;
  v ← storage_sload (slot_to_u64 slot);
  push (from_big_endian v).

(** The value goes straight to the overlay: no reserved-slot test, no zero
    case and no change of the read cache. *)
Definition sstore : V unit :=
  slot ← pop; v ← pop;
  charge (Gas.consume_sstore false);;
  modify (fun s => let c := contract_storage s in
    set_storage (mkCS (ContractStorage.contract_address c)
      (<[slot_to_u64 slot := to_big_endian v]> (overlay c)) (read_cache c)) s).

(** ** Jumps *)

Definition validate_jumpdest (e : Env) (dest : Z) : V unit :=
  match code e !! Z.to_nat dest with
  | None => fail JumpOutOfBounds
  | Some op => bail_if (negb (Byte.eqb op x5b)) NotJumpdest
  end.

Definition jump (e : Env) : V unit :=
  w ← pop; dest ← u256_to_usize w;
  validate_jumpdest e dest;; modify (set_pc dest).

Definition jumpi (e : Env) : V unit :=
  w ← pop; dest ← u256_to_usize w;
  cond ← pop;
  if negb (is_zero256 cond) then validate_jumpdest e dest;; modify (set_pc dest)
  else mret tt.

(** ** The fetch, decode, execute loop *)

(** Carry on with the next instruction after [m]. *)
Definition next (m : V unit) : V (option bytes) := m;; mret None.

Definition in_ops (lo hi : Z) (op : byte) : bool :=
  (lo <=? byte_to_Z op) && (byte_to_Z op <=? hi).

(** The [match op]: [Some data] leaves the loop with [data]. *)
Definition exec_op (e : Env) (op : byte) : V (option bytes) :=
  match op with
  | x00 => mret (Some [])
  | x01 => next (binop word.add)
  | x02 => next (binop word.mul)
  | x03 => next (binop word.sub)
  | x04 => next (binop (fun a b => if is_zero256 b then U256_zero else word.divu a b))
  | x06 => next (binop (fun a b => if is_zero256 b then U256_zero else word.modu a b))
  | x10 => next (cmpop word.ltu)
  | x11 => next (cmpop word.gtu)
  | x12 => next (cmpop signed_lt)
  | x13 => next (cmpop signed_gt)
  | x14 => next (cmpop word.eqb)
  | x15 => next (v ← pop; push (if is_zero256 v then U256_one else U256_zero))
  | x16 => next (binop word.and)
  | x17 => next (binop word.or)
  | x18 => next (binop word.xor)
  | x19 => next (v ← pop; push (word.not v))
  | x1a => next byte_op
  | x1b => next shift_left
  | x1c => next shift_right
  | x20 => next sha3
  | x30 => next (push (bytes32_to_u256 (contract_address e)))
  | x33 => next (push (bytes32_to_u256 (caller e)))
  | x34 => next (push (U256_from (value e)))
  | x35 => next (calldataload e)
  | x36 => next (push (U256_from (Z.of_nat (length (calldata e)))))
  | x37 => next (calldatacopy e)
  | x38 => next (push (U256_from (Z.of_nat (length (code e)))))
  | x39 => next (codecopy e)
  | x42 => next (push (U256_from (block_timestamp e)))
  | x50 => next (pop;; mret tt)
  | x51 => next mload
  | x52 => next mstore
  | x53 => next mstore8
  | x54 => next sload
  | x55 => next sstore
  | x56 => next (jump e)
  | x57 => next (jumpi e)
  | x58 => next (s ← get; push (U256_from (saturating_sub (pc s) 1)))
  | x59 => next (s ← get; push (U256_from (Z.of_nat (length (memory s)))))
  | x5b => mret None
  | xf3 => d ← return_data; mret (Some d)
  | xfd => d ← return_data; fail (Revert d)
  | xfe => fail InvalidOpcode
  | _ =>
      if in_ops 96 127 op then next (pushn e op)
      else if in_ops 128 143 op then next (dup op)
      else if in_ops 144 159 op then next (swap op)
      else fail (UnsupportedOpcode op)
  end.

(** One iteration of the loop at a program counter inside the code. *)
Definition step (e : Env) (op : byte) : V (option bytes) :=
  charge (Gas.consume 1);;
  modify (fun s => set_pc (pc s + 1) s);;
  exec_op e op.

(** [run]: [None] when the fuel is not enough. *)
Fixpoint run (fuel : nat) (e : Env) (s : Vm) : option (result EvmError bytes * Vm) :=
  match code e !! Z.to_nat (pc s) with
  | None => Some (Ok [], s)
  | Some op =>
      match fuel with
      | O => None
      | S fuel' =>
          match step e op s with
          | (Ok None, s') => run fuel' e s'
          | (Ok (Some d), s') => Some (Ok d, s')
          | (Err er, s') => Some (Err er, s')
          end
      end
  end.

(** The machine [execute] starts. *)
Definition start (cs : ContractStorage) (m : Gas.GasMeter) : Vm := mkVm 0 [] [] cs m.

Definition execute (fuel : nat) (e : Env) (cs : ContractStorage) (m : Gas.GasMeter) :
    option (result EvmError bytes * Vm) :=
  if bool_decide (length (contract_address e) = 32%nat) then run fuel e (start cs m)
  else Some (Err BadContractAddress, start cs m).

End Machine.

(** ** What the instructions leave alone

    [safe J E m]: [m] run where [J] holds of the storage and the meter ends
    where [J] holds again, or fails where [E] does.  Only the gas charge, the
    storage read and the storage write touch those two, so every instruction
    is safe as soon as these three are. *)

Section Safe.
Context `{U256} `{Keccak} (st : Storage).
Context (J E : ContractStorage -> Gas.GasMeter -> Prop).
Hypothesis HJE : forall c g, J c g -> E c g.

Definition on (P : ContractStorage -> Gas.GasMeter -> Prop) (s : Vm) : Prop :=
  P (contract_storage s) (gas_meter s).
Definition safe {A} (m : V A) : Prop :=
  forall s, on J s -> wp m (fun _ => on J) (fun _ => on E) s.

Lemma safe_ret {A} (a : A) : safe (mret a).
Proof. by intros s Hs. Qed.
Lemma safe_fail {A} e : safe (fail e : V A).
Proof. intros s Hs. by apply HJE. Qed.
Lemma safe_get : safe get.
Proof. by intros s Hs. Qed.
Lemma safe_lift {A} (r : result EvmError A) : safe (lift r).
Proof. intros s Hs. apply wp_lift; intros; [done|by apply HJE]. Qed.
Lemma safe_bind {A B} (m : V A) (f : A -> V B) :
  safe m -> (forall a, safe (f a)) -> safe (m ≫= f).
Proof.
  intros Hm Hf s Hs. apply wp_bind. eapply wp_mono; [by apply Hm|intros a s' Hs'; by apply Hf|done].
Qed.
Lemma safe_modify f : (forall s, on J s -> on J (f s)) -> safe (modify f).
Proof. intros Hf s Hs. by apply wp_modify, Hf. Qed.
Lemma safe_bail_if c e : safe (bail_if c e : V unit).
Proof. destruct c; [apply safe_fail|apply safe_ret]. Qed.
Lemma safe_usize w : safe (u256_to_usize w).
Proof. unfold u256_to_usize. case_match; [apply safe_fail|apply safe_ret]. Qed.

Create HintDb safe.
#[local] Hint Resolve safe_ret safe_fail safe_get safe_lift safe_bail_if safe_usize : safe.

(** One syntactic step of a safety proof. *)
Local Ltac safe1 :=
  first
  [ solve [auto with safe]
  | apply safe_bind; [|intros ?]
  | apply safe_modify; intros ? ?; assumption
  | case_match ].
Local Ltac safe_auto := repeat safe1.

Lemma safe_push v : safe (push v).
Proof. unfold push. safe_auto. Qed.
Lemma safe_pop : safe pop.
Proof. unfold pop. safe_auto. Qed.
Lemma safe_ensure_memory n : safe (ensure_memory n).
Proof. unfold ensure_memory. safe_auto. Qed.
Lemma safe_mem_slice o n : safe (mem_slice o n).
Proof. unfold mem_slice. safe_auto. Qed.
Lemma safe_mem_write o d : safe (mem_write o d).
Proof. unfold mem_write. safe_auto. Qed.
#[local] Hint Resolve safe_push safe_pop safe_ensure_memory safe_mem_slice safe_mem_write : safe.

Lemma safe_copy_loop d mo so l : safe (copy_loop d mo so l).
Proof. induction l as [|i l IH]; simpl; safe_auto. Qed.
Lemma safe_validate_jumpdest e d : safe (validate_jumpdest e d).
Proof. unfold validate_jumpdest. safe_auto. Qed.
#[local] Hint Resolve safe_copy_loop safe_validate_jumpdest : safe.

Lemma safe_binop f : safe (binop f).
Proof. unfold binop. safe_auto. Qed.
Lemma safe_cmpop f : safe (cmpop f).
Proof. unfold cmpop. safe_auto. Qed.
Lemma safe_copy_op d : safe (copy_op d).
Proof. unfold copy_op. safe_auto. Qed.
#[local] Hint Resolve safe_binop safe_cmpop safe_copy_op : safe.

Hypothesis Hsload : forall w, safe (storage_sload st (slot_to_u64 w)).
Hypothesis Hsstore : safe sstore.

Lemma safe_next m : safe m -> safe (next m).
Proof. intros ?. unfold next. safe_auto. Qed.

Lemma safe_exec_op e op : safe (exec_op st e op).
Proof.
  unfold exec_op, jump, jumpi, pushn, dup, swap, peek, byte_op, shift_left, shift_right, mload,
    mstore, mstore8, sload, sha3, return_data, calldataload, calldatacopy, codecopy.
  destruct op; try apply safe_next; safe_auto.
Qed.
End Safe.

(** ** Termination *)

Section Termination.
Context `{U256} `{Keccak} (st : Storage).

(** The meter can pay for at most [n] more charges. *)
Definition lasts (n : Z) (_ : ContractStorage) (g : Gas.GasMeter) : Prop :=
  Gas.lasting g /\ Gas.costs g = Gas.GasCosts_default /\ Gas.charges_left g <= n.
Definition anything (_ : ContractStorage) (_ : Gas.GasMeter) : Prop := True.

Lemma consume_lasts amount n c g g' :
  0 < amount -> lasts n c g -> Gas.consume amount g = (Ok tt, g') -> lasts (n - 1) c g'.
Proof.
  intros Ha (Hl & Hc & Hn) Hr. destruct (Gas.consume_lasting amount g g' Hl Ha Hr) as [Hl' Hlt].
  split; [done|]. split; [|lia]. pose proof (Gas.consume_costs amount g) as E.
  rewrite Hr in E. simpl in E. congruence.
Qed.

Lemma lasts_mono n n' c g : lasts n c g -> n <= n' -> lasts n' c g.
Proof. intros (Hl & Hc & Hn) Hle. split; [done|]. split; [done|lia]. Qed.

Lemma safe_sload_lasts n slot : safe (lasts n) anything (storage_sload st slot).
Proof.
  intros s Hs. unfold wp, storage_sload, CS.sload, CS.meter, mbind, M_bind. simpl.
  unfold Gas.consume_sload, mbind, M_bind, get.
  destruct Hs as (Hl & Hc & Hn). rewrite Hc. simpl.
  destruct (Gas.consume 100 (gas_meter s)) as [[[]|er] g'] eqn:Hg; [|done].
  assert (on (lasts n) (set_gas g' s)) as Hg'.
  { apply lasts_mono with (n - 1); [|lia].
    by apply (consume_lasts 100 n (contract_storage s) (gas_meter s) g'). }
  unfold gets, lift, modify, mret, M_ret. simpl.
  repeat (simpl; first [done|case_match; simplify_eq/=]).
Qed.

Lemma safe_sstore_lasts n : safe (lasts n) anything sstore.
Proof.
  unfold sstore. apply safe_bind; [by apply safe_pop|intros slot].
  apply safe_bind; [by apply safe_pop|intros v].
  apply safe_bind; [|intros _; apply safe_modify; by intros s Hs].
  intros s Hs. unfold wp, charge, zoom, Gas.consume_sstore, mbind, M_bind, get.
  destruct (Gas.consume _ (gas_meter s)) as [[[]|er] g'] eqn:Hg; [|done].
  apply lasts_mono with (n - 1); [|lia]. destruct Hs as (Hl & Hc & Hn). rewrite Hc in Hg.
  by eapply (consume_lasts 5000); [|split; [|split]|].
Qed.

(** Every iteration that succeeds uses up a charge. *)
Lemma step_lasts n e op s o s' :
  on (lasts n) s -> step st e op s = (Ok o, s') -> on (lasts (n - 1)) s'.
Proof.
  intros Hs Hr. unfold step, mbind, M_bind, charge, zoom in Hr.
  destruct (Gas.consume 1 (gas_meter s)) as [[[]|er] g'] eqn:Hg; [|done].
  apply (consume_lasts 1 n (contract_storage s)) in Hg; [|lia|done].
  unfold modify in Hr.
  pose proof (safe_exec_op st (lasts (n - 1)) anything ltac:(done) (fun w => safe_sload_lasts _ _)
    (safe_sstore_lasts _) e op) as Hsafe.
  eapply (wp_ok _ _ _ _ _ _ (Hsafe (set_pc (pc s + 1) (set_gas g' s)) Hg)). exact Hr.
Qed.

Lemma run_lasts fuel e s :
  on (lasts (Z.of_nat fuel)) s -> run st fuel e s <> None.
Proof.
  revert s; induction fuel as [|fuel IH]; intros s Hs; simpl.
  - destruct Hs as (Hl & _ & Hn). apply Gas.lasting_charges_left in Hl. lia.
  - destruct (code e !! Z.to_nat (pc s)) as [op|]; [|done].
    destruct (step st e op s) as [[[d|]|er] s'] eqn:Hr; [done| |done].
    apply IH. apply (step_lasts _ _ _ _ _ _ Hs) in Hr.
    by replace (Z.of_nat fuel) with (Z.of_nat (S fuel) - 1) by lia.
Qed.

(** C38: Gas bounds the interpreter.  Every byte code, on every input and from
    every storage, stops within gas limit + 100 instructions (the meter looks
    at the limit only once per batch of 100 charges), loops included. *)
Theorem execute_terminates (e : Env) (cs : ContractStorage) (limit : Z) :
  in_range U64_MAX limit ->
  exists r s', execute st (Z.to_nat (limit + 100)) e cs (Gas.new limit) = Some (r, s').
Proof.
  intros Hl. unfold execute. case_bool_decide; [|by eexists _, _].
  destruct (run st (Z.to_nat (limit + 100)) e (start cs (Gas.new limit))) as [[r s']|] eqn:E;
    [by eexists _, _|].
  exfalso. apply run_lasts in E; [done|]. destruct (Gas.lasting_new limit Hl) as [? Hc].
  split; [done|]. split; [done|]. simpl. rewrite Hc. unfold in_range in Hl. lia.
Qed.
End Termination.

(** ** What an execution can do to the storage *)

Section Typed.
Context `{U256Laws} `{Keccak} (st : Storage).

Lemma slot_to_u64_mod k : slot_to_u64 k = word.unsigned k mod 2 ^ 64.
Proof.
  unfold slot_to_u64, U256_from. rewrite word.unsigned_and, word.unsigned_of_Z.
  change (word.wrap U64_MAX) with (Z.ones 64). rewrite Z.land_ones by lia.
  unfold word.wrap. apply Z.mod_small. pose proof (Z.mod_pos_bound (word.unsigned k) (2 ^ 64)).
  lia.
Qed.

Lemma slot_to_u64_range k : in_range U64_MAX (slot_to_u64 k).
Proof. rewrite slot_to_u64_mod. pose proof (Z.mod_pos_bound (word.unsigned k) (2 ^ 64)). mlia. Qed.

(** Slots of 64 bits with words of 32 bytes. *)
Definition words (m : gmap Z bytes) : Prop := map_Forall (fun k v => in_range U64_MAX k /\ length v = 32%nat) m.
Definition kept (a : bytes) (lim : Z) (c : ContractStorage) (g : Gas.GasMeter) : Prop :=
  ContractStorage.contract_address c = a /\ words (overlay c) /\ words (read_cache c) /\
  Gas.gas_limit g = lim /\ Gas.costs g = Gas.GasCosts_default.
(** The storage of contract [a] with a meter on which no error was raised, and
    after one: no more than the limit has been settled, and the numbers of
    the meter have not overflowed. *)
Definition typed (a : bytes) (lim : Z) (c : ContractStorage) (g : Gas.GasMeter) : Prop :=
  kept a lim c g /\ Gas.meter_ok g.
Definition typed_err (a : bytes) (lim : Z) (c : ContractStorage) (g : Gas.GasMeter) : Prop :=
  kept a lim c g /\ in_range U64_MAX (Gas.gas_used g) /\ in_range U64_MAX (Gas.batch_accumulator g).

Lemma typed_weaken a lim c g : typed a lim c g -> typed_err a lim c g.
Proof. intros [Hk Hg]. split; [done|]. unfold Gas.meter_ok in Hg. mlia. Qed.

Lemma length_to_be w : length (to_big_endian w) = 32%nat.
Proof. by rewrite to_be_spec, length_rev, length_to_le_bytes. Qed.

(** A charge, in the machine or in the storage. *)
Lemma consume_typed a lim c g amount :
  typed a lim c g -> 0 < amount ->
  match Gas.consume amount g with
  | (Ok _, g') => typed a lim c g'
  | (Err _, g') => typed_err a lim c g'
  end.
Proof.
  intros [(Ha & Ho & Hc & Hl & Ht) Hg] Hpos. pose proof (Gas.consume_bounds g amount Hg Hpos) as (El & Hu & Hb).
  pose proof (Gas.consume_costs amount g) as Et. destruct (Gas.consume amount g) as [[[]|er] g'] eqn:E; cbn [snd] in *.
  - destruct (Gas.consume_spec _ _ _ Hg Hpos E) as (Hok & _). split; [|done]. unfold kept. rewrite El, Et. by split_and!.
  - split; [|done]. unfold kept. rewrite El, Et. by split_and!.
Qed.

Lemma safe_charge_typed a lim op : (forall g, Gas.costs g = Gas.GasCosts_default -> exists n, 0 < n /\ op g = Gas.consume n g) ->
  safe (typed a lim) (typed_err a lim) (charge op).
Proof.
  intros Hop s Hs. unfold wp, charge, zoom. pose proof Hs as [(_ & _ & _ & _ & Ht) _].
  destruct (Hop _ Ht) as (n & Hn & ->). pose proof (consume_typed a lim _ _ n Hs Hn) as Hc.
  by destruct (Gas.consume n (gas_meter s)) as [[[]|er] g'].
Qed.

Lemma safe_sload_typed a lim slot : in_range U64_MAX slot ->
  safe (typed a lim) (typed_err a lim) (storage_sload st slot).
Proof.
  intros Hsl s Hs. unfold wp, storage_sload, CS.sload, CS.meter, mbind, M_bind. simpl.
  unfold Gas.consume_sload, mbind, M_bind, get. pose proof Hs as [(_ & _ & _ & _ & Ht) _]. rewrite Ht. simpl.
  pose proof (consume_typed a lim _ _ 100 Hs ltac:(lia)) as Hc.
  destruct (Gas.consume 100 (gas_meter s)) as [[[]|er] g']; [|done].
  unfold gets, lift, modify, mret, M_ret. simpl. pose proof (typed_weaken _ _ _ _ Hc) as Hc'.
  destruct (overlay _ !! slot); [done|]. destruct (read_cache _ !! slot); [done|].
  destruct Hc as [(Ha & Ho & Hr & Hl) Hg].
  destruct (CS.db_get _ _ _) as [[v|]|er]; [|simpl|done].
  - case_bool_decide; [|done]. split; [|done]. split; [done|]. split; [done|]. split; [by apply map_Forall_insert_2|done].
  - split; [|done]. split; [done|]. split; [done|]. split; [by apply map_Forall_insert_2|done].
Qed.

Lemma safe_sstore_typed a lim : safe (typed a lim) (typed_err a lim) sstore.
Proof.
  unfold sstore. apply safe_bind; [apply safe_pop, typed_weaken|intros slot].
  apply safe_bind; [apply safe_pop, typed_weaken|intros v]. apply safe_bind.
  - apply safe_charge_typed. intros g Hg. exists 5000. split; [lia|]. unfold Gas.consume_sstore, mbind, M_bind, get. by rewrite Hg.
  - intros _. apply safe_modify. intros s [(Ha & Ho & Hc & Hl) Hg].
    split; [|done]. split; [done|]. split; [|by split]. apply map_Forall_insert_2; [|done].
    split; [apply slot_to_u64_range|apply length_to_be].
Qed.

Lemma run_typed a lim fuel e s r s' :
  on (typed a lim) s -> run st fuel e s = Some (r, s') -> on (if is_ok r then typed a lim else typed_err a lim) s'.
Proof.
  revert s; induction fuel as [|fuel IH]; intros s Hs; simpl;
    (destruct (code e !! Z.to_nat (pc s)) as [op|]; [|intros; by simplify_eq]); [done|].
  assert (safe (typed a lim) (typed_err a lim) (step st e op)) as Hstep.
  { apply safe_bind; [|intros _; apply safe_bind; [by apply safe_modify|intros _]].
    - apply safe_charge_typed. intros g _. exists 1. split; [lia|done].
    - apply safe_exec_op; [apply typed_weaken|intros; apply safe_sload_typed, slot_to_u64_range|apply safe_sstore_typed]. }
  specialize (Hstep s Hs). unfold wp in Hstep.
  destruct (step st e op s) as [[[d|]|er] s1]; intros Hr; simplify_eq; eauto.
Qed.

(** C39: Whatever its byte code does, an execution leaves a storage of the same
    contract in which every overlay and cache entry is a 32-byte word at a
    slot of 64 bits, so the accessors and the root computation never meet a
    value of another length.  The meter keeps its limit and its costs; after
    a success no more than the limit has been settled, and after an error its
    numbers have not overflowed.  (It starts from such a storage, and from a
    meter with the default costs on which no error was raised.) *)
Theorem execute_storage_typed (fuel : nat) (e : Env) (cs : ContractStorage) (m : Gas.GasMeter)
    (r : result EvmError bytes) (s' : Vm) (a : bytes) (lim : Z) :
  typed a lim cs m -> execute st fuel e cs m = Some (r, s') ->
  (if is_ok r then typed a lim else typed_err a lim) (contract_storage s') (gas_meter s').
Proof.
  intros Ht. unfold execute. case_bool_decide; [|intros; simplify_eq; by apply typed_weaken].
  by apply run_typed.
Qed.
End Typed.

(** ** Running straight-line code *)

Section Straight.
Context `{U256Laws} `{Keccak} (st : Storage).

(** A default meter with limit [lim] that has charged [acc] in [cnt] parts. *)
Definition metered (lim acc cnt : Z) : Gas.GasMeter :=
  Gas.mkMeter lim 0 Gas.GasCosts_default acc cnt 100.

Lemma consume_metered a lim acc cnt :
  0 <= acc -> 0 <= a -> acc + a <= U64_MAX -> 0 <= cnt < 99 ->
  Gas.consume a (metered lim acc cnt) = (Ok tt, metered lim (acc + a) (cnt + 1)).
Proof.
  intros ? ? ? ?. unfold Gas.consume, mbind, M_bind, get, lift, modify, metered. simpl.
  unfold checked_add. destruct (Z.leb_spec (acc + a) U64_MAX); [|lia]. simpl.
  rewrite wrap_id by mlia. rewrite Z.geb_leb. destruct (Z.leb_spec 100 (cnt + 1)); [lia|done].
Qed.

Lemma run_end fuel e s :
  code e !! Z.to_nat (pc s) = None -> run st fuel e s = Some (Ok [], s).
Proof. destruct fuel; simpl; by intros ->. Qed.

(** One instruction under a meter far from its next commit. *)
Lemma run_op fuel e op p k mem cs lim acc cnt :
  code e !! Z.to_nat p = Some op ->
  0 <= acc < U64_MAX -> 0 <= cnt < 99 ->
  run st (S fuel) e (mkVm p k mem cs (metered lim acc cnt)) =
  match exec_op st e op (mkVm (p + 1) k mem cs (metered lim (acc + 1) (cnt + 1))) with
  | (Ok None, s') => run st fuel e s'
  | (Ok (Some d), s') => Some (Ok d, s')
  | (Err er, s') => Some (Err er, s')
  end.
Proof.
  intros Hop ? ?. cbn [run pc]. rewrite Hop.
  unfold step, charge, zoom, mbind, M_bind, modify. cbn [gas_meter].
  rewrite consume_metered by lia. done.
Qed.

(** The same, for an instruction that neither jumps nor ends. *)
Lemma run_op1 fuel e op pre post k mem cs lim acc cnt k' mem' cs' g' :
  code e = pre ++ [op] ++ post ->
  0 <= acc < U64_MAX -> 0 <= cnt < 99 ->
  (forall p, exec_op st e op (mkVm p k mem cs (metered lim (acc + 1) (cnt + 1))) =
     (Ok None, mkVm p k' mem' cs' g')) ->
  run st (S fuel) e (mkVm (Z.of_nat (length pre)) k mem cs (metered lim acc cnt)) =
  run st fuel e (mkVm (Z.of_nat (length (pre ++ [op]))) k' mem' cs' g').
Proof.
  intros Hc ? ? He. rewrite run_op with (op := op);
    [|by rewrite Hc, Nat2Z.id; apply list_lookup_middle|done..].
  rewrite He, length_app. simpl. do 2 f_equal. lia.
Qed.

Lemma from_to_be w : from_big_endian (to_big_endian w) = w.
Proof.
  apply Properties.word.unsigned_inj. rewrite from_be_spec by apply length_to_be.
  unfold be_value. rewrite to_be_spec, rev_involutive, from_to_le_bytes.
  apply Z.mod_small. change (256 ^ Z.of_nat 32) with (2 ^ 256).
  apply Properties.word.unsigned_range.
Qed.

(** The instruction [PUSH32 w]. *)
Definition push32 (w : uint) : bytes := x7f :: to_big_endian w.

Lemma length_push32 w : length (push32 w) = 33%nat.
Proof. simpl. by rewrite length_to_be. Qed.

Lemma exec_push32 e p k mem cs g :
  exec_op st e x7f (mkVm p k mem cs g) =
  if p + 32 >? Z.of_nat (length (code e)) then (Err PushExceedsCode, mkVm p k mem cs g)
  else (Ok None, mkVm (p + 32)
    (from_big_endian (take (Z.to_nat 32) (drop (Z.to_nat p) (code e))) :: k) mem cs g).
Proof.
  change (exec_op st e x7f) with (next (pushn e x7f)).
  unfold next, pushn, mbind, M_bind, get. change (byte_to_Z x7f - 95) with 32. cbn [pc].
  by destruct (p + 32 >? _).
Qed.

Lemma run_push32 fuel e w pre post k mem cs lim acc cnt :
  code e = pre ++ push32 w ++ post ->
  0 <= acc < U64_MAX -> 0 <= cnt < 99 ->
  run st (S fuel) e (mkVm (Z.of_nat (length pre)) k mem cs (metered lim acc cnt)) =
  run st fuel e (mkVm (Z.of_nat (length (pre ++ push32 w))) (w :: k) mem cs
    (metered lim (acc + 1) (cnt + 1))).
Proof.
  intros Hc ? ?.
  rewrite run_op with (op := x7f);
    [|by rewrite Hc, Nat2Z.id; apply list_lookup_middle|done..].
  rewrite exec_push32, Z.gtb_ltb.
  destruct (Z.ltb_spec (Z.of_nat (length (code e))) (Z.of_nat (length pre) + 1 + 32)) as [Hl|_].
  { rewrite Hc, !length_app, length_push32 in Hl. lia. }
  rewrite length_app, length_push32, Hc.
  replace (Z.to_nat (Z.of_nat (length pre) + 1)) with (length pre + 1)%nat by lia.
  replace (Z.of_nat (length pre) + 1 + 32) with (Z.of_nat (length pre + 33)) by lia.
  rewrite <- drop_drop, drop_app_length.
  change (drop 1 (push32 w ++ post)) with (to_big_endian w ++ post).
  change (Z.to_nat 32) with 32%nat.
  replace 32%nat with (length (to_big_endian w)) by apply length_to_be.
  by rewrite take_app_length, from_to_be.
Qed.

Lemma lookup_at (pre : bytes) op post c :
  c = pre ++ op :: post -> c !! Z.to_nat (Z.of_nat (length pre)) = Some op.
Proof. intros ->. rewrite Nat2Z.id. by apply list_lookup_middle. Qed.

(** Advance over the next instruction of the program in [Hc : code e = ...]. *)
Ltac at_code Hc := rewrite Hc, <- ?app_assoc; reflexivity.
Ltac run_push Hc := erewrite run_push32; [|at_code Hc|mlia..].
Tactic Notation "run_one" hyp(Hc) "by" tactic3(tac) :=
  erewrite run_op1; [|at_code Hc|mlia|mlia|intros ?; tac].

(** ** Storage access from byte code *)

Definition env_for (a : bytes) (prog : bytes) : Env := {|
  code := prog; calldata := []; contract_address := a; caller := a; value := 0;
  block_timestamp := 0 |}.

(** Store [v] in slot [k]. *)
Definition store_program (k v : uint) : bytes := push32 v ++ push32 k ++ [x55].

Lemma exec_sstore e p slot v k mem cs lim acc cnt :
  0 <= acc -> acc + 5000 <= U64_MAX -> 0 <= cnt < 99 ->
  exec_op st e x55 (mkVm p (slot :: v :: k) mem cs (metered lim acc cnt)) =
  (Ok None, mkVm p k mem (mkCS (ContractStorage.contract_address cs)
     (<[slot_to_u64 slot := to_big_endian v]> (overlay cs)) (read_cache cs))
     (metered lim (acc + 5000) (cnt + 1))).
Proof.
  intros ? ? ?. change (exec_op st e x55) with (next sstore).
  unfold next, sstore, charge, zoom, Gas.consume_sstore, pop, modify, mbind, M_bind, get, mret, M_ret.
  cbn [stack set_stack pc memory contract_storage gas_meter].
  change (Gas.sstore_update _) with 5000.
  by rewrite consume_metered by lia.
Qed.

(** The overlay after a store. *)
Definition stored_in (k v : uint) (cs : ContractStorage) : ContractStorage :=
  mkCS (ContractStorage.contract_address cs)
    (<[word.unsigned k mod 2 ^ 64 := to_big_endian v]> (overlay cs)) (read_cache cs).

Lemma run_store e k v rest cs lim fuel :
  code e = store_program k v ++ rest ->
  run st (S (S (S fuel))) e (start cs (Gas.new lim)) =
  run st fuel e (mkVm (Z.of_nat (length (store_program k v))) [] [] (stored_in k v cs)
    (metered lim 5003 4)).
Proof.
  intros Hcode. unfold start. change (Gas.new lim) with (metered lim 0 0).
  change 0 with (Z.of_nat (length (@nil byte))) at 1.
  assert (code e = push32 v ++ push32 k ++ [x55] ++ rest) as Hc.
  { rewrite Hcode. unfold store_program. by rewrite <- !app_assoc. }
  run_push Hc. run_push Hc. run_one Hc by (apply exec_sstore; mlia).
  unfold store_program, stored_in.
  by rewrite !length_app, !length_push32, slot_to_u64_mod.
Qed.

(** A store followed by a revert with no data. *)
Definition store_revert_program (k v : uint) : bytes :=
  store_program k v ++ push32 U256_zero ++ push32 U256_zero ++ [xfd].

(** Byte code can write every storage slot, those of the base contract
    included.  For any slot word and value, three instructions leave the
    contract's logical storage equal to the old one except at the slot number
    taken modulo 2^64, which holds exactly the value (zero too), so that
    slots equal modulo 2^64 are one cell, and no test of reserved slots
    applies. *)
Theorem evm_sstore_any_slot (k v : uint) (cs : ContractStorage) (lim : Z) (a : bytes) :
  length a = 32%nat -> ContractStorage.contract_address cs = a ->
  exists s', execute st 3 (env_for a (store_program k v)) cs (Gas.new lim) = Some (Ok [], s') /\
    forall i, CS.view_cs st (contract_storage s') i =
      if decide (i = word.unsigned k mod 2 ^ 64) then to_big_endian v else CS.view_cs st cs i.
Proof.
  intros Ha Hcs. unfold execute. rewrite bool_decide_eq_true_2 by done.
  rewrite (run_store _ k v []) by (by rewrite app_nil_r).
  rewrite run_end; [|apply lookup_ge_None_2; unfold store_program; cbn [code env_for];
    rewrite !length_app, !length_push32; done].
  eexists. split; [done|]. intros i. unfold CS.view_cs, stored_in. simpl. case_decide as Hi.
  - by rewrite Hi, lookup_insert_eq.
  - by rewrite lookup_insert_ne.
Qed.

(** [return_data] from offset zero of a memory that is large enough. *)
Lemma return_data_prefix p off size k mem cs g n :
  word.unsigned off = 0 -> word.unsigned size = Z.of_nat n -> (n <= length mem)%nat ->
  Z.of_nat (length mem) <= ISIZE_MAX ->
  return_data (mkVm p (off :: size :: k) mem cs g) = (Ok (take n mem), mkVm p k mem cs g).
Proof.
  intros Hoff Hsize Hn Hm. unfold ISIZE_MAX in Hm.
  unfold return_data, pop, u256_to_usize, ensure_memory, mem_slice, get, modify,
    mbind, M_bind, mret, M_ret, fail. cbn [stack set_stack]. rewrite Hoff. cbn [stack set_stack].
  change (0 >? U64_MAX) with false. cbn [stack set_stack]. rewrite Hsize, Z.gtb_ltb.
  destruct (Z.ltb_spec U64_MAX (Z.of_nat n)); [mlia|].
  cbn [memory set_stack]. replace (saturating_add U64_MAX 0 (Z.of_nat n)) with (Z.of_nat n) by mlia.
  destruct (Z.ltb_spec (Z.of_nat (length mem)) (Z.of_nat n)); [lia|].
  cbn [memory set_stack]. replace (wrap U64_MAX (0 + Z.of_nat n)) with (Z.of_nat n) by mlia.
  destruct (Z.ltb_spec (Z.of_nat n) 0); [lia|].
  destruct (Z.ltb_spec (Z.of_nat (length mem)) (Z.of_nat n)); [lia|].
  cbn [orb]. by rewrite Nat2Z.id.
Qed.

Lemma unsigned_U256_from z : 0 <= z < 2 ^ 256 -> word.unsigned (U256_from z) = z.
Proof. intros ?. unfold U256_from. rewrite word.unsigned_of_Z. by apply Z.mod_small. Qed.

(** A revert undoes nothing: the write stays in the overlay. *)
Lemma run_store_revert e k v cs lim fuel :
  code e = store_revert_program k v ->
  exists p, run st (S (S (S (S (S (S fuel)))))) e (start cs (Gas.new lim)) =
    Some (Err (Revert []), mkVm p [] [] (stored_in k v cs) (metered lim 5006 7)).
Proof.
  intros Hc. unfold store_revert_program in Hc.
  rewrite (run_store _ k v (push32 U256_zero ++ push32 U256_zero ++ [xfd])) by done.
  run_push Hc. run_push Hc.
  rewrite (run_op _ e xfd); [|eapply lookup_at; at_code Hc|mlia..].
  change (exec_op st e xfd) with (d ← return_data; fail (Revert d) : V (option bytes)).
  unfold mbind, M_bind. rewrite (return_data_prefix _ _ _ _ _ _ _ 0);
    [|by apply unsigned_U256_from..|simpl; lia|done].
  eexists. reflexivity.
Qed.

(** ** Arithmetic *)

(** The two's complement reading of a 256-bit value. *)
Definition to_signed (z : Z) : Z := if z <? 2 ^ 255 then z else z - 2 ^ 256.

(** What the two-operand instructions compute on values: [a] is the operand
    pushed first, [b] the one on top of the stack. *)
Definition denote (op : byte) (a b : Z) : option Z :=
  match op with
  | x01 => Some ((a + b) mod 2 ^ 256)
  | x02 => Some ((a * b) mod 2 ^ 256)
  | x03 => Some ((a - b) mod 2 ^ 256)
  | x04 => Some (if b =? 0 then 0 else a / b)
  | x06 => Some (if b =? 0 then 0 else a mod b)
  | x10 => Some (Z.b2z (a <? b))
  | x11 => Some (Z.b2z (b <? a))
  | x12 => Some (Z.b2z (to_signed a <? to_signed b))
  | x13 => Some (Z.b2z (to_signed b <? to_signed a))
  | x14 => Some (Z.b2z (a =? b))
  | x16 => Some (Z.land a b)
  | x17 => Some (Z.lor a b)
  | x18 => Some (Z.lxor a b)
  | _ => None
  end.

Lemma unsigned_zero : word.unsigned U256_zero = 0.
Proof. by apply unsigned_U256_from. Qed.

Lemma is_zero256_spec w : is_zero256 w = (word.unsigned w =? 0).
Proof. unfold is_zero256. by rewrite word.unsigned_eqb, unsigned_zero. Qed.

Lemma land_pow2 z n : 0 <= n -> Z.land z (2 ^ n) = if Z.testbit z n then 2 ^ n else 0.
Proof.
  intros Hn. apply Z.bits_inj'. intros i Hi. rewrite Z.land_spec, Z.pow2_bits_eqb by done.
  destruct (Z.eqb_spec n i) as [<-|Hne].
  - destruct (Z.testbit z n); simpl; [by rewrite Z.pow2_bits_true|by rewrite Z.bits_0].
  - rewrite andb_false_r. destruct (Z.testbit z n); [|by rewrite Z.bits_0].
    by rewrite Z.pow2_bits_false.
Qed.

(** The test of the sign bit is a comparison with 2^255. *)
Lemma negative_spec w :
  negb (is_zero256 (word.and w sign_bit)) = (2 ^ 255 <=? word.unsigned w).
Proof.
  assert (word.unsigned sign_bit = 2 ^ 255) as Hs.
  { unfold sign_bit, U256_one. rewrite word.unsigned_slu; rewrite !word.unsigned_of_Z; done. }
  pose proof (Properties.word.unsigned_range w) as Hr.
  rewrite is_zero256_spec, word.unsigned_and, Hs, land_pow2 by lia.
  rewrite Z.testbit_odd, Z.shiftr_div_pow2 by lia.
  destruct (Z.leb_spec (2 ^ 255) (word.unsigned w)).
  - replace (word.unsigned w / 2 ^ 255) with 1; [done|].
    apply (Z.div_unique_pos _ _ _ (word.unsigned w - 2 ^ 255)); lia.
  - rewrite Z.div_small by lia. done.
Qed.

Lemma signed_lt_spec a b :
  signed_lt a b = (to_signed (word.unsigned a) <? to_signed (word.unsigned b)).
Proof.
  unfold signed_lt. rewrite !negative_spec, word.unsigned_ltu. unfold to_signed.
  pose proof (Properties.word.unsigned_range a). pose proof (Properties.word.unsigned_range b).
  destruct (Z.leb_spec (2 ^ 255) (word.unsigned a)), (Z.leb_spec (2 ^ 255) (word.unsigned b)),
    (Z.ltb_spec (word.unsigned a) (2 ^ 255)), (Z.ltb_spec (word.unsigned b) (2 ^ 255)); try lia;
    simpl; lia.
Qed.

Lemma signed_gt_spec a b : signed_gt a b = signed_lt b a.
Proof.
  unfold signed_gt, signed_lt, word.gtu. rewrite !negative_spec.
  by destruct (2 ^ 255 <=? word.unsigned a), (2 ^ 255 <=? word.unsigned b).
Qed.

Lemma unsigned_bool (c : bool) :
  word.unsigned (if c then U256_one else U256_zero) = Z.b2z c.
Proof. destruct c; by apply unsigned_U256_from. Qed.

(** Each two-operand instruction implements its [denote]. *)
Lemma exec_denote e op z a b :
  denote op (word.unsigned a) (word.unsigned b) = Some z ->
  exists w, word.unsigned w = z /\ forall p k mem cs g,
    exec_op st e op (mkVm p (b :: a :: k) mem cs g) = (Ok None, mkVm p (w :: k) mem cs g).
Proof.
  pose proof (Properties.word.unsigned_range a) as Ha. pose proof (Properties.word.unsigned_range b) as Hb.
  intros Hd. destruct op; try discriminate Hd; injection Hd as <-; eexists; (split; [|reflexivity]);
    cbv beta; rewrite ?unsigned_bool, ?is_zero256_spec, ?signed_gt_spec, ?signed_lt_spec;
    unfold word.gtu; rewrite ?word.unsigned_ltu, ?word.unsigned_eqb, ?word.unsigned_add,
      ?word.unsigned_mul, ?word.unsigned_sub, 
      ?Properties.word.unsigned_and_nowrap, ?Properties.word.unsigned_or_nowrap,
      ?Properties.word.unsigned_xor_nowrap;
    unfold word.wrap; try done.
  - destruct (Z.eqb_spec (word.unsigned b) 0); [apply unsigned_zero|].
    rewrite word.unsigned_divu by done. apply Z.mod_small. split; [apply Z.div_pos; lia|].
    apply Z.div_lt_upper_bound; nia.
  - destruct (Z.eqb_spec (word.unsigned b) 0); [apply unsigned_zero|].
    rewrite word.unsigned_modu by done. apply Z.mod_small.
    pose proof (Z.mod_pos_bound (word.unsigned a) (word.unsigned b)). lia.
Qed.

(** [PUSH32 a; PUSH32 b; op], then return the word on top of the stack. *)
Definition binary_program (op : byte) (a b : uint) : bytes :=
  push32 a ++ push32 b ++ [op] ++ push32 U256_zero ++ [x52] ++
  push32 (U256_from 32) ++ push32 U256_zero ++ [xf3].

Lemma exec_mstore_first e p off v k cs g :
  word.unsigned off = 0 ->
  exec_op st e x52 (mkVm p (off :: v :: k) [] cs g) =
  (Ok None, mkVm p k (to_big_endian v) cs g).
Proof.
  intros Hoff. change (exec_op st e x52) with (next mstore).
  unfold next, mstore, u256_to_usize, pop, mbind, M_bind, get, modify, mret, M_ret.
  cbn [stack set_stack]. rewrite Hoff. change (0 >? U64_MAX) with false. cbn [stack set_stack].
  change (saturating_add U64_MAX 0 32) with 32.
  unfold ensure_memory, mem_write, mbind, M_bind, get, modify. cbn [memory set_stack].
  change (Z.of_nat (length (@nil byte)) <? 32) with true. cbn [andb].
  change (32 >? ISIZE_MAX) with false. cbn [memory set_memory]. rewrite length_to_be.
  unfold set_memory, set_stack. cbn [pc stack memory contract_storage gas_meter].
  change (wrap U64_MAX (0 + Z.of_nat 32)) with 32. simpl. by rewrite app_nil_r.
Qed.

(** A two-operand instruction, run end to end (operands pushed, result
    stored to memory and returned), computes its arithmetic meaning, with the
    operand pushed first on the left: subtraction, division, remainder and
    the comparisons take their operands in the opposite order to the Yellow
    Paper's, where the top of the stack is on the left. *)
Theorem binary_program_correct (op : byte) (a b : uint) (z : Z)
    (cs : ContractStorage) (lim : Z) (addr : bytes) :
  length addr = 32%nat -> denote op (word.unsigned a) (word.unsigned b) = Some z ->
  exists s', execute st 8 (env_for addr (binary_program op a b)) cs (Gas.new lim) =
    Some (Ok (rev (to_le_bytes 32 z)), s') /\ contract_storage s' = cs.
Proof.
  intros Haddr Hd. unfold execute. rewrite bool_decide_eq_true_2 by done.
  unfold start. change (Gas.new lim) with (metered lim 0 0).
  change 0 with (Z.of_nat (length (@nil byte))) at 1.
  set (e := env_for _ _). assert (code e = binary_program op a b) as Hc by done.
  unfold binary_program in Hc.
  destruct (exec_denote e op z a b Hd) as (w & Hw & He).
  run_push Hc. run_push Hc. run_one Hc by (apply He).
  run_push Hc. run_one Hc by (apply exec_mstore_first, unsigned_zero).
  run_push Hc. run_push Hc.
  rewrite (run_op _ e xf3); [|eapply lookup_at; at_code Hc|mlia..].
  change (exec_op st e xf3) with (d ← return_data; mret (Some d) : V (option bytes)).
  unfold mbind, M_bind. rewrite (return_data_prefix _ _ _ _ _ _ _ 32);
    [|apply unsigned_zero|by apply unsigned_U256_from|rewrite length_to_be; done..].
  cbv beta iota. rewrite firstn_all2 by (rewrite length_to_be; done).
  rewrite to_be_spec, Hw. eexists. split; reflexivity.
Qed.

(** The memory has no gas cost and no bound of its own.  A two-instruction
    program that loads from an offset [o]: above [u64] it is an error, with
    [o + 32] beyond [isize::MAX] it panics whatever the gas limit, and below
    that it grows the memory to [o + 32] bytes for one unit of gas. *)
Theorem mload_offset_unchecked (o : uint) (cs : ContractStorage) (lim : Z) (addr : bytes) :
  length addr = 32%nat ->
  exists s', execute st 2 (env_for addr (push32 o ++ [x51])) cs (Gas.new lim) =
    Some (if word.unsigned o >? U64_MAX then Err TooLargeForUsize
          else if word.unsigned o + 32 >? ISIZE_MAX then Err Panic else Ok [], s') /\
    (word.unsigned o + 32 <= ISIZE_MAX ->
     Z.of_nat (length (memory s')) = word.unsigned o + 32 /\ Gas.total_used (gas_meter s') = 2).
Proof.
  intros Haddr. unfold execute. rewrite bool_decide_eq_true_2 by done.
  unfold start. change (Gas.new lim) with (metered lim 0 0).
  change 0 with (Z.of_nat (length (@nil byte))) at 1.
  set (e := env_for _ _). assert (code e = push32 o ++ [x51]) as Hc by done.
  run_push Hc. rewrite (run_op _ e x51); [|eapply lookup_at; at_code Hc|mlia..].
  pose proof (Properties.word.unsigned_range o) as Hr.
  change (exec_op st e x51) with (next mload).
  unfold next, mload, u256_to_usize, pop, ensure_memory, mem_slice, mbind, M_bind, get, modify, mret, M_ret, fail.
  cbn [stack set_stack]. rewrite !Z.gtb_ltb. unfold ISIZE_MAX.
  destruct (Z.ltb_spec U64_MAX (word.unsigned o)); [eexists; split; [done|mlia]|].
  cbn [memory set_stack]. rewrite Z.gtb_ltb.
  destruct (Z.ltb_spec (Z.of_nat (length (@nil byte))) (saturating_add U64_MAX (word.unsigned o) 32));
    [|simpl in *; mlia].
  destruct (Z.ltb_spec 9223372036854775807 (saturating_add U64_MAX (word.unsigned o) 32)),
    (Z.ltb_spec 9223372036854775807 (word.unsigned o + 32)); try (exfalso; mlia);
    [eexists; split; [done|lia]|].
  replace (saturating_add U64_MAX (word.unsigned o) 32) with (word.unsigned o + 32) by mlia.
  replace (wrap U64_MAX (word.unsigned o + 32)) with (word.unsigned o + 32) by mlia.
  destruct (Z.ltb_spec (word.unsigned o + 32) (word.unsigned o)); [lia|].
  cbn [orb memory set_memory]. rewrite length_app, length_zeros.
  replace (Z.of_nat (length (@nil byte) + (Z.to_nat (word.unsigned o + 32) - length (@nil byte))))
    with (word.unsigned o + 32) by (simpl length; lia). rewrite Z.ltb_irrefl.
  cbv beta iota. unfold push, modify. rewrite run_end.
  - eexists. split; [reflexivity|]. intros _. cbn -[zeros]. rewrite length_zeros. split; [lia|done].
  - apply lookup_ge_None_2. rewrite Hc. cbn [pc set_stack set_memory].
    rewrite !length_app, length_push32. simpl length. lia.
Qed.

(** Byte code can take the contract over.  The program that stores a word
    in slot 0 makes that word the owner the base contract reports, without
    the caller being the owner and with the old owner not asked. *)
Theorem evm_overwrites_owner (v : uint) (cs : ContractStorage) (lim : Z) (addr : bytes) :
  length addr = 32%nat ->
  exists s', execute st 3 (env_for addr (store_program U256_zero v)) cs (Gas.new lim) =
      Some (Ok [], s') /\
    forall es, es_cs es = contract_storage s' -> es_gas es = None ->
      fst (Base.get_owner st es) = Ok (to_big_endian v).
Proof.
  intros Ha. unfold execute. rewrite bool_decide_eq_true_2 by done.
  rewrite (run_store _ U256_zero v []) by (by rewrite app_nil_r).
  rewrite run_end; [|apply lookup_ge_None_2; unfold store_program; cbn [code env_for];
    rewrite !length_app, !length_push32; done].
  eexists. split; [done|]. intros es Hes Hg. cbn [contract_storage] in Hes. unfold stored_in in Hes.
  unfold Base.get_owner, CS.sload, CS.meter, mbind, M_bind, gets, mret, M_ret, bail_if, fail.
  rewrite Hg, Hes. cbn [overlay]. rewrite unsigned_zero. change (0 mod 2 ^ 64) with 0.
  unfold Base.SLOT_OWNER. rewrite lookup_insert_eq. cbn [fst].
  by rewrite bool_decide_eq_true_2 by apply length_to_be.
Qed.

(** A jump that succeeds lands on a [JUMPDEST] byte; so does [jumpi] when its
    condition is not zero, and otherwise it leaves the program counter. *)
Lemma jump_lands e s s' :
  jump e s = (Ok tt, s') -> code e !! Z.to_nat (pc s') = Some x5b.
Proof.
  unfold jump, pop, u256_to_usize, validate_jumpdest, bail_if, mbind, M_bind, get, modify, mret, M_ret, fail.
  destruct (stack s) as [|w k]; [done|]. destruct (word.unsigned w >? U64_MAX); [done|].
  destruct (code e !! Z.to_nat (word.unsigned w)) as [op|] eqn:Hop; [|done].
  destruct (Byte.eqb op x5b) eqn:Eb; [|done]. intros [= <-]. simpl.
  apply Byte.byte_dec_bl in Eb. congruence.
Qed.

Lemma jumpi_lands e s s' :
  jumpi e s = (Ok tt, s') -> pc s' = pc s \/ code e !! Z.to_nat (pc s') = Some x5b.
Proof.
  unfold jumpi, pop, u256_to_usize, validate_jumpdest, bail_if, mbind, M_bind, get, modify, mret, M_ret, fail.
  destruct (stack s) as [|w [|c k]]; [done| |]; destruct (word.unsigned w >? U64_MAX); try done.
  cbn [stack set_stack]. destruct (is_zero256 c); [intros [= <-]; by left|].
  destruct (code e !! Z.to_nat (word.unsigned w)) as [op|] eqn:Hop; [|done].
  simpl. destruct (Byte.eqb op x5b) eqn:Eb; [|done]. intros [= <-]. right. simpl.
  apply Byte.byte_dec_bl in Eb. congruence.
Qed.

End Straight.

(** ** A concrete word type, and witnesses *)

#[global] Instance U256_naive : U256 := {|
  uint := word256;
  from_big_endian := fun l => word.of_Z (be_value l);
  to_big_endian := fun w => rev (to_le_bytes 32 (word.unsigned w));
|}.

#[global] Instance U256_naive_laws : U256Laws.
Proof.
  split; [apply Naive.gen_ok; done| |done].
  intros l Hl. change (be_value l mod 2 ^ 256 = be_value l). apply Z.mod_small.
  unfold be_value. pose proof (from_le_bytes_range (rev l)) as Hr.
  rewrite length_rev, Hl in Hr. exact Hr.
Qed.

#[local] Existing Instance keccak_toy.

Definition w256 (z : Z) : uint := word.of_Z z.
Definition no_db : Storage := CS.mem_storage ∅.
Definition cs0 : ContractStorage := mkCS CS.addr0 ∅ ∅.

(** [JUMPDEST; PUSH1 0; JUMP]: a loop that only the meter ends. *)
Definition loop_program : bytes := [x5b; x60; x00; x56].

Lemma execute_terminates_witness :
  exists r s', execute no_db (Z.to_nat (500 + 100)) (env_for CS.addr0 loop_program) cs0
    (Gas.new 500) = Some (r, s').
Proof. apply (execute_terminates no_db (env_for CS.addr0 loop_program) cs0 500). done. Defined.

Lemma execute_storage_typed_witness :
  match execute no_db 3 (env_for CS.addr0 (store_program (w256 7) (w256 9))) cs0 (Gas.new 9000) with
  | Some (_, s) => typed CS.addr0 9000 (contract_storage s) (gas_meter s)
  | None => False
  end.
Proof.
  pose proof (execute_storage_typed no_db 3
    (env_for CS.addr0 (store_program (w256 7) (w256 9))) cs0 (Gas.new 9000)) as H.
  assert (option_map (fun p => is_ok p.1) (execute no_db 3
    (env_for CS.addr0 (store_program (w256 7) (w256 9))) cs0 (Gas.new 9000)) = Some true) as Hs
    by (vm_compute; reflexivity).
  revert H Hs. generalize (execute no_db 3
    (env_for CS.addr0 (store_program (w256 7) (w256 9))) cs0 (Gas.new 9000)).
  intros [[r s]|] H Hs; [|discriminate Hs]. injection Hs as Hs. cbn [fst] in Hs.
  specialize (H r s CS.addr0 9000). rewrite Hs in H. apply H; [|reflexivity].
  split; [split; [reflexivity|]; split; [apply map_Forall_empty|]; split; [apply map_Forall_empty|done]|]. apply (Gas.lasting_new 9000). vm_compute. split; discriminate.
Defined.

Lemma evm_sstore_any_slot_witness :
  exists s', execute no_db 3 (env_for CS.addr0 (store_program (w256 (2 ^ 64 + 4)) (w256 1))) cs0
      (Gas.new 0) = Some (Ok [], s') /\
    CS.view_cs no_db (contract_storage s') 4 = zeros 31 ++ [x01].
Proof.
  destruct (evm_sstore_any_slot no_db (w256 (2 ^ 64 + 4)) (w256 1) cs0 0 CS.addr0)
    as (s' & H & Hv); [done..|].
  exists s'. split; [exact H|]. rewrite Hv. vm_compute. reflexivity.
Defined.

Lemma binary_program_correct_witness :
  exists s', execute no_db 8 (env_for CS.addr0 (binary_program x03 (w256 7) (w256 5))) cs0
    (Gas.new 100) = Some (Ok (zeros 31 ++ [x02]), s') /\ contract_storage s' = cs0.
Proof.
  exact (binary_program_correct no_db x03 (w256 7) (w256 5) 2 cs0 100 CS.addr0 eq_refl eq_refl).
Defined.

Lemma mload_offset_unchecked_witness :
  exists s', execute no_db 2 (env_for CS.addr0 (push32 (w256 (2 ^ 63)) ++ [x51])) cs0 (Gas.new 100) =
    Some (Err Panic, s').
Proof.
  destruct (mload_offset_unchecked no_db (w256 (2 ^ 63)) cs0 100 CS.addr0 eq_refl) as (s' & H & _).
  exists s'. exact H.
Defined.

Lemma evm_overwrites_owner_witness :
  exists s', execute no_db 3 (env_for CS.addr0 (store_program U256_zero (w256 66))) cs0 (Gas.new 0) =
      Some (Ok [], s') /\
    fst (Base.get_owner no_db (mkES (contract_storage s') None [] [])) = Ok (zeros 31 ++ [x42]).
Proof.
  destruct (evm_overwrites_owner no_db (w256 66) cs0 0 CS.addr0 eq_refl) as (s' & H & Ho).
  exists s'. split; [exact H|]. by apply (Ho (mkES (contract_storage s') None [] [])).
Defined.

End Evm.
