(* ===== verification/StorageRoot.v ===== *)
(** * Committing a contract's storage, and its root

    [commit_contract_storage_overlay] of [savitri-storage/src/storage/mod.rs]
    and [compute_storage_root] of
    [Savitri-contracts/src/contracts/storage.rs].

    [Db] is the part of the database the call executor writes: contract
    records and accounts by address, and the [contracts] column family by raw
    key.  A column family iterates in the lexicographic order of its keys
    (RocksDB's default comparator).  SHA-512 is a parameter. *)

From S2P Require Import Prelude OrdMap Gas ContractStorage Codec.
From Stdlib Require Import Strings.Byte.

Module Root.
Import CS.

Record Db := mkDb {
  db_contracts : gmap bytes bytes;
  db_accounts : gmap bytes bytes;
  db_slots : gmap bytes bytes;
}.

Definition as_storage (db : Db) : Storage := mem_storage (db_slots db).

Definition key_le (p q : bytes * bytes) : Prop := lex_leb p.1 q.1 = true.
#[global] Instance key_le_dec p q : Decision (key_le p q).
Proof. unfold key_le. apply _. Defined.

(** [iterator_cf("contracts")]: every entry of the column family. *)
Definition iterator_cf (slots : gmap bytes bytes) : list (bytes * bytes) :=
  merge_sort key_le (map_to_list slots).

(** One slot of [commit_contract_storage_overlay]. *)
Definition commit_slot (address : bytes) (slots : gmap bytes bytes) (sv : Z * bytes) : gmap bytes bytes :=
  let key := make_storage_key address sv.1 in
  if is_zero sv.2 then delete key slots else <[key := sv.2]> slots.

Definition commit_contract_storage_overlay (address : bytes) (ov : gmap Z bytes) (db : Db) : Db :=
  mkDb (db_contracts db) (db_accounts db)
    (fold_left (commit_slot address) (btree_iter ov) (db_slots db)).

(** [key.starts_with(prefix)]. *)
Definition starts_with (key prefix : bytes) : bool := bool_decide (take (length prefix) key = prefix).

Inductive Step := UseDb | UseOv | UseBoth | Done.

(** The choice of the merge loop from the pending database key, if it belongs
    to the contract, and the pending overlay slot. *)
Definition choose (prefix : bytes) (db_key : option bytes) (ov_slot : option Z) : Step :=
  match db_key, ov_slot with
  | None, None => Done
  | None, Some _ => UseOv
  | Some _, None => UseDb
  | Some k, Some s =>
      if (length k <? length prefix + 8)%nat then UseOv
      else
        let db_slot := from_le_bytes (take 8 (drop (length prefix) k)) in
        match db_slot ?= s with Lt => UseDb | Gt => UseOv | Eq => UseBoth end
  end.

(** The slots hashed, in order.  [None]: a key too short is sliced, or the
    fuel is spent; [merge_fuel] is always enough. *)
Fixpoint merge (fuel : nat) (prefix : bytes) (db : list (bytes * bytes)) (ov : list (Z * bytes)) :
    option (list (Z * bytes)) :=
  match fuel with
  | O => None
  | S fuel' =>
      let db_key := match db with
        | (k, _) :: _ => if starts_with k prefix then Some k else None
        | [] => None
        end in
      match choose prefix db_key (fst <$> head ov), db, ov with
      | Done, _, _ => Some []
      | UseOv, _, sv :: ov' => (sv ::.) <$> merge fuel' prefix db ov'
      | UseOv, _, [] => merge fuel' prefix db []
      | UseDb, (k, v) :: db', _ =>
          if (length k <? length prefix + 8)%nat then None
          else ((from_le_bytes (take 8 (drop (length prefix) k)), v) ::.)
                 <$> merge fuel' prefix db' ov
      | UseDb, [], _ => merge fuel' prefix [] ov
      | UseBoth, _ :: db', sv :: ov' => (sv ::.) <$> merge fuel' prefix db' ov'
      | UseBoth, _, _ => None
      end
  end.

Definition merge_fuel (db : list (bytes * bytes)) (ov : list (Z * bytes)) : nat :=
  S (length db + length ov).

Section Hash.
Context `{Sha512}.

(** [add_slot_to_hasher]: the leaf fed to the root hasher. *)
Definition leaf (sv : Z * bytes) : bytes :=
  sha512 (bytes_of_string "CONTRACT-STORAGE-LEAF" ++ to_le_bytes 8 sv.1 ++ sv.2).

Definition root_of (leaves : list (Z * bytes)) : bytes :=
  take 32 (sha512 (sha512 (bytes_of_string "CONTRACT-STORAGEv1") ++ mjoin (leaf <$> leaves))).

Definition hashed_slots (cs : ContractStorage) (slots : gmap bytes bytes) : option (list (Z * bytes)) :=
  let db := iterator_cf slots in
  let ov := btree_iter (overlay cs) in
  merge (merge_fuel db ov) (make_storage_prefix (contract_address cs)) db ov.

(** [compute_storage_root]. *)
Definition compute_storage_root (cs : ContractStorage) (slots : gmap bytes bytes) : option bytes :=
  root_of <$> hashed_slots cs slots.
End Hash.

(** ** The commit *)

(** Every slot number fits [u64] and every value is a word. *)
Definition overlay_ok (ov : gmap Z bytes) : Prop :=
  map_Forall (fun k v => in_range U64_MAX k /\ length v = 32%nat) ov.

#[global] Instance overlay_ok_dec ov : Decision (overlay_ok ov).
Proof. unfold overlay_ok, in_range. apply _. Defined.

Lemma fold_commit address l slots k :
  length address = 32%nat -> NoDup l.*1 -> Forall (fun sv => in_range U64_MAX sv.1) l ->
  in_range U64_MAX k ->
  fold_left (commit_slot address) l slots !! make_storage_key address k =
  match list_to_map (M := gmap Z bytes) l !! k with
  | Some v => if is_zero v then None else Some v
  | None => slots !! make_storage_key address k
  end.
Proof.
  intros Ha. revert slots; induction l as [|[s v] l IH]; intros slots Hnd Hl Hk; [done|].
  simpl in Hnd. apply NoDup_cons in Hnd as [Hs Hnd]. inversion Hl as [|? ? Hs0 Hl']; subst.
  simpl fold_left. rewrite IH by done. simpl list_to_map.
  assert (make_storage_key address s = make_storage_key address k <-> s = k) as Hinj.
  { rewrite make_storage_key_inj by done. naive_solver. }
  destruct (decide (s = k)) as [->|Hne].
  - rewrite lookup_insert_eq. replace (list_to_map l !! k) with (@None bytes)
      by (symmetry; by apply not_elem_of_list_to_map_1).
    unfold commit_slot. simpl. destruct (is_zero v); [apply lookup_delete_eq|apply lookup_insert_eq].
  - rewrite lookup_insert_ne by done. destruct (list_to_map l !! k); [done|].
    unfold commit_slot. simpl. destruct (is_zero v); [apply lookup_delete_ne|apply lookup_insert_ne];
      naive_solver.
Qed.

(** Committing makes the contract's logical storage durable.  After the
    commit the database holds, for every slot of the contract, what a read
    through the overlay returned before it, and no key of another contract
    has changed. *)
Theorem commit_makes_durable (db : Db) (cs : ContractStorage) (k : Z) (key : bytes) :
  length (contract_address cs) = 32%nat -> overlay_ok (overlay cs) -> in_range U64_MAX k ->
  db_ok (as_storage db) (contract_address cs) ->
  db_value (as_storage (commit_contract_storage_overlay (contract_address cs) (overlay cs) db))
    (contract_address cs) k = view_cs (as_storage db) cs k /\
  ((forall s, in_range U64_MAX s -> key <> make_storage_key (contract_address cs) s) ->
   db_slots (commit_contract_storage_overlay (contract_address cs) (overlay cs) db) !! key =
   db_slots db !! key).
Proof.
  intros Ha Hov Hk Hdb. set (a := contract_address cs) in *. set (l := btree_iter (overlay cs)).
  assert (Forall (fun sv => in_range U64_MAX sv.1) l) as Hl.
  { apply Forall_forall. intros [s v] Hs. apply elem_of_btree_iter in Hs. by destruct (Hov _ _ Hs). }
  assert (list_to_map l = overlay cs) as El.
  { rewrite <- (list_to_map_to_list (overlay cs)). apply list_to_map_proper;
      [apply btree_iter_nodup|apply btree_iter_perm]. }
  split.
  - unfold db_value at 1, db_get, as_storage, mem_storage, view_cs. simpl.
    rewrite fold_commit by (done || apply btree_iter_nodup). fold l. rewrite El.
    destruct (overlay cs !! k) as [v|] eqn:Ev; simpl.
    + destruct (is_zero v) eqn:Hz; [|done]. apply is_zero_spec in Hz. rewrite Hz.
      by destruct (Hov _ _ Ev) as [_ ->].
    + unfold db_value, db_get. simpl. by destruct (db_slots db !! _).
  - intros Hkey. simpl. fold l. clear El. generalize (db_slots db) as m.
    induction Hl as [|[s v] l' Hs Hl' IH]; intros m; [done|]. simpl. rewrite IH. unfold commit_slot.
    simpl. specialize (Hkey s Hs).
    destruct (is_zero v); [apply lookup_delete_ne|apply lookup_insert_ne]; congruence.
Qed.

(** ** What the root covers *)

Lemma merge_overlay_only prefix db ov fuel :
  (forall k v db', db = (k, v) :: db' -> starts_with k prefix = false) ->
  (length ov < fuel)%nat -> merge fuel prefix db ov = Some ov.
Proof.
  intros Hdb. assert (match db with (k, _) :: _ => if starts_with k prefix then Some k else None
    | [] => None end = None) as Hk.
  { destruct db as [|[k v] db]; [done|]. by rewrite (Hdb k v db). }
  revert fuel; induction ov as [|sv ov IH]; intros [|fuel] Hf; simpl in Hf; try lia; cbn [merge]; rewrite Hk;
    simpl; [done|]. by rewrite IH by lia.
Qed.

#[global] Instance key_le_total : Total key_le.
Proof. intros p q. apply lex_leb_total. Qed.
#[global] Instance key_le_trans : Transitive key_le.
Proof. intros p q r. apply lex_leb_trans. Qed.

Lemma iterator_head slots k v db' key val :
  iterator_cf slots = (k, v) :: db' -> slots !! key = Some val -> lex_leb k key = true.
Proof.
  intros Hi Hk. assert ((key, val) ∈ iterator_cf slots) as Hin.
  { unfold iterator_cf. rewrite (merge_sort_Permutation key_le). by apply elem_of_map_to_list. }
  assert (StronglySorted key_le (iterator_cf slots)) as Hs by (apply StronglySorted_merge_sort; apply _).
  rewrite Hi in Hin, Hs. apply elem_of_cons in Hin as [[= <- <-]|Hin].
  - by destruct (lex_leb_total key key).
  - inversion Hs as [|? ? _ Hf]; subst. rewrite Forall_forall in Hf. by apply (Hf (key, val)).
Qed.

Section RootFacts.
Context `{Sha512}.

(** The storage root ignores persisted storage.  The iterator starts at
    the beginning of the column family and the merge stops at the first key
    of another contract, so as soon as a contract with a smaller address has
    a persisted slot, the root is the hash of the write overlay alone: what
    the database holds for the contract, whatever it is, does not enter. *)
Theorem root_ignores_database (cs : ContractStorage) (slots : gmap bytes bytes)
    (a' : bytes) (s : Z) (v : bytes) :
  length (contract_address cs) = 32%nat -> length a' = 32%nat -> a' <> contract_address cs ->
  lex_leb a' (contract_address cs) = true -> slots !! make_storage_key a' s = Some v ->
  compute_storage_root cs slots = Some (root_of (btree_iter (overlay cs))).
Proof.
  intros Ha Ha' Hne Hlt Hs. unfold compute_storage_root, hashed_slots.
  rewrite merge_overlay_only; [done| |unfold merge_fuel; lia].
  intros k w db' Hi. apply (iterator_head _ _ _ _ _ _ Hi) in Hs.
  unfold starts_with. apply bool_decide_eq_false_2. intros Hp.
  rewrite <- (take_drop (length (make_storage_prefix (contract_address cs))) k), Hp in Hs.
  unfold make_storage_prefix, make_storage_key in Hs. rewrite <- app_assoc, lex_leb_app in Hs.
  rewrite lex_leb_ext in Hs by congruence.
  assert (a' = contract_address cs); [|done]. clear -Hs Hlt Ha Ha'.
  rewrite <- Ha' in Ha. clear Ha'. revert a' Hs Hlt Ha.
  induction (contract_address cs) as [|b a IH]; intros [|b' a'] H1 H2 Hl; simplify_eq/=; [done|].
  destruct (Z.ltb_spec (byte_to_Z b) (byte_to_Z b')), (Z.ltb_spec (byte_to_Z b') (byte_to_Z b)); try done;
    try lia. f_equal; [|by apply IH].
  rewrite <- (byte_of_to_Z b), <- (byte_of_to_Z b'). f_equal. lia.
Qed.

(** ** The merge where it reaches the database *)

(** The database entries of the contract in iteration order. *)
Definition entries (a : bytes) (es : list (Z * bytes)) : list (bytes * bytes) :=
  (fun sv => (make_storage_key a sv.1, sv.2)) <$> es.

Lemma length_storage_key a k : length (make_storage_key a k) = (length (make_storage_prefix a) + 8)%nat.
Proof. unfold make_storage_key, make_storage_prefix. rewrite !length_app, length_to_le_bytes. lia. Qed.

Lemma storage_key_split a k : make_storage_key a k = make_storage_prefix a ++ to_le_bytes 8 k.
Proof. unfold make_storage_key, make_storage_prefix. by rewrite app_assoc. Qed.

Lemma starts_with_key a k : starts_with (make_storage_key a k) (make_storage_prefix a) = true.
Proof.
  unfold starts_with. apply bool_decide_eq_true_2. by rewrite storage_key_split, take_app_length.
Qed.

Lemma key_slot a k : in_range U64_MAX k ->
  from_le_bytes (take 8 (drop (length (make_storage_prefix a)) (make_storage_key a k))) = k.
Proof.
  intros Hk. rewrite storage_key_split, drop_app_length, firstn_all2 by (by rewrite length_to_le_bytes).
  rewrite from_to_le_bytes. apply Z.mod_small. mlia.
Qed.

Lemma slot_in_fst {k v} {l : list (Z * bytes)} : (k, v) ∈ l -> k ∈ l.*1.
Proof. intros Hin. apply list_elem_of_fmap. by exists (k, v). Qed.

(** Where both sides are sorted, the merge is the sorted union in which the
    overlay wins. *)
Lemma merge_sorted a rest fuel es ov :
  (forall k v r, rest = (k, v) :: r -> starts_with k (make_storage_prefix a) = false) ->
  Forall (fun sv => in_range U64_MAX sv.1) es ->
  StronglySorted entry_lt es -> StronglySorted entry_lt ov -> (length es + length ov < fuel)%nat ->
  exists l, merge fuel (make_storage_prefix a) (entries a es ++ rest) ov = Some l /\
    StronglySorted entry_lt l /\
    forall k v, (k, v) ∈ l <-> (k, v) ∈ ov \/ ((k, v) ∈ es /\ k ∉ ov.*1).
Proof.
  intros Hrest. revert es ov; induction fuel as [|fuel IH]; intros es ov Hr Hes Hov Hf; [lia|].
  assert (forall p (l : list (Z * bytes)), StronglySorted entry_lt l -> (forall k v, (k, v) ∈ l -> p.1 < k) ->
    StronglySorted entry_lt (p :: l)) as Hcons.
  { intros p l Hl Hp. constructor; [done|]. apply Forall_forall. intros [k v]. apply Hp. }
  destruct es as [|[s v] es]; [|].
  { exists ov. split; [apply merge_overlay_only; [exact Hrest|simpl in Hf; lia]|]. split; [done|].
    intros k v. split; [by left|]. intros [?|[Hn _]]; [done|by apply not_elem_of_nil in Hn]. }
  inversion Hr as [|? ? Hs Hr']; subst. simpl in Hs.
  destruct (entry_lt_cons_inv _ _ Hes) as [Hes' Hes1].
  cbn [entries fmap list_fmap app merge]. rewrite starts_with_key, length_storage_key, Nat.ltb_irrefl.
  destruct ov as [|[s' v'] ov]; cbn [head fmap option_fmap option_map choose fst].
  - rewrite key_slot by done.
    destruct (IH es []) as (l & Hl & Hls & Hin); [done|done|done|simpl in *; lia|].
    unfold entries in Hl. rewrite Hl. eexists. split; [done|]. split.
    + apply Hcons; [done|]. intros k w [[]%not_elem_of_nil|[Hin' _]]%Hin. by eapply Hes1.
    + intros k w. rewrite elem_of_cons, Hin. set_solver.
  - destruct (entry_lt_cons_inv _ _ Hov) as [Hov' Hov1].
    rewrite length_storage_key, Nat.ltb_irrefl, key_slot by done. destruct (Z.compare_spec s s') as [->|Hlt|Hgt].
    + destruct (IH es ov) as (l & Hl & Hls & Hin); [done|done|done|simpl in *; lia|].
      unfold entries in Hl. rewrite Hl. eexists. split; [done|]. split.
      * apply Hcons; [done|]. intros k w [Hk|[Hk _]]%Hin; [by eapply Hov1|by eapply Hes1].
      * intros k w. rewrite elem_of_cons, Hin. simpl. rewrite !elem_of_cons. split.
        -- intros [?|[?|[Hk Hn]]]; [by left; left|by left; right|]. right. split; [by right|].
           intros [->|?]; [|done]. specialize (Hes1 _ _ Hk). simpl in Hes1. lia.
        -- intros [[?|?]|[[[= -> ->]|Hk] Hn]]; [by left|by right; left|by exfalso; apply Hn; left|].
           right. right. split; [done|]. intros ?. apply Hn. by right.
    + destruct (IH es ((s', v') :: ov)) as (l & Hl & Hls & Hin); [done|done|done|simpl in *; lia|].
      unfold entries in Hl. rewrite Hl. eexists. split; [done|]. split.
      * apply Hcons; [done|]. intros k w [Hk|[Hk _]]%Hin; [|by eapply Hes1].
        apply elem_of_cons in Hk as [[= -> ->]|Hk]; [done|]. specialize (Hov1 _ _ Hk). simpl in *. lia.
      * intros k w. rewrite elem_of_cons, Hin, !elem_of_cons. split.
        -- intros [[= -> ->]|[?|[? ?]]]; [|by left|by right; split; [right|]]. right. split; [by left|].
           simpl. rewrite elem_of_cons. intros [->|Hk]; [lia|].
           apply list_elem_of_fmap in Hk as ([k' w'] & -> & Hk). specialize (Hov1 _ _ Hk). simpl in *. lia.
        -- intros [?|[[?|?] ?]]; [by right; left|by left|by right; right].
    + destruct (IH ((s, v) :: es) ov) as (l & Hl & Hls & Hin); [done|done|done|simpl in *; lia|].
      cbn [entries fmap list_fmap app fst snd] in Hl |- *. rewrite Hl. eexists. split; [done|]. split.
      * apply Hcons; [done|]. intros k w [Hk|[Hk _]]%Hin; [by eapply Hov1|].
        apply elem_of_cons in Hk as [[= -> ->]|Hk]; [done|]. specialize (Hes1 _ _ Hk). simpl in *. lia.
      * intros k w. rewrite elem_of_cons, Hin. simpl. rewrite !elem_of_cons. split.
        -- intros [?|[?|[Hk Hn]]]; [by left; left|by left; right|]. right. split; [done|].
           intros [->|?]; [|done]. destruct Hk as [[= -> ->]|Hk]; [lia|].
           specialize (Hes1 _ _ Hk). simpl in Hes1. lia.
        -- intros [[?|?]|[Hk Hn]]; [by left|by right; left|]. right. right. split; [done|].
           intros ?. apply Hn. by right.
Qed.

(** Where the merge does reach the database the root is canonical.  If
    the contract's entries come first in the column family and in ascending
    slot order, the root is the hash of the union of the overlay and the
    database, overlay first, listed by slot: equal contents give equal roots,
    however they are split between the two. *)
Theorem root_canonical (cs : ContractStorage) (slots : gmap bytes bytes) (es : list (Z * bytes))
    (rest : list (bytes * bytes)) :
  iterator_cf slots = entries (contract_address cs) es ++ rest ->
  (forall k v r, rest = (k, v) :: r ->
     starts_with k (make_storage_prefix (contract_address cs)) = false) ->
  Forall (fun sv => in_range U64_MAX sv.1) es -> StronglySorted entry_lt es ->
  compute_storage_root cs slots =
    Some (root_of (btree_iter (overlay cs ∪ list_to_map es))).
Proof.
  intros Hi Hrest Hr Hes. unfold compute_storage_root, hashed_slots. rewrite Hi.
  destruct (merge_sorted (contract_address cs) rest
    (merge_fuel (entries (contract_address cs) es ++ rest) (btree_iter (overlay cs))) es
    (btree_iter (overlay cs))) as (l & Hl & Hls & Hin); [done|done|done|apply btree_iter_sorted| |].
  { unfold merge_fuel, entries. rewrite length_app, length_fmap. lia. }
  rewrite Hl. simpl. do 2 f_equal. apply entry_lt_ext; [done|apply btree_iter_sorted|].
  intros [k v]. rewrite Hin, !elem_of_btree_iter, lookup_union_Some_raw.
  assert (k ∉ (btree_iter (overlay cs)).*1 <-> overlay cs !! k = None) as ->.
  { rewrite list_elem_of_fmap, eq_None_not_Some. split.
    - intros Hn [w Hw]. apply Hn. exists (k, w). by rewrite elem_of_btree_iter.
    - intros Hn ([k' w] & Hk & Hw). simpl in Hk. subst k'. apply Hn. exists w. by apply elem_of_btree_iter. }
  rewrite <- elem_of_list_to_map; [tauto|]. clear -Hes. induction es as [|p es IH]; [constructor|].
  destruct (entry_lt_cons_inv _ _ Hes) as [He Hp]. simpl. constructor; [|by apply IH].
  intros Hk. apply list_elem_of_fmap in Hk as ([k w] & Hk & Hin). specialize (Hp k w Hin). simpl in Hk. lia.
Qed.
End RootFacts.

(** *** Concrete databases *)

Definition sha_toy : Sha512 := {| sha512 := fun b => take 64 (b ++ zeros 64) |}.
Definition contract1 : bytes := x01 :: zeros 31.
Definition contract2 : bytes := x02 :: zeros 31.

(** One slot of [contract2] set to [n], with or without a slot of
    [contract1]. *)
Definition db_two (n : Z) : gmap bytes bytes :=
  {[ make_storage_key contract1 100 := word 1; make_storage_key contract2 100 := word n ]}.

Lemma root_ignores_database_witness :
  @compute_storage_root sha_toy (mkCS contract2 {[ 7 := word 3 ]} ∅) (db_two 5) =
  @compute_storage_root sha_toy (mkCS contract2 {[ 7 := word 3 ]} ∅) (db_two 6).
Proof.
  rewrite (@root_ignores_database sha_toy (mkCS contract2 {[ 7 := word 3 ]} ∅) (db_two 5)
      contract1 100 (word 1)); [|done|done|done|reflexivity|reflexivity].
  rewrite (@root_ignores_database sha_toy (mkCS contract2 {[ 7 := word 3 ]} ∅) (db_two 6)
      contract1 100 (word 1)); [reflexivity|done|done|done|reflexivity|reflexivity].
Defined.

Lemma root_canonical_witness :
  @compute_storage_root sha_toy (mkCS contract1 {[ 7 := word 3 ]} ∅) (db_two 5) =
  Some (@root_of sha_toy [(7, word 3); (100, word 1)]).
Proof.
  apply (@root_canonical sha_toy (mkCS contract1 {[ 7 := word 3 ]} ∅) (db_two 5) [(100, word 1)]
    [(make_storage_key contract2 100, word 5)]).
  - vm_compute. reflexivity.
  - intros k v r [= <- <- <-]. reflexivity.
  - repeat constructor; done.
  - repeat constructor.
Defined.

Lemma commit_makes_durable_witness :
  db_value (as_storage (commit_contract_storage_overlay contract2 {[ 100 := word 0; 7 := word 3 ]}
    (mkDb ∅ ∅ (db_two 5)))) contract2 100 = word 0.
Proof.
  destruct (commit_makes_durable (mkDb ∅ ∅ (db_two 5))
    (mkCS contract2 {[ 100 := word 0; 7 := word 3 ]} ∅) 100 []) as [H _]; [done| |done| |].
  - apply (bool_decide_eq_true_1 _). vm_compute. reflexivity.
  - apply db_ok_mem. apply map_Forall_insert_2; [done|]. by apply map_Forall_singleton.
  - etransitivity; [exact H|]. vm_compute. reflexivity.
Defined.

(** Iteration order and slot order differ.  Keys carry the slot in
    little-endian order, so slot 256 comes before slot 1: with both persisted
    and slot 1 rewritten in the overlay, the merge hashes slot 1 twice, first
    with the new value and last with the stale one, and the root is not that
    of the content. *)
Theorem root_hashes_stale_slot :
  @hashed_slots (mkCS contract1 {[ 1 := word 9 ]} ∅)
    {[ make_storage_key contract1 1 := word 5; make_storage_key contract1 256 := word 6 ]} =
  Some [(1, word 9); (256, word 6); (1, word 5)].
Proof. vm_compute. reflexivity. Qed.

End Root.
