(* ===== verification/Abi.v ===== *)
(** * ABI encoding of calls

    The encoders and decoders of [Savitri-contracts/src/contracts/call.rs]:
    function selectors, addresses, integers, booleans, dynamic byte strings,
    return data.  A decoder that slices out of range is a [Panic]. *)

From S2P Require Import Prelude Codec Savitri20.
From Stdlib Require Import Strings.Byte.

Module Abi.

Inductive AbiError :=
| ShortAddress (len : nat)
| ShortUint256 (len : nat)
| ShortCalldata
| OffsetTooShort
| OffsetExceeds (offset : Z)
| ShortLength (offset : Z)
| ShortData (need : Z)
| InvalidUtf8
| BadReturnLength (len : nat)
| ReturnTooLarge (len : nat)
| BadReturnValue
| AbiPanic.

Definition Res (A : Type) : Type := result AbiError A.
#[global] Instance Res_ret : MRet (result AbiError) := fun A a => Ok a.
#[global] Instance Res_bind : MBind (result AbiError) := fun A B f r =>
  match r with Ok a => f a | Err e => Err e end.

(** [l[lo..lo + n]] for a slice known to be in range. *)
Definition slice (lo n : nat) (l : bytes) : bytes := take n (drop lo l).

(** Big-endian integers. *)
Definition to_be_bytes (n : nat) (z : Z) : bytes := rev (to_le_bytes n z).
Definition from_be_bytes (l : bytes) : Z := from_le_bytes (rev l).

Section Selectors.
Context `{Keccak}.
(** [calculate_selector]. *)
Definition calculate_selector (signature : string) : bytes :=
  take 4 (keccak256 (bytes_of_string signature)).
End Selectors.

(** ** Values *)

Definition decode_address (calldata : bytes) : Res bytes :=
  if (length calldata <? 32)%nat then Err (ShortAddress (length calldata)) else Ok (take 32 calldata).

(** The 16 low bytes of the word; the 16 high ones are dropped. *)
Definition decode_uint256 (calldata : bytes) : Res Z :=
  if (length calldata <? 32)%nat then Err (ShortUint256 (length calldata))
  else Ok (from_be_bytes (slice 16 16 calldata)).

(** The 8 low bytes of the word. *)
Definition decode_uint256_to_u64 (calldata : bytes) : Res Z :=
  if (length calldata <? 32)%nat then Err (ShortUint256 (length calldata))
  else Ok (from_be_bytes (slice 24 8 calldata)).

Definition encode_bool (value : bool) : bytes := zeros 31 ++ [if value then x01 else x00].

Definition encode_uint256 (value : Z) : bytes := zeros 16 ++ to_be_bytes 16 value.

(** The length word, then the data padded to a multiple of 32 bytes. *)
Definition encode_string (value : bytes) : bytes :=
  let len := length value in
  let padded_len := ((len + 31) / 32 * 32)%nat in
  (zeros 16 ++ to_be_bytes 16 (Z.of_nat len)) ++ value ++ zeros (padded_len - len).

Section Hexed.
Context `{Hex}.
Definition address_to_hex (a : bytes) : string := "0x" +:+ hex_encode a.
End Hexed.

(** ** Dynamic data *)

(** [decode_bytes]: the offset and the length are the low 8 bytes of their
    words; the two additions of [usize]s wrap. *)
Definition decode_bytes (calldata offset_bytes : bytes) : Res bytes :=
  if (length offset_bytes <? 32)%nat then Err OffsetTooShort
  else
    let offset := from_be_bytes (slice 24 8 offset_bytes) in
    let n := Z.of_nat (length calldata) in
    if offset >=? n then Err (OffsetExceeds offset)
    else if n <? wrap U64_MAX (offset + 32) then Err (ShortLength offset)
    else
      let len := from_be_bytes (slice 24 8 (slice (Z.to_nat offset) 32 calldata)) in
      let data_offset := wrap U64_MAX (offset + 32) in
      let data_end := wrap U64_MAX (data_offset + len) in
      if n <? data_end then Err (ShortData data_end)
      else if data_end <? data_offset then Err AbiPanic
      else Ok (slice (Z.to_nat data_offset) (Z.to_nat len) calldata).

Definition decode_string (calldata offset_bytes : bytes) : Res bytes :=
  b ← decode_bytes calldata offset_bytes;
  if Utf8.valid b then Ok b else Err InvalidUtf8.

(** ** Return data *)

Definition validate_return_data (return_data : bytes) : Res unit :=
  if bool_decide (return_data = []) then Ok tt
  else if negb (length return_data mod 32 =? 0)%nat then Err (BadReturnLength (length return_data))
  else if (1048576 <? Z.of_nat (length return_data)) then Err (ReturnTooLarge (length return_data))
  else Ok tt.

Inductive ReturnType := RtVoid | RtAddress | RtUint256 | RtBool | RtBytes.

Definition encode_return_data (t : ReturnType) (value : option bytes) : Res bytes :=
  match t with
  | RtVoid => Ok []
  | RtAddress =>
      match value with
      | Some a => if bool_decide (length a = 32%nat) then Ok a else Err BadReturnValue
      | None => Err BadReturnValue
      end
  | RtUint256 =>
      match value with
      | Some v =>
          if (length v <=? 16)%nat then Ok (encode_uint256 (from_be_bytes (zeros (16 - length v) ++ v)))
          else Err BadReturnValue
      | None => Err BadReturnValue
      end
  | RtBool =>
      match value with
      | Some [b] => Ok (encode_bool (negb (Byte.eqb b x00)))
      | _ => Err BadReturnValue
      end
  | RtBytes =>
      match value with
      | Some v => Ok (v ++ zeros ((32 - length v mod 32) mod 32))
      | None => Ok []
      end
  end.

(** ** Round trips *)

Lemma from_to_be_bytes n z : from_be_bytes (to_be_bytes n z) = z mod 256 ^ Z.of_nat n.
Proof. unfold from_be_bytes, to_be_bytes. by rewrite rev_involutive, from_to_le_bytes. Qed.

Lemma length_to_be_bytes n z : length (to_be_bytes n z) = n.
Proof. unfold to_be_bytes. by rewrite length_rev, length_to_le_bytes. Qed.

Lemma from_be_bytes_app a b :
  from_be_bytes (a ++ b) = from_be_bytes a * 256 ^ Z.of_nat (length b) + from_be_bytes b.
Proof.
  unfold from_be_bytes. rewrite rev_app_distr. rewrite <- (length_rev b). generalize (rev a), (rev b).
  intros x y. induction y as [|c y IH]; [simpl; lia|].
  cbn [app from_le_bytes length]. rewrite IH, Nat2Z.inj_succ, Z.pow_succ_r by lia. lia.
Qed.

Lemma from_be_bytes_range l : 0 <= from_be_bytes l < 256 ^ Z.of_nat (length l).
Proof. unfold from_be_bytes. rewrite <- (length_rev l). apply from_le_bytes_range. Qed.

(** The low bytes of a word are its value modulo a power of 256. *)
Lemma low_bytes (n : nat) (w : bytes) :
  (n <= length w)%nat ->
  from_be_bytes (drop (length w - n) w) = from_be_bytes w mod 256 ^ Z.of_nat n.
Proof.
  intros Hn. rewrite <- (take_drop (length w - n) w) at 3. rewrite from_be_bytes_app, length_drop.
  replace (length w - (length w - n))%nat with n by lia.
  rewrite Z.add_comm, Z.mod_add by lia. symmetry. apply Z.mod_small.
  pose proof (from_be_bytes_range (drop (length w - n) w)) as Hr. rewrite length_drop in Hr.
  by replace (length w - (length w - n))%nat with n in Hr by lia.
Qed.

Lemma from_be_bytes_zeros n : from_be_bytes (zeros n) = 0.
Proof.
  induction n as [|n IH]; [done|]. change (zeros (S n)) with ([x00] ++ zeros n).
  by rewrite from_be_bytes_app, IH.
Qed.

Lemma length_encode_uint256 v : length (encode_uint256 v) = 32%nat.
Proof. unfold encode_uint256. by rewrite length_app, length_zeros, length_to_be_bytes. Qed.

Lemma encode_uint256_value v : from_be_bytes (encode_uint256 v) = v mod 2 ^ 128.
Proof. unfold encode_uint256. by rewrite from_be_bytes_app, from_to_be_bytes, from_be_bytes_zeros. Qed.

Lemma slice_low (n : nat) (w rest : bytes) :
  length w = 32%nat -> (n <= 32)%nat ->
  from_be_bytes (slice (32 - n) n (w ++ rest)) = from_be_bytes w mod 256 ^ Z.of_nat n.
Proof.
  intros Hl Hn. unfold slice. rewrite drop_app_le, take_app_le by (rewrite ?length_drop; lia).
  rewrite firstn_all2 by (rewrite length_drop; lia).
  pose proof (low_bytes n w ltac:(lia)) as H. by rewrite Hl in H.
Qed.

Lemma decode_words (w rest : bytes) : length w = 32%nat ->
  decode_uint256 (w ++ rest) = Ok (from_be_bytes w mod 2 ^ 128) /\
  decode_uint256_to_u64 (w ++ rest) = Ok (from_be_bytes w mod 2 ^ 64).
Proof.
  intros Hl. unfold decode_uint256, decode_uint256_to_u64. rewrite length_app, Hl.
  destruct (Nat.ltb_spec (32 + length rest) 32); [lia|].
  pose proof (slice_low 16 w rest Hl ltac:(lia)) as H16. pose proof (slice_low 8 w rest Hl ltac:(lia)) as H8.
  change (32 - 16)%nat with 16%nat in H16. change (32 - 8)%nat with 24%nat in H8. by rewrite H16, H8.
Qed.

(** Integers cross the ABI only modulo 2^128 and 2^64.  Whatever follows
    in the call data, a 32-byte word decodes as an amount to its value modulo
    2^128 and as a token id to its value modulo 2^64; so encoding a [u128] and
    decoding it gives it back, and words that differ by a multiple of 2^128
    (2^64) are the same amount (token id). *)
Theorem uint256_truncates (w rest : bytes) (v : Z) :
  length w = 32%nat ->
  decode_uint256 (w ++ rest) = Ok (from_be_bytes w mod 2 ^ 128) /\
  decode_uint256_to_u64 (w ++ rest) = Ok (from_be_bytes w mod 2 ^ 64) /\
  (in_range U128_MAX v -> decode_uint256 (encode_uint256 v) = Ok v) /\
  (in_range U64_MAX v -> decode_uint256_to_u64 (encode_uint256 v) = Ok v).
Proof.
  intros Hl. destruct (decode_words w rest Hl) as [H1 H2]. split; [done|]. split; [done|].
  destruct (decode_words (encode_uint256 v) [] (length_encode_uint256 v)) as [H3 H4].
  rewrite app_nil_r, encode_uint256_value in H3, H4. rewrite H3, H4.
  split; intros Hr; f_equal; rewrite !Z.mod_small; mlia.
Qed.

Lemma uint256_truncates_witness :
  decode_uint256 (to_be_bytes 32 (2 ^ 128 + 7)) = Ok 7 /\
  decode_uint256_to_u64 (to_be_bytes 32 (2 ^ 64 + 7)) = Ok 7.
Proof.
  split.
  - apply (uint256_truncates (to_be_bytes 32 (2 ^ 128 + 7)) [] 0). reflexivity.
  - apply (uint256_truncates (to_be_bytes 32 (2 ^ 64 + 7)) [] 0). reflexivity.
Defined.

Lemma slice_encoded v : 0 <= v < 2 ^ 64 -> from_be_bytes (slice 24 8 (encode_uint256 v)) = v.
Proof.
  intros Hv. pose proof (slice_low 8 (encode_uint256 v) [] (length_encode_uint256 v) ltac:(lia)) as H.
  rewrite app_nil_r, encode_uint256_value in H. change (32 - 8)%nat with 24%nat in H. rewrite H.
  rewrite !Z.mod_small; mlia.
Qed.

Lemma slice_word (pre lw rest : bytes) : length lw = 32%nat ->
  slice (Z.to_nat (Z.of_nat (length pre))) 32 (pre ++ lw ++ rest) = lw.
Proof.
  intros Hl. unfold slice. rewrite Nat2Z.id, drop_app_length, <- Hl. apply take_app_length.
Qed.

(** Bytes in place: an offset word, and at the offset a length word and the
    data. *)
Lemma decode_bytes_at (pre data post : bytes) :
  Z.of_nat (length (pre ++ encode_uint256 (Z.of_nat (length data)) ++ data ++ post)) < 2 ^ 63 ->
  decode_bytes (pre ++ encode_uint256 (Z.of_nat (length data)) ++ data ++ post)
    (encode_uint256 (Z.of_nat (length pre))) = Ok data.
Proof.
  intros Hlen. set (lw := encode_uint256 (Z.of_nat (length data))) in *.
  assert (length lw = 32%nat) as Hlw by apply length_encode_uint256.
  rewrite !length_app, Hlw in Hlen.
  assert (forall v, 0 <= v < 2 ^ 64 -> from_be_bytes (slice 24 8 (encode_uint256 v)) = v) as Hd
    by apply slice_encoded.
  unfold decode_bytes. rewrite Hd by lia.
  rewrite length_encode_uint256.
  rewrite !length_app, Hlw. change (32 <? 32)%nat with false. cbv iota.
  rewrite Z.geb_leb. destruct (Z.leb_spec (Z.of_nat (length pre + (32 + (length data + length post))))
    (Z.of_nat (length pre))); [lia|].
  rewrite (wrap_id _ (Z.of_nat (length pre) + 32)) by mlia.
  destruct (Z.ltb_spec (Z.of_nat (length pre + (32 + (length data + length post))))
    (Z.of_nat (length pre) + 32)); [lia|].
  rewrite slice_word by done.
  unfold lw. rewrite Hd by lia. rewrite wrap_id by mlia.
  destruct (Z.ltb_spec (Z.of_nat (length pre + (32 + (length data + length post))))
    (Z.of_nat (length pre) + 32 + Z.of_nat (length data))); [lia|].
  destruct (Z.ltb_spec (Z.of_nat (length pre) + 32 + Z.of_nat (length data))
    (Z.of_nat (length pre) + 32)); [lia|].
  f_equal. unfold slice. rewrite Nat2Z.id.
  replace (Z.to_nat (Z.of_nat (length pre) + 32)) with (length pre + length lw)%nat by lia.
  rewrite <- drop_drop, drop_app_length, drop_app_length. apply take_app_length.
Qed.

(** Byte strings round trip, and a hostile length panics.  Data laid out
    as the ABI asks, an offset word pointing to a length word followed by the
    data, decodes to exactly the data, whatever precedes and follows; and
    from call data that holds a length word of 2^64 - 1 at an offset in
    range, the decoder's end position wraps below its start and the slice
    panics instead of returning an error. *)
Theorem decode_bytes_roundtrip_panic (pre data post : bytes) :
  Z.of_nat (length (pre ++ encode_uint256 (Z.of_nat (length data)) ++ data ++ post)) < 2 ^ 63 ->
  decode_bytes (pre ++ encode_uint256 (Z.of_nat (length data)) ++ data ++ post)
    (encode_uint256 (Z.of_nat (length pre))) = Ok data /\
  decode_bytes (pre ++ encode_uint256 U64_MAX ++ data ++ post)
    (encode_uint256 (Z.of_nat (length pre))) = Err AbiPanic.
Proof.
  intros Hlen. split; [by apply decode_bytes_at|].
  set (lw := encode_uint256 U64_MAX). assert (length lw = 32%nat) as Hlw by apply length_encode_uint256.
  rewrite !length_app, length_encode_uint256 in Hlen.
  assert (forall v, 0 <= v < 2 ^ 64 -> from_be_bytes (slice 24 8 (encode_uint256 v)) = v) as Hd
    by apply slice_encoded.
  unfold decode_bytes. rewrite Hd by lia. rewrite length_encode_uint256, !length_app, Hlw.
  change (32 <? 32)%nat with false. cbv iota.
  rewrite Z.geb_leb. destruct (Z.leb_spec (Z.of_nat (length pre + (32 + (length data + length post))))
    (Z.of_nat (length pre))); [lia|].
  rewrite (wrap_id _ (Z.of_nat (length pre) + 32)) by mlia.
  destruct (Z.ltb_spec (Z.of_nat (length pre + (32 + (length data + length post))))
    (Z.of_nat (length pre) + 32)); [lia|].
  rewrite slice_word by done. unfold lw. rewrite Hd by mlia.
  assert (wrap U64_MAX (Z.of_nat (length pre) + 32 + U64_MAX) = Z.of_nat (length pre) + 31) as ->.
  { unfold wrap. replace (Z.of_nat (length pre) + 32 + U64_MAX)
      with (Z.of_nat (length pre) + 31 + 1 * (U64_MAX + 1)) by lia.
    rewrite Z.mod_add by (unfold U64_MAX; lia). apply Z.mod_small. mlia. }
  destruct (Z.ltb_spec (Z.of_nat (length pre + (32 + (length data + length post))))
    (Z.of_nat (length pre) + 31)); [lia|].
  destruct (Z.ltb_spec (Z.of_nat (length pre) + 31) (Z.of_nat (length pre) + 32)); [done|lia].
Qed.

Lemma decode_bytes_roundtrip_panic_witness :
  decode_bytes ([x09; x09] ++ encode_uint256 3 ++ [x01; x02; x03] ++ []) (encode_uint256 2) =
    Ok [x01; x02; x03] /\
  decode_bytes ([x09; x09] ++ encode_uint256 U64_MAX ++ [x01; x02; x03] ++ []) (encode_uint256 2) =
    Err AbiPanic.
Proof. apply (decode_bytes_roundtrip_panic [x09; x09] [x01; x02; x03] []). reflexivity. Defined.

End Abi.
