(* ===== verification/CallExec.v ===== *)
(** * The call executor

    [Savitri-contracts/src/contracts/call.rs]: a call transaction from the
    decoding of its addresses to the committed result, the dispatch of a
    function selector to the built-in standards or to the interpreter, and
    cross-contract calls, together with the receiver check of SAVITRI-721
    safe transfers ([standards/savitri721.rs]), which is where contract code
    calls another contract.

    The built-in functions run on [ExecState] under [native]; the interpreter
    on its own machine; both on the storage and meter of the frame [Exec].
    Database reads and writes succeed ([Db]); the encoding of a contract
    record is a parameter ([InfoBincode]).  A cross-contract call takes fuel,
    one unit per nested frame; the call depth limit makes 64 enough. *)

From S2P Require Import Prelude Gas ContractStorage Codec BaseContract Savitri20.
From S2P Require Import Savitri721 Account CallStack Fee Evm StorageRoot Abi.
From Stdlib Require Import Strings.Byte.

Inductive ContractStatus := Deploying | Active | StPaused | Terminated | Maintenance.

Record ContractMetadata := {
  md_name : string; md_description : string; md_abi : bytes; md_contract_type : string;
  md_tags : list string; md_creator : bytes; md_verified : bool; md_audited : bool;
}.

Record ContractInfo := mkInfo {
  ci_address : bytes;
  ci_code : bytes;
  ci_code_hash : bytes;
  ci_storage_root : bytes;
  ci_owner : bytes;
  ci_version : Z;
  ci_deployed_at : Z;
  ci_status : ContractStatus;
  ci_gas_limit : Z;
  ci_total_gas_consumed : Z;
  ci_transaction_count : Z;
  ci_last_activity : Z;
  ci_metadata : ContractMetadata;
}.

Definition set_storage_root (r : bytes) (i : ContractInfo) : ContractInfo :=
  mkInfo (ci_address i) (ci_code i) (ci_code_hash i) r (ci_owner i) (ci_version i)
    (ci_deployed_at i) (ci_status i) (ci_gas_limit i) (ci_total_gas_consumed i)
    (ci_transaction_count i) (ci_last_activity i) (ci_metadata i).

(** [bincode] on contract records. *)
Class InfoBincode := {
  serialize_info : ContractInfo -> bytes;
  deserialize_info : bytes -> option ContractInfo;
}.

Module Call.

Inductive CallErr :=
| BadAddress (e : AddressError)
| ContractNotFound
| InfoTooLarge (len : nat)
| BadContractInfo
| NoBytecode
| StorageCreation (e : ContractError)
| FrameFailed (e : Calls.CallError)
| NoCallerContract
| InsufficientValue (have_ need : Z)
| AccountFailed (e : Acct.AccountError)
| ZeroSelector
| Decode (e : Abi.AbiError)
| Native (e : ContractError)
| VmFailed (e : Evm.EvmError)
| CallGas (e : Gas.GasError)
| InsufficientGas (requested available : Z)
| StackCorrupted
| BadReceiverReturn
| RootFailed
| FeeFailed (e : Fee.FeeError)
| TargetFailed (target : bytes) (e : CallErr)
| OutOfFuel.

(** The state of the code running in one frame. *)
Record Exec := mkExec {
  x_cs : ContractStorage;
  x_gas : Gas.GasMeter;
  x_rt : Calls.RuntimeState;
}.
Definition set_x_cs (c : ContractStorage) (x : Exec) : Exec := mkExec c (x_gas x) (x_rt x).
Definition set_x_gas (g : Gas.GasMeter) (x : Exec) : Exec := mkExec (x_cs x) g (x_rt x).
Definition set_x_rt (r : Calls.RuntimeState) (x : Exec) : Exec := mkExec (x_cs x) (x_gas x) r.

Definition XM (A : Type) : Type := M Exec CallErr A.

(** What a cross-contract call touches: the caller's meter and the runtime. *)
Record Ctx := mkCtx {
  c_gas : Gas.GasMeter;
  c_rt : Calls.RuntimeState;
}.
Definition CM (A : Type) : Type := M Ctx CallErr A.

Definition set_events (e : list StandardEvent) (c : list CustomEvent) (r : Calls.RuntimeState) :
    Calls.RuntimeState :=
  Calls.mkRt (Calls.rt_overlay r) (Calls.rt_gas_meter r) (Calls.rt_call_stack r)
    (Calls.max_call_depth r) (Calls.rt_timestamp r) (Calls.non_deterministic_access_detected r) e c.

(** A [[u8; 32]]-returning hex decoder, [decode_contract_address] and
    [decode_caller_address]. *)
Definition decode_hex_address `{Hex} (s : string) : result CallErr bytes :=
  match decode_address s with Ok b => Ok b | Err e => Err (BadAddress e) end.

Section Exec.
Context `{Hex} `{Keccak} `{U256} `{InfoBincode} (db : Root.Db).

Definition decode {A} (r : Abi.Res A) : XM A :=
  lift match r with Ok a => Ok a | Err e => Err (Decode e) end.

(** Run a built-in operation with [Some(gas_meter)] and the runtime's event
    buffers. *)
Definition native {A} (op : Storage -> Runtime -> X A) : XM A := fun x =>
  match op (Root.as_storage db) (Calls.as_runtime (x_rt x))
      (mkES (x_cs x) (Some (x_gas x)) (Calls.rt_events (x_rt x)) (Calls.rt_custom_events (x_rt x))) with
  | (r, s) =>
      let x' := mkExec (es_cs s) (default (x_gas x) (es_gas s))
        (set_events (es_events s) (es_custom s) (x_rt x)) in
      match r with Ok a => (Ok a, x') | Err e => (Err (Native e), x') end
  end.

(** [evm_interpreter::execute], with fuel that never runs out on a meter that
    is [Gas.lasting]. *)
Definition vm_execute (info : ContractInfo) (caller : bytes) (value : Z) (calldata : bytes) : XM bytes :=
  fun x =>
    let e := {| Evm.code := ci_code info; Evm.calldata := calldata;
      Evm.contract_address := ci_address info; Evm.caller := caller; Evm.value := value;
      Evm.block_timestamp := Calls.rt_timestamp (x_rt x) |} in
    match Evm.execute (Root.as_storage db) (Z.to_nat (Gas.charges_left (x_gas x))) e
        (x_cs x) (x_gas x) with
    | None => (Err OutOfFuel, x)
    | Some (r, vm) =>
        let x' := mkExec (Evm.contract_storage vm) (Evm.gas_meter vm) (x_rt x) in
        match r with Ok d => (Ok d, x') | Err er => (Err (VmFailed er), x') end
    end.

(** ** The built-in functions *)

Definition execute_owner : XM bytes := native (fun st rt => Base.owner st).
Definition execute_version : XM bytes :=
  v ← native (fun st rt => Base.version st); mret (Abi.encode_uint256 v).
Definition execute_paused : XM bytes :=
  p ← native (fun st rt => Base.is_paused st); mret (Abi.encode_bool p).
Definition execute_transfer_ownership (calldata : bytes) : XM bytes :=
  new_owner ← decode (Abi.decode_address calldata);
  b ← native (fun st rt => Base.transfer_ownership st rt new_owner);
  mret (Abi.encode_bool b).
Definition execute_pause : XM bytes :=
  b ← native (fun st rt => Base.pause st rt); mret (Abi.encode_bool b).
Definition execute_unpause : XM bytes :=
  b ← native (fun st rt => Base.unpause st rt); mret (Abi.encode_bool b).
Definition execute_total_supply : XM bytes :=
  v ← native (fun st rt => Sav20.total_supply st); mret (Abi.encode_uint256 v).
Definition execute_name : XM bytes :=
  v ← native (fun st rt => Sav20.name st); mret (Abi.encode_string v).
Definition execute_symbol : XM bytes :=
  v ← native (fun st rt => Sav20.symbol st); mret (Abi.encode_string v).

Definition execute_balance_of (calldata : bytes) : XM bytes :=
  a ← decode (Abi.decode_address calldata);
  b ← native (fun st rt => Sav20.balance_of st (Abi.address_to_hex a));
  mret (Abi.encode_uint256 b).

(** [if calldata.len() < n { return Err }]. *)
Definition need (n : nat) (calldata : bytes) : XM unit :=
  bail_if (length calldata <? n)%nat (Decode Abi.ShortCalldata).

(** The [i]-th argument word. *)
Definition arg (i : nat) (calldata : bytes) : bytes := Abi.slice (32 * i) 32 calldata.

Definition execute_transfer (calldata : bytes) : XM bytes :=
  need 64 calldata;;
  to ← decode (Abi.decode_address (arg 0 calldata));
  amount ← decode (Abi.decode_uint256 (arg 1 calldata));
  native (fun st rt => Sav20.transfer st rt (Abi.address_to_hex to) amount);;
  mret (Abi.encode_bool true).

Definition execute_faucet_mint (calldata : bytes) : XM bytes :=
  need 64 calldata;;
  to ← decode (Abi.decode_address (arg 0 calldata));
  amount ← decode (Abi.decode_uint256 (arg 1 calldata));
  native (fun st rt => Sav20.mint st rt (Abi.address_to_hex to) amount);;
  mret [].

Definition execute_approve (calldata : bytes) : XM bytes :=
  need 64 calldata;;
  spender ← decode (Abi.decode_address (arg 0 calldata));
  amount ← decode (Abi.decode_uint256 (arg 1 calldata));
  native (fun st rt => Sav20.approve st rt (Abi.address_to_hex spender) amount);;
  mret (Abi.encode_bool true).

Definition execute_transfer_from (calldata : bytes) : XM bytes :=
  need 96 calldata;;
  from ← decode (Abi.decode_address (arg 0 calldata));
  to ← decode (Abi.decode_address (arg 1 calldata));
  amount ← decode (Abi.decode_uint256 (arg 2 calldata));
  native (fun st rt => Sav20.transfer_from st rt (Abi.address_to_hex from) (Abi.address_to_hex to) amount);;
  mret (Abi.encode_bool true).

Definition execute_allowance (calldata : bytes) : XM bytes :=
  need 64 calldata;;
  owner ← decode (Abi.decode_address (arg 0 calldata));
  spender ← decode (Abi.decode_address (arg 1 calldata));
  v ← native (fun st rt => Sav20.allowance st (Abi.address_to_hex owner) (Abi.address_to_hex spender));
  mret (Abi.encode_uint256 v).

Definition execute_balance_of_721 (calldata : bytes) : XM bytes :=
  a ← decode (Abi.decode_address calldata);
  b ← native (fun st rt => Sav721.balance_of st (Abi.address_to_hex a));
  mret (Abi.encode_uint256 b).

Definition execute_owner_of (calldata : bytes) : XM bytes :=
  token_id ← decode (Abi.decode_uint256_to_u64 calldata);
  owner_hex ← native (fun st rt => Sav721.owner_of st token_id);
  lift (decode_hex_address owner_hex).

Definition execute_transfer_from_721 (calldata : bytes) : XM bytes :=
  need 96 calldata;;
  from ← decode (Abi.decode_address (arg 0 calldata));
  to ← decode (Abi.decode_address (arg 1 calldata));
  token_id ← decode (Abi.decode_uint256_to_u64 (arg 2 calldata));
  native (fun st rt => Sav721.transfer_from st rt (Abi.address_to_hex from) (Abi.address_to_hex to) token_id);;
  mret (Abi.encode_bool true).

Definition execute_approve_721 (calldata : bytes) : XM bytes :=
  need 64 calldata;;
  approved ← decode (Abi.decode_address (arg 0 calldata));
  token_id ← decode (Abi.decode_uint256_to_u64 (arg 1 calldata));
  native (fun st rt => Sav721.approve st rt (Abi.address_to_hex approved) token_id);;
  mret (Abi.encode_bool true).

Definition execute_token_uri (calldata : bytes) : XM bytes :=
  token_id ← decode (Abi.decode_uint256_to_u64 calldata);
  uri ← native (fun st rt => Sav721.token_uri st token_id);
  mret (Abi.encode_string uri).

Definition execute_set_token_uri (calldata : bytes) : XM bytes :=
  need 64 calldata;;
  token_id ← decode (Abi.decode_uint256_to_u64 (arg 0 calldata));
  uri ← decode (Abi.decode_string calldata (arg 1 calldata));
  native (fun st rt => Sav721.set_token_uri st rt token_id uri);;
  mret (Abi.encode_bool true).

(** ** Safe transfers *)

(** The type of [call_contract]: target, selector, call data, gas limit. *)
Definition CallContract : Type := bytes -> bytes -> bytes -> option Z -> CM bytes.

Section Safe.
Variable call_contract : CallContract.

Definition on_snt1_received_selector : bytes :=
  Abi.calculate_selector "onSNT1Received(address,address,uint256,bytes)".

(** The call data of the receiver hook. *)
Definition receiver_calldata (operator from : bytes) (token_id : Z) (data : bytes) : bytes :=
  operator ++ from ++
  (zeros 24 ++ Abi.to_be_bytes 8 token_id) ++
  (zeros 28 ++ Abi.to_be_bytes 4 128) ++
  (zeros 28 ++ Abi.to_be_bytes 4 (Z.of_nat (length data))) ++
  (if bool_decide (data = []) then [] else data ++ zeros ((32 - length data mod 32) mod 32)).

(** A cross-contract call from inside a frame. *)
Definition cross_call (target selector calldata : bytes) (gas_limit : option Z) : XM bytes := fun x =>
  match call_contract target selector calldata gas_limit (mkCtx (x_gas x) (x_rt x)) with
  | (r, c) => (r, mkExec (x_cs x) (c_gas c) (c_rt c))
  end.

(** [validate_receiver]: an address without a contract is accepted. *)
Definition validate_receiver (receiver operator from : bytes) (token_id : Z) (data : bytes) : XM unit :=
  if negb (bool_decide (is_Some (Root.db_contracts db !! receiver))) then mret tt
  else
    return_data ← cross_call receiver on_snt1_received_selector
      (receiver_calldata operator from token_id data) (Some 50000);
    bail_if (length return_data <? 4)%nat BadReceiverReturn;;
    bail_if (negb (bool_decide (take 4 return_data = on_snt1_received_selector))) BadReceiverReturn.

(** [SAVITRI721::safe_transfer_from_with_data]. *)
Definition safe_transfer_from_with_data (from to : string) (token_id : Z) (data : bytes) : XM unit :=
  from_bytes ← native (fun st rt => Sav20.decode from);
  to_bytes ← native (fun st rt => Sav20.decode to);
  bail_if (bool_decide (to_bytes = zeros 32)) (Native ZeroAddress);;
  operator ← native (fun st rt => Base.current_caller rt);
  validate_receiver to_bytes operator from_bytes token_id data;;
  native (fun st rt => Sav721.transfer_from st rt from to token_id).

Definition safe_transfer_from (from to : string) (token_id : Z) : XM unit :=
  safe_transfer_from_with_data from to token_id [].

Definition execute_safe_transfer_from (calldata : bytes) : XM bytes :=
  need 96 calldata;;
  from ← decode (Abi.decode_address (arg 0 calldata));
  to ← decode (Abi.decode_address (arg 1 calldata));
  token_id ← decode (Abi.decode_uint256_to_u64 (arg 2 calldata));
  safe_transfer_from (Abi.address_to_hex from) (Abi.address_to_hex to) token_id;;
  mret (Abi.encode_bool true).

Definition execute_safe_transfer_from_with_data (calldata : bytes) : XM bytes :=
  need 128 calldata;;
  from ← decode (Abi.decode_address (arg 0 calldata));
  to ← decode (Abi.decode_address (arg 1 calldata));
  token_id ← decode (Abi.decode_uint256_to_u64 (arg 2 calldata));
  data ← decode (Abi.decode_bytes calldata (arg 3 calldata));
  safe_transfer_from_with_data (Abi.address_to_hex from) (Abi.address_to_hex to) token_id data;;
  mret (Abi.encode_bool true).

(** ** Dispatch *)

Inductive Builtin :=
| FnOwner | FnVersion | FnPaused | FnTransferOwnership | FnPause | FnUnpause
| FnTotalSupply | FnName | FnSymbol | FnBalanceOf | FnBalanceOfBytes32
| FnTransfer | FnTransferCoin | FnFaucetMint | FnApprove | FnTransferFrom | FnAllowance
| FnBalanceOf721 | FnOwnerOf | FnTransferFrom721 | FnApprove721
| FnSafeTransferFrom | FnSafeTransferFromWithData | FnTokenUri | FnSetTokenUri.

Definition signature (f : Builtin) : string :=
  match f with
  | FnOwner => "owner()"
  | FnVersion => "version()"
  | FnPaused => "paused()"
  | FnTransferOwnership => "transfer_ownership(address)"
  | FnPause => "pause()"
  | FnUnpause => "unpause()"
  | FnTotalSupply => "totalSupply()"
  | FnName => "name()"
  | FnSymbol => "symbol()"
  | FnBalanceOf => "balanceOf(address)"
  | FnBalanceOfBytes32 => "balanceOf(bytes32)"
  | FnTransfer => "transfer(address,uint256)"
  | FnTransferCoin => "transferCoin(bytes32,uint256)"
  | FnFaucetMint => "faucetMint(bytes32,uint256)"
  | FnApprove => "approve(address,uint256)"
  | FnTransferFrom => "transferFrom(address,address,uint256)"
  | FnAllowance => "allowance(address,address)"
  | FnBalanceOf721 => "balanceOf(address)"
  | FnOwnerOf => "ownerOf(uint256)"
  | FnTransferFrom721 => "transferFrom(address,address,uint256)"
  | FnApprove721 => "approve(address,uint256)"
  | FnSafeTransferFrom => "safeTransferFrom(address,address,uint256)"
  | FnSafeTransferFromWithData => "safeTransferFrom(address,address,uint256,bytes)"
  | FnTokenUri => "tokenURI(uint256)"
  | FnSetTokenUri => "setTokenURI(uint256,string)"
  end%string.

(** The order in which the selector is compared. *)
Definition dispatch_order : list Builtin :=
  [ FnOwner; FnVersion; FnPaused; FnTransferOwnership; FnPause; FnUnpause; FnTotalSupply; FnName;
    FnSymbol; FnBalanceOf; FnBalanceOfBytes32; FnTransfer; FnTransferCoin; FnFaucetMint; FnApprove;
    FnTransferFrom; FnAllowance; FnBalanceOf721; FnOwnerOf; FnTransferFrom721; FnApprove721;
    FnSafeTransferFrom; FnSafeTransferFromWithData; FnTokenUri; FnSetTokenUri ].

Definition run_builtin (f : Builtin) (calldata : bytes) : XM bytes :=
  match f with
  | FnOwner => execute_owner
  | FnVersion => execute_version
  | FnPaused => execute_paused
  | FnTransferOwnership => execute_transfer_ownership calldata
  | FnPause => execute_pause
  | FnUnpause => execute_unpause
  | FnTotalSupply => execute_total_supply
  | FnName => execute_name
  | FnSymbol => execute_symbol
  | FnBalanceOf | FnBalanceOfBytes32 => execute_balance_of calldata
  | FnTransfer | FnTransferCoin => execute_transfer calldata
  | FnFaucetMint => execute_faucet_mint calldata
  | FnApprove => execute_approve calldata
  | FnTransferFrom => execute_transfer_from calldata
  | FnAllowance => execute_allowance calldata
  | FnBalanceOf721 => execute_balance_of_721 calldata
  | FnOwnerOf => execute_owner_of calldata
  | FnTransferFrom721 => execute_transfer_from_721 calldata
  | FnApprove721 => execute_approve_721 calldata
  | FnSafeTransferFrom => execute_safe_transfer_from calldata
  | FnSafeTransferFromWithData => execute_safe_transfer_from_with_data calldata
  | FnTokenUri => execute_token_uri calldata
  | FnSetTokenUri => execute_set_token_uri calldata
  end.

Definition lookup_builtin (selector : bytes) : option Builtin :=
  List.find (fun f => bool_decide (selector = Abi.calculate_selector (signature f))) dispatch_order.

(** [execute_function_with_selector]. *)
Definition execute_function_with_selector (info : ContractInfo) (selector calldata caller : bytes)
    (value : Z) : XM bytes :=
  bail_if (bool_decide (selector = zeros 4)) ZeroSelector;;
  match lookup_builtin selector with
  | Some f => run_builtin f calldata
  | None => vm_execute info caller value (selector ++ calldata)
  end.
End Safe.

(** ** Cross-contract calls *)

Definition MAX_CONTRACT_INFO_SIZE : Z := 4194304.

(** [storage.get_contract(..)], its size limit, its decoding and the test for
    byte code. *)
Definition load_contract (address : bytes) : result CallErr ContractInfo :=
  match Root.db_contracts db !! address with
  | None => Err ContractNotFound
  | Some raw =>
      if MAX_CONTRACT_INFO_SIZE <? Z.of_nat (length raw) then Err (InfoTooLarge (length raw))
      else match deserialize_info raw with
           | None => Err BadContractInfo
           | Some info => if bool_decide (ci_code info = []) then Err NoBytecode else Ok info
           end
  end.

Definition new_storage (address : bytes) : result CallErr ContractStorage :=
  match CS.new address with Ok c => Ok c | Err e => Err (StorageCreation e) end.

Definition on_runtime {A} (m : Calls.R A) : CM A :=
  zoom c_rt (fun r c => mkCtx (c_gas c) r) FrameFailed m.
Definition on_gas (m : Gas.G unit) : CM unit :=
  zoom c_gas (fun g c => mkCtx g (c_rt c)) CallGas m.

Definition frame (target caller : bytes) (value : Z) (calldata : bytes) (gas : Z) : CallFrame := {|
  cf_contract_address := target; cf_caller := caller; cf_value := value; cf_calldata := calldata;
  cf_return_data := []; cf_gas_remaining := gas; cf_depth := 0; cf_storage_snapshot := zeros 64 |}.

Definition gas_to_forward (gas_limit : option Z) (available : Z) : result CallErr Z :=
  match gas_limit with
  | Some limit => if limit >? available then Err (InsufficientGas limit available) else Ok limit
  | None => Ok available
  end.

Definition validate_return (d : bytes) : result CallErr unit :=
  match Abi.validate_return_data d with Ok _ => Ok tt | Err e => Err (Decode e) end.

(** The body of [call_contract], given the function that runs code. *)
Definition call_body (run : ContractInfo -> bytes -> bytes -> bytes -> Z -> XM bytes)
    (target selector calldata : bytes) (gas_limit : option Z) : CM bytes :=
  c ← get;
  caller_contract ← lift (ok_or (CS.current_contract_address (Calls.as_runtime (c_rt c))) NoCallerContract);
  on_runtime (Calls.check_reentrancy target);;
  info ← lift (load_contract target);
  let full_calldata := selector ++ calldata in
  forward ← lift (gas_to_forward gas_limit (Gas.gas_remaining (c_gas c)));
  on_gas (Gas.consume_call (Some (Z.of_nat (length full_calldata))));;
  target_storage ← lift (new_storage target);
  on_runtime (Calls.push_frame (frame target caller_contract 0 full_calldata forward));;
  c ← get;
  match run info selector calldata caller_contract 0
      (mkExec target_storage (Gas.new forward) (c_rt c)) with
  | (Err e, x) =>
      modify (fun c => mkCtx (c_gas c) (x_rt x));;
      on_runtime Calls.pop_frame;;
      fail (TargetFailed target e)
  | (Ok return_data, x) =>
      modify (fun c => mkCtx (c_gas c) (x_rt x));;
      (if Gas.total_used (x_gas x) >? 0 then on_gas (Gas.consume (Gas.total_used (x_gas x)))
       else mret tt);;
      o ← on_runtime Calls.pop_frame;
      popped ← lift (ok_or o StackCorrupted);
      bail_if (negb (bool_decide (cf_contract_address popped = target))) StackCorrupted;;
      lift (validate_return return_data);;
      mret return_data
  end.

(** [call_contract]; the fuel is the number of further nested frames. *)
Fixpoint call_contract (fuel : nat) : CallContract :=
  match fuel with
  | O => call_body (execute_function_with_selector (fun _ _ _ _ => fail OutOfFuel))
  | S fuel' => call_body (execute_function_with_selector (call_contract fuel'))
  end.

(** The depth limit of every runtime the node builds. *)
Definition call_fuel : nat := 64.

(** [call_contract_hex]. *)
Definition call_contract_hex (target_hex : string) (function_signature : string) (calldata : bytes)
    (gas_limit : option Z) : CM bytes :=
  target ← lift (decode_hex_address target_hex);
  call_contract call_fuel target (Abi.calculate_selector function_signature) calldata gas_limit.
End Exec.

(** ** Call transactions *)

Record CallTransaction := {
  tx_contract_address : string;
  tx_function_selector : bytes;
  tx_calldata : bytes;
  tx_caller : string;
  tx_value : Z;
}.

Definition new_with_value `{Keccak} (contract_address function_signature : string) (calldata : bytes)
    (caller : string) (value : Z) : CallTransaction := {|
  tx_contract_address := contract_address;
  tx_function_selector := Abi.calculate_selector function_signature;
  tx_calldata := calldata; tx_caller := caller; tx_value := value |}.

Definition view_signatures : list string :=
  [ "balanceOf(address)"; "balanceOf(bytes32)"; "totalSupply()"; "owner()"; "version()"; "paused()";
    "allowance(address,address)"; "name()"; "symbol()"; "decimals()"; "tokenURI(uint256)" ]%string.

Definition is_view_function `{Keccak} (tx : CallTransaction) : bool :=
  existsb (fun sig => bool_decide (tx_function_selector tx = Abi.calculate_selector sig)) view_signatures.

(** The world a transaction runs in: database, runtime, the transaction's
    meter, and the account overlay of the block when there is one. *)
Record World := mkWorld {
  w_db : Root.Db;
  w_rt : Calls.RuntimeState;
  w_gas : Gas.GasMeter;
  w_accounts : option (gmap bytes Acct.Account);
}.
Definition set_w_db (d : Root.Db) (w : World) : World := mkWorld d (w_rt w) (w_gas w) (w_accounts w).
Definition set_w_rt (r : Calls.RuntimeState) (w : World) : World :=
  mkWorld (w_db w) r (w_gas w) (w_accounts w).
Definition set_w_accounts (o : option (gmap bytes Acct.Account)) (w : World) : World :=
  mkWorld (w_db w) (w_rt w) (w_gas w) o.

Definition W (A : Type) : Type := M World CallErr A.

Section Tx.
Context `{Hex} `{Keccak} `{U256} `{InfoBincode} `{AccountBincode} `{Sha512}.

(** [get_account(key).ok().flatten().and_then(decode).unwrap_or_default()]. *)
Definition stored_account (db : Root.Db) (key : bytes) : Acct.Account :=
  match Root.db_accounts db !! key with
  | Some raw => match Acct.decode raw with Ok a => a | Err _ => Acct.Account_default end
  | None => Acct.Account_default
  end.

Definition frames {A} (m : Calls.R A) : W A := zoom w_rt set_w_rt FrameFailed m.

Definition on_account (m : Acct.A unit) (a : Acct.Account) : result CallErr Acct.Account :=
  match m a with (Ok _, a') => Ok a' | (Err e, _) => Err (AccountFailed e) end.

(** Step 11a: the contract's account is read from the database even when the
    block has an overlay. *)
Definition transfer_value (caller contract : bytes) (value : Z) : W unit :=
  if value >? 0 then
    w ← get;
    let caller_account :=
      match w_accounts w with
      | Some ov => default (stored_account (w_db w) caller) (ov !! caller)
      | None => stored_account (w_db w) caller
      end in
    if Acct.balance caller_account <? value then
      frames Calls.pop_frame;;
      fail (InsufficientValue (Acct.balance caller_account) value)
    else
      caller_account' ← lift (on_account (Acct.debit value) caller_account);
      contract_account' ← lift (on_account (Acct.credit value) (stored_account (w_db w) contract));
      match w_accounts w with
      | Some _ =>
          modify (fun w => set_w_accounts
            ((fun ov => <[contract := contract_account']> (<[caller := caller_account']> ov))
               <$> w_accounts w) w)
      | None =>
          modify (fun w => set_w_db (Root.mkDb (Root.db_contracts (w_db w))
            (<[contract := Acct.encode contract_account']>
               (<[caller := Acct.encode caller_account']> (Root.db_accounts (w_db w))))
            (Root.db_slots (w_db w))) w)
      end
  else mret tt.

(** Step 12a.1. *)
Definition commit_storage (contract : bytes) (info : ContractInfo) (cs : ContractStorage) : W unit :=
  if bool_decide (overlay cs = ∅) then mret tt
  else
    modify (fun w => set_w_db (Root.commit_contract_storage_overlay contract (overlay cs) (w_db w)) w);;
    w ← get;
    root ← lift (ok_or (Root.compute_storage_root cs (Root.db_slots (w_db w))) RootFailed);
    modify (fun w => set_w_db (Root.mkDb
      (<[contract := serialize_info (set_storage_root root info)]> (Root.db_contracts (w_db w)))
      (Root.db_accounts (w_db w)) (Root.db_slots (w_db w))) w).

(** [ContractFee::default()] on the overlay, reading the database accounts. *)
Definition deduct (gas_consumed : Z) (caller : bytes) (w : World) (ov : gmap bytes Acct.Account) :=
  ContractFee.deduct_fee ContractFee.default_gas_price gas_consumed caller
    (fun key => Ok (Root.db_accounts (w_db w) !! key)) None ov.

(** Step 12b. *)
Definition charge_fee (gas_consumed : Z) (caller : bytes) : W unit :=
  w ← get;
  match w_accounts w with
  | Some ov =>
      if gas_consumed >? 0 then
        match deduct gas_consumed caller w ov with
        | (Ok _, ov') => modify (set_w_accounts (Some ov'))
        | (Err e, ov') =>
            modify (set_w_accounts (Some ov'));;
            frames Calls.pop_frame;;
            fail (FeeFailed e)
        end
      else mret tt
  | None => mret tt
  end.

(** Step 12: the function runs on the world's runtime and meter, with a fresh
    storage; the outcome is kept and inspected later. *)
Definition run_call (info : ContractInfo) (tx : CallTransaction) (cs : ContractStorage) (caller : bytes) :
    W (result CallErr bytes * ContractStorage) := fun w =>
  match execute_function_with_selector (w_db w) (call_contract (w_db w) call_fuel) info
      (tx_function_selector tx) (tx_calldata tx) caller (tx_value tx) (mkExec cs (w_gas w) (w_rt w)) with
  | (r, x) => (Ok (r, x_cs x), mkWorld (w_db w) (x_rt x) (x_gas x) (w_accounts w))
  end.

(** [execute_with_overlay]. *)
Definition execute_with_overlay (tx : CallTransaction) : W bytes :=
  w0 ← get;
  let gas_before := Gas.total_used (w_gas w0) in
  contract_address ← lift (decode_hex_address (tx_contract_address tx));
  info ← lift (load_contract (w_db w0) contract_address);
  caller_address ← lift (decode_hex_address (tx_caller tx));
  let full_calldata := tx_function_selector tx ++ tx_calldata tx in
  cs ← lift (new_storage contract_address);
  (if (0 <? Calls.call_depth (w_rt w0))%nat then frames (Calls.check_reentrancy contract_address)
   else mret tt);;
  frames (Calls.push_frame (frame contract_address caller_address (tx_value tx) full_calldata
    (Gas.gas_remaining (w_gas w0))));;
  transfer_value caller_address contract_address (tx_value tx);;
  out ← run_call info tx cs caller_address;
  w1 ← get;
  let gas_consumed := saturating_sub (Gas.total_used (w_gas w1)) gas_before in
  commit_storage contract_address info (snd out);;
  charge_fee gas_consumed caller_address;;
  match fst out with
  | Err e => frames Calls.pop_frame;; fail (TargetFailed contract_address e)
  | Ok return_data =>
      frames Calls.pop_frame;;
      lift (validate_return return_data);;
      mret return_data
  end.

(** [execute]: no overlay. *)
Definition execute (tx : CallTransaction) : W bytes :=
  modify (set_w_accounts None);; execute_with_overlay tx.
End Tx.

End Call.
