(* ===== verification/CallExecCorrect.v ===== *)
(** * Correctness of the call executor

    Termination and frame discipline of cross-contract calls, the isolation
    of a call transaction, its value transfer, its behaviour on failure, and
    the dispatch. *)

From S2P Require Import Prelude OrdMap Gas ContractStorage Codec BaseContract Savitri20 Savitri721.
From S2P Require Import Account CallStack Fee Evm StorageRoot Abi CallExec.
From Stdlib Require Import Strings.Byte.
From coqutil Require Import Word.Interface.

Module CallC.
Import Call.

(** ** Frames and fuel *)

Definition same_frames (r r' : Calls.RuntimeState) : Prop :=
  Calls.rt_call_stack r' = Calls.rt_call_stack r /\ Calls.max_call_depth r' = Calls.max_call_depth r.

#[global] Instance same_frames_refl : Reflexive same_frames.
Proof. done. Qed.
#[global] Instance same_frames_trans : Transitive same_frames.
Proof. unfold same_frames. intros a b c [] []. split; congruence. Qed.

(** The error reports exhausted fuel, at whatever nesting. *)
Fixpoint starved (e : CallErr) : bool :=
  match e with OutOfFuel => true | TargetFailed _ e => starved e | _ => false end.

(** The innermost cause is the gas charge after a nested call. *)
Fixpoint gas_cause (e : CallErr) : bool :=
  match e with CallGas _ => true | TargetFailed _ e => gas_cause e | _ => false end.

(** At most [n] more frames fit on the stack. *)
Definition room (n : nat) (r : Calls.RuntimeState) : Prop :=
  Calls.stack_ok r /\ Calls.max_call_depth r - Z.of_nat (Calls.call_depth r) <= Z.of_nat n.

Lemma room_same n r r' : same_frames r r' -> room n r -> room n r'.
Proof.
  intros [Hs Hm] [[Hnd Hl Hd] Hr]. unfold room. 
  unfold Calls.call_depth, Calls.call_path in *. split.
  - split; unfold Calls.call_depth, Calls.call_path; rewrite ?Hs, ?Hm; done.
  - by rewrite Hm, Hs.
Qed.

(** One frame too many is left behind. *)
Definition leaked (r r' : Calls.RuntimeState) : Prop :=
  Calls.max_call_depth r' = Calls.max_call_depth r /\
  exists f, Calls.rt_call_stack r' = Calls.rt_call_stack r ++ [f].

Definition err_post (r : Calls.RuntimeState) (e : CallErr) (r' : Calls.RuntimeState) : Prop :=
  starved e = false /\ (same_frames r r' \/ (gas_cause e = true /\ leaked r r')).

Lemma err_post_same r r1 e r' : same_frames r r1 -> err_post r1 e r' -> err_post r e r'.
Proof.
  intros [Hs Hm] [Hf [H|[Hg [Hm' [f Hf']]]]]; split; try done.
  - left. etransitivity; [|done]. done.
  - right. split; [done|]. split; [congruence|]. exists f. congruence.
Qed.

Lemma err_post_here r e : starved e = false -> err_post r e r.
Proof. intros ?. split; [done|by left]. Qed.

(** [spec n m]: with room for [n] frames, [m] restores the stack on success
    and fails, if it does, within [err_post]. *)
Definition spec {A} (n : nat) (m : XM A) : Prop := forall x,
  room n (x_rt x) ->
  wp m (fun _ x' => same_frames (x_rt x) (x_rt x')) (fun e x' => err_post (x_rt x) e (x_rt x')) x.

Section Spec.
Context `{Hex} `{Keccak} `{U256} `{InfoBincode} (db : Root.Db) (n : nat).

Lemma spec_ret {A} (a : A) : spec n (mret a).
Proof. intros x _. by apply wp_ret. Qed.
Lemma spec_fail {A} e : starved e = false -> spec n (fail e : XM A).
Proof. intros He x _. by apply wp_fail, err_post_here. Qed.
Lemma spec_lift {A} (r : result CallErr A) : (forall e, r = Err e -> starved e = false) -> spec n (lift r).
Proof. intros Hr x _. apply wp_lift; [done|]. intros e He. by apply err_post_here, Hr. Qed.
Lemma spec_bail_if c e : starved e = false -> spec n (bail_if c e : XM unit).
Proof. destruct c; [apply spec_fail|intros; apply spec_ret]. Qed.
Lemma spec_bind {A B} (m : XM A) (f : A -> XM B) :
  spec n m -> (forall a, spec n (f a)) -> spec n (m ≫= f).
Proof.
  intros Hm Hf x Hx. apply wp_bind. eapply wp_mono; [by apply Hm| |done].
  intros a x1 Hs1. eapply wp_mono; [by apply Hf, (room_same n (x_rt x))| |].
  - intros b x2 Hs2. by transitivity (x_rt x1).
  - intros e x2 Hs2. by apply (err_post_same _ (x_rt x1)).
Qed.
Lemma spec_native {A} (op : Storage -> Runtime -> X A) : spec n (native db op).
Proof.
  intros x _. unfold wp, native. destruct (op _ _ _) as [[a|e] s]; [done|].
  split; [done|by left].
Qed.
Lemma spec_decode {A} (r : Abi.Res A) : spec n (decode r).
Proof. apply spec_lift. intros e. destruct r; intros; by simplify_eq. Qed.
Lemma spec_need k cd : spec n (need k cd).
Proof. by apply spec_bail_if. Qed.
Lemma spec_hex s : spec n (lift (decode_hex_address s)).
Proof. apply spec_lift. unfold decode_hex_address. intros e. destruct (decode_address s); intros; by simplify_eq. Qed.

Create HintDb call.
#[local] Hint Resolve spec_ret spec_native spec_decode spec_need spec_hex : call.
#[local] Hint Extern 1 (spec _ (fail _)) => (apply spec_fail; reflexivity) : call.
#[local] Hint Extern 1 (spec _ (bail_if _ _)) => (apply spec_bail_if; reflexivity) : call.

Local Ltac spec_auto :=
  repeat first [ solve [auto with call] | apply spec_bind; [|intros ?] | case_match ].

(** A nested call with a gas limit that fits keeps the discipline. *)
Definition good_call (K : CallContract) : Prop := forall target selector cd l c,
  in_range U64_MAX l -> room n (c_rt c) ->
  wp (K target selector cd (Some l))
    (fun _ c' => same_frames (c_rt c) (c_rt c')) (fun e c' => err_post (c_rt c) e (c_rt c')) c.

Variable K : CallContract.
Hypothesis HK : good_call K.

Lemma spec_cross_call target selector cd l :
  in_range U64_MAX l -> spec n (cross_call K target selector cd (Some l)).
Proof.
  intros Hl x Hx. unfold wp, cross_call. pose proof (HK target selector cd l (mkCtx (x_gas x) (x_rt x)) Hl Hx) as Hw.
  unfold wp in Hw. by destruct (K _ _ _ _ _) as [[a|e] c].
Qed.

Lemma spec_safe_transfer from to t d : spec n (safe_transfer_from_with_data db K from to t d).
Proof.
  unfold safe_transfer_from_with_data, validate_receiver. spec_auto.
  apply spec_cross_call. mlia.
Qed.
#[local] Hint Resolve spec_safe_transfer : call.

Lemma spec_builtin f cd : spec n (run_builtin db K f cd).
Proof.
  unfold run_builtin, execute_owner, execute_version, execute_paused, execute_transfer_ownership,
    execute_pause, execute_unpause, execute_total_supply, execute_name, execute_symbol,
    execute_balance_of, execute_transfer, execute_faucet_mint, execute_approve,
    execute_transfer_from, execute_allowance, execute_balance_of_721, execute_owner_of,
    execute_transfer_from_721, execute_approve_721, execute_safe_transfer_from,
    execute_safe_transfer_from_with_data, execute_token_uri, execute_set_token_uri, safe_transfer_from.
  destruct f; spec_auto.
Qed.

(** A meter the interpreter's fuel is computed from. *)
Definition fresh_meter (g : Gas.GasMeter) : Prop :=
  Gas.lasting g /\ Gas.costs g = Gas.GasCosts_default.

Lemma fresh_meter_new l : in_range U64_MAX l -> fresh_meter (Gas.new l).
Proof. intros Hl. split; [by apply Gas.lasting_new|done]. Qed.

Lemma vm_execute_spec info caller value cd x :
  fresh_meter (x_gas x) ->
  wp (vm_execute db info caller value cd) (fun _ x' => same_frames (x_rt x) (x_rt x'))
    (fun e x' => err_post (x_rt x) e (x_rt x')) x.
Proof.
  intros [Hl Hc]. unfold wp, vm_execute, Evm.execute. case_bool_decide; [|split; [done|by left]].
  destruct (Evm.run _ _ _ _) as [[[d|e] vm]|] eqn:E; [done|split; [done|by left]|].
  exfalso. apply Evm.run_lasts in E; [done|]. split; [done|]. split; [done|]. simpl.
  pose proof (Gas.lasting_charges_left _ Hl). lia.
Qed.

Lemma execute_function_spec info sel cd caller value x :
  room n (x_rt x) -> fresh_meter (x_gas x) ->
  wp (execute_function_with_selector db K info sel cd caller value)
    (fun _ x' => same_frames (x_rt x) (x_rt x')) (fun e x' => err_post (x_rt x) e (x_rt x')) x.
Proof.
  intros Hx Hg. unfold execute_function_with_selector. apply wp_bind, wp_bail_if; intros _.
  - by apply err_post_here.
  - destruct (lookup_builtin sel) as [f|]; [by apply spec_builtin|by apply vm_execute_spec].
Qed.
End Spec.

(** ** Cross-contract calls *)

Section Cross.
Context `{Hex} `{Keccak} `{U256} `{InfoBincode} (db : Root.Db).

Lemma load_contract_err t e : load_contract db t = Err e -> starved e = false.
Proof.
  unfold load_contract. intros He. repeat case_match; by simplify_eq.
Qed.

Lemma pop_pushed r f :
  Calls.pop_frame (Calls.set_stack (Calls.rt_call_stack r ++ [f]) r) = (Ok (Some f), r).
Proof. unfold Calls.pop_frame. simpl. rewrite last_snoc, removelast_last. by destruct r. Qed.

(** The runtime with one frame pushed. *)
Definition pushed (f : CallFrame) (r : Calls.RuntimeState) : Calls.RuntimeState :=
  Calls.set_stack (Calls.rt_call_stack r ++ [Calls.set_depth (Z.of_nat (Calls.call_depth r)) f]) r.

Lemma room_pushed n f r : Calls.can_push (cf_contract_address f) r -> room (S n) r -> room n (pushed f r).
Proof.
  intros Hp [Hok Hr]. split; [by apply Calls.stack_ok_push|].
  unfold pushed, Calls.call_depth in *. simpl. rewrite length_app. simpl. lia.
Qed.

(** Popping after the callee: what it leaves on the caller's stack. *)
Lemma pop_after_ok f r r' : same_frames (pushed f r) r' ->
  exists r'', Calls.pop_frame r' =
    (Ok (Some (Calls.set_depth (Z.of_nat (Calls.call_depth r)) f)), r'') /\ same_frames r r''.
Proof.
  intros [Hs Hm]. unfold Calls.pop_frame, pushed in *. simpl in Hs, Hm. rewrite Hs, last_snoc, removelast_last.
  eexists. split; [done|]. by split.
Qed.

Lemma pop_after_err f r e r' : err_post (pushed f r) e r' ->
  exists o r'', Calls.pop_frame r' = (Ok o, r'') /\ starved e = false /\
    (same_frames r r'' \/ (gas_cause e = true /\ leaked r r'')).
Proof.
  intros [Hst [[Hs Hm]|[Hg [Hm [g Hs]]]]]; unfold Calls.pop_frame, pushed in *; simpl in Hs, Hm;
    rewrite Hs, last_snoc, removelast_last; eexists _, _; (split; [done|]; split; [done|]).
  - left. by split.
  - right. split; [done|]. split; [done|]. by eexists.
Qed.

Definition fwd_ok (l : option Z) (c : Ctx) : Prop :=
  in_range U64_MAX (default (Gas.gas_remaining (c_gas c)) l).

Definition call_ok (c : Ctx) (m : CM bytes) : Prop :=
  wp m (fun _ c' => same_frames (c_rt c) (c_rt c')) (fun e c' => err_post (c_rt c) e (c_rt c')) c.

Lemma call_body_spec run n target sel cd l c :
  room n (c_rt c) -> fwd_ok l c ->
  (forall m, n = S m -> forall info caller x, room m (x_rt x) -> fresh_meter (x_gas x) ->
    wp (run info sel cd caller 0) (fun _ x' => same_frames (x_rt x) (x_rt x'))
      (fun e x' => err_post (x_rt x) e (x_rt x')) x) ->
  call_ok c (call_body db run target sel cd l).
Proof.
  intros Hroom Hl Hrun. unfold call_ok, call_body. destruct c as [g r]. simpl in *.
  apply wp_bind, wp_get, wp_bind, wp_lift; simpl; [intros me _|intros e [_ ->]%ok_or_Err; by apply err_post_here].
  apply wp_bind. unfold wp at 1, on_runtime, zoom. simpl.
  unfold Calls.check_reentrancy, mbind at 1, M_bind at 1, get at 1. unfold bail_if at 1.
  destruct (Calls.is_in_call_path target r); simpl; [by apply err_post_here|].
  apply wp_bind, wp_lift; simpl; [intros info _|intros e He; by eapply err_post_here, load_contract_err].
  apply wp_bind, wp_lift; simpl.
  2: { intros e He. apply err_post_here. unfold gas_to_forward in He. repeat case_match; by simplify_eq. }
  intros fwd Hfwd. apply wp_bind. unfold wp at 1, on_gas, zoom. simpl.
  destruct (Gas.consume_call _ g) as [[[]|ge] g1]; simpl; [|by apply err_post_here].
  apply wp_bind, wp_lift; simpl; [intros ts _|].
  2: { intros e He. apply err_post_here. unfold new_storage in He. case_match; by simplify_eq. }
  set (f := frame target me 0 (sel ++ cd) fwd).
  apply wp_bind. unfold wp at 1, on_runtime, zoom. simpl.
  assert (wp (Calls.push_frame f) (fun _ r' => r' = pushed f r /\ Calls.can_push target r)
    (fun _ r' => r' = r) r) as Hpush.
  { apply Calls.wp_push_frame; [apply Hroom|by intros; split|done]. }
  unfold wp in Hpush. destruct (Calls.push_frame f r) as [[[]|pe] r1]; [|subst; by apply err_post_here].
  destruct Hpush as [-> Hcan]. apply wp_bind, wp_get. simpl.
  destruct n as [|m].
  { exfalso. destruct Hcan as [_ Hc]. destruct Hroom as [_ Hr]. lia. }
  specialize (Hrun m eq_refl info me (mkExec ts (Gas.new fwd) (pushed f r))).
  assert (fresh_meter (Gas.new fwd)) as Hfresh.
  { apply fresh_meter_new. unfold gas_to_forward, fwd_ok in *. destruct l; simpl in *; repeat case_match; by simplify_eq. }
  specialize (Hrun (room_pushed m f r Hcan Hroom) Hfresh). unfold wp in Hrun. simpl in Hrun.
  destruct (run _ _ _ _ _ _) as [[d|e] x].
  - apply wp_bind, wp_modify. simpl. destruct (pop_after_ok f r (x_rt x) Hrun) as (r2 & Hpop & Hsame).
    assert (forall g', wp (o ← on_runtime Calls.pop_frame;
        popped ← lift (ok_or o StackCorrupted);
        bail_if (negb (bool_decide (cf_contract_address popped = target))) StackCorrupted;;
        lift (validate_return d);; mret d)
      (fun _ c' => same_frames r (c_rt c')) (fun e c' => err_post r e (c_rt c')) (mkCtx g' (x_rt x))) as Htail.
    { intros g'. apply wp_bind. unfold wp at 1, on_runtime, zoom. cbn [c_rt]. rewrite Hpop.
      apply wp_bind, wp_lift; simpl; [intros ? [= <-]|done]. simpl.
      rewrite bool_decide_eq_true_2 by done. simpl. apply wp_bind, wp_ret, wp_bind, wp_lift; simpl.
      - intros _ _. by apply wp_ret.
      - intros e He. split; [|by left]. unfold validate_return in He. case_match; by simplify_eq. }
    destruct (Gas.total_used (x_gas x) >? 0); [|apply wp_bind, wp_ret, Htail].
    apply wp_bind. unfold wp at 1, on_gas, zoom. simpl.
    destruct (Gas.consume _ g1) as [[[]|ge] g2]; [apply Htail|]. split; [done|]. right. split; [done|].
    destruct Hrun as [Hs Hm]. split; [exact Hm|]. eexists. exact Hs.
  - apply wp_bind, wp_modify. cbn [c_gas]. destruct (pop_after_err f r e (x_rt x) Hrun) as (o & r2 & Hpop & Hst & Hc).
    unfold Calls.pop_frame in Hpop. injection Hpop as _ <-. apply wp_bind. unfold wp at 1, on_runtime, zoom.
    apply wp_fail. by split.
Qed.

Lemma call_contract_good n : good_call n (call_contract db n).
Proof.
  induction n as [|n IH]; intros target sel cd l c Hl Hr; apply (call_body_spec _ _ _ _ _ (Some l) c Hr Hl).
  - done.
  - intros m [= <-] info caller x Hx Hg. by apply (execute_function_spec db n).
Qed.

(** Cross-contract calls terminate and keep the call stack.  From any
    sound stack of a runtime with the default depth limit and whatever the
    target does (built-ins, byte code, nested calls to any depth), a call
    never runs out of the 64 nested frames the model grants it; when it
    succeeds the stack is the caller's again; and when it fails the stack is
    the caller's again too, except that a failure to charge the gas of a
    nested call leaves exactly one stale frame behind. *)
Theorem call_contract_disciplined (target selector calldata : bytes) (gas_limit : option Z) (c : Ctx) :
  Calls.stack_ok (c_rt c) -> Calls.max_call_depth (c_rt c) <= Calls.MAX_CALL_DEPTH ->
  in_range U64_MAX (default (Gas.gas_remaining (c_gas c)) gas_limit) ->
  match call_contract db call_fuel target selector calldata gas_limit c with
  | (Ok _, c') => Calls.rt_call_stack (c_rt c') = Calls.rt_call_stack (c_rt c)
  | (Err e, c') => starved e = false /\
      (Calls.rt_call_stack (c_rt c') = Calls.rt_call_stack (c_rt c) \/
       (gas_cause e = true /\
        exists f, Calls.rt_call_stack (c_rt c') = Calls.rt_call_stack (c_rt c) ++ [f]))
  end.
Proof.
  intros Hok Hm Hl.
  assert (room 64 (c_rt c)) as Hroom by (split; [done|unfold Calls.MAX_CALL_DEPTH in Hm; lia]).
  assert (call_ok c (call_contract db 64 target selector calldata gas_limit)) as Hw.
  { apply (call_body_spec _ 64); [done|done|]. intros m [= <-] info caller x Hx Hg.
    apply (execute_function_spec db 63); [apply call_contract_good|done|done]. }
  unfold call_ok, wp in Hw. unfold call_fuel.
  destruct (call_contract db 64 target selector calldata gas_limit c) as [[d|e] c'].
  - apply Hw.
  - destruct Hw as [Hs [[H1' _]|[Hg [_ Hf]]]]; split; auto.
Qed.
End Cross.


(** ** Dispatch *)

#[global] Instance Builtin_eq_dec : EqDecision Builtin.
Proof. solve_decision. Defined.

Section Dispatch.
Context `{Keccak}.

(** The functions whose selector test is not shadowed by an earlier one. *)
Definition reachable : list Builtin :=
  [ FnOwner; FnVersion; FnPaused; FnTransferOwnership; FnPause; FnUnpause; FnTotalSupply; FnName;
    FnSymbol; FnBalanceOf; FnBalanceOfBytes32; FnTransfer; FnTransferCoin; FnFaucetMint; FnApprove;
    FnTransferFrom; FnAllowance; FnOwnerOf; FnSafeTransferFrom; FnSafeTransferFromWithData;
    FnTokenUri; FnSetTokenUri ].

Definition sel_of (f : Builtin) : bytes := Abi.calculate_selector (signature f).

Lemma lookup_reachable sel :
  lookup_builtin sel = List.find (fun f => bool_decide (sel = sel_of f)) reachable.
Proof.
  unfold lookup_builtin, dispatch_order, reachable, List.find. fold sel_of.
  repeat (match goal with
    | |- context [bool_decide (sel = Abi.calculate_selector (signature ?f))] =>
        change (Abi.calculate_selector (signature f)) with (sel_of f)
    end).
  change (sel_of FnBalanceOf721) with (sel_of FnBalanceOf).
  change (sel_of FnTransferFrom721) with (sel_of FnTransferFrom).
  change (sel_of FnApprove721) with (sel_of FnApprove).
  repeat (match goal with
    | |- context [bool_decide (sel = sel_of ?f)] =>
        destruct (bool_decide (sel = sel_of f)); [reflexivity|]
    end). reflexivity.
Qed.

Lemma find_injective (l : list Builtin) f : NoDup (sel_of <$> l) -> f ∈ l ->
  List.find (fun g => bool_decide (sel_of f = sel_of g)) l = Some f.
Proof.
  induction l as [|g l IH]; intros Hnd Hin; [by apply not_elem_of_nil in Hin|].
  simpl in Hnd. apply NoDup_cons in Hnd as [Hg Hnd]. simpl.
  apply elem_of_cons in Hin as [->|Hin]; [by rewrite bool_decide_eq_true_2|].
  rewrite bool_decide_eq_false_2; [by apply IH|].
  intros E. apply Hg. rewrite <- E. by apply list_elem_of_fmap_2.
Qed.

(** The dispatch is a function of the selector alone, and it cannot
    serve both token standards.  If the selectors of the distinct signatures
    differ, every built-in is found by its own selector, a selector of none
    of them goes to the interpreter, and, whatever the hash, the SAVITRI-721
    variants of balanceOf, approve and transferFrom are never run: an NFT
    contract that receives transferFrom runs the fungible transfer on its
    storage. *)
Theorem dispatch_correct (sel : bytes) (f : Builtin) :
  (NoDup (sel_of <$> reachable) -> f ∈ reachable -> lookup_builtin (sel_of f) = Some f) /\
  (sel ∉ sel_of <$> dispatch_order -> lookup_builtin sel = None) /\
  (lookup_builtin sel = Some f -> f ∈ reachable /\ sel = sel_of f) /\
  FnBalanceOf721 ∉ reachable /\ FnTransferFrom721 ∉ reachable /\ FnApprove721 ∉ reachable.
Proof.
  split; [|split; [|split]].
  - intros Hnd Hf. rewrite lookup_reachable. by apply find_injective.
  - intros Hn. unfold lookup_builtin. destruct (List.find _ _) as [g|] eqn:E; [|done].
    apply List.find_some in E as [Hin Hg]. apply bool_decide_eq_true in Hg.
    exfalso. apply Hn. rewrite Hg. apply (list_elem_of_fmap_2 sel_of). by apply list_elem_of_In.
  - rewrite lookup_reachable. intros E. apply List.find_some in E as [Hin Hg].
    apply bool_decide_eq_true in Hg. split; [by apply list_elem_of_In|done].
  - unfold reachable. rewrite !not_elem_of_cons. repeat split; try discriminate; apply not_elem_of_nil.
Qed.
End Dispatch.

(** ** Value transfer *)

Section Value.
Context `{Hex} `{Keccak} `{U256} `{InfoBincode} `{AccountBincode} `{Sha512}.

(** A value transfer inside a block debits the caller's current balance
    but credits the contract's balance of the database.  The call succeeds
    exactly on the stated bounds; afterwards the contract's pending balance
    has been replaced by the stored one plus the value.  So the money of the
    two accounts is conserved when the overlay holds no newer balance for the
    contract, an earlier deposit of the block is lost otherwise, and a
    contract that calls itself with value receives it without paying. *)
Theorem transfer_value_effect (caller contract : bytes) (value : Z) (w : World)
    (ov : gmap bytes Acct.Account) :
  let ca := default (stored_account (w_db w) caller) (ov !! caller) in
  let ct := stored_account (w_db w) contract in
  w_accounts w = Some ov -> 0 < value -> value <= Acct.balance ca ->
  Acct.balance ct + value <= U128_MAX ->
  exists ov', transfer_value caller contract value w = (Ok tt, set_w_accounts (Some ov') w) /\
    ov' !! contract = Some (Acct.mkAccount (Acct.balance ct + value) (Acct.nonce ct)) /\
    (forall k, k <> caller -> k <> contract -> ov' !! k = ov !! k) /\
    (caller <> contract ->
     ov' !! caller = Some (Acct.mkAccount (Acct.balance ca - value) (Acct.nonce ca)) /\
     forall pending, ov !! contract = Some pending ->
       (Acct.balance ca - value) + (Acct.balance ct + value) =
       Acct.balance ca + Acct.balance pending + (Acct.balance ct - Acct.balance pending)).
Proof.
  intros ca ct Hov Hv Hca Hct. unfold transfer_value, mbind, M_bind, get.
  destruct (Z.gtb_spec value 0); [|lia]. rewrite Hov. fold ca.
  destruct (Z.ltb_spec (Acct.balance ca) value); [lia|].
  unfold lift, on_account, Acct.debit, Acct.credit, mbind, M_bind, get, lift, modify.
  unfold checked_sub. destruct (Z.leb_spec value (Acct.balance ca)); [|lia]. cbn [ok_or].
  fold ct. unfold checked_add. destruct (Z.leb_spec (Acct.balance ct + value) U128_MAX); [|lia].
  cbn [ok_or]. rewrite Hov. cbn [fmap option_fmap option_map].
  eexists. split; [reflexivity|]. split; [apply lookup_insert_eq|]. split.
  - intros k Hk1 Hk2. by rewrite !lookup_insert_ne.
  - intros Hne. split; [|intros; lia]. by rewrite lookup_insert_ne, lookup_insert_eq.
Qed.

(** ** What a transaction can change *)

(** Nothing outside the contract [a] and the accounts of [a] and [c]. *)
Record confined (a c : bytes) (w w' : World) : Prop := {
  cf_slots : forall key, (forall s, key <> CS.make_storage_key a s) ->
    Root.db_slots (w_db w') !! key = Root.db_slots (w_db w) !! key;
  cf_contracts : forall k, k <> a ->
    Root.db_contracts (w_db w') !! k = Root.db_contracts (w_db w) !! k;
  cf_accounts : forall k, k <> a -> k <> c ->
    Root.db_accounts (w_db w') !! k = Root.db_accounts (w_db w) !! k;
  cf_overlay : forall ov, w_accounts w = Some ov ->
    Root.db_accounts (w_db w') = Root.db_accounts (w_db w) /\
    exists ov', w_accounts w' = Some ov' /\ forall k, k <> a -> k <> c -> ov' !! k = ov !! k;
  cf_no_overlay : w_accounts w = None -> w_accounts w' = None;
}.

Lemma confined_same a c w w' :
  w_db w' = w_db w -> w_accounts w' = w_accounts w -> confined a c w w'.
Proof. intros Hd Ho. split; rewrite ?Hd, ?Ho; try done. intros ov Hov. split; [done|]. by exists ov. Qed.

Lemma confined_trans a c w1 w2 w3 : confined a c w1 w2 -> confined a c w2 w3 -> confined a c w1 w3.
Proof.
  intros [A1 A2 A3 A4 A5] [B1 B2 B3 B4 B5]. split.
  - intros key Hk. by rewrite B1, A1.
  - intros k Hk. by rewrite B2, A2.
  - intros k Hk1 Hk2. by rewrite B3, A3.
  - intros ov Hov. destruct (A4 ov Hov) as (E1 & ov1 & Ho1 & Hk1).
    destruct (B4 ov1 Ho1) as (E2 & ov2 & Ho2 & Hk2). split; [congruence|]. exists ov2. split; [done|].
    intros k ? ?. by rewrite Hk2, Hk1.
  - auto.
Qed.

Definition confines {A} (a c : bytes) (m : W A) : Prop :=
  forall w, wp m (fun _ w' => confined a c w w') (fun _ w' => confined a c w w') w.

Lemma confines_bind {A B} a c (m : W A) (f : A -> W B) :
  confines a c m -> (forall x, confines a c (f x)) -> confines a c (m ≫= f).
Proof.
  intros Hm Hf w. apply wp_bind. eapply wp_mono; [apply Hm| |done].
  intros x w1 H1'. eapply wp_mono; [apply Hf| |]; intros ? w2 H2'; by apply (confined_trans _ _ _ w1).
Qed.

Lemma confines_still {A} a c (m : W A) :
  (forall w, w_db (snd (m w)) = w_db w /\ w_accounts (snd (m w)) = w_accounts w) -> confines a c m.
Proof.
  intros Hm w. unfold wp. destruct (Hm w) as [Hd Ho].
  destruct (m w) as [[x|e] w']; by apply confined_same.
Qed.

Lemma confines_lift_ok {A B} a c (x : A) (f : A -> W B) : confines a c (f x) -> confines a c (lift (Ok x) ≫= f).
Proof. intros Hf w. apply wp_bind, wp_lift; [intros ? [= <-]; apply Hf|done]. Qed.

Lemma confines_frames {A} a c (m : Calls.R A) : confines a c (frames m).
Proof. apply confines_still. intros w. unfold frames, zoom. by destruct (m (w_rt w)) as [[?|?] ?]. Qed.
Lemma confines_lift {A} a c (r : result CallErr A) : confines a c (lift r).
Proof. by apply confines_still. Qed.
Lemma confines_ret {A} a c (x : A) : confines a c (mret x).
Proof. by apply confines_still. Qed.
Lemma confines_fail {A} a c e : confines a c (fail e : W A).
Proof. by apply confines_still. Qed.
Lemma confines_get a c : confines a c get.
Proof. by apply confines_still. Qed.

Lemma confines_run_call a c info tx cs caller : confines a c (run_call info tx cs caller).
Proof.
  apply confines_still. intros w. unfold run_call.
  by destruct (execute_function_with_selector _ _ _ _ _ _ _ _) as [r x].
Qed.

Lemma confines_transfer_value a c value : confines a c (transfer_value c a value).
Proof.
  intros w. unfold transfer_value. destruct (value >? 0); [|by apply confines_ret].
  apply wp_bind, wp_get. case_match.
  { apply confines_bind; [apply confines_frames|intros _; apply confines_fail]. }
  apply wp_bind, wp_lift; [intros a1 _|intros; by apply confined_same].
  apply wp_bind, wp_lift; [intros a2 _|intros; by apply confined_same].
  destruct (w_accounts w) as [ov|] eqn:Hov; apply wp_modify; split; simpl; try done.
  - intros ov0 E0. rewrite Hov in *. simplify_eq/=. split; [done|]. eexists. split; [done|].
    intros k Hk1 Hk2. by rewrite !lookup_insert_ne.
  - intros E0. congruence.
  - intros k Hk1 Hk2. by rewrite !lookup_insert_ne.
  - intros ov0 E0. congruence.
Qed.

Lemma commit_fold_other (a : bytes) (l : list (Z * bytes)) (m : gmap bytes bytes) key :
  (forall s, key <> CS.make_storage_key a s) -> fold_left (Root.commit_slot a) l m !! key = m !! key.
Proof.
  intros Hk. revert m; induction l as [|[s v] l IH]; intros m; [done|]. simpl. rewrite IH.
  unfold Root.commit_slot. simpl. specialize (Hk s).
  destruct (is_zero v); [apply lookup_delete_ne|apply lookup_insert_ne]; congruence.
Qed.

Lemma confines_commit a c info cs : confines a c (commit_storage a info cs).
Proof.
  unfold commit_storage. case_bool_decide; [apply confines_ret|]. apply confines_bind; [|intros _].
  - intros w. apply wp_modify. split; simpl; try done.
    + intros key Hk. by apply commit_fold_other.
    + intros ov Hov. split; [done|]. by exists ov.
  - apply confines_bind; [apply confines_get|intros w0]. apply confines_bind; [apply confines_lift|intros root].
    intros w. apply wp_modify. split; simpl; try done.
    + intros k Hk. by rewrite lookup_insert_ne.
    + intros ov Hov. split; [done|]. by exists ov.
Qed.

Lemma deduct_fee_other (p gas : Z) (c : bytes) (db : ContractFee.AccountDb) (q : option Z)
    (ov : gmap bytes Acct.Account) (k : bytes) :
  k <> c -> snd (ContractFee.deduct_fee p gas c db q ov) !! k = ov !! k.
Proof.
  intros Hk. unfold ContractFee.deduct_fee, mbind, M_bind, lift, get, bail_if, fail, mret, M_ret, modify.
  repeat (case_match; simplify_eq/=; try done). by rewrite lookup_insert_ne.
Qed.

Lemma confines_charge_fee a c gas : confines a c (charge_fee gas c).
Proof.
  intros w. unfold charge_fee. apply wp_bind, wp_get. destruct (w_accounts w) as [ov|] eqn:Hov.
  2: { by apply confines_ret. }
  destruct (gas >? 0); [|by apply confines_ret].
  pose proof (fun k => deduct_fee_other ContractFee.default_gas_price gas c
    (fun key => Ok (Root.db_accounts (w_db w) !! key)) None ov k) as Hk.
  fold (deduct gas c w ov) in Hk. destruct (deduct gas c w ov) as [[fee|e] ov']; simpl in Hk.
  - apply wp_modify. split; simpl; try done; [|congruence]. intros ov0 E0. split; [done|].
    exists ov'. split; [done|]. intros k _ Hc. rewrite Hov in E0. injection E0 as <-. by apply Hk.
  - apply wp_bind, wp_modify.
    assert (confined a c w (set_w_accounts (Some ov') w)) as Hc.
    { split; simpl; try done; [|congruence]. intros ov0 E0. split; [done|]. exists ov'. split; [done|].
      intros k _ Hc. rewrite Hov in E0. injection E0 as <-. by apply Hk. }
    eapply wp_mono; [apply (confines_bind a c); [apply confines_frames|intros _; apply confines_fail]| |];
      intros ? w2 H2'; by apply (confined_trans _ _ _ (set_w_accounts (Some ov') w)).
Qed.

(** C33: A call transaction is confined to the contract it calls and to two
    accounts.  However it ends, it changes no storage slot of another
    contract, no other contract record and no account but the caller's and
    the contract's; with a block overlay the database accounts do not change
    at all.  In particular what a nested call writes to another contract is
    never committed. *)
Theorem execute_confined (tx : CallTransaction) (w : World) (a c : bytes) :
  decode_hex_address (tx_contract_address tx) = Ok a -> decode_hex_address (tx_caller tx) = Ok c ->
  confined a c w (snd (execute_with_overlay tx w)).
Proof.
  intros Ha Hc. assert (confines a c (execute_with_overlay tx)) as Hk.
  { unfold execute_with_overlay. apply confines_bind; [apply confines_get|intros w0].
    rewrite Ha. apply confines_lift_ok.
    apply confines_bind; [apply confines_lift|intros info]. rewrite Hc. apply confines_lift_ok.
    apply confines_bind; [apply confines_lift|intros cs].
    apply confines_bind; [case_match; [apply confines_frames|apply confines_ret]|intros _].
    apply confines_bind; [apply confines_frames|intros _].
    apply confines_bind; [apply confines_transfer_value|intros _].
    apply confines_bind; [apply confines_run_call|intros [res cs']].
    apply confines_bind; [apply confines_get|intros w1].
    apply confines_bind; [apply confines_commit|intros _].
    apply confines_bind; [apply confines_charge_fee|intros _].
    destruct res as [d|e]; simpl; apply confines_bind; try apply confines_frames; intros _;
      [|apply confines_fail]. apply confines_bind; [apply confines_lift|intros _; apply confines_ret]. }
  specialize (Hk w). unfold wp in Hk. by destruct (execute_with_overlay tx w) as [[d|e] w'].
Qed.
(** ** What a failed call leaves behind *)

(** The transfer without an overlay. *)
Lemma transfer_value_db caller contract value w :
  w_accounts w = None -> 0 <= value ->
  let ca := stored_account (w_db w) caller in
  let ct := stored_account (w_db w) contract in
  value <= Acct.balance ca -> Acct.balance ct + value <= U128_MAX ->
  exists accounts,
    transfer_value caller contract value w =
      (Ok tt, set_w_db (Root.mkDb (Root.db_contracts (w_db w)) accounts (Root.db_slots (w_db w))) w) /\
    (0 < value ->
     accounts !! contract = Some (Acct.encode (Acct.mkAccount (Acct.balance ct + value) (Acct.nonce ct)))).
Proof.
  intros Ho Hv ca ct Hca Hct. unfold transfer_value, mbind, M_bind, get.
  destruct (Z.gtb_spec value 0).
  - rewrite Ho. fold ca. destruct (Z.ltb_spec (Acct.balance ca) value); [lia|].
    unfold lift, on_account, Acct.debit, Acct.credit, mbind, M_bind, get, lift, modify.
    unfold checked_sub. destruct (Z.leb_spec value (Acct.balance ca)); [|lia]. cbn [ok_or].
    fold ct. unfold checked_add. destruct (Z.leb_spec (Acct.balance ct + value) U128_MAX); [|lia].
    cbn [ok_or]. eexists. split; [reflexivity|]. intros _. apply lookup_insert_eq.
  - exists (Root.db_accounts (w_db w)). split; [|lia]. destruct w as [[] ? ? ?]. done.
Qed.

Lemma commit_fold_one a s v m :
  fold_left (Root.commit_slot a) (btree_iter {[s := v]}) m !! CS.make_storage_key a s =
  if is_zero v then None else Some v.
Proof.
  unfold btree_iter. rewrite map_to_list_singleton. simpl. unfold Root.commit_slot. simpl.
  destruct (is_zero v); [apply lookup_delete_eq|apply lookup_insert_eq].
Qed.

Lemma wp_entry_check a (b : bool) w (Q : unit -> World -> Prop) R :
  Calls.can_push a (w_rt w) -> Q tt w ->
  wp (if b then frames (Calls.check_reentrancy a) else mret tt : W unit) Q R w.
Proof.
  intros [Hn _] HQ. destruct b; [|by apply wp_ret].
  unfold wp, frames, zoom, Calls.check_reentrancy, mbind, M_bind, get, bail_if.
  destruct (Calls.is_in_call_path a (w_rt w)) eqn:E; [by apply Calls.is_in_call_path_spec in E|by destruct w].
Qed.

Lemma wp_frames_push f w (Q : unit -> World -> Prop) R :
  Calls.stack_ok (w_rt w) -> Calls.can_push (cf_contract_address f) (w_rt w) ->
  Q tt (set_w_rt (pushed f (w_rt w)) w) -> wp (frames (Calls.push_frame f)) Q R w.
Proof.
  intros Hok Hp HQ.
  assert (wp (Calls.push_frame f) (fun _ r => r = pushed f (w_rt w)) (fun _ _ => False) (w_rt w)) as Hw
    by by apply Calls.wp_push_frame.
  unfold wp, frames, zoom in *. by destruct (Calls.push_frame f (w_rt w)) as [[[]|pe] r1]; [subst r1|].
Qed.

Lemma run_call_reverts `{!U256Laws} a c info tx k v w lim :
  ci_code info = Evm.store_revert_program k v -> length (ci_address info) = 32%nat ->
  tx_function_selector tx <> zeros 4 -> lookup_builtin (tx_function_selector tx) = None ->
  w_gas w = Gas.new lim -> in_range U64_MAX lim ->
  run_call info tx (mkCS a ∅ ∅) c w =
    (Ok (Err (VmFailed (Evm.Revert [])), Evm.stored_in k v (mkCS a ∅ ∅)),
     mkWorld (w_db w) (w_rt w) (Evm.metered lim 5006 7) (w_accounts w)).
Proof.
  intros Hcode Hli Hsel Hlk Hg Hlim.
  unfold run_call, execute_function_with_selector, bail_if, mbind, M_bind.
  rewrite bool_decide_eq_false_2 by done. unfold mret, M_ret. rewrite Hlk.
  unfold vm_execute, Evm.execute. cbn [Evm.contract_address x_rt x_cs x_gas].
  rewrite bool_decide_eq_true_2 by done. rewrite Hg.
  destruct (Gas.lasting_new lim Hlim) as [_ ->].
  replace (Z.to_nat (lim + 100)) with (S (S (S (S (S (S (Z.to_nat (lim + 94)))))))) by mlia.
  set (e := {| Evm.code := _ |}).
  by destruct (Evm.run_store_revert (Root.as_storage (w_db w)) e k v (mkCS a ∅ ∅) lim
    (Z.to_nat (lim + 94)) Hcode) as (p & ->).
Qed.

Context `{!U256Laws}.

(** A call that fails is committed all the same.  A contract that stores
    a word and then reverts makes the transaction fail, but the word is in
    the database afterwards and the value sent with the call stays with the
    contract; the stack is the caller's again. *)
Theorem failed_call_commits (tx : CallTransaction) (w : World) (a c : bytes) (info : ContractInfo)
    (k v : uint) (lim : Z) :
  decode_hex_address (tx_contract_address tx) = Ok a -> length a = 32%nat ->
  decode_hex_address (tx_caller tx) = Ok c ->
  load_contract (w_db w) a = Ok info -> length (ci_address info) = 32%nat ->
  ci_code info = Evm.store_revert_program k v ->
  tx_function_selector tx <> zeros 4 -> lookup_builtin (tx_function_selector tx) = None ->
  w_accounts w = None -> w_gas w = Gas.new lim -> in_range U64_MAX lim ->
  Calls.stack_ok (w_rt w) -> Calls.can_push a (w_rt w) ->
  0 <= tx_value tx -> tx_value tx <= Acct.balance (stored_account (w_db w) c) ->
  Acct.balance (stored_account (w_db w) a) + tx_value tx <= U128_MAX ->
  exists e w', execute_with_overlay tx w = (Err e, w') /\
    (e = RootFailed \/
     (e = TargetFailed a (VmFailed (Evm.Revert [])) /\ w_rt w' = w_rt w)) /\
    Root.db_slots (w_db w') !! CS.make_storage_key a (word.unsigned k mod 2 ^ 64) =
      (if is_zero (to_big_endian v) then None else Some (to_big_endian v)) /\
    (0 < tx_value tx ->
     Root.db_accounts (w_db w') !! a =
       Some (Acct.encode (Acct.mkAccount (Acct.balance (stored_account (w_db w) a) + tx_value tx)
         (Acct.nonce (stored_account (w_db w) a))))).
Proof.
  intros Ha Hla Hc Hi Hli Hcode Hsel Hlk Ho Hg Hlim Hok Hpush Hv Hb1 Hb2.
  set (post := fun e w' => (e = RootFailed \/
     (e = TargetFailed a (VmFailed (Evm.Revert [])) /\ w_rt w' = w_rt w)) /\
    Root.db_slots (w_db w') !! CS.make_storage_key a (word.unsigned k mod 2 ^ 64) =
      (if is_zero (to_big_endian v) then None else Some (to_big_endian v)) /\
    (0 < tx_value tx ->
     Root.db_accounts (w_db w') !! a =
       Some (Acct.encode (Acct.mkAccount (Acct.balance (stored_account (w_db w) a) + tx_value tx)
         (Acct.nonce (stored_account (w_db w) a)))))).
  assert (wp (execute_with_overlay tx) (fun _ _ => False) post w) as Hw.
  2: { unfold wp in Hw. destruct (execute_with_overlay tx w) as [[?|e] w']; [done|]. by exists e, w'. }
  unfold execute_with_overlay. apply wp_bind, wp_get, wp_bind, wp_lift; rewrite Ha; [|done].
  intros ? [= <-]. apply wp_bind, wp_lift; rewrite Hi; [|done]. intros ? [= <-].
  apply wp_bind, wp_lift; rewrite Hc; [|done]. intros ? [= <-].
  apply wp_bind, wp_lift; unfold new_storage, CS.new; rewrite bool_decide_eq_true_2 by done; [|done].
  intros ? [= <-]. apply wp_bind, wp_entry_check; [done|].
  set (f := frame _ _ _ _ _). apply wp_bind, wp_frames_push; [done..|].
  destruct (transfer_value_db c a (tx_value tx) (set_w_rt (pushed f (w_rt w)) w)) as (acc & Ht & Hacc); [done..|].
  apply wp_bind. unfold wp at 1. rewrite Ht. clear Ht.
  apply wp_bind. unfold wp at 1. rewrite (run_call_reverts a c info tx k v _ lim) by done.
  apply wp_bind, wp_get, wp_bind. cbn [fst snd].
  unfold commit_storage. unfold Evm.stored_in. cbn [overlay].
  rewrite bool_decide_eq_false_2 by apply insert_non_empty.
  apply wp_bind, wp_modify, wp_bind, wp_get, wp_bind.
  cbn [w_db set_w_db Root.db_slots Root.db_accounts Root.db_contracts Root.commit_contract_storage_overlay].
  assert (forall w', Root.db_slots (w_db w') = fold_left (Root.commit_slot a)
      (btree_iter {[word.unsigned k mod 2 ^ 64 := to_big_endian v]}) (Root.db_slots (w_db w)) ->
    Root.db_accounts (w_db w') = acc -> forall er, (er = RootFailed \/
      (er = TargetFailed a (VmFailed (Evm.Revert [])) /\ w_rt w' = w_rt w)) -> post er w') as Hpost.
  { intros w' Hs Hac er Her. split; [done|]. rewrite Hs, Hac. split; [apply commit_fold_one|done]. }
  apply wp_lift.
  2: { intros er [_ ->]%ok_or_Err. apply Hpost; [done..|by left]. }
  intros root _. apply wp_modify, wp_bind. unfold charge_fee. apply wp_bind, wp_get.
  cbn [w_accounts set_w_db set_w_rt]. rewrite Ho. apply wp_ret, wp_bind.
  unfold wp at 1, frames, zoom. cbn [w_rt set_w_db set_w_rt]. unfold pushed. rewrite pop_pushed.
  apply wp_fail, Hpost; [done..|]. by right.
Qed.
(** ** Termination and frame discipline of a transaction *)

(** At most [n] frames more than before. *)
Definition grown (n : nat) (r r' : Calls.RuntimeState) : Prop :=
  exists l, Calls.rt_call_stack r' = Calls.rt_call_stack r ++ l /\ (length l <= n)%nat.

Definition tx_post (r : Calls.RuntimeState) (e : CallErr) (w' : World) : Prop :=
  starved e = false /\ grown 2 r (w_rt w').

Lemma room_mono n r : room n r -> room (S n) r.
Proof. intros [? ?]. split; [done|lia]. Qed.

Lemma grown_same n r r1 r2 : same_frames r1 r2 -> grown n r r1 -> grown n r r2.
Proof. unfold grown. by intros [-> _]. Qed.

(** [rb]: the runtime of [r] with the transaction's frame pushed, and perhaps
    a leaked one.  [m] leaves its frames alone or fails within [tx_post]. *)
Definition tx_spec {A} (r rb : Calls.RuntimeState) (m : W A) : Prop := forall w,
  same_frames rb (w_rt w) ->
  wp m (fun _ w' => same_frames rb (w_rt w')) (tx_post r) w.

Lemma tx_spec_bind {A B} r rb (m : W A) (k : A -> W B) :
  tx_spec r rb m -> (forall a, tx_spec r rb (k a)) -> tx_spec r rb (m ≫= k).
Proof. intros Hm Hk w Hw. apply wp_bind. eapply wp_mono; [by apply Hm| |done]. intros a w1. apply Hk. Qed.

(** Popping restores the stack, or leaves what leaked. *)
Lemma pop_grown r f r' : same_frames (pushed f r) r' \/ leaked (pushed f r) r' ->
  exists o r2, Calls.pop_frame r' = (Ok o, r2) /\ grown 1 r r2 /\
    (same_frames (pushed f r) r' -> same_frames r r2).
Proof.
  intros [[Hs Hm]|[Hm [g Hs]]]; unfold Calls.pop_frame, pushed in *; simpl in Hs, Hm;
    rewrite Hs, last_snoc, removelast_last; eexists _, _; (split; [done|]); split.
  - exists []. simpl. rewrite app_nil_r. split; [done|lia].
  - by split.
  - eexists. split; [done|]. simpl. lia.
  - intros [Hs' _]. simpl in Hs'. exfalso. rewrite Hs in Hs'.
    apply (f_equal length) in Hs'. rewrite !length_app in Hs'. simpl in Hs'. lia.
Qed.

Section Frame.
Variables (r rb : Calls.RuntimeState) (f : CallFrame).
Hypothesis Hrb : same_frames (pushed f r) rb \/ leaked (pushed f r) rb.

Lemma rb_grown : grown 2 r rb.
Proof.
  destruct Hrb as [[Hs _]|[_ [g Hs]]]; unfold grown; rewrite Hs; unfold pushed; simpl.
  - eexists. split; [done|]. simpl. lia.
  - rewrite <- app_assoc. eexists. split; [done|]. simpl. lia.
Qed.

Lemma tx_post_base e w : starved e = false -> same_frames rb (w_rt w) -> tx_post r e w.
Proof. intros He Hw. split; [done|]. by apply (grown_same _ _ rb), rb_grown. Qed.

Lemma tx_spec_still {A} (m : W A) :
  (forall w, w_rt (snd (m w)) = w_rt w) ->
  (forall w e, fst (m w) = Err e -> starved e = false) -> tx_spec r rb m.
Proof.
  intros Hm He w Hw. unfold wp. specialize (Hm w). specialize (He w).
  destruct (m w) as [[x|e] w']; simpl in *; [by rewrite Hm|].
  apply tx_post_base; [by apply He|by rewrite Hm].
Qed.

Lemma tx_spec_lift {A} (x : result CallErr A) :
  (forall e, x = Err e -> starved e = false) -> tx_spec r rb (lift x).
Proof. intros Hx. apply tx_spec_still; [done|]. intros w e. apply Hx. Qed.

(** Popping the transaction's frame and failing. *)
Lemma wp_pop_fail {A} e w :
  starved e = false -> same_frames rb (w_rt w) ->
  wp (frames Calls.pop_frame;; fail e : W A) (fun _ _ => False) (tx_post r) w.
Proof.
  intros He Hw. destruct (pop_grown r f (w_rt w)) as (o & r2 & Hpop & (l & Hs & Hl) & _).
  { destruct Hw as [Hs Hm]. destruct Hrb as [[Hs' Hm']|[Hm' [g Hs']]].
    - left. split; congruence.
    - right. split; [congruence|]. exists g. congruence. }
  apply wp_bind. unfold wp at 1, frames, zoom. rewrite Hpop. apply wp_fail. split; [done|].
  exists l. split; [done|lia].
Qed.

Lemma tx_spec_transfer caller contract value : tx_spec r rb (transfer_value caller contract value).
Proof.
  intros w Hw. unfold transfer_value. destruct (value >? 0); [|by apply wp_ret].
  apply wp_bind, wp_get. case_match.
  { eapply wp_mono; [by apply wp_pop_fail|done|done]. }
  assert (forall m ac e, on_account m ac = Err e -> starved e = false) as Hacc.
  { intros m ac e. unfold on_account. repeat case_match; intros; by simplify_eq. }
  apply wp_bind, wp_lift; [intros a1 _|intros e He; eapply tx_post_base; [by eapply Hacc|done]].
  apply wp_bind, wp_lift; [intros a2 _|intros e He; eapply tx_post_base; [by eapply Hacc|done]].
  destruct (w_accounts w); by apply wp_modify.
Qed.

Lemma tx_spec_commit contract info cs : tx_spec r rb (commit_storage contract info cs).
Proof.
  unfold commit_storage. case_bool_decide; [by apply tx_spec_still|].
  apply tx_spec_bind; [by apply tx_spec_still|intros _].
  apply tx_spec_bind; [by apply tx_spec_still|intros w].
  apply tx_spec_bind; [|intros root; by apply tx_spec_still].
  apply tx_spec_lift. by intros e [_ ->]%ok_or_Err.
Qed.

Lemma tx_spec_charge gas caller : tx_spec r rb (charge_fee gas caller).
Proof.
  intros w Hw. unfold charge_fee. apply wp_bind, wp_get. destruct (w_accounts w); [|by apply wp_ret].
  destruct (gas >? 0); [|by apply wp_ret]. destruct (deduct _ _ _ _) as [[fee|e] ov'].
  - by apply wp_modify.
  - apply wp_bind, wp_modify. eapply wp_mono; [by apply wp_pop_fail|done|done].
Qed.
End Frame.

(** Running the contract: the outcome is kept, its frames with it. *)
Lemma wp_run_call r f info tx cs caller w :
  same_frames (pushed f r) (w_rt w) -> room 64 (w_rt w) -> fresh_meter (w_gas w) ->
  wp (run_call info tx cs caller)
    (fun out w' => match fst out with
       | Ok _ => same_frames (pushed f r) (w_rt w')
       | Err e => err_post (pushed f r) e (w_rt w')
       end) (fun _ _ => False) w.
Proof.
  intros Hw Hroom Hg. unfold wp, run_call.
  pose proof (execute_function_spec (w_db w) 64 _ (call_contract_good (w_db w) 64) info
    (tx_function_selector tx) (tx_calldata tx) caller (tx_value tx) (mkExec cs (w_gas w) (w_rt w)) Hroom Hg) as Hs.
  unfold wp in Hs. unfold call_fuel.
  destruct (execute_function_with_selector _ _ _ _ _ _ _ _) as [[d|e] x]; simpl in *.
  - by transitivity (w_rt w).
  - by apply (err_post_same _ (w_rt w)).
Qed.

Lemma transfer_value_rt c a value w :
  wp (transfer_value c a value) (fun _ w' => w_gas w' = w_gas w /\ w_rt w' = w_rt w) (fun _ _ => True) w.
Proof.
  unfold transfer_value. destruct (value >? 0); [|by apply wp_ret].
  apply wp_bind, wp_get. case_match.
  { apply wp_bind. unfold wp at 1, frames, zoom.
    destruct (Calls.pop_frame (w_rt w)) as [[o|e] r']; [by apply wp_fail|done]. }
  apply wp_bind, wp_lift; [intros a1 _|done]. apply wp_bind, wp_lift; [intros a2 _|done].
  destruct (w_accounts w); by apply wp_modify.
Qed.

(** The end of a transaction, from the outcome on. *)
Lemma wp_finish r f a c info gas (out : result CallErr bytes * ContractStorage) w :
  match fst out with
  | Ok _ => same_frames (pushed f r) (w_rt w)
  | Err e => err_post (pushed f r) e (w_rt w)
  end ->
  wp (commit_storage a info (snd out);; charge_fee gas c;;
      match fst out with
      | Err e => frames Calls.pop_frame;; fail (TargetFailed a e)
      | Ok return_data => frames Calls.pop_frame;; lift (validate_return return_data);; mret return_data
      end : W bytes)
    (fun _ w' => same_frames r (w_rt w')) (tx_post r) w.
Proof.
  intros Hout.
  assert (same_frames (pushed f r) (w_rt w) \/ leaked (pushed f r) (w_rt w)) as Hrb.
  { destruct (fst out); [by left|]. destruct Hout as [_ [?|[_ ?]]]; auto. }
  apply wp_bind. eapply wp_mono; [by apply (tx_spec_commit r (w_rt w) f)| |done]. intros u1 w1 Hw1.
  apply wp_bind. eapply wp_mono; [by apply (tx_spec_charge r (w_rt w) f)| |done]. intros u2 w2 Hw2.
  destruct (fst out) as [d|e].
  - destruct (pop_grown r f (w_rt w2)) as (o & r2 & Hpop & _ & Hs); [left; by transitivity (w_rt w)|].
    apply wp_bind. unfold wp at 1, frames, zoom. rewrite Hpop.
    assert (same_frames r r2) as Hr by (apply Hs; by transitivity (w_rt w)).
    apply wp_bind, wp_lift; [intros _ _; by apply wp_ret|]. intros e He.
    split; [unfold validate_return in He; case_match; by simplify_eq|].
    destruct Hr as [Hr _]. exists []. simpl. rewrite app_nil_r. split; [done|lia].
  - destruct Hout as [He _]. eapply wp_mono; [by apply (wp_pop_fail r (w_rt w) f)|done|done].
Qed.

Lemma wp_entry_try a (b : bool) w (Q : unit -> World -> Prop) (R : CallErr -> World -> Prop) :
  Q tt w -> (forall e, starved e = false -> R e w) ->
  wp (if b then frames (Calls.check_reentrancy a) else mret tt : W unit) Q R w.
Proof.
  intros HQ HR. destruct b; [|by apply wp_ret].
  unfold wp, frames, zoom, Calls.check_reentrancy, mbind, M_bind, get, bail_if.
  destruct (Calls.is_in_call_path _ _); destruct w; [by apply HR|done].
Qed.

Lemma wp_frames_push_try f w (Q : unit -> World -> Prop) (R : CallErr -> World -> Prop) :
  Calls.stack_ok (w_rt w) ->
  (Calls.can_push (cf_contract_address f) (w_rt w) -> Q tt (set_w_rt (pushed f (w_rt w)) w)) ->
  (forall e, starved e = false -> R e w) -> wp (frames (Calls.push_frame f)) Q R w.
Proof.
  intros Hok HQ HR.
  assert (wp (Calls.push_frame f) (fun _ r => Calls.can_push (cf_contract_address f) (w_rt w) /\
    r = pushed f (w_rt w)) (fun _ r => r = w_rt w) (w_rt w)) as Hw by by apply Calls.wp_push_frame.
  unfold wp, frames, zoom in *. destruct (Calls.push_frame f (w_rt w)) as [[[]|pe] r1].
  - destruct Hw as [Hp ->]. by apply HQ.
  - rewrite Hw. destruct w. by apply HR.
Qed.

(** C32: The executor always answers and keeps the call stack.  On a sound
    stack and with a fresh meter, whatever the contract does, a transaction
    never exhausts the model's fuel; when it succeeds the stack is what it
    was, and when it fails at most two frames are left on it. *)
Theorem execute_disciplined (tx : CallTransaction) (w : World) :
  Calls.stack_ok (w_rt w) -> Calls.max_call_depth (w_rt w) <= Calls.MAX_CALL_DEPTH ->
  fresh_meter (w_gas w) ->
  match execute_with_overlay tx w with
  | (Ok _, w') => Calls.rt_call_stack (w_rt w') = Calls.rt_call_stack (w_rt w)
  | (Err e, w') => starved e = false /\
      exists l, Calls.rt_call_stack (w_rt w') = Calls.rt_call_stack (w_rt w) ++ l /\ (length l <= 2)%nat
  end.
Proof.
  intros Hok Hmax Hg. set (r := w_rt w) in *.
  assert (wp (execute_with_overlay tx) (fun _ w' => same_frames r (w_rt w')) (tx_post r) w) as Hw.
  2: { unfold wp in Hw. destruct (execute_with_overlay tx w) as [[d|e] w']; [by apply Hw|done]. }
  assert (forall e, starved e = false -> tx_post r e w) as Hearly.
  { intros e He. split; [done|]. exists []. rewrite app_nil_r. simpl. split; [done|lia]. }
  unfold execute_with_overlay. apply wp_bind, wp_get, wp_bind, wp_lift.
  2: { intros e He. apply Hearly. unfold decode_hex_address in He. case_match; by simplify_eq. }
  intros a _. apply wp_bind, wp_lift; [intros info _|intros e He; by eapply Hearly, load_contract_err].
  apply wp_bind, wp_lift.
  2: { intros e He. apply Hearly. unfold decode_hex_address in He. case_match; by simplify_eq. }
  intros c _. apply wp_bind, wp_lift.
  2: { intros e He. apply Hearly. unfold new_storage in He. case_match; by simplify_eq. }
  intros cs _. set (f := frame a c _ _ _).
  apply wp_bind, wp_entry_try; [|done]. apply wp_bind, wp_frames_push_try; [done| |done]. intros Hp.
  apply wp_bind. set (w1 := set_w_rt _ w).
  assert (same_frames (pushed f r) (w_rt w1)) as Hw1 by done.
  pose proof (transfer_value_rt c a (tx_value tx) w1) as Hrt. unfold wp in Hrt.
  pose proof (tx_spec_transfer r (pushed f r) f (or_introl (reflexivity _)) c a (tx_value tx) w1 Hw1) as Ht.
  unfold wp at 1. unfold wp in Ht. destruct (transfer_value c a (tx_value tx) w1) as [[u|e] w2]; [|done].
  destruct Hrt as [Hg2 Hr2]. apply wp_bind. eapply wp_mono; [apply (wp_run_call r f)| |done].
  - done.
  - rewrite Hr2. apply room_mono, room_pushed; [done|]. split; [done|].
    unfold Calls.MAX_CALL_DEPTH in Hmax. unfold r in Hmax. lia.
  - by rewrite Hg2.
  - intros out w3 Hout. apply wp_bind, wp_get. by apply (wp_finish r f).
Qed.
End Value.
(** ** Witnesses *)

#[local] Existing Instances keccak_toy Root.sha_toy ContractFee.bincode_demo.

(** Contract records reduced to their code. *)
Definition md0 : ContractMetadata := {|
  md_name := ""; md_description := ""; md_abi := []; md_contract_type := ""; md_tags := [];
  md_creator := []; md_verified := false; md_audited := false |}.
Definition info_of (code : bytes) : ContractInfo :=
  mkInfo CS.addr0 code [] [] [] 1 0 Active 0 0 0 0 md0.
Definition info_demo : InfoBincode := {|
  serialize_info := ci_code; deserialize_info := fun b => Some (info_of b) |}.
#[local] Existing Instance info_demo.

Definition addr_z : string := Abi.address_to_hex (zeros 32).
Definition caller1 : bytes := zeros 31 ++ [x01].
Definition code1 : bytes := Evm.store_revert_program (Evm.w256 4) (Evm.w256 9).
Definition tx1 : CallTransaction := {|
  tx_contract_address := addr_z; tx_function_selector := [xff; xff; xff; xff]; tx_calldata := [];
  tx_caller := Abi.address_to_hex caller1; tx_value := 5 |}.
Definition db1 : Root.Db :=
  Root.mkDb {[ zeros 32 := code1 ]} {[ caller1 := Acct.encode (Acct.mkAccount 7 0) ]} ∅.
Definition world1 : World := mkWorld db1 (Calls.with_empty_overlay 9000 0) (Gas.new 9000) None.


(** A caller one charge before its batch is settled, calling a contract that
    stores a word. *)
Definition db2 : Root.Db :=
  Root.mkDb {[ zeros 32 := Evm.store_program (Evm.w256 4) (Evm.w256 9) ]} ∅ ∅.
Definition rt2 : Calls.RuntimeState :=
  pushed (Calls.frame0 caller1) (Calls.with_empty_overlay 9000 0).
Definition ctx2 : Ctx := mkCtx (Gas.mkMeter 5500 0 Gas.GasCosts_default 0 98 100) rt2.

Definition sel1 : bytes := [xff; xff; xff; xff].

(** The frame that leaks makes the next call of the same contract fail, with
    whatever gas. *)
Lemma leaked_frame_blocks :
  match call_contract db2 call_fuel (zeros 32) sel1 [] None ctx2 with
  | (Err (CallGas (Gas.OutOfGas 7367 5500)), c) =>
      Calls.call_depth (c_rt c) = 2%nat /\
      fst (call_contract db2 call_fuel (zeros 32) sel1 [] None (mkCtx (Gas.new 1000000) (c_rt c))) =
        Err (FrameFailed Calls.Reentrancy)
  | _ => False
  end.
Proof. vm_compute. done. Qed.

Lemma stack_ok_rt2 : Calls.stack_ok rt2.
Proof.
  unfold rt2, pushed. apply Calls.stack_ok_push; [by apply Calls.stack_ok_new|].
  split; [apply not_elem_of_nil|done].
Qed.

Lemma call_contract_disciplined_witness :
  match call_contract db2 call_fuel (zeros 32) sel1 [] None ctx2 with
  | (Ok _, c') => Calls.rt_call_stack (c_rt c') = Calls.rt_call_stack rt2
  | (Err e, c') => starved e = false /\
      (Calls.rt_call_stack (c_rt c') = Calls.rt_call_stack rt2 \/
       (gas_cause e = true /\
        exists f, Calls.rt_call_stack (c_rt c') = Calls.rt_call_stack rt2 ++ [f]))
  end.
Proof.
  apply (call_contract_disciplined db2 (zeros 32) sel1 [] None ctx2); [apply stack_ok_rt2|done|].
  vm_compute. by split.
Defined.

Lemma dispatch_correct_witness : lookup_builtin (sel_of FnOwnerOf) = Some FnOwnerOf.
Proof.
  destruct (dispatch_correct [] FnOwnerOf) as [H _]. apply H; clear H.
  - apply (bool_decide_eq_true_1 _). vm_compute. reflexivity.
  - apply (bool_decide_eq_true_1 _). vm_compute. reflexivity.
Defined.

(** The contract has 3 stored and 10 pending; after a transfer of 5 it has 8. *)
Lemma transfer_value_effect_witness :
  let db := Root.mkDb ∅ {[ zeros 32 := Acct.encode (Acct.mkAccount 3 0) ]} ∅ in
  let ov := {[ caller1 := Acct.mkAccount 7 0; zeros 32 := Acct.mkAccount 10 0 ]} in
  exists ov', transfer_value caller1 (zeros 32) 5
      (mkWorld db (Calls.with_empty_overlay 9000 0) (Gas.new 9000) (Some ov)) =
    (Ok tt, mkWorld db (Calls.with_empty_overlay 9000 0) (Gas.new 9000) (Some ov')) /\
    ov' !! zeros 32 = Some (Acct.mkAccount 8 0).
Proof.
  intros db ov.
  destruct (transfer_value_effect caller1 (zeros 32) 5
    (mkWorld db (Calls.with_empty_overlay 9000 0) (Gas.new 9000) (Some ov)) ov) as (ov' & H & Hc & _).
  - reflexivity.
  - done.
  - vm_compute. discriminate.
  - vm_compute. discriminate.
  - exists ov'. split; [exact H|]. etransitivity; [exact Hc|]. vm_compute. reflexivity.
Defined.

Lemma execute_confined_witness :
  confined (zeros 32) caller1 world1 (snd (execute_with_overlay tx1 world1)).
Proof.
  apply (execute_confined tx1 world1 (zeros 32) caller1); vm_compute; reflexivity.
Defined.

Lemma failed_call_commits_witness :
  exists e w', execute_with_overlay tx1 world1 = (Err e, w') /\
    Root.db_slots (w_db w') !! CS.make_storage_key (zeros 32) 4 = Some (zeros 31 ++ [x09]).
Proof.
  destruct (failed_call_commits tx1 world1 (zeros 32) caller1 (info_of code1) (Evm.w256 4) (Evm.w256 9) 9000)
    as (e & w' & H & _ & Hs & _).
  all: try (vm_compute; reflexivity).
  - intros H. vm_compute in H. discriminate H.
  - done.
  - by apply Calls.stack_ok_new.
  - split; [apply not_elem_of_nil|done].
  - done.
  - vm_compute. discriminate.
  - vm_compute. discriminate.
  - exists e, w'. split; [exact H|]. etransitivity; [exact Hs|]. vm_compute. reflexivity.
Defined.

Lemma execute_disciplined_witness :
  match execute_with_overlay tx1 world1 with
  | (Ok _, w') => Calls.rt_call_stack (w_rt w') = []
  | (Err e, w') => starved e = false /\
      exists l, Calls.rt_call_stack (w_rt w') = [] ++ l /\ (length l <= 2)%nat
  end.
Proof.
  apply (execute_disciplined tx1 world1); [by apply Calls.stack_ok_new|done|].
  by apply fresh_meter_new.
Defined.
End CallC.
