(* ===== verification/Score.v ===== *)
(** * Proof-of-Unity scores

    [savitri-consensus/src/types/score.rs]: the component calculators of
    [DefaultScoreCalculator], the weighted total and the ordering of peers.
    All arithmetic is integer permille; casts to [u16] truncate. *)

From S2P Require Import Prelude.
From Stdlib Require Strings.String.

Module Score.

Definition POU_SCORE_MAX : Z := 1000.
Definition POU_SCORE_MIN : Z := 0.
Definition POU_SCORE_DEFAULT : Z := 500.
Definition PERMILLE : Z := 1000.

(** [x as u16] and [x.clamp(lo, hi)]. *)
Definition as_u16 (x : Z) : Z := wrap U16_MAX x.
Definition clamp (x lo hi : Z) : Z := Z.max lo (Z.min x hi).

Record ScoreComponents := {
  latency_score : Z;
  availability_score : Z;
  integrity_score : Z;
  geographic_score : Z;
  performance_score : Z;
  reputation_score : Z;
  fl_integrity_score : Z;
}.

Record ScoreConfig := {
  latency_weight : Z;
  availability_weight : Z;
  integrity_weight : Z;
  geographic_weight : Z;
  performance_weight : Z;
  reputation_weight : Z;
  fl_integrity_weight : Z;
  update_interval_secs : Z;
  decay_rate : Z;
  min_threshold : Z;
  max_threshold : Z;
}.

Definition ScoreConfig_default : ScoreConfig := {|
  latency_weight := 250; availability_weight := 200; integrity_weight := 150;
  geographic_weight := 50; performance_weight := 100; reputation_weight := 50;
  fl_integrity_weight := 200; update_interval_secs := 60; decay_rate := 10;
  min_threshold := POU_SCORE_MIN; max_threshold := POU_SCORE_MAX |}.

Inductive LatencyType := Ping | BlockPropagation | TransactionPropagation | ConsensusMessage.

Record LatencyMeasurement := {
  lm_peer_id : string;
  lm_rtt_ms : Z;
  lm_timestamp : Z;
  lm_measurement_type : LatencyType;
}.

Record AvailabilityMeasurement := {
  av_node_id : string;
  successful_pings : Z;
  total_pings : Z;
  av_last_seen : Z;
  av_window_secs : Z;
}.

Record IntegrityMeasurement := {
  im_node_id : string;
  valid_blocks : Z;
  total_blocks : Z;
  valid_transactions : Z;
  total_transactions : Z;
  im_slash_events : Z;
  im_epoch : Z;
}.

Record PerformanceMetrics := {
  pm_node_id : string;
  cpu_usage_permille : Z;
  memory_usage_permille : Z;
  network_bandwidth_kbps : Z;
  block_processing_time_ms : Z;
  tx_processing_time_ms : Z;
  pm_timestamp : Z;
}.

Record ReputationInfo := {
  ri_node_id : string;
  ri_reputation_score : Z;
  positive_interactions : Z;
  negative_interactions : Z;
  total_interactions : Z;
  ri_last_updated : Z;
}.

(** [u64] additions and products wrap. *)
Definition add64 (a b : Z) : Z := wrap U64_MAX (a + b).
Definition mul64 (a b : Z) : Z := wrap U64_MAX (a * b).

Definition weighted (c : ScoreComponents) (w : ScoreConfig) : list Z :=
  [mul64 (latency_score c) (latency_weight w);
   mul64 (availability_score c) (availability_weight w);
   mul64 (integrity_score c) (integrity_weight w);
   mul64 (geographic_score c) (geographic_weight w);
   mul64 (performance_score c) (performance_weight w);
   mul64 (reputation_score c) (reputation_weight w);
   mul64 (fl_integrity_score c) (fl_integrity_weight w)].

Definition sum64 (l : list Z) : Z := foldl add64 0 l.

Definition calculate_score (components : ScoreComponents) (config : ScoreConfig) : Z :=
  let weighted_sum := sum64 (weighted components config) in
  let rounded := add64 weighted_sum (PERMILLE / 2) / PERMILLE in
  as_u16 (Z.min rounded POU_SCORE_MAX).

Definition calculate_latency_score (measurements : list LatencyMeasurement) : Z :=
  match measurements with
  | [] => POU_SCORE_DEFAULT
  | _ =>
      let total_rtt := sum64 (map lm_rtt_ms measurements) in
      let avg_rtt := total_rtt / Z.of_nat (length measurements) in
      let score :=
        if avg_rtt <=? 50 then POU_SCORE_MAX
        else if avg_rtt >=? 500 then POU_SCORE_MIN
        else Z.min (as_u16 ((500 - avg_rtt) * POU_SCORE_MAX / 450)) POU_SCORE_MAX in
      clamp score POU_SCORE_MIN POU_SCORE_MAX
  end.

Definition calculate_availability_score (m : AvailabilityMeasurement) : Z :=
  if total_pings m =? 0 then POU_SCORE_MIN
  else clamp (as_u16 (mul64 (successful_pings m) POU_SCORE_MAX / total_pings m))
         POU_SCORE_MIN POU_SCORE_MAX.

Definition calculate_integrity_score (m : IntegrityMeasurement) : Z :=
  let block_integrity :=
    if total_blocks m >? 0 then mul64 (valid_blocks m) PERMILLE / total_blocks m else PERMILLE in
  let tx_integrity :=
    if total_transactions m >? 0
    then mul64 (valid_transactions m) PERMILLE / total_transactions m else PERMILLE in
  let slash_penalty := mul64 (im_slash_events m) 100 in
  let combined := add64 block_integrity tx_integrity / 2 in
  let adjusted := saturating_sub combined slash_penalty in
  as_u16 (Z.min adjusted POU_SCORE_MAX).

(** [info.region] and the target region; the rest of [GeographicInfo] is for
    display. *)
Definition calculate_geographic_score (region target_region : string) : Z :=
  if String.eqb region target_region then POU_SCORE_MAX else POU_SCORE_DEFAULT.

Definition calculate_performance_score (m : PerformanceMetrics) : Z :=
  let cpu_score := saturating_sub PERMILLE (cpu_usage_permille m) in
  let memory_score := saturating_sub PERMILLE (memory_usage_permille m) in
  let processing_score :=
    if block_processing_time_ms m <? 100 then PERMILLE
    else if block_processing_time_ms m >? 1000 then 0
    else saturating_sub 1000 (block_processing_time_ms m) * PERMILLE / 900 in
  let combined := (cpu_score + memory_score + processing_score) / 3 in
  as_u16 (Z.min combined POU_SCORE_MAX).

Definition calculate_reputation_score (m : ReputationInfo) : Z :=
  if total_interactions m =? 0 then POU_SCORE_DEFAULT
  else clamp (as_u16 (mul64 (positive_interactions m) POU_SCORE_MAX / total_interactions m))
         POU_SCORE_MIN POU_SCORE_MAX.

(** [compare_pou_scores]: by score, ties broken by the bytes of the peer id. *)
Definition compare_pou_scores (s1 : Z) (p1 : string) (s2 : Z) (p2 : string) : comparison :=
  match s1 ?= s2 with
  | Eq => String.compare p1 p2
  | o => o
  end.

(** ** Correctness *)

Definition comps (c : ScoreComponents) : list Z :=
  [latency_score c; availability_score c; integrity_score c; geographic_score c;
   performance_score c; reputation_score c; fl_integrity_score c].
Definition weights (w : ScoreConfig) : list Z :=
  [latency_weight w; availability_weight w; integrity_weight w; geographic_weight w;
   performance_weight w; reputation_weight w; fl_integrity_weight w].

Definition dot (l l' : list Z) : Z := sumZ (zip_with Z.mul l l').

Lemma sum64_spec l n :
  Forall (fun x => 0 <= x <= n) l -> Z.of_nat (length l) * n <= U64_MAX -> 0 <= n ->
  sum64 l = sumZ l.
Proof.
  intros Hl Hn H0. unfold sum64.
  assert (forall acc, 0 <= acc -> acc + Z.of_nat (length l) * n <= U64_MAX ->
    foldl add64 acc l = acc + sumZ l) as Hg.
  { clear Hn. induction Hl as [|x l Hx Hl IH]; intros acc Ha Hb; simpl in *; [lia|].
    unfold add64 at 2. rewrite wrap_id by (unfold in_range; nia).
    rewrite IH by nia. unfold sumZ. simpl. lia. }
  rewrite Hg by lia. lia.
Qed.

Lemma weighted_dot c w :
  Forall (in_range U16_MAX) (comps c) -> Forall (in_range U32_MAX) (weights w) ->
  sum64 (weighted c w) = dot (comps c) (weights w).
Proof.
  intros Hc Hw. destruct c, w. unfold comps, weights in *. simpl in *.
  rewrite !Forall_cons in Hc. rewrite !Forall_cons in Hw.
  assert (forall a b, in_range U16_MAX a -> in_range U32_MAX b ->
    0 <= a * b <= U16_MAX * U32_MAX) as Hm by (unfold in_range, U16_MAX, U32_MAX; nia).
  assert (forall a b, in_range U16_MAX a -> in_range U32_MAX b -> mul64 a b = a * b) as Hmul.
  { intros a b Ha Hb. apply wrap_id. specialize (Hm a b Ha Hb). mlia. }
  unfold weighted. simpl. rewrite !Hmul by tauto.
  rewrite (sum64_spec _ (U16_MAX * U32_MAX)); [done| |done|done].
  repeat constructor; apply Hm; tauto.
Qed.

Lemma dot_bounds lo hi l l' :
  length l = length l' -> Forall (fun x => lo <= x <= hi) l -> Forall (fun x => 0 <= x) l' ->
  lo * sumZ l' <= dot l l' <= hi * sumZ l'.
Proof.
  unfold dot, sumZ. revert l'. induction l as [|x l IH]; intros [|y l'] Hl Hx Hy; simpl in *; try lia.
  inversion Hx; inversion Hy; subst. specialize (IH l' ltac:(lia) ltac:(done) ltac:(done)). nia.
Qed.

Lemma dot_pos_monotone l l2 l' :
  Forall2 Z.le l l2 -> Forall (fun x => 0 <= x) l' -> dot l l' <= dot l2 l'.
Proof.
  intros Hl. revert l'. unfold dot, sumZ.
  induction Hl as [|x y l l2 Hxy _ IH]; intros [|z l'] Hz; simpl; try lia.
  inversion Hz; subst. specialize (IH l' ltac:(done)). nia.
Qed.

(** The weighted score.  For [u16] components and [u32] weights no
    intermediate value overflows [u64].  When the weights sum to 1000 and every
    component lies between [lo] and [hi], within 0..1000, the score lies between
    [lo] and [hi] too (so the final clamp is never needed), and raising a
    component never lowers the score. *)
Theorem calculate_score_weighted_mean (c c' : ScoreComponents) (w : ScoreConfig) (lo hi : Z) :
  Forall (in_range U32_MAX) (weights w) -> sumZ (weights w) = 1000 ->
  0 <= lo -> hi <= 1000 ->
  Forall (fun x => lo <= x <= hi) (comps c) -> Forall (fun x => lo <= x <= hi) (comps c') ->
  Forall2 Z.le (comps c) (comps c') ->
  calculate_score c w = (dot (comps c) (weights w) + 500) / 1000 /\
  lo <= calculate_score c w <= hi /\ calculate_score c w <= calculate_score c' w.
Proof.
  intros Hw Hs Hlo Hhi Hc Hc' Hle.
  assert (Forall (fun x => 0 <= x) (weights w)) as Hpos
    by (eapply Forall_impl; [exact Hw|unfold in_range; lia]).
  assert (forall d, Forall (fun x => lo <= x <= hi) (comps d) ->
    lo * 1000 <= dot (comps d) (weights w) <= hi * 1000 /\
    calculate_score d w = (dot (comps d) (weights w) + 500) / 1000) as Hd.
  { intros d Hd. pose proof (dot_bounds lo hi (comps d) (weights w) eq_refl Hd Hpos) as Hb.
    rewrite Hs in Hb. split; [done|]. unfold calculate_score.
    rewrite weighted_dot; [|eapply Forall_impl; [exact Hd|intros; mlia]|done].
    unfold add64, PERMILLE, POU_SCORE_MAX, as_u16. change (1000 / 2) with 500.
    rewrite wrap_id by mlia. rewrite wrap_id; [rewrite Z.min_l by mlia; done|mlia]. }
  destruct (Hd c Hc) as [Hb ->], (Hd c' Hc') as [Hb' ->].
  pose proof (dot_pos_monotone (comps c) (comps c') (weights w) Hle Hpos). split; [done|]. mlia.
Qed.

Definition comps_of (x : Z) : ScoreComponents := {|
  latency_score := x; availability_score := x; integrity_score := x; geographic_score := x;
  performance_score := x; reputation_score := x; fl_integrity_score := 1000 |}.

Lemma calculate_score_weighted_mean_witness :
  300 <= calculate_score (comps_of 300) ScoreConfig_default <= 1000 /\
  calculate_score (comps_of 300) ScoreConfig_default
    <= calculate_score (comps_of 400) ScoreConfig_default.
Proof.
  apply (calculate_score_weighted_mean (comps_of 300) (comps_of 400) ScoreConfig_default 300 1000);
    [| reflexivity | lia | lia | | |];
    unfold weights, comps, ScoreConfig_default, comps_of; simpl;
    repeat (apply Forall_cons_2 || apply Forall_nil_2 || apply Forall2_cons_2 || apply Forall2_nil_2);
    mlia.
Defined.

(** Every component calculator stays in 0..1000 whatever it is given, and
    the ratio scores are exact when the counts are consistent. *)
Theorem component_scores_bounded (lm : list LatencyMeasurement) (av : AvailabilityMeasurement)
    (im : IntegrityMeasurement) (r tr : string) (pm : PerformanceMetrics) (ri : ReputationInfo) :
  0 <= total_pings av -> 0 <= cpu_usage_permille pm -> 0 <= memory_usage_permille pm ->
  0 <= im_slash_events im ->
  Forall (in_range 1000)
    [calculate_latency_score lm; calculate_availability_score av; calculate_integrity_score im;
     calculate_geographic_score r tr; calculate_performance_score pm;
     calculate_reputation_score ri] /\
  (0 < total_pings av -> 0 <= successful_pings av <= total_pings av -> total_pings av <= U32_MAX ->
   calculate_availability_score av = successful_pings av * 1000 / total_pings av) /\
  (0 < total_interactions ri -> 0 <= positive_interactions ri <= total_interactions ri ->
   total_interactions ri <= U32_MAX ->
   calculate_reputation_score ri = positive_interactions ri * 1000 / total_interactions ri).
Proof.
  intros Hav Hc Hm Hs.
  assert (forall x, in_range 1000 (clamp x POU_SCORE_MIN POU_SCORE_MAX)) as Hcl
    by (intros x; unfold in_range, clamp, POU_SCORE_MIN, POU_SCORE_MAX; lia).
  assert (forall x, 0 <= x -> in_range 1000 (as_u16 (Z.min x POU_SCORE_MAX))) as Hmin.
  { intros x Hx. unfold as_u16, POU_SCORE_MAX. rewrite wrap_id; mlia. }
  assert (forall a b, 0 < b -> 0 <= a <= b -> b <= U32_MAX ->
    clamp (as_u16 (mul64 a POU_SCORE_MAX / b)) POU_SCORE_MIN POU_SCORE_MAX = a * 1000 / b) as Hratio.
  { intros a b Hb Ha Hu. unfold mul64, as_u16, POU_SCORE_MAX, POU_SCORE_MIN.
    assert (0 <= a * 1000 / b <= 1000).
    { split; [apply Z.div_pos; lia|]. apply Z.div_le_upper_bound; lia. }
    rewrite (wrap_id U64_MAX), (wrap_id U16_MAX) by mlia. unfold clamp. lia. }
  split; [|split].
  - repeat (apply Forall_cons_2 || apply Forall_nil_2).
    + unfold calculate_latency_score. destruct lm; [vm_compute; split; done|apply Hcl].
    + unfold calculate_availability_score. case_match; [vm_compute; split; done|apply Hcl].
    + unfold calculate_integrity_score. apply Hmin. unfold saturating_sub. lia.
    + unfold calculate_geographic_score. case_match; vm_compute; split; done.
    + unfold calculate_performance_score. apply Hmin. apply Z.div_pos; [|lia].
      unfold saturating_sub, PERMILLE. repeat case_match; try lia.
      assert (0 <= Z.max 0 (1000 - block_processing_time_ms pm) * 1000 / 900) by (apply Z.div_pos; lia).
      lia.
    + unfold calculate_reputation_score. case_match; [vm_compute; split; done|apply Hcl].
  - intros Hp Hle Hu. unfold calculate_availability_score.
    rewrite (proj2 (Z.eqb_neq _ 0)) by lia. by apply Hratio.
  - intros Hp Hle Hu. unfold calculate_reputation_score.
    rewrite (proj2 (Z.eqb_neq _ 0)) by lia. by apply Hratio.
Qed.

Lemma component_scores_bounded_witness :
  calculate_reputation_score (Build_ReputationInfo EmptyString 0 3 1 4 0) = 750.
Proof.
  destruct (component_scores_bounded [] (Build_AvailabilityMeasurement EmptyString 9 10 0 0)
    (Build_IntegrityMeasurement EmptyString 1 2 0 0 1 0) EmptyString EmptyString
    (Build_PerformanceMetrics EmptyString 100 100 0 50 0 0) (Build_ReputationInfo EmptyString 0 3 1 4 0)) as (_ & _ & H);
    [simpl; lia..|].
  rewrite H; [reflexivity|simpl; lia|simpl; lia|vm_compute; done].
Defined.

End Score.
