(* ===== verification/Observations.v ===== *)
(** * The observation store

    [savitri-consensus/src/scoring/observations.rs]: rolling windows of
    samples per peer, from which the scores of [Score.v] are computed.  The
    clock reading [now_secs()] is the argument [now]; a deque is a list with
    its front first; the map from peer ids is a [gmap]. *)

From S2P Require Import Prelude Score.
Import Score.

Module Obs.

Definition DEFAULT_WINDOW_SECS : Z := 3600.
Definition MAX_SAMPLES_PER_METRIC : nat := 1024.

Record LatencySample := { ls_ts_secs : Z; ls_rtt_ms : Z; ls_kind : LatencyType }.
Record ValidationSample := { vs_ts_secs : Z; vs_valid : bool }.
Inductive SlashReason :=
  | DoubleVote | Equivocation | InvalidBlock | LateVote | MaliciousGradient | Other.
Record SlashEvent := { se_ts_secs : Z; se_reason : SlashReason }.
Record FlContributionSample := { fl_ts_secs : Z; fl_round_id : Z; fl_score_permille : Z }.

Record PeerObservations := mkPO {
  latency : list LatencySample;
  block_validations : list ValidationSample;
  tx_validations : list ValidationSample;
  slash_events : list SlashEvent;
  fl_contributions : list FlContributionSample;
}.
Definition PeerObservations_default : PeerObservations := mkPO [] [] [] [] [].

Record ObservationStore := mkStore {
  inner : gmap string PeerObservations;
  window_secs : Z;
}.

Definition with_window (w : Z) : ObservationStore := mkStore ∅ w.
Definition new : ObservationStore := with_window DEFAULT_WINDOW_SECS.

(** The two loops of [prune_deque]: pop the front while it is older than the
    cutoff, then while the deque is too long. *)
Fixpoint pop_old {T} (ts : T -> Z) (cutoff : Z) (buf : list T) : list T :=
  match buf with
  | [] => []
  | x :: r => if ts x <? cutoff then pop_old ts cutoff r else buf
  end.

Fixpoint pop_excess {T} (buf : list T) : list T :=
  match buf with
  | [] => []
  | _ :: r => if (MAX_SAMPLES_PER_METRIC <? length buf)%nat then pop_excess r else buf
  end.

Definition prune_deque {T} (ts : T -> Z) (now window : Z) (buf : list T) : list T :=
  let cutoff := saturating_sub now window in
  pop_excess (pop_old ts cutoff buf).

Definition push_latency (x : LatencySample) (now w : Z) (o : PeerObservations) : PeerObservations :=
  mkPO (prune_deque ls_ts_secs now w (latency o ++ [x])) (block_validations o)
    (tx_validations o) (slash_events o) (fl_contributions o).
Definition push_block_validation (x : ValidationSample) (now w : Z) (o : PeerObservations) :=
  mkPO (latency o) (prune_deque vs_ts_secs now w (block_validations o ++ [x]))
    (tx_validations o) (slash_events o) (fl_contributions o).
Definition push_tx_validation (x : ValidationSample) (now w : Z) (o : PeerObservations) :=
  mkPO (latency o) (block_validations o)
    (prune_deque vs_ts_secs now w (tx_validations o ++ [x])) (slash_events o) (fl_contributions o).
Definition push_slash (x : SlashEvent) (now w : Z) (o : PeerObservations) :=
  mkPO (latency o) (block_validations o) (tx_validations o)
    (prune_deque se_ts_secs now w (slash_events o ++ [x])) (fl_contributions o).
Definition push_fl_contribution (x : FlContributionSample) (now w : Z) (o : PeerObservations) :=
  mkPO (latency o) (block_validations o) (tx_validations o) (slash_events o)
    (prune_deque fl_ts_secs now w (fl_contributions o ++ [x])).

(** [map.entry(peer_id).or_default()] followed by an update in place. *)
Definition update_peer (peer : string) (f : PeerObservations -> PeerObservations)
    (s : ObservationStore) : ObservationStore :=
  mkStore (<[peer := f (default PeerObservations_default (inner s !! peer))]> (inner s))
    (window_secs s).

Definition record_latency (now : Z) (peer : string) (rtt_ms : Z) (kind : LatencyType)
    (s : ObservationStore) : ObservationStore :=
  update_peer peer (push_latency (Build_LatencySample now rtt_ms kind) now (window_secs s)) s.
Definition record_block_validation (now : Z) (peer : string) (valid : bool) (s : ObservationStore) :=
  update_peer peer (push_block_validation (Build_ValidationSample now valid) now (window_secs s)) s.
Definition record_tx_validation (now : Z) (peer : string) (valid : bool) (s : ObservationStore) :=
  update_peer peer (push_tx_validation (Build_ValidationSample now valid) now (window_secs s)) s.
Definition record_slash (now : Z) (peer : string) (reason : SlashReason) (s : ObservationStore) :=
  update_peer peer (push_slash (Build_SlashEvent now reason) now (window_secs s)) s.
Definition record_fl_contribution (now : Z) (peer : string) (round_id score_permille : Z)
    (s : ObservationStore) :=
  update_peer peer (push_fl_contribution
    (Build_FlContributionSample now round_id (Z.min score_permille 1000)) now (window_secs s)) s.

(** [iter().filter(|s| s.ts_secs >= cutoff)]. *)
Definition recent {T} (ts : T -> Z) (cutoff : Z) (l : list T) : list T :=
  List.filter (fun x => ts x >=? cutoff) l.

Definition build_fl_integrity_score (now : Z) (s : ObservationStore) (peer : string) : Z :=
  let cutoff := saturating_sub now (window_secs s) in
  match inner s !! peer with
  | None => 1000
  | Some obs =>
      match map fl_score_permille (recent fl_ts_secs cutoff (fl_contributions obs)) with
      | [] => 1000
      | l => as_u16 (Z.min (sum64 l / Z.of_nat (length l)) 1000)
      end
  end.

(** The loop over [iter().rev()] that stops at the first good sample. *)
Fixpoint streak (threshold : Z) (rev_samples : list FlContributionSample) : nat :=
  match rev_samples with
  | [] => O
  | x :: r => if fl_score_permille x <? threshold then S (streak threshold r) else O
  end.

Definition bad_fl_streak (s : ObservationStore) (peer : string) (threshold_permille : Z) : nat :=
  match inner s !! peer with
  | None => O
  | Some obs => streak threshold_permille (reverse (fl_contributions obs))
  end.

Definition fl_contribution_count (s : ObservationStore) (peer : string) : nat :=
  default O ((fun o => length (fl_contributions o)) <$> inner s !! peer).

Definition known_peers (s : ObservationStore) : list string := map fst (map_to_list (inner s)).

Definition count_validations (buf : list ValidationSample) (cutoff : Z) : Z * Z :=
  foldl (fun acc x =>
           (if vs_valid x then saturating_add U32_MAX (fst acc) 1 else fst acc,
            saturating_add U32_MAX (snd acc) 1))
    (0, 0) (recent vs_ts_secs cutoff buf).

Definition build_integrity_measurement (now : Z) (s : ObservationStore) (peer : string) (epoch : Z)
    : IntegrityMeasurement :=
  let cutoff := saturating_sub now (window_secs s) in
  match inner s !! peer with
  | None => Build_IntegrityMeasurement peer 0 0 0 0 0 epoch
  | Some obs =>
      let b := count_validations (block_validations obs) cutoff in
      let t := count_validations (tx_validations obs) cutoff in
      Build_IntegrityMeasurement peer (fst b) (snd b) (fst t) (snd t)
        (wrap U32_MAX (Z.of_nat (length (recent se_ts_secs cutoff (slash_events obs))))) epoch
  end.

Definition latency_measurements (now : Z) (s : ObservationStore) (peer : string)
    : list LatencyMeasurement :=
  let cutoff := saturating_sub now (window_secs s) in
  match inner s !! peer with
  | None => []
  | Some obs =>
      map (fun x => Build_LatencyMeasurement peer (ls_rtt_ms x) (ls_ts_secs x) (ls_kind x))
        (recent ls_ts_secs cutoff (latency obs))
  end.

Definition derive_observation_score (now : Z) (s : ObservationStore) (peer : string) : Z :=
  let W_LATENCY := 250 in let W_INTEGRITY := 150 in let W_FL := 200 in
  let W_TOTAL := W_LATENCY + W_INTEGRITY + W_FL in
  let samples := latency_measurements now s peer in
  let lat := match samples with [] => 1000 | _ => calculate_latency_score samples end in
  let integrity := calculate_integrity_score (build_integrity_measurement now s peer 0) in
  let fl := build_fl_integrity_score now s peer in
  let weighted := W_LATENCY * lat + W_INTEGRITY * integrity + W_FL * fl in
  as_u16 (Z.min ((weighted + W_TOTAL / 2) / W_TOTAL) 1000).

Definition forget_peer (peer : string) (s : ObservationStore) : ObservationStore :=
  mkStore (delete peer (inner s)) (window_secs s).

Definition peer_count (s : ObservationStore) : nat := size (inner s).

Definition latency_sample_count (s : ObservationStore) (peer : string) : nat :=
  default O ((fun o => length (latency o)) <$> inner s !! peer).

(** ** Correctness *)

(** The last [n] elements of a list. *)
Definition lastn {T} (n : nat) (l : list T) : list T := drop (length l - n) l.

Lemma pop_excess_lastn {T} (l : list T) : pop_excess l = lastn MAX_SAMPLES_PER_METRIC l.
Proof.
  unfold lastn. induction l as [|x l IH]; [done|]. cbn [pop_excess length].
  destruct (Nat.ltb_spec MAX_SAMPLES_PER_METRIC (S (length l))) as [Hlt|Hge].
  - rewrite IH. replace (S (length l) - MAX_SAMPLES_PER_METRIC)%nat
      with (S (length l - MAX_SAMPLES_PER_METRIC)) by lia. done.
  - replace (S (length l) - MAX_SAMPLES_PER_METRIC)%nat with 0%nat by lia. done.
Qed.

Lemma pop_old_suffix {T} (ts : T -> Z) c l : exists p, l = p ++ pop_old ts c l.
Proof.
  induction l as [|x l [p IH]]; [by exists []|]. simpl. case_match; [|by exists []].
  exists (x :: p). simpl. congruence.
Qed.

Lemma recent_all {T} (ts : T -> Z) c l : Forall (fun x => c <= ts x) l -> recent ts c l = l.
Proof.
  unfold recent. induction 1 as [|x l Hx _ IH]; [done|]. simpl. rewrite IH.
  destruct (Z.geb_spec (ts x) c); [done|lia].
Qed.

Lemma pop_old_sorted {T} (ts : T -> Z) c l :
  StronglySorted (fun x y => ts x <= ts y) l -> pop_old ts c l = recent ts c l.
Proof.
  induction 1 as [|x l Hs IH Hx]; [done|]. cbn [pop_old]. unfold recent in *. simpl.
  destruct (Z.ltb_spec (ts x) c), (Z.geb_spec (ts x) c); try lia; [done|].
  f_equal. symmetry. apply recent_all. eapply Forall_impl; [exact Hx|]. simpl. lia.
Qed.

(** The rolling window.  Pruning keeps a suffix of at most 1024 samples;
    when the clock never went back while the samples were taken it keeps
    exactly the newest 1024 of those inside the window. *)
Theorem prune_deque_window {T} (ts : T -> Z) (now window : Z) (buf : list T) :
  (length (prune_deque ts now window buf) <= MAX_SAMPLES_PER_METRIC)%nat /\
  (exists dropped, buf = dropped ++ prune_deque ts now window buf) /\
  (StronglySorted (fun x y => ts x <= ts y) buf ->
   prune_deque ts now window buf =
     lastn MAX_SAMPLES_PER_METRIC (recent ts (saturating_sub now window) buf)).
Proof.
  unfold prune_deque. rewrite pop_excess_lastn. split; [|split].
  - unfold lastn. rewrite length_drop. lia.
  - destruct (pop_old_suffix ts (saturating_sub now window) buf) as [p Hp].
    unfold lastn. set (l := pop_old ts _ buf) in *.
    exists (p ++ take (length l - MAX_SAMPLES_PER_METRIC) l).
    rewrite <- app_assoc, take_drop. done.
  - intros Hs. by rewrite pop_old_sorted.
Qed.

Lemma prune_deque_window_witness :
  prune_deque (fun x : Z => x) 100 50 [10; 40; 60; 90] = [60; 90].
Proof.
  destruct (prune_deque_window (fun x : Z => x) 100 50 [10; 40; 60; 90]) as (_ & _ & H).
  rewrite H; [reflexivity|]. repeat constructor; lia.
Defined.

Lemma streak_spec t l :
  Forall (fun x => fl_score_permille x < t) (take (streak t l) l) /\
  forall x, l !! streak t l = Some x -> t <= fl_score_permille x.
Proof.
  induction l as [|y l [IH1 IH2]]; simpl; [split; [constructor|done]|].
  destruct (Z.ltb_spec (fl_score_permille y) t).
  - split; [by constructor|done].
  - split; [constructor|]. intros x [= <-]. done.
Qed.

(** The streak of bad gradients is the longest run of below-threshold
    samples at the end of the record: the last [n] are all below, and the one
    before them, if any, is not.  A peer without samples has none. *)
Theorem bad_fl_streak_longest (s : ObservationStore) (peer : string) (threshold : Z) :
  match inner s !! peer with
  | None => bad_fl_streak s peer threshold = O
  | Some obs =>
      exists good bad, fl_contributions obs = good ++ bad /\
        length bad = bad_fl_streak s peer threshold /\
        Forall (fun x => fl_score_permille x < threshold) bad /\
        (forall x, last good = Some x -> threshold <= fl_score_permille x)
  end.
Proof.
  unfold bad_fl_streak. destruct (inner s !! peer) as [obs|]; [|done].
  set (l := fl_contributions obs). destruct (streak_spec threshold (reverse l)) as [H1 H2].
  set (n := streak threshold (reverse l)) in *.
  exists (reverse (drop n (reverse l))), (reverse (take n (reverse l))).
  split; [by rewrite <- reverse_app, take_drop, reverse_involutive|].
  assert (n <= length (reverse l))%nat as Hn.
  { clear H1 H2. subst n. induction (reverse l) as [|x r IH]; simpl; [lia|]. case_match; lia. }
  split; [rewrite length_reverse, length_take; lia|]. split.
  - by apply Forall_reverse.
  - intros x Hx. apply H2. rewrite last_reverse, head_lookup, lookup_drop in Hx.
    by rewrite Nat.add_0_r in Hx.
Qed.

Lemma sum64_le_1000 l :
  Forall (in_range 1000) l -> Z.of_nat (length l) <= 1000000 ->
  0 <= sum64 l <= 1000 * Z.of_nat (length l).
Proof.
  intros Hl Hn. rewrite (sum64_spec l 1000); [|done|mlia|lia].
  clear Hn. unfold sumZ. induction Hl as [|x l Hx _ IH]; simpl; [lia|]. unfold in_range in Hx. lia.
Qed.

(** The FL integrity score is a permille: 1000 for a peer without samples
    in the window and otherwise the mean of those samples, rounded down, for
    any peer whose samples were recorded through the store. *)
Theorem build_fl_integrity_score_mean (now : Z) (s : ObservationStore) (peer : string) :
  (forall obs, inner s !! peer = Some obs ->
     (length (fl_contributions obs) <= MAX_SAMPLES_PER_METRIC)%nat /\
     Forall (fun x => in_range 1000 (fl_score_permille x)) (fl_contributions obs)) ->
  in_range 1000 (build_fl_integrity_score now s peer) /\
  forall obs, inner s !! peer = Some obs ->
    let l := map fl_score_permille
      (recent fl_ts_secs (saturating_sub now (window_secs s)) (fl_contributions obs)) in
    build_fl_integrity_score now s peer =
      if decide (l = []) then 1000 else sumZ l / Z.of_nat (length l).
Proof.
  intros Hok. unfold build_fl_integrity_score.
  destruct (inner s !! peer) as [obs|] eqn:E; [|split; [mlia|done]].
  destruct (Hok obs eq_refl) as [Hlen Hall].
  set (l := map fl_score_permille _).
  assert (Forall (in_range 1000) l) as Hl.
  { apply Forall_forall. intros z Hz. apply list_elem_of_In, in_map_iff in Hz as (x & <- & Hx).
    unfold recent in Hx. apply filter_In in Hx as [Hx _]. rewrite Forall_forall in Hall.
    apply Hall. by apply list_elem_of_In. }
  assert (Z.of_nat (length l) <= 1024) as Hn.
  { unfold l, recent. rewrite length_map. pose proof (List.filter_length_le
      (fun x => fl_ts_secs x >=? saturating_sub now (window_secs s)) (fl_contributions obs)).
    unfold MAX_SAMPLES_PER_METRIC in Hlen. lia. }
  assert (match l with
    | [] => 1000
    | z :: r => as_u16 (Z.min (sum64 (z :: r) / Z.of_nat (length (z :: r))) 1000)
    end =
    if decide (l = []) then 1000 else sumZ l / Z.of_nat (length l)) as Heq.
  { pose proof (sum64_le_1000 l Hl ltac:(lia)) as Hs.
    assert (sum64 l = sumZ l) as Es by (apply (sum64_spec l 1000); [done|mlia|lia]).
    destruct l as [|x r]; [done|]. rewrite Es in *. rewrite decide_False by done.
    set (m := Z.of_nat (length (x :: r))) in *.
    assert (0 < m) by (unfold m; simpl; lia).
    assert (0 <= sumZ (x :: r) / m <= 1000).
    { split; [apply Z.div_pos; lia|apply Z.div_le_upper_bound; lia]. }
    unfold as_u16. rewrite Z.min_l, wrap_id; [done|mlia|lia]. }
  rewrite Heq. split; [|by intros ? [= <-]].
  case_decide as Hd; [mlia|]. pose proof (sum64_le_1000 l Hl ltac:(lia)) as Hs.
  rewrite (sum64_spec l 1000) in Hs; [|done|mlia|lia].
  assert (0 < Z.of_nat (length l)) by (destruct l; simpl; [done|lia]).
  split; [apply Z.div_pos; lia|apply Z.div_le_upper_bound; lia].
Qed.

Definition two_rounds : ObservationStore :=
  record_fl_contribution 20 "p"%string 2 400 (record_fl_contribution 10 "p"%string 1 5000 new).

Lemma build_fl_integrity_score_mean_witness :
  build_fl_integrity_score 30 two_rounds "p"%string = 700.
Proof.
  destruct (build_fl_integrity_score_mean 30 two_rounds "p"%string) as [_ H].
  - intros obs [= <-]. split; [vm_compute; lia|]. repeat constructor; vm_compute; done.
  - rewrite (H _ eq_refl). reflexivity.
Defined.

End Obs.
