(* ===== verification/Slashing.v ===== *)
(** * Consensus slashing

    [savitri-consensus/src/slashing.rs] and [types/slashing.rs]: misbehaviour
    reports, cooldown, jail and permanent removal, and the mirror of every
    accepted slash in the observation store.  The lock makes each operation
    atomic, so the manager is a state machine over whole operations.  The two
    clock readings of a report are arguments. *)

From S2P Require Import Prelude Codec Score Observations.

Module Slash.

Inductive MisbehaviorType :=
  | DoubleVote | Equivocation | Downtime | InvalidProposal | MaliciousGradient.

Record SlashingConfig := {
  double_vote_slash_permille : Z;
  equivocation_slash_permille : Z;
  downtime_slash_permille : Z;
  invalid_proposal_slash_permille : Z;
  malicious_gradient_slash_permille : Z;
  jail_threshold_permille : Z;
  jail_duration_epochs : Z;
  cooldown_epochs : Z;
  max_cumulative_slashes : Z;
}.

Definition SlashingConfig_default : SlashingConfig := {|
  double_vote_slash_permille := 500;
  equivocation_slash_permille := 500;
  downtime_slash_permille := 100;
  invalid_proposal_slash_permille := 250;
  malicious_gradient_slash_permille := 300;
  jail_threshold_permille := 600;
  jail_duration_epochs := 10;
  cooldown_epochs := 5;
  max_cumulative_slashes := 5 |}.

Definition slash_permille_for (c : SlashingConfig) (m : MisbehaviorType) : Z :=
  match m with
  | DoubleVote => double_vote_slash_permille c
  | Equivocation => equivocation_slash_permille c
  | Downtime => downtime_slash_permille c
  | InvalidProposal => invalid_proposal_slash_permille c
  | MaliciousGradient => malicious_gradient_slash_permille c
  end.

Record SlashingRecord := {
  r_validator_id : bytes;
  r_misbehavior_type : MisbehaviorType;
  r_epoch : Z;
  r_slot : Z;
  r_evidence_hash : bytes;
  r_slash_amount_permille : Z;
  r_timestamp : Z;
}.

Record ValidatorSlashingState := mkVS {
  cumulative_slashes : Z;
  last_slash_epoch : Z;
  jailed_until_epoch : Z;
  is_permanently_slashed : bool;
  records : list SlashingRecord;
}.
Definition ValidatorSlashingState_default : ValidatorSlashingState := mkVS 0 0 0 false [].

Definition is_jailed_at (s : ValidatorSlashingState) (current_epoch : Z) : bool :=
  jailed_until_epoch s >? current_epoch.
Definition is_active_at (s : ValidatorSlashingState) (current_epoch : Z) : bool :=
  negb (is_permanently_slashed s) && negb (is_jailed_at s current_epoch).

Inductive ConsensusError :=
  | AlreadySlashed (v : bytes)
  | ValidatorJailed (v : bytes) (until : Z)
  | SlashCooldown (v : bytes) (until last : Z).

Record SlashingManager := mkSM {
  config : SlashingConfig;
  states : gmap bytes ValidatorSlashingState;
  observations : option Obs.ObservationStore;
}.

Definition new (c : SlashingConfig) : SlashingManager := mkSM c ∅ None.
Definition with_defaults : SlashingManager := new SlashingConfig_default.
Definition set_observations (store : Obs.ObservationStore) (m : SlashingManager) : SlashingManager :=
  mkSM (config m) (states m) (Some store).

Definition map_misbehavior_to_slash_reason (m : MisbehaviorType) : Obs.SlashReason :=
  match m with
  | DoubleVote => Obs.DoubleVote
  | Equivocation => Obs.Equivocation
  | InvalidProposal => Obs.InvalidBlock
  | MaliciousGradient => Obs.MaliciousGradient
  | Downtime => Obs.Other
  end.

Definition SM (A : Type) : Type := M SlashingManager ConsensusError A.

(** [states.entry(v).or_insert_with(default)] and the write through the
    mutable reference it gives. *)
Definition entry_or_default (v : bytes) : SM ValidatorSlashingState := fun m =>
  let s := default ValidatorSlashingState_default (states m !! v) in
  (Ok s, mkSM (config m) (<[v := s]> (states m)) (observations m)).
Definition put_state (v : bytes) (s : ValidatorSlashingState) : SM unit :=
  modify (fun m => mkSM (config m) (<[v := s]> (states m)) (observations m)).

(** The jail test: the share of the allowed slashes already used. *)
Definition cumulative_ratio_permille (c : SlashingConfig) (s : ValidatorSlashingState) : Z :=
  if max_cumulative_slashes c >? 0
  then cumulative_slashes s * 1000 / max_cumulative_slashes c else 1000.

(** The state after an accepted report: record and counters, then the
    permanent or the jail transition. *)
Definition penalise (c : SlashingConfig) (epoch : Z) (rec : SlashingRecord)
    (s : ValidatorSlashingState) : ValidatorSlashingState :=
  let s1 := mkVS (wrap U32_MAX (cumulative_slashes s + 1)) epoch (jailed_until_epoch s)
              (is_permanently_slashed s) (records s ++ [rec]) in
  if cumulative_slashes s1 >=? max_cumulative_slashes c
  then mkVS (cumulative_slashes s1) (last_slash_epoch s1) (jailed_until_epoch s1) true (records s1)
  else if cumulative_ratio_permille c s1 >=? jail_threshold_permille c
  then mkVS (cumulative_slashes s1) (last_slash_epoch s1)
         (wrap U64_MAX (epoch + jail_duration_epochs c)) (is_permanently_slashed s1) (records s1)
  else s1.

Section Ops.
Context `{Hex}.

Definition report_misbehavior (timestamp now : Z) (validator_id : bytes) (mis : MisbehaviorType)
    (current_epoch current_slot : Z) (evidence_hash : bytes) : SM Z :=
  s ← entry_or_default validator_id;
  c ← gets config;
  bail_if (is_permanently_slashed s) (AlreadySlashed validator_id);;
  bail_if (is_jailed_at s current_epoch) (ValidatorJailed validator_id (jailed_until_epoch s));;
  bail_if ((last_slash_epoch s >? 0) &&
           (saturating_sub current_epoch (last_slash_epoch s) <? cooldown_epochs c))
    (SlashCooldown validator_id (wrap U64_MAX (last_slash_epoch s + cooldown_epochs c))
       (last_slash_epoch s));;
  let slash_permille := slash_permille_for c mis in
  let rec := Build_SlashingRecord validator_id mis current_epoch current_slot evidence_hash
               slash_permille timestamp in
  modify (fun m => mkSM (config m) (states m)
    (Obs.record_slash now (hex_encode validator_id) (map_misbehavior_to_slash_reason mis)
       <$> observations m));;
  put_state validator_id (penalise c current_epoch rec s);;
  mret slash_permille.

Definition process_jail_expiry (m : SlashingManager) (current_epoch : Z) : list bytes :=
  map fst (List.filter (fun vs =>
    negb (is_permanently_slashed (snd vs)) && (jailed_until_epoch (snd vs) >? 0)
    && (jailed_until_epoch (snd vs) <=? current_epoch)) (map_to_list (states m))).

Definition unjail_validator (validator_id : bytes) (current_epoch : Z) : SM unit :=
  o ← gets (fun m => states m !! validator_id);
  match o with
  | None => mret tt
  | Some s =>
      bail_if (is_permanently_slashed s) (AlreadySlashed validator_id);;
      if jailed_until_epoch s <=? current_epoch
      then put_state validator_id (mkVS (cumulative_slashes s) (last_slash_epoch s) 0
             (is_permanently_slashed s) (records s))
      else fail (ValidatorJailed validator_id (jailed_until_epoch s))
  end.

Definition is_validator_active (m : SlashingManager) (v : bytes) (current_epoch : Z) : bool :=
  match states m !! v with
  | Some s => is_active_at s current_epoch
  | None => true
  end.

Definition get_validator_state (m : SlashingManager) (v : bytes) : option ValidatorSlashingState :=
  states m !! v.
Definition get_validator_records (m : SlashingManager) (v : bytes) : list SlashingRecord :=
  default [] (records <$> states m !! v).

End Ops.

Definition apply_score_penalty (current_score slash_permille : Z) : Z :=
  let penalty := wrap U64_MAX (current_score * slash_permille) / 1000 in
  saturating_sub current_score (wrap U32_MAX penalty).

(** ** The manager as a state machine *)

Section Reach.
Context `{Hex}.

Inductive step : SlashingManager -> SlashingManager -> Prop :=
  | step_report ts now v mis e sl ev m :
      step m (snd (report_misbehavior ts now v mis e sl ev m))
  | step_unjail v e m : step m (snd (unjail_validator v e m))
  | step_observe store m : step m (set_observations store m).

Definition state_of (m : SlashingManager) (v : bytes) : ValidatorSlashingState :=
  default ValidatorSlashingState_default (states m !! v).

(** Whether a report is accepted. *)
Definition acceptable (c : SlashingConfig) (s : ValidatorSlashingState) (e : Z) : Prop :=
  is_active_at s e = true /\
  (last_slash_epoch s <= 0 \/ cooldown_epochs c <= saturating_sub e (last_slash_epoch s)).

Lemma report_cases ts now v mis e sl ev m :
  let s := state_of m v in
  let '(r, m') := report_misbehavior ts now v mis e sl ev m in
  config m' = config m /\
  ((is_ok r = false /\ ~ acceptable (config m) s e /\ observations m' = observations m /\
    states m' = <[v := s]> (states m)) \/
   (acceptable (config m) s e /\ r = Ok (slash_permille_for (config m) mis) /\
    states m' = <[v := penalise (config m) e (Build_SlashingRecord v mis e sl ev
                   (slash_permille_for (config m) mis) ts) s]> (states m) /\
    observations m' = Obs.record_slash now (hex_encode v)
      (map_misbehavior_to_slash_reason mis) <$> observations m)).
Proof.
  intros s. unfold report_misbehavior, entry_or_default, acceptable, is_active_at.
  unfold mbind, M_bind, gets, bail_if, modify, put_state. simpl. fold (state_of m v). fold s.
  destruct (is_permanently_slashed s); simpl; [split; [done|left; naive_solver]|].
  destruct (is_jailed_at s e); simpl; [split; [done|left; naive_solver]|].
  destruct (Z.gtb_spec (last_slash_epoch s) 0), (Z.ltb_spec (saturating_sub e (last_slash_epoch s))
    (cooldown_epochs (config m))); simpl;
    (split; [done|]); first [left; split; [done|]; split; [intros [_ ?]; lia|done]
          |right; rewrite ?insert_insert_eq; split; [split; [done|lia]|done]].
Qed.

Lemma unjail_cases v e m :
  let '(r, m') := unjail_validator v e m in
  config m' = config m /\ observations m' = observations m /\
  (m' = m \/ exists s, states m !! v = Some s /\ is_permanently_slashed s = false /\
     jailed_until_epoch s <= e /\
     states m' = <[v := mkVS (cumulative_slashes s) (last_slash_epoch s) 0
                          (is_permanently_slashed s) (records s)]> (states m)).
Proof.
  unfold unjail_validator, mbind, M_bind, gets, bail_if, put_state, modify. simpl.
  destruct (states m !! v) as [s|] eqn:E; simpl; [|by auto].
  destruct (is_permanently_slashed s) eqn:Ep; simpl; [by auto|].
  destruct (Z.leb_spec (jailed_until_epoch s) e); simpl; [|by auto].
  split; [done|]. split; [done|]. right. exists s. by rewrite Ep.
Qed.

(** *** The invariant of one validator's state *)

Definition spaced (c : SlashingConfig) (l : list SlashingRecord) : Prop :=
  forall i a b, l !! i = Some a -> l !! S i = Some b -> 0 < r_epoch a ->
    r_epoch a + cooldown_epochs c <= r_epoch b.

Record vs_inv (c : SlashingConfig) (v : bytes) (s : ValidatorSlashingState) : Prop := {
  vi_count : cumulative_slashes s = Z.of_nat (length (records s));
  vi_max : cumulative_slashes s <= max_cumulative_slashes c;
  vi_perm : is_permanently_slashed s = (cumulative_slashes s =? max_cumulative_slashes c);
  vi_last : last_slash_epoch s = from_option r_epoch 0 (last (records s));
  vi_jail : jailed_until_epoch s = 0 \/
    jail_threshold_permille c <= cumulative_ratio_permille c s /\
    exists r, r ∈ records s /\ jailed_until_epoch s = wrap U64_MAX (r_epoch r + jail_duration_epochs c);
  vi_recs : Forall (fun r => r_validator_id r = v /\
    r_slash_amount_permille r = slash_permille_for c (r_misbehavior_type r)) (records s);
  vi_spaced : spaced c (records s);
}.

Lemma vs_inv_default c v : 0 < max_cumulative_slashes c -> vs_inv c v ValidatorSlashingState_default.
Proof.
  intros Hm. split; cbn -[Z.eqb]; [done|lia| |done|by left|constructor|done].
  symmetry. apply Z.eqb_neq. lia.
Qed.

Lemma spaced_snoc c l r :
  spaced c l ->
  (0 < from_option r_epoch 0 (last l) ->
   from_option r_epoch 0 (last l) + cooldown_epochs c <= r_epoch r) ->
  spaced c (l ++ [r]).
Proof.
  intros Hs Hl i a b Ha Hb Hpos. destruct (decide (S i < length l)%nat) as [Hi|Hi].
  - rewrite lookup_app_l in Ha, Hb by lia. by apply (Hs i).
  - apply lookup_lt_Some in Hb as Hlt. rewrite length_app in Hlt. simpl in Hlt.
    assert (S i = length l) as E by lia. rewrite lookup_app_l in Ha by lia.
    rewrite lookup_app_r, E, Nat.sub_diag in Hb by lia. injection Hb as <-.
    assert (last l = Some a) as Hla by (rewrite last_lookup, <- E; done).
    rewrite Hla in Hl. by apply Hl.
Qed.

Lemma penalise_inv c v s e r :
  0 < max_cumulative_slashes c -> max_cumulative_slashes c <= U32_MAX -> 0 < cooldown_epochs c ->
  vs_inv c v s -> acceptable c s e -> r_epoch r = e -> r_validator_id r = v ->
  r_slash_amount_permille r = slash_permille_for c (r_misbehavior_type r) ->
  vs_inv c v (penalise c e r s).
Proof.
  intros Hm Hu Hc Hi [Ha Hcd] He Hv Hs. unfold is_active_at in Ha.
  apply andb_true_iff in Ha as [Hp%negb_true_iff _]. rewrite (vi_perm _ _ _ Hi) in Hp.
  apply Z.eqb_neq in Hp. pose proof (vi_max _ _ _ Hi). pose proof (vi_count _ _ _ Hi).
  assert (wrap U32_MAX (cumulative_slashes s + 1) = cumulative_slashes s + 1) as Ew
    by (apply wrap_id; mlia).
  unfold penalise. rewrite Ew. cbn [cumulative_slashes last_slash_epoch records jailed_until_epoch
    is_permanently_slashed].
  assert (spaced c (records s ++ [r])) as Hsp.
  { apply spaced_snoc; [apply Hi|]. rewrite <- (vi_last _ _ _ Hi), He. unfold saturating_sub in Hcd. lia. }
  assert (last (records s ++ [r]) = Some r) as Hla by apply last_snoc.
  assert (Forall (fun r => r_validator_id r = v /\
    r_slash_amount_permille r = slash_permille_for c (r_misbehavior_type r)) (records s ++ [r]))
    as Hr by (apply Forall_app; split; [apply Hi|by repeat constructor]).
  assert (cumulative_slashes s + 1 = Z.of_nat (length (records s ++ [r])))
    as Hlen by (rewrite length_app; simpl; lia).
  assert (is_permanently_slashed s = false) as Hps
    by (rewrite (vi_perm _ _ _ Hi); by apply Z.eqb_neq).
  destruct (Z.geb_spec (cumulative_slashes s + 1) (max_cumulative_slashes c)).
  - split; cbn; try done; [lia|symmetry; apply Z.eqb_eq; lia|by rewrite Hla|].
    destruct (vi_jail _ _ _ Hi) as [|(Hj & x & Hx & Ex)]; [by left|right].
    split; [|exists x; split; [by apply elem_of_app; left|done]].
    unfold cumulative_ratio_permille in *. cbn. destruct (Z.gtb_spec (max_cumulative_slashes c) 0); [|lia].
    etransitivity; [exact Hj|]. apply Z.div_le_mono; lia.
  - destruct (Z.geb_spec (cumulative_ratio_permille c (mkVS (cumulative_slashes s + 1) e
      (jailed_until_epoch s) (is_permanently_slashed s) (records s ++ [r])))
      (jail_threshold_permille c)) as [Hj|Hj];
      split; cbn; try done; try lia; try (by rewrite Hla);
      try (rewrite Hps; symmetry; apply Z.eqb_neq; lia).
    { right. split; [exact Hj|]. exists r. split; [apply elem_of_app; right; by left|by rewrite He]. }
    destruct (vi_jail _ _ _ Hi) as [|(Hj' & _)]; [by left|exfalso].
    unfold cumulative_ratio_permille in *. cbn in *.
    destruct (Z.gtb_spec (max_cumulative_slashes c) 0); [|lia].
    pose proof (Z.div_le_mono (cumulative_slashes s * 1000) ((cumulative_slashes s + 1) * 1000)
      (max_cumulative_slashes c)). lia.
Qed.

Definition mgr_inv (c : SlashingConfig) (m : SlashingManager) : Prop :=
  config m = c /\ map_Forall (vs_inv c) (states m).

Lemma mgr_inv_state c m v :
  0 < max_cumulative_slashes c -> mgr_inv c m -> vs_inv c v (state_of m v).
Proof.
  intros Hm [_ Hi]. unfold state_of. destruct (states m !! v) as [s|] eqn:E; simpl.
  - by apply Hi.
  - by apply vs_inv_default.
Qed.

Lemma mgr_step_inv c m m' :
  0 < max_cumulative_slashes c -> max_cumulative_slashes c <= U32_MAX -> 0 < cooldown_epochs c ->
  step m m' -> mgr_inv c m -> mgr_inv c m'.
Proof.
  intros Hm Hu Hc Hst Hi. pose proof Hi as [Hcfg Hall]. inversion Hst; subst; unfold mgr_inv.
  - pose proof (report_cases ts now v mis e sl ev m) as Hr.
    destruct (report_misbehavior ts now v mis e sl ev m) as [r m']. cbn.
    destruct Hr as [Ec [(_ & _ & _ & ->)|(Hacc & _ & -> & _)]]; split; try congruence;
      apply map_Forall_insert_2; try done.
    + by apply mgr_inv_state.
    + apply penalise_inv; try done. by apply mgr_inv_state.
  - pose proof (unjail_cases v e m) as Hr. destruct (unjail_validator v e m) as [r m']. cbn.
    destruct Hr as (Ec & _ & [->|(s & Hs & Hp & Hj & ->)]); [done|]. split; [congruence|].
    apply map_Forall_insert_2; [|done]. specialize (Hall _ _ Hs).
    split; cbn; try apply Hall. by left.
  - done.
Qed.

End Reach.

(** When a report of epoch [e] is accepted: the validator is not removed, not
    in jail, and the cooldown since its last slash is over; there is no
    cooldown after a slash of epoch 0. *)
Definition can_slash (c : SlashingConfig) (s : ValidatorSlashingState) (e : Z) : bool :=
  negb (is_permanently_slashed s) && (jailed_until_epoch s <=? e) &&
  ((last_slash_epoch s <=? 0) || (last_slash_epoch s + cooldown_epochs c <=? e)).

(** What an accepted report does to the state. *)
Definition slashed (c : SlashingConfig) (r : SlashingRecord) (s s' : ValidatorSlashingState) : Prop :=
  cumulative_slashes s' = cumulative_slashes s + 1 /\ last_slash_epoch s' = r_epoch r /\ records s' = records s ++ [r] /\
  is_permanently_slashed s' = (cumulative_slashes s' =? max_cumulative_slashes c) /\
  jailed_until_epoch s' =
    if is_permanently_slashed s' then jailed_until_epoch s
    else if jail_threshold_permille c <=? cumulative_slashes s' * 1000 / max_cumulative_slashes c
    then wrap U64_MAX (r_epoch r + jail_duration_epochs c) else 0.

Lemma can_slash_acceptable c s e :
  0 < cooldown_epochs c -> can_slash c s e = true <-> acceptable c s e.
Proof.
  intros Hc. unfold can_slash, acceptable, is_active_at, is_jailed_at, saturating_sub.
  rewrite !andb_true_iff, orb_true_iff, !negb_true_iff, !Z.leb_le, Z.gtb_ltb, Z.ltb_ge. intuition lia.
Qed.

Lemma penalise_slashed c v s e r :
  0 < max_cumulative_slashes c -> max_cumulative_slashes c <= U32_MAX ->
  vs_inv c v s -> is_permanently_slashed s = false -> r_epoch r = e -> slashed c r s (penalise c e r s).
Proof.
  intros Hm Hu Hi Hp He. pose proof (vi_perm _ _ _ Hi) as Hpm. rewrite Hp in Hpm. symmetry in Hpm. apply Z.eqb_neq in Hpm.
  pose proof (vi_max _ _ _ Hi). pose proof (vi_count _ _ _ Hi).
  assert (wrap U32_MAX (cumulative_slashes s + 1) = cumulative_slashes s + 1) as Ew by (apply wrap_id; mlia).
  unfold slashed, penalise. rewrite Ew. unfold cumulative_ratio_permille. cbn [cumulative_slashes]. rewrite He.
  destruct (Z.gtb_spec (max_cumulative_slashes c) 0); [|lia].
  destruct (Z.geb_spec (cumulative_slashes s + 1) (max_cumulative_slashes c)); cbn.
  - split_and!; try done. symmetry. apply Z.eqb_eq. lia.
  - rewrite Z.geb_leb. assert (is_permanently_slashed s = (cumulative_slashes s + 1 =? max_cumulative_slashes c)) as Hnp
      by (rewrite Hp; symmetry; apply Z.eqb_neq; lia).
    destruct (Z.leb_spec (jail_threshold_permille c) ((cumulative_slashes s + 1) * 1000 / max_cumulative_slashes c)) as [Hhigh|Hlow]; cbn;
      rewrite Hp; split_and!; try done; try (by rewrite <- Hp); [by rewrite (proj2 (Z.leb_le _ _) Hhigh)|].
    rewrite (proj2 (Z.leb_gt _ _) Hlow). destruct (vi_jail _ _ _ Hi) as [|(Hj & _)]; [done|exfalso]. unfold cumulative_ratio_permille in Hj.
    destruct (Z.gtb_spec (max_cumulative_slashes c) 0); [|lia].
    pose proof (Z.div_le_mono (cumulative_slashes s * 1000) ((cumulative_slashes s + 1) * 1000) (max_cumulative_slashes c)). lia.
Qed.

Lemma report_spec `{Hex} ts now v mis e sl ev c m :
  0 < max_cumulative_slashes c -> max_cumulative_slashes c <= U32_MAX -> 0 < cooldown_epochs c -> mgr_inv c m ->
  let '(r, m') := report_misbehavior ts now v mis e sl ev m in
  (if can_slash c (state_of m v) e
   then r = Ok (slash_permille_for c mis) /\
     slashed c (Build_SlashingRecord v mis e sl ev (slash_permille_for c mis) ts) (state_of m v) (state_of m' v)
   else is_ok r = false /\ state_of m' v = state_of m v) /\
  forall v', v' <> v -> state_of m' v' = state_of m v'.
Proof.
  intros Hm Hu Hc Hi. pose proof Hi as [Hcfg _]. pose proof (report_cases ts now v mis e sl ev m) as Hr.
  destruct (report_misbehavior ts now v mis e sl ev m) as [r m']. cbn in Hr. rewrite Hcfg in Hr.
  pose proof (can_slash_acceptable c (state_of m v) e Hc) as Hacc.
  destruct Hr as [_ [(Hok & Hna & _ & Hst)|(Ha & Hok & Hst & _)]].
  - destruct (can_slash c (state_of m v) e); [by destruct Hna; apply Hacc|].
    split; [split; [done|]|intros v' Hv']; unfold state_of at 1; rewrite Hst; [by rewrite lookup_insert_eq|by rewrite lookup_insert_ne].
  - rewrite (proj2 Hacc Ha). split; [split; [done|]|intros v' Hv'; unfold state_of; by rewrite Hst, lookup_insert_ne].
    unfold state_of at 2. rewrite Hst, lookup_insert_eq. cbn [default].
    apply (penalise_slashed c v); [done|done|by apply mgr_inv_state| |done].
    destruct Ha as [Ha _]. unfold is_active_at in Ha. by apply andb_true_iff in Ha as [Hp%negb_true_iff _].
Qed.

(** C30: Whatever sequence of reports and releases a manager goes through, the
    state of every validator is consistent: the counter is the number of
    records and never passes the maximum; the validator is removed exactly
    when the maximum is reached; a jail term is the term of a record, and
    only if the threshold was reached; every record names the validator and
    the configured penalty; and two consecutive slashes are at least the
    cooldown apart, unless the first was in epoch 0.  A further report is
    accepted exactly when the validator is not removed, not in jail, and past
    the cooldown (which does not apply after a slash in epoch 0).  Accepted,
    it adds one slash and its record, removes the validator at the maximum and
    else jails it for the configured term exactly when the threshold is
    reached; refused, it changes nothing; no other validator changes.  (The
    maximum is positive and fits 32 bits, the cooldown is positive.) *)
Theorem slashing_reachable `{Hex} (c : SlashingConfig) (m : SlashingManager) (v : bytes) :
  0 < max_cumulative_slashes c -> max_cumulative_slashes c <= U32_MAX -> 0 < cooldown_epochs c ->
  rtc step (new c) m ->
  vs_inv c v (state_of m v) /\
  forall ts now mis e sl ev,
    let '(r, m') := report_misbehavior ts now v mis e sl ev m in
    (if can_slash c (state_of m v) e
     then r = Ok (slash_permille_for c mis) /\
       slashed c (Build_SlashingRecord v mis e sl ev (slash_permille_for c mis) ts) (state_of m v) (state_of m' v)
     else is_ok r = false /\ state_of m' v = state_of m v) /\
    forall v', v' <> v -> state_of m' v' = state_of m v'.
Proof.
  intros Hm Hu Hc Hr.
  assert (forall m0, rtc step m0 m -> mgr_inv c m0 -> mgr_inv c m) as Hi.
  { clear -Hm Hu Hc. induction 1 as [|m0 m1 m2 Hst _ IH]; [done|]. intros Hi. by apply IH, (mgr_step_inv c m0). }
  assert (mgr_inv c m) as Hmi by (apply (Hi (new c)); [done|split; [done|apply map_Forall_empty]]).
  split; [by apply mgr_inv_state|]. intros. by apply report_spec.
Qed.

(** A validator slashed in epochs 10, 15 and 20 under the default
    configuration, with a report refused in between. *)
Definition v0 : bytes := zeros 32.
Definition thrice `{Hex} : SlashingManager :=
  snd ((report_misbehavior 0 0 v0 DoubleVote 10 0 [];;
        report_misbehavior 0 0 v0 Downtime 15 0 [];;
        report_misbehavior 0 0 v0 Equivocation 20 0 []) with_defaults).

Lemma thrice_reachable `{Hex} : rtc step with_defaults thrice.
Proof.
  eapply rtc_l; [apply (step_report 0 0 v0 DoubleVote 10 0 [])|].
  eapply rtc_l; [apply (step_report 0 0 v0 Downtime 15 0 [])|].
  eapply rtc_l; [apply (step_report 0 0 v0 Equivocation 20 0 [])|]. reflexivity.
Qed.

Lemma slashing_reachable_witness :
  vs_inv SlashingConfig_default v0 (state_of thrice v0) /\ jailed_until_epoch (state_of thrice v0) = 30 /\
  is_ok (report_misbehavior 0 0 v0 Downtime 29 0 [] thrice).1 = false /\
  jailed_until_epoch (state_of (report_misbehavior 0 0 v0 Downtime 30 0 [] thrice).2 v0) = 40.
Proof.
  destruct (slashing_reachable SlashingConfig_default thrice v0) as [Hi Hrep];
    [done|vm_compute; done|done|apply thrice_reachable|].
  assert (can_slash SlashingConfig_default (state_of thrice v0) 29 = false) as E29 by (vm_compute; reflexivity).
  assert (can_slash SlashingConfig_default (state_of thrice v0) 30 = true) as E30 by (vm_compute; reflexivity).
  assert (cumulative_slashes (state_of thrice v0) = 3) as E3 by (vm_compute; reflexivity).
  split; [exact Hi|]. split; [vm_compute; reflexivity|]. split.
  - specialize (Hrep 0 0 Downtime 29 0 []). rewrite E29 in Hrep. destruct (report_misbehavior _ _ _ _ _ _ _ _) as [r m'].
    exact (proj1 (proj1 Hrep)).
  - specialize (Hrep 0 0 Downtime 30 0 []). rewrite E30 in Hrep. destruct (report_misbehavior _ _ _ _ _ _ _ _) as [r m'].
    destruct Hrep as [(_ & Hc & _ & _ & Hp & Hj) _]. rewrite E3 in Hc. rewrite Hc in Hp. rewrite Hp, Hc in Hj. exact Hj.
Defined.

(** removal is permanent.  Once a validator is permanently slashed, no
    further operation of the manager changes its state, and it is active in no
    epoch. *)
Theorem permanent_slash_is_final `{Hex} (m m' : SlashingManager) (v : bytes)
    (s : ValidatorSlashingState) :
  rtc step m m' -> get_validator_state m v = Some s -> is_permanently_slashed s = true ->
  get_validator_state m' v = Some s /\ forall e, is_validator_active m' v e = false.
Proof.
  intros Hr Hs Hp. assert (states m' !! v = Some s) as Hs'.
  { revert Hs. unfold get_validator_state. induction Hr as [|m m1 m2 Hst _ IH]; [done|].
    intros Hs. apply IH. clear IH. inversion Hst; subst; [| |done].
    - pose proof (report_cases ts now v1 mis e sl ev m) as Hc.
      destruct (report_misbehavior ts now v1 mis e sl ev m) as [r m']. cbn.
      destruct (decide (v1 = v)) as [->|Hne].
      + unfold state_of in Hc. rewrite Hs in Hc. simpl in Hc.
        destruct Hc as [_ [(_ & _ & _ & ->)|([Ha _] & _)]]; [by rewrite lookup_insert_eq|].
        unfold is_active_at in Ha. by rewrite Hp in Ha.
      + destruct Hc as [_ [(_ & _ & _ & ->)|(_ & _ & -> & _)]]; by rewrite lookup_insert_ne.
    - pose proof (unjail_cases v1 e m) as Hc. destruct (unjail_validator v1 e m) as [r m']. cbn.
      destruct Hc as (_ & _ & [->|(s1 & Hs1 & Hp1 & _ & ->)]); [done|].
      destruct (decide (v1 = v)) as [->|Hne]; [congruence|by rewrite lookup_insert_ne]. }
  split; [done|]. intros e. unfold is_validator_active, is_active_at. by rewrite Hs', Hp.
Qed.

Definition removed `{Hex} : SlashingManager :=
  snd ((report_misbehavior 0 0 v0 DoubleVote 40 0 [];;
        report_misbehavior 0 0 v0 DoubleVote 60 0 []) thrice).

Lemma permanent_slash_is_final_witness :
  is_validator_active (snd (unjail_validator v0 1000 removed)) v0 5000 = false.
Proof.
  destruct (permanent_slash_is_final removed (snd (unjail_validator v0 1000 removed)) v0
    (state_of removed v0)) as [_ Hf]; [|reflexivity|reflexivity|apply Hf].
  eapply rtc_l; [apply (step_unjail v0 1000)|]. reflexivity.
Defined.

(** Jail expiry.  [process_jail_expiry] lists exactly the validators that
    are not removed and whose term has ended.  Releasing a listed validator
    succeeds, leaves every other validator as it was, makes it active and
    takes it off the list. *)
Theorem jail_expiry_release `{Hex} (m : SlashingManager) (v : bytes) (e : Z) :
  (v ∈ process_jail_expiry m e <->
   exists s, get_validator_state m v = Some s /\ is_permanently_slashed s = false /\
     0 < jailed_until_epoch s <= e) /\
  (v ∈ process_jail_expiry m e ->
   let '(r, m') := unjail_validator v e m in
   r = Ok tt /\ (0 <= e -> is_validator_active m' v e = true) /\ (v ∉ process_jail_expiry m' e) /\
   forall v', v' <> v -> get_validator_state m' v' = get_validator_state m v').
Proof.
  assert (forall m v, v ∈ process_jail_expiry m e <->
    exists s, states m !! v = Some s /\ is_permanently_slashed s = false /\
    0 < jailed_until_epoch s <= e) as Hin.
  { clear. intros m v. unfold process_jail_expiry. rewrite list_elem_of_In, in_map_iff. split.
    - intros ([v1 s] & <- & Hf). apply filter_In in Hf as [Hf Hb]. simpl in *.
      autorewrite with mach in Hb. exists s. split; [by apply elem_of_map_to_list, list_elem_of_In|].
      naive_solver.
    - intros (s & Hs & Hp & Hj). exists (v, s). split; [done|]. apply filter_In.
      split; [by apply list_elem_of_In, elem_of_map_to_list|]. simpl. rewrite Hp.
      autorewrite with mach. split; [split; [done|]|]; lia. }
  split; [apply Hin|]. intros (s & Hs & Hp & Hj)%Hin.
  unfold unjail_validator, mbind, M_bind, gets, bail_if, put_state, modify. simpl.
  rewrite Hs, Hp. simpl. rewrite (proj2 (Z.leb_le _ _)) by lia. simpl.
  split; [done|]. unfold is_validator_active, is_active_at, is_jailed_at. simpl. split; [|split].
  - intros He. rewrite lookup_insert_eq. simpl. destruct (Z.gtb_spec 0 e); [lia|done].
  - rewrite Hin. simpl. rewrite lookup_insert_eq. intros (s' & [= <-] & _ & Hbad). simpl in Hbad. lia.
  - intros v' Hne. unfold get_validator_state. simpl. by rewrite lookup_insert_ne.
Qed.

Lemma jail_expiry_release_witness :
  is_validator_active (snd (unjail_validator v0 31 thrice)) v0 31 = true.
Proof.
  destruct (jail_expiry_release thrice v0 31) as [_ Hf].
  assert (v0 ∈ process_jail_expiry thrice 31) as Hin by (apply (bool_decide_eq_true_1 _); reflexivity).
  specialize (Hf Hin). destruct (unjail_validator v0 31 thrice) as [r m'] eqn:E.
  apply Hf. lia.
Defined.

(** The score penalty is exact: for a [u32] score and a permille of at
    most 1000 it removes the floor of that share, without overflow, never
    raises a score, and a full penalty leaves zero. *)
Theorem apply_score_penalty_exact (score permille : Z) :
  in_range U32_MAX score -> 0 <= permille <= 1000 ->
  apply_score_penalty score permille = score - score * permille / 1000 /\
    0 <= apply_score_penalty score permille <= score /\
    apply_score_penalty score 1000 = 0 /\ apply_score_penalty score 0 = score.
Proof.
  intros Hs Hp.
  assert (forall p, 0 <= p <= 1000 -> 0 <= score * p / 1000 <= score /\
    apply_score_penalty score p = score - score * p / 1000) as Hx.
  { intros p Hp'. assert (0 <= score * p <= score * 1000) as Hb by (unfold in_range in Hs; nia).
    assert (0 <= score * p / 1000 <= score) as Hd.
    { split; [apply Z.div_pos; lia|apply Z.div_le_upper_bound; lia]. }
    split; [done|]. unfold apply_score_penalty, saturating_sub.
    rewrite (wrap_id U64_MAX) by mlia. rewrite wrap_id by mlia. lia. }
  destruct (Hx permille Hp) as [Hb E]. split; [done|]. split; [lia|].
  destruct (Hx 1000 ltac:(lia)) as [_ ->]. destruct (Hx 0 ltac:(lia)) as [_ ->].
  rewrite Z.div_mul by lia. split; [lia|]. rewrite Z.mul_0_r, Z.div_0_l; lia.
Qed.

Lemma apply_score_penalty_exact_witness : apply_score_penalty 999 250 = 999 - 249.
Proof. apply (apply_score_penalty_exact 999 250); mlia. Defined.

End Slash.
