(* ===== verification/Bonds.v ===== *)
(** * Validator bonds

    [savitri-storage/src/storage/bonds.rs], every operation of [BondManager]
    but the bincode (de)serialisation: bonds by validator, the slashing
    parameters, the slashing history and the running total.  Each operation
    holds its locks to the end, so operations are atomic. *)

From S2P Require Import Prelude OrdMap.

Module Bonds.

Definition DEFAULT_BOND_AMOUNT : Z := 1000000000000000.
Definition MIN_BOND_AMOUNT : Z := 100000000000000.
Definition MAX_BOND_AMOUNT : Z := 10000000000000000.
Definition DEFAULT_SLASH_PCT_EQUIVOCATION : Z := 5000.
Definition DEFAULT_SLASH_PCT_DOUBLE_VOTE : Z := 2500.
Definition DEFAULT_SLASH_PCT_INVALID_ATTESTATION : Z := 1000.
Definition MIN_SLASH_PCT : Z := 100.
Definition MAX_SLASH_PCT : Z := 10000.
Definition UNBONDING_PERIOD_BLOCKS : Z := 21600.

Inductive BondStatus := Active | Unbonding | Slashed.
#[global] Instance BondStatus_eq : EqDecision BondStatus.
Proof. solve_decision. Defined.

Record BondInfo := mkBond {
  validator : bytes;
  amount : Z;
  bonded_at : Z;
  status : BondStatus;
  unbonding_start : option Z;
}.

Definition BondInfo_new (v : bytes) (a : Z) (at_ : Z) : BondInfo := mkBond v a at_ Active None.
Definition is_active (b : BondInfo) : bool := bool_decide (status b = Active).
Definition BondInfo_start_unbonding (current_block : Z) (b : BondInfo) : BondInfo :=
  mkBond (validator b) (amount b) (bonded_at b) Unbonding (Some current_block).
Definition is_unbonding_complete (b : BondInfo) (current_block : Z) : bool :=
  match unbonding_start b with
  | Some start => current_block >=? wrap U64_MAX (start + UNBONDING_PERIOD_BLOCKS)
  | None => false
  end.

Inductive SlashingReason := Equivocation | DoubleVote | InvalidAttestation.

Record SlashingParams := {
  equivocation_pct : Z;
  double_vote_pct : Z;
  invalid_attestation_pct : Z;
  min_bond_amount : Z;
  slash_pct_equivocation : Z;
  slash_pct_double_vote : Z;
  slash_pct_invalid_attestation : Z;
  updated_at : Z;
}.

Definition SlashingParams_default : SlashingParams := {|
  equivocation_pct := DEFAULT_SLASH_PCT_EQUIVOCATION;
  double_vote_pct := DEFAULT_SLASH_PCT_DOUBLE_VOTE;
  invalid_attestation_pct := DEFAULT_SLASH_PCT_INVALID_ATTESTATION;
  min_bond_amount := MIN_BOND_AMOUNT;
  slash_pct_equivocation := DEFAULT_SLASH_PCT_EQUIVOCATION;
  slash_pct_double_vote := DEFAULT_SLASH_PCT_DOUBLE_VOTE;
  slash_pct_invalid_attestation := DEFAULT_SLASH_PCT_INVALID_ATTESTATION;
  updated_at := 0 |}.

Definition get_slash_pct (p : SlashingParams) (r : SlashingReason) : Z :=
  match r with
  | Equivocation => slash_pct_equivocation p
  | DoubleVote => slash_pct_double_vote p
  | InvalidAttestation => slash_pct_invalid_attestation p
  end.

Definition calculate_slash_amount (p : SlashingParams) (bond_amount : Z) (r : SlashingReason) : Z :=
  saturating_mul U128_MAX bond_amount (get_slash_pct p r) / 10000.

Record SlashingEvent := {
  ev_validator : bytes;
  ev_reason : SlashingReason;
  ev_amount_slashed : Z;
  ev_block_height : Z;
  ev_timestamp : Z;
}.

Record BondManager := mkBM {
  bonds : gmap bytes BondInfo;
  slashing_params : SlashingParams;
  slashing_history : list SlashingEvent;
  total_bonded : Z;
}.

Definition new : BondManager := mkBM ∅ SlashingParams_default [] 0.

Inductive BondError :=
  | BelowMinimum | AboveMaximum | AlreadyBonded | NoBond | NotActive | NotUnbonding
  | PeriodNotComplete | PctOutOfRange | MinBondTooLow.

Definition BM (A : Type) : Type := M BondManager BondError A.

Definition set_bonds (f : gmap bytes BondInfo -> gmap bytes BondInfo) : BM unit :=
  modify (fun m => mkBM (f (bonds m)) (slashing_params m) (slashing_history m) (total_bonded m)).
Definition set_total (f : Z -> Z) : BM unit :=
  modify (fun m => mkBM (bonds m) (slashing_params m) (slashing_history m) (f (total_bonded m))).
Definition push_event (e : SlashingEvent) : BM unit :=
  modify (fun m => mkBM (bonds m) (slashing_params m) (slashing_history m ++ [e]) (total_bonded m)).

Definition has_active_bond (m : BondManager) (v : bytes) : bool :=
  default false (is_active <$> bonds m !! v).
Definition get_bond (m : BondManager) (v : bytes) : option BondInfo := bonds m !! v.

Definition create_bond (v : bytes) (a current_block : Z) : BM unit :=
  params ← gets slashing_params;
  bail_if (a <? min_bond_amount params) BelowMinimum;;
  bail_if (a >? MAX_BOND_AMOUNT) AboveMaximum;;
  existing ← gets (fun m => bonds m !! v);
  bail_if (default false (is_active <$> existing)) AlreadyBonded;;
  set_bonds <[v := BondInfo_new v a current_block]>;;
  set_total (fun t => saturating_add U128_MAX t a).

Definition start_unbonding (v : bytes) (current_block : Z) : BM unit :=
  b ← gets (fun m => bonds m !! v);
  bond ← lift (ok_or b NoBond);
  bail_if (negb (is_active bond)) NotActive;;
  set_bonds <[v := BondInfo_start_unbonding current_block bond]>.

Definition complete_unbonding (v : bytes) (current_block : Z) : BM Z :=
  b ← gets (fun m => bonds m !! v);
  bond ← lift (ok_or b NoBond);
  bail_if (negb (bool_decide (status bond = Unbonding))) NotUnbonding;;
  bail_if (negb (is_unbonding_complete bond current_block)) PeriodNotComplete;;
  set_bonds (delete v);;
  set_total (fun t => saturating_sub t (amount bond));;
  mret (amount bond).

Definition slash (timestamp : Z) (v : bytes) (reason : SlashingReason) (block_height : Z) : BM Z :=
  params ← gets slashing_params;
  b ← gets (fun m => bonds m !! v);
  bond ← lift (ok_or b NoBond);
  let slash_amount := calculate_slash_amount params (amount bond) reason in
  set_bonds <[v := mkBond (validator bond) (saturating_sub (amount bond) slash_amount)
                     (bonded_at bond) Slashed (unbonding_start bond)]>;;
  push_event (Build_SlashingEvent v reason slash_amount block_height timestamp);;
  set_total (fun t => saturating_sub t slash_amount);;
  mret slash_amount.

Definition get_slashing_params (m : BondManager) : SlashingParams := slashing_params m.

Definition pct_out_of_range (pct : Z) : bool := (pct <? MIN_SLASH_PCT) || (pct >? MAX_SLASH_PCT).

Definition update_slashing_params (params : SlashingParams) : BM unit :=
  bail_if (pct_out_of_range (slash_pct_equivocation params)) PctOutOfRange;;
  bail_if (pct_out_of_range (slash_pct_double_vote params)) PctOutOfRange;;
  bail_if (pct_out_of_range (slash_pct_invalid_attestation params)) PctOutOfRange;;
  bail_if (min_bond_amount params <? MIN_BOND_AMOUNT) MinBondTooLow;;
  modify (fun m => mkBM (bonds m) params (slashing_history m) (total_bonded m)).

Definition get_total_bonded (m : BondManager) : Z := total_bonded m.
Definition get_active_validators (m : BondManager) : list bytes :=
  map fst (List.filter (fun kb => is_active (snd kb)) (map_to_list (bonds m))).
Definition get_slashing_history (m : BondManager) (v : bytes) : list SlashingEvent :=
  List.filter (fun e => bool_decide (ev_validator e = v)) (slashing_history m).

(** ** The total of the bonds *)

Definition sum_bonds (m : gmap bytes BondInfo) : Z := map_sum amount m.

Lemma sum_bonds_fresh m v b : m !! v = None -> sum_bonds (<[v := b]> m) = amount b + sum_bonds m.
Proof. apply map_sum_fresh. Qed.

Lemma sum_bonds_delete m v b : m !! v = Some b -> sum_bonds m = amount b + sum_bonds (delete v m).
Proof. apply map_sum_delete. Qed.

Lemma sum_bonds_insert m v b b' :
  m !! v = Some b -> sum_bonds (<[v := b']> m) = amount b' - amount b + sum_bonds m.
Proof. apply map_sum_insert. Qed.

(** The parameters [update_slashing_params] lets through. *)
Definition params_ok (p : SlashingParams) : Prop :=
  (forall r, MIN_SLASH_PCT <= get_slash_pct p r <= MAX_SLASH_PCT) /\
  MIN_BOND_AMOUNT <= min_bond_amount p.

Definition bond_ok (v : bytes) (b : BondInfo) : Prop :=
  validator b = v /\ 0 <= amount b <= MAX_BOND_AMOUNT.

Record bm_inv (m : BondManager) : Prop := {
  bi_params : params_ok (slashing_params m);
  bi_bonds : map_Forall bond_ok (bonds m);
  bi_total : total_bonded m = sum_bonds (bonds m);
}.

Lemma sum_bonds_range m :
  map_Forall bond_ok m -> 0 <= sum_bonds m <= Z.of_nat (size m) * MAX_BOND_AMOUNT.
Proof.
  induction m as [|v b m Hv IH] using map_ind; intros Hall; [vm_compute; split; discriminate|].
  apply map_Forall_insert in Hall as [[_ Hb] Hm]; [|done].
  specialize (IH Hm). rewrite sum_bonds_fresh, map_size_insert_None by done. lia.
Qed.

Lemma sum_bonds_lookup m v b :
  map_Forall bond_ok m -> m !! v = Some b -> amount b <= sum_bonds m.
Proof.
  intros Hall Hv. rewrite (sum_bonds_delete m v b Hv).
  pose proof (sum_bonds_range (delete v m) (map_Forall_delete _ _ _ Hall)). lia.
Qed.

Lemma slash_amount_exact p a r :
  params_ok p -> 0 <= a <= MAX_BOND_AMOUNT ->
  calculate_slash_amount p a r = a * get_slash_pct p r / 10000 /\
  0 <= calculate_slash_amount p a r <= a.
Proof.
  intros [Hp _] Ha. specialize (Hp r). unfold calculate_slash_amount, MIN_SLASH_PCT, MAX_SLASH_PCT,
    MAX_BOND_AMOUNT in *.
  assert (saturating_mul U128_MAX a (get_slash_pct p r) = a * get_slash_pct p r) as ->.
  { unfold saturating_mul, U128_MAX. nia. }
  split; [done|]. split; [apply Z.div_pos; nia|apply Z.div_le_upper_bound; nia].
Qed.

(** ** The manager as a state machine *)

(** A bond is created for a validator that has none ([create_bond] itself
    only refuses an active one) and while the table has fewer entries than the
    address space. *)
Inductive step : BondManager -> BondManager -> Prop :=
  | step_create v a h m :
      bonds m !! v = None -> Z.of_nat (size (bonds m)) < 2 ^ 64 -> 0 <= a ->
      step m (snd (create_bond v a h m))
  | step_start v h m : step m (snd (start_unbonding v h m))
  | step_complete v h m : step m (snd (complete_unbonding v h m))
  | step_slash ts v r h m : step m (snd (slash ts v r h m))
  | step_params p m : step m (snd (update_slashing_params p m)).

Lemma bm_new_inv : bm_inv new.
Proof.
  split; [|apply map_Forall_empty|done]. split; [|done].
  intros []; vm_compute; split; discriminate.
Qed.

(** Replacing one bond of the table and moving the total with it. *)
Lemma inv_replace m v b b' :
  bm_inv m -> bonds m !! v = Some b -> bond_ok v b' -> forall h t,
  t = total_bonded m + (amount b' - amount b) ->
  bm_inv (mkBM (<[v := b']> (bonds m)) (slashing_params m) h t).
Proof.
  intros Hi Hb Hb' h t ->. split; simpl; [apply Hi| |].
  - apply map_Forall_insert_2; [done|apply Hi].
  - rewrite (sum_bonds_insert _ _ b) by done. rewrite (bi_total _ Hi). lia.
Qed.

Ltac run := unfold mbind, M_bind, gets, lift, bail_if, set_bonds, set_total, push_event, modify, fail in *; simpl.

Lemma create_inv v a h m :
  bonds m !! v = None -> Z.of_nat (size (bonds m)) < 2 ^ 64 -> 0 <= a ->
  bm_inv m -> bm_inv (snd (create_bond v a h m)).
Proof.
  intros Hv Hsz Ha Hi. unfold create_bond. run.
  destruct (Z.ltb_spec a (min_bond_amount (slashing_params m))); [done|]. simpl.
  destruct (Z.gtb_spec a MAX_BOND_AMOUNT); [done|]. simpl. rewrite Hv. simpl.
  pose proof (sum_bonds_range _ (bi_bonds _ Hi)) as Hr. unfold MAX_BOND_AMOUNT in *.
  split; simpl; [apply Hi| |].
  - apply map_Forall_insert_2; [|apply Hi]. split; simpl; [done|]. unfold MAX_BOND_AMOUNT. lia.
  - rewrite sum_bonds_fresh, (bi_total _ Hi) by done. simpl. unfold saturating_add, U128_MAX. lia.
Qed.

Lemma start_inv v h m : bm_inv m -> bm_inv (snd (start_unbonding v h m)).
Proof.
  intros Hi. unfold start_unbonding. run. destruct (bonds m !! v) as [b|] eqn:E; [|done]. simpl.
  destruct (is_active b); [|done]. simpl. apply (inv_replace m v b); [done..| |simpl; lia].
  apply (bi_bonds _ Hi _ _ E).
Qed.

Lemma complete_inv v h m : bm_inv m -> bm_inv (snd (complete_unbonding v h m)).
Proof.
  intros Hi. unfold complete_unbonding. run. destruct (bonds m !! v) as [b|] eqn:E; [|done]. simpl.
  case_bool_decide; [|done]. simpl. destruct (is_unbonding_complete b h); [|done]. simpl.
  pose proof (sum_bonds_lookup _ _ _ (bi_bonds _ Hi) E).
  split; simpl; [apply Hi|apply map_Forall_delete, Hi|].
  pose proof (sum_bonds_delete _ _ _ E). rewrite (bi_total _ Hi). unfold saturating_sub. lia.
Qed.

Lemma slash_inv ts v r h m : bm_inv m -> bm_inv (snd (slash ts v r h m)).
Proof.
  intros Hi. unfold slash. run. destruct (bonds m !! v) as [b|] eqn:E; [|done]. simpl.
  destruct (bi_bonds _ Hi _ _ E) as [Hv Ha].
  destruct (slash_amount_exact (slashing_params m) (amount b) r (bi_params _ Hi) Ha) as [_ Hs].
  pose proof (sum_bonds_lookup _ _ _ (bi_bonds _ Hi) E). rewrite <- (bi_total _ Hi) in *.
  apply (inv_replace m v b); [done..| |].
  - split; simpl; [done|]. unfold saturating_sub. lia.
  - simpl. unfold saturating_sub. lia.
Qed.

Lemma params_inv p m : bm_inv m -> bm_inv (snd (update_slashing_params p m)).
Proof.
  assert (forall z, pct_out_of_range z = false -> MIN_SLASH_PCT <= z <= MAX_SLASH_PCT) as Hz.
  { intros z. unfold pct_out_of_range. rewrite Z.gtb_ltb, orb_false_iff, !Z.ltb_ge. done. }
  intros Hi. unfold update_slashing_params. run.
  destruct (pct_out_of_range (slash_pct_equivocation p)) eqn:E1; [done|]. simpl.
  destruct (pct_out_of_range (slash_pct_double_vote p)) eqn:E2; [done|]. simpl.
  destruct (pct_out_of_range (slash_pct_invalid_attestation p)) eqn:E3; [done|]. simpl.
  destruct (_ <? _) eqn:E4; [done|]. apply Z.ltb_ge in E4.
  split; simpl; [|apply Hi..]. split; [|done]. intros []; by apply Hz.
Qed.

Lemma bm_step_inv m m' : step m m' -> bm_inv m -> bm_inv m'.
Proof.
  destruct 1; intros Hi.
  - by apply create_inv.
  - by apply start_inv.
  - by apply complete_inv.
  - by apply slash_inv.
  - by apply params_inv.
Qed.

(** the running total is the sum of the bonds.  In every state reachable
    by creating (for validators without a bond), unbonding, slashing and
    parameter updates, the recorded total is exactly the sum of the amounts
    bonded, every bond is filed under its own validator and within the maximum,
    and the parameters are in range. *)
Theorem total_bonded_is_sum (m : BondManager) :
  rtc step new m ->
  get_total_bonded m = sum_bonds (bonds m) /\ map_Forall bond_ok (bonds m) /\
  params_ok (get_slashing_params m).
Proof.
  intros Hr. assert (forall m0, rtc step m0 m -> bm_inv m0 -> bm_inv m) as Hi.
  { clear. induction 1 as [|m0 m1 m2 Hst _ IH]; [done|]. intros Hi. by apply IH, (bm_step_inv m0). }
  destruct (Hi new Hr bm_new_inv) as [Hp Hb Ht]. done.
Qed.

Definition w0 : bytes := zeros 32.
Definition bonded : BondManager := snd (create_bond w0 DEFAULT_BOND_AMOUNT 1 new).
Definition slashed : BondManager := snd (slash 0 w0 DoubleVote 9 bonded).

Lemma slashed_reachable : rtc step new slashed.
Proof.
  eapply rtc_l; [apply (step_create w0 DEFAULT_BOND_AMOUNT 1); vm_compute; done|].
  eapply rtc_l; [apply (step_slash 0 w0 DoubleVote 9)|]. reflexivity.
Qed.

Lemma total_bonded_is_sum_witness : get_total_bonded slashed = sum_bonds (bonds slashed).
Proof. apply (total_bonded_is_sum slashed). apply slashed_reachable. Defined.

(** [create_bond] over a bond that is being unbonded or was slashed
    replaces it without taking the old amount out of the total: the call
    succeeds and the total then exceeds the sum of the bonds by exactly the
    amount that was replaced. *)
Theorem rebond_overstates_total (m : BondManager) (v : bytes) (old : BondInfo) (a h : Z) :
  bm_inv m -> bonds m !! v = Some old -> is_active old = false ->
  min_bond_amount (slashing_params m) <= a <= MAX_BOND_AMOUNT ->
  total_bonded m + a <= U128_MAX ->
  let '(r, m') := create_bond v a h m in
  r = Ok tt /\ has_active_bond m' v = true /\
  get_total_bonded m' = sum_bonds (bonds m') + amount old.
Proof.
  intros Hi Hv Hold Ha Ht. unfold create_bond. run.
  rewrite (proj2 (Z.ltb_ge a (min_bond_amount (slashing_params m)))) by lia. simpl.
  destruct (Z.gtb_spec a MAX_BOND_AMOUNT); [lia|]. simpl. rewrite Hv. simpl. rewrite Hold. simpl.
  split; [done|]. unfold has_active_bond, get_total_bonded. simpl. rewrite lookup_insert_eq.
  split; [done|]. rewrite (sum_bonds_insert _ _ old) by done. rewrite (bi_total _ Hi) in *. simpl.
  unfold saturating_add. lia.
Qed.

Lemma rebond_overstates_total_witness :
  get_total_bonded (snd (create_bond w0 DEFAULT_BOND_AMOUNT 20 slashed)) =
  sum_bonds (bonds (snd (create_bond w0 DEFAULT_BOND_AMOUNT 20 slashed))) + 750000000000000.
Proof.
  assert (bm_inv slashed) as Hi.
  { apply slash_inv, create_inv; [done|vm_compute; done|vm_compute; discriminate|apply bm_new_inv]. }
  pose proof (rebond_overstates_total slashed w0 (mkBond w0 750000000000000 1 Slashed None)
    DEFAULT_BOND_AMOUNT 20 Hi eq_refl eq_refl ltac:(vm_compute; split; discriminate)
    ltac:(vm_compute; discriminate)) as H.
  destruct (create_bond w0 DEFAULT_BOND_AMOUNT 20 slashed) as [r m']. apply H.
Defined.

(** Withdrawal.  [complete_unbonding] pays out exactly when the bond is
    unbonding and the full period has passed since it started; it pays the
    bonded amount, removes the bond and lowers the total by that amount.
    A slashed bond can neither start nor complete unbonding. *)
Theorem complete_unbonding_correct (m : BondManager) (v : bytes) (h : Z) :
  bm_inv m ->
  (forall b s, bonds m !! v = Some b -> unbonding_start b = Some s ->
     in_range (U64_MAX - UNBONDING_PERIOD_BLOCKS) s) ->
  let '(r, m') := complete_unbonding v h m in
  match r with
  | Ok paid => exists b s, bonds m !! v = Some b /\ status b = Unbonding /\
      unbonding_start b = Some s /\ s + UNBONDING_PERIOD_BLOCKS <= h /\ paid = amount b /\
      bonds m' = delete v (bonds m) /\ total_bonded m' = total_bonded m - paid
  | Err _ => m' = m /\
      forall b s, bonds m !! v = Some b -> status b = Unbonding -> unbonding_start b = Some s ->
        h < s + UNBONDING_PERIOD_BLOCKS
  end /\
  (forall b, bonds m !! v = Some b -> status b = Slashed ->
     start_unbonding v h m = (Err NotActive, m) /\
     complete_unbonding v h m = (Err NotUnbonding, m)).
Proof.
  intros Hi Hw. unfold complete_unbonding, start_unbonding. run.
  destruct (bonds m !! v) as [b|] eqn:E; simpl; [|split; [split; [done|naive_solver]|done]].
  pose proof (sum_bonds_lookup _ _ _ (bi_bonds _ Hi) E) as Hle.
  unfold is_unbonding_complete, is_active. destruct (status b) eqn:Es; simpl.
  - split; [split; [done|naive_solver congruence]|naive_solver congruence].
  - destruct (unbonding_start b) as [s|] eqn:Eu; simpl;
      [|split; [split; [done|naive_solver congruence]|naive_solver congruence]].
    specialize (Hw b s eq_refl Eu). rewrite wrap_id by (unfold UNBONDING_PERIOD_BLOCKS in *; mlia).
    destruct (Z.geb_spec h (s + UNBONDING_PERIOD_BLOCKS)) as [Hge|Hlt]; simpl;
      (split; [|naive_solver congruence]).
    + exists b, s. split_and!; try done. rewrite (bi_total _ Hi) in *. unfold saturating_sub. lia.
    + split; [done|]. intros b' s' [= <-] _ Hs'. assert (s' = s) as -> by congruence. lia.
  - split; [split; [done|naive_solver congruence]|]. intros b' [= <-] _. done.
Qed.

Definition unbonding : BondManager := snd (start_unbonding w0 100 bonded).

Lemma complete_unbonding_correct_witness :
  fst (complete_unbonding w0 21700 unbonding) = Ok DEFAULT_BOND_AMOUNT /\
  fst (complete_unbonding w0 21699 unbonding) = Err PeriodNotComplete.
Proof.
  assert (bm_inv unbonding) as Hi.
  { apply start_inv, create_inv; [done|vm_compute; done|vm_compute; discriminate|apply bm_new_inv]. }
  split; [|reflexivity].
  pose proof (complete_unbonding_correct unbonding w0 21700 Hi) as H.
  destruct (complete_unbonding w0 21700 unbonding) as [[p|e] m'] eqn:E.
  - destruct H as [(b & s & Hb & _ & _ & _ & -> & _) _].
    + intros b s [= <-] [= <-]. vm_compute. split; discriminate.
    + injection Hb as <-. reflexivity.
  - vm_compute in E. discriminate E.
Defined.

End Bonds.
