(* ===== verification/Lattice.v ===== *)
(** * The lattice: cells, attestations, certificates

    [savitri-consensus/src/types/lattice.rs] (data, canonical encoding) and
    [lattice/aggregator.rs] (the receive-side state machine that turns cells
    and attestations into certificates).  The crates [blake3] and
    [ed25519_dalek] are class parameters.  A [BTreeMap] is a [gmap] whose
    iteration is the sorted list of its entries. *)

From stdpp Require Import sorting.
From Stdlib Require Import Strings.Byte.
From S2P Require Import Prelude OrdMap Codec Primitives.

Module Lattice.
Import Quorum.

Abbreviation CellId := bytes.

Record LatticeCell := {
  round : Z;
  group_id : string;
  author : string;
  author_pubkey : bytes;
  parents : list CellId;
  batch_root : bytes;
  author_signature : bytes;
}.

Record CellAttestation := {
  signer : string;
  signer_pubkey : bytes;
  signature : bytes;
}.

Record CellCertificate := { cell : LatticeCell; attestations : list CellAttestation }.

Record Cycle := {
  index : Z;
  cy_group_id : string;
  pivot : string;
  pivot_cell : CellId;
  committed_cells : list CellId;
}.

(** ** Canonical encoding *)

Definition bar : byte := x7c.

Definition signable_bytes (c : LatticeCell) : bytes :=
  bytes_of_string "savitri-lattice-cell-v1|" ++
  to_le_bytes 8 (round c) ++ [bar] ++
  bytes_of_string (group_id c) ++ [bar] ++
  bytes_of_string (author c) ++ [bar] ++
  author_pubkey c ++ [bar] ++
  concat (parents c) ++ [bar] ++
  batch_root c.

Definition with_sorted_parents (round : Z) (group_id author : string) (author_pubkey : bytes)
    (parents : list CellId) (batch_root author_signature : bytes) : LatticeCell :=
  Build_LatticeCell round group_id author author_pubkey (merge_sort bytes_le parents)
    batch_root author_signature.

Definition cell_id `{Blake3} (c : LatticeCell) : CellId := blake3 (signable_bytes c).
Definition verify_author_signature `{Ed25519} (c : LatticeCell) : bool :=
  ed25519_verify (author_pubkey c) (signable_bytes c) (author_signature c).

Definition attestation_count (c : CellCertificate) : nat := length (attestations c).

Definition anchor_round (c : Cycle) : Z := saturating_mul U64_MAX (index c) 2.
Definition follow_round (c : Cycle) : Z :=
  saturating_add U64_MAX (saturating_mul U64_MAX (index c) 2) 1.
Definition did_commit (c : Cycle) : bool := negb (bool_decide (committed_cells c = [])).

(** ** The aggregator *)

Record AggregatorConfig := {
  group_size : Z;
  retention_rounds : Z;
  max_attestations_per_cell : Z;
}.
Definition AggregatorConfig_default : AggregatorConfig := {|
  group_size := 5; retention_rounds := 64; max_attestations_per_cell := 256 |}.

Inductive AggregatorError :=
  | BadCellSignature
  | BadAttestationSignature
  | UnknownCell (id : CellId)
  | AttestationCapReached.

Inductive AttestationOutcome :=
  | Pending (signer_count quorum : Z)
  | Certified (c : CellCertificate)
  | AlreadyCertified
  | Rejected (e : AggregatorError).

Record PendingCell := { p_cell : LatticeCell; p_attestations : gmap string CellAttestation }.

Record LatticeAggregator := mkAgg {
  config : AggregatorConfig;
  pending : gmap CellId PendingCell;
  certified : gmap (Z * string) CellCertificate;
  high_water_round : Z;
}.

Definition new (c : AggregatorConfig) : LatticeAggregator := mkAgg c ∅ ∅ 0.
Definition set_group_size (n : Z) (a : LatticeAggregator) : LatticeAggregator :=
  mkAgg (Build_AggregatorConfig n (retention_rounds (config a))
           (max_attestations_per_cell (config a)))
    (pending a) (certified a) (high_water_round a).
Definition quorum (a : LatticeAggregator) : Z := lattice_quorum (group_size (config a)).

(** The order of the keys [(round, author)], and the sorted entries. *)
Definition key_le (k k' : Z * string) : Prop :=
  fst k < fst k' \/ (fst k = fst k' /\ String.le (snd k) (snd k')).
#[global] Instance key_le_dec k k' : Decision (key_le k k').
Proof. unfold key_le. apply _. Defined.

Definition entry_le {V} (x y : (Z * string) * V) : Prop := key_le (fst x) (fst y).
#[global] Instance entry_le_dec {V} x y : Decision (@entry_le V x y).
Proof. unfold entry_le. apply _. Defined.

Definition iter {V} (m : gmap (Z * string) V) : list ((Z * string) * V) :=
  merge_sort entry_le (map_to_list m).

Definition signer_le (a b : CellAttestation) : Prop := String.le (signer a) (signer b).
#[global] Instance signer_le_dec a b : Decision (signer_le a b).
Proof. unfold signer_le. apply _. Defined.

Section Ops.
Context `{Blake3} `{Ed25519}.

Definition verify_attestation_against_cell (att : CellAttestation) (c : LatticeCell) : bool :=
  ed25519_verify (signer_pubkey att) (signable_bytes c) (signature att).

Definition observe_cell (c : LatticeCell) (a : LatticeAggregator)
    : result AggregatorError CellId * LatticeAggregator :=
  if negb (verify_author_signature c) then (Err BadCellSignature, a)
  else
    let id := cell_id c in
    let high := if high_water_round a <? round c then round c else high_water_round a in
    match certified a !! (round c, author c) with
    | Some _ => (Ok id, mkAgg (config a) (pending a) (certified a) high)
    | None =>
        let pend := match pending a !! id with
          | Some _ => pending a
          | None => <[id := Build_PendingCell c ∅]> (pending a)
          end in
        (Ok id, mkAgg (config a) pend (certified a) high)
    end.

(** The certificate built when a pending cell is promoted. *)
Definition certificate (c : LatticeCell) (atts : gmap string CellAttestation) : CellCertificate :=
  Build_CellCertificate c (merge_sort signer_le (map snd (map_to_list atts))).

Definition observe_attestation (id : CellId) (att : CellAttestation) (a : LatticeAggregator)
    : AttestationOutcome * LatticeAggregator :=
  match pending a !! id with
  | None =>
      if existsb (fun kc => bool_decide (cell_id (cell (snd kc)) = id)) (iter (certified a))
      then (AlreadyCertified, a)
      else (Rejected (UnknownCell id), a)
  | Some p =>
      if negb (verify_attestation_against_cell att (p_cell p))
      then (Rejected BadAttestationSignature, a)
      else if (max_attestations_per_cell (config a) <=? Z.of_nat (size (p_attestations p)))
              && bool_decide (p_attestations p !! signer att = None)
      then (Rejected AttestationCapReached, a)
      else
        let atts := <[signer att := att]> (p_attestations p) in
        let signer_count := Z.of_nat (size atts) in
        let q := lattice_quorum (group_size (config a)) in
        if q <=? signer_count then
          let cert := certificate (p_cell p) atts in
          (Certified cert,
           mkAgg (config a) (delete id (pending a))
             (<[(round (p_cell p), author (p_cell p)) := cert]> (certified a))
             (high_water_round a))
        else
          (Pending signer_count q,
           mkAgg (config a) (<[id := Build_PendingCell (p_cell p) atts]> (pending a))
             (certified a) (high_water_round a))
  end.

Definition gc_cutoff (a : LatticeAggregator) : Z :=
  saturating_sub (high_water_round a) (retention_rounds (config a)).

Definition gc_old_cells (a : LatticeAggregator) : nat * LatticeAggregator :=
  let cutoff := gc_cutoff a in
  let pend := filter (fun kp => cutoff <= round (p_cell (snd kp))) (pending a) in
  let cert := filter (fun kc => cutoff <= fst (fst kc)) (certified a) in
  ((size (pending a) - size pend + (size (certified a) - size cert))%nat,
   mkAgg (config a) pend cert (high_water_round a)).

(** [range((round, ""), (round + 1, ""))]: the keys of one round in author
    order.  [round + 1] wraps for the last round, where [range] panics. *)
Definition certified_at_round (a : LatticeAggregator) (r : Z) : option (list CellCertificate) :=
  if r =? U64_MAX then None
  else Some (map snd (List.filter (fun kc => fst (fst kc) =? r) (iter (certified a)))).

Definition certified_get (a : LatticeAggregator) (r : Z) (au : string) : option CellCertificate :=
  certified a !! (r, au).
Definition certified_count (a : LatticeAggregator) : nat := size (certified a).
Definition pending_count (a : LatticeAggregator) : nat := size (pending a).

End Ops.

(** ** Certificates are sound *)

Section Sound.
Context `{Blake3} `{Ed25519}.

Record cert_ok (cfg : AggregatorConfig) (high : Z) (k : Z * string) (ct : CellCertificate) : Prop := {
  ct_key : k = (round (cell ct), author (cell ct));
  ct_author : verify_author_signature (cell ct) = true;
  ct_quorum : lattice_quorum (group_size cfg) <= Z.of_nat (attestation_count ct);
  ct_distinct : NoDup (map signer (attestations ct));
  ct_sorted : Sorted signer_le (attestations ct);
  ct_signed : Forall (fun att => verify_attestation_against_cell att (cell ct) = true)
    (attestations ct);
  ct_high : round (cell ct) <= high;
}.

Record pending_ok (cfg : AggregatorConfig) (high : Z) (id : CellId) (p : PendingCell) : Prop := {
  pd_id : id = cell_id (p_cell p);
  pd_author : verify_author_signature (p_cell p) = true;
  pd_atts : map_Forall (fun s att => signer att = s /\
    verify_attestation_against_cell att (p_cell p) = true) (p_attestations p);
  pd_below : 0 < group_size cfg ->
    Z.of_nat (size (p_attestations p)) < lattice_quorum (group_size cfg);
  pd_high : round (p_cell p) <= high;
}.

Record agg_inv (cfg : AggregatorConfig) (a : LatticeAggregator) : Prop := {
  ai_config : config a = cfg;
  ai_pending : map_Forall (pending_ok cfg (high_water_round a)) (pending a);
  ai_certified : map_Forall (cert_ok cfg (high_water_round a)) (certified a);
}.

Inductive step : LatticeAggregator -> LatticeAggregator -> Prop :=
  | step_cell c a : step a (snd (observe_cell c a))
  | step_att id att a : step a (snd (observe_attestation id att a))
  | step_gc a : step a (snd (gc_old_cells a)).

#[global] Instance signer_le_total : Total signer_le.
Proof. intros a b. unfold signer_le. apply (total String.le). Qed.

Lemma cert_ok_mono cfg h h' k ct : h <= h' -> cert_ok cfg h k ct -> cert_ok cfg h' k ct.
Proof. intros Hh []. split; try done. lia. Qed.

Lemma pending_ok_mono cfg h h' id p : h <= h' -> pending_ok cfg h id p -> pending_ok cfg h' id p.
Proof. intros Hh []. split; try done. lia. Qed.

Lemma lattice_quorum_pos n : 0 < n -> 0 < lattice_quorum n.
Proof.
  intros Hn. rewrite lattice_quorum_eq by done. pose proof (Z.div_pos (n - 1) 3). lia.
Qed.

Lemma signers_of (m : gmap string CellAttestation) :
  map_Forall (fun s att => signer att = s) m ->
  map signer (map snd (map_to_list m)) = map fst (map_to_list m).
Proof.
  intros Hm. rewrite map_map. apply map_ext_in. intros [s att] Hin. simpl.
  apply list_elem_of_In, elem_of_map_to_list in Hin. by apply Hm.
Qed.

Lemma certificate_ok cfg high c atts :
  verify_author_signature c = true -> round c <= high ->
  map_Forall (fun s att => signer att = s /\ verify_attestation_against_cell att c = true) atts ->
  lattice_quorum (group_size cfg) <= Z.of_nat (size atts) ->
  cert_ok cfg high (round c, author c) (certificate c atts).
Proof.
  intros Hc Hh Hatts Hq.
  pose proof (merge_sort_Permutation signer_le (map snd (map_to_list atts))) as Hp.
  split; simpl; try done.
  - unfold attestation_count, certificate. simpl.
    rewrite Hp, length_map, length_map_to_list. lia.
  - rewrite Hp, signers_of.
    + apply NoDup_fst_map_to_list.
    + intros s att Hs. by apply (Hatts s att).
  - apply Sorted_merge_sort, _.
  - rewrite Hp. apply Forall_forall. intros att Hin.
    apply list_elem_of_In, in_map_iff in Hin as ([s att'] & <- & Hin).
    apply list_elem_of_In, elem_of_map_to_list in Hin. apply (Hatts s att' Hin).
Qed.

Lemma observe_cell_inv cfg c a : agg_inv cfg a -> agg_inv cfg (snd (observe_cell c a)).
Proof.
  intros Hi. unfold observe_cell. destruct (verify_author_signature c) eqn:Ev; [|done]. simpl.
  set (high := if _ <? _ then _ else _).
  assert (high_water_round a <= high /\ round c <= high) as [Hh Hr].
  { subst high. destruct (Z.ltb_spec (high_water_round a) (round c)); lia. }
  assert (map_Forall (cert_ok cfg high) (certified a)) as Hc.
  { intros k x Hx. apply (cert_ok_mono _ _ _ _ _ Hh). by apply Hi. }
  assert (map_Forall (pending_ok cfg high) (pending a)) as Hp.
  { intros k x Hx. apply (pending_ok_mono _ _ _ _ _ Hh). by apply Hi. }
  destruct (certified a !! _); simpl; [split; simpl; try done; apply Hi|].
  split; simpl; try done; [apply Hi|]. destruct (pending a !! cell_id c); [done|].
  apply map_Forall_insert_2; [|done].
  split; simpl; try done. intros Hg. rewrite map_size_empty. by apply lattice_quorum_pos.
Qed.

Lemma observe_attestation_inv cfg id att a :
  agg_inv cfg a -> agg_inv cfg (snd (observe_attestation id att a)).
Proof.
  intros Hi. unfold observe_attestation. destruct (pending a !! id) as [p|] eqn:Ep.
  2: { by destruct (existsb _ _). }
  destruct (ai_pending _ _ Hi _ _ Ep) as [Hid Hau Hat Hbe Hhi].
  destruct (verify_attestation_against_cell att (p_cell p)) eqn:Ev; [|done]. simpl.
  destruct ((_ <=? _) && _) eqn:Ecap; [done|].
  assert (map_Forall (fun s att => signer att = s /\
    verify_attestation_against_cell att (p_cell p) = true)
    (<[signer att := att]> (p_attestations p))) as Hall
    by (apply map_Forall_insert_2; [by split|done]).
  rewrite (ai_config _ _ Hi).
  destruct (Z.leb_spec (lattice_quorum (group_size cfg))
    (Z.of_nat (size (<[signer att := att]> (p_attestations p))))); simpl; split; simpl; try done.
  - apply map_Forall_delete, Hi.
  - apply map_Forall_insert_2; [|apply Hi]. by apply certificate_ok.
  - apply map_Forall_insert_2; [|apply Hi]. by split.
  - apply Hi.
Qed.

Lemma gc_inv cfg a : agg_inv cfg a -> agg_inv cfg (snd (gc_old_cells a)).
Proof.
  intros Hi. split; simpl; [apply Hi|..];
    intros k x Hx; apply map_lookup_filter_Some in Hx as [Hx _]; by apply Hi.
Qed.

Lemma agg_step_inv cfg a a' : step a a' -> agg_inv cfg a -> agg_inv cfg a'.
Proof.
  destruct 1; [apply observe_cell_inv|apply observe_attestation_inv|apply gc_inv].
Qed.

Lemma reach_inv cfg a0 a : rtc step a0 a -> agg_inv cfg a0 -> agg_inv cfg a.
Proof. induction 1 as [|x y z Hst _ IH]; [done|]. intros Hi. by apply IH, (agg_step_inv cfg x). Qed.

Lemma agg_new_inv cfg : agg_inv cfg (new cfg).
Proof. split; [done|apply map_Forall_empty..]. Qed.

End Sound.

(** C9: certificates are sound.  For a fixed group size, whatever cells, attestations and collections
    an aggregator processes, every entry of its certified table is filed under
    the round and author of its cell, carries a valid author signature, and
    holds at least a quorum of attestations by pairwise different signers,
    each of which verifies against the cell, in the canonical order; and no
    pending cell has reached the quorum. *)
Theorem certificates_sound `{Blake3} `{Ed25519} (cfg : AggregatorConfig) (a : LatticeAggregator) :
  0 < group_size cfg -> rtc step (new cfg) a ->
  (forall r au ct, certified_get a r au = Some ct ->
     cert_ok cfg (high_water_round a) (r, au) ct) /\
  (forall id p, pending a !! id = Some p ->
     Z.of_nat (size (p_attestations p)) < quorum a /\ id = cell_id (p_cell p)).
Proof.
  intros Hg Hr. pose proof (reach_inv cfg _ _ Hr (agg_new_inv cfg)) as Hi. split.
  - intros r au ct Hct. by apply (ai_certified _ _ Hi).
  - intros id p Hp. destruct (ai_pending _ _ Hi _ _ Hp) as [Hid _ _ Hb _].
    unfold quorum. rewrite (ai_config _ _ Hi). auto.
Qed.

(** ** Cells and attestations for witnesses *)

#[local] Existing Instance toy_blake3.
#[local] Existing Instance toy_ed25519.

Definition pk (n : Z) : bytes := to_le_bytes 32 n.
(** A cell of [au] with key [pk n], signed. *)
Definition signed_cell (r : Z) (au : string) (n : Z) (ps : list CellId) : LatticeCell :=
  let c := with_sorted_parents r "g" au (pk n) ps (zeros 32) [] in
  Build_LatticeCell r "g" au (pk n) (parents c) (zeros 32) (pk n ++ signable_bytes c).
Definition attest (s : string) (n : Z) (c : LatticeCell) : CellAttestation :=
  Build_CellAttestation s (pk n) (pk n ++ signable_bytes c).

Definition cfg4 : AggregatorConfig := Build_AggregatorConfig 4 64 256.
Definition cell_a : LatticeCell := signed_cell 2 "a" 1 [].
Definition seen_a : LatticeAggregator := snd (observe_cell cell_a (new cfg4)).
Definition certified_a : LatticeAggregator :=
  snd (observe_attestation (cell_id cell_a) (attest "d" 4 cell_a)
    (snd (observe_attestation (cell_id cell_a) (attest "c" 3 cell_a)
      (snd (observe_attestation (cell_id cell_a) (attest "b" 2 cell_a) seen_a))))).

Lemma certificates_sound_witness :
  exists ct, certified_get certified_a 2 "a" = Some ct /\
    cert_ok cfg4 (high_water_round certified_a) (2, "a"%string) ct /\
    map signer (attestations ct) = ["b"; "c"; "d"]%string.
Proof.
  eexists. split; [vm_compute; reflexivity|]. split; [|vm_compute; reflexivity].
  apply (certificates_sound cfg4 certified_a); [done| |vm_compute; reflexivity].
  eapply rtc_l; [apply (step_cell cell_a)|].
  eapply rtc_l; [apply (step_att (cell_id cell_a) (attest "b" 2 cell_a))|].
  eapply rtc_l; [apply (step_att (cell_id cell_a) (attest "c" 3 cell_a))|].
  eapply rtc_l; [apply (step_att (cell_id cell_a) (attest "d" 4 cell_a))|]. reflexivity.
Defined.

(** ** Signer names are not bound to keys *)

Section OneKey.
Context `{Blake3} `{Ed25519}.

(** The same key and signature under another signer name. *)
Definition rename (att : CellAttestation) (n : string) : CellAttestation :=
  Build_CellAttestation n (signer_pubkey att) (signature att).

Fixpoint replay (id : CellId) (att : CellAttestation) (names : list string)
    (a : LatticeAggregator) : LatticeAggregator :=
  match names with
  | [] => a
  | n :: r => replay id att r (snd (observe_attestation id (rename att n) a))
  end.

Definition of_key (att x : CellAttestation) : Prop :=
  signer_pubkey x = signer_pubkey att /\ signature x = signature att.

Lemma replay_certifies id att c names : forall a m,
  pending a !! id = Some (Build_PendingCell c m) ->
  verify_attestation_against_cell att c = true ->
  map_Forall (fun _ x => of_key att x) m ->
  NoDup names -> Forall (fun n => m !! n = None) names -> names <> [] ->
  Z.of_nat (size m) + Z.of_nat (length names) = quorum a ->
  quorum a <= max_attestations_per_cell (config a) ->
  exists ct, certified_get (replay id att names a) (round c) (author c) = Some ct /\
    cell ct = c /\ Forall (of_key att) (attestations ct).
Proof.
  induction names as [|n names IH]; intros a m Hp Hv Hm Hnd Hfr Hne Hq Hcap; [done|].
  apply NoDup_cons in Hnd as [Hn Hnd]. apply Forall_cons in Hfr as [Hmn Hfr]. clear Hne.
  assert (map_Forall (fun _ x => of_key att x) (<[n := rename att n]> m)) as Hm'
    by (apply map_Forall_insert_2; [done|done]).
  cbn [replay]. unfold observe_attestation. rewrite Hp. cbn [p_cell p_attestations signer rename].
  assert (verify_attestation_against_cell (rename att n) c = true) as -> by exact Hv.
  cbn [negb length] in *. unfold quorum in *.
  destruct (Z.leb_spec (max_attestations_per_cell (config a)) (Z.of_nat (size m))); [lia|].
  cbn [andb]. rewrite map_size_insert_None by done.
  destruct names as [|n' names'].
  - cbn [length] in Hq. rewrite (proj2 (Z.leb_le _ _)) by lia. cbn [snd replay].
    unfold certified_get. cbn [certified]. rewrite lookup_insert_eq. eexists. split; [done|].
    split; [done|]. cbn. rewrite merge_sort_Permutation. apply Forall_forall. intros x Hx.
    apply list_elem_of_In, in_map_iff in Hx as ([s y] & <- & Hin).
    apply list_elem_of_In, elem_of_map_to_list in Hin. by apply (Hm' s y).
  - cbn [length] in Hq. rewrite (proj2 (Z.leb_gt _ _)) by lia. cbn [snd].
    apply (IH _ (<[n := rename att n]> m)); cbn [pending config]; try done.
    + by rewrite lookup_insert_eq.
    + rewrite Forall_forall in Hfr |- *. intros y Hy. rewrite lookup_insert_ne; [by apply Hfr|].
      by intros ->.
    + unfold quorum. cbn [config]. rewrite map_size_insert_None by done. cbn [length]. lia.
Qed.

End OneKey.

(** the signer name of an attestation is neither signed nor tied to the
    public key.  One valid signature, replayed under as many different names
    as the quorum asks for, certifies a pending cell on its own: the
    certificate then holds nothing but that one key and signature. *)
Theorem one_key_certifies `{Blake3} `{Ed25519} (a : LatticeAggregator) (id : CellId)
    (c : LatticeCell) (att : CellAttestation) (names : list string) :
  pending a !! id = Some (Build_PendingCell c ∅) ->
  verify_attestation_against_cell att c = true ->
  NoDup names -> Z.of_nat (length names) = quorum a -> 0 < quorum a ->
  quorum a <= max_attestations_per_cell (config a) ->
  exists ct, certified_get (replay id att names a) (round c) (author c) = Some ct /\
    cell ct = c /\ Forall (of_key att) (attestations ct).
Proof.
  intros Hp Hv Hnd Hq Hq0 Hcap. apply (replay_certifies id att c names a ∅); try done.
  - by apply Forall_forall.
  - intros ->. cbn in Hq. lia.
Qed.

Lemma one_key_certifies_witness :
  exists ct, certified_get (replay (cell_id cell_a) (attest "a" 1 cell_a) ["x"; "y"; "z"]%string seen_a)
      (round cell_a) (author cell_a) = Some ct /\ Forall (of_key (attest "a" 1 cell_a)) (attestations ct).
Proof.
  destruct (one_key_certifies seen_a (cell_id cell_a) cell_a (attest "a" 1 cell_a)
    ["x"; "y"; "z"]%string) as (ct & Hc & _ & Hf);
    [vm_compute; reflexivity|vm_compute; reflexivity| |reflexivity|reflexivity|vm_compute; discriminate|].
  - apply (bool_decide_eq_true_1 _). reflexivity.
  - exists ct. exact (conj Hc Hf).
Defined.

(** ** The encoding determines the cell *)

Lemma split_bar (g g' x y : bytes) :
  bar ∉ g -> bar ∉ g' -> g ++ bar :: x = g' ++ bar :: y -> g = g' /\ x = y.
Proof.
  revert g'. induction g as [|b g IH]; intros [|b' g'] Hg Hg' E; simpl in E.
  - by injection E.
  - injection E as E _. exfalso. apply Hg'. rewrite E. by left.
  - injection E as E _. exfalso. apply Hg. rewrite E. by left.
  - injection E as -> E. apply not_elem_of_cons in Hg as [_ Hg], Hg' as [_ Hg'].
    destruct (IH g' Hg Hg' E) as [-> ->]. done.
Qed.

Lemma concat_inj (n : nat) (l l' : list bytes) :
  n <> O -> Forall (fun x => length x = n) l -> Forall (fun x => length x = n) l' ->
  concat l = concat l' -> l = l'.
Proof.
  intros Hn Hl. revert l'. induction Hl as [|x l Hx _ IH]; intros [|y l'] Hl' E; simpl in E.
  - done.
  - inversion Hl'; subst. destruct y; [done|discriminate].
  - destruct x; [done|discriminate].
  - inversion Hl'; subst. apply app_inj_1 in E as [-> E]; [|congruence]. by rewrite (IH l').
Qed.

(** The fixed-width fields have their width and the names hold no ['|']. *)
Definition encodable (c : LatticeCell) : Prop :=
  in_range U64_MAX (round c) /\ (bar ∉ bytes_of_string (group_id c)) /\
  (bar ∉ bytes_of_string (author c)) /\ length (author_pubkey c) = 32%nat /\
  length (batch_root c) = 32%nat /\ Forall (fun p => length p = 32%nat) (parents c).

(** The signed bytes determine the cell.  Two cells whose names contain
    no separator and whose signable bytes are equal agree in every signed
    field, so a signature or an attestation never carries over to another
    cell.  (The separator is not escaped: names that contain it collide.) *)
Theorem signable_bytes_inj (c c' : LatticeCell) :
  encodable c -> encodable c' ->
  signable_bytes c = signable_bytes c' <->
  (round c, group_id c, author c, author_pubkey c, parents c, batch_root c) =
  (round c', group_id c', author c', author_pubkey c', parents c', batch_root c').
Proof.
  intros (Hr & Hg & Ha & Hk & Hb & Hp) (Hr' & Hg' & Ha' & Hk' & Hb' & Hp').
  unfold signable_bytes. split; [intros E|by intros [= -> -> -> -> -> ->]].
  apply app_inv_head in E.
  apply app_inj_1 in E as [Er E]; [|by rewrite !length_to_le_bytes].
  apply (f_equal from_le_bytes) in Er. rewrite !from_to_le_bytes, !Z.mod_small in Er by mlia.
  cbn [app] in E. injection E as E. apply split_bar in E as [Eg E]; [|done..].
  apply split_bar in E as [Ea E]; [|done..].
  apply app_inj_1 in E as [Ek E]; [|congruence]. injection E as E.
  apply app_inj_2 in E as [Ep Eb]; [|cbn; congruence]. injection Eb as Eb.
  apply (concat_inj 32) in Ep; [|done..].
  apply bytes_of_string_inj in Eg, Ea. congruence.
Qed.

Lemma cell_encodable au n :
  bool_decide (bar ∉ bytes_of_string au) = true -> encodable (signed_cell 2 au n []).
Proof.
  intros Hau%bool_decide_eq_true. split; [vm_compute; split; discriminate|].
  split; [apply (bool_decide_eq_true_1 _); reflexivity|]. split; [done|].
  split; [apply length_to_le_bytes|]. split; [reflexivity|constructor].
Qed.

Lemma signable_bytes_inj_witness :
  signable_bytes cell_a = signable_bytes (signed_cell 2 "b" 1 []) <->
  (2, "g"%string, "a"%string, pk 1, [] : list CellId, zeros 32) =
  (2, "g"%string, "b"%string, pk 1, [], zeros 32).
Proof.
  exact (signable_bytes_inj cell_a (signed_cell 2 "b" 1 [])
    (cell_encodable "a" 1 eq_refl) (cell_encodable "b" 1 eq_refl)).
Defined.

(** ** Garbage collection *)

Lemma observe_cell_frame `{Blake3} `{Ed25519} (c : LatticeCell) (a : LatticeAggregator) :
  verify_author_signature c = true ->
  let a' := snd (observe_cell c a) in
  config a' = config a /\ certified a' = certified a /\ round c <= high_water_round a'.
Proof.
  intros Hv. unfold observe_cell. rewrite Hv. cbn [negb].
  destruct (certified a !! _); cbn; split_and!; try done;
    destruct (Z.ltb_spec (high_water_round a) (round c)); lia.
Qed.

(** The collector keeps exactly the cells within the retention window of
    the highest round seen.  That round is taken from any cell with a valid
    self-signature: a single cell far enough in the future makes the next
    collection drop every certificate. *)
Theorem gc_window_and_future_cell `{Blake3} `{Ed25519} (a : LatticeAggregator) (c : LatticeCell) :
  0 <= retention_rounds (config a) ->
  (forall k ct, certified (snd (gc_old_cells a)) !! k = Some ct <->
     certified a !! k = Some ct /\ high_water_round a - retention_rounds (config a) <= fst k /\
     0 <= fst k) /\
  (verify_author_signature c = true ->
   (forall k ct, certified a !! k = Some ct -> fst k + retention_rounds (config a) < round c) ->
   certified (snd (gc_old_cells (snd (observe_cell c a)))) = ∅).
Proof.
  intros Hret. split.
  - intros k ct. unfold gc_old_cells, gc_cutoff, saturating_sub. cbn [snd certified].
    rewrite map_lookup_filter_Some. cbn [fst]. intuition lia.
  - intros Hv Hall. apply map_empty. intros k.
    destruct (certified _ !! k) as [ct|] eqn:E; [exfalso|done].
    destruct (observe_cell_frame c a Hv) as (Hcfg & Hcert & Hh).
    unfold gc_old_cells, gc_cutoff, saturating_sub in E. cbn [snd certified] in E.
    apply map_lookup_filter_Some in E as [E Hk]. cbn [fst] in Hk.
    rewrite Hcfg in Hk. rewrite Hcert in E. specialize (Hall _ _ E). lia.
Qed.

Lemma gc_window_and_future_cell_witness :
  certified (snd (gc_old_cells (snd (observe_cell (signed_cell 1000 "z" 9 []) certified_a)))) = ∅.
Proof.
  apply (gc_window_and_future_cell certified_a (signed_cell 1000 "z" 9 [])).
  - vm_compute. discriminate.
  - vm_compute. reflexivity.
  - intros k ct Hk. apply (map_Forall_lookup_1 (fun k _ => fst k + 64 < 1000) _ _ _) in Hk; [done|].
    apply (bool_decide_eq_true_1 _). vm_compute. reflexivity.
Defined.

End Lattice.
