(* ===== verification/LatticeCommit.v ===== *)
(** * Lineage commit

    [savitri-consensus/src/lattice/commit.rs]: the anchor and follower rule
    and the walk over the causal history.  The walk is a breadth-first search
    with fuel; [walk_total] shows the fuel given by [walk_fuel] is always
    enough, so the search terminates. *)

From stdpp Require Import sorting.
From S2P Require Import Prelude Codec Primitives Lattice.
Import Lattice.

Module Commit.

Inductive CommitDecision :=
  | Committed (c : Cycle)
  | AnchorNotCertified
  | BelowFollowerQuorum (follower_count quorum : Z).

(** How a run can stop without a result: [BTreeMap::range] panics on the last
    round; the fuel of the model runs out. *)
Inductive Stop := Panic | OutOfFuel.

Section Ops.
Context `{Blake3}.

Definition has_id (id : CellId) (ct : CellCertificate) : bool :=
  bool_decide (cell_id (cell ct) = id).

(** [for r in (0..=high).rev()]. *)
Fixpoint find_down (a : LatticeAggregator) (r : nat) (id : CellId)
    : option (option (Z * string * CellCertificate)) :=
  match certified_at_round a (Z.of_nat r) with
  | None => None
  | Some l =>
      match List.find (has_id id) l with
      | Some ct => Some (Some (Z.of_nat r, author (cell ct), ct))
      | None => match r with O => Some None | S r' => find_down a r' id end
      end
  end.

Definition find_by_id (a : LatticeAggregator) (id : CellId)
    : option (option (Z * string * CellCertificate)) :=
  find_down a (Z.to_nat (high_water_round a)) id.

(** [for parent in parents { if seen.insert(parent) { queue.push_back(..) } }]. *)
Fixpoint enqueue (ps : list CellId) (r : Z) (queue : list (CellId * Z)) (seen : gset CellId)
    : list (CellId * Z) * gset CellId :=
  match ps with
  | [] => (queue, seen)
  | p :: ps' =>
      if decide (p ∈ seen) then enqueue ps' r queue seen
      else enqueue ps' r (queue ++ [(p, r)]) ({[p]} ∪ seen)
  end.

Fixpoint walk (fuel : nat) (a : LatticeAggregator) (queue : list (CellId * Z))
    (seen : gset CellId) (visited : gmap (Z * string) CellId)
    : result Stop (gmap (Z * string) CellId) :=
  match fuel with
  | O => Err OutOfFuel
  | S n =>
      match queue with
      | [] => Ok visited
      | (id, _) :: q =>
          match find_by_id a id with
          | None => Err Panic
          | Some None => walk n a q seen visited
          | Some (Some (r, au, ct)) =>
              let '(q', seen') := enqueue (parents (cell ct)) (saturating_sub r 1) q seen in
              walk n a q' seen' (<[(r, au) := id]> visited)
          end
      end
  end.

(** All parent references of certified cells. *)
Definition all_parents (a : LatticeAggregator) : list CellId :=
  concat (map (fun kc => parents (cell (snd kc))) (map_to_list (certified a))).
Definition walk_fuel (a : LatticeAggregator) : nat := (2 + length (all_parents a))%nat.

Definition walk_causal_history (a : LatticeAggregator) (start : CellId) (start_round : Z)
    : result Stop (list CellId) :=
  match walk (walk_fuel a) a [(start, start_round)] {[start]} ∅ with
  | Ok visited => Ok (map snd (iter visited))
  | Err e => Err e
  end.

Definition try_commit (a : LatticeAggregator) (cycle_index : Z) (pivot_author group : string)
    : result Stop CommitDecision :=
  let anchor_round := saturating_mul U64_MAX cycle_index 2 in
  let follow_round := saturating_add U64_MAX anchor_round 1 in
  let q := quorum a in
  match certified_get a anchor_round pivot_author with
  | None => Ok AnchorNotCertified
  | Some anchor_cert =>
      let anchor_id := cell_id (cell anchor_cert) in
      match certified_at_round a follow_round with
      | None => Err Panic
      | Some l =>
          let follower_count := Z.of_nat (length
            (List.filter (fun ct => bool_decide (anchor_id ∈ parents (cell ct))) l)) in
          if follower_count <? q then Ok (BelowFollowerQuorum follower_count q)
          else
            match walk_causal_history a anchor_id anchor_round with
            | Err e => Err e
            | Ok cells => Ok (Committed (Build_Cycle cycle_index group pivot_author anchor_id cells))
            end
      end
  end.

(** ** Specification *)

(** What the aggregator guarantees ([certificates_sound]) and rounds within
    the machine range. *)
Record dag_ok (a : LatticeAggregator) : Prop := {
  dg_key : forall k ct, certified a !! k = Some ct -> k = (round (cell ct), author (cell ct));
  dg_round : forall k ct, certified a !! k = Some ct -> 0 <= fst k <= high_water_round a;
  dg_high : 0 <= high_water_round a < U64_MAX;
}.

(** Certified cells have different identifiers: no hash collision among them. *)
Definition ids_unique (a : LatticeAggregator) : Prop :=
  forall k k' ct ct', certified a !! k = Some ct -> certified a !! k' = Some ct' ->
    cell_id (cell ct) = cell_id (cell ct') -> k = k'.

Definition certified_as (a : LatticeAggregator) (k : Z * string) (id : CellId) : Prop :=
  exists ct, certified a !! k = Some ct /\ cell_id (cell ct) = id.

(** The parent edges of the certified DAG. *)
Definition edge (a : LatticeAggregator) (x y : CellId) : Prop :=
  exists k ct, certified a !! k = Some ct /\ cell_id (cell ct) = x /\ y ∈ parents (cell ct).

Definition follower_certs (a : LatticeAggregator) (r : Z) (id : CellId)
    : list ((Z * string) * CellCertificate) :=
  List.filter (fun kc => (fst (fst kc) =? r) && bool_decide (id ∈ parents (cell (snd kc))))
    (map_to_list (certified a)).

(** *** The order of the keys *)

#[global] Instance key_le_trans : Transitive key_le.
Proof.
  intros [r s] [r' s'] [r'' s''] [H1|[H1 H1']] [H2|[H2 H2']]; unfold key_le; cbn in *; try lia.
  right. split; [lia|]. by transitivity s'.
Qed.
#[global] Instance entry_le_total {V} : Total (@entry_le V).
Proof.
  intros [[r s] v] [[r' s'] v']. unfold entry_le, key_le. cbn.
  destruct (Z.lt_trichotomy r r') as [?|[->|?]]; [tauto| |tauto].
  destruct (total String.le s s'); tauto.
Qed.

Lemma iter_perm {V} (m : gmap (Z * string) V) : iter m ≡ₚ map_to_list m.
Proof. apply merge_sort_Permutation. Qed.

Lemma elem_of_iter {V} (m : gmap (Z * string) V) k v : (k, v) ∈ iter m <-> m !! k = Some v.
Proof. rewrite iter_perm. apply elem_of_map_to_list. Qed.

Lemma iter_sorted {V} (m : gmap (Z * string) V) : StronglySorted key_le (map fst (iter m)).
Proof.
  assert (StronglySorted entry_le (iter m)) as Hs.
  { apply Sorted_StronglySorted; [intros [k ?] [k' ?] [k'' ?]; apply key_le_trans|].
    apply Sorted_merge_sort, _. }
  induction Hs as [|x l _ IH Hx]; cbn; constructor; [done|].
  apply Forall_fmap. exact Hx.
Qed.

(** *** Finding a cell *)

Lemma certified_at_round_elem a r l ct :
  certified_at_round a r = Some l -> ct ∈ l <-> exists k, certified a !! k = Some ct /\ fst k = r.
Proof.
  unfold certified_at_round. destruct (r =? U64_MAX); [done|]. intros [= <-].
  rewrite list_elem_of_In, in_map_iff. split.
  - intros ([k x] & <- & Hin). apply filter_In in Hin as [Hin Hr]. exists k.
    split; [by apply elem_of_iter, list_elem_of_In|by apply Z.eqb_eq].
  - intros (k & Hk & Hr). exists (k, ct). split; [done|]. apply filter_In.
    split; [by apply list_elem_of_In, elem_of_iter|by apply Z.eqb_eq].
Qed.

Lemma certified_at_round_some a r :
  dag_ok a -> r <= high_water_round a -> exists l, certified_at_round a r = Some l.
Proof.
  intros Hd Hr. pose proof (dg_high a Hd). unfold certified_at_round.
  destruct (Z.eqb_spec r U64_MAX); [lia|]. eauto.
Qed.

Lemma find_round a r id l :
  dag_ok a -> certified_at_round a r = Some l ->
  match List.find (has_id id) l with
  | Some ct => certified a !! (r, author (cell ct)) = Some ct /\ cell_id (cell ct) = id
  | None => forall k ct, certified a !! k = Some ct -> fst k = r -> cell_id (cell ct) <> id
  end.
Proof.
  intros Hd El. destruct (List.find (has_id id) l) as [ct|] eqn:E.
  - apply find_some in E as [Hin Hid%bool_decide_eq_true].
    apply list_elem_of_In, (certified_at_round_elem a r l) in Hin as (k & Hk & <-); [|done].
    pose proof (dg_key a Hd _ _ Hk) as ->. done.
  - intros k ct Hk Hr Hid. assert (ct ∈ l) as Hin%list_elem_of_In
      by (apply (certified_at_round_elem a r l); eauto).
    apply (find_none _ _ E) in Hin. unfold has_id in Hin. by rewrite bool_decide_eq_true_2 in Hin.
Qed.

Lemma find_down_spec a r id :
  dag_ok a -> Z.of_nat r <= high_water_round a ->
  match find_down a r id with
  | None => False
  | Some (Some (r', au, ct)) => certified a !! (r', au) = Some ct /\ cell_id (cell ct) = id
  | Some None => forall k ct, certified a !! k = Some ct -> fst k <= Z.of_nat r ->
      cell_id (cell ct) <> id
  end.
Proof.
  intros Hd. induction r as [|r IH]; intros Hr; cbn [find_down];
    destruct (certified_at_round_some a _ Hd Hr) as [l E]; rewrite E;
    pose proof (find_round a _ id l Hd E) as Hf;
    destruct (List.find (has_id id) l) as [ct|]; try exact Hf.
  - intros k ct Hk Hle. apply (Hf k ct Hk). pose proof (dg_round a Hd _ _ Hk). lia.
  - specialize (IH ltac:(lia)). destruct (find_down a r id) as [[[[r' au] ct]|]|]; try done.
    intros k ct Hk Hle. destruct (decide (fst k = Z.of_nat (S r))) as [He|Hne].
    + by apply (Hf k ct Hk).
    + apply (IH k ct Hk). lia.
Qed.

Lemma find_by_id_spec a id :
  dag_ok a ->
  match find_by_id a id with
  | None => False
  | Some (Some (r, au, ct)) => certified a !! (r, au) = Some ct /\ cell_id (cell ct) = id
  | Some None => forall k, ~ certified_as a k id
  end.
Proof.
  intros Hd. pose proof (dg_high a Hd) as Hh.
  pose proof (find_down_spec a (Z.to_nat (high_water_round a)) id Hd ltac:(lia)) as Hf.
  unfold find_by_id. destruct (find_down a _ id) as [[[[r au] ct]|]|]; try done.
  intros k (ct & Hk & Hid). apply (Hf k ct Hk); [|done]. pose proof (dg_round a Hd _ _ Hk). lia.
Qed.

(** *** The search *)

Lemma enqueue_spec ps r : forall queue seen,
  exists added, enqueue ps r queue seen = (queue ++ map (fun p => (p, r)) added,
      list_to_set added ∪ seen) /\
    NoDup added /\ (forall x, x ∈ added <-> x ∈ ps /\ x ∉ seen).
Proof.
  induction ps as [|p ps IH]; intros queue seen; cbn [enqueue].
  - exists []. cbn. rewrite app_nil_r, union_empty_l_L. split; [done|]. split; [constructor|].
    intros x. rewrite elem_of_nil. tauto.
  - destruct (decide (p ∈ seen)) as [Hp|Hp].
    + destruct (IH queue seen) as (added & -> & Hnd & Hin). exists added. split; [done|].
      split; [done|]. intros x. rewrite Hin, elem_of_cons. split; [tauto|].
      intros [[->|?] ?]; tauto.
    + destruct (IH (queue ++ [(p, r)]) ({[p]} ∪ seen)) as (added & -> & Hnd & Hin).
      exists (p :: added). split; [|split].
      * cbn. rewrite <- app_assoc. cbn. by rewrite (union_assoc_L (list_to_set added)),
          (union_comm_L (list_to_set added)).
      * constructor; [|done]. intros [_ Hx]%Hin. by apply Hx, elem_of_union_l, elem_of_singleton.
      * intros x. rewrite !elem_of_cons, Hin, not_elem_of_union, not_elem_of_singleton.
        destruct (decide (x = p)) as [->|]; tauto.
Qed.

Definition universe (a : LatticeAggregator) (start : CellId) : gset CellId :=
  {[start]} ∪ list_to_set (all_parents a).

Lemma all_parents_elem a k ct p :
  certified a !! k = Some ct -> p ∈ parents (cell ct) -> p ∈ all_parents a.
Proof.
  intros Hk Hp. unfold all_parents. apply list_elem_of_In, in_concat. exists (parents (cell ct)).
  split; [|by apply list_elem_of_In]. apply in_map_iff. exists (k, ct). split; [done|].
  by apply list_elem_of_In, elem_of_map_to_list.
Qed.

Lemma size_minus_added (u seen added : gset CellId) :
  added ⊆ u -> (forall x, x ∈ added -> x ∉ seen) ->
  size (u ∖ seen) = (size added + size (u ∖ (added ∪ seen)))%nat.
Proof.
  intros Hs Hd. rewrite <- size_union by set_solver. f_equal. apply leibniz_equiv. intros x.
  destruct (decide (x ∈ added)); set_solver.
Qed.

Lemma size_of_list (l : list CellId) : (size (list_to_set l : gset CellId) <= length l)%nat.
Proof.
  induction l as [|x l IH]; cbn [list_to_set length]; [by rewrite size_empty|].
  rewrite size_union_alt, size_singleton.
  pose proof (subseteq_size (list_to_set l ∖ {[x]} : gset CellId) (list_to_set l) ltac:(set_solver)).
  lia.
Qed.

(** What holds between two iterations of the loop. *)
Record search (a : LatticeAggregator) (start : CellId) (queue : list (CellId * Z))
    (seen : gset CellId) (visited : gmap (Z * string) CellId) : Prop := {
  se_start : start ∈ seen;
  se_queue : forall x, x ∈ map fst queue -> x ∈ seen;
  se_universe : seen ⊆ universe a start;
  se_reach : forall x, x ∈ seen -> rtc (edge a) start x;
  se_done : forall x, x ∈ seen -> x ∉ map fst queue ->
    (forall k, certified_as a k x -> visited !! k = Some x) /\
    (forall y, edge a x y -> y ∈ seen);
  se_visited : forall k x, visited !! k = Some x -> certified_as a k x /\ x ∈ seen;
}.

Definition todo (a : LatticeAggregator) (start : CellId) (queue : list (CellId * Z))
    (seen : gset CellId) : nat := (length queue + size (universe a start ∖ seen))%nat.

Lemma search_init a start r : search a start [(start, r)] {[start]} ∅.
Proof.
  assert (forall x, x ∈ map fst [(start, r)] <-> x = start) as Hq
    by (intros x; cbn; by rewrite list_elem_of_singleton).
  split; try (intros x; rewrite ?Hq, ?elem_of_singleton).
  - set_solver.
  - done.
  - intros ->. unfold universe. set_solver.
  - intros ->. constructor.
  - by intros -> Hn.
  - intros y Hk. by rewrite lookup_empty in Hk.
Qed.

(** A cell that is not certified is popped and dropped. *)
Lemma search_skip a start id r q seen visited :
  (forall k, ~ certified_as a k id) -> search a start ((id, r) :: q) seen visited ->
  search a start q seen visited.
Proof.
  intros Hno [H1 H2 H3 H4 H5 H6]. split; try done.
  - intros x Hx. apply H2. cbn. by right.
  - intros x Hx Hn. destruct (decide (x = id)) as [->|Hne].
    + split; [intros k Hk; by apply Hno in Hk|]. intros y (k & ct & Hk & Hid & _).
      exfalso. apply (Hno k). by exists ct.
    + apply H5; [done|]. cbn. by apply not_elem_of_cons.
Qed.

Lemma search_expand a start id r q seen visited r' au ct q' seen' :
  dag_ok a -> ids_unique a ->
  certified a !! (r', au) = Some ct -> cell_id (cell ct) = id ->
  enqueue (parents (cell ct)) (saturating_sub r' 1) q seen = (q', seen') ->
  search a start ((id, r) :: q) seen visited ->
  search a start q' seen' (<[(r', au) := id]> visited) /\
  todo a start q' seen' = (length q + size (universe a start ∖ seen))%nat.
Proof.
  intros Hd Hu Hk Hid Henq [H1 H2 H3 H4 H5 H6].
  destruct (enqueue_spec (parents (cell ct)) (saturating_sub r' 1) q seen) as (added & E & Hnd & Hin).
  rewrite Henq in E. injection E as -> ->.
  assert (id ∈ seen) as Hs by (apply H2; cbn; by left).
  assert (map fst (q ++ map (fun p => (p, saturating_sub r' 1)) added) = map fst q ++ added) as Eq.
  { rewrite map_app, map_map. cbn. by rewrite map_id. }
  assert (list_to_set added ⊆ universe a start) as Hau.
  { intros x Hx. apply elem_of_list_to_set, Hin in Hx as [Hx _].
    pose proof (all_parents_elem _ _ _ _ Hk Hx). unfold universe. set_solver. }
  assert (forall x, certified_as a (r', au) x -> x = id) as Hinj.
  { intros x (ct' & Hk' & <-). congruence. }
  split.
  - split.
    + set_solver.
    + intros x. rewrite Eq, elem_of_app. intros [Hx|Hx]; [|set_solver].
      apply elem_of_union_r, H2. cbn. by right.
    + set_solver.
    + intros x [Hx%elem_of_list_to_set|Hx]%elem_of_union; [|by apply H4].
      apply Hin in Hx as [Hx _]. eapply rtc_r; [by apply (H4 id)|]. by exists (r', au), ct.
    + intros x Hx Hn. rewrite Eq, not_elem_of_app in Hn. destruct Hn as [Hnq Hna].
      apply elem_of_union in Hx as [Hx|Hx]; [set_solver|].
      destruct (decide (x = id)) as [->|Hne].
      * split.
        -- intros k (ct' & Hk' & Hid'). assert (k = (r', au)) as -> by (eapply Hu; [done..|congruence]).
           apply lookup_insert_eq.
        -- intros y (k & ct' & Hk' & Hid' & Hy).
           assert (k = (r', au)) as -> by (eapply Hu; [done..|congruence]).
           assert (ct' = ct) as -> by congruence.
           destruct (decide (y ∈ seen)); [set_solver|]. apply elem_of_union_l, elem_of_list_to_set, Hin. done.
      * destruct (H5 x Hx) as [Hv He]; [cbn; by apply not_elem_of_cons|]. split.
        -- intros k Hc. rewrite lookup_insert_ne; [by apply Hv|]. intros <-. by apply Hne, Hinj.
        -- intros y Hy. apply elem_of_union_r. by apply He.
    + intros k x. destruct (decide (k = (r', au))) as [->|Hne].
      * rewrite lookup_insert_eq. intros [= <-]. split; [by exists ct|set_solver].
      * rewrite lookup_insert_ne by done. intros Hx. destruct (H6 k x Hx). set_solver.
  - unfold todo. rewrite length_app, length_map.
    rewrite (size_minus_added (universe a start) seen (list_to_set added)); [|done|].
    + rewrite size_list_to_set by done. lia.
    + intros x Hx%elem_of_list_to_set. by apply Hin in Hx as [_ ?].
Qed.

(** The fuel is enough, no step panics, and the search ends with an empty
    queue. *)
Lemma walk_total a start : dag_ok a -> ids_unique a -> forall fuel queue seen visited,
  search a start queue seen visited -> (todo a start queue seen < fuel)%nat ->
  exists visited' seen', walk fuel a queue seen visited = Ok visited' /\
    search a start [] seen' visited'.
Proof.
  intros Hd Hu. induction fuel as [|n IH]; intros queue seen visited Hs Hf; [lia|].
  cbn [walk]. destruct queue as [|[id r] q]; [by eauto|].
  pose proof (find_by_id_spec a id Hd) as Hfi.
  destruct (find_by_id a id) as [[[[r' au] ct]|]|]; [..|done].
  - destruct Hfi as [Hk Hid].
    destruct (enqueue (parents (cell ct)) (saturating_sub r' 1) q seen) as [q' seen'] eqn:E.
    destruct (search_expand _ _ _ _ _ _ _ _ _ _ _ _ Hd Hu Hk Hid E Hs) as [Hs' Ht].
    apply IH; [done|]. unfold todo in Hf at 1. cbn in Hf. lia.
  - apply IH; [by eapply search_skip|]. unfold todo in *. cbn in Hf. lia.
Qed.

Lemma walk_causal_history_spec a start r :
  dag_ok a -> ids_unique a ->
  exists cells, walk_causal_history a start r = Ok cells /\
    (forall x, x ∈ cells <-> (exists k, certified_as a k x) /\ rtc (edge a) start x) /\
    NoDup cells /\
    exists keys, StronglySorted key_le keys /\ Forall2 (certified_as a) keys cells.
Proof.
  intros Hd Hu. pose proof (search_init a start r) as H0.
  destruct (walk_total a start Hd Hu (walk_fuel a) _ _ _ H0) as (visited & seen & Hw & Hs).
  { unfold todo, walk_fuel, universe. cbn [length].
    assert (size (({[start]} ∪ list_to_set (all_parents a)) ∖ {[start]} : gset CellId)
      <= size (list_to_set (all_parents a) : gset CellId))%nat as Hsz
      by (apply subseteq_size; set_solver).
    pose proof (size_of_list (all_parents a)). lia. }
  unfold walk_causal_history. rewrite Hw. eexists. split; [done|].
  assert (forall x, x ∈ map snd (iter visited) <-> exists k, visited !! k = Some x) as Hel.
  { intros x. rewrite list_elem_of_In, in_map_iff. split.
    - intros ([k y] & <- & Hin). exists k. by apply elem_of_iter, list_elem_of_In.
    - intros [k Hk]. exists (k, x). split; [done|]. by apply list_elem_of_In, elem_of_iter. }
  assert (forall x, rtc (edge a) start x -> x ∈ seen) as Hcl.
  { apply (rtc_ind_r (R := edge a) (fun x => x ∈ seen) start); [apply Hs|]. intros y z _ Hyz Hy.
    apply (se_done _ _ _ _ _ Hs y Hy); [apply not_elem_of_nil|done]. }
  assert (forall p, p ∈ iter visited -> certified_as a (fst p) (snd p)) as Hc.
  { intros [k x] Hin%elem_of_iter. by apply Hs. }
  split; [|split].
  - intros x. rewrite Hel. split.
    + intros [k Hk]. destruct (se_visited _ _ _ _ _ Hs k x Hk) as [_ Hx].
      split; [exists k|]; by apply Hs.
    + intros [[k Hk] Hx%Hcl]. exists k. apply (se_done _ _ _ _ _ Hs x Hx); [apply not_elem_of_nil|done].
  - assert (NoDup (map fst (iter visited))) as Hnd.
    { rewrite iter_perm. apply NoDup_fst_map_to_list. }
    revert Hnd Hc. generalize (iter visited) as l.
    induction l as [|[k x] l IH]; cbn; intros Hnd Hc; constructor.
    + intros Hin. apply list_elem_of_In, in_map_iff in Hin as ([k' x'] & Hx & Hin). cbn in Hx. subst x'.
      apply NoDup_cons in Hnd as [Hk _]. apply Hk. apply list_elem_of_In, in_map_iff.
      exists (k', x). split; [|done]. cbn.
      destruct (Hc (k, x)) as (ct & Hct & Hid); [by left|].
      destruct (Hc (k', x)) as (ct' & Hct' & Hid'); [right; by apply list_elem_of_In|].
      cbn in *. by apply (Hu k' k ct' ct); [..|congruence].
    + apply NoDup_cons in Hnd as [_ Hnd]. apply IH; [done|]. intros p Hp. apply Hc. by right.
  - exists (map fst (iter visited)). split; [apply iter_sorted|].
    revert Hc. generalize (iter visited) as l.
    induction l as [|p l IH]; cbn; intros Hc; constructor; [apply Hc; by left|].
    apply IH. intros p' Hp'. apply Hc. by right.
Qed.


Lemma filter_map_filter {A B} (f : A -> bool) (h : A -> B) (g : B -> bool) l :
  length (List.filter g (map h (List.filter f l))) =
  length (List.filter (fun x => f x && g (h x)) l).
Proof.
  induction l as [|x l IH]; [done|]. cbn. destruct (f x); cbn; [|done].
  destruct (g (h x)); cbn; congruence.
Qed.

Lemma filter_length_perm {A} (f : A -> bool) l l' :
  l ≡ₚ l' -> length (List.filter f l) = length (List.filter f l').
Proof.
  induction 1 as [|x l l' _ IH|x y l|l1 l2 l3 _ IH1 _ IH2]; cbn; [done| | |congruence].
  - destruct (f x); cbn; congruence.
  - by destruct (f x), (f y).
Qed.

Lemma followers_count a r id l :
  certified_at_round a r = Some l ->
  length (List.filter (fun ct => bool_decide (id ∈ parents (cell ct))) l) =
  length (follower_certs a r id).
Proof.
  unfold certified_at_round, follower_certs. destruct (r =? U64_MAX); [done|]. intros [= <-].
  rewrite filter_map_filter. apply filter_length_perm, iter_perm.
Qed.

End Ops.

(** C8: the commit rule.  On a table the aggregator can produce, without hash
    collisions among certified cells, an attempt to commit cycle [k] always
    ends.  It commits exactly when the pivot's cell of round [2k] is certified
    and a quorum of certified cells of round [2k+1] name it as a parent.  The
    committed cells are then exactly the certified cells in the causal history
    of that cell, each once, in the order of round and author. *)
Theorem try_commit_correct `{Blake3} (a : LatticeAggregator) (k : Z) (piv g : string) :
  dag_ok a -> ids_unique a -> 0 <= k -> 2 * k + 1 < U64_MAX ->
  let followers ct := Z.of_nat (length (follower_certs a (2 * k + 1) (cell_id (cell ct)))) in
  match try_commit a k piv g with
  | Ok AnchorNotCertified => certified_get a (2 * k) piv = None
  | Ok (BelowFollowerQuorum n q) =>
      exists ct, certified_get a (2 * k) piv = Some ct /\ n = followers ct /\ q = quorum a /\ n < q
  | Ok (Committed cy) =>
      exists ct, certified_get a (2 * k) piv = Some ct /\ quorum a <= followers ct /\
        index cy = k /\ cy_group_id cy = g /\ pivot cy = piv /\ pivot_cell cy = cell_id (cell ct) /\
        (forall x, x ∈ committed_cells cy <->
           (exists key, certified_as a key x) /\ rtc (edge a) (pivot_cell cy) x) /\
        NoDup (committed_cells cy) /\
        exists keys, StronglySorted key_le keys /\ Forall2 (certified_as a) keys (committed_cells cy)
  | Err _ => False
  end.
Proof.
  intros Hd Hu Hk Hmax followers. unfold try_commit.
  replace (saturating_mul U64_MAX k 2) with (2 * k) by mlia.
  replace (saturating_add U64_MAX (2 * k) 1) with (2 * k + 1) by mlia.
  destruct (certified_get a (2 * k) piv) as [ct|] eqn:Ea; [|done].
  destruct (certified_at_round a (2 * k + 1)) as [l|] eqn:El.
  2: { unfold certified_at_round in El. destruct (Z.eqb_spec (2 * k + 1) U64_MAX); [lia|done]. }
  rewrite (followers_count _ _ _ _ El). fold (followers ct).
  destruct (Z.ltb_spec (followers ct) (quorum a)); [by eauto|].
  destruct (walk_causal_history_spec a (cell_id (cell ct)) (2 * k) Hd Hu)
    as (cells & -> & Hin & Hnd & Hs).
  exists ct. cbn. done.
Qed.

(** A two-round lattice: [a] and [b] in round 2 on top of [z] of round 1, and
    three cells of round 3 that follow [a]. *)
#[local] Existing Instance toy_blake3.
#[local] Existing Instance toy_ed25519.

Definition put_cert (c : LatticeCell) (agg : LatticeAggregator) : LatticeAggregator :=
  let agg := snd (observe_cell c agg) in
  foldl (fun x s => snd (observe_attestation (cell_id c) (attest s 7 c) x)) agg
    ["p"; "q"; "r"]%string.
Definition cell_z : LatticeCell := signed_cell 1 "z" 26 [].
Definition cell_2a : LatticeCell := signed_cell 2 "a" 1 [cell_id cell_z].
Definition cell_2b : LatticeCell := signed_cell 2 "b" 2 [cell_id cell_z].
Definition cell_3 (s : string) (n : Z) : LatticeCell :=
  signed_cell 3 s n [cell_id cell_2a; cell_id cell_2b].
Definition lattice3 : LatticeAggregator :=
  put_cert (cell_3 "c" 3) (put_cert (cell_3 "b" 2) (put_cert (cell_3 "a" 1)
    (put_cert cell_2b (put_cert cell_2a (put_cert cell_z (new cfg4)))))).

Lemma lattice3_dag : dag_ok lattice3.
Proof.
  split.
  - apply (map_Forall_lookup (fun k ct => k = (round (cell ct), author (cell ct)))).
    apply (bool_decide_eq_true_1 _). vm_compute. reflexivity.
  - apply (map_Forall_lookup (fun k ct => 0 <= fst k <= high_water_round lattice3)).
    apply (bool_decide_eq_true_1 _). vm_compute. reflexivity.
  - vm_compute. split; congruence.
Qed.

Lemma lattice3_ids : ids_unique lattice3.
Proof.
  assert (map_Forall (fun k ct => map_Forall (fun k' ct' =>
    cell_id (cell ct) = cell_id (cell ct') -> k = k') (certified lattice3)) (certified lattice3)) as Hall.
  { apply (bool_decide_eq_true_1 _). vm_compute. reflexivity. }
  intros k k' ct ct' Hk Hk'. exact (Hall _ _ Hk _ _ Hk').
Qed.

Lemma try_commit_correct_witness :
  exists cy, try_commit lattice3 1 "a" "g" = Ok (Committed cy) /\
    committed_cells cy = [cell_id cell_z; cell_id cell_2a] /\
    rtc (edge lattice3) (cell_id cell_2a) (cell_id cell_z).
Proof.
  pose proof (try_commit_correct lattice3 1 "a" "g" lattice3_dag lattice3_ids ltac:(lia)
    ltac:(vm_compute; reflexivity)) as Hc.
  destruct (try_commit lattice3 1 "a" "g") as [[cy| |n q]|e] eqn:E.
  2-4: vm_compute in E; discriminate E.
  exists cy. split; [done|].
  assert (committed_cells cy = [cell_id cell_z; cell_id cell_2a] /\ pivot_cell cy = cell_id cell_2a)
    as [Ec Ep] by (vm_compute in E; injection E as <-; split; reflexivity).
  split; [done|]. destruct Hc as (ct & _ & _ & _ & _ & _ & _ & Hin & _).
  rewrite <- Ep. apply Hin. rewrite Ec. by left.
Defined.

End Commit.
