(* ===== verification/Pivot.v ===== *)
(** * Cycle pivots and the commit poller

    [savitri-consensus/src/lattice/pivot.rs]: the weighted schedule and its
    seeded shuffle; and the commit poller of
    [savitri-lightnode/src/lattice_runtime.rs], with the arrivals that
    interleave with its steps.  Metrics and log lines are left out. *)

From stdpp Require Import pretty.
From S2P Require Import Prelude Codec Primitives Score Lattice LatticeCommit.
Import Lattice Commit.

Module Pivot.

Definition PIVOT_TENURE_SLOTS : Z := 1.

Section Ops.
Context `{Blake3}.

(** [score.max(1)] as [u64]. *)
Definition weight (ps : string * Z) : Z := Z.max (snd ps) 1.

(** One iteration of the allocation loop: [(schedule, acc)]. *)
Definition allocate (total : Z) (st : list string * Z) (ps : string * Z) : list string * Z :=
  let '(schedule, acc) := st in
  let s := weight ps in
  let target := wrap U64_MAX (wrap U64_MAX (acc + s) * PIVOT_TENURE_SLOTS) / total in
  (schedule ++ replicate (Z.to_nat (target - Z.of_nat (length schedule))) (fst ps),
   wrap U64_MAX (acc + s)).

(** The xorshift64 step; shifts to the left drop the high bits. *)
Definition xorshift (x : Z) : Z :=
  let x := Z.lxor x (wrap U64_MAX (Z.shiftl x 13)) in
  let x := Z.lxor x (Z.shiftr x 7) in
  Z.lxor x (wrap U64_MAX (Z.shiftl x 17)).

Definition swap (i j : nat) (l : list string) : list string :=
  match l !! i, l !! j with
  | Some x, Some y => <[j := x]> (<[i := y]> l)
  | _, _ => l
  end.

(** [for i in (1..len).rev()], from [i] down. *)
Fixpoint shuffle (i : nat) (rng : Z) (l : list string) : list string :=
  match i with
  | O => l
  | S i' =>
      let rng := xorshift rng in
      let j := Z.to_nat (rng mod (Z.of_nat i + 1)) in
      shuffle i' rng (swap i j l)
  end.

Definition seed (group_id : string) (tenure_window : Z) : Z :=
  let input := "savitri-lattice-pivot-v1|" +:+ group_id +:+ "|" +:+ pretty (Z.to_N tenure_window) in
  let x := from_le_bytes (take 8 (blake3 (bytes_of_string input))) in
  if x =? 0 then 16045690984833335023 else x.

Definition build_weighted_pivot_schedule (ranked : list (string * Z)) (cycle_index : Z)
    (group_id : string) : list string :=
  let total := Z.max (Score.sum64 (map weight ranked)) 1 in
  let schedule := fst (foldl (allocate total) ([], 0) ranked) in
  let first := default EmptyString (fst <$> head ranked) in
  let schedule := schedule ++
    replicate (Z.to_nat (PIVOT_TENURE_SLOTS - Z.of_nat (length schedule))) first in
  shuffle (length schedule - 1) (seed group_id (cycle_index / PIVOT_TENURE_SLOTS)) schedule.

Definition pivot_for_cycle (group_id : string) (cycle_index : Z) (ranked_pou : list (string * Z))
    : option string :=
  match ranked_pou with
  | [] => None
  | _ =>
      let schedule := build_weighted_pivot_schedule ranked_pou cycle_index group_id in
      schedule !! Z.to_nat (cycle_index mod PIVOT_TENURE_SLOTS)
  end.

(** ** The commit poller *)

(** The receiving tasks change the shared aggregator between the poller's
    read locks. *)
Inductive Event : Type :=
| CellArrives (c : LatticeCell)
| AttestationArrives (id : CellId) (att : CellAttestation).

Context `{Ed25519}.

Definition deliver (a : LatticeAggregator) (e : Event) : LatticeAggregator :=
  match e with
  | CellArrives c => snd (observe_cell c a)
  | AttestationArrives id att => snd (observe_attestation id att a)
  end.

(** One tick of the poller: what [group_provider] returns, the lattice round
    read from the clock, and what arrives before the tick, before the read
    lock of each cycle and before the write lock of the collector. *)
Record Tick := {
  tk_group : option (string * list (string * Z));
  tk_round : Z;
  tk_before : list Event;
  tk_at : Z -> list Event;
  tk_after : list Event;
}.

(** [for cycle in start..=max]: [n] cycles from [cycle] on. *)
Fixpoint attempt (n : nat) (arrivals : Z -> list Event) (g : string) (ranked : list (string * Z))
    (cycle : Z) (last : option Z) (a : LatticeAggregator)
    : result Stop (option Z * LatticeAggregator) :=
  match n with
  | O => Ok (last, a)
  | S n' =>
      match pivot_for_cycle g cycle ranked with
      | None => Ok (last, a)
      | Some piv =>
          let a := foldl deliver a (arrivals cycle) in
          match try_commit a cycle piv g with
          | Ok (Committed _) => attempt n' arrivals g ranked (cycle + 1) (Some cycle) a
          | Ok _ => Ok (last, a)
          | Err e => Err e
          end
      end
  end.

(** One iteration of [commit_poller_loop]: nothing without a group; otherwise
    the cycles, then the collection of old cells. *)
Definition commit_pass (t : Tick) (last : option Z) (a : LatticeAggregator)
    : result Stop (option Z * LatticeAggregator) :=
  let a := foldl deliver a (tk_before t) in
  match tk_group t with
  | None => Ok (last, a)
  | Some (g, ranked) =>
      let current_cycle := tk_round t / 2 in
      let max_attempt := saturating_sub current_cycle 1 in
      let start := match last with Some c => wrap U64_MAX (c + 1) | None => 0 end in
      match attempt (Z.to_nat (max_attempt - start + 1)) (tk_at t) g ranked start last a with
      | Err e => Err e
      | Ok (last, a) => Ok (last, snd (gc_old_cells (foldl deliver a (tk_after t))))
      end
  end.

(** The loop, from the last committed cycle and the aggregator on. *)
Fixpoint poll (ticks : list Tick) (last : option Z) (a : LatticeAggregator)
    : result Stop (option Z * LatticeAggregator) :=
  match ticks with
  | [] => Ok (last, a)
  | t :: rest =>
      match commit_pass t last a with
      | Ok (last', a') => poll rest last' a'
      | Err e => Err e
      end
  end.

(** ** Correctness *)

Lemma weight_pos ps : 1 <= weight ps.
Proof. unfold weight. lia. Qed.

Lemma sum_weights_nonneg l : 0 <= sumZ (map weight l).
Proof. unfold sumZ. induction l as [|x l IH]; cbn; [lia|]. pose proof (weight_pos x). lia. Qed.

(** With one slot no peer before the last reaches the first slot. *)
Lemma allocate_prefix total : forall l acc,
  0 <= acc -> acc + sumZ (map weight l) < total -> total <= U64_MAX ->
  foldl (allocate total) ([], acc) l = ([], acc + sumZ (map weight l)).
Proof.
  induction l as [|x l IH]; intros acc Ha Hs Ht; cbn [foldl map]; [f_equal; cbn; lia|].
  pose proof (weight_pos x). pose proof (sum_weights_nonneg l).
  cbn [map] in Hs. change (sumZ (weight x :: map weight l)) with (weight x + sumZ (map weight l)) in *.
  unfold allocate at 2. unfold PIVOT_TENURE_SLOTS. rewrite Z.mul_1_r.
  rewrite (wrap_id U64_MAX (acc + weight x)) by mlia. rewrite wrap_id by mlia.
  rewrite Z.div_small by lia. cbn [length replicate app Z.of_nat Z.to_nat Z.sub].
  change (Z.to_nat (0 - 0)) with 0%nat. cbn [replicate]. rewrite IH by lia. f_equal. lia.
Qed.

Lemma sum64_weights l :
  sumZ (map weight l) <= U64_MAX -> Score.sum64 (map weight l) = sumZ (map weight l).
Proof.
  unfold Score.sum64. assert (forall acc, 0 <= acc -> acc + sumZ (map weight l) <= U64_MAX ->
    foldl Score.add64 acc (map weight l) = acc + sumZ (map weight l)) as Hg.
  { induction l as [|x l IH]; intros acc Ha Hs; cbn [map foldl]; [cbn; lia|].
    pose proof (weight_pos x). pose proof (sum_weights_nonneg l).
    cbn [map] in Hs. change (sumZ (weight x :: map weight l)) with (weight x + sumZ (map weight l)) in *.
    unfold Score.add64 at 2. rewrite wrap_id by mlia. rewrite IH by lia. lia. }
  intros Hs. rewrite Hg by lia. lia.
Qed.

Lemma schedule_is_last ranked x k g :
  sumZ (map weight (ranked ++ [x])) <= U64_MAX ->
  build_weighted_pivot_schedule (ranked ++ [x]) k g = [fst x].
Proof.
  intros Hs. unfold build_weighted_pivot_schedule. rewrite sum64_weights by done.
  rewrite map_app, sumZ_app in *. cbn [map] in *.
  change (sumZ [weight x]) with (weight x + 0) in *.
  pose proof (weight_pos x). pose proof (sum_weights_nonneg ranked).
  set (total := Z.max _ _). assert (total = sumZ (map weight ranked) + weight x) as Et by lia.
  rewrite foldl_app, (allocate_prefix total ranked 0) by lia. cbn [foldl allocate fst].
  unfold PIVOT_TENURE_SLOTS. rewrite Z.mul_1_r, Z.add_0_l.
  rewrite (wrap_id U64_MAX (sumZ (map weight ranked) + weight x)) by mlia.
  rewrite wrap_id by mlia. rewrite <- Et, Z.div_same by lia. reflexivity.
Qed.

End Ops.

(** the pivot is always the lowest-ranked peer.  With one slot per tenure
    window the allocation gives the slot to the last entry of the ranking, in
    every cycle and every group, and the shuffle has nothing to move: scores
    only matter through the order of the list. *)
Theorem pivot_is_lowest_ranked `{Blake3} (g : string) (k : Z) (ranked : list (string * Z)) :
  sumZ (map weight ranked) <= U64_MAX ->
  pivot_for_cycle g k ranked = fst <$> last ranked.
Proof.
  intros Hs. destruct ranked as [|y l] using rev_ind; [done|].
  rewrite last_snoc. unfold pivot_for_cycle. destruct (l ++ [y]) as [|z r] eqn:E.
  - by destruct l.
  - rewrite <- E in *. rewrite schedule_is_last by done.
    unfold PIVOT_TENURE_SLOTS. by rewrite Z.mod_1_r.
Qed.

#[local] Existing Instance toy_blake3.

Lemma pivot_is_lowest_ranked_witness :
  pivot_for_cycle "g" 12 [("good"%string, 990); ("fair"%string, 600); ("poor"%string, 3)] =
  Some "poor"%string.
Proof.
  rewrite (pivot_is_lowest_ranked "g" 12 [("good"%string, 990); ("fair"%string, 600); ("poor"%string, 3)]).
  - reflexivity.
  - vm_compute. discriminate.
Defined.

(** *** The poller *)

(** No cell of round 0 is pending or certified. *)
Definition no_round_0 (a : LatticeAggregator) : Prop :=
  map_Forall (fun k (_ : CellCertificate) => fst k <> 0) (certified a) /\
  map_Forall (fun (_ : CellId) p => round (p_cell p) <> 0) (pending a).

Definition later_event (e : Event) : Prop :=
  match e with CellArrives c => round c <> 0 | AttestationArrives _ _ => True end.

Definition later_tick (t : Tick) : Prop :=
  Forall later_event (tk_before t) /\ (forall k, Forall later_event (tk_at t k)) /\
  Forall later_event (tk_after t).

Section Poller.
Context `{Blake3} `{Ed25519}.

Lemma deliver_no_round_0 e a : later_event e -> no_round_0 a -> no_round_0 (deliver a e).
Proof.
  intros He [Hc Hp]. destruct e as [c|id att]; cbn [deliver].
  - unfold observe_cell. destruct (negb _); [done|].
    destruct (certified a !! _); [done|]. split; [done|]. cbn [pending].
    destruct (pending a !! _); [done|]. by apply map_Forall_insert_2.
  - unfold observe_attestation. destruct (pending a !! id) as [p|] eqn:E; [|by case_match].
    pose proof (Hp _ _ E) as Hr. repeat case_match; try done; split; cbn [pending certified snd].
    + by apply map_Forall_insert_2.
    + by apply map_Forall_delete.
    + done.
    + by apply map_Forall_insert_2.
Qed.

Lemma delivers_no_round_0 l : forall a,
  Forall later_event l -> no_round_0 a -> no_round_0 (foldl deliver a l).
Proof.
  induction l as [|e l IH]; intros a Hl Ha; [done|]. inversion_clear Hl.
  apply IH; [done|]. by apply deliver_no_round_0.
Qed.

Lemma gc_no_round_0 a : no_round_0 a -> no_round_0 (snd (gc_old_cells a)).
Proof.
  intros [Hc Hp]. split; intros k x Hk; cbn in Hk; apply map_lookup_filter_Some in Hk as [Hk _].
  - exact (Hc _ _ Hk).
  - exact (Hp _ _ Hk).
Qed.

(** A pass from cycle 0 stops at once. *)
Lemma commit_pass_stuck t a :
  later_tick t -> no_round_0 a ->
  exists a', commit_pass t None a = Ok (None, a') /\ no_round_0 a'.
Proof.
  intros (Hb & Hat & Haf) Ha. apply (delivers_no_round_0 _ _ Hb) in Ha. unfold commit_pass.
  destruct (tk_group t) as [[g ranked]|]; [|by eexists].
  assert (forall n, exists a', attempt n (tk_at t) g ranked 0 None (foldl deliver a (tk_before t))
    = Ok (None, a') /\ no_round_0 a') as Hn.
  { intros [|n]; cbn [attempt]; [by eexists|].
    destruct (pivot_for_cycle g 0 ranked) as [piv|]; [|by eexists].
    apply (delivers_no_round_0 _ _ (Hat 0)) in Ha. eexists; split; [|exact Ha].
    unfold try_commit. change (saturating_mul U64_MAX 0 2) with 0. unfold certified_get.
    destruct (_ !! (0, piv)) as [ct|] eqn:E; [|done]. by destruct (proj1 Ha _ _ E). }
  destruct (Hn (Z.to_nat (saturating_sub (tk_round t / 2) 1 - 0 + 1))) as (a' & -> & Ha').
  eexists; split; [done|]. by apply gc_no_round_0, delivers_no_round_0.
Qed.

End Poller.

(** the poller never gets past cycle 0.  It starts at cycle 0 and ends a
    pass at the first cycle that does not commit.  Rounds are wall-clock
    seconds, so no cell of round 0 is published: whatever other cells and
    attestations arrive between its steps, and whatever group and ranking each
    tick finds, no cycle is ever recorded as committed. *)
Theorem poller_stuck_at_cycle_0 `{Blake3} `{Ed25519} (ticks : list Tick) (cfg : AggregatorConfig) :
  Forall later_tick ticks ->
  exists a, poll ticks None (Lattice.new cfg) = Ok (None, a).
Proof.
  intros Ht. assert (no_round_0 (Lattice.new cfg)) as Ha by done.
  revert Ha. generalize (Lattice.new cfg). induction Ht as [|t ticks Hh _ IH]; intros a Ha;
    cbn [poll]; [by eexists|].
  destruct (commit_pass_stuck t a Hh Ha) as (a' & -> & Ha'). by apply IH.
Qed.

#[local] Existing Instance toy_ed25519.

(** The arrival of a cell with the attestations that certify it in a group of
    four. *)
Definition certifying (c : LatticeCell) : list Event :=
  CellArrives c :: map (fun n => AttestationArrives (cell_id c) (attest n 7 c)) ["b"; "c"; "d"]%string.

(** An anchor of cycle 1 and its followers arrive before the first tick. *)
Definition busy_tick (t : Z) (l : list Event) : Tick :=
  {| tk_group := Some ("g"%string, [("a"%string, 10)]); tk_round := t; tk_before := l;
     tk_at := fun _ => []; tk_after := [] |}.
Definition arrivals : list Event :=
  flat_map certifying [cell_z; cell_2a; cell_2b; cell_3 "a" 1; cell_3 "b" 2; cell_3 "c" 3].

(** Cycle 1 can be committed on what arrived, yet the poller does not. *)
Lemma poller_stuck_at_cycle_0_witness :
  match try_commit (foldl deliver (Lattice.new cfg4) arrivals) 1 "a" "g" with
  | Ok (Committed _) => True | _ => False end /\
  exists a, poll [busy_tick 100 arrivals; busy_tick 200 []] None (Lattice.new cfg4) = Ok (None, a).
Proof.
  split; [vm_compute; exact I|]. apply poller_stuck_at_cycle_0.
  assert (Forall later_event arrivals) as Ha by
    (vm_compute; repeat (apply List.Forall_cons; [first [exact I | discriminate]|]); constructor).
  assert (forall t l, Forall later_event l -> later_tick (busy_tick t l)) as Hb
    by (intros t l Hl; split; [exact Hl|split; [intros k|]; apply Forall_nil_2]).
  apply Forall_cons_2; [exact (Hb _ _ Ha)|].
  apply Forall_cons_2; [exact (Hb _ _ (Forall_nil_2 _))|apply Forall_nil_2].
Defined.

End Pivot.
