(* ===== verification/QueuedPool.v ===== *)
(** * The queued pool

    [savitri-mempool/src/mempool/queued_pool.rs] and the transaction records
    of [mempool/types.rs]: transactions whose nonce is ahead of the account
    wait here, per sender and by nonce, until the account catches up.

    An [Instant] is a number of milliseconds; the operations that read the
    clock take the reading as an argument.  [HashMap] iteration is over
    [map_to_list], an order the theorems do not depend on.  Gauges and log
    messages are left out. *)

From S2P Require Import Prelude OrdMap.

(** [TxClass], [PrevalidatedTx]. *)
Inductive TxClass := Financial | IoTData | FederatedUpdate | System.
#[global] Instance TxClass_eq_dec : EqDecision TxClass.
Proof. solve_decision. Defined.

Record PrevalidatedTx := mkPv {
  sender_id : Z;
  sender_address : bytes;
  nonce : Z;
  max_fee : Z;
  amount : Z;
  tx_handle : Z;
  class : TxClass;
  stream_nonce : option Z;
}.

Definition duration_since (now t : Z) : Z := Z.max 0 (now - t).

Definition PREVALIDATION_NONCE_WINDOW : Z := 3500.
Definition QUEUED_POOL_MAX_NONCE_GAP : Z := 3000.
Definition ADMISSION_MAX_MAIN_POOL_NONCE_GAP : Z := 3000.
Definition ADMISSION_MAX_MAIN_POOL_NONCE_GAP_RPC : Z := 100000.

Module Queued.

Record QueuedPoolConfig := {
  max_per_account : Z;
  max_total : Z;
  max_nonce_gap : Z;
  ttl : Z;
  cleanup_interval : Z;
}.
Definition QueuedPoolConfig_default : QueuedPoolConfig := {|
  max_per_account := 3000; max_total := 30000; max_nonce_gap := QUEUED_POOL_MAX_NONCE_GAP;
  ttl := 300000; cleanup_interval := 30000 |}.

Record QueuedTx := mkQt {
  pv : PrevalidatedTx;
  tx_hash : option bytes;
  queued_at : Z;
  account_nonce_at_queue : Z;
}.

Record AccountQueue := mkAq {
  txs : gmap Z QueuedTx;
  aq_sender_address : bytes;
}.
Definition AccountQueue_new (a : bytes) : AccountQueue := mkAq ∅ a.
Definition len (q : AccountQueue) : Z := Z.of_nat (size (txs q)).
Definition is_empty (q : AccountQueue) : bool := bool_decide (txs q = ∅).

Record QueuedPoolStats := mkStats {
  total_queued : Z;
  accounts_with_queued : Z;
  total_promoted : Z;
  total_expired : Z;
  total_rejected_full : Z;
  total_rejected_gap_too_large : Z;
}.
Definition QueuedPoolStats_default : QueuedPoolStats := mkStats 0 0 0 0 0 0.

Record QueuedPool := mkQp {
  config : QueuedPoolConfig;
  accounts : gmap Z AccountQueue;
  total : Z;
  last_cleanup : Z;
  stats : QueuedPoolStats;
}.
Definition set_accounts (a : gmap Z AccountQueue) (p : QueuedPool) : QueuedPool :=
  mkQp (config p) a (total p) (last_cleanup p) (stats p).
Definition set_total (t : Z) (p : QueuedPool) : QueuedPool :=
  mkQp (config p) (accounts p) t (last_cleanup p) (stats p).
Definition set_last_cleanup (t : Z) (p : QueuedPool) : QueuedPool :=
  mkQp (config p) (accounts p) (total p) t (stats p).
Definition set_stats (s : QueuedPoolStats) (p : QueuedPool) : QueuedPool :=
  mkQp (config p) (accounts p) (total p) (last_cleanup p) s.

Definition new (c : QueuedPoolConfig) (now : Z) : QueuedPool := mkQp c ∅ 0 now QueuedPoolStats_default.

Inductive QueuedPoolError :=
| NonceGapTooLarge (nonce account_nonce max_gap : Z)
| PoolFull (total max : Z)
| AccountQueueFull (sender_id count max : Z)
| DuplicateNonce (nonce sender_id : Z).

Definition Q (A : Type) : Type := M QueuedPool QueuedPoolError A.

Definition reject_gap (s : QueuedPoolStats) : QueuedPoolStats :=
  mkStats (total_queued s) (accounts_with_queued s) (total_promoted s) (total_expired s)
    (total_rejected_full s) (wrap U64_MAX (total_rejected_gap_too_large s + 1)).
Definition reject_full (s : QueuedPoolStats) : QueuedPoolStats :=
  mkStats (total_queued s) (accounts_with_queued s) (total_promoted s) (total_expired s)
    (wrap U64_MAX (total_rejected_full s + 1)) (total_rejected_gap_too_large s).
Definition on_stats (f : QueuedPoolStats -> QueuedPoolStats) : Q unit :=
  modify (fun p => set_stats (f (stats p)) p).

(** [stats.total_queued = total; stats.accounts_with_queued = accounts.len()]. *)
Definition sync_stats (p : QueuedPool) : QueuedPool :=
  set_stats (mkStats (total p) (Z.of_nat (size (accounts p))) (total_promoted (stats p))
    (total_expired (stats p)) (total_rejected_full (stats p))
    (total_rejected_gap_too_large (stats p))) p.

(** [account_queue.txs.insert(nonce, ..)] on the entry of the sender. *)
Definition enqueue (q : AccountQueue) (t : QueuedTx) : Q unit :=
  modify (fun p => set_accounts
    (<[sender_id (pv t) := mkAq (<[nonce (pv t) := t]> (txs q)) (aq_sender_address q)]> (accounts p)) p).

(** [try_queue]. *)
Definition try_queue (now : Z) (t : PrevalidatedTx) (hash : option bytes) (account_nonce : Z) : Q unit :=
  p ← get;
  let c := config p in
  if saturating_sub (nonce t) account_nonce >? max_nonce_gap c then
    on_stats reject_gap;; fail (NonceGapTooLarge (nonce t) account_nonce (max_nonce_gap c))
  else if total p >=? max_total c then
    on_stats reject_full;; fail (PoolFull (total p) (max_total c))
  else
    let q := default (AccountQueue_new (sender_address t)) (accounts p !! sender_id t) in
    modify (set_accounts (<[sender_id t := q]> (accounts p)));;
    if len q >=? max_per_account c then
      on_stats reject_full;; fail (AccountQueueFull (sender_id t) (len q) (max_per_account c))
    else
      match txs q !! nonce t with
      | Some existing =>
          if max_fee t >? max_fee (pv existing) then enqueue q (mkQt t hash now account_nonce)
          else fail (DuplicateNonce (nonce t) (sender_id t))
      | None =>
          enqueue q (mkQt t hash now account_nonce);;
          modify (fun p => sync_stats (set_total (wrap U64_MAX (total p + 1)) p))
      end.

(** The loop of [promote] over the sender's queue: the nonces to remove and
    the transactions to promote, up to the first gap. *)
Fixpoint collect (new_nonce next_expected : Z) (l : list (Z * QueuedTx)) :
    list Z * list (PrevalidatedTx * option bytes) :=
  match l with
  | [] => ([], [])
  | (n, t) :: l' =>
      if n <? new_nonce then
        let '(r, p) := collect new_nonce next_expected l' in (n :: r, p)
      else if n =? next_expected then
        let '(r, p) := collect new_nonce (wrap U64_MAX (next_expected + 1)) l' in
        (n :: r, (pv t, tx_hash t) :: p)
      else ([], [])
  end.

(** [promoted.sort_by_key(|(pv, _)| pv.nonce)]. *)
Definition by_nonce (p q : PrevalidatedTx * option bytes) : Prop := nonce p.1 <= nonce q.1.
#[global] Instance by_nonce_dec p q : Decision (by_nonce p q).
Proof. unfold by_nonce. apply _. Defined.

(** The sender's queue after a removal; an empty one is dropped. *)
Definition shrink (sid : Z) (m : gmap Z QueuedTx) (a : bytes) (accs : gmap Z AccountQueue) :
    gmap Z AccountQueue :=
  if bool_decide (m = ∅) then delete sid accs else <[sid := mkAq m a]> accs.

(** [promote]. *)
Definition promote (sid new_account_nonce : Z) (p : QueuedPool) :
    list (PrevalidatedTx * option bytes) * QueuedPool :=
  match accounts p !! sid with
  | None => ([], p)
  | Some q =>
      let '(to_remove, promoted) := collect new_account_nonce new_account_nonce (btree_iter (txs q)) in
      let txs' := fold_left (fun m n => delete n m) to_remove (txs q) in
      let total' := fold_left (fun t (_ : Z) => saturating_sub t 1) to_remove (total p) in
      let accounts' := shrink sid txs' (aq_sender_address q) (accounts p) in
      let s := stats p in
      let p' := set_stats (mkStats (total_queued s) (accounts_with_queued s)
          (wrap U64_MAX (total_promoted s + Z.of_nat (length promoted)))
          (total_expired s) (total_rejected_full s) (total_rejected_gap_too_large s))
        (set_total total' (set_accounts accounts' p)) in
      (merge_sort by_nonce promoted, sync_stats p')
  end.

(** [promote_batch], for the updates in the order they are visited. *)
Fixpoint promote_batch (updates : list (Z * Z)) (p : QueuedPool) :
    list (PrevalidatedTx * option bytes) * QueuedPool :=
  match updates with
  | [] => ([], p)
  | (sid, n) :: rest =>
      let '(l, p1) := promote sid n p in
      let '(l', p2) := promote_batch rest p1 in (l ++ l', p2)
  end.

(** One account of [cleanup_expired]. *)
Definition expire_account (now : Z) (p : QueuedPool) (e : Z * AccountQueue) : QueuedPool :=
  let kept := filter (fun kt => duration_since now (queued_at kt.2) < ttl (config p)) (txs e.2) in
  let removed := Z.of_nat (size (txs e.2)) - Z.of_nat (size kept) in
  let s := stats p in
  let p := set_stats (mkStats (total_queued s) (accounts_with_queued s) (total_promoted s)
      (wrap U64_MAX (total_expired s + removed)) (total_rejected_full s)
      (total_rejected_gap_too_large s))
    (set_total (saturating_sub (total p) removed) p) in
  set_accounts (shrink e.1 kept (aq_sender_address e.2) (accounts p)) p.

(** [cleanup_expired]; emptied accounts are removed as they are met. *)
Definition cleanup_expired (now : Z) (p : QueuedPool) : QueuedPool :=
  if duration_since now (last_cleanup p) <? cleanup_interval (config p) then p
  else sync_stats (fold_left (expire_account now) (map_to_list (accounts p)) (set_last_cleanup now p)).

(** ** The abstract content: at most one transaction per sender and nonce *)

Definition queued (p : QueuedPool) (sid n : Z) : option QueuedTx :=
  accounts p !! sid ≫= fun q => txs q !! n.

Definition config_ok (c : QueuedPoolConfig) : Prop :=
  0 <= max_per_account c /\ in_range U64_MAX (max_total c).

(** What a queued transaction satisfies. *)
Definition queued_ok (c : QueuedPoolConfig) (sid n : Z) (t : QueuedTx) : Prop :=
  sender_id (pv t) = sid /\ nonce (pv t) = n /\ in_range U64_MAX n /\
  n - account_nonce_at_queue t <= max_nonce_gap c.

Definition account_ok (c : QueuedPoolConfig) (sid : Z) (q : AccountQueue) : Prop :=
  map_Forall (queued_ok c sid) (txs q) /\ len q <= max_per_account c.

Record qp_ok (p : QueuedPool) : Prop := {
  qp_total : total p = map_sum len (accounts p);
  qp_cap : total p <= max_total (config p);
  qp_accounts : map_Forall (account_ok (config p)) (accounts p);
}.

Lemma len_nonneg q : 0 <= len q.
Proof. unfold len. lia. Qed.

Lemma lens_nonneg (a : gmap Z AccountQueue) : map_Forall (fun _ q => 0 <= len q) a.
Proof. intros ? q _. apply len_nonneg. Qed.

Lemma qp_total_nonneg p : qp_ok p -> 0 <= total p.
Proof. intros H. rewrite (qp_total p H). apply map_sum_nonneg, lens_nonneg. Qed.

Lemma qp_ok_stats p s : qp_ok p -> qp_ok (set_stats s p).
Proof. intros [H1 H2 H3]. by split. Qed.

Lemma qp_ok_new c now : config_ok c -> qp_ok (new c now).
Proof. intros [? []]. split; [done|done|apply map_Forall_empty]. Qed.

(** The sender's queue, the empty one if it has none. *)
Definition queue_of (p : QueuedPool) (t : PrevalidatedTx) : AccountQueue :=
  default (AccountQueue_new (sender_address t)) (accounts p !! sender_id t).

Lemma queued_queue_of p t n : queued p (sender_id t) n = txs (queue_of p t) !! n.
Proof. unfold queued, queue_of. by destruct (accounts p !! sender_id t). Qed.

Lemma account_ok_queue_of p t : config_ok (config p) -> qp_ok p ->
  account_ok (config p) (sender_id t) (queue_of p t).
Proof.
  intros [Hc _] Hp. unfold queue_of. destruct (accounts p !! sender_id t) as [q|] eqn:E; simpl.
  - exact (qp_accounts p Hp _ _ E).
  - split; [apply map_Forall_empty|exact Hc].
Qed.

(** Giving the sender an entry changes neither the content nor the sum. *)
Lemma entry_sum p t :
  map_sum len (<[sender_id t := queue_of p t]> (accounts p)) = map_sum len (accounts p).
Proof.
  rewrite map_sum_update. unfold queue_of. destruct (accounts p !! sender_id t); simpl; [lia|done].
Qed.

Lemma entry_queued p t s n :
  queued (set_accounts (<[sender_id t := queue_of p t]> (accounts p)) p) s n = queued p s n.
Proof.
  unfold queued at 1. simpl. destruct (decide (s = sender_id t)) as [->|Hne].
  - rewrite lookup_insert_eq. simpl. by rewrite queued_queue_of.
  - by rewrite lookup_insert_ne.
Qed.

(** The state after the sender's queue took [t]. *)
Definition enqueued (t : QueuedTx) (p : QueuedPool) : QueuedPool :=
  set_accounts (<[sender_id (pv t) := mkAq (<[nonce (pv t) := t]> (txs (queue_of p (pv t))))
    (aq_sender_address (queue_of p (pv t)))]> (accounts p)) p.

Lemma queued_enqueued t p s n :
  queued (enqueued t p) s n =
  if decide (s = sender_id (pv t) /\ n = nonce (pv t)) then Some t else queued p s n.
Proof.
  unfold queued at 1, enqueued. simpl. destruct (decide (s = sender_id (pv t))) as [->|Hs].
  - rewrite lookup_insert_eq. simpl. destruct (decide (n = nonce (pv t))) as [->|Hn].
    + rewrite lookup_insert_eq. by rewrite decide_True.
    + rewrite lookup_insert_ne by done. rewrite decide_False by naive_solver. by rewrite queued_queue_of.
  - rewrite lookup_insert_ne by done. by rewrite decide_False by naive_solver.
Qed.

(** How the running total has to move. *)
Lemma enqueued_sum t p :
  map_sum len (accounts (enqueued t p)) =
  map_sum len (accounts p) + match queued p (sender_id (pv t)) (nonce (pv t)) with None => 1 | Some _ => 0 end.
Proof.
  unfold enqueued. simpl. rewrite map_sum_update, queued_queue_of.
  assert (forall q : AccountQueue, len (mkAq (<[nonce (pv t) := t]> (txs q)) (aq_sender_address q)) =
    len q + match txs q !! nonce (pv t) with None => 1 | Some _ => 0 end) as Hl.
  { intros q. unfold len. simpl. rewrite map_size_insert. destruct (txs q !! nonce (pv t)); simpl; lia. }
  rewrite Hl. unfold queue_of. destruct (accounts p !! sender_id (pv t)) as [q|]; cbn [default from_option]; unfold id.
  - lia.
  - unfold AccountQueue_new. cbn [txs]. rewrite lookup_empty. unfold len. cbn [txs]. rewrite map_size_empty. lia.
Qed.

Lemma enqueued_accounts c t p :
  map_Forall (account_ok c) (accounts p) -> account_ok c (sender_id (pv t)) (queue_of p (pv t)) ->
  queued_ok c (sender_id (pv t)) (nonce (pv t)) t ->
  (queued p (sender_id (pv t)) (nonce (pv t)) = None -> len (queue_of p (pv t)) < max_per_account c) ->
  map_Forall (account_ok c) (accounts (enqueued t p)).
Proof.
  intros Ha [Hq Hl] Ht Hcap. unfold enqueued. simpl. apply map_Forall_insert_2; [|done]. split.
  - by apply map_Forall_insert_2.
  - unfold len in *. simpl. rewrite map_size_insert. rewrite queued_queue_of in Hcap.
    destruct (txs (queue_of p (pv t)) !! nonce (pv t)); simpl; [lia|]. specialize (Hcap eq_refl). lia.
Qed.

(** Why a transaction is not queued. *)
Definition refused (p : QueuedPool) (t : PrevalidatedTx) (account_nonce : Z) (e : QueuedPoolError) : Prop :=
  match e with
  | NonceGapTooLarge _ _ _ => max_nonce_gap (config p) < nonce t - account_nonce
  | PoolFull _ _ => total p = max_total (config p)
  | AccountQueueFull _ _ _ => len (queue_of p t) = max_per_account (config p)
  | DuplicateNonce _ _ =>
      exists old, queued p (sender_id t) (nonce t) = Some old /\ max_fee t <= max_fee (pv old)
  end.

Lemma wp_try_queue now t hash acc p :
  qp_ok p -> config_ok (config p) -> in_range U64_MAX (nonce t) -> 0 <= max_nonce_gap (config p) ->
  wp (try_queue now t hash acc)
    (fun _ p' => qp_ok p' /\ config p' = config p /\
       nonce t - acc <= max_nonce_gap (config p) /\
       match queued p (sender_id t) (nonce t) with
       | None => total p < max_total (config p) /\ total p' = total p + 1
       | Some old => max_fee (pv old) < max_fee t /\ total p' = total p
       end /\
       forall s n, queued p' s n =
         if decide (s = sender_id t /\ n = nonce t) then Some (mkQt t hash now acc) else queued p s n)
    (fun e p' => qp_ok p' /\ config p' = config p /\ refused p t acc e /\ total p' = total p /\
       forall s n, queued p' s n = queued p s n) p.
Proof.
  intros Hp Hc Ht Hg0. unfold try_queue. apply wp_bind, wp_get.
  pose proof (account_ok_queue_of p t Hc Hp) as Hq. fold (queue_of p t).
  destruct (Z.gtb_spec (saturating_sub (nonce t) acc) (max_nonce_gap (config p))) as [Hg|Hg].
  { apply wp_bind, wp_modify, wp_fail. split; [by apply qp_ok_stats|].
    split; [done|]. split; [|done]. simpl. unfold saturating_sub in Hg. lia. }
  destruct (Z.geb_spec (total p) (max_total (config p))) as [Ht'|Ht'].
  { apply wp_bind, wp_modify, wp_fail. split; [by apply qp_ok_stats|].
    split; [done|]. split; [|done]. simpl. pose proof (qp_cap p Hp). lia. }
  apply wp_bind, wp_modify. set (p1 := set_accounts _ p).
  assert (qp_ok p1) as Hp1.
  { split; simpl; [rewrite entry_sum; apply Hp|apply Hp|apply map_Forall_insert_2; [done|apply Hp]]. }
  assert (forall s n, queued p1 s n = queued p s n) as Hq1 by apply entry_queued.
  assert (queue_of p1 t = queue_of p t) as Hqo.
  { unfold queue_of at 1. simpl. by rewrite lookup_insert_eq. }
  destruct (Z.geb_spec (len (queue_of p t)) (max_per_account (config p))) as [Hl|Hl].
  { apply wp_bind, wp_modify, wp_fail. split; [by apply qp_ok_stats|]. split; [done|].
    split; [|done]. simpl. destruct Hq as [_ Hq]. lia. }
  assert (queued_ok (config p) (sender_id t) (nonce t) (mkQt t hash now acc)) as Htx.
  { split; [done|]. split; [done|]. split; [done|]. simpl. unfold saturating_sub in Hg. lia. }
  assert (enqueue (queue_of p t) (mkQt t hash now acc) p1 = (Ok tt, enqueued (mkQt t hash now acc) p)) as He.
  { unfold enqueue, modify, p1, enqueued, set_accounts. simpl. do 2 f_equal. apply insert_insert_eq. }
  pose proof (enqueued_sum (mkQt t hash now acc) p) as Hsum.
  pose proof (enqueued_accounts (config p) (mkQt t hash now acc) p (qp_accounts p Hp) Hq Htx) as Hacc.
  cbn [pv] in Hsum, Hacc. rewrite <- (queued_queue_of p t (nonce t)).
  destruct (queued p (sender_id t) (nonce t)) as [old|] eqn:E.
  - destruct (Z.gtb_spec (max_fee t) (max_fee (pv old))).
    + unfold wp. rewrite He. split; [|split; [done|]].
      * split; [rewrite Hsum; simpl; rewrite (qp_total p Hp); lia|apply Hp|by apply Hacc].
      * split; [unfold saturating_sub in Hg; lia|]. split; [done|]. apply queued_enqueued.
    + apply wp_fail. split; [done|]. split; [done|]. split; [|done]. exists old. done.
  - apply wp_bind. unfold wp at 1. rewrite He. apply wp_modify.
    assert (wrap U64_MAX (total p + 1) = total p + 1) as Hw.
    { apply wrap_id. pose proof (qp_total_nonneg p Hp). destruct Hc as [_ Hc]. unfold in_range in *. lia. }
    split; [apply qp_ok_stats; split|].
    + change (wrap U64_MAX (total p + 1) = map_sum len (accounts (enqueued (mkQt t hash now acc) p))).
      rewrite Hw, Hsum, (qp_total p Hp). lia.
    + simpl. rewrite Hw. lia.
    + apply Hacc. lia.
    + split; [done|]. split; [unfold saturating_sub in Hg; lia|]. split; [by rewrite <- Hw|]. 
      apply queued_enqueued.
Qed.

(** ** Removal *)

Lemma shrink_lookup sid m a accs s k :
  (shrink sid m a accs !! s ≫= fun q => txs q !! k) =
  if decide (s = sid) then m !! k else accs !! s ≫= fun q => txs q !! k.
Proof.
  unfold shrink. case_decide as Hs; [subst s|]; case_bool_decide as Hm;
    rewrite ?lookup_delete_eq, ?lookup_insert_eq, ?lookup_delete_ne, ?lookup_insert_ne by done; [|done..].
  by rewrite Hm.
Qed.

Lemma shrink_sum sid m a accs q :
  accs !! sid = Some q -> map_sum len (shrink sid m a accs) = map_sum len accs - (len q - Z.of_nat (size m)).
Proof.
  intros Hq. unfold shrink. case_bool_decide as Hm.
  - rewrite (map_sum_delete len accs sid q Hq), Hm, map_size_empty. lia.
  - rewrite (map_sum_insert len _ _ q) by done. unfold len. cbn [txs]. lia.
Qed.

Lemma shrink_accounts c sid m a accs q :
  map_Forall (account_ok c) accs -> accs !! sid = Some q -> m ⊆ txs q ->
  map_Forall (account_ok c) (shrink sid m a accs).
Proof.
  intros Ha Hq Hm. unfold shrink. case_bool_decide; [by apply map_Forall_delete|].
  apply map_Forall_insert_2; [|done]. destruct (Ha _ _ Hq) as [Hok Hcap]. split; simpl.
  - intros k t Hk. apply Hok. by apply (lookup_weaken m).
  - unfold len in *. cbn [txs]. pose proof (map_subseteq_size _ _ Hm). lia.
Qed.

(** ** Promotion *)

(** A sorted list splits at the account nonce. *)
Lemma collect_stale n m (l : list (Z * QueuedTx)) rest :
  Forall (fun e => e.1 < n) l ->
  collect n m (l ++ rest) = ((l.*1 ++ fst (collect n m rest))%list, snd (collect n m rest)).
Proof.
  induction 1 as [|[k t] l Hk Hl IH]; simpl; [by destruct (collect n m rest)|].
  simpl in Hk. destruct (Z.ltb_spec k n); [|lia]. by rewrite IH.
Qed.

Definition out (e : Z * QueuedTx) : PrevalidatedTx * option bytes := (pv e.2, tx_hash e.2).

Lemma collect_run n m (l : list (Z * QueuedTx)) :
  0 <= n <= m -> StronglySorted entry_lt l -> Forall (fun e => m <= e.1 <= U64_MAX) l ->
  exists run rest, l = run ++ rest /\
    collect n (wrap U64_MAX m) l = (run.*1, out <$> run) /\
    run.*1 = seqZ m (Z.of_nat (length run)) /\
    Forall (fun e => m + Z.of_nat (length run) < e.1) rest.
Proof.
  revert m; induction l as [|[k t] l IH]; intros m Hnm Hs Hf.
  { exists [], []. split; [done|]. split; [done|]. split; [done|constructor]. }
  inversion Hf as [|? ? Hk Hf']; subst. simpl in Hk. destruct (entry_lt_cons_inv _ _ Hs) as [Hs' Hlt].
  simpl in Hlt. cbn [collect]. rewrite (wrap_id _ m) by (unfold in_range; lia).
  destruct (Z.ltb_spec k n); [lia|]. destruct (Z.eqb_spec k m) as [->|Hne].
  - destruct (IH (m + 1)) as (run & rest & -> & Hc & Hr & Hrest); [lia|done| |].
    { rewrite Forall_forall in *. intros [k' t'] Hin. specialize (Hlt _ _ Hin). specialize (Hf' _ Hin). simpl in *. lia. }
    exists ((m, t) :: run), rest. split; [done|]. rewrite Hc. split; [done|]. split.
    + simpl length. rewrite Nat2Z.inj_succ, seqZ_cons, fmap_cons, Hr by lia. f_equal. f_equal; lia.
    + eapply Forall_impl; [exact Hrest|]. simpl. intros e. lia.
  - exists [], ((k, t) :: l). split; [done|]. split; [done|]. split; [done|]. simpl.
    constructor; [simpl; lia|]. rewrite Forall_forall. intros [k' t'] Hin. specialize (Hlt _ _ Hin). simpl. lia.
Qed.

Lemma sorted_split n (l : list (Z * QueuedTx)) : StronglySorted entry_lt l ->
  exists stale live, l = stale ++ live /\ Forall (fun e => e.1 < n) stale /\ Forall (fun e => n <= e.1) live /\
    StronglySorted entry_lt live.
Proof.
  induction l as [|[k t] l IH]; intros Hs; [exists [], []; by split|].
  destruct (entry_lt_cons_inv _ _ Hs) as [Hs' Hlt]. simpl in Hlt. destruct (decide (k < n)).
  - destruct (IH Hs') as (stale & live & -> & ? & ? & ?). exists ((k, t) :: stale), live.
    split; [done|]. split; [by constructor|done].
  - exists [], ((k, t) :: l). split; [done|]. split; [done|]. split; [|done]. constructor; [simpl; lia|].
    rewrite Forall_forall. intros [k' t'] Hin. specialize (Hlt _ _ Hin). simpl. lia.
Qed.

Lemma fold_saturating (r : list Z) t :
  Z.of_nat (length r) <= t -> fold_left (fun t (_ : Z) => saturating_sub t 1) r t = t - Z.of_nat (length r).
Proof.
  revert t; induction r as [|n r IH]; intros t Hr; simpl in *; [lia|].
  rewrite IH; unfold saturating_sub; lia.
Qed.

(** The sender's queue seen by [promote]: stale nonces, a run of consecutive
    nonces from the account's on, and the rest beyond the first gap. *)
Lemma queue_split c sid n q :
  account_ok c sid q -> in_range U64_MAX n ->
  exists stale run rest,
    btree_iter (txs q) = stale ++ run ++ rest /\
    collect n n (btree_iter (txs q)) = ((stale ++ run).*1, out <$> run) /\
    run.*1 = seqZ n (Z.of_nat (length run)) /\
    Forall (fun e => e.1 < n) stale /\ Forall (fun e => n + Z.of_nat (length run) < e.1) rest.
Proof.
  intros [Hq _] Hn. destruct (sorted_split n (btree_iter (txs q))) as (stale & live & HL & Hst & Hlive & Hs);
    [apply btree_iter_sorted|].
  assert (Forall (fun e => n <= e.1 <= U64_MAX) live) as Hr.
  { rewrite Forall_forall in *. intros [k t] Hin. split; [by apply (Hlive (k, t))|].
    assert ((k, t) ∈ btree_iter (txs q)) as Hk by (rewrite HL; apply elem_of_app; by right).
    apply elem_of_btree_iter in Hk. destruct (Hq k t Hk) as (_ & _ & [_ ?] & _). done. }
  unfold in_range in Hn. destruct (collect_run n n live) as (run & rest & -> & Hc & Hrun & Hrest); [lia|done|done|].
  exists stale, run, rest. split; [done|]. split; [|done].
  rewrite HL, collect_stale by done. rewrite (wrap_id _ n) in Hc by done. rewrite Hc. simpl.
  by rewrite fmap_app.
Qed.

(** What [promote] does to the sender's map. *)
Lemma promoted_txs q stale run rest n :
  btree_iter (txs q) = stale ++ run ++ rest -> run.*1 = seqZ n (Z.of_nat (length run)) ->
  Forall (fun e => e.1 < n) stale -> Forall (fun e => n + Z.of_nat (length run) < e.1) rest ->
  let m := fold_left (fun m n => delete n m) ((stale ++ run).*1) (txs q) in
  (forall k, m !! k = if decide (k < n + Z.of_nat (length run)) then None else txs q !! k) /\
  btree_iter m = rest.
Proof.
  intros HL Hrun Hst Hrest m. rewrite Forall_forall in Hst, Hrest.
  assert (forall k, k ∈ (stale ++ run).*1 -> k < n + Z.of_nat (length run)) as Hlow.
  { intros k. rewrite fmap_app, elem_of_app, Hrun, elem_of_seqZ. intros [Hk|Hk]; [|lia].
    apply list_elem_of_fmap in Hk as ([k' t] & -> & Hk). specialize (Hst _ Hk). simpl in *. lia. }
  assert (forall k, m !! k = if decide (k < n + Z.of_nat (length run)) then None else txs q !! k) as Hm.
  { intros k. unfold m. rewrite fold_delete_lookup. destruct (decide (k ∈ (stale ++ run).*1)) as [Hk|Hk].
    - by rewrite decide_True by auto.
    - case_decide as Hlt; [|done]. destruct (txs q !! k) as [t|] eqn:E; [|done]. exfalso.
      apply elem_of_btree_iter in E. rewrite HL, app_assoc, elem_of_app in E. destruct E as [E|E].
      + apply Hk. apply list_elem_of_fmap. by exists (k, t).
      + specialize (Hrest _ E). simpl in Hrest. lia. }
  split; [done|]. apply entry_lt_ext; [apply btree_iter_sorted| |].
  - pose proof (btree_iter_sorted (txs q)) as Hs. rewrite HL, app_assoc in Hs.
    clear -Hs. induction (stale ++ run) as [|e l IH]; [done|]. simpl in Hs. inversion Hs; subst. by apply IH.
  - intros [k t]. rewrite elem_of_btree_iter, Hm. split.
    + case_decide as Hlt; [done|]. intros E. apply elem_of_btree_iter in E.
      rewrite HL, app_assoc, elem_of_app in E. destruct E as [E|E]; [|done]. exfalso. apply Hlt, Hlow.
      apply list_elem_of_fmap. by exists (k, t).
    + intros Hin. rewrite decide_False.
      * apply elem_of_btree_iter. rewrite HL, app_assoc, elem_of_app. by right.
      * specialize (Hrest _ Hin). simpl in Hrest. lia.
Qed.

(** The final sort changes nothing. *)
Lemma sort_promoted c sid q run : account_ok c sid q -> (forall e, e ∈ run -> e ∈ btree_iter (txs q)) ->
  StronglySorted entry_lt run -> merge_sort by_nonce (out <$> run) = out <$> run.
Proof.
  intros [Hq _] Hin Hs.
  assert (forall e, e ∈ run -> nonce (pv e.2) = e.1 /\ txs q !! e.1 = Some e.2) as Hkey.
  { intros [k t] He. apply Hin, elem_of_btree_iter in He. by destruct (Hq k t He) as (_ & Hn & _). }
  apply (StronglySorted_unique_strong by_nonce).
  - intros x y Hx Hy Hxy Hyx. rewrite (merge_sort_Permutation by_nonce) in Hx.
    apply list_elem_of_fmap in Hx as (e & -> & He), Hy as (e' & -> & He').
    destruct (Hkey _ He) as [H1 H2], (Hkey _ He') as [H3 H4]. unfold by_nonce, out in *. simpl in *.
    assert (e.1 = e'.1) as Hee by lia. rewrite Hee in H2. rewrite H2 in H4. by injection H4 as ->.
  - apply StronglySorted_merge_sort; intros ?*; unfold by_nonce; lia.
  - clear Hin. induction run as [|e run IH]; [constructor|].
    assert (forall e', e' ∈ run -> e.1 < e'.1) as Hlt.
    { destruct (entry_lt_cons_inv _ _ Hs) as [_ Hlt]. intros [k t]. apply Hlt. }
    apply entry_lt_cons_inv in Hs as [Hs _]. simpl. constructor.
    + apply IH; [done|]. intros e' He'. apply Hkey. by right.
    + apply Forall_forall. intros x Hx. apply list_elem_of_fmap in Hx as (e' & -> & He').
      unfold by_nonce, out. simpl. specialize (Hlt _ He').
      rewrite (proj1 (Hkey e ltac:(by left))), (proj1 (Hkey e' ltac:(by right))). lia.
  - apply merge_sort_Permutation.
Qed.

(** What [promote] returns and leaves, on a well-formed pool. *)
Lemma promote_spec (sid n : Z) (p : QueuedPool) :
  qp_ok p -> in_range U64_MAX n ->
  let '(l, p') := promote sid n p in
  qp_ok p' /\ config p' = config p /\
  (forall i x, l !! i = Some x -> exists t, queued p sid (n + Z.of_nat i) = Some t /\ x = (pv t, tx_hash t)) /\
  queued p sid (n + Z.of_nat (length l)) = None /\
  forall s k, queued p' s k =
    if decide (s = sid /\ k < n + Z.of_nat (length l)) then None else queued p s k.
Proof.
  intros Hp Hn. unfold promote. destruct (accounts p !! sid) as [q|] eqn:E.
  2: { assert (forall k, queued p sid k = None) as H0 by (intros k; unfold queued; by rewrite E).
       split; [done|]. split; [done|]. split; [by intros i x Hi|]. split; [done|].
       intros s k. case_decide as Hs; [|done]. destruct Hs as [-> _]. done. }
  pose proof (qp_accounts p Hp _ _ E) as Hq.
  destruct (queue_split _ _ n q Hq Hn) as (stale & run & rest & HL & Hc & Hrun & Hst & Hrest).
  rewrite Hc. destruct (promoted_txs q stale run rest n HL Hrun Hst Hrest) as [Hm Hiter].
  set (m := fold_left (fun m n => delete n m) ((stale ++ run).*1) (txs q)) in *.
  assert (merge_sort by_nonce (out <$> run) = out <$> run) as ->.
  { apply (sort_promoted _ _ _ _ Hq).
    - intros e He. rewrite HL, !elem_of_app. auto.
    - pose proof (btree_iter_sorted (txs q)) as Hs. rewrite HL in Hs.
      apply StronglySorted_app in Hs as (_ & _ & Hs). by apply StronglySorted_app in Hs as (_ & Hs & _). }
  assert (len q = Z.of_nat (length (stale ++ run).*1) + Z.of_nat (length rest)) as Hlq.
  { unfold len. rewrite <- length_btree_iter, HL, app_assoc, length_app, length_fmap. lia. }
  assert (Z.of_nat (size m) = Z.of_nat (length rest)) as Hlm by (by rewrite <- length_btree_iter, Hiter).
  assert (len q <= total p) as Hle.
  { rewrite (qp_total p Hp). apply (map_sum_lookup_le len _ sid); [apply lens_nonneg|done]. }
  rewrite fold_saturating by lia.
  assert (m ⊆ txs q) as Hsub.
  { apply map_subseteq_spec. intros k t. rewrite Hm. by case_decide. }
  pose proof (shrink_sum sid m (aq_sender_address q) (accounts p) q E) as Hsum.
  split; [|split; [done|split; [|split]]].
  - apply qp_ok_stats, qp_ok_stats. split; simpl;
      [rewrite Hsum, <- (qp_total p Hp); lia|pose proof (qp_cap p Hp); lia|].
    by apply (shrink_accounts _ _ _ _ _ q); [apply Hp| |].
  - intros i x Hx. apply list_lookup_fmap_Some in Hx as ([k t] & -> & Hi).
    exists t. split; [|done]. unfold queued. rewrite E. simpl.
    assert (run.*1 !! i = Some k) as Hk by (by rewrite list_lookup_fmap, Hi).
    rewrite Hrun in Hk. apply lookup_seqZ in Hk as [-> _].
    apply elem_of_btree_iter. rewrite HL, !elem_of_app. right. left. by eapply list_elem_of_lookup_2.
  - rewrite length_fmap. unfold queued. rewrite E. simpl.
    destruct (txs q !! (n + Z.of_nat (length run))) as [t|] eqn:Et; [|done]. exfalso.
    assert (m !! (n + Z.of_nat (length run)) = Some t) as Hk by (rewrite Hm, decide_False by lia; done).
    apply elem_of_btree_iter in Hk. rewrite Hiter in Hk. rewrite Forall_forall in Hrest.
    specialize (Hrest _ Hk). simpl in Hrest. lia.
  - intros s k. rewrite length_fmap. unfold queued at 1. simpl. rewrite shrink_lookup, Hm.
    unfold queued. destruct (decide (s = sid)) as [->|Hs]; [|by rewrite (decide_False (P := _ /\ _)) by tauto].
    rewrite E. simpl. destruct (decide (k < n + Z.of_nat (length run))); [by rewrite decide_True|].
    by rewrite decide_False by tauto.
Qed.

(** ** Expiry *)

Definition fresh (c : QueuedPoolConfig) (now : Z) (t : QueuedTx) : bool :=
  duration_since now (queued_at t) <? ttl c.

Definition survivor (c : QueuedPoolConfig) (now : Z) (o : option QueuedTx) : option QueuedTx :=
  t ← o; if fresh c now t then Some t else None.

Lemma filter_survivor c now (m : gmap Z QueuedTx) k :
  filter (fun kt => duration_since now (queued_at kt.2) < ttl c) m !! k = survivor c now (m !! k).
Proof.
  unfold survivor, fresh. destruct (m !! k) as [t|] eqn:E; simpl.
  - destruct (Z.ltb_spec (duration_since now (queued_at t)) (ttl c)).
    + by apply map_lookup_filter_Some_2.
    + apply map_lookup_filter_None_2. right. intros t' Ht'. rewrite E in Ht'. injection Ht' as <-. simpl. lia.
  - apply map_lookup_filter_None_2. by left.
Qed.

Lemma expire_account_ok now p sid q :
  qp_ok p -> accounts p !! sid = Some q ->
  qp_ok (expire_account now p (sid, q)) /\ config (expire_account now p (sid, q)) = config p /\
  (forall s, s <> sid -> accounts (expire_account now p (sid, q)) !! s = accounts p !! s) /\
  forall s k, queued (expire_account now p (sid, q)) s k =
    if decide (s = sid) then survivor (config p) now (queued p s k) else queued p s k.
Proof.
  intros Hp Hq. unfold expire_account. cbn [fst snd].
  set (m := filter _ (txs q)).
  assert (m ⊆ txs q) as Hm by apply map_filter_subseteq.
  pose proof (map_subseteq_size _ _ Hm) as Hsize.
  assert (len q <= total p) as Hle.
  { rewrite (qp_total p Hp). apply (map_sum_lookup_le len _ sid); [apply lens_nonneg|done]. }
  unfold len in Hle. split; [|split; [done|split]].
  - split; simpl.
    + rewrite (shrink_sum _ _ _ _ q Hq), <- (qp_total p Hp). unfold len, saturating_sub. lia.
    + pose proof (qp_cap p Hp). unfold saturating_sub. lia.
    + by apply (shrink_accounts _ _ _ _ _ q); [apply Hp| |].
  - intros s Hs. simpl. unfold shrink. case_bool_decide; [by rewrite lookup_delete_ne|by rewrite lookup_insert_ne].
  - intros s k. unfold queued at 1. simpl. rewrite shrink_lookup. case_decide as Hs; [subst s|done].
    unfold m. rewrite filter_survivor. unfold queued. by rewrite Hq.
Qed.

Lemma expire_fold now l p :
  qp_ok p -> NoDup l.*1 -> (forall e, e ∈ l -> accounts p !! e.1 = Some e.2) ->
  qp_ok (fold_left (expire_account now) l p) /\
  config (fold_left (expire_account now) l p) = config p /\
  forall s k, queued (fold_left (expire_account now) l p) s k =
    if decide (s ∈ l.*1) then survivor (config p) now (queued p s k) else queued p s k.
Proof.
  revert p; induction l as [|[sid q] l IH]; intros p Hp Hnd Hin; [done|]. simpl.
  simpl in Hnd. apply NoDup_cons in Hnd as [Hsid Hnd].
  destruct (expire_account_ok now p sid q Hp (Hin (sid, q) ltac:(by left))) as (Hp1 & Hc1 & Ho1 & Hq1).
  destruct (IH (expire_account now p (sid, q)) Hp1 Hnd) as (Hp2 & Hc2 & Hq2).
  { intros e He. rewrite Ho1; [apply Hin; by right|]. intros Heq. apply Hsid. rewrite <- Heq.
    by apply list_elem_of_fmap_2. }
  split; [done|]. split; [congruence|]. intros s k. rewrite Hq2, Hq1, Hc1.
  destruct (decide (s = sid)) as [->|Hne].
  - by rewrite decide_False, decide_True by (done || by left).
  - destruct (decide (s ∈ l.*1)); [by rewrite decide_True by (by right)|].
    rewrite decide_False; [done|]. rewrite elem_of_cons. tauto.
Qed.

Lemma cleanup_correct now p :
  qp_ok p ->
  qp_ok (cleanup_expired now p) /\ config (cleanup_expired now p) = config p /\
  forall s k, queued (cleanup_expired now p) s k =
    if duration_since now (last_cleanup p) <? cleanup_interval (config p) then queued p s k
    else survivor (config p) now (queued p s k).
Proof.
  intros Hp. unfold cleanup_expired. destruct (_ <? _); [done|].
  destruct (expire_fold now (map_to_list (accounts p)) (set_last_cleanup now p)) as (H1 & H2 & H3).
  - destruct Hp. by split.
  - apply NoDup_fst_map_to_list.
  - intros [s q] He. by apply elem_of_map_to_list in He.
  - split; [by apply qp_ok_stats|]. split; [done|]. intros s k.
    change (queued (fold_left (expire_account now) (map_to_list (accounts p)) (set_last_cleanup now p)) s k =
      survivor (config p) now (queued p s k)).
    rewrite H3. case_decide as Hs; [done|]. change (queued (set_last_cleanup now p) s k) with (queued p s k).
    unfold queued. destruct (accounts p !! s) as [q|] eqn:E; [|done]. exfalso. apply Hs.
    apply list_elem_of_fmap. exists (s, q). split; [done|]. by apply elem_of_map_to_list.
Qed.

(** ** Reachable pools *)

Inductive op :=
| TryQueue (now : Z) (t : PrevalidatedTx) (hash : option bytes) (account_nonce : Z)
| Promote (sid n : Z)
| Cleanup (now : Z).

Definition op_ok (o : op) : Prop :=
  match o with
  | TryQueue _ t _ _ => in_range U64_MAX (nonce t)
  | Promote _ n => in_range U64_MAX n
  | Cleanup _ => True
  end.

Definition apply_op (p : QueuedPool) (o : op) : QueuedPool :=
  match o with
  | TryQueue now t h n => snd (try_queue now t h n p)
  | Promote sid n => snd (promote sid n p)
  | Cleanup now => cleanup_expired now p
  end.

Definition pool_after (c : QueuedPoolConfig) (now : Z) (ops : list op) : QueuedPool :=
  fold_left apply_op ops (new c now).

Lemma queue_op_ok p o : config_ok (config p) -> 0 <= max_nonce_gap (config p) -> qp_ok p -> op_ok o ->
  qp_ok (apply_op p o) /\ config (apply_op p o) = config p.
Proof.
  intros Hc Hg Hp Ho. destruct o as [now t h n|sid n|now]; simpl.
  - pose proof (wp_try_queue now t h n p Hp Hc Ho Hg) as Hw. unfold wp in Hw.
    destruct (try_queue now t h n p) as [[[]|e] p']; simpl; tauto.
  - pose proof (promote_spec sid n p Hp Ho) as Hw. destruct (promote sid n p) as [l p']. simpl. tauto.
  - pose proof (cleanup_correct now p Hp). tauto.
Qed.

Lemma reachable_ok c now ops : config_ok c -> 0 <= max_nonce_gap c -> Forall op_ok ops ->
  qp_ok (pool_after c now ops) /\ config (pool_after c now ops) = c.
Proof.
  intros Hc Hg Ho. unfold pool_after. assert (qp_ok (new c now) /\ config (new c now) = c) as H0.
  { split; [by apply qp_ok_new|done]. }
  revert H0. generalize (new c now). induction Ho as [|o ops Ho Hops IH]; intros p [Hp Hpc]; [done|].
  simpl. apply IH. destruct (queue_op_ok p o) as [? E]; [by rewrite Hpc..|done|done|]. by rewrite E.
Qed.

(** The books of the queued pool.  After any sequence of queueing,
    promotion and clean-up, refused requests included, the running total is
    the number of transactions held, neither the pool nor an account exceeds
    its cap, and every transaction is filed under its own sender and nonce,
    within the nonce gap it was accepted with. *)
Theorem queued_pool_reachable (c : QueuedPoolConfig) (now : Z) (ops : list op) :
  config_ok c -> 0 <= max_nonce_gap c -> Forall op_ok ops ->
  let p := pool_after c now ops in
  total p = map_sum len (accounts p) /\ total p <= max_total c /\
  (forall sid q, accounts p !! sid = Some q -> len q <= max_per_account c) /\
  forall sid n t, queued p sid n = Some t ->
    sender_id (pv t) = sid /\ nonce (pv t) = n /\ n - account_nonce_at_queue t <= max_nonce_gap c.
Proof.
  intros Hc Hg Ho p. destruct (reachable_ok c now ops Hc Hg Ho) as [Hp E]. fold p in Hp, E.
  split; [apply Hp|]. split; [rewrite <- E; apply Hp|]. rewrite <- E. split.
  - intros sid q Hq. by destruct (qp_accounts p Hp _ _ Hq).
  - intros sid n t Hq. unfold queued in Hq. destruct (accounts p !! sid) as [q|] eqn:Eq; [|done].
    destruct (qp_accounts p Hp _ _ Eq) as [Hok _]. destruct (Hok _ _ Hq) as (? & ? & _ & ?). done.
Qed.

(** Promotion releases exactly the executable run.  In every reachable
    pool the transactions come out in nonce order, one for each consecutive
    nonce from the account's on; the run is maximal; what is left of the
    sender's queue lies beyond the gap, stale transactions are gone, other
    senders keep theirs, and the total has dropped accordingly. *)
Theorem promote_correct (c : QueuedPoolConfig) (now : Z) (ops : list op) (sid n : Z) :
  config_ok c -> 0 <= max_nonce_gap c -> Forall op_ok ops -> in_range U64_MAX n ->
  let p := pool_after c now ops in
  let '(l, p') := promote sid n p in
  (forall i x, l !! i = Some x -> exists t, queued p sid (n + Z.of_nat i) = Some t /\ x = (pv t, tx_hash t)) /\
  queued p sid (n + Z.of_nat (length l)) = None /\
  (forall s k, queued p' s k =
    if decide (s = sid /\ k < n + Z.of_nat (length l)) then None else queued p s k) /\
  total p' = map_sum len (accounts p').
Proof.
  intros Hc Hg Ho Hn p. destruct (reachable_ok c now ops Hc Hg Ho) as [Hp _]. fold p in Hp.
  pose proof (promote_spec sid n p Hp Hn) as H. destruct (promote sid n p) as [l p'].
  destruct H as (Hp' & _ & ? & ? & ?). split; [done|]. split; [done|]. split; [done|apply Hp'].
Qed.

(** *** A pool with a gap *)

Definition pv0 (sid n fee : Z) : PrevalidatedTx := mkPv sid (zeros 32) n fee 0 n Financial None.
Definition gap_ops : list op :=
  [TryQueue 0 (pv0 1 6 10) None 5; TryQueue 0 (pv0 1 7 10) None 5; TryQueue 0 (pv0 1 9 10) None 5;
   TryQueue 0 (pv0 1 7 20) None 5; TryQueue 0 (pv0 2 6 10) None 5; TryQueue 0 (pv0 1 9000 10) None 5].

Lemma default_config_ok : config_ok QueuedPoolConfig_default.
Proof. split; [done|]. unfold in_range. simpl. mlia. Qed.

Lemma gap_ops_ok : Forall op_ok gap_ops.
Proof. repeat constructor; simpl; unfold in_range; mlia. Qed.

Lemma queued_pool_reachable_witness :
  total (pool_after QueuedPoolConfig_default 0 gap_ops) =
  map_sum len (accounts (pool_after QueuedPoolConfig_default 0 gap_ops)).
Proof.
  apply (queued_pool_reachable QueuedPoolConfig_default 0 gap_ops);
    [apply default_config_ok|done|apply gap_ops_ok].
Defined.

Lemma promote_correct_witness :
  fst (promote 1 6 (pool_after QueuedPoolConfig_default 0 gap_ops)) =
    [(pv0 1 6 10, None); (pv0 1 7 20, None)] /\
  queued (pool_after QueuedPoolConfig_default 0 gap_ops) 1 8 = None.
Proof.
  pose proof (promote_correct QueuedPoolConfig_default 0 gap_ops 1 6 default_config_ok
    ltac:(done) gap_ops_ok ltac:(unfold in_range; mlia)) as H. cbv zeta in H.
  split; [vm_compute; reflexivity|].
  assert (fst (promote 1 6 (pool_after QueuedPoolConfig_default 0 gap_ops)) =
    [(pv0 1 6 10, None); (pv0 1 7 20, None)]) as E by (vm_compute; reflexivity).
  destruct (promote 1 6 (pool_after QueuedPoolConfig_default 0 gap_ops)) as [l p'].
  simpl in E. subst l. apply H.
Defined.

End Queued.
