(* ===== verification/Replay.v ===== *)
(** * Replay prevention

    [savitri-mempool/src/mempool/replay_prevention.rs]: recently executed
    transaction hashes and the last executed nonce of each account.

    The hash cache is the third-party crate [lru]: a class with the
    operations used and the documented behaviour of each; the list instance
    below satisfies it.  Locks are taken and released within each call, so a
    call is one step. *)

From S2P Require Import Prelude Account Fee.

(** [LruCache<[u8; 32], V>]. *)
Class LruCache (V : Type) := {
  lru : Type;
  lru_new : nat -> lru;
  lru_put : bytes -> V -> lru -> lru;
  lru_contains : bytes -> lru -> bool;
  lru_peek_lru : lru -> option (bytes * V);
  lru_pop_lru : lru -> lru;
  lru_len : lru -> nat;
  lru_clear : lru -> lru;
}.

(** [lru_entries]: the entries, most recently used first. *)
Class LruLaws (V : Type) `{LruCache V} := {
  lru_entries : lru -> list (bytes * V);
  lru_cap : lru -> nat;
  lru_new_spec n : (lru_entries (lru_new n), lru_cap (lru_new n)) = ([], n);
  lru_put_spec k v c : lru_entries (lru_put k v c) =
    take (lru_cap c) ((k, v) :: filter (fun e => e.1 <> k) (lru_entries c));
  lru_put_cap k v c : lru_cap (lru_put k v c) = lru_cap c;
  lru_contains_spec k c : lru_contains k c = bool_decide (k ∈ (lru_entries c).*1);
  lru_peek_spec c : lru_peek_lru c = last (lru_entries c);
  lru_pop_spec c : lru_entries (lru_pop_lru c) = removelast (lru_entries c);
  lru_pop_cap c : lru_cap (lru_pop_lru c) = lru_cap c;
  lru_len_spec c : lru_len c = length (lru_entries c);
  lru_clear_spec c : (lru_entries (lru_clear c), lru_cap (lru_clear c)) = ([], lru_cap c);
}.

Module Replay.

Record ReplayPreventionConfig := {
  max_hash_cache_size : nat;
  max_nonce_cache_size : nat;
  cache_ttl_blocks : Z;
  cleanup_interval_blocks : Z;
}.
Definition ReplayPreventionConfig_default : ReplayPreventionConfig := {|
  max_hash_cache_size := Z.to_nat 100000; max_nonce_cache_size := Z.to_nat 50000; cache_ttl_blocks := 1000;
  cleanup_interval_blocks := 100 |}.

Record ReplayEntry := mkRe {
  block_height : Z;
  re_created_at : Z;
  re_sender_address : bytes;
  re_nonce : Z;
}.
Record NonceEntry := mkNe {
  current_nonce : Z;
  last_updated : Z;
  ne_created_at : Z;
}.

Inductive ReplayPreventionError :=
| NonceTooOld (account_nonce tx_nonce : Z)
| NonceTooFar (account_nonce tx_nonce : Z)
| StorageError.

Section Replay.
Context `{LruCache ReplayEntry}.

Record ReplayPrevention := mkRp {
  config : ReplayPreventionConfig;
  hash_cache : lru;
  nonce_cache : gmap bytes NonceEntry;
  storage : ContractFee.AccountDb;
  current_block_height : Z;
  last_cleanup_height : Z;
}.
Definition set_hash_cache (c : lru) (r : ReplayPrevention) : ReplayPrevention :=
  mkRp (config r) c (nonce_cache r) (storage r) (current_block_height r) (last_cleanup_height r).
Definition set_nonce_cache (c : gmap bytes NonceEntry) (r : ReplayPrevention) : ReplayPrevention :=
  mkRp (config r) (hash_cache r) c (storage r) (current_block_height r) (last_cleanup_height r).
Definition set_height (h : Z) (r : ReplayPrevention) : ReplayPrevention :=
  mkRp (config r) (hash_cache r) (nonce_cache r) (storage r) h (last_cleanup_height r).
Definition set_cleanup_height (h : Z) (r : ReplayPrevention) : ReplayPrevention :=
  mkRp (config r) (hash_cache r) (nonce_cache r) (storage r) (current_block_height r) h.

(** [NonZeroUsize::new(..).unwrap()] panics on zero: [None]. *)
Definition new (c : ReplayPreventionConfig) (db : ContractFee.AccountDb) : option ReplayPrevention :=
  match max_hash_cache_size c with
  | O => None
  | S _ => Some (mkRp c (lru_new (max_hash_cache_size c)) ∅ db 0 0)
  end.

(** The loop of [cleanup_expired_entries] over the hash cache. *)
Fixpoint pop_expired (fuel : nat) (cutoff : Z) (c : lru) : lru :=
  match fuel with
  | O => c
  | S fuel' =>
      match lru_peek_lru c with
      | Some (_, e) => if block_height e <? cutoff then pop_expired fuel' cutoff (lru_pop_lru c) else c
      | None => c
      end
  end.

Definition cleanup_expired_entries (current_height : Z) (r : ReplayPrevention) : ReplayPrevention :=
  let cutoff := if current_height >? cache_ttl_blocks (config r)
    then current_height - cache_ttl_blocks (config r) else 0 in
  set_nonce_cache (filter (fun ke => ~ last_updated ke.2 < cutoff) (nonce_cache r))
    (set_hash_cache (pop_expired (lru_len (hash_cache r)) cutoff (hash_cache r)) r).

Definition update_block_height (new_height : Z) (r : ReplayPrevention) : ReplayPrevention :=
  let r := set_height new_height r in
  if new_height >=? wrap U64_MAX (last_cleanup_height r + cleanup_interval_blocks (config r)) then
    cleanup_expired_entries new_height (set_cleanup_height new_height r)
  else r.

Definition is_replay_transaction (tx_hash sender_address : bytes) (nonce : Z) (r : ReplayPrevention) : bool :=
  if lru_contains tx_hash (hash_cache r) then true
  else match nonce_cache r !! sender_address with
       | Some e => nonce <? current_nonce e
       | None => false
       end.

(** [record_transaction_execution]; it never fails. *)
Definition record_transaction_execution (now : Z) (tx_hash sender_address : bytes) (nonce block_height : Z)
    (r : ReplayPrevention) : ReplayPrevention :=
  let r := if block_height >? current_block_height r then set_height block_height r else r in
  let r := set_hash_cache (lru_put tx_hash (mkRe block_height now sender_address nonce) (hash_cache r)) r in
  let e := default (mkNe 0 (current_block_height r) now) (nonce_cache r !! sender_address) in
  let e := if nonce >? current_nonce e
    then mkNe nonce (current_block_height r) (ne_created_at e) else e in
  set_nonce_cache (<[sender_address := e]> (nonce_cache r)) r.

(** [storage.get_account]. *)
Definition load (db : ContractFee.AccountDb) (a : bytes) :
    result ReplayPreventionError (option Acct.Account) :=
  match db a with
  | Err _ => Err StorageError
  | Ok None => Ok None
  | Ok (Some b) => match Acct.decode b with Ok acc => Ok (Some acc) | Err _ => Err StorageError end
  end.

Definition validate_transaction_nonce (sender_address : bytes) (tx_nonce : Z) (r : ReplayPrevention) :
    result ReplayPreventionError unit :=
  match load (storage r) sender_address with
  | Err e => Err e
  | Ok None => if negb (tx_nonce =? 0) then Err (NonceTooFar 0 tx_nonce) else Ok tt
  | Ok (Some account) =>
      if tx_nonce <? Acct.nonce account then Err (NonceTooOld (Acct.nonce account) tx_nonce)
      else if tx_nonce >? wrap U64_MAX (Acct.nonce account + 4000)
      then Err (NonceTooFar (Acct.nonce account) tx_nonce)
      else Ok tt
  end.

Definition get_account_nonce (sender_address : bytes) (r : ReplayPrevention) :
    result ReplayPreventionError Z :=
  match nonce_cache r !! sender_address with
  | Some e => Ok (current_nonce e)
  | None =>
      match load (storage r) sender_address with
      | Err e => Err e
      | Ok None => Ok 0
      | Ok (Some account) => Ok (Acct.nonce account)
      end
  end.

Definition clear_caches (r : ReplayPrevention) : ReplayPrevention :=
  set_nonce_cache ∅ (set_hash_cache (lru_clear (hash_cache r)) r).
End Replay.

(** ** Facts *)

Section Facts.
Context `{LruLaws ReplayEntry}.

Lemma take_S_cons {A} n (x : A) l : (0 < n)%nat -> take n (x :: l) = x :: take (n - 1) l.
Proof. destruct n; [lia|]. simpl. by rewrite Nat.sub_0_r. Qed.

(** What replay prevention recognises.  Once an execution has been
    recorded, its hash is a replay, whoever claims to send it, and so is any
    smaller nonce of the same sender; but the nonce just executed is not,
    under another hash. *)
Theorem recorded_is_replay (now : Z) (h a other : bytes) (n ht k : Z) (r : ReplayPrevention) :
  (0 < lru_cap (hash_cache r))%nat -> 0 <= n ->
  let r' := record_transaction_execution now h a n ht r in
  is_replay_transaction h other k r' = true /\
  (k < n -> is_replay_transaction other a k r' = true) /\
  (other <> h -> lru_contains other (hash_cache r) = false ->
   (forall e, nonce_cache r !! a = Some e -> current_nonce e <= n) ->
   is_replay_transaction other a n r' = false).
Proof.
  intros Hcap Hn r'. unfold is_replay_transaction.
  set (r1 := if ht >? current_block_height r then set_height ht r else r) in *.
  assert (hash_cache r1 = hash_cache r /\ nonce_cache r1 = nonce_cache r) as [Hh Hnc]
    by (unfold r1; by destruct (ht >? _)).
  assert (hash_cache r' = lru_put h (mkRe ht now a n) (hash_cache r)) as -> by (unfold r'; simpl; by rewrite <- Hh).
  assert (exists e, nonce_cache r' !! a = Some e /\ current_nonce e =
    Z.max n (from_option current_nonce 0 (nonce_cache r !! a))) as (e & -> & He).
  { eexists. split; [unfold r', record_transaction_execution; simpl; fold r1; apply lookup_insert_eq|].
    rewrite Hnc. destruct (nonce_cache r !! a) as [e|]; cbn [default from_option id current_nonce].
    - destruct (Z.gtb_spec n (current_nonce e)); simpl; lia.
    - destruct (Z.gtb_spec n 0); simpl; lia. }
  rewrite !lru_contains_spec, lru_put_spec, take_S_cons by done. split; [|split].
  - by rewrite bool_decide_eq_true_2 by (left; done).
  - intros Hk. destruct (bool_decide _); [done|]. apply Z.ltb_lt. lia.
  - intros Hne Hnot Hle. rewrite bool_decide_eq_false_2.
    + apply Z.ltb_ge. rewrite He. destruct (nonce_cache r !! a) as [e0|]; simpl; [|lia].
      specialize (Hle _ eq_refl). lia.
    + apply bool_decide_eq_false in Hnot.
      simpl. rewrite elem_of_cons. intros [?|Hin]; [done|]. apply Hnot.
      apply list_elem_of_fmap in Hin as (p & -> & Hp). apply list_elem_of_fmap. exists p. split; [done|].
      apply subseteq_take in Hp. by apply list_elem_of_filter in Hp as [_ ?].
Qed.
End Facts.

(** The list instance. *)
#[global] Instance lru_list (V : Type) : LruCache V := {|
  lru := nat * list (bytes * V);
  lru_new := fun n => (n, []);
  lru_put := fun k v c => (c.1, take c.1 ((k, v) :: filter (fun e => e.1 <> k) c.2));
  lru_contains := fun k c => bool_decide (k ∈ c.2.*1);
  lru_peek_lru := fun c => last c.2;
  lru_pop_lru := fun c => (c.1, removelast c.2);
  lru_len := fun c => length c.2;
  lru_clear := fun c => (c.1, []);
|}.
#[global] Instance lru_list_laws (V : Type) : LruLaws V := {|
  lru_entries := snd; lru_cap := fst;
  lru_new_spec := fun _ => eq_refl; lru_put_spec := fun _ _ _ => eq_refl;
  lru_put_cap := fun _ _ _ => eq_refl; lru_contains_spec := fun _ _ => eq_refl;
  lru_peek_spec := fun _ => eq_refl; lru_pop_spec := fun _ => eq_refl; lru_pop_cap := fun _ => eq_refl;
  lru_len_spec := fun _ => eq_refl; lru_clear_spec := fun _ => eq_refl;
|}.

Definition rp0 : ReplayPrevention := mkRp ReplayPreventionConfig_default (lru_new 4) ∅ (fun _ => Ok None) 0 0.

Lemma recorded_is_replay_witness :
  is_replay_transaction [Byte.x02] [Byte.x07] 5
    (record_transaction_execution 0 [Byte.x01] [Byte.x07] 5 9 rp0) = false.
Proof.
  apply (recorded_is_replay 0 [Byte.x01] [Byte.x07] [Byte.x02] 5 9 5 rp0);
    [vm_compute; lia|done|done|done|]. intros e He. vm_compute in He. discriminate He.
Defined.

End Replay.
