(* ===== verification/Admission.v ===== *)
(** * Admission control

    [savitri-mempool/src/mempool/admission.rs]: every transaction passes here
    on its way into the mempool; the policies keep per-sender, per-class,
    per-device and global counts, rate limits, a memory of admitted nonces
    and hashes, and the queued pool.

    An early [return] of the check is the error exit of the monad, so [Err]
    carries [Queued] and [Rejected] and a check that runs to the end is
    [Admitted].  Counters of transactions held in memory ([usize]) are
    natural numbers.  The clock reading of a call is an argument.  [bincode]
    is the class of [Fee].  *)

From S2P Require Import Prelude OrdMap Gas Account Fee QueuedPool Replay.

#[global] Instance TxClass_countable : Countable TxClass.
Proof.
  refine (inj_countable' (fun c => match c with
      | Financial => 0%nat | IoTData => 1%nat | FederatedUpdate => 2%nat | System => 3%nat end)
    (fun n => match n with 0%nat => Financial | 1%nat => IoTData | 2%nat => FederatedUpdate | _ => System end) _).
  by intros [].
Defined.

Module Admit.

Record AdmissionConfig := {
  max_per_sender : nat;
  max_per_device : nat;
  global_cap : nat;
  fee_floor : Z;
  fee_floor_per_class : option (gmap TxClass Z);
  quota_per_class : gmap TxClass nat;
  rate_limit_window : Z;
  rate_limit_per_sender : nat;
}.
Definition AdmissionConfig_default : AdmissionConfig := {|
  max_per_sender := 2000; max_per_device := 512; global_cap := Z.to_nat 1000000; fee_floor := 1000;
  fee_floor_per_class := None;
  quota_per_class := {[ Financial := Z.to_nat 500000; IoTData := Z.to_nat 200000;
    FederatedUpdate := Z.to_nat 50000; System := Z.to_nat 20000 ]};
  rate_limit_window := 60000; rate_limit_per_sender := 5000 |}.
Definition testnet_fees : AdmissionConfig := {|
  max_per_sender := 2000; max_per_device := 512; global_cap := Z.to_nat 1000000; fee_floor := 1000;
  fee_floor_per_class := Some {[ Financial := 1000; IoTData := 100; FederatedUpdate := 10000; System := 0 ]};
  quota_per_class := quota_per_class AdmissionConfig_default;
  rate_limit_window := 60000; rate_limit_per_sender := 5000 |}.

Record RateLimiter := mkRl {
  recent_txs : list Z;
  window : Z;
  limit : nat;
}.
(** [RateLimiter::check]. *)
Definition check (now : Z) (r : RateLimiter) : bool * RateLimiter :=
  let recent := filter (fun ts => duration_since now ts < window r) (recent_txs r) in
  if (limit r <=? length recent)%nat then (false, mkRl recent (window r) (limit r))
  else (true, mkRl (recent ++ [now]) (window r) (limit r)).

Record RoundContribution := mkRc {
  round_id : Z;
  contributions : gmap Z nat;
  rc_max_per_sender : nat;
}.
Definition can_contribute (sid : Z) (r : RoundContribution) : bool :=
  (default 0 (contributions r !! sid) <? rc_max_per_sender r)%nat.
Definition record_contribution (sid : Z) (r : RoundContribution) : RoundContribution :=
  mkRc (round_id r) (<[sid := S (default 0%nat (contributions r !! sid))]> (contributions r))
    (rc_max_per_sender r).
Definition RoundContribution_new_round (r : RoundContribution) : RoundContribution :=
  mkRc (wrap U64_MAX (round_id r + 1)) ∅ (rc_max_per_sender r).

Inductive Reason :=
| DuplicateNonce (sid nonce : Z)
| ReplayDetected
| ReplayPreventionError (e : Replay.ReplayPreventionError)
| AccountDecodeFailed
| NonceTooLow
| QueuedPoolFailed (e : Queued.QueuedPoolError)
| InsufficientBalance
| StorageFailed
| DuplicateTransaction
| HashCollision
| FeeTooLow
| PerSenderCap
| GlobalCap
| ClassQuota
| DeviceCap
| RateLimit
| RoundLimit.

(** How a check ends early. *)
Inductive Stop := Parked | Rejected (r : Reason).

(** [AdmissionResult]. *)
Inductive AdmissionResult := AdmittedResult | QueuedResult | RejectedResult (r : Reason).

Section Admit.
Context `{LruCache Replay.ReplayEntry} `{AccountBincode}.

Record AdmissionControl := mkAdm {
  config : AdmissionConfig;
  sender_counts : gmap Z nat;
  device_counts : gmap Z nat;
  class_counts : gmap TxClass nat;
  global_count : nat;
  rate_limiters : gmap Z RateLimiter;
  round_contribution : RoundContribution;
  seen_transactions : gmap bytes (Z * Z * Z);
  max_seen_transactions : nat;
  admitted_nonces : gmap Z (gmap Z Z);
  admitted_ttl : Z;
  admit_calls_since_evict : Z;
  storage : option ContractFee.AccountDb;
  replay_prevention : option Replay.ReplayPrevention;
  queued_pool : Queued.QueuedPool;
}.
Definition set_sender_counts (x : gmap Z nat) (a : AdmissionControl) : AdmissionControl :=
  mkAdm (config a) x (device_counts a) (class_counts a) (global_count a) (rate_limiters a)
    (round_contribution a) (seen_transactions a) (max_seen_transactions a) (admitted_nonces a)
    (admitted_ttl a) (admit_calls_since_evict a) (storage a) (replay_prevention a) (queued_pool
    a).
Definition set_device_counts (x : gmap Z nat) (a : AdmissionControl) : AdmissionControl :=
  mkAdm (config a) (sender_counts a) x (class_counts a) (global_count a) (rate_limiters a)
    (round_contribution a) (seen_transactions a) (max_seen_transactions a) (admitted_nonces a)
    (admitted_ttl a) (admit_calls_since_evict a) (storage a) (replay_prevention a) (queued_pool
    a).
Definition set_class_counts (x : gmap TxClass nat) (a : AdmissionControl) : AdmissionControl :=
  mkAdm (config a) (sender_counts a) (device_counts a) x (global_count a) (rate_limiters a)
    (round_contribution a) (seen_transactions a) (max_seen_transactions a) (admitted_nonces a)
    (admitted_ttl a) (admit_calls_since_evict a) (storage a) (replay_prevention a) (queued_pool
    a).
Definition set_global_count (x : nat) (a : AdmissionControl) : AdmissionControl :=
  mkAdm (config a) (sender_counts a) (device_counts a) (class_counts a) x (rate_limiters a)
    (round_contribution a) (seen_transactions a) (max_seen_transactions a) (admitted_nonces a)
    (admitted_ttl a) (admit_calls_since_evict a) (storage a) (replay_prevention a) (queued_pool
    a).
Definition set_rate_limiters (x : gmap Z RateLimiter) (a : AdmissionControl) : AdmissionControl :=
  mkAdm (config a) (sender_counts a) (device_counts a) (class_counts a) (global_count a) x
    (round_contribution a) (seen_transactions a) (max_seen_transactions a) (admitted_nonces a)
    (admitted_ttl a) (admit_calls_since_evict a) (storage a) (replay_prevention a) (queued_pool
    a).
Definition set_round_contribution (x : RoundContribution) (a : AdmissionControl) : AdmissionControl :=
  mkAdm (config a) (sender_counts a) (device_counts a) (class_counts a) (global_count a)
    (rate_limiters a) x (seen_transactions a) (max_seen_transactions a) (admitted_nonces a)
    (admitted_ttl a) (admit_calls_since_evict a) (storage a) (replay_prevention a) (queued_pool
    a).
Definition set_seen_transactions (x : gmap bytes (Z * Z * Z)) (a : AdmissionControl) : AdmissionControl :=
  mkAdm (config a) (sender_counts a) (device_counts a) (class_counts a) (global_count a)
    (rate_limiters a) (round_contribution a) x (max_seen_transactions a) (admitted_nonces a)
    (admitted_ttl a) (admit_calls_since_evict a) (storage a) (replay_prevention a) (queued_pool
    a).
Definition set_admitted_nonces (x : gmap Z (gmap Z Z)) (a : AdmissionControl) : AdmissionControl :=
  mkAdm (config a) (sender_counts a) (device_counts a) (class_counts a) (global_count a)
    (rate_limiters a) (round_contribution a) (seen_transactions a) (max_seen_transactions a) x
    (admitted_ttl a) (admit_calls_since_evict a) (storage a) (replay_prevention a) (queued_pool
    a).
Definition set_admit_calls_since_evict (x : Z) (a : AdmissionControl) : AdmissionControl :=
  mkAdm (config a) (sender_counts a) (device_counts a) (class_counts a) (global_count a)
    (rate_limiters a) (round_contribution a) (seen_transactions a) (max_seen_transactions a)
    (admitted_nonces a) (admitted_ttl a) x (storage a) (replay_prevention a) (queued_pool a).
Definition set_queued_pool (x : Queued.QueuedPool) (a : AdmissionControl) : AdmissionControl :=
  mkAdm (config a) (sender_counts a) (device_counts a) (class_counts a) (global_count a)
    (rate_limiters a) (round_contribution a) (seen_transactions a) (max_seen_transactions a)
    (admitted_nonces a) (admitted_ttl a) (admit_calls_since_evict a) (storage a)
    (replay_prevention a) x.

Definition new (c : AdmissionConfig) (st : option ContractFee.AccountDb) (rp : option Replay.ReplayPrevention)
    (now : Z) : AdmissionControl :=
  mkAdm c ∅ ∅ ∅ 0 ∅ (mkRc 0 ∅ 100) ∅ (Z.to_nat 100000) ∅ 300000 0 st rp
    (Queued.new Queued.QueuedPoolConfig_default now).

Definition extract_device_id (t : PrevalidatedTx) : option Z :=
  if bool_decide (class t = IoTData) then Some (sender_id t) else None.

Definition limited_class (c : TxClass) : bool := bool_decide (c = IoTData) || bool_decide (c = FederatedUpdate).

Definition A (T : Type) : Type := M AdmissionControl Stop T.

Definition reject {T} (r : Reason) : A T := fail (Rejected r).
Definition reject_if (c : bool) (r : Reason) : A unit := bail_if c (Rejected r).

(** [evict_aged_entries]. *)
Definition evict_aged_entries (now : Z) (a : AdmissionControl) : AdmissionControl :=
  let young ts := bool_decide (duration_since now ts <= admitted_ttl a) in
  set_admitted_nonces
    (filter (fun sm => sm.2 <> ∅)
      ((fun m : gmap Z Z => filter (fun nt => young nt.2 = true) m) <$> admitted_nonces a))
    (set_seen_transactions (filter (fun he => young he.2.2 = true) (seen_transactions a)) a).

(** The amortised eviction at the start of a check. *)
Definition count_call (now : Z) (a : AdmissionControl) : AdmissionControl :=
  let n := saturating_add U32_MAX (admit_calls_since_evict a) 1 in
  if n >=? 1024 then evict_aged_entries now (set_admit_calls_since_evict 0 a)
  else set_admit_calls_since_evict n a.

Definition already_admitted (t : PrevalidatedTx) (a : AdmissionControl) : bool :=
  match admitted_nonces a !! sender_id t with
  | Some m => bool_decide (is_Some (m !! nonce t))
  | None => false
  end.

(** Step 0: replay prevention, only for a transaction with a hash. *)
Definition check_replay (t : PrevalidatedTx) (hash : option bytes) : A unit :=
  a ← get;
  match replay_prevention a, hash with
  | Some rp, Some h =>
      reject_if (Replay.is_replay_transaction h (sender_address t) (nonce t) rp) ReplayDetected;;
      match Replay.validate_transaction_nonce (sender_address t) (nonce t) rp with
      | Ok _ => mret tt
      | Err (Replay.NonceTooFar _ _) => mret tt
      | Err e => reject (ReplayPreventionError e)
      end
  | _, _ => mret tt
  end.

(** [queued_pool.try_queue(..)] and the two ways it ends the check. *)
Definition park {T} (now : Z) (t : PrevalidatedTx) (hash : option bytes) (account_nonce : Z) : A T :=
  fun a => match Queued.try_queue now t hash account_nonce (queued_pool a) with
           | (Ok _, q) => (Err Parked, set_queued_pool q a)
           | (Err e, q) => (Err (Rejected (QueuedPoolFailed e)), set_queued_pool q a)
           end.

Definition decode_account (b : bytes) : option Acct.Account :=
  match deserialize_account b with
  | Some a => Some a
  | None => match Acct.decode b with Ok a => Some a | Err _ => None end
  end.

(** Step 1: the account in the storage. *)
Definition check_account (now : Z) (t : PrevalidatedTx) (hash : option bytes) (from_rpc : bool) : A unit :=
  a ← get;
  match storage a with
  | None => mret tt
  | Some db =>
      match db (sender_address t) with
      | Err _ => reject StorageFailed
      | Ok (Some b) =>
          match decode_account b with
          | None => reject AccountDecodeFailed
          | Some account =>
              reject_if (nonce t <? Acct.nonce account) NonceTooLow;;
              let gap := if from_rpc then ADMISSION_MAX_MAIN_POOL_NONCE_GAP_RPC
                         else ADMISSION_MAX_MAIN_POOL_NONCE_GAP in
              if nonce t >? wrap U64_MAX (Acct.nonce account + gap) then park now t hash (Acct.nonce account)
              else reject_if (Acct.balance account <? max_fee t + amount t) InsufficientBalance
          end
      | Ok None =>
          if from_rpc then
            if nonce t >? ADMISSION_MAX_MAIN_POOL_NONCE_GAP_RPC then park now t hash 0 else mret tt
          else park now t hash 0
      end
  end.

(** Step 2. *)
Definition check_seen (t : PrevalidatedTx) (hash : option bytes) : A unit :=
  a ← get;
  match hash with
  | None => mret tt
  | Some h =>
      match seen_transactions a !! h with
      | None => mret tt
      | Some (sid, n, _) =>
          if (sid =? sender_id t) && (n =? nonce t) then reject DuplicateTransaction else reject HashCollision
      end
  end.

(** Steps 3 to 7: fee floor, caps and quotas. *)
Definition fee_floor_of (c : AdmissionConfig) (cl : TxClass) : Z :=
  default (fee_floor c) (fee_floor_per_class c ≫= fun m => m !! cl).

Definition count_of `{Countable K} (m : gmap K nat) (k : K) : nat := default 0%nat (m !! k).

Definition check_caps (t : PrevalidatedTx) : A unit :=
  a ← get;
  let c := config a in
  reject_if (negb (bool_decide (class t = System)) && (max_fee t <? fee_floor_of c (class t))) FeeTooLow;;
  reject_if (max_per_sender c <=? count_of (sender_counts a) (sender_id t))%nat PerSenderCap;;
  reject_if (global_cap c <=? global_count a)%nat GlobalCap;;
  reject_if (match quota_per_class c !! class t with
             | Some quota => (quota <=? count_of (class_counts a) (class t))%nat
             | None => false
             end) ClassQuota;;
  reject_if (match extract_device_id t with
             | Some d => (max_per_device c <=? count_of (device_counts a) d)%nat
             | None => false
             end) DeviceCap.

(** Steps 8 and 9: rate and round limits of two classes. *)
Definition check_rate (now : Z) (t : PrevalidatedTx) : A unit :=
  if limited_class (class t) then
    a ← get;
    let l := default (mkRl [] (rate_limit_window (config a)) (rate_limit_per_sender (config a)))
      (rate_limiters a !! sender_id t) in
    let '(ok, l') := check now l in
    modify (set_rate_limiters (<[sender_id t := l']> (rate_limiters a)));;
    reject_if (negb ok) RateLimit;;
    reject_if (negb (can_contribute (sender_id t) (round_contribution a))) RoundLimit
  else mret tt.

(** [check_admission_ext_with_source]; [Ok] is [Admitted]. *)
Definition admission (now : Z) (t : PrevalidatedTx) (hash : option bytes) (from_rpc : bool) : A unit :=
  modify (count_call now);;
  a ← get;
  reject_if (already_admitted t a) (DuplicateNonce (sender_id t) (nonce t));;
  check_replay t hash;;
  check_account now t hash from_rpc;;
  check_seen t hash;;
  check_caps t;;
  check_rate now t.

Definition check_admission_ext_with_source (now : Z) (t : PrevalidatedTx) (hash : option bytes)
    (from_rpc : bool) (a : AdmissionControl) : AdmissionResult * AdmissionControl :=
  match admission now t hash from_rpc a with
  | (Ok _, a') => (AdmittedResult, a')
  | (Err Parked, a') => (QueuedResult, a')
  | (Err (Rejected r), a') => (RejectedResult r, a')
  end.

(** [check_admission_ext], [check_admission]. *)
Definition check_admission_ext (now : Z) (t : PrevalidatedTx) (hash : option bytes) (a : AdmissionControl) :
    AdmissionResult * AdmissionControl :=
  check_admission_ext_with_source now t hash false a.
Definition check_admission (now : Z) (t : PrevalidatedTx) (hash : option bytes) (a : AdmissionControl) :
    bool * AdmissionControl :=
  let '(r, a') := check_admission_ext now t hash a in
  (match r with AdmittedResult => true | _ => false end, a').

(** *** Bookkeeping *)

Definition incr `{Countable K} (k : K) (m : gmap K nat) : gmap K nat := <[k := S (count_of m k)]> m.
(** Decrement; the entry goes at zero. *)
Definition decr `{Countable K} (k : K) (m : gmap K nat) : gmap K nat :=
  match m !! k with
  | None => m
  | Some n => if (n - 1 =? 0)%nat then delete k m else <[k := (n - 1)%nat]> m
  end.
(** Decrement; the entry stays. *)
Definition decr_keep `{Countable K} (k : K) (m : gmap K nat) : gmap K nat :=
  match m !! k with None => m | Some n => <[k := (n - 1)%nat]> m end.

Definition by_time (p q : bytes * Z) : Prop := p.2 <= q.2.
#[global] Instance by_time_dec p q : Decision (by_time p q).
Proof. unfold by_time. apply _. Defined.

(** The 1000 oldest hashes go when the cache is full. *)
Definition drop_oldest (a : AdmissionControl) : gmap bytes (Z * Z * Z) :=
  if (max_seen_transactions a <=? size (seen_transactions a))%nat then
    let entries := merge_sort by_time
      ((fun kv : bytes * (Z * Z * Z) => (kv.1, kv.2.2)) <$> map_to_list (seen_transactions a)) in
    fold_left (fun m e => delete e.1 m) (take 1000 entries) (seen_transactions a)
  else seen_transactions a.

(** [record_admission]. *)
Definition record_admission (now : Z) (t : PrevalidatedTx) (hash : option bytes) (a : AdmissionControl) :
    AdmissionControl :=
  let a := match hash with
    | Some h => set_seen_transactions (<[h := (sender_id t, nonce t, now)]> (drop_oldest a)) a
    | None => a
    end in
  let a := set_admitted_nonces
    (<[sender_id t := <[nonce t := now]> (default ∅ (admitted_nonces a !! sender_id t))]> (admitted_nonces a)) a in
  let a := set_sender_counts (incr (sender_id t) (sender_counts a)) a in
  let a := set_class_counts (incr (class t) (class_counts a)) a in
  let a := set_global_count (S (global_count a)) a in
  let a := match extract_device_id t with
    | Some d => set_device_counts (incr d (device_counts a)) a
    | None => a
    end in
  if limited_class (class t)
  then set_round_contribution (record_contribution (sender_id t) (round_contribution a)) a else a.

(** The dedup entry of a removed hash goes with it. *)
Definition forget (h : bytes) (a : AdmissionControl) : AdmissionControl :=
  match seen_transactions a !! h with
  | None => a
  | Some (sid, n, _) =>
      let a := set_seen_transactions (delete h (seen_transactions a)) a in
      match admitted_nonces a !! sid with
      | None => a
      | Some m =>
          let m' := delete n m in
          set_admitted_nonces (if bool_decide (m' = ∅) then delete sid (admitted_nonces a)
                               else <[sid := m']> (admitted_nonces a)) a
      end
  end.

(** [record_removal]. *)
Definition record_removal (sid : Z) (cl : TxClass) (hash : option bytes) (a : AdmissionControl) :
    AdmissionControl :=
  let a := match hash with Some h => forget h a | None => a end in
  let a := set_sender_counts (decr sid (sender_counts a)) a in
  let a := set_class_counts (decr_keep cl (class_counts a)) a in
  let a := set_global_count (global_count a - 1)%nat a in
  if bool_decide (cl = IoTData) then set_device_counts (decr sid (device_counts a)) a else a.

(** [record_restoration]. *)
Definition record_restoration (sid : Z) (cl : TxClass) (a : AdmissionControl) : AdmissionControl :=
  let a := set_sender_counts (incr sid (sender_counts a)) a in
  let a := set_class_counts (incr cl (class_counts a)) a in
  let a := set_global_count (S (global_count a)) a in
  if bool_decide (cl = IoTData) then set_device_counts (incr sid (device_counts a)) a else a.

Definition new_round (a : AdmissionControl) : AdmissionControl :=
  set_round_contribution (RoundContribution_new_round (round_contribution a)) a.

Definition promote_queued (sid n : Z) (a : AdmissionControl) :
    list (PrevalidatedTx * option bytes) * AdmissionControl :=
  let '(l, q) := Queued.promote sid n (queued_pool a) in (l, set_queued_pool q a).
Definition promote_queued_batch (updates : list (Z * Z)) (a : AdmissionControl) :
    list (PrevalidatedTx * option bytes) * AdmissionControl :=
  let '(l, q) := Queued.promote_batch updates (queued_pool a) in (l, set_queued_pool q a).
Definition cleanup_queued_pool (now : Z) (a : AdmissionControl) : AdmissionControl :=
  set_queued_pool (Queued.cleanup_expired now (queued_pool a)) a.
End Admit.
End Admit.
