(* ===== verification/AdmissionCorrect.v ===== *)
(** * What admission control guarantees

    A check never changes the counts; what it lets through is below every
    cap and was not admitted before; and which transactions are parked. *)

From S2P Require Import Prelude OrdMap Gas Account Fee QueuedPool Replay Admission.

Module AdmitC.
Import Admit.

(** A prevalidated transaction in the range of its fields. *)
Definition pv_ok (t : PrevalidatedTx) : Prop := 0 <= sender_id t /\ in_range U64_MAX (nonce t).

Section AdmitC.
Context `{LruCache Replay.ReplayEntry} `{AccountBincode}.

(** ** What a check leaves alone *)

Record same_counts (a a' : AdmissionControl) : Prop := {
  sc_config : config a' = config a;
  sc_sender : sender_counts a' = sender_counts a;
  sc_device : device_counts a' = device_counts a;
  sc_class : class_counts a' = class_counts a;
  sc_global : global_count a' = global_count a;
  sc_storage : storage a' = storage a;
}.

#[export] Instance same_counts_refl : Reflexive same_counts.
Proof. by split. Qed.
#[export] Instance same_counts_trans : Transitive same_counts.
Proof. intros a b c [] []. split; congruence. Qed.

(** The memory of admitted transactions. *)
Record same_memory (a a' : AdmissionControl) : Prop := {
  sm_nonces : admitted_nonces a' = admitted_nonces a;
  sm_seen : seen_transactions a' = seen_transactions a;
  sm_ttl : admitted_ttl a' = admitted_ttl a;
}.

(** ** The queued pool inside *)

Record adm_ok (a : AdmissionControl) : Prop := {
  ao_pool : Queued.qp_ok (queued_pool a);
  ao_config : Queued.config_ok (Queued.config (queued_pool a));
  ao_gap : 0 <= Queued.max_nonce_gap (Queued.config (queued_pool a));
  ao_pv : forall s n t, Queued.queued (queued_pool a) s n = Some t -> pv_ok (Queued.pv t);
}.

Lemma adm_ok_same_pool a a' : queued_pool a' = queued_pool a -> adm_ok a -> adm_ok a'.
Proof. intros E [? ? ? ?]. split; by rewrite E. Qed.

Lemma adm_ok_new c st rp now : adm_ok (new c st rp now).
Proof.
  split; [apply Queued.qp_ok_new| | |]; by try apply Queued.default_config_ok.
Qed.

(** Queueing a transaction, as [park] does it. *)
Definition after_try (now : Z) (t : PrevalidatedTx) (hash : option bytes) (acc : Z) (a : AdmissionControl) :
    AdmissionControl :=
  set_queued_pool (snd (Queued.try_queue now t hash acc (queued_pool a))) a.

Lemma after_try_ok now t hash acc a : pv_ok t -> adm_ok a ->
  adm_ok (after_try now t hash acc a) /\ same_counts a (after_try now t hash acc a) /\
  same_memory a (after_try now t hash acc a).
Proof.
  intros [Hs Hn] [H1 H2 H3 H4]. split; [|by repeat split].
  pose proof (Queued.wp_try_queue now t hash acc (queued_pool a) H1 H2 Hn H3) as Hw.
  unfold wp in Hw. unfold after_try.
  destruct (Queued.try_queue now t hash acc (queued_pool a)) as [[[]|e] p']; simpl.
  - destruct Hw as (? & Hc & _ & _ & Hq). split; simpl; [done|by rewrite Hc..|].
    intros s n t'. rewrite Hq. case_decide; [|apply H4]. intros [= <-]. by split.
  - destruct Hw as (? & Hc & _ & _ & Hq). split; simpl; [done|by rewrite Hc..|].
    intros s n t'. rewrite Hq. apply H4.
Qed.

Lemma count_call_frame now a :
  same_counts a (count_call now a) /\ queued_pool (count_call now a) = queued_pool a /\
  rate_limiters (count_call now a) = rate_limiters a /\
  round_contribution (count_call now a) = round_contribution a.
Proof. unfold count_call. destruct (_ >=? _); by repeat split. Qed.

(** ** The steps of the check *)

(** What holds when a transaction is parked. *)
Definition parked (now : Z) (t : PrevalidatedTx) (hash : option bytes) (from_rpc : bool) (a : AdmissionControl) :
    Prop :=
  exists db acc, storage a = Some db /\
    is_ok (fst (Queued.try_queue now t hash acc (queued_pool a))) = true /\
    match db (sender_address t) with
    | Ok (Some b) => exists account, decode_account b = Some account /\ acc = Acct.nonce account /\
        nonce t > wrap U64_MAX (acc + if from_rpc then ADMISSION_MAX_MAIN_POOL_NONCE_GAP_RPC
                                      else ADMISSION_MAX_MAIN_POOL_NONCE_GAP)
    | Ok None => acc = 0 /\ (from_rpc = true -> nonce t > ADMISSION_MAX_MAIN_POOL_NONCE_GAP_RPC)
    | Err _ => False
    end.

Lemma wp_reject_if c r (Q : unit -> AdmissionControl -> Prop) (R : Stop -> AdmissionControl -> Prop) a :
  (c = true -> R (Rejected r) a) -> (c = false -> Q tt a) -> wp (reject_if c r) Q R a.
Proof. intros. by apply wp_bail_if. Qed.

Lemma wp_check_replay t hash a :
  wp (check_replay t hash) (fun _ a' => a' = a) (fun e a' => a' = a /\ e <> Parked) a.
Proof.
  apply wp_bind, wp_get. destruct (replay_prevention a) as [rp|]; [|done]. destruct hash as [h|]; [|done].
  apply wp_bind, wp_reject_if; intros _; [done|].
  destruct (Replay.validate_transaction_nonce _ _ _) as [|[]]; done.
Qed.

Lemma wp_park {T} now t hash acc a (Q : T -> AdmissionControl -> Prop) (R : Stop -> AdmissionControl -> Prop) :
  (is_ok (fst (Queued.try_queue now t hash acc (queued_pool a))) = true ->
     R Parked (after_try now t hash acc a)) ->
  (forall e, R (Rejected (QueuedPoolFailed e)) (after_try now t hash acc a)) ->
  wp (park now t hash acc) Q R a.
Proof.
  intros HP HR. unfold wp, park, after_try in *.
  destruct (Queued.try_queue now t hash acc (queued_pool a)) as [[[]|e] q]; simpl in *; auto.
Qed.

Lemma wp_check_account now t hash from_rpc a :
  pv_ok t -> adm_ok a ->
  wp (check_account now t hash from_rpc) (fun _ a' => a' = a)
    (fun e a' => adm_ok a' /\ same_counts a a' /\ same_memory a a' /\ (e = Parked -> parked now t hash from_rpc a)) a.
Proof.
  intros Ht Ha. pose proof (fun acc => after_try_ok now t hash acc a Ht Ha) as Htry.
  apply wp_bind, wp_get. destruct (storage a) as [db|] eqn:Edb; [|done].
  destruct (db (sender_address t)) as [[b|]|] eqn:Eb; [| |done].
  - destruct (decode_account b) as [account|] eqn:Ed; [|done].
    apply wp_bind, wp_reject_if; intros _; [done|].
    cbv zeta. match goal with |- context [nonce t >? ?w] => destruct (Z.gtb_spec (nonce t) w) as [Hgap|Hgap] end.
    + apply wp_park; [|by intros; split_and!; try apply Htry]. intros Hok.
      split_and!; try apply Htry. intros _. exists db, (Acct.nonce account). rewrite Eb.
      split_and!; [done..|]. exists account. split_and!; [done..|]. lia.
    + by apply wp_reject_if.
  - destruct from_rpc; [destruct (Z.gtb_spec (nonce t) ADMISSION_MAX_MAIN_POOL_NONCE_GAP_RPC); [|done]|];
      (apply wp_park; [|by intros; split_and!; try apply Htry]); intros Hok;
      (split_and!; try apply Htry); intros _; exists db, 0; rewrite Eb; split_and!; try done; lia.
Qed.

Lemma wp_check_seen t hash a :
  wp (check_seen t hash) (fun _ a' => a' = a /\ forall h, hash = Some h -> seen_transactions a !! h = None)
    (fun e a' => a' = a /\ e <> Parked) a.
Proof.
  apply wp_bind, wp_get. destruct hash as [h|]; [|done].
  destruct (seen_transactions a !! h) as [[[s n] ts]|] eqn:E.
  - by destruct (_ && _).
  - split; [done|]. by intros ? [= <-].
Qed.

(** The caps a transaction must be below. *)
Record below_caps (t : PrevalidatedTx) (a : AdmissionControl) : Prop := {
  bc_fee : class t = System \/ fee_floor_of (config a) (class t) <= max_fee t;
  bc_sender : (count_of (sender_counts a) (sender_id t) < max_per_sender (config a))%nat;
  bc_global : (global_count a < global_cap (config a))%nat;
  bc_class : forall q, quota_per_class (config a) !! class t = Some q ->
    (count_of (class_counts a) (class t) < q)%nat;
  bc_device : class t = IoTData ->
    (count_of (device_counts a) (sender_id t) < max_per_device (config a))%nat;
}.

Lemma wp_check_caps t a :
  wp (check_caps t) (fun _ a' => a' = a /\ below_caps t a) (fun e a' => a' = a /\ e <> Parked) a.
Proof.
  apply wp_bind, wp_get.
  apply wp_bind, wp_reject_if; [done|]; intros Hfee.
  apply wp_bind, wp_reject_if; [done|]; intros Hsender.
  apply wp_bind, wp_reject_if; [done|]; intros Hglobal.
  apply wp_bind, wp_reject_if; [done|]; intros Hclass.
  apply wp_reject_if; [done|]; intros Hdev. split; [done|]. split.
  - apply andb_false_iff in Hfee as [Hfee|Hfee]; [left|right; by apply Z.ltb_ge].
    apply negb_false_iff in Hfee. by apply bool_decide_eq_true in Hfee.
  - by apply Nat.leb_gt.
  - by apply Nat.leb_gt.
  - intros q Hq. rewrite Hq in Hclass. by apply Nat.leb_gt.
  - intros Hc. unfold extract_device_id in Hdev. rewrite bool_decide_true in Hdev by done. by apply Nat.leb_gt.
Qed.

Lemma wp_check_rate now t a :
  wp (check_rate now t)
    (fun _ a' => exists rl, a' = set_rate_limiters rl a) (fun e a' => (exists rl, a' = set_rate_limiters rl a) /\ e <> Parked) a.
Proof.
  unfold check_rate. destruct (limited_class (class t)).
  - apply wp_bind, wp_get. destruct (check _ _) as [ok l'].
    apply wp_bind, wp_modify. apply wp_bind, wp_reject_if; intros _; [by eauto|].
    apply wp_reject_if; intros _; by eauto.
  - exists (rate_limiters a). by destruct a.
Qed.

(** ** The whole check *)

(** What every way out of the check has in common. *)
Definition checked (now : Z) (a a' : AdmissionControl) : Prop :=
  adm_ok a' /\ same_counts a a' /\ same_memory (count_call now a) a'.

Lemma wp_admission now t hash from_rpc a :
  pv_ok t -> adm_ok a ->
  wp (admission now t hash from_rpc)
    (fun _ a' => checked now a a' /\ below_caps t a /\ already_admitted t (count_call now a) = false)
    (fun e a' => checked now a a' /\
       (e = Parked -> parked now t hash from_rpc a /\ already_admitted t (count_call now a) = false)) a.
Proof.
  intros Ht Ha. unfold checked. destruct (count_call_frame now a) as (Hs & Hp & _).
  set (a1 := count_call now a) in *.
  assert (adm_ok a1) as Ha1 by by apply (adm_ok_same_pool a).
  assert (same_memory a1 a1) as Hm1 by by split.
  apply wp_bind, wp_modify. fold a1. apply wp_bind, wp_get.
  apply wp_bind, wp_reject_if; [done|]; intros Hdup.
  apply wp_bind. eapply wp_mono; [apply wp_check_replay| |]; [intros [] ? ->|by intros e ? [-> He]].
  apply wp_bind. eapply wp_mono; [by apply wp_check_account| |]; [intros [] ? ->|].
  2: { intros e a' (? & Hs' & ? & HP). split; [split_and!; [done|by etrans|done]|]. intros He. split; [|done].
       destruct (HP He) as (db & acc & Hdb & Hok & Hm). exists db, acc. rewrite <- Hp.
       split; [|done]. by rewrite <- (sc_storage _ _ Hs). }
  apply wp_bind. eapply wp_mono; [apply wp_check_seen| |]; [intros [] ? [-> _]|by intros e ? [-> He]].
  apply wp_bind. eapply wp_mono; [apply wp_check_caps| |]; [intros [] ? [-> Hcaps]|by intros e ? [-> He]].
  eapply wp_mono; [apply wp_check_rate| |]; simpl.
  - intros [] ? [rl ->]. split; [split; [by apply (adm_ok_same_pool a1)|]; destruct Hs; by repeat split|].
    split; [|done]. destruct Hs as [E1 E2 E3 E4 E5 E6], Hcaps as [C1 C2 C3 C4 C5].
    rewrite E1 in C1, C2, C3, C4, C5. rewrite E2 in C2. rewrite E3 in C5. rewrite E4 in C4. rewrite E5 in C3.
    by split.
  - intros e ? [[rl ->] He]. split; [split; [by apply (adm_ok_same_pool a1)|]; destruct Hs; by repeat split|done].
Qed.

Lemma check_spec now t hash from_rpc a :
  pv_ok t -> adm_ok a ->
  let '(r, a') := check_admission_ext_with_source now t hash from_rpc a in
  checked now a a' /\
  match r with
  | AdmittedResult => below_caps t a /\ already_admitted t (count_call now a) = false
  | QueuedResult => parked now t hash from_rpc a /\ already_admitted t (count_call now a) = false
  | RejectedResult _ => True
  end.
Proof.
  intros Ht Ha. pose proof (wp_admission now t hash from_rpc a Ht Ha) as Hw. unfold wp in Hw.
  unfold check_admission_ext_with_source.
  destruct (admission now t hash from_rpc a) as [[[]|[|r]] a']; naive_solver.
Qed.

(** A nonce that is remembered is refused, before anything else is looked at. *)
Lemma check_duplicate now t hash from_rpc a :
  already_admitted t (count_call now a) = true ->
  check_admission_ext_with_source now t hash from_rpc a =
    (RejectedResult (DuplicateNonce (sender_id t) (nonce t)), count_call now a).
Proof.
  intros Hd. unfold check_admission_ext_with_source, admission, modify, get, mbind, M_bind. simpl.
  unfold reject_if, bail_if. by rewrite Hd.
Qed.

(** ** Caps *)

Record caps_ok (a : AdmissionControl) : Prop := {
  cap_sender : forall s, (count_of (sender_counts a) s <= max_per_sender (config a))%nat;
  cap_device : forall d, (count_of (device_counts a) d <= max_per_device (config a))%nat;
  cap_class : forall c q, quota_per_class (config a) !! c = Some q -> (count_of (class_counts a) c <= q)%nat;
  cap_global : (global_count a <= global_cap (config a))%nat;
}.

Lemma caps_ok_counts a a' : same_counts a a' -> caps_ok a -> caps_ok a'.
Proof. intros [E1 E2 E3 E4 E5 E6] [? ? ? ?]. split; rewrite ?E1, ?E2, ?E3, ?E4, ?E5; done. Qed.

Lemma below_caps_counts t a a' : same_counts a a' -> below_caps t a -> below_caps t a'.
Proof. intros [E1 E2 E3 E4 E5 E6] [? ? ? ? ?]. split; rewrite ?E1, ?E2, ?E3, ?E4, ?E5; done. Qed.

Section Counting.
Context `{Countable K}.
Implicit Types (m : gmap K nat) (k : K).

Lemma count_incr m k j : count_of (incr k m) j = if decide (j = k) then S (count_of m k) else count_of m j.
Proof.
  unfold count_of, incr. destruct (decide (j = k)) as [->|Hne]; [by rewrite lookup_insert_eq|].
  by rewrite lookup_insert_ne.
Qed.

Lemma count_decr m k j : count_of (decr k m) j = if decide (j = k) then (count_of m k - 1)%nat else count_of m j.
Proof.
  unfold count_of, decr. destruct (m !! k) as [n|] eqn:E.
  - destruct (Nat.eqb_spec (n - 1) 0) as [Hn|Hn]; destruct (decide (j = k)) as [->|Hne];
      rewrite ?lookup_delete_eq, ?lookup_insert_eq, ?lookup_delete_ne, ?lookup_insert_ne by done; simpl; lia.
  - destruct (decide (j = k)) as [->|Hne]; [by rewrite E|done].
Qed.

Lemma count_decr_keep m k j :
  count_of (decr_keep k m) j = if decide (j = k) then (count_of m k - 1)%nat else count_of m j.
Proof.
  unfold count_of, decr_keep. destruct (m !! k) as [n|] eqn:E.
  - destruct (decide (j = k)) as [->|Hne]; [by rewrite lookup_insert_eq|by rewrite lookup_insert_ne].
  - destruct (decide (j = k)) as [->|Hne]; [by rewrite E|done].
Qed.
End Counting.

(** ** Entering and leaving the counts *)

Record entered (sid : Z) (cl : TxClass) (a a' : AdmissionControl) : Prop := {
  en_config : config a' = config a;
  en_pool : queued_pool a' = queued_pool a;
  en_ttl : admitted_ttl a' = admitted_ttl a;
  en_sender : sender_counts a' = incr sid (sender_counts a);
  en_class : class_counts a' = incr cl (class_counts a);
  en_global : global_count a' = S (global_count a);
  en_device : device_counts a' = if decide (cl = IoTData) then incr sid (device_counts a) else device_counts a;
}.

Record left_pool (sid : Z) (cl : TxClass) (a a' : AdmissionControl) : Prop := {
  lv_config : config a' = config a;
  lv_pool : queued_pool a' = queued_pool a;
  lv_ttl : admitted_ttl a' = admitted_ttl a;
  lv_sender : sender_counts a' = decr sid (sender_counts a);
  lv_class : class_counts a' = decr_keep cl (class_counts a);
  lv_global : global_count a' = (global_count a - 1)%nat;
  lv_device : device_counts a' = if decide (cl = IoTData) then decr sid (device_counts a) else device_counts a;
}.

(** The memory after an admission. *)
Definition remembered (now sid n : Z) (m : gmap Z (gmap Z Z)) : gmap Z (gmap Z Z) :=
  <[sid := <[n := now]> (default ∅ (m !! sid))]> m.

Lemma record_admission_spec now t hash a :
  entered (sender_id t) (class t) a (record_admission now t hash a) /\
  admitted_nonces (record_admission now t hash a) = remembered now (sender_id t) (nonce t) (admitted_nonces a).
Proof.
  unfold record_admission, extract_device_id, limited_class.
  destruct hash as [h|], (class t); split; try split; reflexivity.
Qed.

Lemma record_restoration_spec sid cl a :
  entered sid cl a (record_restoration sid cl a) /\
  admitted_nonces (record_restoration sid cl a) = admitted_nonces a.
Proof. unfold record_restoration. destruct cl; split; try split; reflexivity. Qed.

Lemma forget_frame h a :
  same_counts a (forget h a) /\ queued_pool (forget h a) = queued_pool a /\
  admitted_ttl (forget h a) = admitted_ttl a.
Proof.
  unfold forget. destruct (seen_transactions a !! h) as [[[s n] ts]|]; [|by repeat split].
  simpl. destruct (admitted_nonces a !! s); by repeat split.
Qed.

Lemma record_removal_spec sid cl hash a :
  left_pool sid cl a (record_removal sid cl hash a) /\
  (hash = None -> admitted_nonces (record_removal sid cl hash a) = admitted_nonces a).
Proof.
  unfold record_removal. set (a0 := match hash with Some h => forget h a | None => a end).
  assert (same_counts a a0 /\ queued_pool a0 = queued_pool a /\ admitted_ttl a0 = admitted_ttl a) as (Hc & Hq & Ht).
  { destruct hash; [apply forget_frame|by repeat split]. }
  destruct Hc as [E1 E2 E3 E4 E5 E6]. split.
  - destruct cl; simpl; split; simpl; congruence.
  - intros ->. destruct cl; reflexivity.
Qed.

Lemma entered_ok sid cl a a' : entered sid cl a a' -> adm_ok a -> adm_ok a'.
Proof. intros He. by apply adm_ok_same_pool, (en_pool _ _ _ _ He). Qed.

Lemma left_ok sid cl a a' : left_pool sid cl a a' -> adm_ok a -> adm_ok a'.
Proof. intros He. by apply adm_ok_same_pool, (lv_pool _ _ _ _ He). Qed.

(** Admitting below the caps and removing keep within them. *)
Lemma entered_caps t a a' :
  entered (sender_id t) (class t) a a' -> below_caps t a -> caps_ok a -> caps_ok a'.
Proof.
  intros [E1 _ _ E2 E3 E4 E5] [_ B1 B2 B3 B4] [C1 C2 C3 C4].
  split; rewrite ?E1, ?E2, ?E3, ?E4, ?E5; clear E1 E2 E3 E4 E5.
  - intros s. rewrite count_incr. case_decide; [lia|apply C1].
  - intros d. case_decide as Hc; [|apply C2]. rewrite count_incr. specialize (B4 Hc). case_decide; [lia|apply C2].
  - intros c q Hq. rewrite count_incr. case_decide; [subst; specialize (B3 q Hq); lia|by apply C3].
  - lia.
Qed.

Lemma left_caps sid cl a a' : left_pool sid cl a a' -> caps_ok a -> caps_ok a'.
Proof.
  intros [E1 _ _ E2 E3 E4 E5] [C1 C2 C3 C4]. split; rewrite ?E1, ?E2, ?E3, ?E4, ?E5; clear E1 E2 E3 E4 E5.
  - intros s. rewrite count_decr. pose proof (C1 sid). case_decide; [subst; lia|apply C1].
  - intros d. case_decide; [|apply C2]. rewrite count_decr. pose proof (C2 sid).
    case_decide; [subst; lia|apply C2].
  - intros c q Hq. rewrite count_decr_keep. case_decide; [subst; specialize (C3 cl q Hq); lia|by apply C3].
  - lia.
Qed.

(** ** Clean-up and promotion *)

Lemma cleanup_ok now a : adm_ok a ->
  adm_ok (cleanup_queued_pool now a) /\ same_counts a (cleanup_queued_pool now a).
Proof.
  intros [H1 H2 H3 H4]. split; [|by split].
  destruct (Queued.cleanup_correct now (queued_pool a) H1) as (Hp & Hc & Hq).
  split; simpl; [done|by rewrite Hc..|]. intros s n t. rewrite Hq. destruct (_ <? _); [apply H4|].
  unfold Queued.survivor. destruct (Queued.queued (queued_pool a) s n) as [t'|] eqn:E; simpl; [|done].
  destruct (Queued.fresh _ _ _); [|done]. intros [= <-]. by eapply H4.
Qed.

Definition pool_pv_ok (q : Queued.QueuedPool) : Prop :=
  forall s n t, Queued.queued q s n = Some t -> pv_ok (Queued.pv t).

Lemma promote_batch_ok updates q :
  Queued.qp_ok q -> pool_pv_ok q -> Forall (fun u => in_range U64_MAX u.2) updates ->
  let '(l, q') := Queued.promote_batch updates q in
  Queued.qp_ok q' /\ Queued.config q' = Queued.config q /\ pool_pv_ok q' /\ Forall (fun e => pv_ok e.1) l.
Proof.
  intros Hq Hpv Hu. revert q Hq Hpv. induction Hu as [|[s n] updates Hn Hu IH]; intros q Hq Hpv; [done|].
  cbn [Queued.promote_batch]. pose proof (Queued.promote_spec s n q Hq Hn) as Hs.
  destruct (Queued.promote s n q) as [l q1]. destruct Hs as (Hq1 & Hc1 & Hl & _ & Hrest).
  assert (pool_pv_ok q1) as Hpv1.
  { intros s' k t. rewrite Hrest. case_decide; [done|apply Hpv]. }
  specialize (IH q1 Hq1 Hpv1). destruct (Queued.promote_batch updates q1) as [l' q2].
  destruct IH as (? & Hc2 & ? & Hl'). split; [done|]. split; [congruence|]. split; [done|].
  apply Forall_app. split; [|done]. apply Forall_lookup. intros i x Hi.
  destruct (Hl i x Hi) as (t & Ht & ->). by apply (Hpv _ _ _ Ht).
Qed.

Lemma promote_queued_batch_ok updates a : adm_ok a -> Forall (fun u => in_range U64_MAX u.2) updates ->
  let '(l, a') := promote_queued_batch updates a in
  adm_ok a' /\ same_counts a a' /\ Forall (fun e => pv_ok e.1) l.
Proof.
  intros [H1 H2 H3 H4] Hu. unfold promote_queued_batch.
  pose proof (promote_batch_ok updates (queued_pool a) H1 H4 Hu) as Hb.
  destruct (Queued.promote_batch updates (queued_pool a)) as [l q]. destruct Hb as (? & Hc & ? & ?).
  split; [|split; [by split|done]]. split; simpl; [done|by rewrite Hc..|done].
Qed.

(** ** What is parked *)

(** Only gossiped transactions of accounts that do not exist yet are ever
    parked.  With the default configuration a transaction parked for a known
    account would have to be further ahead of the account's nonce than the
    main pool takes and no further than the queued pool takes; the two limits
    are equal, so there is none, and the trusted path's limit is wider still. *)
Theorem parked_only_unfunded (now : Z) (t : PrevalidatedTx) (hash : option bytes) (from_rpc : bool)
    (a a' : AdmissionControl) :
  adm_ok a -> pv_ok t -> Queued.config (queued_pool a) = Queued.QueuedPoolConfig_default ->
  (forall db b account, storage a = Some db -> db (sender_address t) = Ok (Some b) ->
     decode_account b = Some account ->
     0 <= Acct.nonce account <= U64_MAX - ADMISSION_MAX_MAIN_POOL_NONCE_GAP_RPC) ->
  check_admission_ext_with_source now t hash from_rpc a = (QueuedResult, a') ->
  from_rpc = false /\ nonce t <= QUEUED_POOL_MAX_NONCE_GAP /\
  exists db, storage a = Some db /\ db (sender_address t) = Ok None.
Proof.
  intros Ha Ht Hc Hacc Hr. pose proof (check_spec now t hash from_rpc a Ht Ha) as Hs. rewrite Hr in Hs.
  destruct Hs as (_ & (db & acc & Hdb & Hok & Hm) & _).
  pose proof (Queued.wp_try_queue now t hash acc (queued_pool a) (ao_pool _ Ha) (ao_config _ Ha)
    (proj2 Ht) (ao_gap _ Ha)) as Hw. unfold wp in Hw.
  destruct (Queued.try_queue now t hash acc (queued_pool a)) as [[u|e] p']; [|done].
  destruct Hw as (_ & _ & Hgap & _). rewrite Hc in Hgap. simpl in Hgap.
  destruct (db (sender_address t)) as [[b|]|] eqn:Eb; [| |done].
  - destruct Hm as (account & Hd & -> & Hn). exfalso. specialize (Hacc db b account Hdb Eb Hd).
    unfold QUEUED_POOL_MAX_NONCE_GAP, ADMISSION_MAX_MAIN_POOL_NONCE_GAP_RPC,
      ADMISSION_MAX_MAIN_POOL_NONCE_GAP in *.
    rewrite wrap_id in Hn by (destruct from_rpc; mlia). destruct from_rpc; lia.
  - destruct Hm as [-> Hrpc]. unfold QUEUED_POOL_MAX_NONCE_GAP, ADMISSION_MAX_MAIN_POOL_NONCE_GAP_RPC in *.
    split; [destruct from_rpc; [specialize (Hrpc eq_refl); lia|done]|]. split; [lia|]. by exists db.
Qed.

(** ** No transaction is admitted twice *)

Definition remembers (sid n ts : Z) (a : AdmissionControl) : Prop :=
  exists m, admitted_nonces a !! sid = Some m /\ m !! n = Some ts.

Lemma remembers_admitted t ts a : remembers (sender_id t) (nonce t) ts a -> already_admitted t a = true.
Proof. intros (m & Hm & Hn). unfold already_admitted. rewrite Hm. apply bool_decide_eq_true. by eexists. Qed.

Lemma count_call_remembers sid n ts now a : 0 <= admitted_ttl a -> now <= ts + admitted_ttl a ->
  remembers sid n ts a ->
  remembers sid n ts (count_call now a) /\ admitted_ttl (count_call now a) = admitted_ttl a.
Proof.
  intros Httl Hnow (m & Hm & Hn). unfold count_call. destruct (_ >=? _); (split; [|done]); [|by exists m].
  unfold remembers, evict_aged_entries. simpl. set (young := fun ts : Z => bool_decide (duration_since now ts <= admitted_ttl a)).
  exists (filter (fun nt : Z * Z => young nt.2 = true) m).
  assert (filter (fun nt : Z * Z => young nt.2 = true) m !! n = Some ts) as Hf.
  { apply map_lookup_filter_Some_2; [done|]. simpl. apply bool_decide_eq_true. unfold duration_since. lia. }
  split; [|done]. apply map_lookup_filter_Some_2; [by rewrite lookup_fmap, Hm|].
  simpl. intros E. rewrite E in Hf. by rewrite lookup_empty in Hf.
Qed.

Lemma remembers_insert sid n ts now sid' n' m :
  (sid', n') <> (sid, n) -> (exists x, m !! sid = Some x /\ x !! n = Some ts) ->
  exists x, remembered now sid' n' m !! sid = Some x /\ x !! n = Some ts.
Proof.
  intros Hne (x & Hx & Hn). unfold remembered. destruct (decide (sid' = sid)) as [->|Hs].
  - rewrite lookup_insert_eq, Hx. eexists. split; [done|]. simpl. rewrite lookup_insert_ne; [done|congruence].
  - exists x. by rewrite lookup_insert_ne.
Qed.

(** Admission and its record, as [add_prevalidated_with_source] composes them. *)
Definition submit (now : Z) (t : PrevalidatedTx) (hash : option bytes) (from_rpc : bool) (a : AdmissionControl) :
    AdmissionControl :=
  match check_admission_ext_with_source now t hash from_rpc a with
  | (AdmittedResult, a') => record_admission now t hash a'
  | (_, a') => a'
  end.

Inductive event :=
| Submit (now : Z) (t : PrevalidatedTx) (hash : option bytes) (from_rpc : bool)
| RemoveUnhashed (sid : Z) (cl : TxClass)
| Restore (sid : Z) (cl : TxClass)
| NewRound.

Definition run_event (a : AdmissionControl) (e : event) : AdmissionControl :=
  match e with
  | Submit now t h rpc => submit now t h rpc a
  | RemoveUnhashed sid cl => record_removal sid cl None a
  | Restore sid cl => record_restoration sid cl a
  | NewRound => new_round a
  end.

Definition event_ok (limit : Z) (e : event) : Prop :=
  match e with Submit now t _ _ => pv_ok t /\ now <= limit | _ => True end.

Lemma run_event_remembers sid n ts e a :
  0 <= admitted_ttl a -> event_ok (ts + admitted_ttl a) e -> adm_ok a -> remembers sid n ts a ->
  let a' := run_event a e in adm_ok a' /\ admitted_ttl a' = admitted_ttl a /\ remembers sid n ts a'.
Proof.
  intros Httl He Ha Hr. destruct e as [now t h rpc|s cl|s cl|]; simpl.
  - destruct He as [Ht Hnow]. destruct (count_call_remembers sid n ts now a Httl Hnow Hr) as [Hr1 Ht1].
    pose proof (check_spec now t h rpc a Ht Ha) as Hs. unfold submit.
    destruct (check_admission_ext_with_source now t h rpc a) as [r a1].
    destruct Hs as [(Hok & _ & [Em _ Et]) Hs].
    assert (remembers sid n ts a1) as Hr2 by (unfold remembers; by rewrite Em).
    destruct r; [|split_and!; [done|congruence|done]..]. destruct Hs as [_ Hdup].
    destruct (record_admission_spec now t h a1) as [Hen Hmem].
    split; [by eapply entered_ok|]. split; [rewrite (en_ttl _ _ _ _ Hen); congruence|].
    unfold remembers. rewrite Hmem. apply remembers_insert; [|done].
    intros [= E1 E2]. subst. rewrite (remembers_admitted t ts) in Hdup; done.
  - destruct (record_removal_spec s cl None a) as [Hl Hm].
    split; [by eapply left_ok|]. split; [apply Hl|]. unfold remembers. by rewrite Hm.
  - destruct (record_restoration_spec s cl a) as [Hl Hm].
    split; [by eapply entered_ok|]. split; [apply Hl|]. unfold remembers. by rewrite Hm.
  - split; [by apply (adm_ok_same_pool a)|]. done.
Qed.

(** C36: A sender's nonce is admitted once.  After an admission, and for as
    long as the memory lasts, every further transaction of the sender with
    that nonce is refused as a duplicate, whatever is submitted, restored or
    removed without its hash in between; in particular a transaction that
    left the pool without its hash blocks its own resubmission. *)
Theorem no_double_admission (now now' : Z) (t t' : PrevalidatedTx) (h h' : option bytes) (rpc rpc' : bool)
    (a : AdmissionControl) (events : list event) :
  adm_ok a -> pv_ok t -> 0 <= admitted_ttl a ->
  fst (check_admission_ext_with_source now t h rpc a) = AdmittedResult ->
  Forall (event_ok (now + admitted_ttl a)) events -> now' <= now + admitted_ttl a ->
  sender_id t' = sender_id t -> nonce t' = nonce t ->
  fst (check_admission_ext_with_source now' t' h' rpc' (fold_left run_event events (submit now t h rpc a))) =
    RejectedResult (DuplicateNonce (sender_id t) (nonce t)).
Proof.
  intros Ha Ht Httl Hadm Hev Hnow' Es En. set (ttl := admitted_ttl a) in *.
  assert (forall a, adm_ok a /\ admitted_ttl a = ttl /\ remembers (sender_id t) (nonce t) now a ->
    let a' := fold_left run_event events a in
    admitted_ttl a' = ttl /\ remembers (sender_id t) (nonce t) now a') as Hrun.
  { clear Hadm Ha. induction Hev as [|e events He Hev IH]; intros a1 (Ha1 & E1 & H1); [done|].
    simpl. apply IH. pose proof (run_event_remembers (sender_id t) (nonce t) now e a1) as Hstep.
    cbv zeta in Hstep. rewrite E1 in Hstep. destruct Hstep as (? & ? & ?); done. }
  destruct (Hrun (submit now t h rpc a)) as [E2 H2].
  - unfold submit. pose proof (check_spec now t h rpc a Ht Ha) as Hs.
    destruct (check_admission_ext_with_source now t h rpc a) as [r a1]. simpl in Hadm. subst r.
    destruct Hs as [(Hok & _ & [_ _ Et]) _]. destruct (record_admission_spec now t h a1) as [Hen Hmem].
    split; [by eapply entered_ok|]. split.
    + rewrite (en_ttl _ _ _ _ Hen), Et. unfold count_call. by destruct (_ >=? _).
    + unfold remembers. rewrite Hmem. unfold remembered. eexists. by rewrite !lookup_insert_eq.
  - rewrite check_duplicate; [by rewrite Es, En|].
    apply (remembers_admitted t' now). rewrite Es, En. apply count_call_remembers; by rewrite ?E2.
Qed.
End AdmitC.

(** ** A funded and an unfunded account *)

#[local] Existing Instance ContractFee.bincode_demo.

(** The account [01] has nonce 5 and a balance; no other account exists. *)
Definition db0 : ContractFee.AccountDb :=
  fun k => Ok (if bool_decide (k = [Byte.x01]) then Some (Acct.encode (Acct.mkAccount 1000000 5)) else None).
Definition adm0 : AdmissionControl := new AdmissionConfig_default (Some db0) None 0.
Definition pv1 (sid : Z) (addr : bytes) (n : Z) : PrevalidatedTx := mkPv sid addr n 2000 10 n Financial None.

Lemma pv1_ok sid addr n : 0 <= sid -> in_range U64_MAX n -> pv_ok (pv1 sid addr n).
Proof. by split. Qed.

Lemma parked_only_unfunded_witness :
  let '(r, a') := check_admission_ext_with_source 0 (pv1 2 [Byte.x02] 7) None false adm0 in
  r = QueuedResult /\
  exists db, storage adm0 = Some db /\ db [Byte.x02] = Ok None.
Proof.
  assert (fst (check_admission_ext_with_source 0 (pv1 2 [Byte.x02] 7) None false adm0) = QueuedResult) as E
    by (vm_compute; reflexivity).
  destruct (check_admission_ext_with_source 0 (pv1 2 [Byte.x02] 7) None false adm0) as [r a'] eqn:Er.
  simpl in E. subst r. split; [done|].
  apply (parked_only_unfunded 0 (pv1 2 [Byte.x02] 7) None false adm0 a');
    [apply adm_ok_new|apply pv1_ok; unfold in_range; mlia|done| |done].
  intros db b account [= <-]. intros E. vm_compute in E. discriminate E.
Defined.

Lemma no_double_admission_witness :
  let t := pv1 1 [Byte.x01] 7 in
  fst (check_admission_ext_with_source 0 t None false adm0) = AdmittedResult /\
  fst (check_admission_ext_with_source 200000 t (Some [Byte.x09]) true
    (fold_left run_event [RemoveUnhashed 1 Financial; NewRound; Submit 5 (pv1 2 [Byte.x02] 7) None true]
      (submit 0 t None false adm0))) = RejectedResult (DuplicateNonce 1 7).
Proof.
  split; [vm_compute; reflexivity|].
  apply (no_double_admission 0 200000 (pv1 1 [Byte.x01] 7) (pv1 1 [Byte.x01] 7) None (Some [Byte.x09]) false true adm0);
    [apply adm_ok_new|apply pv1_ok; unfold in_range; mlia|done|vm_compute; reflexivity|
     |vm_compute; discriminate|done|done].
  repeat constructor; vm_compute; try discriminate.
Defined.

End AdmitC.
