(* ===== verification/MempoolCore.v ===== *)
(** * The mempool

    [savitri-mempool/src/mempool/core.rs]: ready queues per sender, an index
    from sender to queue, round-robin lists per class, and the operations
    that admit, drain, restore, purge and commit transactions.

    [usize] values index or count transactions held in memory and are natural
    numbers.  Indexing a vector out of range panics: the error exit of the
    monad.  The clock reading of a call is an argument; metrics, log messages
    and the resize and purge statistics are left out. *)

From S2P Require Import Prelude OrdMap Gas Account Fee QueuedPool Replay Admission.

Module Core.
Import Admit.

Record MempoolTx := mkTx {
  m_sender_id : Z;
  m_nonce : Z;
  fee : Z;
  m_tx_handle : Z;
  m_class : TxClass;
  m_stream_nonce : option Z;
  inserted : Z;
  m_tx_hash : option bytes;
  m_sender_address : bytes;
  signature_hash : bytes;
  gas_limit : Z;
  m_max_fee : Z;
  received_at : Z;
  rpc_accepted : bool;
}.

(** [MempoolTx::from] with the hash and the source set afterwards. *)
Definition tx_from (now : Z) (t : PrevalidatedTx) (hash : option bytes) (from_rpc : bool) : MempoolTx := {|
  m_sender_id := sender_id t; m_nonce := nonce t; fee := max_fee t; m_tx_handle := tx_handle t;
  m_class := class t; m_stream_nonce := stream_nonce t; inserted := now; m_tx_hash := hash;
  m_sender_address := sender_address t; signature_hash := zeros 32; gas_limit := 0;
  m_max_fee := max_fee t; received_at := now; rpc_accepted := from_rpc |}.

Definition conflicts_with (x y : MempoolTx) : bool :=
  bool_decide (m_sender_address x = m_sender_address y) && (m_nonce x =? m_nonce y).
Definition has_higher_priority_than (x y : MempoolTx) : bool :=
  if negb (fee x =? fee y) then fee x >? fee y else received_at x <? received_at y.

Record MempoolConfig := { cfg_global_cap : nat; per_sender_cap : nat; cfg_ttl : Z }.
Definition MempoolConfig_default : MempoolConfig :=
  {| cfg_global_cap := Z.to_nat 20000; per_sender_cap := 256; cfg_ttl := 120000 |}.

Record ReadyQueue := mkRq { rq_sender_id : Z; queue : list MempoolTx }.

Inductive Panic := IndexOutOfBounds.

Inductive AdmissionOutcome := Admitted_ | QueuedTx | RejectedTx (r : Reason).

Section Core.
Context `{LruCache Replay.ReplayEntry} `{AccountBincode}.

Record Mempool := mkMp {
  cfg : MempoolConfig;
  ready_vec : list ReadyQueue;
  ready_index : list (option nat);
  rr_vec_by_class : list (list nat);
  rr_pos_by_class : list nat;
  counts : list nat;
  total : nat;
  last_purge : Z;
  purge_interval : Z;
  admission : AdmissionControl;
}.
Definition set_ready_vec (x : list ReadyQueue) (m : Mempool) : Mempool :=
  mkMp (cfg m) x (ready_index m) (rr_vec_by_class m) (rr_pos_by_class m) (counts m) (total m)
    (last_purge m) (purge_interval m) (admission m).
Definition set_ready_index (x : list (option nat)) (m : Mempool) : Mempool :=
  mkMp (cfg m) (ready_vec m) x (rr_vec_by_class m) (rr_pos_by_class m) (counts m) (total m)
    (last_purge m) (purge_interval m) (admission m).
Definition set_rr_vec (x : list (list nat)) (m : Mempool) : Mempool :=
  mkMp (cfg m) (ready_vec m) (ready_index m) x (rr_pos_by_class m) (counts m) (total m)
    (last_purge m) (purge_interval m) (admission m).
Definition set_rr_pos (x : list nat) (m : Mempool) : Mempool :=
  mkMp (cfg m) (ready_vec m) (ready_index m) (rr_vec_by_class m) x (counts m) (total m)
    (last_purge m) (purge_interval m) (admission m).
Definition set_counts (x : list nat) (m : Mempool) : Mempool :=
  mkMp (cfg m) (ready_vec m) (ready_index m) (rr_vec_by_class m) (rr_pos_by_class m) x (total m)
    (last_purge m) (purge_interval m) (admission m).
Definition set_total (x : nat) (m : Mempool) : Mempool :=
  mkMp (cfg m) (ready_vec m) (ready_index m) (rr_vec_by_class m) (rr_pos_by_class m) (counts m) x
    (last_purge m) (purge_interval m) (admission m).
Definition set_last_purge (x : Z) (m : Mempool) : Mempool :=
  mkMp (cfg m) (ready_vec m) (ready_index m) (rr_vec_by_class m) (rr_pos_by_class m) (counts m) (total m)
    x (purge_interval m) (admission m).
Definition set_admission (x : AdmissionControl) (m : Mempool) : Mempool :=
  mkMp (cfg m) (ready_vec m) (ready_index m) (rr_vec_by_class m) (rr_pos_by_class m) (counts m) (total m)
    (last_purge m) (purge_interval m) x.

(** [Mempool::new], [with_config]. *)
Definition with_config (c : MempoolConfig) (a : AdmissionControl) (now : Z) : Mempool :=
  mkMp c [] [] [[]; []; []; []] [0; 0; 0; 0]%nat [] 0 now 1000 a.
Definition new (a : AdmissionControl) (now : Z) : Mempool := with_config MempoolConfig_default a now.

Definition MP (T : Type) : Type := M Mempool Panic T.

Definition class_idx (c : TxClass) : nat :=
  match c with Financial => 0 | IoTData => 1 | FederatedUpdate => 2 | System => 3 end.

(** [v[i]]. *)
Definition index {T} (v : list T) (i : nat) : MP T := lift (ok_or (v !! i) IndexOutOfBounds).

(** [ensure_index_capacity]. *)
Definition ensure_index_capacity (sid : Z) : MP unit :=
  modify (fun m =>
    let idx := Z.to_nat sid in
    if (length (ready_index m) <=? idx)%nat || (length (counts m) <=? idx)%nat then
      let current_capacity := Nat.max (length (ready_index m)) (length (counts m)) in
      let new_capacity := Nat.max (Nat.max (current_capacity * 2) (idx + 1)) 2 in
      set_counts (resize new_capacity 0%nat (counts m))
        (set_ready_index (resize new_capacity None (ready_index m)) m)
    else m).

(** [Vec::swap_remove] at an index in range. *)
Definition swap_remove {T} (i : nat) (v : list T) : list T :=
  match last v with
  | Some x => take (length v - 1) (<[i := x]> v)
  | None => v
  end.

(** The cursors past the end go back to zero. *)
Definition reset_cursors (pos : list nat) (rr : list (list nat)) : list nat :=
  zip_with (fun p v => if (length v <=? p)%nat then 0%nat else p) pos rr.

(** The slots of the moved queue follow it. *)
Definition redirect (last_idx idx : nat) (rr : list (list nat)) : list (list nat) :=
  (fun v : list nat => (fun slot => if (slot =? last_idx)%nat then idx else slot) <$> v) <$> rr.

(** [remove_ready_queue]. *)
Definition remove_ready_queue (idx : nat) : MP unit :=
  modify (fun m =>
    match ready_vec m !! idx with
    | None => m
    | Some removed =>
        let last_idx := (length (ready_vec m) - 1)%nat in
        let rv := swap_remove idx (ready_vec m) in
        let ri := <[Z.to_nat (rq_sender_id removed) := None]> (ready_index m) in
        let moved := negb (idx =? last_idx)%nat in
        let ri := match (if moved then rv !! idx else None) with
          | Some swapped => <[Z.to_nat (rq_sender_id swapped) := Some idx]> ri
          | None => ri
          end in
        let rr := if moved then redirect last_idx idx (rr_vec_by_class m) else rr_vec_by_class m in
        let rr := (fun v : list nat => filter (fun i => (i < length rv)%nat) v) <$> rr in
        set_rr_pos (reset_cursors (rr_pos_by_class m) rr)
          (set_rr_vec rr (set_ready_index ri (set_ready_vec rv m)))
    end).

Definition set_queue (idx : nat) (q : list MempoolTx) (m : Mempool) : Mempool :=
  set_ready_vec (alter (fun rq => mkRq (rq_sender_id rq) q) idx (ready_vec m)) m.

(** [self.counts[sender] = f(self.counts[sender])]. *)
Definition on_count (sid : Z) (f : nat -> nat) : MP unit :=
  m ← get;
  c ← index (counts m) (Z.to_nat sid);
  modify (set_counts (<[Z.to_nat sid := f c]> (counts m))).

(** What happens around a transaction that leaves its queue: the two counts
    and the admission control. *)
Definition account_removal (sid : Z) (tx : MempoolTx) : MP unit :=
  modify (fun m => set_total (total m - 1)%nat m);;
  on_count sid (fun c => (c - 1)%nat);;
  modify (fun m => set_admission (record_removal sid (m_class tx) (m_tx_hash tx) (admission m)) m).

(** The slot [v[k].push(idx)] of a round-robin list. *)
Definition schedule (k idx : nat) : MP unit :=
  modify (fun m => set_rr_vec (alter (fun v => v ++ [idx]) k (rr_vec_by_class m)) m).

(** [add_prevalidated_with_source]. *)
Definition add_prevalidated_with_source (now : Z) (t : PrevalidatedTx) (hash : option bytes)
    (from_rpc : bool) : MP AdmissionOutcome :=
  m ← get;
  let '(r, adm) := check_admission_ext_with_source now t hash from_rpc (admission m) in
  modify (set_admission adm);;
  match r with
  | QueuedResult => mret QueuedTx
  | RejectedResult r => mret (RejectedTx r)
  | AdmittedResult =>
      modify (set_admission (record_admission now t hash adm));;
      ensure_index_capacity (sender_id t);;
      m ← get;
      o ← index (ready_index m) (Z.to_nat (sender_id t));
      idx ← match o with
        | Some i => mret i
        | None =>
            let i := length (ready_vec m) in
            modify (fun m => set_ready_index (<[Z.to_nat (sender_id t) := Some i]> (ready_index m))
              (set_ready_vec (ready_vec m ++ [mkRq (sender_id t) []]) m));;
            mret i
        end;
      m ← get;
      rq ← index (ready_vec m) idx;
      modify (set_queue idx (queue rq ++ [tx_from now t hash from_rpc]));;
      modify (fun m => set_total (S (total m)) m);;
      on_count (sender_id t) S;;
      (if bool_decide (queue rq = []) then schedule (class_idx (class t)) idx else mret tt);;
      mret Admitted_
  end.

Definition add_prevalidated (now : Z) (t : PrevalidatedTx) (hash : option bytes) : MP AdmissionOutcome :=
  add_prevalidated_with_source now t hash false.

(** *** Sweeps: purge, removal by handle, eviction of stale nonces *)

(** The inner loop over one queue: transactions to drop are accounted for in
    order, the others are kept. *)
Fixpoint sweep_txs (drop_tx : MempoolTx -> bool) (sid : Z) (l : list MempoolTx) : MP (list MempoolTx) :=
  match l with
  | [] => mret []
  | tx :: l' =>
      if drop_tx tx then account_removal sid tx;; sweep_txs drop_tx sid l'
      else kept ← sweep_txs drop_tx sid l'; mret (tx :: kept)
  end.

(** The outer loop; [visit] says what to drop from a queue, if it is visited
    at all, and [keep_empty] whether a queue that was empty before stays. *)
Fixpoint sweep (fuel : nat) (visit : Z -> option (MempoolTx -> bool)) (keep_empty : bool) (idx : nat) :
    MP unit :=
  match fuel with
  | O => mret tt
  | S fuel' =>
      m ← get;
      match ready_vec m !! idx with
      | None => mret tt
      | Some rq =>
          match visit (rq_sender_id rq) with
          | None => sweep fuel' visit keep_empty (S idx)
          | Some drop_tx =>
              kept ← sweep_txs drop_tx (rq_sender_id rq) (queue rq);
              modify (set_queue idx kept);;
              if bool_decide (kept = []) && negb (keep_empty && bool_decide (queue rq = [])) then
                remove_ready_queue idx;;
                sweep fuel' visit keep_empty idx
              else sweep fuel' visit keep_empty (S idx)
          end
      end
  end.

Definition sweep_all (visit : Z -> option (MempoolTx -> bool)) (keep_empty : bool) : MP unit :=
  m ← get;
  sweep (length (ready_vec m)) visit keep_empty 0.

(** [purge_expired_internal], [purge_expired_internal_if_needed]. *)
Definition purge_expired_internal (now : Z) : MP unit :=
  modify (set_last_purge now);;
  m ← get;
  sweep_all (fun _ => Some (fun tx => duration_since now (inserted tx) >? cfg_ttl (cfg m))) false.
Definition purge_expired_internal_if_needed (now : Z) : MP unit :=
  m ← get;
  if duration_since now (last_purge m) <? purge_interval m / 2 then mret tt
  else purge_expired_internal now.

(** [remove_by_handles]. *)
Definition remove_by_handles (handles : list Z) : MP unit :=
  if bool_decide (handles = []) then mret tt
  else sweep_all (fun _ => Some (fun tx => bool_decide (m_tx_handle tx ∈ handles))) false.

(** *** Draining *)

Definition nonce_le (x y : MempoolTx) : Prop := m_nonce x <= m_nonce y.
#[global] Instance nonce_le_dec x y : Decision (nonce_le x y).
Proof. unfold nonce_le. apply _. Defined.

(** [sort_by_key(|tx| tx.nonce)] on every queue ([merge_sort] is stable). *)
Definition sort_queues : MP unit :=
  modify (fun m => set_ready_vec
    ((fun rq => mkRq (rq_sender_id rq) (merge_sort nonce_le (queue rq))) <$> ready_vec m) m).

Definition BURST_PER_SENDER : nat := 8.

(** The burst taken from one queue. *)
Fixpoint burst (n max idx : nat) (out : list MempoolTx) : MP (list MempoolTx) :=
  match n with
  | O => mret out
  | S n' =>
      if (length out <? max)%nat then
        m ← get;
        rq ← index (ready_vec m) idx;
        match queue rq with
        | [] => mret out
        | tx :: rest =>
            modify (set_queue idx rest);;
            account_removal (rq_sender_id rq) tx;;
            burst n' max idx (out ++ [tx])
        end
      else mret out
  end.

(** One turn of one class. *)
Definition drain_class (max k : nat) (out : list MempoolTx) : MP (list MempoolTx) :=
  if (max <=? length out)%nat then mret out
  else
    m ← get;
    rr ← index (rr_vec_by_class m) k;
    pos ← index (rr_pos_by_class m) k;
    if bool_decide (rr = []) then mret out
    else
      let pos := if (length rr <=? pos)%nat then 0%nat else pos in
      idx ← index rr pos;
      let pos := ((pos + 1) mod Nat.max (length rr) 1)%nat in
      modify (fun m => set_rr_pos (<[k := pos]> (rr_pos_by_class m)) m);;
      match ready_vec m !! idx with
      | None => mret out
      | Some _ =>
          out ← burst BURST_PER_SENDER max idx out;
          m ← get;
          rq ← index (ready_vec m) idx;
          if bool_decide (queue rq = []) then
            let rr := filter (fun i => i <> idx) rr in
            modify (fun m => set_rr_vec (<[k := rr]> (rr_vec_by_class m)) m);;
            modify (fun m => set_rr_pos
              (<[k := if (length rr <=? pos)%nat then 0%nat else pos]> (rr_pos_by_class m)) m);;
            mret out
          else mret out
      end.

(** The [while] loop; every round but the last takes a transaction, so [max]
    rounds and one more are enough. *)
Fixpoint drain_rounds (fuel max : nat) (out : list MempoolTx) : MP (list MempoolTx) :=
  match fuel with
  | O => mret out
  | S fuel' =>
      if (length out <? max)%nat then
        out1 ← drain_class max 0 out;
        out2 ← drain_class max 1 out1;
        out3 ← drain_class max 2 out2;
        out4 ← drain_class max 3 out3;
        if (length out4 =? length out)%nat then mret out4 else drain_rounds fuel' max out4
      else mret out
  end.

(** [drain_fair_batch]. *)
Definition drain_fair_batch (now : Z) (max : nat) : MP (list MempoolTx) :=
  purge_expired_internal_if_needed now;;
  if (max =? 0)%nat then mret []
  else sort_queues;; drain_rounds (S max) max [].

(** *** Peeking *)

Definition peek_class (max k : nat) (out : list MempoolTx) : MP (list MempoolTx) :=
  if (max <=? length out)%nat then mret out
  else
    m ← get;
    rr ← index (rr_vec_by_class m) k;
    pos ← index (rr_pos_by_class m) k;
    if bool_decide (rr = []) then mret out
    else
      idx ← index rr (if (length rr <=? pos)%nat then 0%nat else pos);
      match ready_vec m !! idx ≫= (fun rq => head (queue rq)) with
      | Some tx => mret (out ++ [tx])
      | None => mret out
      end.

Fixpoint peek_rounds (fuel max : nat) (out : list MempoolTx) : MP (list MempoolTx) :=
  match fuel with
  | O => mret out
  | S fuel' =>
      if (length out <? max)%nat then
        out1 ← peek_class max 0 out;
        out2 ← peek_class max 1 out1;
        out3 ← peek_class max 2 out2;
        out4 ← peek_class max 3 out3;
        if (length out4 =? length out)%nat then mret out4 else peek_rounds fuel' max out4
      else mret out
  end.

(** [peek_fair_batch]. *)
Definition peek_fair_batch (now : Z) (max : nat) : MP (list MempoolTx) :=
  purge_expired_internal_if_needed now;;
  if (max =? 0)%nat then mret [] else peek_rounds (S max) max [].

(** *** Restoring *)

Definition restore_one (tx : MempoolTx) : MP unit :=
  let sid := m_sender_id tx in
  ensure_index_capacity sid;;
  m ← get;
  o ← index (ready_index m) (Z.to_nat sid);
  match o with
  | Some idx =>
      match ready_vec m !! idx with
      | Some rq =>
          modify (set_queue idx (tx :: queue rq));;
          on_count sid S;;
          modify (fun m => set_total (S (total m)) m)
      | None => mret tt
      end
  | None =>
      let new_idx := length (ready_vec m) in
      modify (fun m => set_ready_vec (ready_vec m ++ [mkRq sid [tx]]) m);;
      modify (fun m => set_ready_index (<[Z.to_nat sid := Some new_idx]> (ready_index m)) m);;
      on_count sid (fun _ => 1%nat);;
      modify (fun m => set_total (S (total m)) m);;
      schedule (class_idx (m_class tx)) new_idx
  end;;
  modify (fun m => set_admission (record_restoration sid (m_class tx) (admission m)) m).

(** [restore_drained_txs]. *)
Fixpoint restore_drained_txs (l : list MempoolTx) : MP unit :=
  match l with
  | [] => mret tt
  | tx :: l' => restore_one tx;; restore_drained_txs l'
  end.

(** *** Queries *)

Definition all_handles (m : Mempool) : list Z := ready_vec m ≫= fun rq => m_tx_handle <$> queue rq.
Definition iter_handles_with_nonce (m : Mempool) : list (Z * Z * Z) :=
  ready_vec m ≫= fun rq => (fun tx => (m_sender_id tx, m_nonce tx, m_tx_handle tx)) <$> queue rq.
Definition extract_handles (l : list MempoolTx) : list Z := m_tx_handle <$> l.
Definition len (now : Z) : MP nat := purge_expired_internal_if_needed now;; gets total.
Definition diag_state (m : Mempool) : nat * nat * nat * nat :=
  (total m, length (ready_vec m), sum_list (length ∘ queue <$> ready_vec m),
   length (filter (fun rq => queue rq <> []) (ready_vec m))).
Definition is_empty (m : Mempool) : bool := (total m =? 0)%nat.

(** *** Committing a block *)

Fixpoint add_all (now : Z) (from_rpc : bool) (l : list (PrevalidatedTx * option bytes)) :
    MP (list AdmissionOutcome) :=
  match l with
  | [] => mret []
  | (t, hash) :: l' =>
      o ← add_prevalidated_with_source now t hash from_rpc;
      os ← add_all now from_rpc l'; mret (o :: os)
  end.

(** [add_prevalidated_batch_with_source]: the batch carries no hashes. *)
Definition add_prevalidated_batch_with_source (now : Z) (l : list PrevalidatedTx) (from_rpc : bool) :
    MP (list AdmissionOutcome) :=
  purge_expired_internal_if_needed now;; add_all now from_rpc ((fun t => (t, None)) <$> l).

Definition add_prevalidated_batch (now : Z) (l : list PrevalidatedTx) : MP (list AdmissionOutcome) :=
  add_prevalidated_batch_with_source now l true.

(** The eviction of nonces below the committed ones; the updates in the order
    the map is visited. *)
Definition evict_stale (updates : list (Z * Z)) : MP unit :=
  if bool_decide (updates = []) then mret tt
  else sweep_all (fun sid => (fun n tx => m_nonce tx <? n) <$> (list_to_map updates : gmap Z Z) !! sid) true.

(** [on_block_committed]. *)
Definition on_block_committed (now : Z) (committed : list Z) (updates : list (Z * Z)) : MP unit :=
  remove_by_handles committed;;
  evict_stale updates;;
  m ← get;
  let a := cleanup_queued_pool now (admission m) in
  let '(promoted, a) := promote_queued_batch updates a in
  modify (set_admission (new_round a));;
  add_all now false promoted;;
  mret tt.

Definition on_block_committed_legacy (now : Z) (committed : list Z) : MP unit :=
  on_block_committed now committed [].
End Core.
End Core.
