(* ===== verification/MempoolInv.v ===== *)
(** * The invariant of the mempool

    The well-formedness of the ready queues and their index, the accounting
    that ties counters and admission control to the queues, and the lemmas of
    the steps every operation is made of. *)

From S2P Require Import Prelude OrdMap Gas Account Fee QueuedPool Replay Admission AdmissionCorrect MempoolCore.

Module CoreInv.
Import Admit AdmitC Core.

(** ** Lists *)

Lemma last_lookup_pred {T} (v : list T) : last v = v !! (length v - 1)%nat.
Proof. rewrite last_lookup. f_equal. lia. Qed.

Lemma swap_remove_length {T} i (v : list T) : length (swap_remove i v) = (length v - 1)%nat.
Proof.
  unfold swap_remove. destruct (last v) as [x|] eqn:E.
  - rewrite length_take, length_insert. lia.
  - apply last_None in E. by subst.
Qed.

Lemma swap_remove_lookup {T} i (v : list T) j : (i < length v)%nat ->
  swap_remove i v !! j =
  if (j <? length v - 1)%nat then (if (j =? i)%nat then v !! (length v - 1)%nat else v !! j) else None.
Proof.
  intros Hi. unfold swap_remove. destruct (last v) as [x|] eqn:E.
  2: { apply last_None in E. subst. simpl in Hi. lia. }
  rewrite last_lookup_pred in E. destruct (Nat.ltb_spec j (length v - 1)).
  - rewrite lookup_take_lt by done. destruct (Nat.eqb_spec j i) as [->|Hne].
    + by rewrite list_lookup_insert_eq.
    + by rewrite list_lookup_insert_ne.
  - apply lookup_ge_None_2. rewrite length_take, length_insert. lia.
Qed.

Lemma swap_remove_perm {T} i (v : list T) x : v !! i = Some x -> x :: swap_remove i v ≡ₚ v.
Proof.
  intros Hx. unfold swap_remove. destruct (last v) as [y|] eqn:E.
  2: { apply last_None in E. by subst. }
  apply last_Some in E as [l ->]. rewrite length_app. simpl. replace (length l + 1 - 1)%nat with (length l) by lia.
  destruct (decide (i < length l)%nat) as [Hi|Hi].
  - rewrite insert_app_l by done. rewrite take_app_le by (rewrite length_insert; lia).
    rewrite firstn_all2 by (rewrite length_insert; lia). rewrite lookup_app_l in Hx by done.
    rewrite <- (take_drop_middle l i x Hx) at 2. rewrite insert_take_drop by done.
    rewrite <- !app_assoc. simpl. solve_Permutation.
  - assert (i = length l) as ->.
    { apply lookup_lt_Some in Hx. rewrite length_app in Hx. simpl in Hx. lia. }
    rewrite list_lookup_middle in Hx by done. injection Hx as ->.
    rewrite insert_app_r_alt by done. rewrite Nat.sub_diag. simpl.
    rewrite take_app_length. by rewrite Permutation_app_comm.
Qed.

Lemma resize_lookup_keep {T} (n : nat) (x : T) v j : (length v <= n)%nat ->
  resize n x v !! j = if (j <? length v)%nat then v !! j else if (j <? n)%nat then Some x else None.
Proof.
  intros Hn. destruct (Nat.ltb_spec j (length v)).
  - by rewrite lookup_resize by lia.
  - destruct (Nat.ltb_spec j n).
    + rewrite lookup_resize_new by lia. done.
    + apply lookup_ge_None_2. rewrite length_resize. lia.
Qed.

(** ** Queues *)

Definition put (idx : nat) (q : list MempoolTx) (v : list ReadyQueue) : list ReadyQueue :=
  alter (fun rq => mkRq (rq_sender_id rq) q) idx v.

Lemma put_lookup idx q v j :
  put idx q v !! j = (fun rq => mkRq (rq_sender_id rq) (if decide (j = idx) then q else queue rq)) <$> v !! j.
Proof.
  unfold put. destruct (decide (j = idx)) as [->|Hne].
  - by rewrite list_lookup_alter_eq.
  - rewrite list_lookup_alter_ne by done. destruct (v !! j) as [[? ?]|]; done.
Qed.

Lemma put_length idx q v : length (put idx q v) = length v.
Proof. apply length_alter. Qed.

Lemma put_put idx q q' v : put idx q (put idx q' v) = put idx q v.
Proof. apply list_eq. intros j. rewrite !put_lookup. destruct (v !! j); simpl; [|done]. by case_decide. Qed.

Lemma put_id idx v rq : v !! idx = Some rq -> put idx (queue rq) v = v.
Proof.
  intros Hq. apply list_eq. intros j. rewrite put_lookup. destruct (v !! j) as [[s q]|] eqn:E; simpl; [|done].
  case_decide; [|done]. subst. rewrite Hq in E. by injection E as ->.
Qed.

(** The sum of a weight over all transactions. *)
Definition weigh_queue (w : MempoolTx -> nat) (q : list MempoolTx) : nat := sum_list (w <$> q).
Definition weigh (w : MempoolTx -> nat) (v : list ReadyQueue) : nat :=
  sum_list ((fun rq => weigh_queue w (queue rq)) <$> v).

Definition one (_ : MempoolTx) : nat := 1.
Definition of_class (c : TxClass) (tx : MempoolTx) : nat := if decide (m_class tx = c) then 1 else 0.

Lemma sum_list_app l l' : sum_list (l ++ l') = (sum_list l + sum_list l')%nat.
Proof. induction l as [|n l IH]; simpl; [done|]. rewrite IH. lia. Qed.

Lemma sum_list_perm l l' : l ≡ₚ l' -> sum_list l = sum_list l'.
Proof. induction 1; simpl; lia. Qed.

Lemma weigh_queue_app w q q' : weigh_queue w (q ++ q') = (weigh_queue w q + weigh_queue w q')%nat.
Proof. unfold weigh_queue. by rewrite fmap_app, sum_list_app. Qed.

Lemma weigh_queue_cons w tx q : weigh_queue w (tx :: q) = (w tx + weigh_queue w q)%nat.
Proof. done. Qed.

Lemma weigh_queue_perm w q q' : q ≡ₚ q' -> weigh_queue w q = weigh_queue w q'.
Proof. intros Hq. unfold weigh_queue. apply sum_list_perm. by rewrite Hq. Qed.

Lemma weigh_queue_one q : weigh_queue one q = length q.
Proof. induction q as [|x q IH]; [done|]. rewrite weigh_queue_cons, IH. done. Qed.

Lemma weigh_cons w rq v : weigh w (rq :: v) = (weigh_queue w (queue rq) + weigh w v)%nat.
Proof. done. Qed.

Lemma weigh_app w v v' : weigh w (v ++ v') = (weigh w v + weigh w v')%nat.
Proof. unfold weigh. by rewrite fmap_app, sum_list_app. Qed.

Lemma weigh_perm w v v' : v ≡ₚ v' -> weigh w v = weigh w v'.
Proof. intros Hv. unfold weigh. apply sum_list_perm. by rewrite Hv. Qed.

Lemma weigh_put w idx q v rq : v !! idx = Some rq ->
  (weigh w (put idx q v) + weigh_queue w (queue rq) = weigh w v + weigh_queue w q)%nat.
Proof.
  intros Hq. assert (put idx q v = take idx v ++ mkRq (rq_sender_id rq) q :: drop (S idx) v) as ->.
  { rewrite <- (take_drop_middle v idx rq Hq) at 1. unfold put.
    rewrite alter_app_r_alt by (rewrite length_take; lia).
    rewrite length_take_le by (apply lookup_lt_Some in Hq; lia). by rewrite Nat.sub_diag. }
  rewrite <- (take_drop_middle v idx rq Hq) at 3. rewrite !weigh_app. unfold weigh. simpl. lia.
Qed.

(** ** The invariant

    It is stated of a vector of queues [v] that may be ahead of the field
    [ready_vec]: a sweep accounts for the transactions it drops one by one and
    writes the queue back at the end. *)

Definition of_sender (s : Z) (tx : MempoolTx) : nat := if decide (m_sender_id tx = s) then 1 else 0.
Definition of_device (d : Z) (tx : MempoolTx) : nat :=
  if decide (m_class tx = IoTData) then of_sender d tx else 0.

(** A sender's index entry is the position of its queue. *)
Definition index_ok (v : list ReadyQueue) (ri : list (option nat)) : Prop :=
  forall i rq, v !! i = Some rq -> 0 <= rq_sender_id rq /\ ri !! Z.to_nat (rq_sender_id rq) = Some (Some i).
Definition index_back (v : list ReadyQueue) (ri : list (option nat)) : Prop :=
  forall j i, ri !! j = Some (Some i) -> exists rq, v !! i = Some rq /\ rq_sender_id rq = Z.of_nat j.

Definition txs_ok (v : list ReadyQueue) : Prop :=
  forall i rq tx, v !! i = Some rq -> tx ∈ queue rq -> m_sender_id tx = rq_sender_id rq.

(** Every slot of the schedule points into the vector. *)
Definition sched_ok (n : nat) (rr : list (list nat)) (pos : list nat) : Prop :=
  length rr = 4%nat /\ length pos = 4%nat /\ Forall (Forall (fun i => i < n)%nat) rr.

Definition queue_len (v : list ReadyQueue) (o : option nat) : nat :=
  match o with
  | Some i => match v !! i with Some rq => length (queue rq) | None => 0 end
  | None => 0
  end.

Section Inv.
Context `{LruCache Replay.ReplayEntry} `{AccountBincode}.

(** The counts of admission control are those of the transactions held. *)
Record adm_counts (v : list ReadyQueue) (a : AdmissionControl) : Prop := {
  ac_global : global_count a = weigh one v;
  ac_sender : forall s, count_of (sender_counts a) s = weigh (of_sender s) v;
  ac_class : forall c, count_of (class_counts a) c = weigh (of_class c) v;
  ac_device : forall d, count_of (device_counts a) d = weigh (of_device d) v;
}.

(** What holds of admission control beside the counts; the caps do unless
    drained transactions may be [restoring]. *)
Definition adm_inv (restoring : bool) (c : AdmissionConfig) (a : AdmissionControl) : Prop :=
  config a = c /\ adm_ok a /\ (restoring = false -> caps_ok a).

Record mp_inv (restoring : bool) (c : AdmissionConfig) (v : list ReadyQueue) (m : Mempool) : Prop := {
  mi_index : index_ok v (ready_index m);
  mi_back : index_back v (ready_index m);
  mi_txs : txs_ok v;
  mi_sched : sched_ok (length v) (rr_vec_by_class m) (rr_pos_by_class m);
  mi_counts : counts m = queue_len v <$> ready_index m;
  mi_total : total m = weigh one v;
  mi_adm : adm_counts v (admission m);
  mi_inv : adm_inv restoring c (admission m);
}.

(** The consistent states: nothing is ahead. *)
Definition mp_ok (restoring : bool) (c : AdmissionConfig) (m : Mempool) : Prop :=
  mp_inv restoring c (ready_vec m) m.

Lemma adm_inv_left r c sid cl a a' : left_pool sid cl a a' -> adm_inv r c a -> adm_inv r c a'.
Proof.
  intros Hl (E & Hok & Hcaps). split; [by rewrite (lv_config _ _ _ _ Hl)|].
  split; [by eapply left_ok|]. intros Hr. eapply left_caps; [done|by apply Hcaps].
Qed.

Lemma of_sender_eq s tx : of_sender s tx = if decide (s = m_sender_id tx) then 1%nat else 0%nat.
Proof. unfold of_sender. destruct (decide _), (decide _); congruence. Qed.
Lemma of_class_eq c tx : of_class c tx = if decide (c = m_class tx) then 1%nat else 0%nat.
Proof. unfold of_class. destruct (decide _), (decide _); congruence. Qed.

(** A transaction more, or a transaction less, in the counts. *)
Lemma adm_counts_enter v v' sid cl x a a' :
  m_sender_id x = sid -> m_class x = cl -> (forall w, weigh w v' = w x + weigh w v)%nat ->
  entered sid cl a a' -> adm_counts v a -> adm_counts v' a'.
Proof.
  intros <- <- Hw [_ _ _ E1 E2 E3 E4] [A1 A2 A3 A4].
  split; rewrite ?E1, ?E2, ?E3, ?E4; clear E1 E2 E3 E4.
  - rewrite Hw, A1. done.
  - intros s. rewrite Hw, count_incr, of_sender_eq. case_decide; subst; by rewrite A2.
  - intros s. rewrite Hw, count_incr, of_class_eq. case_decide; subst; by rewrite A3.
  - intros s. rewrite Hw. unfold of_device at 1. case_decide; [|by rewrite A4].
    rewrite count_incr, of_sender_eq. case_decide; subst; by rewrite A4.
Qed.

Lemma adm_counts_leave v v' sid cl x a a' :
  m_sender_id x = sid -> m_class x = cl -> (forall w, weigh w v = w x + weigh w v')%nat ->
  left_pool sid cl a a' -> adm_counts v a -> adm_counts v' a'.
Proof.
  intros <- <- Hw [_ _ _ E1 E2 E3 E4] [A1 A2 A3 A4].
  split; rewrite ?E1, ?E2, ?E3, ?E4; clear E1 E2 E3 E4.
  - rewrite A1, Hw. unfold one at 1. lia.
  - intros s. rewrite count_decr. case_decide; subst; rewrite A2, Hw, of_sender_eq;
      [rewrite decide_True by done|rewrite decide_False by done]; lia.
  - intros s. rewrite count_decr_keep. case_decide; subst; rewrite A3, Hw, of_class_eq;
      [rewrite decide_True by done|rewrite decide_False by done]; lia.
  - intros s. specialize (Hw (of_device s)). unfold of_device at 2 in Hw. case_decide; [|by rewrite A4].
    rewrite of_sender_eq in Hw. rewrite count_decr. case_decide; subst; rewrite A4, Hw; lia.
Qed.

(** ** Writing one queue *)

Lemma index_ok_put idx q v ri : index_ok v ri -> index_ok (put idx q v) ri.
Proof.
  intros Hi i rq Hrq. rewrite put_lookup in Hrq. destruct (v !! i) as [rq'|] eqn:E; [|done].
  injection Hrq as <-. apply (Hi _ _ E).
Qed.

Lemma index_back_put idx q v ri : index_back v ri -> index_back (put idx q v) ri.
Proof.
  intros Hi j i Hj. destruct (Hi j i Hj) as (rq & Hrq & Es). rewrite put_lookup, Hrq. by eexists.
Qed.

Lemma txs_ok_put idx q v rq : v !! idx = Some rq -> (forall tx, tx ∈ q -> m_sender_id tx = rq_sender_id rq) ->
  txs_ok v -> txs_ok (put idx q v).
Proof.
  intros Hq Htx Hv i rq' tx Hrq. rewrite put_lookup in Hrq. destruct (v !! i) as [rq0|] eqn:E; [|done].
  injection Hrq as <-. simpl. case_decide; [subst; rewrite Hq in E; injection E as <-; apply Htx|by apply (Hv i)].
Qed.

Lemma counts_put idx q v rq ri : index_ok v ri -> index_back v ri -> v !! idx = Some rq ->
  queue_len (put idx q v) <$> ri = <[Z.to_nat (rq_sender_id rq) := length q]> (queue_len v <$> ri).
Proof.
  intros Hi Hb Hq. destruct (Hi _ _ Hq) as [Hs Hri]. apply list_eq. intros j. rewrite list_lookup_fmap.
  destruct (decide (j = Z.to_nat (rq_sender_id rq))) as [->|Hne].
  - rewrite list_lookup_insert_eq by (rewrite length_fmap; by eapply lookup_lt_Some). rewrite Hri. simpl.
    rewrite put_lookup, Hq. simpl. by rewrite decide_True.
  - rewrite list_lookup_insert_ne by done. rewrite list_lookup_fmap. destruct (ri !! j) as [[i|]|] eqn:E; simpl; [|done..].
    rewrite put_lookup. destruct (Hb _ _ E) as (rq' & Hrq' & Es). rewrite Hrq'. simpl.
    rewrite decide_False; [done|]. intros ->. rewrite Hq in Hrq'. injection Hrq' as <-. rewrite Es in Hne. lia.
Qed.

Lemma inv_count r c v m idx rq : mp_inv r c v m -> v !! idx = Some rq ->
  counts m !! Z.to_nat (rq_sender_id rq) = Some (length (queue rq)).
Proof.
  intros Hm Hq. destruct (mi_index _ _ _ _ Hm _ _ Hq) as [_ Hri].
  by rewrite (mi_counts _ _ _ _ Hm), list_lookup_fmap, Hri; simpl; rewrite Hq.
Qed.

(** The invariant ties the counters, the schedule and the index to [v]; the
    counters are given here by what they must become. *)
Lemma inv_put r c v m m' idx rq q a' :
  mp_inv r c v m -> v !! idx = Some rq -> (forall tx, tx ∈ q -> m_sender_id tx = rq_sender_id rq) ->
  ready_index m' = ready_index m -> rr_vec_by_class m' = rr_vec_by_class m ->
  rr_pos_by_class m' = rr_pos_by_class m ->
  counts m' = <[Z.to_nat (rq_sender_id rq) := length q]> (counts m) ->
  total m' = weigh one (put idx q v) -> admission m' = a' ->
  adm_counts (put idx q v) a' -> adm_inv r c a' ->
  mp_inv r c (put idx q v) m'.
Proof.
  intros Hm Hq Htx Eri Err Epos Ec Et Ea Hac Hai. split; rewrite ?Eri, ?Err, ?Epos, ?Ec, ?Et, ?Ea; try done.
  - apply index_ok_put, Hm.
  - apply index_back_put, Hm.
  - eapply txs_ok_put; [done|done|apply Hm].
  - rewrite put_length. apply Hm.
  - rewrite (mi_counts _ _ _ _ Hm). by rewrite (counts_put _ _ _ rq); [|apply Hm|apply Hm|done].
Qed.

(** ** A transaction leaves *)

Lemma weigh_pick w idx v rq pre x l : v !! idx = Some rq -> queue rq = pre ++ x :: l ->
  weigh w v = (w x + weigh w (put idx (pre ++ l) v))%nat.
Proof.
  intros Hq E. pose proof (weigh_put w idx (pre ++ l) v rq Hq) as Hw. rewrite E in Hw.
  rewrite !weigh_queue_app, weigh_queue_cons in Hw. lia.
Qed.

Lemma wp_on_count sid f n (Q : unit -> Mempool -> Prop) R m :
  counts m !! Z.to_nat sid = Some n ->
  Q tt (set_counts (<[Z.to_nat sid := f n]> (counts m)) m) -> wp (on_count sid f) Q R m.
Proof.
  intros Hn HQ. unfold on_count. apply wp_bind, wp_get. unfold index. rewrite Hn. done.
Qed.

(** Only the counters and the admission control change. *)
Definition counters_only (m m' : Mempool) : Prop :=
  exists a n t, m' = set_admission a (set_counts n (set_total t m)).

#[export] Instance counters_only_refl : Reflexive counters_only.
Proof. intros m. exists (admission m), (counts m), (total m). by destruct m. Qed.
#[export] Instance counters_only_trans : Transitive counters_only.
Proof. intros m m' m'' (a & n & t & ->) (a' & n' & t' & ->). by exists a', n', t'. Qed.

Lemma wp_account_removal r c v m idx rq pre x l (R : Panic -> Mempool -> Prop) :
  mp_inv r c v m -> v !! idx = Some rq -> queue rq = pre ++ x :: l ->
  wp (account_removal (rq_sender_id rq) x)
    (fun _ m' => counters_only m m' /\ mp_inv r c (put idx (pre ++ l) v) m') R m.
Proof.
  intros Hm Hq E. pose proof (inv_count r c v m idx rq Hm Hq) as Hn.
  assert (forall tx, tx ∈ queue rq -> m_sender_id tx = rq_sender_id rq) as Htx
    by (intros tx; apply (mi_txs _ _ _ _ Hm _ _ _ Hq)).
  apply wp_bind, wp_modify. apply wp_bind. eapply wp_on_count; [exact Hn|]. apply wp_modify.
  split; [by eexists _, _, _|].
  destruct (record_removal_spec (rq_sender_id rq) (m_class x) (m_tx_hash x) (admission m)) as [Hl _].
  eapply (inv_put _ _ _ m); try done.
  - intros tx Hin. apply Htx. rewrite E, elem_of_app, elem_of_cons in *. tauto.
  - simpl. do 2 f_equal. rewrite E, !length_app. simpl. lia.
  - simpl. rewrite (mi_total _ _ _ _ Hm), (weigh_pick one idx v rq pre x l Hq E). unfold one at 1. lia.
  - eapply adm_counts_leave; [|done|by intros; eapply weigh_pick|exact Hl|apply Hm].
    apply Htx. rewrite E, elem_of_app, elem_of_cons. tauto.
  - eapply adm_inv_left; [exact Hl|apply Hm].
Qed.

(** ** Sweeping one queue *)

Definition kept (d : MempoolTx -> bool) (q : list MempoolTx) : list MempoolTx :=
  filter (fun tx => d tx = false) q.

Lemma wp_sweep_txs r c d v m idx rq pre l (R : Panic -> Mempool -> Prop) :
  mp_inv r c v m -> v !! idx = Some rq -> queue rq = pre ++ l ->
  wp (sweep_txs d (rq_sender_id rq) l)
    (fun k m' => k = kept d l /\ counters_only m m' /\ mp_inv r c (put idx (pre ++ k) v) m') R m.
Proof.
  revert v m rq pre. induction l as [|x l IH]; intros v m rq pre Hm Hq E; simpl.
  - split; [done|]. split; [done|]. by rewrite <- E, put_id.
  - unfold kept. rewrite filter_cons. destruct (d x) eqn:Ed.
    + rewrite decide_False by done. apply wp_bind. eapply wp_mono_ok; [by eapply wp_account_removal|].
      intros [] m1 [Hc1 Hm1].
      eapply wp_mono_ok; [apply (IH _ _ (mkRq (rq_sender_id rq) (pre ++ l)) pre Hm1)|]; [|done|].
      * rewrite put_lookup, Hq. simpl. by rewrite decide_True.
      * intros k m2 (-> & Hc2 & Hm2). rewrite put_put in Hm2. split; [done|]. split; [by etrans|done].
    + rewrite decide_True by done. apply wp_bind.
      eapply wp_mono_ok; [apply (IH _ _ rq (pre ++ [x]) Hm Hq); by rewrite <- app_assoc|].
      intros k m2 (-> & Hc2 & Hm2). rewrite <- app_assoc in Hm2. split; [done|]. by split.
Qed.

(** Writing the queue back brings the vector level with its ghost. *)
Lemma inv_write r c v m idx q m' :
  mp_inv r c v m -> ready_vec m' = v ->
  m' = set_queue idx q m -> mp_ok r c m'.
Proof. intros Hm Hv ->. unfold mp_ok. rewrite Hv. destruct Hm. by split. Qed.

(** ** Removing an empty queue *)

Lemma index_ok_inj v ri i j rq rq' : index_ok v ri -> v !! i = Some rq -> v !! j = Some rq' ->
  rq_sender_id rq = rq_sender_id rq' -> i = j.
Proof.
  intros Hi Hv Hv' E. destruct (Hi _ _ Hv) as [_ H1]. destruct (Hi _ _ Hv') as [_ H2].
  rewrite E in H1. congruence.
Qed.

(** The index after the removal of the queue at [idx]. *)
Definition index_without (idx : nat) (v : list ReadyQueue) (s : Z) (ri : list (option nat)) : list (option nat) :=
  match (if negb (idx =? length v - 1)%nat then swap_remove idx v !! idx else None) with
  | Some swapped => <[Z.to_nat (rq_sender_id swapped) := Some idx]> (<[Z.to_nat s := None]> ri)
  | None => <[Z.to_nat s := None]> ri
  end.

Lemma index_without_lookup idx v ri rq j :
  index_ok v ri -> index_back v ri -> v !! idx = Some rq ->
  index_without idx v (rq_sender_id rq) ri !! j =
  match ri !! j with
  | Some (Some i) => if decide (i = idx) then Some None
                     else if decide (i = length v - 1)%nat then Some (Some idx) else Some (Some i)
  | o => o
  end.
Proof.
  intros Hi Hb Hq. destruct (Hi _ _ Hq) as [Hs Hri].
  pose proof (lookup_lt_Some _ _ _ Hq) as Hlt. unfold index_without.
  destruct (Nat.eqb_spec idx (length v - 1)) as [Heq|Hne]; simpl.
  - destruct (decide (j = Z.to_nat (rq_sender_id rq))) as [->|Hj].
    + rewrite list_lookup_insert_eq by (by eapply lookup_lt_Some). rewrite Hri. by rewrite decide_True.
    + rewrite list_lookup_insert_ne by done. destruct (ri !! j) as [[i|]|] eqn:E; [|done..].
      destruct (Hb _ _ E) as (rq' & Hv' & Es). rewrite !decide_False; [done|..];
        intros ->; apply Hj; replace rq with rq' by congruence; lia.
  - rewrite swap_remove_lookup by done. rewrite (proj2 (Nat.ltb_lt _ _)) by lia. rewrite Nat.eqb_refl.
    destruct (lookup_lt_is_Some_2 v (length v - 1)) as [last Hlast]; [lia|]. rewrite Hlast.
    destruct (Hi _ _ Hlast) as [Hs' Hri'].
    destruct (decide (j = Z.to_nat (rq_sender_id last))) as [->|Hj'].
    + rewrite list_lookup_insert_eq by (rewrite length_insert; by eapply lookup_lt_Some).
      rewrite Hri'. rewrite decide_False by lia. by rewrite decide_True.
    + rewrite list_lookup_insert_ne by done. destruct (decide (j = Z.to_nat (rq_sender_id rq))) as [->|Hj].
      * rewrite list_lookup_insert_eq by (by eapply lookup_lt_Some). rewrite Hri. by rewrite decide_True.
      * rewrite list_lookup_insert_ne by done. destruct (ri !! j) as [[i|]|] eqn:E; [|done..].
        destruct (Hb _ _ E) as (rq' & Hv' & Es). rewrite !decide_False; [done|..]; intros ->.
        -- apply Hj'. replace last with rq' by congruence. lia.
        -- apply Hj. replace rq with rq' by congruence. lia.
Qed.

Lemma swap_remove_inv {T} idx (v : list T) j x : (idx < length v)%nat -> swap_remove idx v !! j = Some x ->
  (j = idx /\ idx <> length v - 1 /\ v !! (length v - 1) = Some x)%nat \/
  (j <> idx /\ j < length v - 1 /\ v !! j = Some x)%nat.
Proof.
  intros Hi Hj. rewrite swap_remove_lookup in Hj by done.
  destruct (Nat.ltb_spec j (length v - 1)); [|done].
  destruct (Nat.eqb_spec j idx); [left; split_and!; [done|lia|done]|by right].
Qed.

Section Remove.
Context (idx : nat) (v : list ReadyQueue) (ri : list (option nat)) (rq : ReadyQueue).
Context (Hi : index_ok v ri) (Hb : index_back v ri) (Hq : v !! idx = Some rq) (He : queue rq = []).
#[local] Lemma in_range_idx : (idx < length v)%nat.
Proof. by eapply lookup_lt_Some. Qed.

Lemma remove_index : index_ok (swap_remove idx v) (index_without idx v (rq_sender_id rq) ri).
Proof.
  intros i rq' Hrq'. pose proof in_range_idx as Hlt.
  apply swap_remove_inv in Hrq' as [(-> & Hne & Hl)|(Hne & Hlt' & Hl)]; [| |done];
    destruct (Hi _ _ Hl) as [Hs Hri]; (split; [done|]); rewrite (index_without_lookup _ _ _ _ _ Hi Hb Hq), Hri.
  - rewrite decide_False by lia. by rewrite decide_True.
  - by rewrite !decide_False by lia.
Qed.

Lemma remove_back : index_back (swap_remove idx v) (index_without idx v (rq_sender_id rq) ri).
Proof.
  intros j i Hj. pose proof in_range_idx as Hlt. rewrite (index_without_lookup _ _ _ _ _ Hi Hb Hq) in Hj.
  destruct (ri !! j) as [[k|]|] eqn:E; [|done..]. destruct (Hb _ _ E) as (rq' & Hv' & Es).
  exists rq'. split; [|done]. rewrite swap_remove_lookup by done. pose proof (lookup_lt_Some _ _ _ Hv').
  destruct (decide (k = idx)); [done|]. destruct (decide (k = length v - 1)%nat) as [->|Hk]; injection Hj as <-.
  - rewrite (proj2 (Nat.ltb_lt _ _)) by lia. by rewrite Nat.eqb_refl.
  - rewrite (proj2 (Nat.ltb_lt _ _)) by lia. by rewrite (proj2 (Nat.eqb_neq _ _)).
Qed.

Lemma remove_txs : txs_ok v -> txs_ok (swap_remove idx v).
Proof.
  intros Ht i rq' tx Hrq'. apply swap_remove_inv in Hrq' as [(_ & _ & Hl)|(_ & _ & Hl)];
    [by eapply Ht|by eapply Ht|apply in_range_idx].
Qed.

Lemma remove_counts :
  queue_len (swap_remove idx v) <$> index_without idx v (rq_sender_id rq) ri = queue_len v <$> ri.
Proof.
  apply list_eq. intros j. rewrite !list_lookup_fmap, (index_without_lookup _ _ _ _ _ Hi Hb Hq).
  pose proof in_range_idx as Hlt. destruct (ri !! j) as [[k|]|] eqn:E; [|done..].
  destruct (Hb _ _ E) as (rq' & Hv' & Es). pose proof (lookup_lt_Some _ _ _ Hv').
  destruct (decide (k = idx)) as [->|Hk]; simpl.
  - rewrite Hq, He. done.
  - destruct (decide (k = length v - 1)%nat) as [->|Hk']; simpl; rewrite swap_remove_lookup by done;
      rewrite (proj2 (Nat.ltb_lt _ _)) by lia; [by rewrite Nat.eqb_refl|by rewrite (proj2 (Nat.eqb_neq _ _))].
Qed.

Lemma remove_weigh w : weigh w (swap_remove idx v) = weigh w v.
Proof. rewrite <- (weigh_perm w _ _ (swap_remove_perm idx v rq Hq)). unfold weigh. simpl. by rewrite He. Qed.
End Remove.

Lemma adm_counts_weigh v v' a : (forall w, weigh w v' = weigh w v) -> adm_counts v a -> adm_counts v' a.
Proof. intros E [? ? ? ?]. split; intros; by rewrite E. Qed.

Lemma filter_slots n (rr : list (list nat)) : length rr = 4%nat ->
  length ((fun v : list nat => filter (fun i => (i < n)%nat) v) <$> rr) = 4%nat /\
  Forall (Forall (fun i => i < n)%nat) ((fun v : list nat => filter (fun i => (i < n)%nat) v) <$> rr).
Proof.
  intros Hl. split; [by rewrite length_fmap|]. apply Forall_fmap, Forall_true. intros v. simpl.
  apply Forall_forall. intros i Hi. by apply list_elem_of_filter in Hi as [? _].
Qed.

Lemma length_reset_cursors pos rr : length pos = length rr -> length (reset_cursors pos rr) = length pos.
Proof. intros E. unfold reset_cursors. rewrite length_zip_with. lia. Qed.

(** ** The schedule

    It is exact when it lists every nonempty queue once and nothing else. *)
Definition sched_exact (v : list ReadyQueue) (rr : list (list nat)) : Prop :=
  NoDup (concat rr) /\
  forall i, i ∈ concat rr <-> exists rq, v !! i = Some rq /\ queue rq <> [].

Lemma sched_exact_put v rr idx q rq : v !! idx = Some rq -> (q = [] <-> queue rq = []) ->
  sched_exact v rr -> sched_exact (put idx q v) rr.
Proof.
  intros Hq He [Hnd Hs]. split; [done|]. intros i. rewrite Hs, put_lookup.
  destruct (decide (i = idx)) as [->|Hne].
  - rewrite Hq. simpl. split; intros (rq' & [= <-] & Hne); eexists; (split; [done|]); naive_solver.
  - destruct (v !! i) as [rq'|]; simpl; [|naive_solver].
    split; intros (rq'' & [= <-] & Hn); eexists; done.
Qed.

Lemma filter_slots_id n (rr : list (list nat)) : (forall i, i ∈ concat rr -> i < n)%nat ->
  (fun v : list nat => filter (fun i => (i < n)%nat) v) <$> rr = rr.
Proof.
  induction rr as [|l rr IH]; intros Hn; simpl; [done|]. f_equal; [|apply IH; intros; apply Hn; simpl; rewrite elem_of_app; by right].
  apply filter_keep_all. apply Forall_forall. intros i Hi. apply Hn. simpl. rewrite elem_of_app. by left.
Qed.

Lemma sched_exact_remove v rr idx rq : v !! idx = Some rq -> queue rq = [] -> sched_exact v rr ->
  sched_exact (swap_remove idx v)
    ((fun v' : list nat => filter (fun i => (i < length (swap_remove idx v))%nat) v') <$>
     (if negb (idx =? length v - 1)%nat then redirect (length v - 1) idx rr else rr)).
Proof.
  intros Hq He [Hnd Hs]. pose proof (lookup_lt_Some _ _ _ Hq) as Hlt. rewrite swap_remove_length.
  assert (idx ∉ concat rr) as Hni by (rewrite Hs; intros (rq' & Hq' & Hne); congruence).
  assert (forall i, i ∈ concat rr -> (i < length v)%nat) as Hlen
    by (intros i Hi; apply Hs in Hi as (rq' & Hv & _); by eapply lookup_lt_Some).
  set (f := fun slot : nat => if (slot =? length v - 1)%nat then idx else slot).
  assert ((if negb (idx =? length v - 1)%nat then redirect (length v - 1) idx rr else rr) =
    (fun l : list nat => f <$> l) <$> rr) as ->.
  { destruct (Nat.eqb_spec idx (length v - 1)) as [E|]; [|done]. simpl. rewrite <- (list_fmap_id rr) at 1.
    apply list_fmap_ext. intros k l Hl. simpl. rewrite <- (list_fmap_id l) at 1. apply list_fmap_ext.
    intros k' j _. unfold f. simpl. destruct (Nat.eqb_spec j (length v - 1)); congruence. }
  assert (concat ((fun l : list nat => f <$> l) <$> rr) = f <$> concat rr) as Ec by (symmetry; apply concat_map).
  assert (forall i, i ∈ f <$> concat rr -> (i < length v - 1)%nat) as Hf.
  { intros i Hi. apply list_elem_of_fmap in Hi as (k & -> & Hk). specialize (Hlen k Hk). unfold f.
    destruct (Nat.eqb_spec k (length v - 1)); [|lia]. subst.
    assert (idx <> length v - 1)%nat by (intros E; by rewrite <- E in Hk). lia. }
  rewrite filter_slots_id by (rewrite Ec; apply Hf). split; rewrite Ec.
  - apply NoDup_fmap_2_strong; [|done]. intros i j Hi Hj. unfold f.
    destruct (Nat.eqb_spec i (length v - 1)), (Nat.eqb_spec j (length v - 1)); intros; subst; done.
  - intros i. rewrite list_elem_of_fmap. split.
    + intros (k & Ei & Hk). pose proof (Hf i) as Hi. rewrite list_elem_of_fmap in Hi. specialize (Hi (ex_intro _ k (conj Ei Hk))).
      apply Hs in Hk as (rq' & Hv & Hne). exists rq'. split; [|done]. rewrite swap_remove_lookup by done.
      rewrite (proj2 (Nat.ltb_lt _ _)) by lia. subst i. unfold f in *.
      destruct (Nat.eqb_spec k (length v - 1)) as [->|]; [by rewrite Nat.eqb_refl|].
      destruct (Nat.eqb_spec k idx); [congruence|done].
    + intros (rq' & Hv & Hne). apply swap_remove_inv in Hv as [(-> & Hn & Hl)|(Hn & Hl' & Hl)]; [| |done].
      * exists (length v - 1)%nat. unfold f. rewrite Nat.eqb_refl. split; [done|]. apply Hs. by exists rq'.
      * exists i. unfold f. rewrite (proj2 (Nat.eqb_neq _ _)) by lia. split; [done|]. apply Hs. by exists rq'.
Qed.

Lemma wp_remove_ready_queue r c m idx rq (R : Panic -> Mempool -> Prop) :
  mp_ok r c m -> ready_vec m !! idx = Some rq -> queue rq = [] ->
  wp (remove_ready_queue idx)
    (fun _ m' => mp_ok r c m' /\ ready_vec m' = swap_remove idx (ready_vec m) /\ cfg m' = cfg m /\
       (sched_exact (ready_vec m) (rr_vec_by_class m) -> sched_exact (ready_vec m') (rr_vec_by_class m'))) R m.
Proof.
  intros Hm Hq He. destruct Hm as [Hi Hb Ht (Hrr & Hpos & _) Hc Htot Hac Hai].
  unfold remove_ready_queue, wp, modify. rewrite Hq.
  split; [|split; [done|split; [done|by eapply sched_exact_remove]]].
  set (rr := if negb _ then redirect _ _ _ else rr_vec_by_class m).
  assert (length rr = 4%nat) as Hrr' by (unfold rr, redirect; destruct (negb _); by rewrite ?length_fmap).
  destruct (filter_slots (length (swap_remove idx (ready_vec m))) rr Hrr') as [Hf1 Hf2].
  pose proof (remove_weigh idx (ready_vec m) rq Hq He) as Hw. split.
  - by eapply remove_index.
  - by eapply remove_back.
  - by eapply remove_txs.
  - split; [done|]. split; [|done]. simpl. rewrite length_reset_cursors by lia. lia.
  - simpl. rewrite Hc. symmetry. by eapply remove_counts.
  - simpl. by rewrite Hw.
  - by eapply adm_counts_weigh.
  - done.
Qed.

(** ** The abstract content: a queue per sender *)

Implicit Types (v : list ReadyQueue) (rq : ReadyQueue).

Definition content (v : list ReadyQueue) (s : Z) : list MempoolTx :=
  match list_find (fun rq => rq_sender_id rq = s) v with Some (_, rq) => queue rq | None => [] end.

Lemma content_at v ri i rq : index_ok v ri -> v !! i = Some rq -> content v (rq_sender_id rq) = queue rq.
Proof.
  intros Hi Hv. unfold content. destruct (list_find _ v) as [[k rq']|] eqn:E.
  - apply list_find_Some in E as (Hk & Es & _). assert (k = i) as -> by by eapply index_ok_inj. congruence.
  - apply list_find_None in E. rewrite Forall_lookup in E. by apply (E i) in Hv.
Qed.

Lemma content_none v s : (forall i rq, v !! i = Some rq -> rq_sender_id rq <> s) -> content v s = [].
Proof.
  intros Hv. unfold content. destruct (list_find _ v) as [[k rq]|] eqn:E; [|done].
  apply list_find_Some in E as (Hk & Es & _). by apply Hv in Hk.
Qed.

Lemma owner_dec v s : (exists i rq, v !! i = Some rq /\ rq_sender_id rq = s) \/
  (forall i rq, v !! i = Some rq -> rq_sender_id rq <> s).
Proof.
  destruct (list_find (fun rq => rq_sender_id rq = s) v) as [[k rq]|] eqn:E.
  - apply list_find_Some in E as (Hk & Es & _). left. by exists k, rq.
  - apply list_find_None in E. rewrite Forall_lookup in E. by right.
Qed.

Lemma content_put v ri idx rq q s : index_ok v ri -> v !! idx = Some rq ->
  content (put idx q v) s = if decide (s = rq_sender_id rq) then q else content v s.
Proof.
  intros Hi Hq. pose proof (index_ok_put idx q v ri Hi) as Hi'.
  destruct (owner_dec v s) as [(i & rq' & Hv & <-)|Hn].
  - pose proof (put_lookup idx q v i) as Hl. rewrite Hv in Hl. simpl in Hl.
    pose proof (content_at _ _ _ _ Hi' Hl) as Hc. simpl in Hc. rewrite Hc.
    destruct (decide (i = idx)) as [->|Hne].
    + rewrite decide_True; [done|congruence].
    + rewrite decide_False; [by rewrite (content_at _ _ _ _ Hi Hv)|].
      intros E. apply Hne. exact (index_ok_inj _ _ _ _ _ _ Hi Hv Hq E).
  - rewrite decide_False by (intros ->; by apply (Hn idx rq)). rewrite !content_none; [done..|].
    intros i rq' Hl. rewrite put_lookup in Hl. destruct (v !! i) eqn:E; [|done]. injection Hl as <-. apply (Hn _ _ E).
Qed.

Lemma content_remove v ri idx rq s : index_ok v ri -> index_back v ri -> v !! idx = Some rq -> queue rq = [] ->
  content (swap_remove idx v) s = content v s.
Proof.
  intros Hi Hb Hq He. pose proof (remove_index idx v ri rq Hi Hb Hq) as Hi'.
  pose proof (lookup_lt_Some _ _ _ Hq) as Hlt.
  destruct (owner_dec (swap_remove idx v) s) as [(i & rq' & Hv & <-)|Hn].
  - rewrite (content_at _ _ _ _ Hi' Hv).
    apply swap_remove_inv in Hv as [(_ & _ & Hl)|(_ & _ & Hl)]; [symmetry; by eapply content_at..|done].
  - rewrite (content_none _ _ Hn). destruct (owner_dec v s) as [(i & rq' & Hv & <-)|Hn']; [|by rewrite content_none].
    rewrite (content_at _ _ _ _ Hi Hv). destruct (decide (i = idx)) as [->|Hne]; [congruence|]. exfalso.
    pose proof (lookup_lt_Some _ _ _ Hv). destruct (decide (i = length v - 1)%nat) as [->|Hne'].
    + apply (Hn idx rq'); [|done]. rewrite swap_remove_lookup by done.
      rewrite (proj2 (Nat.ltb_lt _ _)) by lia. by rewrite Nat.eqb_refl.
    + apply (Hn i rq'); [|done]. rewrite swap_remove_lookup by done.
      rewrite (proj2 (Nat.ltb_lt _ _)) by lia. by rewrite (proj2 (Nat.eqb_neq _ _)).
Qed.

(** *** The content determines the books *)

Definition senders v : list Z := rq_sender_id <$> v.

Lemma index_ok_senders v ri : index_ok v ri -> NoDup (senders v).
Proof.
  intros Hi. apply NoDup_alt. intros i j s Hvi Hvj. unfold senders in *. rewrite list_lookup_fmap in Hvi, Hvj.
  destruct (v !! i) as [rq|] eqn:Ei; [|done]. destruct (v !! j) as [rq'|] eqn:Ej; [|done].
  injection Hvi as <-. injection Hvj as Es. by eapply index_ok_inj.
Qed.

Lemma content_cons rq v s : content (rq :: v) s = if decide (rq_sender_id rq = s) then queue rq else content v s.
Proof. unfold content. simpl. case_decide; [done|]. by destruct (list_find _ v) as [[]|]. Qed.

Lemma content_absent v s : s ∉ senders v -> content v s = [].
Proof.
  intros Hs. apply content_none. intros i rq Hv <-. apply Hs, list_elem_of_fmap. exists rq.
  split; [done|]. by eapply list_elem_of_lookup_2.
Qed.

Lemma content_perm v v' s : NoDup (senders v) -> v ≡ₚ v' -> content v s = content v' s.
Proof.
  intros Hnd Hp. induction Hp as [|rq v v' Hp IH|rq rq' v|v v' v'' Hp IH Hp' IH']; [done| | |].
  - apply NoDup_cons in Hnd as [_ Hnd]. rewrite !content_cons. case_decide; [done|by apply IH].
  - rewrite !content_cons. do 2 case_decide; try done. subst. exfalso.
    apply NoDup_cons in Hnd as [Hn _]. apply Hn. simpl. rewrite H2. by left.
  - rewrite IH by done. apply IH'. unfold senders. by rewrite <- Hp.
Qed.

Lemma weigh_nil_content w v : (forall s, content v s = []) -> NoDup (senders v) -> weigh w v = 0%nat.
Proof.
  induction v as [|rq v IH]; intros Hc Hnd; [done|]. apply NoDup_cons in Hnd as [Hn Hnd].
  rewrite weigh_cons, IH; [|intros s|done].
  - specialize (Hc (rq_sender_id rq)). rewrite content_cons, decide_True in Hc by done. by rewrite Hc.
  - specialize (Hc s). rewrite content_cons in Hc. case_decide; [|done]. subst. by apply content_absent.
Qed.

Lemma weigh_content w v v' : NoDup (senders v) -> NoDup (senders v') ->
  (forall s, content v s = content v' s) -> weigh w v = weigh w v'.
Proof.
  revert v'. induction v as [|rq v IH]; intros v' Hnd Hnd' Hc.
  { symmetry. apply weigh_nil_content; [|done]. intros s. by rewrite <- Hc. }
  pose proof Hnd as [Hn Hnd2]%NoDup_cons. pose proof (Hc (rq_sender_id rq)) as Hrq.
  rewrite content_cons, decide_True in Hrq by done. rewrite weigh_cons.
  destruct (decide (rq_sender_id rq ∈ senders v')) as [Hin|Hni].
  - apply list_elem_of_fmap in Hin as (rq' & Es & Hin). apply list_elem_of_split in Hin as (l1 & l2 & ->).
    assert (l1 ++ rq' :: l2 ≡ₚ rq' :: l1 ++ l2) as Hp by (by rewrite Permutation_middle).
    assert (NoDup (senders (rq' :: l1 ++ l2))) as Hnd3 by (unfold senders in *; by rewrite <- Hp).
    rewrite (content_perm _ _ _ Hnd' Hp), content_cons, decide_True in Hrq by done.
    pose proof Hnd3 as [Hn3 Hnd4]%NoDup_cons. rewrite (weigh_perm w _ _ Hp).
    rewrite weigh_cons, Hrq. f_equal. apply IH; [done|done|]. intros s. specialize (Hc s).
    rewrite (content_perm _ _ _ Hnd' Hp), !content_cons in Hc. rewrite <- Es in Hc. case_decide; [|done]. subst s.
    rewrite !content_absent; [done| |done]. by rewrite Es.
  - rewrite (content_absent _ _ Hni) in Hrq. rewrite Hrq. simpl. apply IH; [done|done|]. intros s. specialize (Hc s).
    rewrite content_cons in Hc. case_decide; [|done]. subst s. rewrite !content_absent; done.
Qed.

Lemma weigh_sender v s : NoDup (senders v) -> txs_ok v -> weigh (of_sender s) v = length (content v s).
Proof.
  induction v as [|rq v IH]; intros Hnd Ht; [done|]. apply NoDup_cons in Hnd as [Hn Hnd].
  assert (txs_ok v) as Ht' by (intros i; apply (Ht (S i))). specialize (IH Hnd Ht').
  rewrite weigh_cons.
  assert (weigh_queue (of_sender s) (queue rq) = if decide (rq_sender_id rq = s) then length (queue rq) else 0)%nat as ->.
  { specialize (Ht 0%nat rq). simpl in Ht. assert (forall tx, tx ∈ queue rq -> m_sender_id tx = rq_sender_id rq) as Hq by auto.
    clear -Hq. induction (queue rq) as [|tx q IHq]; [by case_decide|]. rewrite weigh_queue_cons, IHq
      by (intros; apply Hq; by right). unfold of_sender at 1. rewrite (Hq tx) by (by left). by case_decide. }
  rewrite IH, content_cons. case_decide as E; [|done]. subst s. rewrite (content_absent _ _ Hn). simpl. lia.
Qed.

(** ** Sweeping all queues *)

Definition swept (visit : Z -> option (MempoolTx -> bool)) (s : Z) (q : list MempoolTx) : list MempoolTx :=
  match visit s with Some d => kept d q | None => q end.

(** The queues before [idx] have been swept; those from [idx] on have not. *)
Definition sweeping (visit : Z -> option (MempoolTx -> bool)) (q0 : Z -> list MempoolTx) (idx : nat)
    (v : list ReadyQueue) : Prop :=
  (forall i rq, v !! i = Some rq ->
     queue rq = if (i <? idx)%nat then swept visit (rq_sender_id rq) (q0 (rq_sender_id rq))
                else q0 (rq_sender_id rq)) /\
  forall s, (forall i rq, v !! i = Some rq -> rq_sender_id rq <> s) -> swept visit s (q0 s) = [].

Lemma sweeping_start visit v ri : index_ok v ri -> sweeping visit (content v) 0 v.
Proof.
  intros Hi. split.
  - intros i rq Hv. simpl. by rewrite (content_at _ _ _ _ Hi Hv).
  - intros s Hn. rewrite (content_none _ _ Hn). unfold swept. by destruct (visit s).
Qed.

Lemma sweeping_end visit q0 idx v ri s : index_ok v ri -> (length v <= idx)%nat -> sweeping visit q0 idx v ->
  content v s = swept visit s (q0 s).
Proof.
  intros Hi Hlen [Hs Hn]. destruct (owner_dec v s) as [(i & rq & Hv & <-)|Hno].
  - rewrite (content_at _ _ _ _ Hi Hv), (Hs _ _ Hv).
    apply lookup_lt_Some in Hv. by rewrite (proj2 (Nat.ltb_lt _ _)) by lia.
  - by rewrite (content_none _ _ Hno), Hn.
Qed.

Lemma sweeping_skip visit q0 idx v rq : sweeping visit q0 idx v -> v !! idx = Some rq ->
  visit (rq_sender_id rq) = None -> sweeping visit q0 (S idx) v.
Proof.
  intros [Hs Hn] Hq Hv. split; [|done]. intros i rq' Hi. specialize (Hs i rq' Hi). rewrite Hs.
  destruct (decide (i = idx)) as [->|Hne].
  - replace rq' with rq by congruence. rewrite (proj2 (Nat.ltb_ge _ _)), (proj2 (Nat.ltb_lt _ _)) by lia.
    unfold swept. by rewrite Hv.
  - destruct (Nat.ltb_spec i idx), (Nat.ltb_spec i (S idx)); (done || lia).
Qed.

Lemma sweeping_put visit q0 idx v rq d : sweeping visit q0 idx v -> v !! idx = Some rq ->
  visit (rq_sender_id rq) = Some d -> sweeping visit q0 (S idx) (put idx (kept d (queue rq)) v).
Proof.
  intros [Hs Hn] Hq Hv. split.
  - intros i rq' Hi. rewrite put_lookup in Hi. destruct (v !! i) as [rq0|] eqn:E; [|done]. injection Hi as <-. simpl.
    specialize (Hs i rq0 E). destruct (decide (i = idx)) as [->|Hne].
    + replace rq0 with rq in * by congruence. rewrite (proj2 (Nat.ltb_ge _ _)) in Hs by lia.
      rewrite (proj2 (Nat.ltb_lt _ _)) by lia. unfold swept. by rewrite Hv, Hs.
    + rewrite Hs. destruct (Nat.ltb_spec i idx), (Nat.ltb_spec i (S idx)); (done || lia).
  - intros s Hno. apply Hn. intros i rq' Hi. apply (Hno i (mkRq (rq_sender_id rq') (if decide (i = idx) then kept d (queue rq) else queue rq'))). by rewrite put_lookup, Hi.
Qed.

Lemma sweeping_remove visit q0 idx v rq : sweeping visit q0 (S idx) v -> v !! idx = Some rq -> queue rq = [] ->
  sweeping visit q0 idx (swap_remove idx v).
Proof.
  intros [Hs Hn] Hq He. pose proof (lookup_lt_Some _ _ _ Hq) as Hlt. split.
  - intros i rq' Hi. apply swap_remove_inv in Hi as [(-> & Hne & Hl)|(Hne & Hlt' & Hl)]; [| |done];
      rewrite (Hs _ _ Hl).
    + by rewrite !(proj2 (Nat.ltb_ge _ _)) by lia.
    + destruct (Nat.ltb_spec i idx), (Nat.ltb_spec i (S idx)); (done || lia).
  - intros s Hno. destruct (decide (rq_sender_id rq = s)) as [<-|Hs'].
    + specialize (Hs _ _ Hq). rewrite (proj2 (Nat.ltb_lt _ _)) in Hs by lia. congruence.
    + apply Hn. intros i rq' Hi. destruct (decide (i = idx)) as [->|Hne]; [congruence|].
      pose proof (lookup_lt_Some _ _ _ Hi). destruct (decide (i = length v - 1)%nat) as [->|Hne'].
      * apply (Hno idx). rewrite swap_remove_lookup by done.
        rewrite (proj2 (Nat.ltb_lt _ _)) by lia. by rewrite Nat.eqb_refl.
      * apply (Hno i). rewrite swap_remove_lookup by done.
        rewrite (proj2 (Nat.ltb_lt _ _)) by lia. by rewrite (proj2 (Nat.eqb_neq _ _)).
Qed.

(** The sweep drops nothing. *)
Definition idle (visit : Z -> option (MempoolTx -> bool)) (q0 : Z -> list MempoolTx) : Prop :=
  forall s d tx, visit s = Some d -> tx ∈ q0 s -> d tx = false.

Lemma kept_all d q : (forall tx, tx ∈ q -> d tx = false) -> kept d q = q.
Proof. intros Hd. apply filter_keep_all. by apply Forall_forall. Qed.

(** One queue of the sweep, written back. *)
Lemma wp_sweep_one r c visit q0 d m idx rq (R : Panic -> Mempool -> Prop) :
  mp_ok r c m -> ready_vec m !! idx = Some rq -> sweeping visit q0 idx (ready_vec m) ->
  visit (rq_sender_id rq) = Some d ->
  wp (k ← sweep_txs d (rq_sender_id rq) (queue rq); modify (set_queue idx k);; mret k)
    (fun k m' => k = kept d (queue rq) /\ mp_ok r c m' /\ cfg m' = cfg m /\
       sweeping visit q0 (S idx) (ready_vec m') /\
       ready_vec m' !! idx = Some (mkRq (rq_sender_id rq) k) /\ length (ready_vec m') = length (ready_vec m) /\
       (idle visit q0 -> sched_exact (ready_vec m) (rr_vec_by_class m) ->
          sched_exact (ready_vec m') (rr_vec_by_class m'))) R m.
Proof.
  intros Hm Hq Hs Ev. apply wp_bind.
  eapply wp_mono_ok; [apply (wp_sweep_txs r c d (ready_vec m) m idx rq [] (queue rq)); done|].
  intros k m1 (-> & (a & n & t & ->) & Hm1). apply wp_bind, wp_modify, wp_ret. simpl in Hm1.
  split; [done|]. split; [by eapply inv_write|]. split; [done|]. simpl. split; [by apply sweeping_put|].
  split; [|split; [apply put_length|]].
  - change (put idx (kept d (queue rq)) (ready_vec m) !! idx = Some (mkRq (rq_sender_id rq) (kept d (queue rq)))).
    rewrite put_lookup, Hq. simpl. by rewrite decide_True.
  - intros Hidle. eapply sched_exact_put; [done|]. rewrite kept_all; [done|]. intros tx Htx. apply (Hidle _ _ _ Ev).
    destruct Hs as [Hs _]. specialize (Hs _ _ Hq). rewrite Nat.ltb_irrefl in Hs. by rewrite <- Hs.
Qed.

Lemma bind_write {T} (k : MP (list MempoolTx)) idx (f : list MempoolTx -> MP T) Q (R : Panic -> Mempool -> Prop) m :
  wp (x ← (x ← k; modify (set_queue idx x);; mret x); f x) Q R m ->
  wp (x ← k; modify (set_queue idx x);; f x) Q R m.
Proof. unfold wp, mbind, M_bind, modify, mret, M_ret. by destruct (k m) as [[x|e] m']. Qed.

Lemma wp_sweep r c visit ke q0 fuel idx m (R : Panic -> Mempool -> Prop) :
  mp_ok r c m -> sweeping visit q0 idx (ready_vec m) -> (length (ready_vec m) - idx <= fuel)%nat ->
  wp (sweep fuel visit ke idx)
    (fun _ m' => mp_ok r c m' /\ cfg m' = cfg m /\
       (forall s, content (ready_vec m') s = swept visit s (q0 s)) /\
       (idle visit q0 -> sched_exact (ready_vec m) (rr_vec_by_class m) ->
          sched_exact (ready_vec m') (rr_vec_by_class m'))) R m.
Proof.
  revert idx m; induction fuel as [|fuel IH]; intros idx m Hm Hs Hf; simpl.
  { split_and!; [done|done| |done]. intros s. eapply sweeping_end; [apply Hm| |done]. lia. }
  apply wp_bind, wp_get. destruct (ready_vec m !! idx) as [rq|] eqn:Hq.
  2: { split_and!; [done|done| |done]. intros s. eapply sweeping_end; [apply Hm| |done]. by apply lookup_ge_None. }
  pose proof (lookup_lt_Some _ _ _ Hq) as Hlt. destruct (visit (rq_sender_id rq)) as [d|] eqn:Ev.
  2: { apply IH; [done|by eapply sweeping_skip|lia]. }
  apply bind_write, wp_bind. eapply wp_mono_ok; [by eapply wp_sweep_one|].
  intros k m1 (-> & Hm1 & Ec1 & Hs1 & Hq1 & El & Hx1).
  destruct (bool_decide (kept d (queue rq) = []) && _) eqn:Eb.
  - apply andb_prop in Eb as [Eb _]. apply bool_decide_eq_true in Eb. apply wp_bind.
    eapply wp_mono_ok; [by eapply wp_remove_ready_queue|]. intros [] m2 (Hm2 & Ev2 & Ec2 & Hx2).
    eapply wp_mono_ok; [apply (IH idx m2 Hm2)|].
    + rewrite Ev2. by eapply sweeping_remove.
    + rewrite Ev2, swap_remove_length. lia.
    + intros [] m3 (? & E3 & ? & Hx3). split_and!; [done|congruence|done|auto].
  - eapply wp_mono_ok; [apply (IH (S idx) m1 Hm1 Hs1); lia|].
    intros [] m3 (? & E3 & ? & Hx3). split_and!; [done|congruence|done|auto].
Qed.

Lemma wp_sweep_all r c visit ke m (R : Panic -> Mempool -> Prop) :
  mp_ok r c m ->
  wp (sweep_all visit ke)
    (fun _ m' => mp_ok r c m' /\ cfg m' = cfg m /\
       (forall s, content (ready_vec m') s = swept visit s (content (ready_vec m) s)) /\
       (idle visit (content (ready_vec m)) -> sched_exact (ready_vec m) (rr_vec_by_class m) ->
          sched_exact (ready_vec m') (rr_vec_by_class m'))) R m.
Proof.
  intros Hm. apply wp_bind, wp_get. apply wp_sweep; [done|eapply sweeping_start; apply Hm|lia].
Qed.
End Inv.
End CoreInv.
