(* ===== verification/MempoolOps.v ===== *)
(** * The operations of the mempool

    What adding, restoring, sorting and draining do to the invariant, to the
    content and to the schedule. *)

From S2P Require Import Prelude OrdMap Gas Account Fee QueuedPool Replay Admission AdmissionCorrect MempoolCore MempoolInv.

Module CoreOps.
Import Admit AdmitC Core CoreInv.

Section Ops.
Context `{LruCache Replay.ReplayEntry} `{AccountBincode}.
Implicit Types (v : list ReadyQueue) (rq : ReadyQueue) (m : Mempool).

(** The queue of a sender in a state. *)
Definition Q m (s : Z) : list MempoolTx := content (ready_vec m) s.
Definition exact m : Prop := sched_exact (ready_vec m) (rr_vec_by_class m).

Lemma mp_ok_admission r c m a : mp_ok r c m -> adm_counts (ready_vec m) a -> adm_inv r c a ->
  mp_ok r c (set_admission a m).
Proof. intros [] ? ?. by split. Qed.

(** ** Room in the index *)

Definition ensured (sid : Z) m : Mempool := snd (ensure_index_capacity sid m).

Lemma fmap_resize {A B} (f : A -> B) n x l : f <$> resize n x l = resize n (f x) (f <$> l).
Proof.
  revert n; induction l as [|y l IH]; intros n; simpl; [by rewrite !resize_nil, fmap_replicate|].
  destruct n; simpl; [done|]. by rewrite IH.
Qed.

Lemma ensured_spec r c m sid : mp_ok r c m ->
  mp_ok r c (ensured sid m) /\ (Z.to_nat sid < length (ready_index (ensured sid m)))%nat /\
  forall j i, ready_index m !! j = Some (Some i) -> ready_index (ensured sid m) !! j = Some (Some i).
Proof.
  intros [Hi Hb Ht Hs Hc Htot Hac Hai].
  assert (length (counts m) = length (ready_index m)) as El by (rewrite Hc; apply length_fmap).
  unfold ensured, ensure_index_capacity, modify. simpl. rewrite El, Nat.max_id.
  destruct (Nat.leb_spec (length (ready_index m)) (Z.to_nat sid)); simpl; [|by split].
  set (n := Nat.max _ _). assert (length (ready_index m) <= n)%nat as Hn by lia.
  pose proof (fun j => resize_lookup_keep n None (ready_index m) j Hn) as Hl.
  split; [|split; [rewrite length_resize; lia|]].
  - split; simpl; try done.
    + intros i rq Hv. destruct (Hi i rq Hv) as [? Hri]. split; [done|].
      rewrite Hl. by rewrite (proj2 (Nat.ltb_lt _ _)) by (by eapply lookup_lt_Some).
    + intros j i Hj. rewrite Hl in Hj. destruct (Nat.ltb_spec j (length (ready_index m))); [by apply Hb|].
      by destruct (j <? n)%nat.
    + rewrite fmap_resize. by rewrite Hc.
  - intros j i Hri. rewrite Hl. by rewrite (proj2 (Nat.ltb_lt _ _)) by (by eapply lookup_lt_Some).
Qed.

Lemma ensured_frame sid m :
  ready_vec (ensured sid m) = ready_vec m /\ rr_vec_by_class (ensured sid m) = rr_vec_by_class m /\
  cfg (ensured sid m) = cfg m /\ admission (ensured sid m) = admission m /\ total (ensured sid m) = total m /\
  forall a, ensured sid (set_admission a m) = set_admission a (ensured sid m).
Proof. unfold ensured, ensure_index_capacity, modify. simpl. by destruct (_ || _). Qed.

(** ** A queue for a new sender *)

Definition opened (sid : Z) m : Mempool :=
  set_ready_index (<[Z.to_nat sid := Some (length (ready_vec m))]> (ready_index m))
    (set_ready_vec (ready_vec m ++ [mkRq sid []]) m).

Lemma index_ok_open v ri s : 0 <= s -> (Z.to_nat s < length ri)%nat -> (forall i, ri !! Z.to_nat s <> Some (Some i)) ->
  index_ok v ri -> index_back v ri ->
  index_ok (v ++ [mkRq s []]) (<[Z.to_nat s := Some (length v)]> ri) /\
  index_back (v ++ [mkRq s []]) (<[Z.to_nat s := Some (length v)]> ri).
Proof.
  intros Hs Hlen Hnone Hi Hb. split.
  - intros i rq Hv. apply lookup_app_Some in Hv as [Hv|[Hl Hv]].
    + destruct (Hi i rq Hv) as [Hs' Hri]. split; [done|]. rewrite list_lookup_insert_ne; [done|].
      intros E. rewrite <- E in Hri. by apply Hnone in Hri.
    + apply list_lookup_singleton_Some in Hv as [E <-]. simpl. split; [done|].
      rewrite list_lookup_insert_eq by done. do 2 f_equal. lia.
  - intros j i Hj. destruct (decide (j = Z.to_nat s)) as [->|Hne].
    + rewrite list_lookup_insert_eq in Hj by done. injection Hj as <-. exists (mkRq s []).
      rewrite lookup_app_r, Nat.sub_diag by done. split; [done|]. simpl. lia.
    + rewrite list_lookup_insert_ne in Hj by done. destruct (Hb j i Hj) as (rq & Hv & Es). exists rq.
      split; [|done]. by apply lookup_app_l_Some.
Qed.

Lemma content_open v ri s s' : (forall i, ri !! Z.to_nat s <> Some (Some i)) -> index_ok v ri ->
  content (v ++ [mkRq s []]) s' = content v s'.
Proof.
  intros Hnone Hi. unfold content. destruct (list_find (fun rq => rq_sender_id rq = s') v) as [[k rq]|] eqn:E.
  - by rewrite (list_find_app_l _ _ _ _ _ E).
  - rewrite list_find_app_r by done. simpl. by case_decide.
Qed.

Lemma opened_ok r c m sid : 0 <= sid -> (Z.to_nat sid < length (ready_index m))%nat ->
  (forall i, ready_index m !! Z.to_nat sid <> Some (Some i)) -> mp_ok r c m -> mp_ok r c (opened sid m).
Proof.
  intros Hs Hlen Hnone [Hi Hb Ht (? & ? & Hsl) Hc Htot Hac Hai].
  destruct (index_ok_open (ready_vec m) (ready_index m) sid) as [Hi' Hb']; [done..|].
  assert (forall w, weigh w (ready_vec m ++ [mkRq sid []]) = weigh w (ready_vec m)) as Hw.
  { intros w. rewrite weigh_app. unfold weigh at 2. simpl. lia. }
  split; simpl; try done.
  - intros i rq tx Hv. apply lookup_app_Some in Hv as [Hv|[_ Hv]]; [by apply (Ht i)|].
    apply list_lookup_singleton_Some in Hv as [_ <-]. by rewrite elem_of_nil.
  - split; [done|]. split; [done|]. eapply Forall_impl; [exact Hsl|]. intros l Hl.
    eapply Forall_impl; [exact Hl|]. intros i. rewrite length_app. simpl. lia.
  - rewrite Hc. apply list_eq. intros j. rewrite !list_lookup_fmap.
    destruct (decide (j = Z.to_nat sid)) as [->|Hne].
    + rewrite list_lookup_insert_eq by done. simpl.
      rewrite lookup_app_r, Nat.sub_diag by done. simpl.
      destruct (ready_index m !! Z.to_nat sid) as [[i|]|] eqn:E; [by destruct (Hnone i)|done|].
      apply lookup_ge_None in E. lia.
    + rewrite list_lookup_insert_ne by done. destruct (ready_index m !! j) as [[i|]|] eqn:E; [|done..]. simpl.
      destruct (Hb j i E) as (rq & Hv & _). by rewrite (lookup_app_l_Some _ _ _ _ Hv), Hv.
  - by rewrite Hw.
  - by eapply adm_counts_weigh.
Qed.

Lemma opened_exact sid m : exact m -> exact (opened sid m).
Proof.
  intros [Hnd Hs]. split; [done|]. simpl. intros i. rewrite Hs. split.
  - intros (rq & Hv & Hne). exists rq. split; [|done]. by apply lookup_app_l_Some.
  - intros (rq & Hv & Hne). apply lookup_app_Some in Hv as [Hv|[_ Hv]]; [by exists rq|].
    apply list_lookup_singleton_Some in Hv as [_ <-]. done.
Qed.

Lemma wp_ensure sid m (Q : unit -> Mempool -> Prop) (R : Panic -> Mempool -> Prop) :
  Q tt (ensured sid m) -> wp (ensure_index_capacity sid) Q R m.
Proof. done. Qed.

(** The state in which the sender has a queue, and where. *)
Lemma with_queue_spec r c m sid : 0 <= sid -> mp_ok r c m ->
  exists o, ready_index (ensured sid m) !! Z.to_nat sid = Some o /\
    exists m' rq, m' = match o with Some _ => ensured sid m | None => opened sid (ensured sid m) end /\
      mp_ok r c m' /\
      ready_vec m' !! (match o with Some i => i | None => length (ready_vec (ensured sid m)) end) = Some rq /\
      rq_sender_id rq = sid /\ (forall s, Q m' s = Q m s) /\ (exact m -> exact m') /\ cfg m' = cfg m /\
      admission m' = admission m.
Proof.
  intros Hsid Hm. destruct (ensured_spec r c m sid Hm) as (Hm2 & Hlen & _).
  destruct (ensured_frame sid m) as (Ev & Er & Ec & Ea & _ & _).
  set (m2 := ensured sid m) in *. assert (exact m -> exact m2) as Hx by (unfold exact; by rewrite Ev, Er).
  assert (forall s, Q m2 s = Q m s) as HQ by (intros s; unfold Q; by rewrite Ev).
  destruct (lookup_lt_is_Some_2 _ _ Hlen) as [o Ho]. exists o. split; [done|].
  destruct o as [i|].
  - destruct (mi_back _ _ _ _ Hm2 _ _ Ho) as (rq & Hv & Es). exists m2, rq. split_and!; try done. lia.
  - exists (opened sid m2), (mkRq sid []).
    assert (forall i, ready_index m2 !! Z.to_nat sid <> Some (Some i)) as Hnone by (rewrite Ho; congruence).
    split; [done|]. split; [by apply opened_ok|]. split; [|split; [done|split_and!; [|auto using opened_exact|done..]]].
    + simpl. by rewrite lookup_app_r, Nat.sub_diag.
    + intros s. rewrite <- HQ. unfold Q. simpl. eapply content_open; [exact Hnone|apply Hm2].
Qed.

(** ** A transaction joins a queue *)

Definition joined (idx : nat) (q : list MempoolTx) (sid : Z) (n : nat) (a : AdmissionControl) m : Mempool :=
  set_admission a (set_counts (<[Z.to_nat sid := n]> (counts m)) (set_total (S (total m)) (set_queue idx q m))).

Lemma joined_ok r c m idx rq q x a :
  mp_ok r c m -> ready_vec m !! idx = Some rq -> q ≡ₚ x :: queue rq -> m_sender_id x = rq_sender_id rq ->
  entered (rq_sender_id rq) (m_class x) (admission m) a -> adm_inv r c a ->
  let m' := joined idx q (rq_sender_id rq) (S (length (queue rq))) a m in
  mp_ok r c m' /\ forall s, Q m' s = if decide (s = rq_sender_id rq) then q else Q m s.
Proof.
  intros Hm Hq Hp Hx He Ha. cbv zeta.
  assert (forall w, weigh w (put idx q (ready_vec m)) = w x + weigh w (ready_vec m))%nat as Hw.
  { intros w. pose proof (weigh_put w idx q (ready_vec m) rq Hq) as E.
    rewrite (weigh_queue_perm w q _ Hp), weigh_queue_cons in E. lia. }
  split.
  - unfold mp_ok. eapply (inv_put r c (ready_vec m) m _ idx rq q a); try done.
    + intros tx Htx. rewrite Hp, elem_of_cons in Htx. destruct Htx as [->|Htx]; [done|].
      by apply (mi_txs _ _ _ _ Hm idx).
    + simpl. rewrite Hp. done.
    + simpl. rewrite Hw, (mi_total _ _ _ _ Hm). done.
    + eapply adm_counts_enter; [exact Hx|done|exact Hw|exact He|apply Hm].
  - intros s. apply (content_put (ready_vec m) (ready_index m)); [apply Hm|done].
Qed.

Lemma concat_alter_snoc (k i : nat) (rr : list (list nat)) : (k < length rr)%nat ->
  concat (alter (fun l => l ++ [i]) k rr) ≡ₚ i :: concat rr.
Proof.
  revert k; induction rr as [|l rr IH]; intros k Hk; simpl in *; [lia|].
  destruct k as [|k]; simpl.
  - rewrite <- app_assoc. simpl. by rewrite Permutation_middle.
  - change (l ++ concat (alter (fun l => l ++ [i]) k rr) ≡ₚ i :: l ++ concat rr).
    rewrite IH by lia. by rewrite Permutation_middle.
Qed.

Lemma sched_exact_join v rr idx rq q k : v !! idx = Some rq -> q <> [] -> (k < length rr)%nat ->
  sched_exact v rr ->
  sched_exact (put idx q v) (if bool_decide (queue rq = []) then alter (fun l => l ++ [idx]) k rr else rr).
Proof.
  intros Hq Hne Hk Hs. case_bool_decide as He.
  - destruct Hs as [Hnd Hs]. assert (idx ∉ concat rr) as Hni by (rewrite Hs; intros (? & ? & ?); congruence).
    split; [rewrite (concat_alter_snoc k idx rr Hk); by apply NoDup_cons|].
    intros i. rewrite (concat_alter_snoc k idx rr Hk), elem_of_cons, Hs, put_lookup.
    destruct (decide (i = idx)) as [->|Hn].
    + rewrite Hq. simpl. split; [|tauto]. intros _. by eexists.
    + split.
      * intros [?|(rq' & Hv & ?)]; [done|]. rewrite Hv. by eexists.
      * intros (rq' & Hv & Hne'). right. destruct (v !! i) as [rq0|]; [|done]. injection Hv as <-. by eexists.
  - eapply sched_exact_put; [done|naive_solver|done].
Qed.

Lemma class_idx_lt cl : (class_idx cl < 4)%nat.
Proof. destruct cl; simpl; lia. Qed.

(** A slot that points into the vector may be scheduled. *)
Lemma schedule_ok r c m k idx : (k < 4)%nat -> (idx < length (ready_vec m))%nat -> mp_ok r c m ->
  mp_ok r c (set_rr_vec (alter (fun l => l ++ [idx]) k (rr_vec_by_class m)) m).
Proof.
  intros Hk Hidx [Hi Hb Ht (Hl & Hp & Hs) Hc Htot Hac Hai]. split; simpl; try done.
  split; [by rewrite length_alter|]. split; [done|]. apply Forall_alter; [done|].
  intros l _ Hlt. apply Forall_app. split; [done|]. by apply Forall_singleton.
Qed.

Lemma adm_inv_checked r c now a a' : checked now a a' -> adm_inv r c a -> adm_inv r c a'.
Proof.
  intros (Hok & Hs & _) (E & _ & Hcaps). split; [by rewrite (sc_config _ _ Hs)|]. split; [done|].
  intros Hr. eapply caps_ok_counts; [done|by apply Hcaps].
Qed.

Lemma adm_counts_same v a a' : same_counts a a' -> adm_counts v a -> adm_counts v a'.
Proof. intros [_ E1 E2 E3 E4 _] [A1 A2 A3 A4]. split; intros; rewrite ?E1, ?E2, ?E3, ?E4; done. Qed.

(** The end of an addition, from the sender's queue on. *)
Definition finish_add (now : Z) (t : PrevalidatedTx) (hash : option bytes) (from_rpc : bool) (idx : nat) :
    MP AdmissionOutcome :=
  m ← get;
  rq ← index (ready_vec m) idx;
  modify (set_queue idx (queue rq ++ [tx_from now t hash from_rpc]));;
  modify (fun m => set_total (S (total m)) m);;
  on_count (sender_id t) S;;
  (if bool_decide (queue rq = []) then schedule (class_idx (class t)) idx else mret tt);;
  mret Admitted_.

Lemma wp_finish_add r c now t hash from_rpc idx m a rq (R : Panic -> Mempool -> Prop) :
  mp_ok r c m -> ready_vec m !! idx = Some rq -> rq_sender_id rq = sender_id t ->
  entered (sender_id t) (class t) (admission m) a -> adm_inv r c a ->
  wp (finish_add now t hash from_rpc idx)
    (fun o m' => o = Admitted_ /\ mp_ok r c m' /\ cfg m' = cfg m /\ (exact m -> exact m') /\
       forall s, Q m' s = if decide (s = sender_id t) then Q m s ++ [tx_from now t hash from_rpc] else Q m s) R
    (set_admission a m).
Proof.
  intros Hm Hq Es He Ha. set (x := tx_from now t hash from_rpc).
  assert (queue rq ++ [x] ≡ₚ x :: queue rq) as Hp by (by rewrite Permutation_app_comm).
  rewrite <- Es in He.
  destruct (joined_ok r c m idx rq (queue rq ++ [x]) x a Hm Hq Hp (eq_sym Es) He Ha) as [Hok Hcont].
  set (m' := joined _ _ _ _ _ _) in *. unfold finish_add.
  apply wp_bind, wp_get. simpl. unfold index. rewrite Hq. apply wp_bind. simpl.
  apply wp_bind, wp_modify. apply wp_bind, wp_modify. apply wp_bind.
  eapply wp_on_count. { simpl. rewrite <- Es. by eapply inv_count. }
  fold x. rewrite <- Es at 1.
  change (set_counts _ _) with m'. apply wp_bind.
  destruct (mi_sched _ _ _ _ Hm) as (Hl & _ & _). pose proof (class_idx_lt (class t)) as Hk.
  assert (sched_exact (ready_vec m) (rr_vec_by_class m) ->
    sched_exact (ready_vec m') (if bool_decide (queue rq = [])
      then alter (fun l => l ++ [idx]) (class_idx (class t)) (rr_vec_by_class m) else rr_vec_by_class m)) as Hx.
  { apply (sched_exact_join _ _ _ rq); [done| |lia]. by destruct (queue rq). }
  assert (forall s, Q m' s = if decide (s = sender_id t) then Q m s ++ [x] else Q m s) as HQ.
  { intros s. rewrite Hcont, Es. case_decide; [|done]. subst s. unfold Q. rewrite <- Es.
    by rewrite (content_at _ _ _ _ (mi_index _ _ _ _ Hm) Hq). }
  case_bool_decide as Hempty.
  - apply wp_modify, wp_ret. split; [done|]. split; [|by split_and!].
    apply schedule_ok; [done| |done]. apply lookup_lt_Some in Hq. simpl. rewrite length_alter. done.
  - apply wp_ret, wp_ret. by split_and!.
Qed.

Lemma wp_add r c now t hash from_rpc m :
  mp_ok r c m -> pv_ok t ->
  wp (add_prevalidated_with_source now t hash from_rpc)
    (fun o m' => mp_ok r c m' /\ cfg m' = cfg m /\ (exact m -> exact m') /\
       match o with
       | Admitted_ => forall s, Q m' s =
           if decide (s = sender_id t) then Q m s ++ [tx_from now t hash from_rpc] else Q m s
       | _ => forall s, Q m' s = Q m s
       end) (fun _ _ => False) m.
Proof.
  intros Hm Ht. unfold add_prevalidated_with_source. apply wp_bind, wp_get.
  destruct (mi_inv _ _ _ _ Hm) as (Hcfg & Hadm & Hcaps).
  pose proof (check_spec now t hash from_rpc (admission m) Ht Hadm) as Hs.
  destruct (check_admission_ext_with_source now t hash from_rpc (admission m)) as [res adm].
  destruct Hs as [Hchk Hs]. pose proof (adm_inv_checked r c _ _ _ Hchk (mi_inv _ _ _ _ Hm)) as Hai.
  assert (mp_ok r c (set_admission adm m)) as Hm1.
  { apply mp_ok_admission; [done| |done]. eapply adm_counts_same; [apply Hchk|apply Hm]. }
  apply wp_bind, wp_modify. destruct res; [|by apply wp_ret..]. destruct Hs as [Hbelow _].
  apply wp_bind, wp_modify. set (a2 := record_admission now t hash adm).
  destruct (record_admission_spec now t hash adm) as [Hent _].
  assert (adm_inv r c a2) as Ha2.
  { unfold a2. destruct Hai as (E & Hok & Hc). split; [by rewrite (en_config _ _ _ _ Hent)|].
    split; [by eapply entered_ok|]. intros Hr. eapply entered_caps; [exact Hent| |by apply Hc].
    eapply below_caps_counts; [apply Hchk|done]. }
  set (m1 := set_admission adm m) in *. change (set_admission a2 (set_admission adm m)) with (set_admission a2 m1).
  assert (entered (sender_id t) (class t) (admission m1) a2) as Hent1 by exact Hent.
  apply wp_bind, wp_ensure. rewrite (proj2 (proj2 (proj2 (proj2 (proj2 (ensured_frame (sender_id t) m1)))))).
  destruct (with_queue_spec r c m1 (sender_id t) (proj1 Ht) Hm1) as (o & Ho & Hopen).
  apply wp_bind, wp_get. apply wp_bind. unfold index at 1.
  change (ready_index (set_admission a2 (ensured (sender_id t) m1))) with (ready_index (ensured (sender_id t) m1)).
  rewrite Ho. apply wp_lift; [|done]. intros ? [= <-]. apply wp_bind.
  destruct o as [i|]; [apply wp_ret|apply wp_bind, wp_modify, wp_ret];
    destruct Hopen as (m3 & rq & Em3 & Hm3 & Hq3 & Es3 & HQ3 & Hx3 & Ec3 & Ea3); rewrite <- Ea3 in Hent1;
    [rewrite <- Em3|change (set_ready_index _ _) with (set_admission a2 (opened (sender_id t) (ensured (sender_id t) m1)));
       rewrite <- Em3];
    (eapply wp_mono_ok; [by eapply (wp_finish_add r c now t hash from_rpc _ m3 a2 rq)|]);
    intros o m' (-> & ? & Ec & Hx & HQ'); (split; [done|]); (split; [by rewrite Ec, Ec3|]);
    (split; [intros Hex; apply Hx, Hx3, Hex|]); intros s; rewrite HQ', !HQ3; done.
Qed.

(** ** A transaction comes back *)

Definition owned m (s : Z) : Prop := exists i, ready_index m !! Z.to_nat s = Some (Some i).

Lemma joined_opened sid tx a m :
  joined (length (ready_vec m)) [tx] sid 1 a (opened sid m) =
  set_admission a (set_counts (<[Z.to_nat sid := 1%nat]> (counts m)) (set_total (S (total m))
    (set_ready_index (<[Z.to_nat sid := Some (length (ready_vec m))]> (ready_index m))
      (set_ready_vec (ready_vec m ++ [mkRq sid [tx]]) m)))).
Proof.
  unfold joined, opened, set_queue. simpl. rewrite alter_app_r_alt by done. by rewrite Nat.sub_diag.
Qed.

Lemma wp_restore_one c tx m :
  mp_ok true c m -> 0 <= m_sender_id tx ->
  wp (restore_one tx)
    (fun _ m' => mp_ok true c m' /\ (cfg m' = cfg m /\ total m' = S (total m)) /\
       (forall s, Q m' s = if decide (s = m_sender_id tx) then tx :: Q m s else Q m s) /\
       (owned m (m_sender_id tx) -> rr_vec_by_class m' = rr_vec_by_class m /\ forall s, owned m s -> owned m' s))
    (fun _ _ => False) m.
Proof.
  intros Hm Hsid. set (sid := m_sender_id tx) in *.
  destruct (with_queue_spec true c m sid Hsid Hm) as (o & Ho & m3 & rq & Em3 & Hm3 & Hq3 & Es3 & HQ3 & Hx3 & Ec3 & Ea3).
  destruct (ensured_frame sid m) as (Ev & Er & Ec & Ea & Et & _).
  destruct (ensured_spec true c m sid Hm) as (Hm2 & Hlen & Hfwd).
  set (m2 := ensured sid m) in *. set (a := record_restoration sid (m_class tx) (admission m3)).
  assert (entered (rq_sender_id rq) (m_class tx) (admission m3) a) as Hent
    by (rewrite Es3; apply record_restoration_spec).
  assert (adm_inv true c a) as Ha.
  { destruct (mi_inv _ _ _ _ Hm3) as (E & Hok & _).
    split; [by rewrite (en_config _ _ _ _ Hent)|]. split; [by eapply entered_ok|done]. }
  unfold restore_one. cbv zeta. fold sid. apply wp_bind, wp_ensure. fold m2. apply wp_bind, wp_get. apply wp_bind. unfold index.
  rewrite Ho. apply wp_lift; [|done]. intros ? [= <-]. apply wp_bind. destruct o as [i|].
  - destruct (joined_ok true c m3 i rq (tx :: queue rq) tx a Hm3 Hq3 ltac:(done) (eq_sym Es3) Hent Ha) as [Hok HQ].
    rewrite Es3 in Hok, HQ. subst m3. rewrite Hq3. apply wp_bind, wp_modify. apply wp_bind.
    eapply wp_on_count. { simpl. rewrite <- Es3. by eapply inv_count. }
    apply wp_modify, wp_modify. 
    match goal with |- mp_ok _ _ ?x /\ _ => change x with (joined i (tx :: queue rq) sid (S (length (queue rq))) a m2) end.
    split; [done|]. split; [split; [exact Ec3|by rewrite <- Et]|]. split.
    + intros s. rewrite HQ, HQ3. case_decide; [|done]. subst s. rewrite <- HQ3. unfold Q. rewrite <- Es3.
      by rewrite (content_at _ _ _ _ (mi_index _ _ _ _ Hm2) Hq3).
    + intros _. split; [exact Er|]. intros s [k Hk]. exists k. by apply Hfwd.
  - pose proof (joined_ok true c m3 _ rq [tx] tx a Hm3 Hq3) as Hj.
    subst m3. simpl in Hq3. rewrite lookup_app_r, Nat.sub_diag in Hq3 by done. injection Hq3 as <-.
    destruct (Hj ltac:(done) eq_refl Hent Ha) as [Hok HQ]. clear Hj. simpl in Hok, HQ.
    rewrite joined_opened in Hok, HQ.
    apply wp_bind, wp_modify. apply wp_bind, wp_modify. apply wp_bind.
    assert (exists n, counts m2 !! Z.to_nat sid = Some n) as [n Hn].
    { apply lookup_lt_is_Some_2. by rewrite (mi_counts _ _ _ _ Hm2), length_fmap. }
    eapply wp_on_count; [exact Hn|]. apply wp_bind, wp_modify. apply wp_modify, wp_modify.
    match type of Hok with mp_ok _ _ ?x =>
      match goal with |- mp_ok _ _ ?y /\ _ =>
        change y with (set_rr_vec (alter (fun l => l ++ [length (ready_vec m2)]) (class_idx (m_class tx))
          (rr_vec_by_class x)) x) end end.
    split; [|split; [split; [exact Ec3|by rewrite <- Et]|split]].
    + apply schedule_ok; [apply class_idx_lt| |done]. simpl. rewrite length_app. simpl. lia.
    + intros s. change (Q (set_rr_vec _ ?x) s) with (Q x s). rewrite HQ, HQ3. case_decide; [|done]. subst s.
      assert (Q m sid = []) as ->; [|done]. unfold Q. rewrite <- Ev. apply content_none. intros i rq Hv Es.
      destruct (mi_index _ _ _ _ Hm2 _ _ Hv) as [_ Hri]. rewrite Es, Ho in Hri. done.
    + intros [i Hi]. rewrite (Hfwd _ _ Hi) in Ho. done.
Qed.

(** ** Sorting *)

Definition sorted_queue rq : ReadyQueue := mkRq (rq_sender_id rq) (merge_sort nonce_le (queue rq)).

Lemma sort_queue_perm rq : queue (sorted_queue rq) ≡ₚ queue rq.
Proof. apply merge_sort_Permutation. Qed.

Lemma weigh_sorted w v : weigh w (sorted_queue <$> v) = weigh w v.
Proof.
  unfold weigh. rewrite <- list_fmap_compose. f_equal. apply list_fmap_ext. intros i rq _. simpl.
  apply weigh_queue_perm, merge_sort_Permutation.
Qed.

Lemma content_sorted v ri s : index_ok v ri ->
  index_ok (sorted_queue <$> v) ri -> content (sorted_queue <$> v) s = merge_sort nonce_le (content v s).
Proof.
  intros Hi Hi'. destruct (owner_dec v s) as [(i & rq & Hv & <-)|Hn].
  - rewrite (content_at _ _ _ _ Hi Hv).
    apply (content_at _ ri i (sorted_queue rq) Hi'). by rewrite list_lookup_fmap, Hv.
  - rewrite !content_none; [done|done|]. intros i rq. rewrite list_lookup_fmap.
    destruct (v !! i) as [rq'|] eqn:E; [|done]. intros [= <-]. exact (Hn i rq' E).
Qed.

Lemma wp_sort_queues r c m (R : Panic -> Mempool -> Prop) : mp_ok r c m ->
  wp sort_queues (fun _ m' => mp_ok r c m' /\ (cfg m' = cfg m /\ ready_index m' = ready_index m /\ total m' = total m) /\ (exact m -> exact m') /\
    forall s, Q m' s = merge_sort nonce_le (Q m s)) R m.
Proof.
  intros [Hi Hb Ht Hs Hc Htot Hac Hai]. unfold sort_queues. apply wp_modify.
  change (fun rq => mkRq _ _) with sorted_queue.
  assert (forall i rq, (sorted_queue <$> ready_vec m) !! i = Some rq ->
    exists rq', ready_vec m !! i = Some rq' /\ rq = sorted_queue rq') as Hl.
  { intros i rq. rewrite list_lookup_fmap. destruct (ready_vec m !! i) as [rq'|]; [|done].
    intros [= <-]. by exists rq'. }
  assert (index_ok (sorted_queue <$> ready_vec m) (ready_index m)) as Hi'.
  { intros i rq Hv. destruct (Hl _ _ Hv) as (rq' & Hv' & ->). apply (Hi _ _ Hv'). }
  split; [|split; [done|split]].
  - split; simpl; try done.
    + intros j i Hj. destruct (Hb _ _ Hj) as (rq & Hv & Es). exists (sorted_queue rq).
      by rewrite list_lookup_fmap, Hv.
    + intros i rq tx Hv Htx. destruct (Hl _ _ Hv) as (rq' & Hv' & ->). rewrite sort_queue_perm in Htx.
      by apply (Ht i rq').
    + rewrite length_fmap. apply Hs.
    + rewrite Hc. apply list_fmap_ext. intros j o _. destruct o as [i|]; [|done]. simpl.
      rewrite list_lookup_fmap. destruct (ready_vec m !! i) as [rq|]; [|done]. simpl.
      symmetry. apply (Permutation_length (sort_queue_perm rq)).
    + by rewrite weigh_sorted.
    + eapply adm_counts_weigh; [|done]. intros w. apply weigh_sorted.
  - intros [Hnd Hx]. split; [done|]. intros i. simpl. rewrite Hx, list_lookup_fmap. split.
    + intros (rq & -> & Hne). exists (sorted_queue rq). split; [done|]. intros E. apply Hne.
      pose proof (sort_queue_perm rq) as Hp. rewrite E in Hp. by apply Permutation_nil_l in Hp.
    + intros (rq & Hv & Hne). destruct (ready_vec m !! i) as [rq'|]; [|done]. injection Hv as <-.
      exists rq'. split; [done|]. intros E. apply Hne.
      pose proof (sort_queue_perm rq') as Hp. rewrite E in Hp. by apply Permutation_nil_r in Hp.
  - intros s. by apply (content_sorted _ (ready_index m)).
Qed.

(** ** One burst *)

Lemma wp_burst r c n max idx m rq out (R : Panic -> Mempool -> Prop) :
  mp_ok r c m -> ready_vec m !! idx = Some rq -> (length out <= max)%nat ->
  wp (burst n max idx out)
    (fun out' m' => exists k, k = Nat.min n (Nat.min (max - length out) (length (queue rq))) /\
       out' = out ++ take k (queue rq) /\ mp_ok r c m' /\ cfg m' = cfg m /\
       ready_vec m' = put idx (drop k (queue rq)) (ready_vec m) /\
       rr_vec_by_class m' = rr_vec_by_class m /\ rr_pos_by_class m' = rr_pos_by_class m /\
       ready_index m' = ready_index m) R m.
Proof.
  revert m rq out; induction n as [|n IH]; intros m rq out Hm Hq Hout; cbn [burst].
  { exists 0%nat. split_and!; try done; [by rewrite take_0, app_nil_r|]. by rewrite drop_0, put_id. }
  destruct (Nat.ltb_spec (length out) max).
  2: { exists 0%nat. split_and!; try done; [lia|by rewrite take_0, app_nil_r|]. by rewrite drop_0, put_id. }
  apply wp_bind, wp_get. unfold index. rewrite Hq. apply wp_bind, wp_lift; [|done]. intros ? [= <-].
  destruct (queue rq) as [|tx rest] eqn:Eq.
  { exists 0%nat. split_and!; try done; [cbn [length]; lia|by rewrite app_nil_r|]. by rewrite drop_0, <- Eq, put_id. }
  apply wp_bind, wp_modify. apply wp_bind.
  assert (mp_inv r c (ready_vec m) (set_queue idx rest m)) as Hinv by (destruct Hm; by split).
  eapply wp_mono_ok; [by eapply (wp_account_removal r c (ready_vec m) _ idx rq [] tx rest)|].
  intros [] m1 [(a & cs & t & ->) Hm1]. simpl in Hm1.
  set (m1 := set_admission _ _) in *.
  assert (ready_vec m1 = put idx rest (ready_vec m)) as Ev by done.
  eapply wp_mono_ok; [apply (IH m1 (mkRq (rq_sender_id rq) rest) (out ++ [tx]))|].
  - unfold mp_ok. by rewrite Ev.
  - rewrite Ev, put_lookup, Hq. simpl. by rewrite decide_True.
  - rewrite length_app. simpl. lia.
  - intros out' m' (k & Ek & -> & Hok & Ec & Ev' & Er & Ep & Ei). exists (S k). rewrite length_app in Ek. cbn [length queue] in *.
    split_and!; try done; [lia|by rewrite <- app_assoc|]. by rewrite Ev', Ev, put_put.
Qed.

(** ** One turn of one class *)

Definition by_sender (s : Z) (l : list MempoolTx) : list MempoolTx := filter (fun tx => m_sender_id tx = s) l.

Definition conserved (out : list MempoolTx) m (out' : list MempoolTx) m' : Prop :=
  (length out' + total m' = length out + total m)%nat.

(** Transactions move from the fronts of the queues to the end of [out]. *)
Definition taken (out : list MempoolTx) m (out' : list MempoolTx) m' : Prop :=
  exists x, out' = out ++ x /\ forall s, by_sender s x ++ Q m' s = Q m s.

Lemma taken_refl out m : taken out m out m.
Proof. exists []. split; [by rewrite app_nil_r|done]. Qed.

Lemma taken_trans out m out1 m1 out2 m2 : taken out m out1 m1 -> taken out1 m1 out2 m2 -> taken out m out2 m2.
Proof.
  intros (x & -> & Hx) (y & -> & Hy). exists (x ++ y). split; [by rewrite app_assoc|].
  intros s. unfold by_sender. rewrite filter_app, <- app_assoc. by rewrite <- Hx, <- Hy.
Qed.

Lemma taken_put m m' idx rq k out r c : mp_ok r c m -> ready_vec m !! idx = Some rq ->
  ready_vec m' = put idx (drop k (queue rq)) (ready_vec m) ->
  taken out m (out ++ take k (queue rq)) m'.
Proof.
  intros Hm Hq Ev. exists (take k (queue rq)). split; [done|]. intros s. unfold Q. rewrite Ev.
  rewrite (content_put _ (ready_index m) _ rq) by (done || apply Hm).
  assert (Forall (fun tx => m_sender_id tx = rq_sender_id rq) (take k (queue rq))) as Hf.
  { apply Forall_take, Forall_forall. intros tx Htx. by apply (mi_txs _ _ _ _ Hm idx). }
  unfold by_sender. case_decide as Hs.
  - subst s. rewrite filter_keep_all by done. rewrite take_drop.
    by rewrite (content_at _ _ _ _ (mi_index _ _ _ _ Hm) Hq).
  - assert (filter (fun tx => m_sender_id tx = s) (take k (queue rq)) = []) as ->; [|done].
    revert Hf. generalize (take k (queue rq)). induction 1; [done|]. rewrite filter_cons_False; [done|congruence].
Qed.

Lemma mp_ok_sched r c m rr pos : mp_ok r c m -> sched_ok (length (ready_vec m)) rr pos ->
  mp_ok r c (set_rr_pos pos (set_rr_vec rr m)).
Proof. intros [] ?. by split. Qed.

Lemma sched_exact_drop rr k l idx v q rq : rr !! k = Some l -> idx ∈ l -> v !! idx = Some rq ->
  sched_exact v rr ->
  sched_exact (put idx q v) (if bool_decide (q = []) then <[k := filter (fun i => i <> idx) l]> rr else rr).
Proof.
  intros Hk Hidx Hq Hx. pose proof Hx as [Hnd Hs]. assert (idx ∈ concat rr) as Hin.
  { rewrite <- (take_drop_middle rr k l Hk), concat_app. simpl. rewrite !elem_of_app. tauto. }
  assert (queue rq <> []) as Hne by (apply Hs in Hin as (rq' & Hv & ?); congruence).
  case_bool_decide as He; [|by eapply sched_exact_put; [done|naive_solver|done]]. subst q.
  rewrite <- (take_drop_middle rr k l Hk) in Hnd, Hs. rewrite insert_take_drop by (by eapply lookup_lt_Some).
  rewrite concat_app in *. simpl in *. rewrite !NoDup_app in Hnd.
  destruct Hnd as (H1 & Hd1 & H2 & Hd2 & H3). split.
  - rewrite concat_app. simpl. rewrite !NoDup_app. split_and!; [done| |by apply NoDup_filter| |done].
    + intros i Hi. specialize (Hd1 i Hi). rewrite elem_of_app, list_elem_of_filter in *. tauto.
    + intros i Hi. apply list_elem_of_filter in Hi as [_ Hi]. by apply Hd2.
  - intros i. rewrite concat_app. simpl. specialize (Hs i). specialize (Hd1 idx). specialize (Hd2 idx Hidx).
    rewrite !elem_of_app, list_elem_of_filter in *. rewrite put_lookup. destruct (decide (i = idx)) as [->|Hn].
    + rewrite Hq. simpl. split; [tauto|]. intros (rq' & [= <-] & ?). done.
    + transitivity (exists rq', v !! i = Some rq' /\ queue rq' <> []); [rewrite <- Hs; tauto|].
      destruct (v !! i) as [rq'|]; simpl; [|naive_solver].
      split; intros (rq'' & [= <-] & Hn'); eexists; done.
Qed.

Lemma wp_drain_class r c max k out m :
  mp_ok r c m -> (k < 4)%nat -> (length out <= max)%nat ->
  wp (drain_class max k out)
    (fun out' m' => mp_ok r c m' /\ (cfg m' = cfg m /\ ready_index m' = ready_index m) /\
       (length out <= length out' <= max)%nat /\ (taken out m out' m' /\ conserved out m out' m') /\
       (exact m -> exact m' /\ ((length out < max)%nat ->
          (rr_vec_by_class m !! k = Some [] /\ m' = m) \/ (length out < length out')%nat)))
    (fun _ _ => False) m.
Proof.
  intros Hm Hk Hout. unfold drain_class. destruct (Nat.leb_spec max (length out)).
  { split_and!; [done|done|done|lia|done|apply taken_refl|done|]. intros Hx. split; [done|lia]. }
  destruct (mi_sched _ _ _ _ Hm) as (Hl & Hp & Hs).
  destruct (lookup_lt_is_Some_2 (rr_vec_by_class m) k) as [l El]; [lia|].
  destruct (lookup_lt_is_Some_2 (rr_pos_by_class m) k) as [p Ep]; [lia|].
  apply wp_bind, wp_get. unfold index. rewrite El, Ep.
  apply wp_bind, wp_lift; [|done]. intros ? [= <-]. apply wp_bind, wp_lift; [|done]. intros ? [= <-].
  case_bool_decide as Hnil.
  { subst. split_and!; [done|done|done|lia|done|apply taken_refl|done|]. intros Hx. split; [done|]. intros _. by left. }
  set (pos := if (length l <=? p)%nat then 0%nat else p).
  assert (pos < length l)%nat as Hpos.
  { unfold pos. destruct (Nat.leb_spec (length l) p); [|done]. by destruct l; [|simpl; lia]. }
  destruct (lookup_lt_is_Some_2 l pos Hpos) as [idx Eidx]. rewrite Eidx.
  apply wp_bind, wp_lift; [|done]. intros ? [= <-]. set (pos' := ((pos + 1) mod _)%nat).
  apply wp_bind, wp_modify.
  assert (idx < length (ready_vec m))%nat as Hidx.
  { rewrite Forall_lookup in Hs. specialize (Hs k l El). rewrite Forall_lookup in Hs. by apply (Hs pos). }
  destruct (lookup_lt_is_Some_2 _ _ Hidx) as [rq Hq].
  set (m1 := set_rr_pos _ m). assert (mp_ok r c m1) as Hm1.
  { apply (mp_ok_sched r c m (rr_vec_by_class m) (<[k:=pos']> (rr_pos_by_class m))); [done|].
    split_and!; [done|by rewrite length_insert|done]. }
  assert (ready_vec m1 !! idx = Some rq) as Hq1 by exact Hq. rewrite Hq.
  apply wp_bind. eapply wp_mono; [by eapply (wp_burst r c BURST_PER_SENDER max idx m1 rq out (fun _ _ => False))| |done].
  intros out' m2 (n & En & -> & Hm2 & Ec & Ev & Er & Epos & Ei).
  apply wp_bind, wp_get.
  assert (ready_vec m2 !! idx = Some (mkRq (rq_sender_id rq) (drop n (queue rq)))) as Hq2.
  { rewrite Ev, put_lookup, Hq1. simpl. by rewrite decide_True. }
  rewrite Hq2. apply wp_bind, wp_lift; [|done]. intros ? [= <-]. simpl.
  assert (idx ∈ l) as Hin by (by eapply list_elem_of_lookup_2).
  assert (length (ready_vec m2) = length (ready_vec m)) as Elen by (rewrite Ev; apply put_length).
  pose proof (taken_put m m2 idx rq n out r c Hm Hq Ev) as Htaken.
  assert (conserved out m (out ++ take n (queue rq)) m2) as Hcons.
  { unfold conserved. pose proof (weigh_put one idx (drop n (queue rq)) (ready_vec m) rq Hq) as Hw.
    change (ready_vec m1) with (ready_vec m) in Ev.
    rewrite (mi_total _ _ _ _ Hm2), (mi_total _ _ _ _ Hm), Ev, length_app.
    rewrite !weigh_queue_one, length_drop in Hw. rewrite length_take. lia. }
  assert (length out <= length (out ++ take n (queue rq)) <= max)%nat as Hlen
    by (rewrite length_app, length_take; unfold BURST_PER_SENDER in En; lia).
  assert (exact m -> length out < length (out ++ take n (queue rq)))%nat as Hprog.
  { intros [_ Hx]. assert (idx ∈ concat (rr_vec_by_class m)) as Hin'.
    { rewrite <- (take_drop_middle _ _ _ El), concat_app. simpl. rewrite !elem_of_app. tauto. }
    apply Hx in Hin' as (rq' & Hq' & Hne). assert (queue rq <> []) as Hne' by congruence.
    rewrite length_app, length_take. destruct (queue rq); [done|].
    unfold BURST_PER_SENDER in En. cbn [length] in *. lia. }
  pose proof (sched_exact_drop (rr_vec_by_class m) k l idx (ready_vec m) (drop n (queue rq)) rq El Hin Hq) as Hx2.
  change (ready_vec m1) with (ready_vec m) in Ev. rewrite <- Ev in Hx2. case_bool_decide as Hempty.
  - apply wp_bind, wp_modify. apply wp_bind, wp_modify. apply wp_ret.
    split; [|split; [by split|split; [exact Hlen|split; [by split|]]]].
    + apply (mp_ok_sched r c m2 (<[k:=filter (fun i => i <> idx) l]> (rr_vec_by_class m2))); [done|].
      destruct (mi_sched _ _ _ _ Hm2) as (Hl2 & Hp2 & Hs2).
      split_and!; [by rewrite length_insert|by rewrite length_insert|]. apply Forall_insert; [done|].
      apply Forall_forall. intros i Hi. apply list_elem_of_filter in Hi as [_ Hi]. rewrite Elen.
      rewrite Forall_lookup in Hs. specialize (Hs k l El). rewrite Forall_forall in Hs. by apply Hs.
    + intros Hx. split; [|right; by apply Hprog]. unfold exact. simpl. rewrite Er. by apply Hx2.
  - apply wp_ret. split_and!; [done|exact Ec|exact Ei|lia|lia|exact Htaken|exact Hcons|].
    intros Hx. split; [|right; by apply Hprog]. unfold exact. rewrite Er. by apply Hx2.
Qed.

(** ** The rounds *)

Lemma exact_nil m : exact m -> (forall k, (k < 4)%nat -> rr_vec_by_class m !! k = Some []) ->
  length (rr_vec_by_class m) = 4%nat -> forall r c, mp_ok r c m -> forall s, Q m s = [].
Proof.
  intros [_ Hx] Hk Hl r c Hm s. assert (concat (rr_vec_by_class m) = []) as Hc.
  { destruct (rr_vec_by_class m) as [|l0 [|l1 [|l2 [|l3 []]]]]; try done.
    pose proof (Hk 0%nat ltac:(lia)). pose proof (Hk 1%nat ltac:(lia)).
    pose proof (Hk 2%nat ltac:(lia)). pose proof (Hk 3%nat ltac:(lia)). simpl in *. simplify_eq. done. }
  unfold Q. destruct (owner_dec (ready_vec m) s) as [(i & rq & Hv & <-)|Hn]; [|by apply content_none].
  rewrite (content_at _ _ _ _ (mi_index _ _ _ _ Hm) Hv). specialize (Hx i). rewrite Hc in Hx.
  destruct (queue rq) as [|tx q] eqn:E; [done|]. exfalso. apply (not_elem_of_nil i), Hx. exists rq. by rewrite E.
Qed.

(** What a turn, a round and the whole loop have in common. *)
Definition drained (max : nat) (c : AdmissionConfig) (r : bool) (out : list MempoolTx) m (out' : list MempoolTx) m' :
    Prop :=
  mp_ok r c m' /\ (cfg m' = cfg m /\ ready_index m' = ready_index m) /\
  (length out <= length out' <= max)%nat /\ (taken out m out' m' /\ conserved out m out' m') /\
  (exact m -> exact m').

Lemma wp_turn r c max k out m (Q' : list MempoolTx -> Mempool -> Prop) f :
  mp_ok r c m -> (k < 4)%nat -> (length out <= max)%nat ->
  (forall out1 m1, drained max c r out m out1 m1 ->
     (exact m -> (length out < max)%nat -> (rr_vec_by_class m !! k = Some [] /\ m1 = m) \/ (length out < length out1)%nat) ->
     wp (f out1) Q' (fun _ _ => False) m1) ->
  wp (out1 ← drain_class max k out; f out1) Q' (fun _ _ => False) m.
Proof.
  intros Hm Hk Hout Hf. apply wp_bind. eapply wp_mono_ok; [by apply (wp_drain_class r c)|].
  intros out1 m1 (? & H2 & ? & ? & Hx). apply Hf; [split_and!; [done|apply H2|apply H2|lia|lia|tauto|tauto|]; intros; by apply Hx|].
  intros Hex. by apply Hx.
Qed.

Lemma drained_trans max r c out m out1 m1 out2 m2 :
  drained max c r out m out1 m1 -> drained max c r out1 m1 out2 m2 -> drained max c r out m out2 m2.
Proof.
  unfold drained, conserved. intros (? & [] & ? & [] & ?) (? & [] & ? & [] & ?).
  split_and!; [done|congruence|congruence|lia|lia|by eapply taken_trans|lia|auto].
Qed.

Lemma wp_round r c max out m (Q' : list MempoolTx -> Mempool -> Prop) f :
  mp_ok r c m -> (length out < max)%nat ->
  (forall out4 m4, drained max c r out m out4 m4 ->
     (exact m -> (forall s, Q m4 s = []) \/ (length out < length out4)%nat) ->
     wp (f out4) Q' (fun _ _ => False) m4) ->
  wp (out1 ← drain_class max 0 out;
      out2 ← drain_class max 1 out1;
      out3 ← drain_class max 2 out2;
      out4 ← drain_class max 3 out3; f out4) Q' (fun _ _ => False) m.
Proof.
  intros Hm Hlt Hf.
  eapply (wp_turn r c); [done|lia|lia|]. intros out1 m1 H1 P1. pose proof H1 as (Hm1 & _ & L1 & _ & X1).
  eapply (wp_turn r c); [done|lia|lia|]. intros out2 m2 H2 P2. pose proof H2 as (Hm2 & _ & L2 & _ & X2).
  eapply (wp_turn r c); [done|lia|lia|]. intros out3 m3 H3 P3. pose proof H3 as (Hm3 & _ & L3 & _ & X3).
  eapply (wp_turn r c); [done|lia|lia|]. intros out4 m4 H4 P4. pose proof H4 as (Hm4 & _ & L4 & _ & X4).
  apply Hf; [by eapply drained_trans; [eapply drained_trans; [eapply drained_trans|]|]|].
  intros Hx. destruct (decide (length out < length out4)%nat); [by right|left].
  specialize (P1 Hx ltac:(lia)) as [[K0 ->]|]; [|lia].
  specialize (P2 Hx ltac:(lia)) as [[K1 ->]|]; [|lia].
  specialize (P3 Hx ltac:(lia)) as [[K2 ->]|]; [|lia].
  specialize (P4 Hx ltac:(lia)) as [[K3 ->]|]; [|lia].
  apply (exact_nil m Hx) with (r := r) (c := c); [|apply Hm|done].
  intros k Hk. destruct k as [|[|[|[|]]]]; [done..|lia].
Qed.

Lemma wp_drain_rounds r c max fuel out m :
  mp_ok r c m -> (length out <= max)%nat -> (max - length out < fuel)%nat ->
  wp (drain_rounds fuel max out)
    (fun out' m' => drained max c r out m out' m' /\
       (exact m -> length out' = max \/ forall s, Q m' s = [])) (fun _ _ => False) m.
Proof.
  revert out m; induction fuel as [|fuel IH]; intros out m Hm Hout Hf; [lia|]. cbn [drain_rounds].
  destruct (Nat.ltb_spec (length out) max).
  2: { split; [split_and!; [done|done|done|lia|lia|apply taken_refl|done|done]|]. intros _. left. lia. }
  apply (wp_round r c); [done|done|]. intros out4 m4 H4 P4. pose proof H4 as (Hm4 & _ & L4 & _ & X4).
  destruct (Nat.eqb_spec (length out4) (length out)) as [E|E].
  - split; [done|]. intros Hx. destruct (P4 Hx) as [|]; [by right|lia].
  - eapply wp_mono_ok; [apply IH; [done|lia|lia]|]. intros out' m' [Hd Hp].
    split; [by eapply drained_trans|auto].
Qed.
End Ops.
End CoreOps.
