(* ===== verification/MempoolCorrect.v ===== *)
(** * What the mempool guarantees

    Reachable mempools never panic and their books are right; what draining,
    committing a block and restoring do; and where the schedule loses track
    of a queue. *)

From S2P Require Import Prelude OrdMap Gas Account Fee QueuedPool Replay Admission AdmissionCorrect MempoolCore MempoolInv MempoolOps.

Module CoreC.
Import Admit AdmitC Core CoreInv CoreOps.

Section CoreC.
Context `{LruCache Replay.ReplayEntry} `{AccountBincode}.
Implicit Types (v : list ReadyQueue) (rq : ReadyQueue) (m : Mempool).

(** ** What a sweep leaves alone *)

Section Stable.
Context (P : Mempool -> Prop).
Context (Hcount : forall m a n t, queued_pool a = queued_pool (admission m) -> P m ->
  P (set_admission a (set_counts n (set_total t m)))).
Context (Hqueue : forall m idx q, P m -> P (set_queue idx q m)).
Context (Hremove : forall m idx, P m -> P (snd (remove_ready_queue idx m))).

#[local] Notation stable k := (forall m, P m -> wp k (fun _ => P) (fun _ _ => True) m).

Lemma stable_account sid tx : stable (account_removal sid tx).
Proof.
  intros m Hm. unfold account_removal, on_count. apply wp_bind, wp_modify. apply wp_bind, wp_bind, wp_get. apply wp_bind.
  unfold index. simpl. destruct (counts m !! Z.to_nat sid) as [n|]; [|done]. apply wp_lift; [|done].
  intros ? [= <-]. apply wp_modify, wp_modify.
  apply (Hcount m _ (<[Z.to_nat sid := (n - 1)%nat]> (counts m)) (total m - 1)%nat); [|done].
  apply (lv_pool _ _ _ _ (proj1 (record_removal_spec sid (m_class tx) (m_tx_hash tx) (admission m)))).
Qed.

Lemma stable_sweep_txs d sid l : stable (sweep_txs d sid l).
Proof.
  induction l as [|tx l IH]; intros m Hm; cbn [sweep_txs]; [done|]. destruct (d tx).
  - apply wp_bind. eapply wp_mono_ok; [by apply stable_account|]. intros [] m' Hm'. by apply IH.
  - apply wp_bind. eapply wp_mono_ok; [by apply IH|]. done.
Qed.

Lemma stable_sweep fuel visit ke idx : stable (sweep fuel visit ke idx).
Proof.
  revert idx; induction fuel as [|fuel IH]; intros idx m Hm; cbn [sweep]; [done|].
  apply wp_bind, wp_get. destruct (ready_vec m !! idx) as [rq|]; [|done].
  destruct (visit (rq_sender_id rq)) as [d|]; [|by apply IH].
  apply wp_bind. eapply wp_mono_ok; [by apply stable_sweep_txs|]. intros k m1 Hm1.
  apply wp_bind, wp_modify. destruct (_ && _); [|by apply IH, Hqueue].
  apply wp_bind. apply (Hqueue m1 idx k) in Hm1. apply (Hremove _ idx) in Hm1.
  unfold remove_ready_queue, modify, wp in *. by apply IH.
Qed.

Lemma stable_sweep_all visit ke : stable (sweep_all visit ke).
Proof. intros m Hm. apply wp_bind, wp_get. by apply stable_sweep. Qed.
End Stable.

(** Two facts about one run. *)
Lemma wp_and {A} (k : MP A) (Q1 Q2 : A -> Mempool -> Prop) m :
  wp k Q1 (fun _ _ => False) m -> wp k Q2 (fun _ _ => True) m ->
  wp k (fun a m' => Q1 a m' /\ Q2 a m') (fun _ _ => False) m.
Proof. unfold wp. by destruct (k m) as [[a|e] m']. Qed.

Lemma remove_ready_queue_admission idx m : admission (snd (remove_ready_queue idx m)) = admission m.
Proof. unfold remove_ready_queue, modify. simpl. by destruct (ready_vec m !! idx). Qed.

Lemma sweep_all_pool visit ke m :
  wp (sweep_all visit ke) (fun _ m' => queued_pool (admission m') = queued_pool (admission m)) (fun _ _ => True) m.
Proof.
  apply (stable_sweep_all (fun m' => queued_pool (admission m') = queued_pool (admission m))); [| | |done].
  - intros m' a n t E1 E2. simpl. congruence.
  - done.
  - intros m' idx E. by rewrite remove_ready_queue_admission.
Qed.

(** ** Purging and removing *)

Definition expired (c : MempoolConfig) (now : Z) (tx : MempoolTx) : bool :=
  duration_since now (inserted tx) >? cfg_ttl c.

(** Whether a call at [now] purges. *)
Definition purge_due (now : Z) m : bool := negb (duration_since now (last_purge m) <? purge_interval m / 2).

(** A sender's queue after the lazy purge. *)
Definition purged (now : Z) m (s : Z) : list MempoolTx :=
  if purge_due now m then kept (expired (cfg m) now) (Q m s) else Q m s.

Definition fresh_at (now : Z) m : Prop := forall s tx, tx ∈ Q m s -> expired (cfg m) now tx = false.

Lemma purged_fresh now m s : fresh_at now m -> purged now m s = Q m s.
Proof. intros Hf. unfold purged. destruct (purge_due now m); [|done]. apply kept_all, Hf. Qed.

Lemma total_content r c m m' : mp_ok r c m -> mp_ok r c m' -> (forall s, Q m' s = Q m s) -> total m' = total m.
Proof.
  intros Hm Hm' HQ. rewrite (mi_total _ _ _ _ Hm), (mi_total _ _ _ _ Hm').
  apply weigh_content; [eapply index_ok_senders; apply Hm'|eapply index_ok_senders; apply Hm|exact HQ].
Qed.

Lemma wp_purge_if_needed r c now m :
  mp_ok r c m ->
  wp (purge_expired_internal_if_needed now)
    (fun _ m' => mp_ok r c m' /\ cfg m' = cfg m /\ (forall s, Q m' s = purged now m s) /\
       (fresh_at now m -> exact m -> exact m')) (fun _ _ => False) m.
Proof.
  intros Hm. unfold purge_expired_internal_if_needed, purged, purge_due. apply wp_bind, wp_get.
  destruct (duration_since now (last_purge m) <? purge_interval m / 2); simpl; [by apply wp_ret|].
  unfold purge_expired_internal. apply wp_bind, wp_modify, wp_bind, wp_get.
  set (m1 := set_last_purge now m). assert (mp_ok r c m1) as Hm1 by (destruct Hm; by split).
  eapply wp_mono_ok; [by apply (wp_sweep_all r c)|]. intros [] m' (Hok & Ec & HQ & Hx).
  split_and!; [done|done|exact HQ|]. intros Hf. apply Hx. intros s d tx [= <-]. apply (Hf s).
Qed.

Lemma wp_remove_by_handles r c handles m :
  mp_ok r c m ->
  wp (remove_by_handles handles)
    (fun _ m' => mp_ok r c m' /\ cfg m' = cfg m /\ queued_pool (admission m') = queued_pool (admission m) /\
       forall s, Q m' s = kept (fun tx => bool_decide (m_tx_handle tx ∈ handles)) (Q m s)) (fun _ _ => False) m.
Proof.
  intros Hm. unfold remove_by_handles. case_bool_decide as Hn.
  - apply wp_ret. split_and!; [done..|]. intros s. rewrite kept_all; [done|]. intros tx _. subst.
    apply bool_decide_eq_false. apply not_elem_of_nil.
  - eapply wp_mono_ok; [apply wp_and; [by apply (wp_sweep_all r c)|apply sweep_all_pool]|].
    intros [] m' [(Hok & Ec & HQ & _) Hpool]. by split_and!.
Qed.

(** The nonces below the committed one. *)
Definition stale (updates : list (Z * Z)) (s : Z) (tx : MempoolTx) : bool :=
  match (list_to_map updates : gmap Z Z) !! s with Some n => m_nonce tx <? n | None => false end.

Lemma wp_evict_stale r c updates m :
  mp_ok r c m ->
  wp (evict_stale updates)
    (fun _ m' => mp_ok r c m' /\ cfg m' = cfg m /\ queued_pool (admission m') = queued_pool (admission m) /\
       forall s, Q m' s = kept (stale updates s) (Q m s))
    (fun _ _ => False) m.
Proof.
  intros Hm. unfold evict_stale. case_bool_decide as Hn.
  - apply wp_ret. split_and!; [done..|]. intros s. rewrite kept_all; [done|]. intros tx _. subst.
    unfold stale. simpl. by rewrite lookup_empty.
  - eapply wp_mono_ok; [apply wp_and; [by apply (wp_sweep_all r c)|apply sweep_all_pool]|].
    intros [] m' [(Hok & Ec & HQ & _) Hpool]. split_and!; [done..|].
    intros s. specialize (HQ s). unfold swept in HQ. unfold Q, stale. rewrite HQ.
    destruct ((list_to_map updates : gmap Z Z) !! s) as [n|]; simpl; [done|]. by rewrite kept_all.
Qed.

(** ** Adding many *)

Definition txs_of (now : Z) (from_rpc : bool) (l : list (PrevalidatedTx * option bytes)) : list MempoolTx :=
  (fun e => tx_from now e.1 e.2 from_rpc) <$> l.

Lemma by_sender_cons s tx l :
  by_sender s (tx :: l) = if decide (m_sender_id tx = s) then tx :: by_sender s l else by_sender s l.
Proof. unfold by_sender. by rewrite filter_cons. Qed.

(** What one outcome adds to the queues. *)
Definition here (o : AdmissionOutcome) (e : PrevalidatedTx * option bytes) : list (PrevalidatedTx * option bytes) :=
  match o with Admitted_ => [e] | _ => [] end.

Lemma here_content now from_rpc o t h m m' :
  match o with
  | Admitted_ => forall s, Q m' s = if decide (s = sender_id t) then Q m s ++ [tx_from now t h from_rpc] else Q m s
  | _ => forall s, Q m' s = Q m s
  end -> forall s, Q m' s = Q m s ++ by_sender s (txs_of now from_rpc (here o (t, h))).
Proof.
  intros HQ s. destruct o; rewrite HQ; simpl; [|by rewrite app_nil_r..]. rewrite by_sender_cons. simpl.
  change (by_sender s []) with (@nil MempoolTx).
  destruct (decide (s = sender_id t)), (decide (sender_id t = s)); try congruence; by rewrite app_nil_r.
Qed.

Lemma wp_add_all r c now from_rpc l m :
  mp_ok r c m -> Forall (fun e => pv_ok e.1) l ->
  wp (add_all now from_rpc l)
    (fun os m' => mp_ok r c m' /\ cfg m' = cfg m /\ (exact m -> exact m') /\
       exists acc, sublist acc l /\ forall s, Q m' s = Q m s ++ by_sender s (txs_of now from_rpc acc))
    (fun _ _ => False) m.
Proof.
  intros Hm Hl. revert m Hm. induction Hl as [|[t h] l Ht Hl IH]; intros m Hm; cbn [add_all].
  - apply wp_ret. split_and!; [done..|]. exists []. split; [done|]. intros s. by rewrite app_nil_r.
  - apply wp_bind. eapply wp_mono_ok; [by apply (wp_add r c)|]. intros o m1 (Hm1 & Ec1 & Hx1 & HQ1).
    apply wp_bind. eapply wp_mono_ok; [by apply IH|]. intros os m2 (Hm2 & Ec2 & Hx2 & acc & Hacc & HQ2).
    apply wp_ret. split_and!; [done|congruence|auto|].
    pose proof (here_content now from_rpc o t h m m1 HQ1) as HQ. exists (here o (t, h) ++ acc). split.
    + unfold here. destruct o; simpl; [by apply sublist_skip|by apply sublist_cons..].
    + intros s. rewrite HQ2, HQ, <- app_assoc. f_equal. unfold by_sender, txs_of. by rewrite fmap_app, filter_app.
Qed.

(** ** Draining *)

Lemma wp_drain r c now max m :
  mp_ok r c m ->
  wp (drain_fair_batch now max)
    (fun out m' => mp_ok r c m' /\ cfg m' = cfg m /\ (length out <= max)%nat /\
       (forall s, by_sender s out ++ Q m' s =
          if (max =? 0)%nat then purged now m s else merge_sort nonce_le (purged now m s)) /\
       (fresh_at now m -> (length out + total m' = total m)%nat /\
          (exact m -> exact m' /\ (length out = max \/ forall s, Q m' s = []))) /\
       (forall s, purged now m s <> [] -> 0 <= s -> owned m' s)) (fun _ _ => False) m.
Proof.
  intros Hm. unfold drain_fair_batch. apply wp_bind. eapply wp_mono_ok; [by apply (wp_purge_if_needed r c)|].
  intros [] m1 (Hm1 & Ec1 & HQ1 & Hx1).
  assert (forall s, purged now m s <> [] -> 0 <= s -> owned m1 s) as Hown.
  { intros s Hne Hs. rewrite <- HQ1 in Hne. destruct (owner_dec (ready_vec m1) s) as [(i & rq & Hv & <-)|Hn].
    - exists i. apply (mi_index _ _ _ _ Hm1 _ _ Hv).
    - exfalso. apply Hne. by apply content_none. }
  assert (fresh_at now m -> total m1 = total m) as Htot.
  { intros Hf. apply (total_content r c); [done|done|]. intros s. by rewrite HQ1, purged_fresh. }
  destruct (Nat.eqb_spec max 0) as [->|Hmax].
  - apply wp_ret. split_and!; [done|done|done|exact HQ1| |exact Hown]. intros Hf.
    split; [by rewrite Htot|]. intros Hx. split; [by apply Hx1|by left].
  - apply wp_bind. eapply wp_mono_ok; [by apply (wp_sort_queues r c)|].
    intros [] m2 (Hm2 & (Ec2 & Ei2 & Et2) & Hx2 & HQ2).
    eapply wp_mono_ok; [apply (wp_drain_rounds r c); [done|simpl; lia|simpl; lia]|].
    intros out m3 [(Hm3 & [Ec3 Ei3] & Hlen & [(x & -> & HQ3) Hcons] & Hx3) Hp]. unfold conserved in Hcons. simpl in *.
    split_and!; [done|congruence|lia|intros s; by rewrite HQ3, HQ2, HQ1| |].
    + intros Hf. split; [rewrite <- Htot by done; lia|]. intros Hx. split; [by auto|].
      destruct (Hp ltac:(by auto)); [by left|by right].
    + intros s Hne Hs. destruct (Hown s Hne Hs) as [i Hi]. exists i. by rewrite Ei3, Ei2.
Qed.

(** ** Committing a block *)

Lemma mp_ok_set_admission r c m a : same_counts (admission m) a -> adm_ok a -> mp_ok r c m ->
  mp_ok r c (set_admission a m).
Proof.
  intros Hs Ha Hm. apply mp_ok_admission; [done|eapply adm_counts_same; [done|apply Hm]|].
  destruct (mi_inv _ _ _ _ Hm) as (E & _ & Hcaps). split; [by rewrite (sc_config _ _ Hs)|]. split; [done|].
  intros Hr. eapply caps_ok_counts; [done|by apply Hcaps].
Qed.

(** What a commit drops from a sender's queue. *)
Definition settled (committed : list Z) (updates : list (Z * Z)) (s : Z) (tx : MempoolTx) : bool :=
  bool_decide (m_tx_handle tx ∈ committed) || stale updates s tx.

Lemma kept_kept d e q : kept e (kept d q) = kept (fun tx => d tx || e tx) q.
Proof.
  unfold kept. rewrite list_filter_filter. apply list_filter_iff. intros tx. destruct (d tx), (e tx); simpl; naive_solver.
Qed.

Lemma wp_commit r c now committed updates m :
  mp_ok r c m -> Forall (fun u => in_range U64_MAX u.2) updates ->
  wp (on_block_committed now committed updates)
    (fun _ m' => mp_ok r c m' /\ cfg m' = cfg m /\
       exists acc, sublist acc (fst (promote_queued_batch updates (cleanup_queued_pool now (admission m)))) /\
         forall s, Q m' s = kept (settled committed updates s) (Q m s) ++ by_sender s (txs_of now false acc))
    (fun _ _ => False) m.
Proof.
  intros Hm Hu. unfold on_block_committed. apply wp_bind. eapply wp_mono_ok; [by apply (wp_remove_by_handles r c)|].
  intros [] m1 (Hm1 & Ec1 & Ep1 & HQ1).
  apply wp_bind. eapply wp_mono_ok; [by apply (wp_evict_stale r c)|]. intros [] m2 (Hm2 & Ec2 & Ep2 & HQ2).
  apply wp_bind, wp_get. destruct (mi_inv _ _ _ _ Hm2) as (_ & Ha2 & _).
  destruct (cleanup_ok now (admission m2) Ha2) as [Ha3 Hs3].
  pose proof (promote_queued_batch_ok updates _ Ha3 Hu) as Hp.
  assert (fst (promote_queued_batch updates (cleanup_queued_pool now (admission m2))) =
    fst (promote_queued_batch updates (cleanup_queued_pool now (admission m)))) as E.
  { unfold promote_queued_batch, cleanup_queued_pool. simpl. rewrite Ep2, Ep1.
    by destruct (Queued.promote_batch _ _). }
  destruct (promote_queued_batch updates (cleanup_queued_pool now (admission m2))) as [l a].
  destruct Hp as (Ha & Hs & Hl). rewrite <- E. simpl. apply wp_bind, wp_modify. apply wp_bind.
  assert (mp_ok r c (set_admission (new_round a) m2)) as Hm3.
  { apply mp_ok_set_admission; [|by apply (adm_ok_same_pool a)|done]. transitivity a; [by etrans|by split]. }
  eapply wp_mono_ok; [by apply (wp_add_all r c)|]. intros os m4 (Hm4 & Ec4 & _ & acc & Hacc & HQ4).
  apply wp_ret. split_and!; [done|by rewrite Ec4; simpl; congruence|]. exists acc. split; [done|].
  intros s. rewrite HQ4. f_equal. change (Q (set_admission _ m2) s) with (Q m2 s). by rewrite HQ2, HQ1, kept_kept.
Qed.

(** ** Restoring and peeking *)

Lemma wp_restore c l m :
  mp_ok true c m -> Forall (fun tx => 0 <= m_sender_id tx) l ->
  wp (restore_drained_txs l)
    (fun _ m' => mp_ok true c m' /\ (cfg m' = cfg m /\ total m' = (length l + total m)%nat) /\
       (forall s, Q m' s = reverse (by_sender s l) ++ Q m s) /\
       (Forall (fun tx => owned m (m_sender_id tx)) l -> rr_vec_by_class m' = rr_vec_by_class m))
    (fun _ _ => False) m.
Proof.
  intros Hm Hl. revert m Hm. induction Hl as [|tx l Htx Hl IH]; intros m Hm; cbn [restore_drained_txs].
  { apply wp_ret. by split_and!. }
  apply wp_bind. eapply wp_mono_ok; [by apply (wp_restore_one c)|]. intros [] m1 (Hm1 & [Ec1 Et1] & HQ1 & Ho1).
  eapply wp_mono_ok; [by apply IH|]. intros [] m2 (Hm2 & [Ec2 Et2] & HQ2 & Ho2).
  split_and!; [done|congruence|simpl; lia| |].
  - intros s. rewrite HQ2, HQ1, by_sender_cons.
    destruct (decide (s = m_sender_id tx)), (decide (m_sender_id tx = s)); try congruence.
    by rewrite reverse_cons, <- app_assoc.
  - intros Hown. apply Forall_cons in Hown as [Hown Howns]. destruct (Ho1 Hown) as [Er Hmono].
    rewrite Ho2, Er; [done|]. eapply Forall_impl; [exact Howns|]. intros x. apply Hmono.
Qed.

Lemma wp_peek_class r c max k out m :
  mp_ok r c m -> (k < 4)%nat -> (length out <= max)%nat ->
  wp (peek_class max k out)
    (fun out' m' => m' = m /\ (length out <= length out' <= max)%nat) (fun _ _ => False) m.
Proof.
  intros Hm Hk Hout. unfold peek_class. destruct (Nat.leb_spec max (length out)); [split; [done|lia]|].
  destruct (mi_sched _ _ _ _ Hm) as (Hl & Hp & Hs).
  destruct (lookup_lt_is_Some_2 (rr_vec_by_class m) k) as [l El]; [lia|].
  destruct (lookup_lt_is_Some_2 (rr_pos_by_class m) k) as [p Ep]; [lia|].
  apply wp_bind, wp_get. unfold index. rewrite El, Ep.
  apply wp_bind, wp_lift; [|done]. intros ? [= <-]. apply wp_bind, wp_lift; [|done]. intros ? [= <-].
  case_bool_decide as Hnil; [split; [done|lia]|].
  set (pos := if (length l <=? p)%nat then 0%nat else p).
  assert (pos < length l)%nat as Hpos.
  { unfold pos. destruct (Nat.leb_spec (length l) p); [|done]. by destruct l; [|simpl; lia]. }
  destruct (lookup_lt_is_Some_2 l pos Hpos) as [idx Eidx]. rewrite Eidx.
  apply wp_bind, wp_lift; [|done]. intros ? [= <-].
  destruct (ready_vec m !! idx ≫= _) as [tx|]; (split; [done|]); rewrite ?length_app; simpl; lia.
Qed.

Lemma wp_peek_rounds r c max fuel out m :
  mp_ok r c m -> (length out <= max)%nat -> (max - length out < fuel)%nat ->
  wp (peek_rounds fuel max out) (fun out' m' => m' = m /\ (length out' <= max)%nat) (fun _ _ => False) m.
Proof.
  intros Hm. revert out; induction fuel as [|fuel IH]; intros out Hout Hf; [lia|]. cbn [peek_rounds].
  destruct (Nat.ltb_spec (length out) max); [|split; [done|lia]].
  do 3 (apply wp_bind; eapply wp_mono_ok; [apply (wp_peek_class r c); [done|lia|lia]|];
    intros ? ? [-> ?]).
  apply wp_bind. eapply wp_mono_ok; [apply (wp_peek_class r c); [done|lia|lia]|]. intros out4 ? [-> ?].
  destruct (Nat.eqb_spec (length out4) (length out)); [split; [done|lia]|]. apply IH; lia.
Qed.

Lemma wp_peek r c now max m :
  mp_ok r c m ->
  wp (peek_fair_batch now max)
    (fun out m' => mp_ok r c m' /\ cfg m' = cfg m /\ (forall s, Q m' s = purged now m s) /\
       (length out <= max)%nat /\ (fresh_at now m -> exact m -> exact m')) (fun _ _ => False) m.
Proof.
  intros Hm. unfold peek_fair_batch. apply wp_bind. eapply wp_mono_ok; [by apply (wp_purge_if_needed r c)|].
  intros [] m1 (Hm1 & Ec1 & HQ1 & Hx1). destruct (max =? 0)%nat; [apply wp_ret; split_and!; [done..|simpl; lia|done]|].
  eapply wp_mono_ok; [apply (wp_peek_rounds r c); [done|simpl; lia|simpl; lia]|]. intros out m' [-> ?]. by split_and!.
Qed.

(** ** Runs *)

Inductive op :=
| OpAdd (now : Z) (t : PrevalidatedTx) (hash : option bytes) (from_rpc : bool)
| OpAddBatch (now : Z) (l : list PrevalidatedTx) (from_rpc : bool)
| OpDrain (now : Z) (max : nat)
| OpPeek (now : Z) (max : nat)
| OpRestore (l : list MempoolTx)
| OpRemove (handles : list Z)
| OpCommit (now : Z) (committed : list Z) (updates : list (Z * Z))
| OpLen (now : Z).

Definition exec (o : op) : MP unit :=
  match o with
  | OpAdd now t h rpc => add_prevalidated_with_source now t h rpc;; mret tt
  | OpAddBatch now l rpc => add_prevalidated_batch_with_source now l rpc;; mret tt
  | OpDrain now max => drain_fair_batch now max;; mret tt
  | OpPeek now max => peek_fair_batch now max;; mret tt
  | OpRestore l => restore_drained_txs l
  | OpRemove handles => remove_by_handles handles
  | OpCommit now committed updates => on_block_committed now committed updates
  | OpLen now => len now;; mret tt
  end.

Fixpoint run_ops (l : list op) : MP unit :=
  match l with [] => mret tt | o :: l' => exec o;; run_ops l' end.

(** Arguments in the range of their types. *)
Definition op_ok (o : op) : Prop :=
  match o with
  | OpAdd _ t _ _ => pv_ok t
  | OpAddBatch _ l _ => Forall pv_ok l
  | OpRestore l => Forall (fun tx => 0 <= m_sender_id tx) l
  | OpCommit _ _ updates => Forall (fun u => in_range U64_MAX u.2) updates
  | _ => True
  end.

Definition is_restore (o : op) : bool := match o with OpRestore _ => true | _ => false end.

Lemma wp_forget r c {A} (k : MP A) (P : A -> Mempool -> Prop) m :
  wp k P (fun _ _ => False) m -> (forall a m', P a m' -> mp_ok r c m' /\ cfg m' = cfg m) ->
  wp (k;; mret tt) (fun _ m' => mp_ok r c m' /\ cfg m' = cfg m) (fun _ _ => False) m.
Proof. intros Hk HP. apply wp_bind. eapply wp_mono_ok; [exact Hk|]. intros a m' Hm'. by apply wp_ret, (HP a). Qed.

Lemma wp_exec r c o m : op_ok o -> (is_restore o = true -> r = true) -> mp_ok r c m ->
  wp (exec o) (fun _ m' => mp_ok r c m' /\ cfg m' = cfg m) (fun _ _ => False) m.
Proof.
  intros Ho Hr Hm. destruct o; simpl in *.
  - eapply wp_forget; [by apply (wp_add r c)|]. simpl. tauto.
  - apply (wp_forget r c _ (fun _ m' => mp_ok r c m' /\ cfg m' = cfg m)); [|done].
    unfold add_prevalidated_batch_with_source. apply wp_bind.
      eapply wp_mono_ok; [by apply (wp_purge_if_needed r c)|]. intros [] m1 (Hm1 & Ec1 & _).
      rewrite <- Ec1. eapply wp_mono_ok; [apply (wp_add_all r c); [done|by apply Forall_fmap]|]. simpl. tauto.
  - eapply wp_forget; [by apply (wp_drain r c)|]. simpl. tauto.
  - eapply wp_forget; [by apply (wp_peek r c)|]. simpl. tauto.
  - specialize (Hr eq_refl). subst r. eapply wp_mono_ok; [by apply (wp_restore c)|]. simpl. tauto.
  - eapply wp_mono_ok; [by apply (wp_remove_by_handles r c)|]. simpl. tauto.
  - eapply wp_mono_ok; [by apply (wp_commit r c)|]. simpl. tauto.
  - apply (wp_forget r c _ (fun _ m' => mp_ok r c m' /\ cfg m' = cfg m)); [|done]. unfold len. apply wp_bind.
    eapply wp_mono_ok; [by apply (wp_purge_if_needed r c)|]. intros [] m1 (Hm1 & Ec1 & _). by apply wp_gets.
Qed.

Lemma wp_run r c ops m : Forall op_ok ops -> (existsb is_restore ops = true -> r = true) -> mp_ok r c m ->
  wp (run_ops ops) (fun _ m' => mp_ok r c m' /\ cfg m' = cfg m) (fun _ _ => False) m.
Proof.
  intros Ho. revert m. induction Ho as [|o ops Ho Hops IH]; intros m Hr Hm; cbn [run_ops]; [by apply wp_ret|].
  simpl in Hr. apply wp_bind. eapply wp_mono_ok; [apply (wp_exec r c); [done| |done]|].
  - intros E. apply Hr. by rewrite E.
  - intros [] m1 [Hm1 Ec1]. rewrite <- Ec1. apply IH; [|done]. intros E. apply Hr. rewrite E. by rewrite orb_true_r.
Qed.

Lemma mp_ok_new r cf c st rp now : mp_ok r c (with_config cf (Admit.new c st rp now) now).
Proof.
  split; try done.
  - split_and!; [done|done|]. by repeat constructor.
  - split; [done|]. split; [apply adm_ok_new|]. intros _. split; simpl; intros; try lia;
      unfold count_of; rewrite lookup_empty; simpl; lia.
Qed.

(** *** Runs in which nothing expires *)

Definition quiet (t0 t1 : Z) (o : op) : Prop :=
  match o with
  | OpAdd now _ _ _ | OpAddBatch now _ _ | OpDrain now _ | OpPeek now _ | OpLen now => t0 <= now <= t1
  | _ => False
  end.

(** Every transaction arrived after [t0], and the schedule is exact. *)
Definition young (t0 : Z) m : Prop := (forall s tx, tx ∈ Q m s -> t0 <= inserted tx) /\ exact m.

Lemma young_fresh t0 now m : 0 <= cfg_ttl (cfg m) -> now <= t0 + cfg_ttl (cfg m) -> young t0 m -> fresh_at now m.
Proof.
  intros Httl Hnow [Hy _] s tx Htx. specialize (Hy s tx Htx). unfold expired, duration_since.
  rewrite Z.gtb_ltb. apply Z.ltb_ge. lia.
Qed.

Lemma young_subset t0 m m' : young t0 m -> (forall s tx, tx ∈ Q m' s -> tx ∈ Q m s) -> exact m' -> young t0 m'.
Proof. intros [Hy _] Hs Hx. split; [|done]. intros s tx Htx. apply (Hy s), Hs, Htx. Qed.

Lemma young_extend t0 now rpc l m m' : young t0 m -> t0 <= now -> exact m' ->
  (forall s, Q m' s = Q m s ++ by_sender s (txs_of now rpc l)) -> young t0 m'.
Proof.
  intros [Hy _] Hnow Hx HQ. split; [|done]. intros s tx. rewrite HQ, elem_of_app. intros [Htx|Htx]; [by eapply Hy|].
  apply list_elem_of_filter in Htx as [_ Htx]. apply list_elem_of_fmap in Htx as (e & -> & _). done.
Qed.

Lemma wp_exec_quiet c t0 ttl o m : op_ok o -> 0 <= ttl -> quiet t0 (t0 + ttl) o -> mp_ok false c m ->
  cfg_ttl (cfg m) = ttl -> young t0 m ->
  wp (exec o) (fun _ m' => mp_ok false c m' /\ cfg m' = cfg m /\ young t0 m') (fun _ _ => False) m.
Proof.
  intros Ho Httl Hq Hm Ec Hy.
  assert (forall now, now <= t0 + ttl -> fresh_at now m) as Hf by (intros; apply (young_fresh t0); by rewrite ?Ec).
  pose proof Hy as [_ Hx]. destruct o; simpl in *; try done.
  - apply wp_bind. eapply wp_mono_ok; [by apply (wp_add false c)|]. intros o m' (Hm' & Ec' & Hx' & HQ').
    apply wp_ret. split_and!; [done|done|].
    apply (young_extend t0 now from_rpc (here o (t, hash)) m); [done|lia|by apply Hx'|by apply here_content].
  - apply wp_bind. unfold add_prevalidated_batch_with_source. apply wp_bind.
    eapply wp_mono_ok; [by apply (wp_purge_if_needed false c)|]. intros [] m1 (Hm1 & Ec1 & HQ1 & Hx1).
    eapply wp_mono_ok; [apply (wp_add_all false c); [done|by apply Forall_fmap]|].
    intros os m' (Hm' & Ec' & Hx' & acc & _ & HQ'). apply wp_ret. split_and!; [done|congruence|].
    apply (young_extend t0 now from_rpc acc m); [done|lia|apply Hx', Hx1; [apply Hf; lia|done]|].
    intros s. rewrite HQ', HQ1, purged_fresh; [done|]. apply Hf. lia.
  - apply wp_bind. eapply wp_mono_ok; [by apply (wp_drain false c)|].
    intros out m' (Hm' & Ec' & _ & HQ' & Hx' & _). apply wp_ret. split_and!; [done|done|].
    destruct (Hx' ltac:(apply Hf; lia)) as [Htot Hx2]. specialize (Hx2 Hx) as [Hx2 _].
    apply (young_subset t0 m); [done| |done]. intros s tx Htx. specialize (HQ' s). rewrite purged_fresh in HQ' by (apply Hf; lia).
    assert (tx ∈ by_sender s out ++ Q m' s) as Hin by (rewrite elem_of_app; by right).
    rewrite HQ' in Hin. destruct (max =? 0)%nat; [done|]. by rewrite merge_sort_Permutation in Hin.
  - apply wp_bind. eapply wp_mono_ok; [by apply (wp_peek false c)|].
    intros out m' (Hm' & Ec' & HQ' & _ & Hx'). apply wp_ret. split_and!; [done|done|].
    apply (young_subset t0 m); [done| |apply Hx'; [apply Hf; lia|done]].
    intros s tx. rewrite HQ', purged_fresh; [done|]. apply Hf. lia.
  - apply wp_bind. unfold len. apply wp_bind.
    eapply wp_mono_ok; [by apply (wp_purge_if_needed false c)|]. intros [] m1 (Hm1 & Ec1 & HQ1 & Hx1).
    apply wp_gets, wp_ret. split_and!; [done|done|].
    apply (young_subset t0 m); [done| |apply Hx1; [apply Hf; lia|done]].
    intros s tx. rewrite HQ1, purged_fresh; [done|]. apply Hf. lia.
Qed.

Lemma wp_run_quiet c t0 ttl ops m : Forall op_ok ops -> 0 <= ttl -> Forall (quiet t0 (t0 + ttl)) ops ->
  mp_ok false c m -> cfg_ttl (cfg m) = ttl -> young t0 m ->
  wp (run_ops ops) (fun _ m' => mp_ok false c m' /\ cfg m' = cfg m /\ young t0 m') (fun _ _ => False) m.
Proof.
  intros Ho Httl Hq. revert m. induction Ho as [|o ops Ho Hops IH]; intros m Hm Ec Hy; cbn [run_ops]; [by apply wp_ret|].
  apply Forall_cons in Hq as [Hqo Hq]. apply wp_bind. eapply wp_mono_ok; [by apply (wp_exec_quiet c t0 ttl)|].
  intros [] m1 (Hm1 & Ec1 & Hy1). rewrite <- Ec1. apply IH; [done|done|congruence|done].
Qed.

Lemma young_new t0 cf c st rp : young t0 (with_config cf (Admit.new c st rp t0) t0).
Proof.
  split; [intros s tx Htx; by apply not_elem_of_nil in Htx|]. split; [constructor|].
  intros i. simpl. split; [intros Hi; by apply not_elem_of_nil in Hi|]. intros (rq & Hv & _). done.
Qed.

(** ** An empty schedule *)

Definition unscheduled m : Prop := Forall (fun l => l = []) (rr_vec_by_class m).

Lemma exact_unscheduled r c m : mp_ok r c m -> exact m -> (forall s, Q m s = []) -> unscheduled m.
Proof.
  intros Hm [_ Hx] HQ. apply Forall_forall. intros l Hl. destruct l as [|i l]; [done|]. exfalso.
  assert (i ∈ concat (rr_vec_by_class m)) as Hi.
  { apply list_elem_of_split in Hl as (l1 & l2 & ->). rewrite concat_app. simpl. rewrite elem_of_app, elem_of_cons. tauto. }
  apply Hx in Hi as (rq & Hv & Hne). apply Hne. specialize (HQ (rq_sender_id rq)). unfold Q in HQ.
  by rewrite (content_at _ _ _ _ (mi_index _ _ _ _ Hm) Hv) in HQ.
Qed.

Lemma unscheduled_remove m idx : unscheduled m -> unscheduled (snd (remove_ready_queue idx m)).
Proof.
  intros Hu. unfold remove_ready_queue, modify. simpl. destruct (ready_vec m !! idx); [|done].
  unfold unscheduled in *. simpl. apply Forall_fmap. destruct (negb _).
  - apply Forall_fmap. eapply Forall_impl; [exact Hu|]. intros l ->. done.
  - eapply Forall_impl; [exact Hu|]. intros l ->. done.
Qed.

Lemma wp_purge_unscheduled now m : unscheduled m ->
  wp (purge_expired_internal_if_needed now) (fun _ => unscheduled) (fun _ _ => True) m.
Proof.
  intros Hu. unfold purge_expired_internal_if_needed. apply wp_bind, wp_get.
  destruct (_ <? _); [done|]. unfold purge_expired_internal. apply wp_bind, wp_modify, wp_bind, wp_get.
  apply stable_sweep_all; [done|done|by intros; apply unscheduled_remove|done].
Qed.

Lemma drain_rounds_unscheduled r c fuel max m : mp_ok r c m -> unscheduled m ->
  drain_rounds fuel max [] m = (Ok [], m).
Proof.
  intros Hm Hu. assert (forall k, (k < 4)%nat -> drain_class max k [] m = (Ok [], m)) as Hc.
  { intros k Hk. unfold drain_class. destruct (max <=? length [])%nat; [done|].
    destruct (mi_sched _ _ _ _ Hm) as (Hl & Hp & _).
    destruct (lookup_lt_is_Some_2 (rr_vec_by_class m) k) as [l El]; [lia|].
    destruct (lookup_lt_is_Some_2 (rr_pos_by_class m) k) as [p Ep]; [lia|].
    unfold mbind, M_bind, get, index, lift. rewrite El, Ep. simpl.
    unfold unscheduled in Hu. rewrite Forall_lookup in Hu. by rewrite (Hu k l El). }
  destruct fuel as [|fuel]; [done|]. cbn [drain_rounds]. destruct (length [] <? max)%nat; [|done].
  unfold mbind, M_bind. by rewrite !Hc by lia.
Qed.

Lemma wp_drain_unscheduled r c now max m : mp_ok r c m -> unscheduled m ->
  wp (drain_fair_batch now max) (fun out _ => out = []) (fun _ _ => False) m.
Proof.
  intros Hm Hu. unfold drain_fair_batch. apply wp_bind.
  eapply wp_mono_ok; [apply wp_and; [by apply (wp_purge_if_needed r c)|by apply wp_purge_unscheduled]|].
  intros [] m1 [(Hm1 & _) Hu1]. destruct (max =? 0)%nat; [done|]. apply wp_bind.
  assert (unscheduled (snd (sort_queues m1))) as Hu2 by done.
  pose proof (wp_sort_queues r c m1 (fun _ _ => False) Hm1) as Hs. unfold wp in *.
  destruct (sort_queues m1) as [[[]|e] m2]; [|done]. destruct Hs as (Hm2 & _). simpl in Hu2.
  by rewrite (drain_rounds_unscheduled r c _ _ _ Hm2 Hu2).
Qed.

Lemma mp_ok_weaken c m : mp_ok false c m -> mp_ok true c m.
Proof. intros [? ? ? ? ? ? ? (? & ? & ?)]. by split. Qed.

(** ** The theorems *)

(** All transactions held. *)
Definition held m : list MempoolTx := ready_vec m ≫= queue.

Lemma weigh_held w v : weigh w v = weigh_queue w (v ≫= queue).
Proof. induction v as [|rq v IH]; [done|]. by rewrite weigh_cons, bind_cons, weigh_queue_app, <- IH. Qed.

Lemma weigh_class cl q : weigh_queue (of_class cl) q = length (filter (fun tx => m_class tx = cl) q).
Proof.
  induction q as [|tx q IH]; [done|]. rewrite weigh_queue_cons, IH, filter_cons. unfold of_class. by case_decide.
Qed.

Lemma total_held r c m : mp_ok r c m -> total m = length (held m).
Proof. intros Hm. by rewrite (mi_total _ _ _ _ Hm), weigh_held, weigh_queue_one. Qed.

(** The state after a run from an empty pool. *)
Definition after (cf : MempoolConfig) (c : AdmissionConfig) (st : option ContractFee.AccountDb)
    (rp : option Replay.ReplayPrevention) (t0 : Z) (ops : list op) m : Prop :=
  run_ops ops (with_config cf (Admit.new c st rp t0) t0) = (Ok tt, m).

Lemma after_ok r cf c st rp t0 ops : Forall op_ok ops -> (existsb is_restore ops = true -> r = true) ->
  exists m, after cf c st rp t0 ops m /\ mp_ok r c m.
Proof.
  intros Ho Hr. pose proof (wp_run r c ops _ Ho Hr (mp_ok_new r cf c st rp t0)) as Hw. unfold wp in Hw. unfold after.
  destruct (run_ops ops _) as [[[]|e] m]; [|done]. exists m. by destruct Hw.
Qed.

(** C3: The books of the mempool.  No sequence of additions, drains, peeks,
    restorations, removals and block commits panics.  Afterwards the total
    and the global count of admission control are the number of transactions
    held; its count for a sender, for a class, and the mempool's own vector of
    counts are the numbers of the sender's, the class's and the queue's
    transactions; a sender's index entry is the position of its queue; and
    unless transactions were restored, the caps hold. *)
Theorem mempool_reachable (cf : MempoolConfig) (c : AdmissionConfig) (st : option ContractFee.AccountDb)
    (rp : option Replay.ReplayPrevention) (t0 : Z) (ops : list op) :
  Forall op_ok ops ->
  exists m, after cf c st rp t0 ops m /\
    total m = length (held m) /\ global_count (admission m) = length (held m) /\
    (forall s, count_of (sender_counts (admission m)) s = length (Q m s)) /\
    (forall cl, count_of (class_counts (admission m)) cl = length (filter (fun tx => m_class tx = cl) (held m))) /\
    (forall i rq, ready_vec m !! i = Some rq ->
       ready_index m !! Z.to_nat (rq_sender_id rq) = Some (Some i) /\
       counts m !! Z.to_nat (rq_sender_id rq) = Some (length (queue rq)) /\
       Q m (rq_sender_id rq) = queue rq) /\
    (existsb is_restore ops = false ->
       (length (held m) <= global_cap c)%nat /\ forall s, (length (Q m s) <= max_per_sender c)%nat).
Proof.
  intros Ho. set (r := existsb is_restore ops).
  destruct (after_ok r cf c st rp t0 ops Ho (fun E => E)) as (m & Ha & Hm). exists m. split; [done|].
  assert (forall w, weigh w (ready_vec m) = weigh_queue w (held m)) as Hw by (intros w; apply weigh_held).
  destruct (mi_adm _ _ _ _ Hm) as [A1 A2 A3 _]. pose proof (mi_inv _ _ _ _ Hm) as (Ec & _ & Hcaps).
  assert (forall s, count_of (sender_counts (admission m)) s = length (Q m s)) as Hs.
  { intros s. rewrite A2. apply weigh_sender; [eapply index_ok_senders; apply Hm|apply Hm]. }
  split; [by eapply total_held|]. split; [by rewrite A1, Hw, weigh_queue_one|].
  split; [done|]. split; [intros cl; by rewrite A3, Hw, weigh_class|]. split.
  - intros i rq Hv. split; [apply (mi_index _ _ _ _ Hm _ _ Hv)|]. split; [by eapply inv_count|].
    apply (content_at _ _ _ _ (mi_index _ _ _ _ Hm) Hv).
  - intros Hr. destruct (Hcaps Hr) as [C1 _ _ C4]. rewrite Ec in C1, C4. split.
    + by rewrite A1, Hw, weigh_queue_one in C4.
    + intros s. rewrite <- Hs. apply C1.
Qed.

(** C5: Draining is fair to the order.  From any reachable mempool a drain
    returns at most [max] transactions, and for every sender what comes out
    followed by what stays is the sender's unexpired queue sorted by nonce:
    nothing is lost, duplicated or reordered within a sender. *)
Theorem drain_correct (cf : MempoolConfig) (c : AdmissionConfig) (st : option ContractFee.AccountDb)
    (rp : option Replay.ReplayPrevention) (t0 : Z) (ops : list op) (now : Z) (max : nat) :
  Forall op_ok ops -> (0 < max)%nat ->
  exists m out m', after cf c st rp t0 ops m /\ drain_fair_batch now max m = (Ok out, m') /\
    (length out <= max)%nat /\
    forall s, by_sender s out ++ Q m' s = merge_sort nonce_le (purged now m s).
Proof.
  intros Ho Hmax. destruct (after_ok true cf c st rp t0 ops Ho (fun _ => eq_refl)) as (m & Ha & Hm).
  pose proof (wp_drain true c now max m Hm) as Hw. unfold wp in Hw.
  destruct (drain_fair_batch now max m) as [[out|e] m'] eqn:E; [|done].
  destruct Hw as (_ & _ & Hlen & HQ & _). exists m, out, m'. split_and!; [done..|]. intros s. rewrite HQ.
  by rewrite (proj2 (Nat.eqb_neq _ _)) by lia.
Qed.

Lemma after_quiet cf c st rp t0 ops : Forall op_ok ops -> 0 <= cfg_ttl cf -> Forall (quiet t0 (t0 + cfg_ttl cf)) ops ->
  exists m, after cf c st rp t0 ops m /\ mp_ok false c m /\ cfg m = cf /\ young t0 m.
Proof.
  intros Ho Httl Hq.
  pose proof (wp_run_quiet c t0 (cfg_ttl cf) ops _ Ho Httl Hq (mp_ok_new false cf c st rp t0) eq_refl (young_new _ _ _ _ _)) as Hw.
  unfold wp in Hw. unfold after. destruct (run_ops ops _) as [[[]|e] m]; [|done]. exists m. by destruct Hw as (? & ? & ?).
Qed.

(** Draining is complete.  As long as transactions are only added,
    drained and looked at and none expires, a drain takes as many as it may:
    the smaller of [max] and the number held. *)
Theorem drain_complete (cf : MempoolConfig) (c : AdmissionConfig) (st : option ContractFee.AccountDb)
    (rp : option Replay.ReplayPrevention) (t0 : Z) (ops : list op) (now : Z) (max : nat) :
  Forall op_ok ops -> 0 <= cfg_ttl cf -> Forall (quiet t0 (t0 + cfg_ttl cf)) ops -> t0 <= now <= t0 + cfg_ttl cf ->
  exists m out m', after cf c st rp t0 ops m /\ drain_fair_batch now max m = (Ok out, m') /\
    length out = Nat.min max (length (held m)).
Proof.
  intros Ho Httl Hq Hnow. destruct (after_quiet cf c st rp t0 ops Ho Httl Hq) as (m & Ha & Hm & Ec & Hy).
  pose proof (wp_drain false c now max m Hm) as Hw. unfold wp in Hw.
  destruct (drain_fair_batch now max m) as [[out|e] m'] eqn:E; [|done].
  destruct Hw as (Hm' & _ & Hlen & _ & Hf & _). exists m, out, m'. split_and!; [done..|].
  destruct Hf as [Htot Hx]; [apply (young_fresh t0); [by rewrite Ec|rewrite Ec; lia|done]|].
  destruct (Hx (proj2 Hy)) as [_ Hall].
  rewrite <- (total_held _ _ _ Hm). destruct Hall as [Hall|Hall]; [lia|].
  assert (total m' = 0%nat) as E0.
  { rewrite (mi_total _ _ _ _ Hm'). apply weigh_nil_content; [exact Hall|eapply index_ok_senders; apply Hm']. }
  lia.
Qed.

(** C17: Committing a block.  From any reachable mempool, and for any handles
    and nonce updates, a sender keeps exactly the transactions that were
    neither committed nor overtaken by its new nonce, in order; appended are
    some of the transactions promoted from the queued pool, in their order. *)
Theorem commit_correct (cf : MempoolConfig) (c : AdmissionConfig) (st : option ContractFee.AccountDb)
    (rp : option Replay.ReplayPrevention) (t0 : Z) (ops : list op) (now : Z) (committed : list Z)
    (updates : list (Z * Z)) :
  Forall op_ok ops -> Forall (fun u => in_range U64_MAX u.2) updates ->
  exists m m' acc, after cf c st rp t0 ops m /\ on_block_committed now committed updates m = (Ok tt, m') /\
    sublist acc (fst (promote_queued_batch updates (cleanup_queued_pool now (admission m)))) /\
    forall s, Q m' s =
      filter (fun tx => settled committed updates s tx = false) (Q m s) ++ by_sender s (txs_of now false acc).
Proof.
  intros Ho Hu. destruct (after_ok true cf c st rp t0 ops Ho (fun _ => eq_refl)) as (m & Ha & Hm).
  pose proof (wp_commit true c now committed updates m Hm Hu) as Hw. unfold wp in Hw.
  destruct (on_block_committed now committed updates m) as [[[]|e] m'] eqn:E; [|done].
  destruct Hw as (_ & _ & acc & Hacc & HQ). by exists m, m', acc.
Qed.

(** Transactions given back to a drained pool are stranded.  When a drain
    has emptied the pool and its transactions are restored, as the proposer
    does with transactions it cannot use, the pool counts all of them again,
    but the queues they are put in are not scheduled: no later drain returns
    any of them, whenever it runs and whatever it may take. *)
Theorem restored_txs_stranded (cf : MempoolConfig) (c : AdmissionConfig) (st : option ContractFee.AccountDb)
    (rp : option Replay.ReplayPrevention) (t0 : Z) (ops : list op) (now : Z) (max : nat) :
  Forall op_ok ops -> 0 <= cfg_ttl cf -> Forall (quiet t0 (t0 + cfg_ttl cf)) ops -> t0 <= now <= t0 + cfg_ttl cf ->
  (forall m, after cf c st rp t0 ops m -> length (held m) < max)%nat ->
  exists m out m1 m2, after cf c st rp t0 ops m /\ drain_fair_batch now max m = (Ok out, m1) /\
    length out = length (held m) /\ restore_drained_txs out m1 = (Ok tt, m2) /\ total m2 = length (held m) /\
    forall now' max', fst (drain_fair_batch now' max' m2) = Ok [].
Proof.
  intros Ho Httl Hq Hnow Hmax. destruct (after_quiet cf c st rp t0 ops Ho Httl Hq) as (m & Ha & Hm & Ec & Hy).
  specialize (Hmax m Ha). assert (fresh_at now m) as Hfr by (apply (young_fresh t0); [by rewrite Ec|rewrite Ec; lia|done]).
  rewrite <- (total_held _ _ _ Hm) in *.
  pose proof (wp_drain false c now max m Hm) as Hw. unfold wp in Hw.
  destruct (drain_fair_batch now max m) as [[out|e] m1] eqn:E; [|done].
  destruct Hw as (Hm1 & _ & Hlen & HQ & Hf & Hown). destruct (Hf Hfr) as [Htot Hx].
  destruct (Hx (proj2 Hy)) as [Hx1 [Hall|Hall]]; [lia|].
  assert (total m1 = 0%nat) as E0.
  { rewrite (mi_total _ _ _ _ Hm1). apply weigh_nil_content; [exact Hall|eapply index_ok_senders; apply Hm1]. }
  pose proof (exact_unscheduled _ _ _ Hm1 Hx1 Hall) as Hu1.
  assert (Forall (fun tx => 0 <= m_sender_id tx /\ owned m1 (m_sender_id tx)) out) as Hsenders.
  { apply Forall_forall. intros tx Htx. set (s := m_sender_id tx).
    assert (tx ∈ Q m s) as Hin.
    { specialize (HQ s). rewrite purged_fresh in HQ by done.
      assert (tx ∈ by_sender s out ++ Q m1 s) as Hin
        by (rewrite elem_of_app; left; by apply list_elem_of_filter).
      rewrite HQ in Hin. destruct (max =? 0)%nat; [done|]. by rewrite merge_sort_Permutation in Hin. }
    assert (Q m s <> []) as Hne by (intros En; rewrite En in Hin; by apply not_elem_of_nil in Hin).
    assert (0 <= s) as Hs.
    { destruct (owner_dec (ready_vec m) s) as [(i & rq & Hv & <-)|Hn]; [apply (mi_index _ _ _ _ Hm _ _ Hv)|].
      exfalso. by apply Hne, content_none. }
    split; [done|]. apply Hown; [|done]. by rewrite purged_fresh. }
  pose proof (wp_restore c out m1 (mp_ok_weaken _ _ Hm1)) as Hr. unfold wp in Hr.
  destruct (restore_drained_txs out m1) as [[[]|e] m2] eqn:E2.
  - destruct Hr as (Hm2 & [_ Et2] & _ & Hrr); [eapply Forall_impl; [exact Hsenders|]; by intros ? []|].
    exists m, out, m1, m2. rewrite <- (total_held _ _ _ Hm).
    split_and!; [done|done|lia|done|lia|]. intros now' max'.
    assert (unscheduled m2) as Hu2.
    { unfold unscheduled. rewrite Hrr; [done|]. eapply Forall_impl; [exact Hsenders|]. by intros ? []. }
    pose proof (wp_drain_unscheduled true c now' max' m2 Hm2 Hu2) as Hd. unfold wp in Hd.
    destruct (drain_fair_batch now' max' m2) as [[out'|e] m3]; [|done]. by rewrite Hd.
  - exfalso. apply Hr. eapply Forall_impl; [exact Hsenders|]. by intros ? [].
Qed.
End CoreC.

(** ** Concrete pools *)

#[local] Existing Instance ContractFee.bincode_demo.

(** Three transactions of the funded account, out of order, and one of
    another sender; the trusted path. *)
Definition ops0 : list op :=
  [OpAdd 10 (pv1 1 [Byte.x01] 7) None true; OpAdd 11 (pv1 1 [Byte.x01] 6) None true;
   OpAdd 12 (pv1 2 [Byte.x02] 9) None true; OpAdd 13 (pv1 1 [Byte.x01] 6) None true;
   OpAdd 14 (pv1 3 [Byte.x03] 11) None true].

Lemma ops0_ok : Forall op_ok ops0.
Proof. repeat (apply Forall_cons; split; [apply pv1_ok; unfold in_range; mlia|]). apply Forall_nil. done. Qed.

Lemma ops0_quiet : Forall (quiet 0 (0 + cfg_ttl MempoolConfig_default)) ops0.
Proof. repeat constructor; vm_compute; discriminate. Qed.

Definition pool0 : Mempool :=
  snd (run_ops ops0 (with_config MempoolConfig_default (Admit.new AdmissionConfig_default (Some db0) None 0) 0)).

Lemma after0 m : after MempoolConfig_default AdmissionConfig_default (Some db0) None 0 ops0 m -> m = pool0.
Proof. unfold after, pool0. intros E. by rewrite E. Qed.

Lemma mempool_reachable_witness :
  total pool0 = length (held pool0) /\ length (Q pool0 1) = 2%nat /\
  count_of (sender_counts (admission pool0)) 1 = 2%nat.
Proof.
  destruct (mempool_reachable MempoolConfig_default AdmissionConfig_default (Some db0) None 0 ops0 ops0_ok)
    as (m & Ha & Ht & _ & Hs & _). apply after0 in Ha. subst m. split; [exact Ht|].
  assert (length (Q pool0 1) = 2%nat) as E by (vm_compute; reflexivity). split; [exact E|]. by rewrite Hs.
Defined.

Lemma drain_correct_witness :
  exists out m', drain_fair_batch 20 2 pool0 = (Ok out, m') /\ m_nonce <$> out = [6; 7] /\
    by_sender 2 out ++ Q m' 2 = merge_sort nonce_le (purged 20 pool0 2).
Proof.
  destruct (drain_correct MempoolConfig_default AdmissionConfig_default (Some db0) None 0 ops0 20 2 ops0_ok
    ltac:(lia)) as (m & out & m' & Ha & Hd & _ & HQ). apply after0 in Ha. subst m.
  exists out, m'. split; [exact Hd|]. split; [|apply HQ].
  assert (fst (drain_fair_batch 20 2 pool0) = Ok out) as E by (by rewrite Hd).
  vm_compute in E. injection E as <-. reflexivity.
Defined.

Lemma drain_complete_witness :
  exists out m', drain_fair_batch 100 3 pool0 = (Ok out, m') /\ length out = 3%nat.
Proof.
  destruct (drain_complete MempoolConfig_default AdmissionConfig_default (Some db0) None 0 ops0 100 3 ops0_ok
    ltac:(vm_compute; discriminate) ops0_quiet ltac:(vm_compute; split; discriminate)) as (m & out & m' & Ha & Hd & Hl).
  apply after0 in Ha. subst m. exists out, m'. split; [exact Hd|]. rewrite Hl. vm_compute. reflexivity.
Defined.

Lemma commit_correct_witness :
  exists m' acc, on_block_committed 50 [9] [(1, 7)] pool0 = (Ok tt, m') /\
    Q m' 1 = filter (fun tx => settled [9] [(1, 7)] 1 tx = false) (Q pool0 1) ++ by_sender 1 (txs_of 50 false acc).
Proof.
  destruct (commit_correct MempoolConfig_default AdmissionConfig_default (Some db0) None 0 ops0 50 [9] [(1, 7)] ops0_ok)
    as (m & m' & acc & Ha & Hc & _ & HQ); [repeat constructor; vm_compute; discriminate|].
  apply after0 in Ha. subst m. exists m', acc. split; [exact Hc|apply HQ].
Defined.

Lemma restored_txs_stranded_witness :
  exists m2, total m2 = 4%nat /\ forall now' max', fst (drain_fair_batch now' max' m2) = Ok [].
Proof.
  destruct (restored_txs_stranded MempoolConfig_default AdmissionConfig_default (Some db0) None 0 ops0 100 50 ops0_ok
    ltac:(vm_compute; discriminate) ops0_quiet ltac:(vm_compute; split; discriminate))
    as (m & out & m1 & m2 & Ha & _ & _ & _ & Ht & Hd).
  { intros m Ha. apply after0 in Ha. subst m. apply Nat.ltb_lt. vm_compute. reflexivity. }
  apply after0 in Ha. subst m. exists m2. split; [|exact Hd]. rewrite Ht. vm_compute. reflexivity.
Defined.

(** The preview repeats the head of the queue whose turn it is. *)
Lemma peek_repeats :
  exists l m', peek_fair_batch 20 5 pool0 = (Ok l, m') /\ m_nonce <$> l = [7; 7; 7; 7; 7].
Proof.
  destruct (peek_fair_batch 20 5 pool0) as [r m'] eqn:E.
  assert (fst (peek_fair_batch 20 5 pool0) = r) as E' by (by rewrite E). vm_compute in E'. subst r.
  eexists _, _. split; reflexivity.
Qed.

(** The first queue is removed: its slot stays and now names the queue that
    was moved into its place, which is scheduled twice. *)
Lemma removed_slot_survives :
  rr_vec_by_class pool0 = [[0; 1; 2]; []; []; []]%nat /\
  rr_vec_by_class (snd (remove_by_handles [7; 6] pool0)) = [[0; 1; 0]; []; []; []]%nat.
Proof. split; vm_compute; reflexivity. Qed.

End CoreC.
