(* ===== verification/SignedTx.v ===== *)
(** * Signed transfers

    [savitri-lightnode/src/tx.rs]: the transaction the light node executes,
    its size limits, its wire format and its signature check;
    [savitri-core/src/crypto/signature.rs]: the canonical signed bytes; and
    [normalize_address_bytes] of [savitri-lightnode/src/p2p/block.rs].

    A Rust [String] is a [string] of its UTF-8 bytes.  [bincode] is a class
    parameter with its documented round trip. *)

From S2P Require Import Prelude Codec.
From Stdlib Require Import Strings.Byte.

Module Tx.

(** [TransactionExt]; [sig] is a [[u8; 64]]. *)
Record SignedTx := mkTx {
  from : string;
  to : string;
  amount : Z;
  nonce : Z;
  fee : option Z;
  data : option bytes;
  pubkey : bytes;
  sig : bytes;
  pre_verified : bool;
}.

#[global] Instance SignedTx_eq_dec : EqDecision SignedTx.
Proof. solve_decision. Defined.

Definition set_pre_verified (b : bool) (t : SignedTx) : SignedTx :=
  mkTx (from t) (to t) (amount t) (nonce t) (fee t) (data t) (pubkey t) (sig t) b.

Definition MAX_ADDRESS_LEN : nat := 128.
Definition MAX_TX_DATA_SIZE : Z := 65536.

Inductive TxError :=
| FromTooLong (len : nat)
| ToTooLong (len : nat)
| BadPubkeyLength (len : nat)
| DataTooLarge (len : nat)
| Undecodable
| Unencodable.

Definition T (A : Type) : Type := M unit TxError A.

Definition validate_tx_field_sizes (t : SignedTx) : result TxError unit :=
  if (MAX_ADDRESS_LEN <? String.length (from t))%nat then Err (FromTooLong (String.length (from t)))
  else if (MAX_ADDRESS_LEN <? String.length (to t))%nat then Err (ToTooLong (String.length (to t)))
  else if negb (length (pubkey t) =? 32)%nat then Err (BadPubkeyLength (length (pubkey t)))
  else match data t with
       | Some d => if Z.of_nat (length d) >? MAX_TX_DATA_SIZE then Err (DataTooLarge (length d)) else Ok tt
       | None => Ok tt
       end.

(** [bincode] with fixed-width integers and the one-megabyte limit; [None]
    for [Err]. *)
Class TxBincode := {
  bincode_serialize : SignedTx -> option bytes;
  bincode_deserialize : bytes -> option SignedTx;
}.
Class TxBincodeLaws `{TxBincode} : Prop := {
  bincode_roundtrip t b : bincode_serialize t = Some b -> bincode_deserialize b = Some t;
  bincode_nonempty t : bincode_serialize t <> Some [];
}.

(** [build_tx_signable_v1]. *)
Definition build_tx_signable_v1 (from_hex_bytes to_hex_bytes : bytes) (amount nonce fee : Z) : bytes :=
  from_hex_bytes ++ to_hex_bytes ++ to_le_bytes 8 amount ++ to_le_bytes 8 nonce ++ to_le_bytes 16 fee.

Section Verify.
Context `{Hex, Sha256, Ed25519}.

Definition verify_tx_signature_v1 (signable signature_bytes public_key_bytes : bytes) : bool :=
  ed25519_verify public_key_bytes (sha256 signable) signature_bytes.

(** The bytes signed by a transaction that has data or no fee. *)
Definition legacy_message (t : SignedTx) : bytes :=
  bytes_of_string (from t) ++ bytes_of_string (to t) ++ to_le_bytes 8 (amount t) ++ to_le_bytes 8 (nonce t) ++
  match fee t with Some f => to_le_bytes 16 f | None => [] end ++
  match data t with Some d => d | None => [] end.

Definition verify_transaction_signature_ext (t : SignedTx) : bool :=
  if negb (length (pubkey t) =? 32)%nat then false
  else if negb (length (sig t) =? 64)%nat then false
  else
    match hex_decode (from t) with
    | None => false
    | Some from_bytes =>
        if negb (bool_decide (from_bytes = pubkey t)) then false
        else
          match data t, fee t with
          | None, Some f =>
              let signable := build_tx_signable_v1 (bytes_of_string (from t)) (bytes_of_string (to t))
                                (amount t) (nonce t) f in
              verify_tx_signature_v1 signable (sig t) (pubkey t)
          | _, _ => ed25519_verify (pubkey t) (sha256 (legacy_message t)) (sig t)
          end
    end.

Definition hash_signed_tx_bytes (tx_bytes : bytes) : bytes := sha256 tx_bytes.

Context `{TxBincode}.

Definition serialize_signed_tx (t : SignedTx) : result TxError bytes :=
  ok_or (bincode_serialize t) Unencodable.

Definition deserialize_signed_tx (b : bytes) : result TxError SignedTx :=
  match bincode_deserialize b with
  | None => Err Undecodable
  | Some t =>
      match validate_tx_field_sizes t with
      | Err e => Err e
      | Ok _ =>
          let t := set_pre_verified false t in
          Ok (if verify_transaction_signature_ext t then set_pre_verified true t else t)
      end
  end.
End Verify.

(** *** [normalize_address_bytes] *)

(** The UTF-8 encodings of the characters [str::trim] removes
    ([White_Space]). *)
Definition white_space : list bytes :=
  [[x09]; [x0a]; [x0b]; [x0c]; [x0d]; [x20]; [xc2; x85]; [xc2; xa0]; [xe1; x9a; x80];
   [xe2; x80; x80]; [xe2; x80; x81]; [xe2; x80; x82]; [xe2; x80; x83]; [xe2; x80; x84]; [xe2; x80; x85];
   [xe2; x80; x86]; [xe2; x80; x87]; [xe2; x80; x88]; [xe2; x80; x89]; [xe2; x80; x8a]; [xe2; x80; xa8];
   [xe2; x80; xa9]; [xe2; x80; xaf]; [xe2; x81; x9f]; [xe3; x80; x80]].

Fixpoint strip_prefix (p l : bytes) : option bytes :=
  match p, l with
  | [], _ => Some l
  | x :: p', y :: l' => if Byte.eqb x y then strip_prefix p' l' else None
  | _ :: _, [] => None
  end.
Definition strip_suffix (p l : bytes) : option bytes := rev (A:=byte) <$> strip_prefix (rev p) (rev l).

Fixpoint trim_by (strip : bytes -> bytes -> option bytes) (fuel : nat) (l : bytes) : bytes :=
  match fuel with
  | O => l
  | S fuel =>
      match head (omap (fun w => strip w l) white_space) with
      | Some l' => trim_by strip fuel l'
      | None => l
      end
  end.
(** [str::trim]: every round removes at least one byte. *)
Definition trim (l : bytes) : bytes :=
  let l := trim_by strip_prefix (length l) l in trim_by strip_suffix (length l) l.

Definition normalize_address_bytes `{Hex} (address : string) : bytes :=
  let trimmed := trim (bytes_of_string address) in
  let no_prefix :=
    match strip_prefix [x30; x78] trimmed with
    | Some l => l
    | None => match strip_prefix [x30; x58] trimmed with Some l => l | None => trimmed end
    end in
  default trimmed (hex_decode (String.string_of_list_byte no_prefix)).

(** ** Facts *)

Section Facts.
Context `{Hex, Sha256, Ed25519}.

Lemma length_bytes_of_string s : length (bytes_of_string s) = String.length s.
Proof.
  unfold bytes_of_string, String.list_byte_of_string.
  induction s as [|a s IH]; [done|]. simpl. by rewrite IH.
Qed.

Lemma le_bytes_inj n a b : 0 <= a < 256 ^ Z.of_nat n -> 0 <= b < 256 ^ Z.of_nat n ->
  to_le_bytes n a = to_le_bytes n b -> a = b.
Proof.
  intros Ha Hb E. apply (f_equal from_le_bytes) in E. rewrite !from_to_le_bytes in E.
  by rewrite !Z.mod_small in E.
Qed.

Lemma app_inj_len {A} (a b c d : list A) : length a = length c -> a ++ b = c ++ d -> a = c /\ b = d.
Proof. intros Hl E. by apply app_inj_1. Qed.

(** The fields of a transaction fit their types. *)
Definition tx_ok (t : SignedTx) : Prop :=
  in_range U64_MAX (amount t) /\ in_range U64_MAX (nonce t) /\
  (forall f, fee t = Some f -> in_range U128_MAX f).

(** C40: The signed bytes determine the transfer.  Between senders written as 32
    bytes of hexadecimal, two plain transfers with a fee that agree in their
    signed bytes agree in sender, recipient, amount, nonce and fee: a
    signature is good for one transfer only, as long as the hash is. *)
Theorem signable_v1_inj (t t' : SignedTx) (f f' : Z) :
  tx_ok t -> tx_ok t' -> fee t = Some f -> fee t' = Some f' ->
  String.length (from t) = 64%nat -> String.length (from t') = 64%nat ->
  build_tx_signable_v1 (bytes_of_string (from t)) (bytes_of_string (to t)) (amount t) (nonce t) f =
  build_tx_signable_v1 (bytes_of_string (from t')) (bytes_of_string (to t')) (amount t') (nonce t') f' ->
  from t = from t' /\ to t = to t' /\ amount t = amount t' /\ nonce t = nonce t' /\ fee t = fee t'.
Proof.
  intros (Ha & Hn & Hf) (Ha' & Hn' & Hf') Ef Ef' Hl Hl' E. unfold build_tx_signable_v1 in E.
  specialize (Hf f Ef). specialize (Hf' f' Ef').
  apply app_inj_len in E as [E1 E]; [|by rewrite !length_bytes_of_string, Hl, Hl'].
  assert (length (bytes_of_string (to t)) = length (bytes_of_string (to t'))) as Hlt.
  { apply (f_equal length) in E. rewrite !length_app, !length_to_le_bytes in E. lia. }
  apply app_inj_len in E as [E2 E]; [|done].
  apply app_inj_len in E as [E3 E]; [|by rewrite !length_to_le_bytes].
  apply app_inj_len in E as [E4 E5]; [|by rewrite !length_to_le_bytes].
  apply bytes_of_string_inj in E1, E2. apply le_bytes_inj in E3, E4, E5; [|mlia..].
  rewrite Ef, Ef'. by subst.
Qed.

(** A signature survives the loss of the fee.  Move the sixteen bytes of the
    fee of a signed transfer into its data field: the signed bytes, and so
    the verdict on the signature, are unchanged, while the fee is none. *)
Theorem fee_can_be_stripped (t : SignedTx) (f : Z) :
  fee t = Some f -> data t = None ->
  let t' := mkTx (from t) (to t) (amount t) (nonce t) None (Some (to_le_bytes 16 f)) (pubkey t) (sig t)
              (pre_verified t) in
  verify_transaction_signature_ext t' = verify_transaction_signature_ext t /\
  validate_tx_field_sizes t' = validate_tx_field_sizes t.
Proof.
  intros Ef Ed t'. unfold verify_transaction_signature_ext, validate_tx_field_sizes. simpl.
  rewrite Ef, Ed. split; [|done].
  unfold verify_tx_signature_v1, build_tx_signable_v1, legacy_message. simpl. done.
Qed.

Context `{TxBincode}.

(** What arrives is trusted exactly as far as its signature: the sender's
    flag is ignored, and a decoded transaction counts as verified exactly
    when its public key is the decoded sender and signed it. *)
Theorem deserialize_verifies (b : bytes) (t : SignedTx) :
  deserialize_signed_tx b = Ok t ->
  validate_tx_field_sizes t = Ok tt /\
  pre_verified t = verify_transaction_signature_ext t /\
  (pre_verified t = true -> hex_decode (from t) = Some (pubkey t) /\ length (pubkey t) = 32%nat).
Proof.
  unfold deserialize_signed_tx. destruct (bincode_deserialize b) as [t0|]; [|done].
  destruct (validate_tx_field_sizes t0) as [[]|] eqn:Ev; [|done]. intros E.
  assert (forall b, verify_transaction_signature_ext (set_pre_verified b t0) = verify_transaction_signature_ext t0)
    as Hb by done.
  assert (pre_verified t = verify_transaction_signature_ext t /\ validate_tx_field_sizes t = Ok tt /\
    verify_transaction_signature_ext t = verify_transaction_signature_ext t0 /\ from t = from t0 /\
    pubkey t = pubkey t0) as (Hp & Hv & Ht & -> & ->).
  { rewrite Hb in E. destruct (verify_transaction_signature_ext t0) eqn:E0; injection E as <-; simpl; done. }
  split; [done|]. split; [done|]. rewrite Hp, Ht. unfold verify_transaction_signature_ext.
  destruct (Nat.eqb_spec (length (pubkey t0)) 32); simpl; [|done].
  destruct (length (sig t0) =? 64)%nat; simpl; [|done].
  destruct (hex_decode (from t0)) as [fb|]; [|done]. case_bool_decide; simpl; [|done]. by subst.
Qed.

(** A serialised transaction reads back as itself, but for the flag. *)
Theorem tx_roundtrip `{!TxBincodeLaws} (t : SignedTx) (b : bytes) :
  validate_tx_field_sizes t = Ok tt -> serialize_signed_tx t = Ok b ->
  deserialize_signed_tx b = Ok (set_pre_verified (verify_transaction_signature_ext t) t).
Proof.
  intros Hv. unfold serialize_signed_tx, deserialize_signed_tx. rewrite ok_or_Ok. intros Hb.
  rewrite (bincode_roundtrip _ _ Hb), Hv.
  assert (verify_transaction_signature_ext (set_pre_verified false t) = verify_transaction_signature_ext t) as -> by done.
  by destruct (verify_transaction_signature_ext t).
Qed.
End Facts.

(** A stand-in for [bincode] that knows finitely many transactions, for
    witnesses only: a transaction is written as its number. *)
Definition toy_bincode (l : list SignedTx) : TxBincode := {|
  bincode_serialize t := (fun p => to_le_bytes 8 (Z.of_nat p.1)) <$> list_find (fun x => t = x) l;
  bincode_deserialize b := l !! Z.to_nat (from_le_bytes b);
|}.

Lemma toy_bincode_laws l : Z.of_nat (length l) <= U64_MAX -> @TxBincodeLaws (toy_bincode l).
Proof.
  intros Hl. constructor; cbn -[to_le_bytes].
  - intros t b E. apply fmap_Some in E as ([i x] & E & ->). cbn [fst]. apply list_find_Some in E as (Hi & <- & _).
    pose proof (lookup_lt_Some _ _ _ Hi). rewrite from_to_le_bytes, Z.mod_small by mlia. by rewrite Nat2Z.id.
  - intros t E. by apply fmap_Some in E as ([i x] & _ & ?).
Qed.

(** ** Witnesses *)

Section Witnesses.
Definition toy_sha256_32 : Sha256 := {| sha256 := fun b => take 32 (b ++ zeros 32) |}.
Definition toy_key : bytes := replicate 32 xaa.

(** A transfer signed with the stand-in for signatures. *)
Definition toy_transfer (rc : bytes) (n fee : Z) : SignedTx :=
  let t := mkTx (hex_encode toy_key) (hex_encode rc) 7 n (Some fee) None toy_key [] true in
  mkTx (from t) (to t) (amount t) (nonce t) (Tx.fee t) (data t) (pubkey t)
    (toy_key ++ @sha256 toy_sha256_32
       (build_tx_signable_v1 (bytes_of_string (from t)) (bytes_of_string (to t)) 7 n fee))
    true.
Definition toy_tx : SignedTx := toy_transfer (replicate 32 xbb) 1 3.
Definition toy_txs_bincode : TxBincode := toy_bincode [toy_tx].
#[local] Existing Instances toy_sha256_32 toy_ed25519 toy_txs_bincode.

Lemma toy_tx_ok : tx_ok toy_tx.
Proof. split; [by split|]. split; [by split|]. by intros ? [= <-]. Qed.

Lemma signable_v1_inj_witness : fee toy_tx = Some 3 /\ from toy_tx = from toy_tx.
Proof.
  split; [done|].
  destruct (signable_v1_inj toy_tx toy_tx 3 3 toy_tx_ok toy_tx_ok eq_refl eq_refl eq_refl eq_refl eq_refl)
    as (E1 & _). exact E1.
Defined.

Lemma fee_can_be_stripped_witness :
  verify_transaction_signature_ext toy_tx = true /\
  verify_transaction_signature_ext (mkTx (from toy_tx) (to toy_tx) 7 1 None (Some (to_le_bytes 16 3))
    (pubkey toy_tx) (sig toy_tx) true) = true.
Proof.
  assert (verify_transaction_signature_ext toy_tx = true) as Hv by (by vm_compute). split; [done|].
  rewrite <- Hv. exact (proj1 (fee_can_be_stripped toy_tx 3 eq_refl eq_refl)).
Defined.

Lemma deserialize_verifies_witness : exists t,
  deserialize_signed_tx (to_le_bytes 8 0) = Ok t /\ pre_verified t = verify_transaction_signature_ext t.
Proof.
  assert (is_ok (deserialize_signed_tx (to_le_bytes 8 0)) = true) as Hr by (by vm_compute).
  destruct (run_ok _ Hr) as [t E]. exists t. split; [exact E|]. exact (proj1 (proj2 (deserialize_verifies _ t E))).
Defined.

Lemma tx_roundtrip_witness : serialize_signed_tx toy_tx = Ok (to_le_bytes 8 0) /\
  deserialize_signed_tx (to_le_bytes 8 0) = Ok (set_pre_verified (verify_transaction_signature_ext toy_tx) toy_tx).
Proof.
  assert (serialize_signed_tx toy_tx = Ok (to_le_bytes 8 0)) as E by (by vm_compute). split; [exact E|].
  pose proof (toy_bincode_laws [toy_tx] ltac:(by vm_compute)).
  apply tx_roundtrip; [by vm_compute|exact E].
Defined.
End Witnesses.

End Tx.
