(* ===== verification/BlockStore.v ===== *)
(** * The light node's block and account store

    [savitri-lightnode/src/storage.rs]: the trait [BlockAndAccountStorage]
    with its default methods, the atomic commit of a block, and the in-memory
    [Storage]; [Block] of [savitri-lightnode/src/tx.rs].

    The trait is the class [BlockAndAccountStorage] over a state type: reads
    are functions of the state, writes run in the error monad.
    [StorageLaws] is what the execution of blocks relies on; the in-memory
    store satisfies it.  Poisoned locks are not modelled.  Where the store
    evicts from a [HashMap] the victims depend on the iteration order, a
    parameter. *)

From S2P Require Import Prelude OrdMap Account.

(** The iteration order of hash maps: some rearrangement of the keys. *)
Class HashOrder := { hash_order : forall {A : Type}, list A -> list A }.

Module BS.

(** [tx::Block]. *)
Record Block := mkBlock {
  b_hash : bytes;
  b_height : Z;
  b_timestamp : Z;
  b_parent_hash : bytes;
  b_state_root : bytes;
  b_tx_root : bytes;
  b_proposer : bytes;
  b_signature : bytes;
  b_parent_exec_hash : bytes;
  b_parent_ref_hash : bytes;
  b_version : Z;
}.

Definition Block_default : Block :=
  mkBlock (zeros 64) 0 0 (zeros 64) (zeros 32) (zeros 32) (zeros 32) (zeros 64) (zeros 64) (zeros 64) 0.

(** [storage::Account]. *)
Record StAccount := mkSa {
  sa_balance : Z;
  sa_nonce : Z;
  sa_data : bytes;
}.

Definition StAccount_default : StAccount := mkSa 0 0 [].

(** The balance and the nonce, as the executors use them. *)
Definition core_account (a : StAccount) : Acct.Account := Acct.mkAccount (sa_balance a) (sa_nonce a).

Inductive StorageError := StorageFailure | BalanceOverflow | InsufficientBalance.

Definition sa_credit (amount : Z) : M StAccount StorageError unit :=
  a ← get;
  b ← lift (ok_or (checked_add U128_MAX (sa_balance a) amount) BalanceOverflow);
  put (mkSa b (sa_nonce a) (sa_data a)).

Definition sa_debit (amount : Z) : M StAccount StorageError unit :=
  a ← get;
  b ← lift (ok_or (checked_sub (sa_balance a) amount) InsufficientBalance);
  put (mkSa b (sa_nonce a) (sa_data a)).

Record BlockCommitData := mkCommit {
  cd_block : Block;
  cd_accounts : list (bytes * StAccount);
  cd_receipts : list (bytes * bytes);
  cd_transactions : list (bytes * bytes);
  cd_tx_inclusions : list (bytes * Z);
  cd_group_id : option string;
}.

Class BlockAndAccountStorage (S : Type) := {
  get_block : Z -> S -> result StorageError (option Block);
  set_block : Z -> Block -> M S StorageError unit;
  set_chain_head : Block -> M S StorageError unit;
  get_chain_head : S -> result StorageError (option Block);
  get_block_in_group : Z -> string -> S -> result StorageError (option Block);
  set_block_in_group : Z -> string -> Block -> M S StorageError unit;
  set_chain_head_for_group : string -> Block -> M S StorageError unit;
  get_chain_head_for_group : string -> S -> result StorageError (option Block);
  get_account : bytes -> S -> result StorageError (option StAccount);
  put_account : bytes -> StAccount -> M S StorageError unit;
  store_receipt : bytes -> bytes -> M S StorageError unit;
  set_transaction_by_hash : bytes -> bytes -> M S StorageError unit;
  set_tx_inclusion : bytes -> Z -> M S StorageError unit;
  get_tx_block_height : bytes -> S -> result StorageError (option Z);
  commit_block_batch : BlockCommitData -> M S StorageError unit;
}.

(** [for x in l { f(x)?; }]. *)
Fixpoint for_each {S E A : Type} (f : A -> M S E unit) (l : list A) : M S E unit :=
  match l with
  | [] => mret tt
  | x :: l => f x;; for_each f l
  end.

(** [let _ = m]. *)
Definition ignore {S E A : Type} (m : M S E A) : M S E unit := fun s => (Ok tt, snd (m s)).

(** [expr.ok().flatten()]. *)
Definition ok_flatten {E A : Type} (r : result E (option A)) : option A :=
  match r with Ok o => o | Err _ => None end.

(** [data.group_id.as_deref().unwrap_or("")]. *)
Definition group_of (g : option string) : string := default ""%string g.

Section Defaults.
Context {S : Type}.
Variables (set_block : Z -> Block -> M S StorageError unit)
  (set_block_in_group : Z -> string -> Block -> M S StorageError unit)
  (set_chain_head : Block -> M S StorageError unit)
  (set_chain_head_for_group : string -> Block -> M S StorageError unit)
  (put_account : bytes -> StAccount -> M S StorageError unit)
  (store_receipt set_transaction_by_hash : bytes -> bytes -> M S StorageError unit)
  (set_tx_inclusion : bytes -> Z -> M S StorageError unit).

(** The default [commit_block_batch]: the writes in sequence. *)
Definition default_commit_block_batch (data : BlockCommitData) : M S StorageError unit :=
  let group_id := group_of (cd_group_id data) in
  for_each (fun p => put_account p.1 p.2) (cd_accounts data);;
  (if bool_decide (group_id = ""%string)
   then set_block (b_height (cd_block data)) (cd_block data)
   else set_block_in_group (b_height (cd_block data)) group_id (cd_block data));;
  for_each (fun p => store_receipt p.1 p.2) (cd_receipts data);;
  for_each (fun p => set_transaction_by_hash p.1 p.2) (cd_transactions data);;
  for_each (fun p => set_tx_inclusion p.1 p.2) (cd_tx_inclusions data);;
  (if bool_decide (group_id = ""%string)
   then set_chain_head (cd_block data)
   else set_chain_head_for_group group_id (cd_block data)).
End Defaults.

(** ** The in-memory store *)

Record Store := mkStore {
  accounts : gmap bytes StAccount;
  blocks : gmap Z Block;
  transactions : gmap bytes bytes;
  tx_inclusions : gmap bytes Z;
}.

Definition Store_new : Store := mkStore ∅ ∅ ∅ ∅.

Definition set_accounts (x : gmap bytes StAccount) (s : Store) : Store :=
  mkStore x (blocks s) (transactions s) (tx_inclusions s).
Definition set_blocks (x : gmap Z Block) (s : Store) : Store :=
  mkStore (accounts s) x (transactions s) (tx_inclusions s).
Definition set_transactions (x : gmap bytes bytes) (s : Store) : Store :=
  mkStore (accounts s) (blocks s) x (tx_inclusions s).
Definition set_tx_inclusions (x : gmap bytes Z) (s : Store) : Store :=
  mkStore (accounts s) (blocks s) (transactions s) x.

Definition MAX_IN_MEMORY_BLOCKS : nat := 1024.
Definition MAX_IN_MEMORY_TRANSACTIONS : Z := 50000.
Definition MAX_IN_MEMORY_TX_INCLUSIONS : Z := 50000.

Definition ST (A : Type) : Type := M Store StorageError A.

(** [Storage::set_block]: the oldest blocks go when there are too many. *)
Definition mem_set_block (height : Z) (block : Block) : ST unit :=
  modify (fun s =>
    let bs := <[height := block]> (blocks s) in
    let to_remove := (size bs - MAX_IN_MEMORY_BLOCKS)%nat in
    set_blocks (fold_left (fun m h => delete h m) (take to_remove (btree_iter bs).*1) bs) s).

Definition mem_get_chain_head (s : Store) : option Block := snd <$> last (btree_iter (blocks s)).

(** [keys().take(n)] of a map over its capacity, removed. *)
Definition evict_keys `{HashOrder} {V} (cap : Z) (m : gmap bytes V) : gmap bytes V :=
  if Z.of_nat (size m) >? cap then
    let to_remove := Z.to_nat (Z.of_nat (size m) - cap) in
    fold_left (fun m k => delete k m) (take to_remove (hash_order (map_to_list m).*1)) m
  else m.

Definition mem_set_transaction `{HashOrder} (hash tx : bytes) : ST unit :=
  modify (fun s => set_transactions
    (evict_keys MAX_IN_MEMORY_TRANSACTIONS (<[hash := tx]> (transactions s))) s).

Definition mem_set_tx_inclusion `{HashOrder} (tx_hash : bytes) (block_height : Z) : ST unit :=
  modify (fun s => set_tx_inclusions
    (evict_keys MAX_IN_MEMORY_TX_INCLUSIONS (<[tx_hash := block_height]> (tx_inclusions s))) s).

Definition mem_put_account (address : bytes) (a : StAccount) : ST unit :=
  modify (fun s => set_accounts (<[address := a]> (accounts s)) s).

(** [ensure_funded]: the credit is checked after the entry was created. *)
Definition ensure_funded (address : bytes) (amount : Z) : ST unit :=
  modify (fun s => set_accounts
    (<[address := default StAccount_default (accounts s !! address)]> (accounts s)) s);;
  zoom (fun s => default StAccount_default (accounts s !! address))
    (fun a s => set_accounts (<[address := a]> (accounts s)) s) id (sa_credit amount).

(** Blocks below a height, removed; their number. *)
Definition prune_blocks_below (below_height : Z) (s : Store) : Z * Store :=
  let gone := filter (fun p : Z * Block => p.1 < below_height) (blocks s) in
  (Z.of_nat (size gone), set_blocks (filter (fun p : Z * Block => below_height <= p.1) (blocks s)) s).

Definition addr_le {V} (p q : bytes * V) : Prop := bytes_le p.1 q.1.
#[global] Instance addr_le_dec {V} (p q : bytes * V) : Decision (addr_le p q).
Proof. unfold addr_le. apply _. Defined.
#[global] Typeclasses Opaque addr_le.

(** A [BTreeMap] keyed by byte strings iterates in ascending order. *)
Definition bytes_iter {V} (m : gmap bytes V) : list (bytes * V) := merge_sort addr_le (map_to_list m).

Definition export_bootstrap_accounts (max_accounts : nat) (s : Store) : list (bytes * StAccount) :=
  take max_accounts (bytes_iter (accounts s)).

#[global] Instance mem_storage `{HashOrder} : BlockAndAccountStorage Store := {|
  get_block h s := Ok (blocks s !! h);
  set_block := mem_set_block;
  set_chain_head b := mem_set_block (b_height b) b;
  get_chain_head s := Ok (mem_get_chain_head s);
  get_block_in_group h _ s := Ok (blocks s !! h);
  set_block_in_group h _ b := mem_set_block h b;
  set_chain_head_for_group _ b := mem_set_block (b_height b) b;
  get_chain_head_for_group _ s := Ok (mem_get_chain_head s);
  get_account a s := Ok (accounts s !! a);
  put_account := mem_put_account;
  store_receipt := mem_set_transaction;
  set_transaction_by_hash := mem_set_transaction;
  set_tx_inclusion := mem_set_tx_inclusion;
  get_tx_block_height h s := Ok (tx_inclusions s !! h);
  commit_block_batch := default_commit_block_batch mem_set_block (fun h _ b => mem_set_block h b)
    (fun b => mem_set_block (b_height b) b) (fun _ b => mem_set_block (b_height b) b)
    mem_put_account mem_set_transaction mem_set_transaction mem_set_tx_inclusion;
|}.

(** ** What block execution relies on *)

(** The chain head of a lane, as the committer looks it up. *)
Definition head_lookup {S} `{BlockAndAccountStorage S} (g : option string) (s : S) :
    result StorageError (option Block) :=
  match g with
  | Some gid => if bool_decide (gid = ""%string) then get_chain_head s else get_chain_head_for_group gid s
  | None => get_chain_head s
  end.

(** [block.height > current_head.height], or there is no head. *)
Definition advances (o : option Block) (b : Block) : Prop :=
  match o with Some h => b_height h < b_height b | None => True end.

Definition write_accounts (m : gmap bytes StAccount) (l : list (bytes * StAccount)) : gmap bytes StAccount :=
  fold_left (fun m p => <[p.1 := p.2]> m) l m.

(** The heads of all lanes. *)
Definition same_heads {S} `{BlockAndAccountStorage S} (s s' : S) : Prop :=
  forall g, head_lookup g s' = head_lookup g s.

(** In a store that is [store_ok], the accounts are a map that account writes
    update and nothing else touches; a failed write leaves it as it was; a
    commit is all or nothing and makes its block the head of its lane when it
    is the highest. *)
Class StorageLaws (S : Type) `{BlockAndAccountStorage S} := {
  store_ok : S -> Prop;
  accts : S -> gmap bytes StAccount;
  get_account_law a s : store_ok s -> get_account a s = Ok (accts s !! a);
  put_account_law a acc s : store_ok s ->
    wp (put_account a acc)
      (fun _ s' => store_ok s' /\ accts s' = <[a := acc]> (accts s) /\ same_heads s s')
      (fun _ s' => store_ok s' /\ accts s' = accts s /\ same_heads s s') s;
  tx_law h t s : store_ok s ->
    let P s' := store_ok s' /\ accts s' = accts s /\ same_heads s s' in
    wp (set_transaction_by_hash h t) (fun _ => P) (fun _ => P) s;
  inclusion_law h n s : store_ok s ->
    let P s' := store_ok s' /\ accts s' = accts s /\ same_heads s s' in
    wp (set_tx_inclusion h n) (fun _ => P) (fun _ => P) s;
  commit_law d o s : store_ok s -> head_lookup (cd_group_id d) s = Ok o -> advances o (cd_block d) ->
    wp (commit_block_batch d)
      (fun _ s' => store_ok s' /\ accts s' = write_accounts (accts s) (cd_accounts d) /\
         head_lookup (cd_group_id d) s' = Ok (Some (cd_block d)))
      (fun _ s' => store_ok s' /\ accts s' = accts s) s;
}.

(** ** The in-memory store keeps these promises *)

(** Every block is filed under its own height. *)
Definition mem_ok (s : Store) : Prop := map_Forall (fun h b => b_height b = h) (blocks s).

Lemma mem_head_none s : mem_get_chain_head s = None -> blocks s = ∅.
Proof.
  unfold mem_get_chain_head. intros E. apply fmap_None, last_None in E.
  apply map_size_empty_inv. by rewrite <- length_btree_iter, E.
Qed.

(** The blocks below the new head. *)
Lemma head_bounds s b : mem_ok s -> advances (mem_get_chain_head s) b ->
  forall k w, blocks s !! k = Some w -> k < b_height b.
Proof.
  intros Hk Ha k w Hw. destruct (mem_get_chain_head s) as [h|] eqn:E.
  - unfold mem_get_chain_head in E. apply fmap_Some in E as ([k' h'] & E & ->). simpl in *.
    pose proof (last_sorted _ _ k w (btree_iter_sorted _) E) as Hle.
    rewrite elem_of_btree_iter in Hle. specialize (Hle Hw). simpl in Hle.
    apply last_Some_elem_of, elem_of_btree_iter in E. rewrite (Hk _ _ E) in Ha. lia.
  - apply mem_head_none in E. by rewrite E, lookup_empty in Hw.
Qed.

(** The blocks after [set_block]. *)
Definition kept_blocks (height : Z) (block : Block) (bs : gmap Z Block) : gmap Z Block :=
  let bs := <[height := block]> bs in
  fold_left (fun m h => delete h m) (take (size bs - MAX_IN_MEMORY_BLOCKS)%nat (btree_iter bs).*1) bs.

Lemma kept_ok s b : mem_ok s -> map_Forall (fun h b => b_height b = h) (kept_blocks (b_height b) b (blocks s)).
Proof.
  intros Hs h w. unfold kept_blocks. rewrite fold_delete_lookup. destruct (decide _); [done|].
  intros [[<- <-]|[_ Hw]]%lookup_insert_Some; [done|by apply Hs].
Qed.

Lemma kept_last b bs : (forall k w, bs !! k = Some w -> k < b_height b) ->
  last (btree_iter (kept_blocks (b_height b) b bs)) = Some (b_height b, b) /\
  (size (kept_blocks (b_height b) b bs) <= MAX_IN_MEMORY_BLOCKS)%nat.
Proof.
  intros Hb. unfold kept_blocks. set (m := <[b_height b := b]> bs). set (n := (size m - MAX_IN_MEMORY_BLOCKS)%nat).
  assert (btree_iter m = btree_iter bs ++ [(b_height b, b)]) as E by (by apply iter_insert_last).
  pose proof (length_btree_iter m) as Hl. rewrite E, length_app in Hl. simpl in Hl.
  rewrite <- (length_btree_iter (fold_left _ _ m)), iter_fold_delete. split.
  - rewrite E, drop_app_le, last_snoc; [done|]. unfold n, MAX_IN_MEMORY_BLOCKS. lia.
  - rewrite length_drop, length_btree_iter. unfold n. lia.
Qed.

(** Writing the head a second time changes nothing. *)
Lemma kept_again h b bs : bs !! h = Some b -> (size bs <= MAX_IN_MEMORY_BLOCKS)%nat -> kept_blocks h b bs = bs.
Proof.
  intros Hb Hs. unfold kept_blocks. rewrite insert_id by done.
  by replace (size bs - MAX_IN_MEMORY_BLOCKS)%nat with 0%nat by lia.
Qed.

Section Mem.
Context `{HashOrder}.

Lemma for_each_modify {S E A} (f : A -> S -> S) (m : A -> M S E unit) l s :
  (forall x s, m x s = (Ok tt, f x s)) -> for_each m l s = (Ok tt, fold_left (fun s x => f x s) l s).
Proof.
  intros Hm. revert s; induction l as [|x l IH]; intros s; [done|].
  cbn [for_each]. unfold mbind, M_bind. by rewrite Hm, IH.
Qed.

Lemma fold_set_accounts l s :
  fold_left (fun s (p : bytes * StAccount) => set_accounts (<[p.1 := p.2]> (accounts s)) s) l s =
  set_accounts (write_accounts (accounts s) l) s.
Proof.
  revert s; induction l as [|p l IH]; intros s; [by destruct s|]. simpl. by rewrite IH.
Qed.

(** An invariant of the body is one of the loop. *)
Lemma wp_for_each {S E A} (I : S -> Prop) (m : A -> M S E unit) l (R : E -> S -> Prop) s :
  (forall x s, I s -> wp (m x) (fun _ => I) R s) -> I s -> wp (for_each m l) (fun _ => I) R s.
Proof.
  intros Hm. revert s; induction l as [|x l IH]; intros s Hs; [done|].
  cbn [for_each]. apply wp_bind. eapply wp_mono_ok; [by apply Hm|]. intros [] s' Hs'. by apply IH.
Qed.

Lemma mem_set_block_eq h b s : mem_set_block h b s = (Ok tt, set_blocks (kept_blocks h b (blocks s)) s).
Proof. done. Qed.

Lemma wp_mem_commit d s :
  wp (commit_block_batch d)
    (fun _ s' => accounts s' = write_accounts (accounts s) (cd_accounts d) /\
       blocks s' = kept_blocks (b_height (cd_block d)) (cd_block d)
                     (kept_blocks (b_height (cd_block d)) (cd_block d) (blocks s)))
    (fun _ _ => False) s.
Proof.
  cbn [commit_block_batch mem_storage]. unfold default_commit_block_batch. rewrite !Tauto.if_same.
  apply wp_bind. unfold wp at 1.
  rewrite (for_each_modify (fun p s => set_accounts (<[p.1 := p.2]> (accounts s)) s)) by done.
  rewrite fold_set_accounts. apply wp_bind. unfold wp at 1. rewrite mem_set_block_eq. cbn [set_accounts blocks].
  set (I := fun s' => accounts s' = write_accounts (accounts s) (cd_accounts d) /\
    blocks s' = kept_blocks (b_height (cd_block d)) (cd_block d) (blocks s)).
  match goal with |- wp _ _ _ ?s0 => assert (I s0) as H1 by done; revert H1; generalize s0 end. intros s1 H1.
  do 3 (apply wp_bind; eapply wp_mono_ok; [apply (wp_for_each I); [by intros [h t]|exact H1]|];
    clear H1; intros [] s2 H1; simpl in H1; clear s1; rename s2 into s1).
  unfold wp. rewrite mem_set_block_eq. destruct H1 as [<- E]. by rewrite <- E.
Qed.

#[global] Program Instance mem_laws : StorageLaws Store := {| store_ok := mem_ok; accts := accounts |}.
Next Obligation. done. Qed.
Next Obligation. intros a acc s Hs. split; [done|]. split; [done|]. by intros [g|]. Qed.
Next Obligation. intros h t s Hs P. split; [done|]. split; [done|]. by intros [g|]. Qed.
Next Obligation. intros h n s Hs P. split; [done|]. split; [done|]. by intros [g|]. Qed.
Next Obligation.
  intros d o s Hs Ho Ha. eapply wp_mono; [apply wp_mem_commit| |by intros].
  intros [] s' [Ea Eb]. simpl. assert (mem_get_chain_head s = o) as Eo.
  { destruct (cd_group_id d) as [g|]; simpl in Ho; [case_bool_decide|]; by injection Ho. }
  rewrite <- Eo in Ha. pose proof (head_bounds s (cd_block d) Hs Ha) as Hb.
  destruct (kept_last (cd_block d) (blocks s) Hb) as [Hl Hn].
  rewrite kept_again in Eb; [|by apply elem_of_btree_iter, last_Some_elem_of|done].
  split; [unfold mem_ok; rewrite Eb; by apply kept_ok|]. split; [done|].
  assert (mem_get_chain_head s' = Some (cd_block d)) as Eh by (unfold mem_get_chain_head; by rewrite Eb, Hl).
  destruct (cd_group_id d) as [g|]; simpl; [case_bool_decide|]; by rewrite Eh.
Qed.
End Mem.

End BS.
