(* ===== verification/BlockExec.v ===== *)
(** * Executing and committing blocks

    [savitri-lightnode/src/p2p/block.rs]: the proposer's execution of a block
    ([execute_block_without_commit]), the execution of a certified block
    ([apply_certified_block_direct]), the roots and the hash of a block, the
    commit with the distribution of fees, and the preparation of a block that
    arrives from a peer.  [compute_block_hash] is that of
    [savitri-consensus/src/primitives/hashing.rs].

    An executor reads accounts through an overlay, a finite map that shadows
    the store.  Log output and metrics are left out; [now] is the clock in
    seconds.  Sorting by sender and nonce is stable, hence the index as the
    last key. *)

From stdpp Require Import sorting pretty.
From Stdlib Require Import Strings.Byte.
From S2P Require Import Prelude OrdMap Codec Account SignedTx BlockStore.

Module Exec.
Import Tx BS.

Abbreviation Overlay := (gmap bytes Acct.Account).
Abbreviation Receipts := (list (bytes * bytes)).

Inductive ExecError :=
| GenesisParent | MissingParentHash | ZeroHash | TooFarInFuture | TooFarInPast | ZeroStateRoot | ZeroTxRoot
| EmptyBytes (idx : Z)
| BadTransaction (e : TxError)
| NotPreVerified (idx : Z)
| InvalidSenderHex
| InvalidRecipientHex
| AmountFeeOverflow
| ExecInsufficientBalance (has required : Z)
| InvalidNonce (expected got : Z)
| BalanceUnderflow
| ExecBalanceOverflow
| ExecStorage (e : StorageError).

(** [validate_block_header]. *)
Definition validate_block_header (now : Z) (b : Block) : result ExecError unit :=
  if (b_height b =? 0) && negb (bool_decide (b_parent_hash b = zeros 64)) then Err GenesisParent
  else if negb (b_height b =? 0) && bool_decide (b_parent_hash b = zeros 64) then Err MissingParentHash
  else if bool_decide (b_hash b = zeros 64) then Err ZeroHash
  else if b_timestamp b >? wrap U64_MAX (now + 3600) then Err TooFarInFuture
  else if b_timestamp b <? wrap U64_MAX (now - 86400 * 30) then Err TooFarInPast
  else if bool_decide (b_state_root b = zeros 32) then Err ZeroStateRoot
  else if bool_decide (b_tx_root b = zeros 32) then Err ZeroTxRoot
  else Ok tt.

(** *** Receipts *)

Definition receipt_key (idx : Z) : bytes := bytes_of_string ("receipt:" +:+ pretty idx).
Definition receipt_data (idx : Z) (sender recipient : string) (amount fee nonce : Z) : bytes :=
  bytes_of_string ("tx_idx:" +:+ pretty idx +:+ "|sender:" +:+ sender +:+ "|recipient:" +:+ recipient
    +:+ "|amount:" +:+ pretty amount +:+ "|fee:" +:+ pretty fee +:+ "|nonce:" +:+ pretty nonce).

(** [(&tx.from, tx.nonce)], ties in the order of the block. *)
Definition exec_le (p q : nat * SignedTx) : Prop :=
  from p.2 <> from q.2 /\ String.le (from p.2) (from q.2) \/
  from p.2 = from q.2 /\ (nonce p.2 < nonce q.2 \/ nonce p.2 = nonce q.2 /\ (p.1 <= q.1)%nat).
#[global] Instance exec_le_dec p q : Decision (exec_le p q).
Proof. unfold exec_le. apply _. Defined.
#[global] Typeclasses Opaque exec_le.

(** [sorted_indices], with the transactions they point to. *)
Definition sorted_txs (txs : list SignedTx) : list (nat * SignedTx) :=
  merge_sort exec_le (imap pair txs).

Section Execute.
Context {S : Type} `{BlockAndAccountStorage S}.

Definition stored_account (s : S) (address : bytes) : option Acct.Account :=
  core_account <$> ok_flatten (get_account address s).

(** The account in the overlay, else in the store, else the empty one. *)
Definition account_in (s : S) (o : Overlay) (address : bytes) : Acct.Account :=
  match o !! address with
  | Some a => a
  | None => default Acct.Account_default (stored_account s address)
  end.

Definition fee_or_0 (t : SignedTx) : Z := default 0 (fee t).

Record ExecState := mkExec { ex_overlay : Overlay; ex_receipts : Receipts }.
Definition X (A : Type) : Type := M ExecState ExecError A.

(** Sender and recipient after a transfer, the recipient last: if they are
    one account, only the credit remains. *)
Definition put_pair (sender recipient : bytes) (a r : Acct.Account) (o : Overlay) : Overlay :=
  <[recipient := r]> (<[sender := a]> o).

Context `{Hex}.

Section Proposer.
Context `{Sha256, Ed25519, TxBincode}.

Definition apply_signed_tx_overlay (s : S) (tx_bytes : bytes) (idx : Z) : X unit :=
  bail_if (bool_decide (tx_bytes = [])) (EmptyBytes idx);;
  t ← lift (match deserialize_signed_tx tx_bytes with Ok t => Ok t | Err e => Err (BadTransaction e) end);
  bail_if (negb (pre_verified t)) (NotPreVerified idx);;
  sender ← lift (ok_or (hex_decode (from t)) InvalidSenderHex);
  recipient ← lift (ok_or (hex_decode (to t)) InvalidRecipientHex);
  x ← get;
  let sender_account := account_in s (ex_overlay x) sender in
  let recipient_account := account_in s (ex_overlay x) recipient in
  total_required ← lift (ok_or (checked_add U128_MAX (amount t) (fee_or_0 t)) AmountFeeOverflow);
  bail_if (Acct.balance sender_account <? total_required)
    (ExecInsufficientBalance (Acct.balance sender_account) total_required);;
  bail_if (negb (Acct.nonce sender_account =? nonce t)) (InvalidNonce (Acct.nonce sender_account) (nonce t));;
  b ← lift (ok_or (checked_sub (Acct.balance sender_account) total_required) BalanceUnderflow);
  let sender_account := Acct.mkAccount b (wrap U64_MAX (Acct.nonce sender_account + 1)) in
  rb ← lift (ok_or (checked_add U128_MAX (Acct.balance recipient_account) (amount t)) ExecBalanceOverflow);
  let recipient_account := Acct.mkAccount rb (Acct.nonce recipient_account) in
  let receipt := receipt_data idx (hex_encode sender) (hex_encode recipient) (amount t) (fee_or_0 t) (nonce t) in
  put (mkExec (put_pair sender recipient sender_account recipient_account (ex_overlay x))
         (ex_receipts x ++ [(receipt_key idx, receipt)])).

(** The loop over the sorted transactions. *)
Fixpoint apply_all (s : S) (l : list (nat * SignedTx)) : X unit :=
  match l with
  | [] => mret tt
  | (idx, t) :: l =>
      tx_bytes ← lift (match serialize_signed_tx t with Ok b => Ok b | Err e => Err (BadTransaction e) end);
      apply_signed_tx_overlay s tx_bytes (Z.of_nat idx);;
      apply_all s l
  end.
End Proposer.

(** [apply_certified_block_direct]: one transaction.  A nonce below the
    account's was applied before, one above is taken on trust; a transfer the
    balance does not cover is skipped. *)
Definition apply_direct (s : S) (idx : nat) (t : SignedTx) : X unit :=
  sender ← lift (ok_or (hex_decode (from t)) InvalidSenderHex);
  recipient ← lift (ok_or (hex_decode (to t)) InvalidRecipientHex);
  x ← get;
  let sender_account := account_in s (ex_overlay x) sender in
  let recipient_account := account_in s (ex_overlay x) recipient in
  let total_debit := saturating_add U128_MAX (amount t) (fee_or_0 t) in
  if nonce t <? Acct.nonce sender_account then mret tt
  else
    let n := if nonce t >? Acct.nonce sender_account then nonce t else Acct.nonce sender_account in
    if Acct.balance sender_account <? total_debit then mret tt
    else
      let sender_account := Acct.mkAccount (Acct.balance sender_account - total_debit) (wrap U64_MAX (n + 1)) in
      let recipient_account := Acct.mkAccount
        (saturating_add U128_MAX (Acct.balance recipient_account) (amount t)) (Acct.nonce recipient_account) in
      let receipt := receipt_data (Z.of_nat idx) (hex_encode sender) (hex_encode recipient)
                       (amount t) (fee_or_0 t) (nonce t) in
      put (mkExec (put_pair sender recipient sender_account recipient_account (ex_overlay x))
             (ex_receipts x ++ [(receipt_key (Z.of_nat idx), receipt)])).

Definition apply_certified_block_direct (s : S) (signed_txs : list SignedTx) :
    result ExecError (Overlay * Receipts) :=
  match for_each (fun p => apply_direct s p.1 p.2) (sorted_txs signed_txs) (mkExec ∅ []) with
  | (Ok _, x) => Ok (ex_overlay x, ex_receipts x)
  | (Err e, _) => Err e
  end.

(** ** Roots and hashes *)

Context `{Sha256}.

Definition compute_state_root_from_overlay (o : Overlay) : bytes :=
  sha256 (concat ((fun p : bytes * Acct.Account =>
    p.1 ++ to_le_bytes 16 (Acct.balance p.2) ++ to_le_bytes 8 (Acct.nonce p.2)) <$> bytes_iter o)).

Definition compute_tx_root_from_receipts (r : Receipts) : bytes :=
  sha256 (concat ((fun p : bytes * bytes => p.1 ++ p.2) <$> merge_sort addr_le r)).

Definition pad64 (b : bytes) : bytes := b ++ zeros (64 - length b).

(** [primitives::hashing::compute_block_hash]. *)
Definition compute_hash (parent_hash state_root tx_root : bytes) (height : Z) : bytes :=
  pad64 (sha256 (parent_hash ++ pad64 state_root ++ pad64 tx_root ++ to_le_bytes 8 height)).

Definition compute_block_hash (b : Block) : bytes :=
  compute_hash (b_parent_hash b) (b_state_root b) (b_tx_root b) (b_height b).

Definition set_roots (state_root tx_root : bytes) (b : Block) : Block :=
  mkBlock (b_hash b) (b_height b) (b_timestamp b) (b_parent_hash b) state_root tx_root (b_proposer b)
    (b_signature b) (b_parent_exec_hash b) (b_parent_ref_hash b) (b_version b).
Definition set_hash (h : bytes) (b : Block) : Block :=
  mkBlock h (b_height b) (b_timestamp b) (b_parent_hash b) (b_state_root b) (b_tx_root b) (b_proposer b)
    (b_signature b) (b_parent_exec_hash b) (b_parent_ref_hash b) (b_version b).

Definition execute_block_without_commit `{Ed25519, TxBincode} (now : Z) (s : S) (block : Block)
    (signed_txs : list SignedTx) : result ExecError (Block * Overlay * Receipts) :=
  match validate_block_header now block with
  | Err e => Err e
  | Ok _ =>
      match apply_all s (sorted_txs signed_txs) (mkExec ∅ []) with
      | (Err e, _) => Err e
      | (Ok _, x) =>
          let block := set_roots (compute_state_root_from_overlay (ex_overlay x))
                         (compute_tx_root_from_receipts (ex_receipts x)) block in
          Ok (set_hash (compute_block_hash block) block, ex_overlay x, ex_receipts x)
      end
  end.
End Execute.

End Exec.
