(* ===== verification/BlockCommit.v ===== *)
(** * Committing blocks and receiving them

    The rest of the pipeline of [savitri-lightnode/src/p2p/block.rs]: the
    commit of an executed block, the distribution of its fees, the
    finalisation of a certified block, and [prepare_remote_block], which
    turns a message of a peer into a block that waits for its certificate.
    [BlockMessage] and [BlockHeader] are those of [p2p/types.rs].

    The committer runs in the error monad over the store.  The mempool
    notifications of [finalize_remote_block_commit] are part of the mempool
    and are left out; its fee distribution among peers is only logged. *)

From Stdlib Require Import Strings.Byte.
From S2P Require Import Prelude OrdMap Codec Account SignedTx BlockStore BlockExec.

Module BC.
Import Tx BS Exec.

Record PendingBlockData := mkPending {
  pd_block : Block;
  pd_signed_txs : list SignedTx;
  pd_source_peer : bytes;
}.

Definition TREASURY_ADDRESS : bytes := zeros 31 ++ [x01].

Section Commit.
Context {S : Type} `{BlockAndAccountStorage S, Hex, Sha256, Ed25519, TxBincode}.

Definition C (A : Type) : Type := M S ExecError A.

(** [expr?] on a call of the store. *)
Definition storage_op {A} (m : M S StorageError A) : C A := zoom id (fun s _ => s) ExecStorage m.

Definition serialize_or_bail (t : SignedTx) : C bytes :=
  lift (match serialize_signed_tx t with Ok b => Ok b | Err e => Err (BadTransaction e) end).

(** A block that does not advance the chain: a higher nonce is written, the
    balance is not. *)
Definition bump_nonce (p : bytes * Acct.Account) : C unit :=
  s ← get;
  let existing := ok_flatten (get_account p.1 s) in
  let existing_nonce := from_option sa_nonce 0 existing in
  if Acct.nonce p.2 >? existing_nonce then
    let existing_data := from_option sa_data [] existing in
    ignore (storage_op (put_account p.1
      (mkSa (from_option sa_balance (Acct.balance p.2) existing) (Acct.nonce p.2) existing_data)))
  else mret tt.

Definition index_tx (height : Z) (t : SignedTx) : C unit :=
  match serialize_signed_tx t with
  | Err _ => mret tt
  | Ok b =>
      ignore (storage_op (set_transaction_by_hash (hash_signed_tx_bytes b) b));;
      ignore (storage_op (set_tx_inclusion (hash_signed_tx_bytes b) height))
  end.

(** The new account, its data kept. *)
Definition stored (s : S) (p : bytes * Acct.Account) : bytes * StAccount :=
  (p.1, mkSa (Acct.balance p.2) (Acct.nonce p.2) (from_option sa_data [] (ok_flatten (get_account p.1 s)))).

Fixpoint serialize_all (l : list SignedTx) : C (list (bytes * bytes)) :=
  match l with
  | [] => mret []
  | t :: l =>
      b ← serialize_or_bail t;
      r ← serialize_all l;
      mret ((hash_signed_tx_bytes b, b) :: r)
  end.

Definition execute_and_commit_block_for_group (now : Z) (block : Block) (overlay : Overlay)
    (receipts : Receipts) (signed_txs : list SignedTx) (group_id : option string) : C unit :=
  lift (validate_block_header now block);;
  s ← get;
  let should_update :=
    match head_lookup group_id s with
    | Ok (Some head) => b_height block >? b_height head
    | Ok None => true
    | Err _ => true
    end in
  if negb should_update then
    for_each bump_nonce (bytes_iter overlay);;
    for_each (index_tx (b_height block)) signed_txs
  else
    let accounts := stored s <$> bytes_iter overlay in
    transactions ← serialize_all signed_txs;
    let tx_inclusions := (fun p : bytes * bytes => (p.1, b_height block)) <$> transactions in
    storage_op (commit_block_batch (mkCommit block accounts receipts transactions tx_inclusions group_id)).

(** *** Fees *)

Definition credit_fee (address : bytes) (n : Z) : C unit :=
  if n >? 0 then
    s ← get;
    let a := default StAccount_default (ok_flatten (get_account address s)) in
    storage_op (put_account address (mkSa (saturating_add U128_MAX (sa_balance a) n) (sa_nonce a) (sa_data a)))
  else mret tt.

(** Half is burnt; of the rest 60 per cent go to the treasury. *)
Definition distribute_block_fees (total_fees : Z) (proposer : bytes) : C unit :=
  if total_fees =? 0 then mret tt
  else
    let burn_amount := total_fees / 2 in
    let remaining := total_fees - burn_amount in
    let treasury_amount := wrap U128_MAX (remaining * 60) / 100 in
    let proposer_amount := remaining - treasury_amount in
    credit_fee TREASURY_ADDRESS treasury_amount;;
    credit_fee proposer proposer_amount.

Definition calculate_p2p_reward (pou_score : Z) : Z := 1000 + pou_score * 10.

Definition reward_node (p : bytes * Z) : C unit :=
  s ← get;
  let a := default Acct.Account_default (stored_account s p.1) in
  b ← lift (ok_or (checked_add U128_MAX (Acct.balance a) (calculate_p2p_reward p.2)) ExecBalanceOverflow);
  let existing_data := from_option sa_data [] (ok_flatten (get_account p.1 s)) in
  storage_op (put_account p.1 (mkSa b (Acct.nonce a) existing_data)).

Definition distribute_fees_to_p2p_nodes (p2p_nodes : list (bytes * Z)) : C unit :=
  for_each reward_node p2p_nodes.

Definition block_fees (l : list SignedTx) : Z :=
  fold_left (fun acc t => saturating_add U128_MAX acc (fee_or_0 t)) l 0.

Definition commit_pending_block (now : Z) (pending : PendingBlockData)
    (p2p_nodes : option (list (bytes * Z))) (is_mn_certified : bool) (group_id : option string) : C bytes :=
  s ← get;
  '(executed_block, overlay, receipts) ←
    lift (if is_mn_certified
          then match apply_certified_block_direct s (pd_signed_txs pending) with
               | Ok (o, r) => Ok (pd_block pending, o, r)
               | Err e => Err e
               end
          else execute_block_without_commit now s (pd_block pending) (pd_signed_txs pending));
  execute_and_commit_block_for_group now executed_block overlay receipts (pd_signed_txs pending) group_id;;
  let total_fees := block_fees (pd_signed_txs pending) in
  (if total_fees >? 0 then distribute_block_fees total_fees (b_proposer (pd_block pending)) else mret tt);;
  match p2p_nodes with Some nodes => distribute_fees_to_p2p_nodes nodes | None => mret tt end;;
  mret (b_hash (pd_block pending)).

(** [finalize_remote_block_commit]: when the commit fails, the certified
    transfers are written account by account. *)
Definition finalize_remote_block_commit (now : Z) (pending : PendingBlockData) (group_id : option string) (s : S) :
    bool * S :=
  match commit_pending_block now pending None true group_id s with
  | (Ok _, s) => (true, s)
  | (Err _, s) =>
      match apply_certified_block_direct s (pd_signed_txs pending) with
      | Ok (overlay, _) =>
          (false, snd (for_each (fun p : bytes * Acct.Account =>
             s ← get; ignore (storage_op (put_account p.1 (stored s p).2))) (bytes_iter overlay) s))
      | Err _ => (false, s)
      end
  end.

(** ** Blocks from peers *)

Record BlockHeader := mkHeader {
  h_exec_height : Z;
  h_proposer : bytes;
  h_timestamp : Z;
  h_parent_hash : bytes;
}.

Record BlockMessage := mkMsg {
  m_hash : bytes;
  m_header : BlockHeader;
  m_txs : list bytes;
}.

Inductive BlockPrepError :=
| Validation (e : ExecError)
| MissingParent (parent_exec : bytes) (target_height : Z).

(** What does not decode is skipped. *)
Definition decode_block_txs (msg : BlockMessage) : list SignedTx :=
  omap (fun tx_bytes =>
    if bool_decide (tx_bytes = []) then None
    else match deserialize_signed_tx tx_bytes with Ok t => Some t | Err _ => None end) (m_txs msg).

Definition signed_to_public_transactions (signed : list SignedTx) : list SignedTx :=
  (fun t => mkTx (from t) (to t) (amount t) (nonce t) (fee t) None [] (zeros 64) false) <$> signed.

Definition block_from_message (now : Z) (msg : BlockMessage) (transactions : list SignedTx) : Block :=
  let tx_root := sha256 (m_hash msg ++ to_le_bytes 8 (h_exec_height (m_header msg)) ++
    concat ((fun t => bytes_of_string (from t) ++ bytes_of_string (to t) ++ to_le_bytes 8 (amount t))
              <$> transactions)) in
  let state_root := sha256 (tx_root ++ take 32 (m_hash msg)) in
  let ts := h_timestamp (m_header msg) in
  mkBlock (m_hash msg) (h_exec_height (m_header msg)) (if ts >? 0 then ts else now)
    (h_parent_hash (m_header msg)) state_root tx_root (h_proposer (m_header msg))
    (zeros 64) (zeros 64) (zeros 64) 1.

Definition set_parent (h : bytes) (b : Block) : Block :=
  mkBlock (b_hash b) (b_height b) (b_timestamp b) h (b_state_root b) (b_tx_root b) (b_proposer b)
    (b_signature b) (b_parent_exec_hash b) (b_parent_ref_hash b) (b_version b).
Definition set_timestamp (ts : Z) (b : Block) : Block :=
  mkBlock (b_hash b) (b_height b) ts (b_parent_hash b) (b_state_root b) (b_tx_root b) (b_proposer b)
    (b_signature b) (b_parent_exec_hash b) (b_parent_ref_hash b) (b_version b).

(** The block with what the certificate says of it.  A hash that does not fit
    the result is only reported. *)
Definition certified_block (s : S) (cert_roots : option (bytes * bytes)) (cert_parent_hash : option bytes)
    (cert_timestamp : option Z) (b : Block) : Block :=
  let b := match cert_roots with
    | Some (state_root, tx_root) =>
        if negb (bool_decide (state_root = zeros 32)) || negb (bool_decide (tx_root = zeros 32))
        then set_roots state_root tx_root b else b
    | None => b
    end in
  let b := match cert_parent_hash with
    | Some ph => set_parent ph b
    | None =>
        if b_height b >? 0 then
          match get_block (b_height b - 1) s with Ok (Some parent) => set_parent (b_hash parent) b | _ => b end
        else b
    end in
  match cert_timestamp with
  | Some ts => if ts >? 0 then set_timestamp ts b else b
  | None => b
  end.

Definition prepare_remote_block (now : Z) (s : S) (msg : BlockMessage) (source_peer : bytes)
    (cert_roots : option (bytes * bytes)) (cert_parent_hash : option bytes) (cert_timestamp : option Z) :
    result BlockPrepError (option PendingBlockData) :=
  let signed_txs := decode_block_txs msg in
  let transactions := signed_to_public_transactions signed_txs in
  let block := certified_block s cert_roots cert_parent_hash cert_timestamp
                 (block_from_message now msg transactions) in
  match validate_block_header now block with
  | Err e => Err (Validation e)
  | Ok _ =>
      let known := match get_block (b_height block) s with
        | Ok (Some existing) => bool_decide (b_hash existing = b_hash block)
        | _ => false
        end in
      if known then Ok None
      else if (b_height block >? 0) && negb (is_ok (get_block (b_height block - 1) s))
      then Err (MissingParent (zeros 64) (b_height block))
      else Ok (Some (mkPending block signed_txs source_peer))
  end.
End Commit.

End BC.
