(* ===== verification/BlockCorrect.v ===== *)
(** * What executing and committing a block does to the ledger

    The ledger of a store is the finite map of its balances and nonces; an
    overlay on top of it is again such a map ([ledger]), and its [supply] is
    the sum of all balances.  The theorems relate the proposer's and the
    followers' execution, account for every unit of the supply, and pin down
    where it is not conserved. *)

From stdpp Require Import sorting.
From S2P Require Import Prelude OrdMap Codec Account SignedTx BlockStore BlockExec BlockCommit.

Module BlockC.
Import Tx BS Exec BC.

(** ** The order of execution *)

#[global] Instance exec_le_total : Total exec_le.
Proof.
  intros [i t] [j u]. unfold exec_le. simpl. destruct (decide (from t = from u)) as [E|E].
  - destruct (Z.lt_total (nonce t) (nonce u)) as [?|[?|?]], (Nat.le_ge_cases i j); naive_solver.
  - destruct (total String.le (from t) (from u)); auto.
Qed.

#[global] Instance exec_le_trans : Transitive exec_le.
Proof.
  intros [i t] [j u] [k v]. unfold exec_le. simpl.
  intros [[Hn Hl]|[-> Hl]] [[Hn' Hl']|[E Hl']]; [left|left; by rewrite <- E|by left|right].
  - split; [|by trans (from u)]. intros E. rewrite E in Hl. apply Hn. rewrite E. by apply (anti_symm String.le).
  - split; [done|lia].
Qed.

Lemma sorted_txs_sorted txs : StronglySorted exec_le (sorted_txs txs).
Proof. apply StronglySorted_merge_sort; apply _. Qed.

Lemma imap_pair_fst {A} (l : list A) p q : p ∈ imap pair l -> q ∈ imap pair l -> p.1 = q.1 -> p = q.
Proof.
  destruct p as [i x], q as [j y]. rewrite !elem_of_lookup_imap.
  intros (i' & x' & [= -> ->] & Hx) (j' & y' & [= -> ->] & Hy). simpl. intros ->. congruence.
Qed.

(** The sorted list is the only one of its kind: indices break all ties. *)
Lemma sorted_txs_unique txs l : StronglySorted exec_le l -> l ≡ₚ imap pair txs -> l = sorted_txs txs.
Proof.
  intros Hs Hp. assert (sorted_txs txs ≡ₚ imap pair txs) as Hq by apply merge_sort_Permutation.
  apply (StronglySorted_unique_strong exec_le); [|done|apply sorted_txs_sorted|by rewrite Hq].
  intros x y. rewrite Hp, Hq. intros Hx Hy Hxy Hyx. apply (imap_pair_fst txs); [done..|].
  revert Hxy Hyx. unfold exec_le. intros [[Hn Hl]|[E Hl]] [[Hn' Hl']|[E' Hl']]; [|congruence..|lia].
  exfalso. by apply Hn, (anti_symm String.le).
Qed.

Section Ledger.
Context {S : Type} `{StorageLaws S}.

Definition ledger (s : S) (o : Overlay) : gmap bytes Acct.Account := o ∪ (core_account <$> accts s).
Definition supply (l : gmap bytes Acct.Account) : Z := map_sum Acct.balance l.

Definition account_of (l : gmap bytes Acct.Account) (a : bytes) : Acct.Account :=
  default Acct.Account_default (l !! a).

Definition ledger_ok (l : gmap bytes Acct.Account) : Prop :=
  map_Forall (fun _ a => Acct.account_ok a) l /\ supply l < U128_MAX.

Lemma account_in_ledger s o a : store_ok s -> account_in s o a = account_of (ledger s o) a.
Proof.
  intros Hs. unfold account_in, account_of, ledger, stored_account. rewrite get_account_law by done.
  rewrite lookup_union, lookup_fmap. by destruct (o !! a), (accts s !! a).
Qed.

Lemma ledger_put s o sd rc a r : ledger s (put_pair sd rc a r o) = <[rc := r]> (<[sd := a]> (ledger s o)).
Proof. unfold ledger, put_pair. by rewrite !insert_union_l. Qed.

Lemma supply_put l sd rc a r : sd <> rc ->
  supply (<[rc := r]> (<[sd := a]> l)) =
  supply l - Acct.balance (account_of l sd) - Acct.balance (account_of l rc) + Acct.balance a + Acct.balance r.
Proof.
  intros Hne. unfold supply, account_of. rewrite !map_sum_update, lookup_insert_ne by done.
  destruct (l !! sd), (l !! rc); simpl; lia.
Qed.

Lemma ok_account l a : ledger_ok l -> Acct.account_ok (account_of l a).
Proof.
  intros [Hl _]. unfold account_of. destruct (l !! a) as [x|] eqn:E; [by apply (Hl _ _ E)|].
  split; simpl; mlia.
Qed.

Lemma supply_pair_le l sd rc : ledger_ok l -> sd <> rc ->
  Acct.balance (account_of l sd) + Acct.balance (account_of l rc) <= supply l.
Proof.
  intros [Hl _] Hne. unfold supply, account_of.
  assert (map_Forall (fun (_ : bytes) a => 0 <= Acct.balance a) l) as Hn.
  { intros k x Hk. destruct (Hl _ _ Hk) as [? _]. mlia. }
  destruct (l !! sd) as [x|] eqn:E; simpl.
  - rewrite (map_sum_delete _ _ _ _ E).
    assert (Acct.balance (default Acct.Account_default (l !! rc)) <= map_sum Acct.balance (delete sd l)); [|lia].
    rewrite <- (lookup_delete_ne l sd rc) by done.
    assert (map_Forall (fun (_ : bytes) a => 0 <= Acct.balance a) (delete sd l)) as Hn' by (by apply map_Forall_delete).
    destruct (delete sd l !! rc) as [y|] eqn:E'; simpl; [by eapply map_sum_lookup_le|].
    by apply map_sum_nonneg.
  - destruct (l !! rc) as [y|] eqn:E'; simpl; [rewrite Z.add_0_l; by eapply map_sum_lookup_le|].
    pose proof (map_sum_nonneg _ _ Hn). lia.
Qed.

Lemma ledger_supply_nonneg l : ledger_ok l -> 0 <= supply l.
Proof.
  intros [Hl _]. apply map_sum_nonneg. intros k x Hk. destruct (Hl _ _ Hk) as [? _]. mlia.
Qed.

Lemma ok_put l sd rc a r : ledger_ok l -> Acct.account_ok a -> Acct.account_ok r ->
  supply (<[rc := r]> (<[sd := a]> l)) < U128_MAX -> ledger_ok (<[rc := r]> (<[sd := a]> l)).
Proof.
  intros [Hl _] Ha Hr Hs. split; [|done]. by apply map_Forall_insert_2; [|apply map_Forall_insert_2].
Qed.

(** ** One transfer *)

(** The sender is at or below the nonce of the transfer and its balance
    covers it. *)
Definition covered (l : gmap bytes Acct.Account) (sd : bytes) (t : SignedTx) : Prop :=
  Acct.nonce (account_of l sd) <= nonce t /\ amount t + fee_or_0 t <= Acct.balance (account_of l sd).
#[global] Instance covered_dec l sd t : Decision (covered l sd t).
Proof. unfold covered. apply _. Defined.

(** Debit the sender, credit the recipient. *)
Definition paid (l : gmap bytes Acct.Account) (sd rc : bytes) (t : SignedTx) : gmap bytes Acct.Account :=
  <[rc := Acct.mkAccount (Acct.balance (account_of l rc) + amount t) (Acct.nonce (account_of l rc))]>
  (<[sd := Acct.mkAccount (Acct.balance (account_of l sd) - (amount t + fee_or_0 t)) (wrap U64_MAX (nonce t + 1))]> l).

Lemma tx_ok_fee t : tx_ok t -> in_range U128_MAX (fee_or_0 t).
Proof. intros (_ & _ & Hf). unfold fee_or_0. destruct (fee t); simpl; [by apply Hf|mlia]. Qed.

(** A transfer between different accounts destroys its fee and nothing
    else. *)
Lemma paid_ok l sd rc t : ledger_ok l -> tx_ok t -> sd <> rc -> covered l sd t ->
  ledger_ok (paid l sd rc t) /\ supply (paid l sd rc t) = supply l - fee_or_0 t.
Proof.
  intros Hl Ht Hne [Hc Hb]. pose proof (tx_ok_fee t Ht) as Hf. destruct Ht as (Ha & Hr & _).
  pose proof (supply_pair_le l sd rc Hl Hne) as Hp. pose proof (ok_account l sd Hl) as [Hsb Hsn].
  pose proof (ok_account l rc Hl) as [Hrb Hrn].
  assert (supply (paid l sd rc t) = supply l - fee_or_0 t) as Es.
  { unfold paid. rewrite supply_put by done. simpl. lia. }
  split; [|done]. unfold paid in *. destruct Hl as [Hl Hm].
  apply ok_put; [done| | |rewrite Es; mlia]; (split; simpl; [mach_unfold; lia|mlia]).
Qed.

(** ** The abstract ledger machine *)

Context `{Hex}.

(** One transfer on the ledger, and the fee it was charged; what is not
    covered is skipped. *)
Definition settle1 (l : gmap bytes Acct.Account) (t : SignedTx) : gmap bytes Acct.Account * Z :=
  match hex_decode (from t), hex_decode (to t) with
  | Some sd, Some rc => if decide (covered l sd t) then (paid l sd rc t, fee_or_0 t) else (l, 0)
  | _, _ => (l, 0)
  end.

Fixpoint settle (l : gmap bytes Acct.Account) (txs : list SignedTx) : gmap bytes Acct.Account * Z :=
  match txs with
  | [] => (l, 0)
  | t :: txs =>
      let '(l1, f) := settle1 l t in
      let '(l2, g) := settle l1 txs in (l2, f + g)
  end.

(** A transfer between two different accounts whose fields fit. *)
Definition proper (t : SignedTx) : Prop :=
  tx_ok t /\ exists sd rc, hex_decode (from t) = Some sd /\ hex_decode (to t) = Some rc /\ sd <> rc.

Lemma settle1_ok l t : ledger_ok l -> proper t ->
  ledger_ok (settle1 l t).1 /\ supply (settle1 l t).1 = supply l - (settle1 l t).2 /\
  0 <= (settle1 l t).2 <= fee_or_0 t.
Proof.
  intros Hl (Ht & sd & rc & Hs & Hr & Hne). unfold settle1. rewrite Hs, Hr.
  pose proof (tx_ok_fee t Ht) as [Hf _]. destruct (decide _) as [Hc|]; simpl; [|split; [done|lia]].
  destruct (paid_ok l sd rc t Hl Ht Hne Hc) as [? ?]. split; [done|lia].
Qed.

Lemma settle_ok l txs : ledger_ok l -> Forall proper txs ->
  ledger_ok (settle l txs).1 /\ supply (settle l txs).1 = supply l - (settle l txs).2 /\
  0 <= (settle l txs).2 <= sumZ (map fee_or_0 txs).
Proof.
  intros Hl Ht. revert l Hl; induction Ht as [|t txs Ht Hts IH]; intros l Hl; [simpl; split; [done|lia]|].
  pose proof (settle1_ok l t Hl Ht) as (Ho & Hs1 & Hf1). simpl. destruct (settle1 l t) as [l1 f]; simpl in *.
  specialize (IH l1 Ho) as (Ho2 & Hs2 & Hf2). destruct (settle l1 txs) as [l2 g]; simpl in *. split; [done|lia].
Qed.

(** The executor's step on the overlay is the machine's step on the ledger. *)
Lemma apply_direct_settle s idx t x : store_ok s -> ledger_ok (ledger s (ex_overlay x)) -> proper t ->
  exists o r, apply_direct s idx t x = (Ok tt, mkExec o (ex_receipts x ++ r)) /\
    ledger s o = (settle1 (ledger s (ex_overlay x)) t).1.
Proof.
  intros Hs Hl (Ht & sd & rc & Hsd & Hrc & Hne). unfold apply_direct, settle1. rewrite Hsd, Hrc. cbn -[put_pair wrap U64_MAX U128_MAX].
  unfold mbind, M_bind, lift, get. cbn -[put_pair wrap U64_MAX U128_MAX].
  rewrite !account_in_ledger by done. set (l := ledger s (ex_overlay x)) in *.
  pose proof (tx_ok_fee t Ht) as Hf. destruct Ht as (Ha & Hn & _).
  pose proof (supply_pair_le l sd rc Hl Hne) as Hp.
  pose proof (ok_account l sd Hl) as [Hsb Hsn]. pose proof (ok_account l rc Hl) as [Hrb Hrn].
  destruct Hl as [_ Hm]. unfold covered.
  destruct (Z.ltb_spec (nonce t) (Acct.nonce (account_of l sd))).
  { exists (ex_overlay x), []. rewrite app_nil_r, decide_False by lia. by destruct x. }
  destruct (Z.ltb_spec (Acct.balance (account_of l sd)) (saturating_add U128_MAX (amount t) (fee_or_0 t))).
  { exists (ex_overlay x), []. rewrite app_nil_r, decide_False by mlia. by destruct x. }
  rewrite decide_True by mlia. eexists _, _. split; [done|].
  rewrite ledger_put. fold l. unfold paid. cbn [fst].
  assert (saturating_add U128_MAX (amount t) (fee_or_0 t) = amount t + fee_or_0 t) as -> by mlia.
  assert (saturating_add U128_MAX (Acct.balance (account_of l rc)) (amount t) =
    Acct.balance (account_of l rc) + amount t) as -> by mlia.
  destruct (Z.gtb_spec (nonce t) (Acct.nonce (account_of l sd))); [done|].
  by assert (Acct.nonce (account_of l sd) = nonce t) as -> by lia.
Qed.

(** The loop. *)
Lemma direct_settle s l x : store_ok s -> ledger_ok (ledger s (ex_overlay x)) -> Forall (fun p => proper p.2) l ->
  exists o r, for_each (fun p => apply_direct s p.1 p.2) l x = (Ok tt, mkExec o r) /\
    ledger s o = (settle (ledger s (ex_overlay x)) (l.*2)).1.
Proof.
  intros Hs Hl Hp. revert x Hl; induction Hp as [|[i t] l Ht Hp IH]; intros x Hl.
  { exists (ex_overlay x), (ex_receipts x). by destruct x. }
  destruct (apply_direct_settle s i t x Hs Hl Ht) as (o & r & E & Eo).
  destruct (settle1_ok _ t Hl Ht) as [Hl1 _]. rewrite <- Eo in Hl1.
  destruct (IH (mkExec o (ex_receipts x ++ r)) Hl1) as (o' & r' & E' & Eo').
  exists o', r'. cbn [for_each fst snd]. unfold mbind, M_bind. rewrite E, E'. split; [done|].
  rewrite Eo'. simpl. rewrite Eo. destruct (settle1 _ t) as [l1 f]; simpl. by destruct (settle l1 _).
Qed.

(** ** Writing the accounts of an overlay *)

Lemma write_accounts_lookup l : NoDup l.*1 -> forall m k,
  write_accounts m l !! k = match list_to_map (M := gmap bytes StAccount) l !! k with Some a => Some a | None => m !! k end.
Proof.
  induction l as [|[k0 a0] l IH]; intros Hn m k; [done|]. simpl in Hn. apply NoDup_cons in Hn as [Hk Hn].
  unfold write_accounts in *. cbn [fold_left fst snd]. rewrite (IH Hn). simpl.
  destruct (decide (k = k0)) as [->|Hne].
  - by rewrite !lookup_insert_eq, not_elem_of_list_to_map_1 by done.
  - by rewrite !lookup_insert_ne by done.
Qed.

Lemma bytes_iter_perm {V} (m : gmap bytes V) : bytes_iter m ≡ₚ map_to_list m.
Proof. apply merge_sort_Permutation. Qed.

Lemma elem_of_bytes_iter {V} (m : gmap bytes V) k v : (k, v) ∈ bytes_iter m <-> m !! k = Some v.
Proof. rewrite bytes_iter_perm. apply elem_of_map_to_list. Qed.

Lemma bytes_iter_keys {V} (m : gmap bytes V) : NoDup (bytes_iter m).*1.
Proof. rewrite bytes_iter_perm. apply NoDup_fst_map_to_list. Qed.

(** After the accounts of the overlay are written the ledger is what the
    overlay showed. *)
Lemma ledger_written s s' o : store_ok s -> store_ok s' ->
  accts s' = write_accounts (accts s) (stored s <$> bytes_iter o) -> ledger s' ∅ = ledger s o.
Proof.
  intros Hs Hs' E. unfold ledger. rewrite E, (left_id_L ∅ (∪)). apply map_eq. intros k.
  rewrite lookup_union, !lookup_fmap, write_accounts_lookup.
  2:{ rewrite <- list_fmap_compose. apply bytes_iter_keys. }
  destruct (o !! k) as [a|] eqn:Ek.
  - assert (list_to_map (M := gmap bytes StAccount) (stored s <$> bytes_iter o) !! k = Some (stored s (k, a)).2) as ->.
    { apply elem_of_list_to_map_1; [rewrite <- list_fmap_compose; apply bytes_iter_keys|].
      apply elem_of_bytes_iter in Ek. by apply (list_elem_of_fmap_2 (stored s)) in Ek. }
    simpl. by destruct a, (accts s !! k).
  - rewrite not_elem_of_list_to_map_1; [by destruct (accts s !! k)|].
    rewrite <- list_fmap_compose. intros ([k' a'] & -> & Hin)%list_elem_of_fmap. apply elem_of_bytes_iter in Hin.
    simpl in Ek. by rewrite Ek in Hin.
Qed.

(** ** Committing and paying fees *)

Context `{Sha256, Ed25519, TxBincode}.

Lemma wp_storage_op {A} (m : M S StorageError A) (Q : A -> S -> Prop) (R : S -> Prop) s :
  wp m Q (fun _ => R) s -> wp (storage_op m) Q (fun _ => R) s.
Proof. unfold wp, storage_op, zoom, id. by destruct (m s) as [[a|e] s']. Qed.

Lemma wp_serialize_all l (s : S) :
  wp (serialize_all l) (fun _ s' => s' = s) (fun _ s' => s' = s) s.
Proof.
  induction l as [|t l IH]; [done|]. cbn [serialize_all]. apply wp_bind.
  apply wp_lift; [|done]. intros b _. apply wp_bind. eapply wp_mono_ok; [exact IH|]. by intros r s' ->.
Qed.

(** A block above the head of its lane: all or nothing. *)
Lemma wp_block_commit now b o r txs gid h (s : S) : store_ok s ->
  validate_block_header now b = Ok tt -> head_lookup gid s = Ok h -> advances h b ->
  wp (execute_and_commit_block_for_group now b o r txs gid)
    (fun _ s' => store_ok s' /\ ledger s' ∅ = ledger s o /\ head_lookup gid s' = Ok (Some b))
    (fun _ s' => store_ok s' /\ accts s' = accts s) s.
Proof.
  intros Hs Hv Hh Ha. unfold execute_and_commit_block_for_group. apply wp_bind.
  rewrite Hv. apply wp_lift; [|done]. intros [] _. apply wp_bind, wp_get. rewrite Hh.
  replace (match h with Some head => b_height b >? b_height head | None => true end) with true.
  2:{ destruct h as [x|]; [|done]. unfold advances in Ha. destruct (Z.gtb_spec (b_height b) (b_height x)); lia. }
  cbn [negb]. apply wp_bind. eapply wp_mono; [apply wp_serialize_all| |by intros ? ? ->].
  intros ws s' ->. apply (wp_storage_op _ _ (fun s' => store_ok s' /\ accts s' = accts s)).
  eapply wp_mono_ok; [by apply (commit_law _ h)|]. simpl. intros [] s' (Hs' & Ea & Eh). split; [done|]. split; [|done].
  by eapply ledger_written.
Qed.

Lemma ledger_accts s s' : accts s' = accts s -> ledger s' ∅ = ledger s ∅.
Proof. unfold ledger. by intros ->. Qed.

Lemma ledger_base s a : ledger s ∅ !! a = core_account <$> accts s !! a.
Proof. unfold ledger. by rewrite (left_id_L ∅ (∪)), lookup_fmap. Qed.

(** A payment to an account, and the two payments of a block's fees. *)
Definition pay (a : bytes) (n : Z) (l : gmap bytes Acct.Account) : gmap bytes Acct.Account :=
  if n >? 0 then <[a := Acct.mkAccount (Acct.balance (account_of l a) + n) (Acct.nonce (account_of l a))]> l else l.

Definition treasury_share (F : Z) : Z := wrap U128_MAX ((F - F / 2) * 60) / 100.

Definition payout (F : Z) (proposer : bytes) (l : gmap bytes Acct.Account) : gmap bytes Acct.Account :=
  pay proposer (F - F / 2 - treasury_share F) (pay TREASURY_ADDRESS (treasury_share F) l).

Lemma payout_0 p l : payout 0 p l = l.
Proof. done. Qed.

Lemma wp_credit_fee a n (s : S) : store_ok s -> ledger_ok (ledger s ∅) -> 0 <= n -> supply (ledger s ∅) + n < U128_MAX ->
  wp (credit_fee a n)
    (fun _ s' => store_ok s' /\ ledger_ok (ledger s' ∅) /\ supply (ledger s' ∅) = supply (ledger s ∅) + n /\
       ledger s' ∅ = pay a n (ledger s ∅) /\ same_heads s s')
    (fun _ s' => store_ok s' /\ ledger s' ∅ = ledger s ∅ /\ same_heads s s') s.
Proof.
  intros Hs Hl Hn Hb. unfold credit_fee, pay. destruct (Z.gtb_spec n 0); [|apply wp_ret; by replace n with 0 by lia; rewrite Z.add_0_r].
  apply wp_bind, wp_get, (wp_storage_op _ _ (fun s' => store_ok s' /\ ledger s' ∅ = ledger s ∅ /\ same_heads s s')).
  rewrite get_account_law by done. simpl ok_flatten. set (x := default StAccount_default (accts s !! a)).
  assert (Acct.account_ok (core_account x) /\ sa_balance x <= supply (ledger s ∅) /\
    from_option Acct.balance 0 (ledger s ∅ !! a) = sa_balance x /\
    account_of (ledger s ∅) a = core_account x) as ([Hxb Hxn] & Hxs & Hxe & Hxa).
  { unfold account_of. rewrite ledger_base. unfold x. destruct (accts s !! a) as [y|] eqn:E; simpl.
    - assert (ledger s ∅ !! a = Some (core_account y)) as Ey by (by rewrite ledger_base, E).
      destruct Hl as [Hl _]. split; [by apply (Hl _ _ Ey)|]. split; [|by split].
      change (sa_balance y) with (Acct.balance (core_account y)). eapply map_sum_lookup_le; [|exact Ey].
      intros k z Hz. destruct (Hl _ _ Hz) as [? _]. mlia.
    - split; [split; simpl; mlia|]. split; [|by split]. apply map_sum_nonneg. destruct Hl as [Hl _].
      intros k z Hz. destruct (Hl _ _ Hz) as [? _]. mlia. }
  simpl in Hxb, Hxn. eapply wp_mono; [by apply put_account_law| |].
  - intros [] s' (Hs' & Ea & Hh). split; [done|].
    set (y := mkSa (saturating_add U128_MAX (sa_balance x) n) (sa_nonce x) (sa_data x)) in *.
    assert (ledger s' ∅ = <[a := core_account y]> (ledger s ∅)) as El.
    { unfold ledger. rewrite Ea, fmap_insert. by rewrite !(left_id_L ∅ (∪)). }
    assert (supply (ledger s' ∅) = supply (ledger s ∅) + n) as Es.
    { rewrite El. unfold supply in *. rewrite map_sum_update, Hxe. simpl. mlia. }
    split; [|split; [done|split; [|done]]].
    + split; [|lia]. rewrite El. destruct Hl as [Hl _]. apply map_Forall_insert_2; [|done]. split; simpl; mlia.
    + rewrite El, Hxa. f_equal. unfold core_account. simpl. f_equal. mlia.
  - intros e s' (Hs' & Ea & Hh). by rewrite (ledger_accts s s' Ea).
Qed.

(** Half of the fees, rounded down, is not paid out. *)
Lemma wp_distribute F p (s : S) : store_ok s -> ledger_ok (ledger s ∅) -> 0 <= F -> supply (ledger s ∅) + F < U128_MAX ->
  wp (distribute_block_fees F p)
    (fun _ s' => store_ok s' /\ supply (ledger s' ∅) = supply (ledger s ∅) + (F - F / 2) /\
       ledger s' ∅ = payout F p (ledger s ∅) /\ same_heads s s')
    (fun _ s' => store_ok s' /\ supply (ledger s ∅) <= supply (ledger s' ∅) <= supply (ledger s ∅) + (F - F / 2) /\ same_heads s s' /\
       (ledger s' ∅ = ledger s ∅ \/ ledger s' ∅ = pay TREASURY_ADDRESS (treasury_share F) (ledger s ∅))) s.
Proof.
  intros Hs Hl HF Hb. unfold distribute_block_fees. destruct (Z.eqb_spec F 0) as [->|HF0].
  { apply wp_ret. split; [done|]. by rewrite Z.add_0_r. }
  unfold payout, treasury_share. set (rem := F - F / 2). set (tr := wrap U128_MAX (rem * 60) / 100).
  assert (0 <= rem <= F) by (unfold rem; Z.div_mod_to_equations; lia).
  assert (0 <= tr <= rem).
  { unfold tr, wrap. pose proof (Z.mod_pos_bound (rem * 60) (U128_MAX + 1) ltac:(mach_unfold; lia)) as Hm.
    pose proof (Z.mod_le (rem * 60) (U128_MAX + 1) ltac:(lia) ltac:(mach_unfold; lia)) as Hm'.
    split; [apply Z.div_pos; lia|]. apply Z.div_le_upper_bound; lia. }
  apply wp_bind. eapply wp_mono; [apply wp_credit_fee; [done..|lia|lia]| |].
  - intros [] s1 (Hs1 & Hl1 & E1 & Ep1 & Hh1). eapply wp_mono; [apply wp_credit_fee; [done..|lia|lia]| |].
    + intros [] s2 (Hs2 & Hl2 & E2 & Ep2 & Hh2). split; [done|]. split; [lia|]. rewrite Ep2, Ep1.
      split; [done|]. intros g. by rewrite Hh2.
    + intros e s2 (Hs2 & E2 & Hh2). split; [done|]. rewrite E2, Ep1. rewrite Ep1 in E1. split; [lia|].
      split; [intros g; by rewrite Hh2|by right].
  - intros e s1 (Hs1 & E1 & Hh1). split; [done|]. rewrite E1. split; [lia|]. split; [done|by left].
Qed.

(** The ledger after the transfers of a block, and the fees charged. *)
Definition block_settle (s : S) (txs : list SignedTx) : gmap bytes Acct.Account * Z :=
  settle (ledger s ∅) (sorted_txs txs).*2.

Lemma imap_pair_snd {A} (l : list A) : (imap pair l).*2 = l.
Proof.
  rewrite fmap_imap. etrans; [apply (imap_const id)|apply list_fmap_id].
Qed.

Lemma sorted_txs_perm txs : (sorted_txs txs).*2 ≡ₚ txs.
Proof. unfold sorted_txs. rewrite merge_sort_Permutation. by rewrite imap_pair_snd. Qed.

Lemma sorted_proper txs : Forall proper txs -> Forall (fun p : nat * SignedTx => proper p.2) (sorted_txs txs).
Proof.
  intros Hp. rewrite <- (sorted_txs_perm txs) in Hp. by rewrite Forall_fmap in Hp.
Qed.

Lemma sumZ_perm l l' : l ≡ₚ l' -> sumZ l = sumZ l'.
Proof. unfold sumZ. induction 1; simpl in *; lia. Qed.

Definition total_fees (txs : list SignedTx) : Z := sumZ (map fee_or_0 txs).

Lemma total_fees_nonneg txs : Forall tx_ok txs -> 0 <= total_fees txs.
Proof.
  unfold total_fees. induction 1 as [|t txs Ht _ IH]; simpl; [done|]. pose proof (tx_ok_fee t Ht). mlia.
Qed.

Lemma fees_fold txs : Forall tx_ok txs -> forall a, 0 <= a -> a + total_fees txs <= U128_MAX ->
  fold_left (fun acc t => saturating_add U128_MAX acc (fee_or_0 t)) txs a = a + total_fees txs.
Proof.
  induction 1 as [|t txs Ht Hts IH]; intros a Ha; unfold total_fees in *; simpl; [lia|]. intros Hle.
  pose proof (tx_ok_fee t Ht) as Hf. pose proof (total_fees_nonneg txs Hts) as Hn. unfold total_fees in Hn.
  assert (saturating_add U128_MAX a (fee_or_0 t) = a + fee_or_0 t) as -> by mlia.
  rewrite IH; mlia.
Qed.

Lemma block_fees_sum txs : Forall tx_ok txs -> total_fees txs <= U128_MAX -> block_fees txs = total_fees txs.
Proof. intros Ht Hle. unfold block_fees. by rewrite fees_fold. Qed.

Lemma proper_ok txs : Forall proper txs -> Forall tx_ok txs.
Proof. intros Hp. eapply Forall_impl; [exact Hp|]. by intros t [? _]. Qed.

(** The followers' executor computes the abstract machine. *)
Lemma certified_settle s txs : store_ok s -> ledger_ok (ledger s ∅) -> Forall proper txs ->
  exists o r, apply_certified_block_direct s txs = Ok (o, r) /\ ledger s o = (block_settle s txs).1.
Proof.
  intros Hs Hl Hp. unfold apply_certified_block_direct.
  destruct (direct_settle s (sorted_txs txs) (mkExec ∅ []) Hs Hl (sorted_proper _ Hp)) as (o & r & -> & E).
  by exists o, r.
Qed.

Lemma block_settle_ok s txs : ledger_ok (ledger s ∅) -> Forall proper txs ->
  ledger_ok (block_settle s txs).1 /\
  supply (block_settle s txs).1 = supply (ledger s ∅) - (block_settle s txs).2 /\
  0 <= (block_settle s txs).2 <= total_fees txs.
Proof.
  intros Hl Hp. unfold block_settle, total_fees.
  assert (sumZ (map fee_or_0 txs) = sumZ (map fee_or_0 (sorted_txs txs).*2)) as ->.
  { apply sumZ_perm. by rewrite sorted_txs_perm. }
  apply settle_ok; [done|]. by rewrite sorted_txs_perm.
Qed.

(** What a commit does to the supply. *)
Lemma wp_commit_pending now b txs peer gid h (s : S) :
  store_ok s -> ledger_ok (ledger s ∅) -> Forall proper txs -> supply (ledger s ∅) + total_fees txs < U128_MAX ->
  validate_block_header now b = Ok tt -> head_lookup gid s = Ok h -> advances h b ->
  let charged := (block_settle s txs).2 in
  let paid_out := total_fees txs - total_fees txs / 2 in
  wp (commit_pending_block now (mkPending b txs peer) None true gid)
    (fun hash s' => hash = b_hash b /\ store_ok s' /\ head_lookup gid s' = Ok (Some b) /\
       ledger s' ∅ = payout (total_fees txs) (b_proposer b) (block_settle s txs).1 /\
       supply (ledger s' ∅) = supply (ledger s ∅) - charged + paid_out)
    (fun _ s' => store_ok s' /\
       (ledger s' ∅ = ledger s ∅ \/
        supply (ledger s ∅) - charged <= supply (ledger s' ∅) <= supply (ledger s ∅) - charged + paid_out /\
        head_lookup gid s' = Ok (Some b) /\
        (ledger s' ∅ = (block_settle s txs).1 \/
         ledger s' ∅ = pay TREASURY_ADDRESS (treasury_share (total_fees txs)) (block_settle s txs).1))) s.
Proof.
  intros Hs Hl Hp Hb Hv Hh Ha charged paid_out. unfold commit_pending_block. apply wp_bind, wp_get.
  destruct (certified_settle s txs Hs Hl Hp) as (o & r & E & Eo).
  destruct (block_settle_ok s txs Hl Hp) as (Hl' & Es & Hc). fold charged in Es, Hc. rewrite <- Eo in Hl', Es.
  cbn [pd_signed_txs pd_block]. rewrite E. apply wp_bind, wp_lift; [|by intros]. intros ? [= <-].
  apply wp_bind. eapply wp_mono; [by apply (wp_block_commit now b o r txs gid h)| |].
  2:{ intros e s' (Hs' & Ea). split; [done|]. left. by apply ledger_accts. }
  intros [] s1 (Hs1 & E1 & Hh1). pose proof (ledger_supply_nonneg _ Hl).
  rewrite block_fees_sum by (apply proper_ok + lia; done). rewrite <- E1 in Hl', Es.
  apply wp_bind. destruct (Z.gtb_spec (total_fees txs) 0).
  - eapply wp_mono; [apply wp_distribute; [done..|lia|lia]| |].
    + intros [] s2 (Hs2 & E2 & Ep & Hh2). apply wp_bind, wp_ret, wp_ret. split; [done|]. split; [done|].
      split; [by rewrite Hh2|]. split; [by rewrite Ep, E1, <- Eo|]. unfold paid_out. lia.
    + intros e s2 (Hs2 & E2 & Hh2 & Ep). split; [done|]. right. unfold paid_out. split; [lia|]. split; [by rewrite Hh2|]. by rewrite <- Eo, <- E1.
  - apply wp_ret, wp_bind, wp_ret, wp_ret. split; [done|]. split; [done|]. split; [done|].
    assert (total_fees txs = 0) as E0 by (pose proof (total_fees_nonneg txs (proper_ok _ Hp)); lia).
    split; [by rewrite E0, payout_0, <- Eo|]. unfold paid_out. replace (total_fees txs) with 0 by lia. change (0 - 0 / 2) with 0. lia.
Qed.

End Ledger.
End BlockC.
