(* ===== verification/BlockTheorems.v ===== *)
(** * Theorems on executing and committing blocks

    On the models of [BlockExec] and [BlockCommit]: the followers reproduce
    the proposer's execution; a commit refines the abstract ledger machine of
    [BlockCorrect] and accounts for every unit of the supply; and the three
    ways in which the supply grows or a foreign transfer is executed. *)

From stdpp Require Import sorting.
From Stdlib Require Import Strings.Byte.
From S2P Require Import Prelude OrdMap Codec Account SignedTx BlockStore BlockExec BlockCommit BlockCorrect.

Module BlockT.
Import Tx BS Exec BC BlockC.

(** Evaluates an executor as far as it goes, arithmetic apart. *)
Ltac mrun := cbn -[put_pair wrap U64_MAX U128_MAX saturating_add checked_add checked_sub fee_or_0 Z.add Z.sub].

(** ** Followers and proposer *)

Section Proposer.
Context {S : Type} `{BlockAndAccountStorage S, Hex, Sha256, Ed25519, TxBincode, !TxBincodeLaws}.

(** What the proposer's acceptance of a transfer means. *)
Record accepted (s : S) (idx : Z) (t : SignedTx) (sd rc : bytes) (x x' : ExecState) : Prop := {
  ac_from : hex_decode (from t) = Some sd;
  ac_to : hex_decode (to t) = Some rc;
  ac_nonce : Acct.nonce (account_in s (ex_overlay x) sd) = nonce t;
  ac_total : amount t + fee_or_0 t <= U128_MAX;
  ac_balance : amount t + fee_or_0 t <= Acct.balance (account_in s (ex_overlay x) sd);
  ac_credit : Acct.balance (account_in s (ex_overlay x) rc) + amount t <= U128_MAX;
  ac_result : x' = mkExec
    (put_pair sd rc
       (Acct.mkAccount (Acct.balance (account_in s (ex_overlay x) sd) - (amount t + fee_or_0 t)) (wrap U64_MAX (nonce t + 1)))
       (Acct.mkAccount (Acct.balance (account_in s (ex_overlay x) rc) + amount t)
          (Acct.nonce (account_in s (ex_overlay x) rc))) (ex_overlay x))
    (ex_receipts x ++ [(receipt_key idx, receipt_data idx (hex_encode sd) (hex_encode rc) (amount t) (fee_or_0 t) (nonce t))]);
}.

Lemma overlay_accepted (s : S) idx t b x x' : serialize_signed_tx t = Ok b ->
  apply_signed_tx_overlay s b idx x = (Ok tt, x') -> exists sd rc, accepted s idx t sd rc x x'.
Proof.
  unfold serialize_signed_tx. rewrite ok_or_Ok. intros Eb. unfold apply_signed_tx_overlay.
  rewrite bool_decide_eq_false_2 by (intros ->; by apply bincode_nonempty in Eb).
  assert (forall t', deserialize_signed_tx b = Ok t' -> exists v, t' = set_pre_verified v t) as Hd.
  { unfold deserialize_signed_tx. rewrite (bincode_roundtrip _ _ Eb). intros t'.
    destruct (validate_tx_field_sizes t) as [u|]; [|done]. intros [= <-].
    destruct (verify_transaction_signature_ext _); by eexists. }
  unfold bail_if, mbind, M_bind, lift, get. mrun.
  destruct (deserialize_signed_tx b) as [t'|]; [|done]. destruct (Hd t' eq_refl) as [v ->]. simpl pre_verified.
  mrun. destruct v; [|done]. change (fee_or_0 (set_pre_verified true t)) with (fee_or_0 t). mrun.
  destruct (hex_decode (from t)) as [sd|] eqn:Ef; [|done]. destruct (hex_decode (to t)) as [rc|] eqn:Et; [|done].
  mrun. unfold checked_add, checked_sub.
  destruct (Z.leb_spec (amount t + fee_or_0 t) U128_MAX); [|done]. mrun.
  destruct (Z.ltb_spec (Acct.balance (account_in s (ex_overlay x) sd)) (amount t + fee_or_0 t)); [done|]. mrun.
  destruct (Z.eqb_spec (Acct.nonce (account_in s (ex_overlay x) sd)) (nonce t)) as [En|]; [|done]. mrun.
  rewrite Zle_imp_le_bool by lia. mrun.
  destruct (Z.leb_spec (Acct.balance (account_in s (ex_overlay x) rc) + amount t) U128_MAX); [|done]. mrun.
  intros [= <-]. exists sd, rc. constructor; [done..|]. by rewrite En.
Qed.

(** A transfer the proposer accepts is one the followers apply, to the same
    effect. *)
Lemma overlay_direct (s : S) (idx : nat) t b x x' : serialize_signed_tx t = Ok b ->
  apply_signed_tx_overlay s b (Z.of_nat idx) x = (Ok tt, x') -> apply_direct s idx t x = (Ok tt, x').
Proof.
  intros Eb E. destruct (overlay_accepted s _ t b x x' Eb E) as (sd & rc & [Ef Et En Ht Hb Hc ->]).
  unfold apply_direct, mbind, M_bind, lift, get. rewrite Ef, Et. mrun. unfold saturating_add.
  rewrite Z.min_r by done. rewrite En, Z.ltb_irrefl, Z.gtb_ltb, Z.ltb_irrefl.
  destruct (Z.ltb_spec (Acct.balance (account_in s (ex_overlay x) sd)) (amount t + fee_or_0 t)); [lia|].
  by rewrite Z.min_r by done.
Qed.

Lemma all_direct (s : S) l x x' : apply_all s l x = (Ok tt, x') ->
  for_each (fun p => apply_direct s p.1 p.2) l x = (Ok tt, x').
Proof.
  revert x; induction l as [|[i t] l IH]; intros x; [done|]. cbn [apply_all for_each fst snd].
  unfold mbind, M_bind, lift. destruct (serialize_signed_tx t) as [b|] eqn:Eb; [|done].
  destruct (apply_signed_tx_overlay s b (Z.of_nat i) x) as [[[]|] x1] eqn:E; [|done].
  rewrite (overlay_direct s i t b x x1 Eb E). apply IH.
Qed.

(** C4: The followers reproduce the proposer.  When the proposer's strict
    execution of a block succeeds, the lenient execution that the followers
    run on the certified block, from the same accounts and whatever the order
    of the transactions, gives the same overlay and the same receipts; so the
    state and transaction roots recomputed from it are those in the header. *)
Theorem certified_reproduces_proposer (now : Z) (s : S) (block b : Block) (txs : list SignedTx)
    (o : Overlay) (r : Receipts) :
  execute_block_without_commit now s block txs = Ok (b, o, r) ->
  apply_certified_block_direct s txs = Ok (o, r) /\
  b_state_root b = compute_state_root_from_overlay o /\ b_tx_root b = compute_tx_root_from_receipts r /\
  b_hash b = compute_block_hash b.
Proof.
  unfold execute_block_without_commit, apply_certified_block_direct.
  destruct (validate_block_header now block) as [u|]; [|done].
  destruct (apply_all s (sorted_txs txs) (mkExec ∅ [])) as [[[]|e] x] eqn:E; [|done].
  rewrite (all_direct s _ _ x E). by intros [= <- <- <-].
Qed.

End Proposer.

(** ** The ledger after a certified block *)

Section Supply.
Context {S : Type} `{StorageLaws S, Hex, Sha256, Ed25519, TxBincode}.

(** A certified block above the head of its lane that holds transfers between
    different accounts, over a ledger whose supply with the fees fits 128
    bits. *)
Record block_fits (now : Z) (b : Block) (txs : list SignedTx) (gid : option string) (s : S) : Prop := {
  bf_store : store_ok s;
  bf_ledger : ledger_ok (ledger s ∅);
  bf_proper : Forall proper txs;
  bf_supply : supply (ledger s ∅) + total_fees txs < U128_MAX;
  bf_header : validate_block_header now b = Ok tt;
  bf_head : exists h, head_lookup gid s = Ok h /\ advances h b;
}.

Lemma commit_fits now b txs peer gid (s : S) : block_fits now b txs gid s ->
  let charged := (block_settle s txs).2 in
  let paid_out := total_fees txs - total_fees txs / 2 in
  wp (commit_pending_block now (mkPending b txs peer) None true gid)
    (fun hash s' => hash = b_hash b /\ store_ok s' /\ head_lookup gid s' = Ok (Some b) /\
       ledger s' ∅ = payout (total_fees txs) (b_proposer b) (block_settle s txs).1 /\
       supply (ledger s' ∅) = supply (ledger s ∅) - charged + paid_out)
    (fun _ s' => store_ok s' /\
       (ledger s' ∅ = ledger s ∅ \/
        supply (ledger s ∅) - charged <= supply (ledger s' ∅) <= supply (ledger s ∅) - charged + paid_out /\
        head_lookup gid s' = Ok (Some b) /\
        (ledger s' ∅ = (block_settle s txs).1 \/
         ledger s' ∅ = pay TREASURY_ADDRESS (treasury_share (total_fees txs)) (block_settle s txs).1))) s.
Proof. intros [Hs Hl Hp Hb Hv (h & Hh & Ha)]. by apply (wp_commit_pending now b txs peer gid h s). Qed.

(** C1: A commit refines the abstract machine.  The store and the balances in it
    are well formed, the header of the block is valid, the block extends its
    lane, its transfers are between different accounts, and the supply with the
    fees fits 128 bits.  After it is committed as certified, the ledger is that of
    the machine, which takes the transfers in the order of sender and nonce,
    skips those whose sender cannot pay or has moved past their nonce, and pays
    the fees of the block to treasury and proposer; and the block is the head
    of its lane.  If the commit reports an error, either the ledger is
    untouched, or the block is the head of its lane and the ledger is that of
    the machine before the fees are paid or with the treasury paid alone. *)
Theorem commit_refines_ledger (now : Z) (b : Block) (txs : list SignedTx) (peer : bytes) (gid : option string) (s : S) :
  block_fits now b txs gid s ->
  match commit_pending_block now (mkPending b txs peer) None true gid s with
  | (Ok hash, s') => hash = b_hash b /\ store_ok s' /\ head_lookup gid s' = Ok (Some b) /\
      ledger s' ∅ = payout (total_fees txs) (b_proposer b) (block_settle s txs).1
  | (Err _, s') => store_ok s' /\
      (ledger s' ∅ = ledger s ∅ \/
       head_lookup gid s' = Ok (Some b) /\
       (ledger s' ∅ = (block_settle s txs).1 \/
        ledger s' ∅ = pay TREASURY_ADDRESS (treasury_share (total_fees txs)) (block_settle s txs).1))
  end.
Proof.
  intros Hf. pose proof (commit_fits now b txs peer gid s Hf) as Hw. unfold wp in Hw.
  destruct (commit_pending_block _ _ _ _ _ s) as [[hash|e] s']; naive_solver.
Qed.

(** C12: A block that extends its lane, with a valid header, whose transfers are
    between different accounts and all apply, burns half of its fees, rounded
    down, and creates nothing: that is the exact change of the supply when the
    block is committed as certified, and a failed commit creates nothing
    either.  (The store is well formed, and the supply with the fees fits 128
    bits.) *)
Theorem applied_block_burns_half (now : Z) (b : Block) (txs : list SignedTx) (peer : bytes) (gid : option string) (s : S) :
  block_fits now b txs gid s -> (block_settle s txs).2 = total_fees txs ->
  match commit_pending_block now (mkPending b txs peer) None true gid s with
  | (Ok _, s') => supply (ledger s' ∅) = supply (ledger s ∅) - total_fees txs / 2
  | (Err _, s') => supply (ledger s' ∅) <= supply (ledger s ∅)
  end.
Proof.
  intros Hf Hc. pose proof (commit_fits now b txs peer gid s Hf) as Hw. destruct Hf as [_ Hl Hp _ _ _].
  destruct (block_settle_ok s txs Hl Hp) as (_ & _ & Hn). unfold wp in Hw. rewrite Hc in Hw.
  destruct (commit_pending_block _ _ _ _ _ s) as [[hash|e] s'].
  - destruct Hw as (_ & _ & _ & _ & ->). lia.
  - destruct Hw as (_ & [->|([_ Hw] & _)]); [done|]. Z.div_mod_to_equations; lia.
Qed.

(** Nothing in a block that the ledger covers. *)
Definition uncovered (s : S) (t : SignedTx) : Prop :=
  forall sd, hex_decode (from t) = Some sd -> ~ covered (ledger s ∅) sd t.

Lemma settle_uncovered s txs : Forall (uncovered s) txs -> settle (ledger s ∅) txs = (ledger s ∅, 0).
Proof.
  induction 1 as [|t txs Ht _ IH]; [done|]. simpl. unfold settle1.
  destruct (hex_decode (from t)) as [sd|] eqn:E; [|by rewrite IH].
  destruct (hex_decode (to t)) as [rc|]; [|by rewrite IH].
  rewrite decide_False by (by apply Ht). by rewrite IH.
Qed.

(** The fees of skipped transfers are paid out.  A certified block none of
    whose transfers its senders can pay changes no balance but the
    treasury's and the proposer's, which receive half of the fees nobody was
    charged: the supply grows by that much. *)
Theorem skipped_fees_are_minted (now : Z) (b : Block) (txs : list SignedTx) (peer : bytes) (gid : option string)
    (s : S) : block_fits now b txs gid s -> Forall (uncovered s) txs ->
  match commit_pending_block now (mkPending b txs peer) None true gid s with
  | (Ok _, s') => ledger s' ∅ = payout (total_fees txs) (b_proposer b) (ledger s ∅) /\
      supply (ledger s' ∅) = supply (ledger s ∅) + (total_fees txs - total_fees txs / 2)
  | (Err _, s') => supply (ledger s ∅) <= supply (ledger s' ∅)
  end.
Proof.
  intros Hf Hu. pose proof (commit_fits now b txs peer gid s Hf) as Hw. unfold wp, block_settle in Hw.
  rewrite settle_uncovered in Hw by (by rewrite sorted_txs_perm). simpl in Hw. rewrite Z.sub_0_r in Hw.
  destruct (commit_pending_block _ _ _ _ _ s) as [[hash|e] s']; [naive_solver|].
  destruct Hw as (_ & [->|Hw]); [done|lia].
Qed.
End Supply.

(** ** Transfers to oneself *)

Section Self.
Context {S : Type} `{BlockAndAccountStorage S, Hex, Sha256, Ed25519, TxBincode, !TxBincodeLaws}.

Lemma account_in_put s o a x y : account_in s (put_pair a a x y o) a = y.
Proof. unfold account_in, put_pair. by rewrite lookup_insert_eq. Qed.

Lemma overlay_self (s : S) idx t bts a x : serialize_signed_tx t = Ok bts -> deserialize_signed_tx bts = Ok t ->
  pre_verified t = true -> hex_decode (from t) = Some a -> hex_decode (to t) = Some a ->
  let acc := account_in s (ex_overlay x) a in
  Acct.nonce acc = nonce t -> tx_ok t -> amount t + fee_or_0 t <= Acct.balance acc ->
  Acct.balance acc + amount t <= U128_MAX ->
  exists x', apply_signed_tx_overlay s bts idx x = (Ok tt, x') /\
    account_in s (ex_overlay x') a = Acct.mkAccount (Acct.balance acc + amount t) (nonce t).
Proof.
  intros Eb Ed Hv Hf Ht acc Hn Hok Hb Hm. unfold apply_signed_tx_overlay, bail_if, mbind, M_bind, lift, get.
  unfold serialize_signed_tx in Eb. rewrite ok_or_Ok in Eb.
  rewrite bool_decide_eq_false_2 by (intros ->; by apply bincode_nonempty in Eb). mrun.
  rewrite Ed. mrun. rewrite Hv. mrun. rewrite Hf, Ht. mrun. fold acc. pose proof (tx_ok_fee t Hok). destruct Hok as [Ha _].
  unfold checked_add, checked_sub. rewrite (Zle_imp_le_bool (_ + _)) by mlia. mrun.
  destruct (Z.ltb_spec (Acct.balance acc) (amount t + fee_or_0 t)); [lia|]. mrun.
  rewrite Hn, Z.eqb_refl. mrun. rewrite !Zle_imp_le_bool by lia. mrun.
  eexists. split; [done|]. mrun. by rewrite account_in_put.
Qed.

(** A transfer to oneself mints its amount and can be replayed.  Nothing
    excludes equal sender and recipient, and the recipient's account is
    written last: a signed transfer of an account to itself leaves the nonce
    as it was and adds the amount.  A block with [k] copies of one such
    transfer adds [k] times the amount; the proposer accepts it and so does
    every follower. *)
Theorem self_transfer_mints (s : S) (t : SignedTx) (bts a : bytes) (k : nat) :
  serialize_signed_tx t = Ok bts -> deserialize_signed_tx bts = Ok t -> pre_verified t = true ->
  hex_decode (from t) = Some a -> hex_decode (to t) = Some a -> tx_ok t ->
  let acc := account_in s ∅ a in
  Acct.nonce acc = nonce t -> amount t + fee_or_0 t <= Acct.balance acc ->
  Acct.balance acc + Z.of_nat k * amount t <= U128_MAX ->
  exists x, apply_all s (sorted_txs (replicate k t)) (mkExec ∅ []) = (Ok tt, x) /\
    account_in s (ex_overlay x) a = Acct.mkAccount (Acct.balance acc + Z.of_nat k * amount t) (nonce t) /\
    apply_certified_block_direct s (replicate k t) = Ok (ex_overlay x, ex_receipts x).
Proof.
  intros Eb Ed Hv Hf Ht Hok acc Hn Hb Hm.
  assert (forall l x, Forall (fun p : nat * SignedTx => p.2 = t) l ->
    Acct.nonce (account_in s (ex_overlay x) a) = nonce t ->
    amount t + fee_or_0 t <= Acct.balance (account_in s (ex_overlay x) a) ->
    Acct.balance (account_in s (ex_overlay x) a) + Z.of_nat (length l) * amount t <= U128_MAX ->
    exists x', apply_all s l x = (Ok tt, x') /\ account_in s (ex_overlay x') a =
      Acct.mkAccount (Acct.balance (account_in s (ex_overlay x) a) + Z.of_nat (length l) * amount t) (nonce t)) as Hl.
  { destruct Hok as [Ha Hok']. pose proof (conj Ha Hok') as Hok. clear Hm Hb Hn acc.
    induction l as [|[i t'] l IH]; intros x Hall Hn Hb Hm.
    - exists x. split; [done|]. destruct (account_in s (ex_overlay x) a). simpl in *. f_equal; [lia|done].
    - apply Forall_cons in Hall as [Hi Hall]. simpl in Hi, Hm. subst t'. cbn [apply_all length].
      destruct (overlay_self s (Z.of_nat i) t bts a x) as (x1 & E1 & Ex1); [mach_unfold; lia || done..|].
      destruct (IH x1 Hall) as (x2 & E2 & Ex2); [rewrite Ex1; simpl; mach_unfold; lia || done..|].
      exists x2. unfold mbind, M_bind, lift. rewrite Eb, E1. split; [done|].
      rewrite Ex2, Ex1. simpl. f_equal. lia. }
  assert (length (sorted_txs (replicate k t)) = k) as Hk.
  { rewrite <- (length_fmap snd), sorted_txs_perm. apply length_replicate. }
  assert (Forall (fun p : nat * SignedTx => p.2 = t) (sorted_txs (replicate k t))) as Hall.
  { pose proof (Forall_replicate_eq k t) as Hr. rewrite <- (sorted_txs_perm (replicate k t)) in Hr.
    rewrite Forall_fmap in Hr. eapply Forall_impl; [exact Hr|]. by intros p <-. }
  destruct (Hl _ (mkExec ∅ []) Hall Hn Hb) as (x & E & Ex); [by rewrite Hk|]. rewrite Hk in Ex.
  exists x. split; [done|]. split; [done|]. unfold apply_certified_block_direct. by rewrite (all_direct s _ _ x E).
Qed.
End Self.

(** ** Blocks that arrive late *)

Section Late.
Context {S : Type} `{StorageLaws S, Hex, Sha256, Ed25519, TxBincode}.

(** Accounts of [s] keep balance and data, and their nonce does not fall. *)
Definition no_money_moved (s s' : S) : Prop :=
  forall k a, accts s !! k = Some a -> exists a', accts s' !! k = Some a' /\
    sa_balance a' = sa_balance a /\ sa_data a' = sa_data a /\ sa_nonce a <= sa_nonce a'.

Definition late_inv (s s' : S) : Prop := store_ok s' /\ no_money_moved s s' /\ same_heads s s'.

Lemma late_inv_same s s1 s2 : late_inv s s1 -> store_ok s2 /\ accts s2 = accts s1 /\ same_heads s1 s2 -> late_inv s s2.
Proof.
  intros (_ & Hm & Hh) (Hs & Ea & Hh'). split; [done|]. split; [|intros g; by rewrite Hh'].
  unfold no_money_moved. by rewrite Ea.
Qed.

Lemma wp_ignore {A E} (m : M S E A) (P : S -> Prop) R s :
  wp m (fun _ => P) (fun _ => P) s -> wp (E := E) (ignore m) (fun _ => P) R s.
Proof. unfold wp, ignore. by destruct (m s) as [[|] s']. Qed.

Lemma wp_bump_nonce s p s1 : late_inv s s1 ->
  wp (bump_nonce p) (fun _ => late_inv s) (fun _ _ => False) s1.
Proof.
  intros Hi. unfold bump_nonce. apply wp_bind, wp_get. destruct Hi as (Hs & Hm & Hh).
  rewrite get_account_law by done. simpl ok_flatten. case_match eqn:En; [|by apply wp_ret].
  apply wp_ignore, (wp_storage_op _ _ (late_inv s)). eapply wp_mono; [by apply put_account_law| |].
  - intros [] s2 (Hs2 & Ea & Hh2). split; [done|]. split; [|intros g; by rewrite Hh2].
    intros k a Hk. rewrite Ea. destruct (Hm k a Hk) as (a1 & Ha1 & Hb & Hd & Hn).
    destruct (decide (k = p.1)) as [->|Hne]; [|rewrite lookup_insert_ne by done; eauto].
    rewrite lookup_insert_eq. eexists. split; [done|]. rewrite Ha1 in *. simpl in *. split; [done|]. split; [done|]. lia.
  - intros e s2 Hs2. eapply late_inv_same; [|exact Hs2]. done.
Qed.

Lemma wp_index_tx s height t s1 : late_inv s s1 ->
  wp (index_tx height t) (fun _ => late_inv s) (fun _ _ => False) s1.
Proof.
  intros Hi. unfold index_tx. destruct (serialize_signed_tx t) as [b|]; [|by apply wp_ret].
  apply wp_bind. eapply wp_mono_ok.
  - apply wp_ignore, (wp_storage_op _ _ (late_inv s)). pose proof (proj1 Hi).
    eapply wp_mono; [by apply tx_law|..]; intros ? s2 Hs2; by apply (late_inv_same s s1 s2 Hi).
  - intros [] s2 Hi2. apply wp_ignore, (wp_storage_op _ _ (late_inv s)). pose proof (proj1 Hi2).
    eapply wp_mono; [by apply inclusion_law|..]; intros ? s3 Hs3; by apply (late_inv_same s s2 s3 Hi2).
Qed.

(** A block at or below the head moves no money.  Its commit always succeeds
    and indexes its transactions as included, but it writes no balance of an
    existing account: only nonces rise, so that senders cannot send the lost
    transfers again. *)
Theorem late_block_moves_no_money (now : Z) (b head : Block) (o : Overlay) (r : Receipts) (txs : list SignedTx)
    (gid : option string) (s : S) :
  store_ok s -> validate_block_header now b = Ok tt -> head_lookup gid s = Ok (Some head) ->
  b_height b <= b_height head ->
  exists s', execute_and_commit_block_for_group now b o r txs gid s = (Ok tt, s') /\
    store_ok s' /\ no_money_moved s s' /\ same_heads s s'.
Proof.
  intros Hs Hv Hh Hle.
  assert (wp (execute_and_commit_block_for_group now b o r txs gid) (fun _ => late_inv s) (fun _ _ => False) s) as Hw.
  { unfold execute_and_commit_block_for_group. rewrite Hv. apply wp_bind, wp_lift; [|done]. intros [] _.
    apply wp_bind, wp_get. rewrite Hh. destruct (Z.gtb_spec (b_height b) (b_height head)); [lia|]. cbn [negb].
    assert (late_inv s s) as Hi by (split; [done|]; split; [intros k a Hk; by exists a|by intros g]).
    apply wp_bind. eapply wp_mono_ok; [apply (wp_for_each (late_inv s)); [|exact Hi]|].
    - intros p s1. apply wp_bump_nonce.
    - intros [] s1 Hi1. apply (wp_for_each (late_inv s)); [|exact Hi1]. intros t s2. apply wp_index_tx. }
  unfold wp in Hw. destruct (execute_and_commit_block_for_group _ _ _ _ _ _ s) as [[[]|e] s']; [|done].
  exists s'. split; [done|exact Hw].
Qed.
End Late.

(** ** What a certificate says about transactions *)

Section Certified.
Context {S : Type} `{BlockAndAccountStorage S, Hex, Sha256, Ed25519, TxBincode}.

(** The same transfer, whoever signed it. *)
Definition same_transfer (t t' : SignedTx) : Prop :=
  from t = from t' /\ to t = to t' /\ amount t = amount t' /\ nonce t = nonce t' /\ fee t = fee t'.

Lemma sorted_txs_map (f : SignedTx -> SignedTx) txs : (forall t, same_transfer t (f t)) ->
  sorted_txs (f <$> txs) = prod_map id f <$> sorted_txs txs.
Proof.
  intros Hf. symmetry. apply sorted_txs_unique.
  - pose proof (sorted_txs_sorted txs) as Hs. induction Hs as [|p l _ IH Hp]; [constructor|].
    rewrite fmap_cons. constructor; [done|]. apply Forall_fmap. eapply Forall_impl; [exact Hp|].
    intros q. unfold exec_le. destruct (Hf p.2) as (E1 & _ & _ & E2 & _), (Hf q.2) as (E3 & _ & _ & E4 & _).
    simpl. by rewrite <- E1, <- E2, <- E3, <- E4.
  - unfold sorted_txs. rewrite merge_sort_Permutation. rewrite fmap_imap, imap_fmap. done.
Qed.

Lemma direct_map (f : SignedTx -> SignedTx) (s : S) l x : (forall t, same_transfer t (f t)) ->
  for_each (fun p => apply_direct s p.1 p.2) (prod_map id f <$> l) x = for_each (fun p => apply_direct s p.1 p.2) l x.
Proof.
  intros Hf. revert x; induction l as [|[i t] l IH]; intros x; [done|]. cbn [for_each fmap list_fmap fst snd prod_map id].
  assert (apply_direct s i (f t) = apply_direct s i t) as ->.
  { destruct (Hf t) as (E1 & E2 & E3 & E4 & E5). unfold apply_direct, fee_or_0. by rewrite <- E1, <- E2, <- E3, <- E4, <- E5. }
  unfold mbind, M_bind. destruct (apply_direct s i t x) as [[u|e] x']; [apply IH|done].
Qed.

(** The certificate of a block binds none of its transactions.  Prepared with
    the roots, the parent and the time of a certificate, a message yields the
    same block whatever transactions come with it, and they are the ones that
    wait to be executed; and the execution of a certified block reads no
    signature: with any signatures, keys and flags it is the same. *)
Theorem certificate_binds_no_transaction (now ts : Z) (s : S) (msg : BlockMessage) (peer sr tr ph : bytes)
    (p : PendingBlockData) (txs' : list bytes) (f : SignedTx -> SignedTx) :
  sr <> zeros 32 -> 0 < ts ->
  prepare_remote_block now s msg peer (Some (sr, tr)) (Some ph) (Some ts) = Ok (Some p) ->
  (forall t, same_transfer t (f t)) ->
  let msg' := mkMsg (m_hash msg) (m_header msg) txs' in
  prepare_remote_block now s msg' peer (Some (sr, tr)) (Some ph) (Some ts) =
    Ok (Some (mkPending (pd_block p) (decode_block_txs msg') peer)) /\
  (forall txs, apply_certified_block_direct s (f <$> txs) = apply_certified_block_direct s txs).
Proof.
  intros Hsr Hts Hp Hf msg'. split.
  - assert (forall txs1 txs2, certified_block s (Some (sr, tr)) (Some ph) (Some ts) (block_from_message now msg txs1) =
      certified_block s (Some (sr, tr)) (Some ph) (Some ts) (block_from_message now msg' txs2)) as Eb.
    { intros txs1 txs2. unfold certified_block, block_from_message.
      rewrite (bool_decide_eq_false_2 (sr = _)) by done. simpl. by destruct (Z.gtb_spec ts 0); [|lia]. }
    unfold prepare_remote_block in *. rewrite <- (Eb (signed_to_public_transactions (decode_block_txs msg))).
    set (b := certified_block _ _ _ _ _) in *. destruct (validate_block_header now b); [|done].
    destruct (match get_block _ s with Ok (Some _) => _ | _ => false end); [done|].
    destruct ((_ >? 0) && _); [done|]. by injection Hp as <-.
  - intros txs. unfold apply_certified_block_direct. by rewrite sorted_txs_map, direct_map.
Qed.
End Certified.

(** ** The in-memory node always commits *)

Section MemCommit.
Context `{HashOrder, Hex, Sha256, Ed25519, TxBincode}.

(** Computations that return without an error. *)
Definition succeeds {S E A : Type} (m : M S E A) (s : S) : Prop := wp m (fun _ _ => True) (fun _ _ => False) s.

Lemma succeeds_bind {S E A B} (m : M S E A) (f : A -> M S E B) s :
  succeeds m s -> (forall a s', succeeds (f a) s') -> succeeds (m ≫= f) s.
Proof. intros Hm Hf. apply wp_bind. eapply wp_mono_ok; [exact Hm|]. intros a s' _. apply Hf. Qed.

Lemma succeeds_ignore {S E A} (m : M S E A) s : succeeds (ignore m) s.
Proof. done. Qed.

Lemma succeeds_for_each {S E A} (m : A -> M S E unit) l s :
  (forall x s, x ∈ l -> succeeds (m x) s) -> succeeds (for_each m l) s.
Proof.
  revert s; induction l as [|x l IH]; intros s Hm; [done|]. apply succeeds_bind; [apply Hm; by left|].
  intros [] s'. apply IH. intros y s2 Hy. apply Hm. by right.
Qed.

Lemma succeeds_serialize l (s : Store) : Forall (fun t => is_ok (serialize_signed_tx t) = true) l ->
  succeeds (serialize_all l) s.
Proof.
  intros Hl. revert s; induction Hl as [|t l Ht _ IH]; intros s; [done|]. cbn [serialize_all].
  apply succeeds_bind; [unfold serialize_or_bail; by destruct (serialize_signed_tx t)|].
  intros b s'. by apply succeeds_bind.
Qed.

Lemma succeeds_direct (s : Store) p x : is_Some (hex_decode (from p.2)) -> is_Some (hex_decode (to p.2)) ->
  succeeds (apply_direct s p.1 p.2) x.
Proof.
  intros [sd Hs] [rc Hr]. unfold apply_direct. rewrite Hs, Hr.
  do 2 (apply succeeds_bind; [done|intros ? ?]). apply succeeds_bind; [done|]. intros ? ?.
  case_match; [done|]. by case_match.
Qed.

Lemma succeeds_credit a n (s : Store) : succeeds (credit_fee a n) s.
Proof. unfold credit_fee. case_match; [|done]. by apply succeeds_bind. Qed.

Lemma succeeds_pay (s : Store) F p : succeeds (if F >? 0 then distribute_block_fees F p else mret tt) s.
Proof.
  case_match; [|done]. unfold distribute_block_fees. case_match; [done|].
  apply succeeds_bind; intros; apply succeeds_credit.
Qed.

(** On the in-memory store the commit of a certified block always succeeds,
    late or not, whatever the ledger: addresses that are hexadecimal, a valid
    header and transactions that serialise are all it takes. *)
Theorem mem_commit_succeeds (now : Z) (b : Block) (txs : list SignedTx) (peer : bytes) (gid : option string) (s : Store) :
  validate_block_header now b = Ok tt ->
  Forall (fun t => is_Some (hex_decode (from t)) /\ is_Some (hex_decode (to t)) /\
                   is_ok (serialize_signed_tx t) = true) txs ->
  exists s', commit_pending_block now (mkPending b txs peer) None true gid s = (Ok (b_hash b), s').
Proof.
  intros Hv Ht. assert (Forall (fun t => is_ok (serialize_signed_tx t) = true) txs) as Hser.
  { eapply Forall_impl; [exact Ht|]. by intros t (_ & _ & ?). }
  assert (exists o r, apply_certified_block_direct s txs = Ok (o, r)) as (o & r & E).
  { unfold apply_certified_block_direct.
    assert (succeeds (for_each (fun p => apply_direct s p.1 p.2) (sorted_txs txs)) (mkExec ∅ [])) as Hw.
    { apply succeeds_for_each. intros p x Hp. rewrite Forall_forall in Ht. destruct (Ht p.2) as (? & ? & _).
      - rewrite <- sorted_txs_perm. by apply list_elem_of_fmap_2.
      - by apply succeeds_direct. }
    unfold succeeds, wp in Hw. destruct (for_each _ _ _) as [[u|e] x]; [by eexists _, _|done]. }
  assert (forall b' s1, b' = b -> succeeds (execute_and_commit_block_for_group now b' o r txs gid) s1) as Hc.
  { intros b' s1 ->. unfold execute_and_commit_block_for_group. rewrite Hv. apply succeeds_bind; [done|]. intros [] s2.
    apply succeeds_bind; [done|]. intros s3 s4. case_match.
    - apply succeeds_bind; [apply succeeds_for_each; intros p s5 _|intros [] s5; apply succeeds_for_each; intros t s6 _].
      + unfold bump_nonce. apply succeeds_bind; [done|]. intros ? ?. destruct (_ >? _); [apply succeeds_ignore|done].
      + unfold index_tx. destruct (serialize_signed_tx t); [|done]. apply succeeds_bind; [apply succeeds_ignore|]. intros ? ?. apply succeeds_ignore.
    - apply succeeds_bind; [by apply succeeds_serialize|]. intros ws s5. unfold succeeds, storage_op, zoom, wp, id.
      pose proof (wp_mem_commit (mkCommit b (stored s3 <$> bytes_iter o) r ws ((fun p : bytes * bytes => (p.1, b_height b)) <$> ws) gid) s5) as Hw.
      unfold wp in Hw. by destruct (commit_block_batch _ s5) as [[[]|e] s6]. }
  assert (wp (commit_pending_block now (mkPending b txs peer) None true gid) (fun hash _ => hash = b_hash b)
    (fun _ _ => False) s) as Hw.
  { unfold commit_pending_block. apply wp_bind, wp_get, wp_bind. cbn [pd_signed_txs pd_block]. rewrite E.
    apply wp_lift; [|done]. intros p [= <-]. apply wp_bind. eapply wp_mono_ok; [by apply Hc|]. intros ? s1 _.
    apply wp_bind. eapply wp_mono_ok.
    - apply (succeeds_pay s1 (block_fees txs) (b_proposer b)).
    - intros ? s2 _. by apply wp_bind, wp_ret, wp_ret. }
  unfold wp in Hw. destruct (commit_pending_block _ _ _ _ _ s) as [[hash|e] s']; [|done]. exists s'. by subst.
Qed.
End MemCommit.

(** ** Witnesses *)

Section Witnesses.
Definition wit_order : HashOrder := {| hash_order _ l := l |}.
Definition wit_other : bytes := replicate 32 xbb.

Definition wit_txs : list SignedTx := [toy_transfer wit_other 1 3; toy_transfer wit_other 0 2].
Definition wit_self : SignedTx := toy_transfer toy_key 0 1.
Definition wit_bincode : TxBincode := toy_bincode (wit_self :: wit_txs).

#[local] Existing Instances toy_sha256_32 wit_order toy_ed25519 wit_bincode.

Lemma wit_bincode_laws : @TxBincodeLaws wit_bincode.
Proof. by apply toy_bincode_laws. Qed.
#[local] Existing Instance wit_bincode_laws.

Definition wit_block (h : Z) : Block :=
  mkBlock (x01 :: zeros 63) h 3000000 (x02 :: zeros 63) (x03 :: zeros 31) (x04 :: zeros 31) (zeros 32) (zeros 64)
    (zeros 64) (zeros 64) 1.
Definition wit_store : Store := mkStore {[ toy_key := mkSa 100 0 [] ]} ∅ ∅ ∅.
Definition wit_poor : Store := mkStore {[ toy_key := mkSa 1 0 [] ]} ∅ ∅ ∅.

Lemma wit_ok rc n f : in_range U64_MAX n -> in_range U128_MAX f -> tx_ok (toy_transfer rc n f).
Proof. intros Hn Hf. split; [by split|]. split; [done|]. by intros ? [= <-]. Qed.

Lemma wit_proper n f : in_range U64_MAX n -> in_range U128_MAX f -> proper (toy_transfer wit_other n f).
Proof. intros Hn Hf. split; [by apply wit_ok|]. exists toy_key, wit_other. by vm_compute. Qed.

Lemma wit_fits (s : Store) : s = wit_store \/ s = wit_poor -> block_fits 3000000 (wit_block 1) wit_txs None s.
Proof.
  intros Hs. constructor.
  - destruct Hs as [-> | ->]; apply map_Forall_empty.
  - destruct Hs as [-> | ->]; (split; [by apply (bool_decide_unpack _); vm_compute|by vm_compute]).
  - apply Forall_cons; split; [by apply wit_proper|]. apply Forall_cons; split; [by apply wit_proper|done].
  - destruct Hs as [-> | ->]; by vm_compute.
  - by vm_compute.
  - exists None. split; [|done]. by destruct Hs as [-> | ->].
Qed.

Lemma wit_poor_balance : Acct.balance (account_of (ledger wit_poor ∅) toy_key) = 1.
Proof. by vm_compute. Qed.

Lemma wit_uncovered n f : in_range U128_MAX f -> uncovered wit_poor (toy_transfer wit_other n f).
Proof.
  intros Hf sd. change (from (toy_transfer wit_other n f)) with (hex_encode toy_key). rewrite hex_decode_encode.
  intros [= <-] [_ Hb]. rewrite wit_poor_balance in Hb. unfold fee_or_0 in Hb. simpl in Hb. mlia.
Qed.

Definition wit_head : Store := mkStore {[ toy_key := mkSa 100 0 [] ]} {[ 5 := wit_block 5 ]} ∅ ∅.
Definition wit_msg : BlockMessage := mkMsg (x01 :: zeros 63) (mkHeader 1 (zeros 32) 3000000 (zeros 64)) [].

Lemma wit_run1 :
  is_ok (execute_block_without_commit 3000000 wit_store (wit_block 1) wit_txs) = true.
Proof. by vm_compute. Qed.
Lemma wit_run2 :
  is_ok (commit_pending_block 3000000 (mkPending (wit_block 1) wit_txs []) None true None wit_store).1 = true.
Proof. by vm_compute. Qed.
Lemma wit_run3 :
  is_ok (commit_pending_block 3000000 (mkPending (wit_block 1) wit_txs []) None true None wit_poor).1 = true.
Proof. by vm_compute. Qed.
Lemma wit_run4 :
  is_ok (apply_certified_block_direct wit_head wit_txs) = true.
Proof. by vm_compute. Qed.
Lemma wit_run5 :
  is_ok (prepare_remote_block 3000000 wit_store wit_msg [] (Some (x03 :: zeros 31, x04 :: zeros 31))
    (Some (x02 :: zeros 63)) (Some 3000000)) = true.
Proof. by vm_compute. Qed.

Lemma certified_reproduces_proposer_witness :
  exists b o r, execute_block_without_commit 3000000 wit_store (wit_block 1) wit_txs = Ok (b, o, r) /\
    o !! wit_other = Some (Acct.mkAccount 14 0) /\
    apply_certified_block_direct wit_store wit_txs = Ok (o, r).
Proof.
  destruct (run_ok _ wit_run1)
    as [[[b o] r] E].
  exists b, o, r. split; [exact E|]. destruct (certified_reproduces_proposer _ _ _ _ _ _ _ E) as [Ea _].
  split; [|exact Ea].
  assert (match apply_certified_block_direct wit_store wit_txs with
          | Ok (o, _) => o !! wit_other | Err _ => None end = Some (Acct.mkAccount 14 0)) as Ho by (by vm_compute).
  by rewrite Ea in Ho.
Defined.

Lemma commit_refines_ledger_witness :
  block_fits 3000000 (wit_block 1) wit_txs None wit_store /\
  match commit_pending_block 3000000 (mkPending (wit_block 1) wit_txs []) None true None wit_store with
  | (Ok _, s') => ledger s' ∅ = payout (total_fees wit_txs) (b_proposer (wit_block 1)) (block_settle wit_store wit_txs).1
  | (Err _, _) => False
  end.
Proof.
  split; [apply wit_fits; by left|].
  pose proof (commit_refines_ledger 3000000 (wit_block 1) wit_txs [] None wit_store (wit_fits _ ltac:(by left))) as Hr.
  destruct (run_ok_state _ wit_run2) as (hash & s' & E). rewrite E in Hr |- *. apply Hr.
Defined.

Lemma applied_block_burns_half_witness :
  total_fees wit_txs = 5 /\ supply (ledger wit_store ∅) = 100 /\ (block_settle wit_store wit_txs).2 = total_fees wit_txs /\
  match commit_pending_block 3000000 (mkPending (wit_block 1) wit_txs []) None true None wit_store with
  | (Ok _, s') => supply (ledger s' ∅) = supply (ledger wit_store ∅) - total_fees wit_txs / 2
  | (Err _, s') => supply (ledger s' ∅) <= supply (ledger wit_store ∅)
  end.
Proof.
  split; [by vm_compute|]. split; [by vm_compute|].
  assert ((block_settle wit_store wit_txs).2 = total_fees wit_txs) as Hc by (by vm_compute). split; [exact Hc|].
  pose proof (applied_block_burns_half 3000000 (wit_block 1) wit_txs [] None wit_store
    (wit_fits _ (or_introl eq_refl)) Hc) as Hr.
  destruct (run_ok_state _ wit_run2) as (hash & s' & E). rewrite E in Hr |- *. exact Hr.
Defined.

Lemma skipped_fees_are_minted_witness :
  match commit_pending_block 3000000 (mkPending (wit_block 1) wit_txs []) None true None wit_poor with
  | (Ok _, s') => supply (ledger s' ∅) = supply (ledger wit_poor ∅) + (total_fees wit_txs - total_fees wit_txs / 2)
  | (Err _, _) => False
  end /\ total_fees wit_txs - total_fees wit_txs / 2 = 3.
Proof.
  split; [|by vm_compute]. pose proof (skipped_fees_are_minted 3000000 (wit_block 1) wit_txs [] None wit_poor (wit_fits _ ltac:(by right))) as Hr.
  destruct (run_ok_state _ wit_run3) as (hash & s' & E). rewrite E in Hr |- *. destruct Hr as [_ Hr]; [|exact Hr].
  repeat apply Forall_cons_2; [apply wit_uncovered; mlia..|apply Forall_nil_2].
Defined.

Lemma self_transfer_mints_witness :
  exists o r, apply_certified_block_direct wit_store (replicate 3 wit_self) = Ok (o, r) /\
    account_in wit_store o toy_key = Acct.mkAccount 121 0.
Proof.
  destruct (self_transfer_mints wit_store wit_self (zeros 8) toy_key 3) as (x & _ & Ex & Ec).
  1-5, 7-9: by vm_compute.
  - by apply wit_ok.
  - exists (ex_overlay x), (ex_receipts x). split; [exact Ec|]. rewrite Ex. by vm_compute.
Defined.


Lemma late_block_moves_no_money_witness :
  exists o r s', apply_certified_block_direct wit_head wit_txs = Ok (o, r) /\
    execute_and_commit_block_for_group 3000000 (wit_block 1) o r wit_txs None wit_head = (Ok tt, s') /\
    no_money_moved wit_head s'.
Proof.
  destruct (run_ok _ wit_run4) as [[o r] E].
  destruct (late_block_moves_no_money 3000000 (wit_block 1) (wit_block 5) o r wit_txs None wit_head)
    as (s' & Ec & _ & Hm & _).
  - apply map_Forall_singleton. done.
  - by vm_compute.
  - by vm_compute.
  - by vm_compute.
  - exists o, r, s'. split; [exact E|]. split; [exact Ec|exact Hm].
Defined.

(** The transfers of a stranger, unsigned. *)
Definition wit_unsigned (t : SignedTx) : SignedTx := mkTx (from t) (to t) (amount t) (nonce t) (fee t) None [] [] false.

Lemma certificate_binds_no_transaction_witness :
  prepare_remote_block 3000000 wit_store (mkMsg (m_hash wit_msg) (m_header wit_msg) [to_le_bytes 8 2]) []
      (Some (x03 :: zeros 31, zeros 32)) (Some (x02 :: zeros 63)) (Some 3000000) = Err (Validation ZeroTxRoot) /\
  (exists p, prepare_remote_block 3000000 wit_store (mkMsg (m_hash wit_msg) (m_header wit_msg) [to_le_bytes 8 2]) []
      (Some (x03 :: zeros 31, x04 :: zeros 31)) (Some (x02 :: zeros 63)) (Some 3000000) = Ok (Some p) /\
    pd_signed_txs p = [toy_transfer wit_other 0 2]) /\
  apply_certified_block_direct wit_store (wit_unsigned <$> wit_txs) = apply_certified_block_direct wit_store wit_txs.
Proof.
  split; [by vm_compute|].
  destruct (run_ok _ wit_run5) as [[p|] E]; [|by vm_compute in E].
  destruct (certificate_binds_no_transaction 3000000 3000000 wit_store wit_msg [] (x03 :: zeros 31) (x04 :: zeros 31)
    (x02 :: zeros 63) p [to_le_bytes 8 2] wit_unsigned ltac:(done) ltac:(done) E) as [Ep Ea]; [done|].
  split; [|apply Ea]. eexists. split; [exact Ep|]. by vm_compute.
Defined.

Lemma mem_commit_succeeds_witness :
  exists s', commit_pending_block 3000000 (mkPending (wit_block 1) wit_txs []) None true None wit_head =
    (Ok (x01 :: zeros 63), s').
Proof.
  apply (mem_commit_succeeds 3000000 (wit_block 1) wit_txs [] None wit_head); [by vm_compute|].
  repeat constructor; vm_compute; try done; by eexists.
Defined.
End Witnesses.

End BlockT.
