(* ===== verification/BlockStm.v ===== *)
(** * Block-STM

    [savitri-lightnode/src/p2p/block_stm.rs]: the multi-version store, the
    speculative execution of a transaction and of a block with its validation
    and re-execution passes; [execute_block_transactions] of
    [p2p/block.rs], which chooses between this executor and the direct one.

    Maps whose iteration order shows are gone through in the order of
    [HashOrder], of which only the law that it rearranges its argument is
    used.  Transaction indices are [Z]. *)

From S2P Require Import Prelude OrdMap Codec Account SignedTx BlockStore BlockExec BlockCommit BlockCorrect BlockTheorems.

(** Iteration visits every key once. *)
Class HashOrderLaws `{HashOrder} : Prop := { hash_order_perm {A} (l : list A) : hash_order l ≡ₚ l }.

Module Stm.
Import Tx BS Exec BlockC BlockT.

Inductive StmError := StmInvalidSender | StmInvalidRecipient | NonceMismatch (expected got : Z) | StmInsufficient.

Record TxView := mkView {
  reads : gmap bytes (option Acct.Account);
  writes : gmap bytes Acct.Account;
  success : bool;
  error : option StmError;
}.

Definition TxView_default : TxView := mkView ∅ ∅ false None.

Record BlockStmResult := mkStmResult {
  overlay : Overlay;
  tx_views : list TxView;
  rounds : Z;
  reexecutions : Z;
  receipts : Receipts;
}.

(** *** [MultiVersionStore] *)

Abbreviation MultiVersionStore := (gmap bytes (gmap Z Acct.Account)).

Definition write (key : bytes) (tx_idx : Z) (value : Acct.Account) (m : MultiVersionStore) : MultiVersionStore :=
  <[key := <[tx_idx := value]> (default ∅ (m !! key))]> m.

(** [range(..i).next_back()]. *)
Definition latest {A} (i : Z) (versions : gmap Z A) : option (Z * A) :=
  last (filter (fun p : Z * A => p.1 < i) (btree_iter versions)).

Definition read_latest_before (m : MultiVersionStore) (key : bytes) (tx_idx : Z) : option (Acct.Account * Z) :=
  versions ← m !! key;
  (fun p : Z * Acct.Account => (p.2, p.1)) <$> latest tx_idx versions.

Definition clear_tx (tx_idx : Z) (m : MultiVersionStore) : MultiVersionStore := delete tx_idx <$> m.

Section Stm.
Context {S : Type} `{BlockAndAccountStorage S, Hex, HashOrder}.

(** The account as of transaction [tx_idx]. *)
Definition read_account (s : S) (m : MultiVersionStore) (addr : bytes) (tx_idx : Z) : Acct.Account :=
  match read_latest_before m addr tx_idx with
  | Some (a, _) => a
  | None => default Acct.Account_default (stored_account s addr)
  end.

Definition set_error (e : StmError) (v : TxView) : TxView := mkView (reads v) (writes v) (success v) (Some e).

Definition execute_tx_speculative (s : S) (m : MultiVersionStore) (t : SignedTx) (tx_idx : Z) (v : TxView) : TxView :=
  match hex_decode (from t) with
  | None => set_error StmInvalidSender v
  | Some sender_addr =>
      match hex_decode (to t) with
      | None => set_error StmInvalidRecipient v
      | Some recipient_addr =>
          let sender_account := read_account s m sender_addr tx_idx in
          let recipient_account := read_account s m recipient_addr tx_idx in
          let reads := <[recipient_addr := Some recipient_account]> (<[sender_addr := Some sender_account]> (reads v)) in
          let v := mkView reads (writes v) (success v) (error v) in
          if negb (nonce t =? Acct.nonce sender_account)
          then set_error (NonceMismatch (Acct.nonce sender_account) (nonce t)) v
          else
            let total_debit := saturating_add U128_MAX (amount t) (fee_or_0 t) in
            if Acct.balance sender_account <? total_debit then set_error StmInsufficient v
            else
              let new_sender := Acct.mkAccount (Acct.balance sender_account - total_debit)
                                  (wrap U64_MAX (Acct.nonce sender_account + 1)) in
              let new_recipient := Acct.mkAccount
                (saturating_add U128_MAX (Acct.balance recipient_account) (amount t)) (Acct.nonce recipient_account) in
              mkView reads (put_pair sender_addr recipient_addr new_sender new_recipient (writes v)) true (error v)
      end
  end.

(** The writes of a view, recorded. *)
Definition record_writes (tx_idx : Z) (v : TxView) (m : MultiVersionStore) : MultiVersionStore :=
  fold_left (fun m (p : bytes * Acct.Account) => write p.1 tx_idx p.2 m) (hash_order (map_to_list (writes v))) m.

(** Round 1. *)
Fixpoint baseline (s : S) (m : MultiVersionStore) (i : Z) (txs : list SignedTx) : MultiVersionStore * list TxView :=
  match txs with
  | [] => (m, [])
  | t :: txs =>
      let v := execute_tx_speculative s m t i TxView_default in
      let '(m, vs) := baseline s (record_writes i v m) (i + 1) txs in
      (m, v :: vs)
  end.

(** A read that an earlier write contradicts. *)
Definition stale (m : MultiVersionStore) (i : Z) (p : bytes * option Acct.Account) : bool :=
  match read_latest_before m p.1 i with
  | Some (l, _) =>
      negb (Acct.nonce l =? from_option Acct.nonce 0 p.2) || negb (Acct.balance l =? from_option Acct.balance 0 p.2)
  | None => false
  end.

(** The validation pass. *)
Fixpoint invalid_set (m : MultiVersionStore) (i : Z) (vs : list TxView) : list Z :=
  match vs with
  | [] => []
  | v :: vs =>
      (if success v && existsb (stale m i) (hash_order (map_to_list (reads v))) then [i] else [])
      ++ invalid_set m (i + 1) vs
  end.

(** The re-execution pass. *)
Fixpoint reexecute (s : S) (signed_txs : list SignedTx) (l : list Z) (st : MultiVersionStore * list TxView) :
    MultiVersionStore * list TxView :=
  match l with
  | [] => st
  | i :: l =>
      let m := clear_tx i st.1 in
      match signed_txs !! Z.to_nat i with
      | Some t =>
          let v := execute_tx_speculative s m t i TxView_default in
          reexecute s signed_txs l (record_writes i v m, <[Z.to_nat i := v]> st.2)
      | None => st
      end
  end.

Definition stm_receipt (i : Z) (t : SignedTx) : bytes * bytes :=
  (receipt_key i, receipt_data i (from t) (to t) (amount t) (fee_or_0 t) (nonce t)).

(** The writes of the successful transactions, in the order of the block. *)
Fixpoint merge_views (i : Z) (l : list (SignedTx * TxView)) (o : Overlay) (r : Receipts) : Overlay * Receipts :=
  match l with
  | [] => (o, r)
  | (t, v) :: l =>
      if success v then
        merge_views (i + 1) l
          (fold_left (fun o (p : bytes * Acct.Account) => <[p.1 := p.2]> o) (hash_order (map_to_list (writes v))) o)
          (r ++ [stm_receipt i t])
      else merge_views (i + 1) l o r
  end.

Definition execute_block_stm (s : S) (signed_txs : list SignedTx) : BlockStmResult :=
  if bool_decide (signed_txs = []) then mkStmResult ∅ [] 0 0 []
  else
    let '(m, views) := baseline s ∅ 0 signed_txs in
    let invalid := hash_order (invalid_set m 0 views) in
    let '(m, views) := reexecute s signed_txs invalid (m, views) in
    let '(o, r) := merge_views 0 (zip signed_txs views) ∅ [] in
    mkStmResult o views (if bool_decide (invalid = []) then 1 else 2) (Z.of_nat (length invalid)) r.

(** [execute_block_transactions]. *)
Definition execute_block_transactions (s : S) (signed_txs : list SignedTx) : result ExecError (Overlay * Receipts) :=
  if (1 <? length signed_txs)%nat then
    let r := execute_block_stm s signed_txs in Ok (overlay r, receipts r)
  else apply_certified_block_direct s signed_txs.

(** ** The reference: one transaction after the other *)

(** One transaction on the overlay, [None] if it is skipped. *)
Definition apply_or_skip (s : S) (o : Overlay) (t : SignedTx) : option Overlay :=
  sender ← hex_decode (from t);
  recipient ← hex_decode (to t);
  let a := account_in s o sender in
  let r := account_in s o recipient in
  let total_debit := saturating_add U128_MAX (amount t) (fee_or_0 t) in
  if (nonce t =? Acct.nonce a) && (total_debit <=? Acct.balance a)
  then Some (put_pair sender recipient
         (Acct.mkAccount (Acct.balance a - total_debit) (wrap U64_MAX (Acct.nonce a + 1)))
         (Acct.mkAccount (saturating_add U128_MAX (Acct.balance r) (amount t)) (Acct.nonce r)) o)
  else None.

Fixpoint run_in_order (s : S) (i : Z) (txs : list SignedTx) (o : Overlay) (r : Receipts) : Overlay * Receipts :=
  match txs with
  | [] => (o, r)
  | t :: txs =>
      match apply_or_skip s o t with
      | Some o => run_in_order s (i + 1) txs o (r ++ [stm_receipt i t])
      | None => run_in_order s (i + 1) txs o r
      end
  end.
End Stm.

(** ** Versions *)

Lemma sorted_filter {A} (R : relation A) (P : A -> Prop) `{forall x, Decision (P x)} l :
  StronglySorted R l -> StronglySorted R (filter P l).
Proof.
  induction 1 as [|x l _ IH Hx]; [constructor|]. rewrite filter_cons. case_decide; [|done]. constructor; [done|].
  apply Forall_forall. intros y [_ Hy]%list_elem_of_filter. rewrite Forall_forall in Hx. by apply Hx.
Qed.

Lemma latest_ext {A} i j (m m' : gmap Z A) :
  (forall k v, k < i /\ m !! k = Some v <-> k < j /\ m' !! k = Some v) -> latest i m = latest j m'.
Proof.
  intros Hm. unfold latest. f_equal. apply entry_lt_ext; [by apply sorted_filter, btree_iter_sorted..|].
  intros [k v]. rewrite !list_elem_of_filter, !elem_of_btree_iter. apply Hm.
Qed.

Lemma latest_new {A} i v (m : gmap Z A) : (forall k w, m !! k = Some w -> k < i) ->
  latest (i + 1) (<[i := v]> m) = Some (i, v).
Proof.
  intros Hm. unfold latest. rewrite iter_insert_last by done. rewrite filter_app, last_app.
  by rewrite filter_cons_True by (simpl; lia).
Qed.

(** All versions are older than [i]. *)
Definition older (i : Z) (m : MultiVersionStore) : Prop :=
  forall key vs k v, m !! key = Some vs -> vs !! k = Some v -> k < i.

(** What the store says an overlay holds before transaction [i]. *)
Definition shows (m : MultiVersionStore) (i : Z) (o : gmap bytes Acct.Account) : Prop :=
  forall key, fst <$> read_latest_before m key i = o !! key.

Section Correct.
Context {S : Type} `{BlockAndAccountStorage S, Hex, HashOrder, !HashOrderLaws}.

(** One version [i] for every key written. *)
Lemma record_lookup i v m key : record_writes i v m !! key =
  match writes v !! key with Some a => Some (<[i := a]> (default ∅ (m !! key))) | None => m !! key end.
Proof.
  unfold record_writes. set (l := hash_order (map_to_list (writes v))).
  assert (l ≡ₚ map_to_list (writes v)) as Hp by apply hash_order_perm.
  assert (NoDup l.*1) as Hn by (rewrite Hp; apply NoDup_fst_map_to_list).
  assert (forall k a, (k, a) ∈ l <-> writes v !! k = Some a) as Hl.
  { intros k a. rewrite Hp. apply elem_of_map_to_list. }
  assert (forall m, fold_left (fun m (p : bytes * Acct.Account) => write p.1 i p.2 m) l m !! key =
    match list_to_map (M := gmap bytes Acct.Account) l !! key with
    | Some a => Some (<[i := a]> (default ∅ (m !! key))) | None => m !! key end) as Hf.
  { clear Hp Hl. induction l as [|[k a] l IH]; intros m'; [done|]. simpl in Hn. apply NoDup_cons in Hn as [Hk Hn].
    cbn [fold_left fst snd]. rewrite (IH Hn). unfold write. simpl. destruct (decide (key = k)) as [->|Hne].
    - by rewrite !lookup_insert_eq, not_elem_of_list_to_map_1 by done.
    - by rewrite !lookup_insert_ne by done. }
  rewrite Hf. destruct (list_to_map l !! key) as [a|] eqn:E.
  - apply elem_of_list_to_map_2, Hl in E. by rewrite E.
  - destruct (writes v !! key) as [a|] eqn:Ew; [|done]. apply Hl in Ew.
    apply not_elem_of_list_to_map_2 in E. apply (list_elem_of_fmap_2 fst) in Ew. by apply E in Ew.
Qed.

Lemma record_older i v m : older i m -> older (i + 1) (record_writes i v m).
Proof.
  intros Ho key vs k a. rewrite record_lookup. destruct (writes v !! key) as [b|]; [|intros E Ek; specialize (Ho _ _ _ _ E Ek); lia].
  intros [= <-] [[<- _]|[_ Ek]]%lookup_insert_Some; [lia|].
  destruct (m !! key) as [vs|] eqn:E; [specialize (Ho _ _ _ _ E Ek); lia|]. simpl in Ek. by rewrite lookup_empty in Ek.
Qed.

(** Reads of earlier transactions do not see the new versions. *)
Lemma record_before i j v m key : j <= i -> read_latest_before (record_writes i v m) key j = read_latest_before m key j.
Proof.
  intros Hj. unfold read_latest_before. rewrite record_lookup. destruct (writes v !! key) as [a|]; [|done].
  destruct (m !! key) as [vs|]; simpl.
  - f_equal. apply latest_ext. intros k b. rewrite lookup_insert_Some. split; [|naive_solver lia].
    intros [? [[<- _]|[_ ?]]]; [lia|done].
  - rewrite (latest_ext j j _ (∅ : gmap Z Acct.Account)); [done|]. intros k b. rewrite lookup_insert_Some, lookup_empty.
    split; [|by intros [_ ?]]. intros [? [[<- _]|[_ ?]]]; [lia|done].
Qed.

(** The next transaction sees them. *)
Lemma record_shows i v m o : older i m -> shows m i o -> shows (record_writes i v m) (i + 1) (writes v ∪ o).
Proof.
  intros Ho Hs key. unfold read_latest_before. rewrite record_lookup, lookup_union.
  destruct (writes v !! key) as [a|]; simpl.
  - rewrite latest_new; [by destruct (o !! key)|]. intros k b Hk. destruct (m !! key) as [vs|] eqn:E; [by eapply Ho|].
    simpl in Hk. by rewrite lookup_empty in Hk.
  - rewrite (left_id_L None _), <- (Hs key). unfold read_latest_before. destruct (m !! key) as [vs|] eqn:E; [|done].
    simpl. do 2 f_equal. apply latest_ext. intros k b. split; [|naive_solver lia]. intros [_ Hk].
    split; [by eapply Ho|done].
Qed.

(** ** Transactions *)

Lemma read_account_shows s m i o addr : shows m i o -> read_account s m addr i = account_in s o addr.
Proof.
  intros Hs. unfold read_account, account_in. rewrite <- (Hs addr). by destruct (read_latest_before m addr i) as [[a j]|].
Qed.

(** A speculative execution reads the overlay, and writes what the reference
    writes. *)
Lemma speculative_spec s m t i o : shows m i o ->
  let v := execute_tx_speculative s m t i TxView_default in
  (forall k x, reads v !! k = Some x -> x = Some (account_in s o k)) /\
  match apply_or_skip s o t with
  | Some o' => success v = true /\ o' = writes v ∪ o
  | None => success v = false /\ writes v = ∅
  end.
Proof.
  intros Hs. unfold execute_tx_speculative, apply_or_skip. destruct (hex_decode (from t)) as [sd|]; [|done].
  destruct (hex_decode (to t)) as [rc|]; [|done]. rewrite !(read_account_shows s m i o) by done. simpl.
  rewrite Z.leb_antisym.
  assert (forall k x, (<[rc := Some (account_in s o rc)]> (<[sd := Some (account_in s o sd)]> ∅) : gmap bytes _) !! k = Some x ->
    x = Some (account_in s o k)) as Hr.
  { intros k x. rewrite !lookup_insert_Some, lookup_empty. naive_solver. }
  destruct (nonce t =? _); simpl; [|done]. destruct (Acct.balance _ <? _); simpl; [done|].
  split; [done|]. split; [done|]. unfold put_pair. by rewrite <- !insert_union_l, (left_id_L ∅ (∪)).
Qed.

Lemma fold_writes (w o : gmap bytes Acct.Account) :
  fold_left (fun o (p : bytes * Acct.Account) => <[p.1 := p.2]> o) (hash_order (map_to_list w)) o = w ∪ o.
Proof.
  rewrite <- (list_to_map_to_list w) at 2. rewrite <- (list_to_map_proper (hash_order (map_to_list w)) (map_to_list w)).
  2:{ rewrite hash_order_perm. apply NoDup_fst_map_to_list. }
  2:{ apply hash_order_perm. }
  assert (NoDup (hash_order (map_to_list w)).*1) as Hn by (rewrite hash_order_perm; apply NoDup_fst_map_to_list).
  revert o; induction (hash_order (map_to_list w)) as [|[k a] l IH]; intros o; simpl in *; [by rewrite (left_id_L ∅ (∪))|].
  apply NoDup_cons in Hn as [Hk Hn]. rewrite (IH Hn), <- insert_union_r, <- insert_union_l; [done|].
  by apply not_elem_of_list_to_map_1.
Qed.

(** The writes and the overlay after transaction [i]. *)
Lemma speculative_next s m t i o : older i m -> shows m i o ->
  let v := execute_tx_speculative s m t i TxView_default in
  shows (record_writes i v m) (i + 1) (default o (apply_or_skip s o t)).
Proof.
  intros Ho Hs v. pose proof (record_shows i v m o Ho Hs) as Hn. destruct (speculative_spec s m t i o Hs) as [_ Hv].
  fold v in Hv. destruct (apply_or_skip s o t) as [o'|]; simpl; [by destruct Hv as [_ ->]|].
  destruct Hv as [_ Ew]. by rewrite Ew, (left_id_L ∅ (∪)) in Hn.
Qed.

(** Validated against any store that agrees on the past, nothing is stale. *)
Lemma speculative_fresh s m m' t i o : shows m i o ->
  (forall key, read_latest_before m' key i = read_latest_before m key i) ->
  let v := execute_tx_speculative s m t i TxView_default in
  existsb (stale m' i) (hash_order (map_to_list (reads v))) = false.
Proof.
  intros Hs He v. destruct (speculative_spec s m t i o Hs) as [Hr _]. fold v in Hr.
  apply not_true_iff_false. intros (p & Hp & Hst)%existsb_exists.
  apply list_elem_of_In in Hp. rewrite hash_order_perm in Hp. destruct p as [k x]. apply elem_of_map_to_list, Hr in Hp as ->.
  unfold stale in Hst. cbn [fst snd from_option] in Hst. rewrite He in Hst. unfold account_in in Hst.
  rewrite <- (Hs k) in Hst. destruct (read_latest_before m k i) as [[a j]|]; [|done]. simpl in Hst.
  by rewrite !Z.eqb_refl in Hst.
Qed.

Lemma baseline_spec s txs m i o r : older i m -> shows m i o ->
  let st := baseline s m i txs in
  (forall j key, j <= i -> read_latest_before st.1 key j = read_latest_before m key j) /\
  invalid_set st.1 i st.2 = [] /\
  merge_views i (zip txs st.2) o r = run_in_order s i txs o r.
Proof.
  revert m i o r; induction txs as [|t txs IH]; intros m i o r Ho Hs; [done|]. cbn [baseline].
  set (v := execute_tx_speculative s m t i TxView_default).
  pose proof (speculative_next s m t i o Ho Hs) as Hs'. fold v in Hs'.
  destruct (IH _ (i + 1) _ r (record_older i v m Ho) Hs') as (Hb & Hi & _).
  destruct (speculative_spec s m t i o Hs) as [_ Hv]. fold v in Hv.
  pose proof (fun r => proj2 (proj2 (IH _ (i + 1) _ r (record_older i v m Ho) Hs'))) as Hm.
  destruct (baseline s (record_writes i v m) (i + 1) txs) as [m' vs]; cbn [fst snd] in *.
  assert (forall j key, j <= i -> read_latest_before m' key j = read_latest_before m key j) as Hbm.
  { intros j key Hj. rewrite Hb by lia. by apply record_before. }
  split; [done|]. split.
  - cbn [invalid_set]. rewrite Hi, app_nil_r. pose proof (speculative_fresh s m m' t i o Hs) as Hf. fold v in Hf. rewrite Hf by (by intros; apply Hbm).
    by rewrite andb_false_r.
  - cbn [merge_views run_in_order zip_with]. destruct (apply_or_skip s o t) as [o'|]; simpl in Hm.
    + destruct Hv as [-> ->]. rewrite fold_writes. apply Hm.
    + destruct Hv as [-> _]. apply Hm.
Qed.

(** C11: Block-STM is sequential execution.  Whatever the order in which its maps
    are gone through, the executor computes the overlay and the receipts of
    the reference, which takes the transactions in the order of the block and
    skips those that fail; validation never rejects a transaction, so there
    is one round and nothing is executed a second time. *)
Theorem stm_is_sequential (s : S) (txs : list SignedTx) :
  let r := execute_block_stm s txs in
  (overlay r, receipts r) = run_in_order s 0 txs ∅ [] /\
  reexecutions r = 0 /\ rounds r = (if bool_decide (txs = []) then 0 else 1).
Proof.
  unfold execute_block_stm. case_bool_decide as Htx; [by subst|].
  assert (older 0 ∅) as Ho by (intros key vs k v; by rewrite lookup_empty).
  assert (shows ∅ 0 ∅) as Hs by (intros key; unfold read_latest_before; by rewrite !lookup_empty).
  destruct (baseline_spec s txs ∅ 0 ∅ [] Ho Hs) as (_ & Hi & Hm).
  destruct (baseline s ∅ 0 txs) as [m vs]; cbn [fst snd] in *. rewrite Hi.
  assert (hash_order (A := Z) [] = []) as -> by (apply Permutation_nil_r, hash_order_perm).
  cbn [reexecute]. rewrite Hm. by destruct (run_in_order s 0 txs ∅ []).
Qed.

(** ** The three executors compared *)

Section Compare.
Context `{Sha256, Ed25519, TxBincode, !TxBincodeLaws}.

Lemma accepted_not_skipped (s : S) idx t sd rc x x' :
  accepted s idx t sd rc x x' -> apply_or_skip s (ex_overlay x) t = Some (ex_overlay x').
Proof.
  intros [Ef Et En Ht Hb Hc ->]. unfold apply_or_skip, saturating_add. rewrite Ef, Et. simpl.
  rewrite !Z.min_r by done. rewrite En, Z.eqb_refl, Zle_imp_le_bool by done. done.
Qed.

Lemma all_in_order (s : S) txs n x x' i r : apply_all s (imap (fun k t => (n + k, t)%nat) txs) x = (Ok tt, x') ->
  (run_in_order s i txs (ex_overlay x) r).1 = ex_overlay x'.
Proof.
  revert n x i r; induction txs as [|t txs IH]; intros n x i r; cbn [imap apply_all run_in_order]; [by intros [= <-]|].
  unfold mbind, M_bind, lift. destruct (serialize_signed_tx t) as [b|] eqn:Eb; [|done].
  destruct (apply_signed_tx_overlay s b _ x) as [[[]|] x1] eqn:E; [|done].
  destruct (overlay_accepted s _ t b x x1 Eb E) as (sd & rc & Ha). rewrite (accepted_not_skipped _ _ _ _ _ _ _ Ha).
  intros Ex. apply (IH (Datatypes.S n)). rewrite <- Ex. f_equal. apply imap_ext. intros k u _. simpl. f_equal. lia.
Qed.

(** Block-STM agrees with the proposer on sorted blocks.  If the transactions
    of a block are already in the order of sender and nonce and the
    proposer's execution succeeds, Block-STM computes its overlay, and hence
    its state root. *)
Theorem stm_agrees_when_sorted (now : Z) (s : S) (block b : Block) (txs : list SignedTx) (o : Overlay) (r : Receipts) :
  sorted_txs txs = imap pair txs -> execute_block_without_commit now s block txs = Ok (b, o, r) ->
  overlay (execute_block_stm s txs) = o /\
  compute_state_root_from_overlay (overlay (execute_block_stm s txs)) = b_state_root b.
Proof.
  intros Hs. unfold execute_block_without_commit. destruct (validate_block_header now block); [|done]. rewrite Hs.
  destruct (apply_all s (imap pair txs) (mkExec ∅ [])) as [[[]|] x] eqn:E; [|done]. intros [= <- <- <-].
  assert (overlay (execute_block_stm s txs) = ex_overlay x) as ->; [|done].
  destruct (stm_is_sequential s txs) as [Eo _].
  transitivity ((run_in_order s 0 txs ∅ []).1); [by rewrite <- Eo|]. by apply (all_in_order s txs 0 (mkExec ∅ [])).
Qed.

(** Whether a transfer is executed depends on its company.  The direct
    executor takes a transfer whose nonce is ahead of the account on trust;
    Block-STM, which runs every block of two or more, skips it.  Alone in its
    block such a transfer is executed, with any other after it it is not. *)
Theorem executors_disagree (s : S) (t u : SignedTx) (sd rc : bytes) :
  hex_decode (from t) = Some sd -> hex_decode (to t) = Some rc ->
  Acct.nonce (account_in s ∅ sd) < nonce t ->
  saturating_add U128_MAX (amount t) (fee_or_0 t) <= Acct.balance (account_in s ∅ sd) ->
  (exists o q, execute_block_transactions s [t] = Ok (o, [q])) /\
  (exists o r, execute_block_transactions s [t; u] = Ok (o, r) /\ (r = [] \/ r = [stm_receipt 1 u])).
Proof.
  intros Ef Et Hn Hb. split.
  - unfold execute_block_transactions, apply_certified_block_direct. change (sorted_txs [t]) with [(0%nat, t)].
    cbn -[apply_direct]. unfold mbind, M_bind, apply_direct. unfold mbind, M_bind, lift, get. rewrite Ef, Et. mrun.
    destruct (Z.ltb_spec (nonce t) (Acct.nonce (account_in s ∅ sd))); [lia|].
    destruct (Z.ltb_spec (Acct.balance (account_in s ∅ sd)) (saturating_add U128_MAX (amount t) (fee_or_0 t))); [lia|].
    by eexists _, _.
  - unfold execute_block_transactions. simpl Nat.ltb. cbv iota. destruct (stm_is_sequential s [t; u]) as [E _].
    eexists _, _. split; [done|]. apply (f_equal snd) in E. simpl snd in E. rewrite E. cbn [run_in_order].
    assert (apply_or_skip s ∅ t = None) as ->.
    { unfold apply_or_skip. rewrite Ef, Et. simpl. destruct (Z.eqb_spec (nonce t) (Acct.nonce (account_in s ∅ sd))); [lia|done]. }
    destruct (apply_or_skip s ∅ u); [by right|by left].
Qed.
End Compare.

End Correct.

(** ** Witnesses *)

Section Witnesses.
#[local] Existing Instances toy_sha256_32 wit_order toy_ed25519 wit_bincode wit_bincode_laws.

Lemma wit_order_laws : @HashOrderLaws wit_order.
Proof. by constructor. Qed.
#[local] Existing Instance wit_order_laws.

Lemma stm_is_sequential_witness :
  receipts (execute_block_stm wit_store wit_txs) = [stm_receipt 1 (toy_transfer wit_other 0 2)] /\
  reexecutions (execute_block_stm wit_store wit_txs) = 0.
Proof.
  destruct (stm_is_sequential wit_store wit_txs) as (E & Er & _). split; [|exact Er].
  transitivity ((run_in_order wit_store 0 wit_txs ∅ []).2); [exact (f_equal snd E)|by vm_compute].
Defined.

Definition wit_sorted : list SignedTx := rev wit_txs.

Lemma wit_sorted_run :
  is_ok (execute_block_without_commit 3000000 wit_store (wit_block 1) wit_sorted) = true.
Proof. by vm_compute. Qed.

Lemma stm_agrees_when_sorted_witness : exists b o r,
  execute_block_without_commit 3000000 wit_store (wit_block 1) wit_sorted = Ok (b, o, r) /\
  overlay (execute_block_stm wit_store wit_sorted) = o.
Proof.
  destruct (run_ok _ wit_sorted_run) as [[[b o] r] E]. exists b, o, r. split; [exact E|].
  apply (stm_agrees_when_sorted 3000000 wit_store (wit_block 1) b wit_sorted o r); [by vm_compute|exact E].
Defined.

Lemma executors_disagree_witness :
  exists o r, execute_block_transactions wit_store [toy_transfer wit_other 1 3; wit_self] = Ok (o, r) /\
    (r = [] \/ r = [stm_receipt 1 wit_self]).
Proof.
  destruct (executors_disagree wit_store (toy_transfer wit_other 1 3) wit_self toy_key wit_other) as [_ Hd].
  1-4: by vm_compute.
  exact Hd.
Defined.
End Witnesses.

End Stm.
