(* ===== verification/Certificates.v ===== *)
(** * Certificates and the blocks that wait for them

    [savitri-lightnode/src/p2p/certificate.rs]: the two validations of a
    [ConsensusCertificate], the check of a chain of certificates, and
    [CertificatePendingBlocks], the registry of blocks that wait for their
    certificate, with its two secondary indices; the three lookups the
    certificate handler of [p2p/network/mod.rs] tries in turn.

    Clock readings are arguments: [now] in seconds for the validations, an
    [Instant] in nanoseconds for the registry.  The eviction callback is
    modelled by the list of hashes it is called with. *)

From stdpp Require Import sorting.
From Stdlib Require Import Strings.Byte.
From S2P Require Import Prelude OrdMap Codec Primitives SignedTx BlockStore BlockExec BlockCommit.

Module Cert.
Import Tx BS BC.

Record ConsensusCertificate := mkCert {
  c_block_hash : bytes;
  c_height : Z;
  c_epoch_id : Z;
  c_committee_id : Z;
  c_round : Z;
  c_voters : list bytes;
  c_aggregated_signature : bytes;
  c_timestamp : Z;
  c_group_id : string;
  c_tx_root : bytes;
}.

Inductive CertError :=
| ZeroVoters
| BelowQuorum (have required : Z)
| EmptySignature
| BadSignatureLength (len : nat)
| BadVoterLength (idx : nat)
| ZeroSignature
| InTheFuture
| TooOld
| ZeroCommittee
| InsufficientVotes (have required : Z)
| BadVoterKey (idx : nat)
| InsufficientSignatures (have required : Z)
| RoundTooHigh
| HashMismatch
| EmptyChain
| ChainGap (idx : nat)
| ChainTimestamp (idx : nat)
| ChainEpoch (idx : nat).

Definition min_voters_for_quorum (total_committee : Z) : Z := Quorum.quorum_for_voters total_committee.

Definition USIZE_wrap : Z -> Z := wrap U64_MAX.

(** [(2 * committee_size + 2) / 3] on [usize]. *)
Definition required_votes (committee_size : Z) : Z := USIZE_wrap (USIZE_wrap (committee_size * 2) + 2) / 3.

(** The index of the first voter that is not 32 bytes long. *)
Definition bad_voter (voters : list bytes) : option nat :=
  fst <$> list_find (fun v => length v <> 32%nat) voters.

(** The checks of the [aggregated_signature] field. *)
Definition check_signature_field (c : ConsensusCertificate) : result CertError unit :=
  let sig := c_aggregated_signature c in
  if bool_decide (sig = []) then Err EmptySignature
  else if negb (length sig =? 64)%nat then Err (BadSignatureLength (length sig))
  else match bad_voter (c_voters c) with Some i => Err (BadVoterLength i) | None => Ok tt end.

(** [validate_certificate_masternode]; [enforce] is the environment variable
    [SAVITRI_LN_ENFORCE_QUORUM]. *)
Definition validate_certificate_masternode (enforce : bool) (now : Z) (c : ConsensusCertificate) (committee_size : Z) :
    result CertError unit :=
  let voters := Z.of_nat (length (c_voters c)) in
  if bool_decide (c_voters c = []) then Err ZeroVoters
  else if enforce && (committee_size >? 0) && (voters <? required_votes committee_size)
  then Err (BelowQuorum voters (required_votes committee_size))
  else match check_signature_field c with
  | Err e => Err e
  | Ok _ =>
      if is_zero (c_aggregated_signature c) then Err ZeroSignature
      else if c_timestamp c >? wrap U64_MAX (now + 900) then Err InTheFuture
      else if c_timestamp c <? saturating_sub now 7200 then Err TooOld
      else if c_committee_id c =? 0 then Err ZeroCommittee
      else Ok tt
  end.

Section Validate.
Context `{Sha256, Ed25519}.

(** [VerifyingKey::from_bytes] accepts the key. *)
Variable valid_key : bytes -> bool.

Definition cert_message (c : ConsensusCertificate) : bytes :=
  c_block_hash c ++ to_le_bytes 8 (c_height c) ++ to_le_bytes 4 (c_round c) ++ to_le_bytes 8 (c_epoch_id c)
  ++ to_le_bytes 8 (c_committee_id c).

(** One signature, tried under every voter's key. *)
Fixpoint count_verified (digest sig : bytes) (i : nat) (voters : list bytes) : result CertError Z :=
  match voters with
  | [] => Ok 0
  | v :: voters =>
      if valid_key v then
        match count_verified digest sig (S i) voters with
        | Ok n => Ok (if ed25519_verify v digest sig then n + 1 else n)
        | Err e => Err e
        end
      else Err (BadVoterKey i)
  end.

Definition validate_certificate (now : Z) (c : ConsensusCertificate) (committee_size : Z) : result CertError unit :=
  let required := required_votes committee_size in
  let voters := Z.of_nat (length (c_voters c)) in
  if voters <? required then Err (InsufficientVotes voters required)
  else match check_signature_field c with
  | Err e => Err e
  | Ok _ =>
      let digest := sha256 (cert_message c) in
      if bool_decide (c_voters c = []) then Err ZeroVoters
      else match count_verified digest (c_aggregated_signature c) 0 (c_voters c) with
      | Err e => Err e
      | Ok verified =>
          if verified <? required then Err (InsufficientSignatures verified required)
          else if c_timestamp c >? wrap U64_MAX (now + 300) then Err InTheFuture
          else if c_timestamp c <? saturating_sub now 3600 then Err TooOld
          else if c_round c >? 1000 then Err RoundTooHigh
          else if c_committee_id c =? 0 then Err ZeroCommittee
          else Ok tt
      end
  end.

Definition validate_certificate_enhanced (now : Z) (c : ConsensusCertificate) (committee_size : Z)
    (expected_block_hash : option bytes) : result CertError unit :=
  match validate_certificate now c committee_size with
  | Err e => Err e
  | Ok _ =>
      match expected_block_hash with
      | Some h => if negb (bool_decide (c_block_hash c = h)) then Err HashMismatch else Ok tt
      | None => Ok tt
      end
  end.
End Validate.

(** [verify_certificate_chain]: the loop over neighbours. *)
Fixpoint check_links (i : nat) (prev : ConsensusCertificate) (l : list ConsensusCertificate) : result CertError unit :=
  match l with
  | [] => Ok tt
  | curr :: l =>
      if negb (c_height curr =? wrap U64_MAX (c_height prev + 1)) then Err (ChainGap i)
      else if c_timestamp curr <? c_timestamp prev then Err (ChainTimestamp i)
      else if c_epoch_id curr <? c_epoch_id prev then Err (ChainEpoch i)
      else check_links (S i) curr l
  end.

Definition verify_certificate_chain (certificates : list ConsensusCertificate) : result CertError unit :=
  match certificates with
  | [] => Err EmptyChain
  | c :: l => check_links 1 c l
  end.

Record CertificateSummary := mkSummary {
  s_height : Z;
  s_epoch_id : Z;
  s_committee_id : Z;
  s_round : Z;
  s_voter_count : nat;
  s_signature_length : nat;
  s_timestamp : Z;
  s_block_hash : string;
}.

Definition get_certificate_summary `{Hex} (c : ConsensusCertificate) : CertificateSummary :=
  mkSummary (c_height c) (c_epoch_id c) (c_committee_id c) (c_round c) (length (c_voters c))
    (length (c_aggregated_signature c)) (c_timestamp c) (hex_encode (c_block_hash c)).

Definition age_seconds (now : Z) (s : CertificateSummary) : Z := saturating_sub now (s_timestamp s).
Definition is_recent (now within_seconds : Z) (s : CertificateSummary) : bool := age_seconds now s <=? within_seconds.

(** ** [CertificatePendingBlocks] *)

Definition MAX_PENDING_BLOCKS : Z := 100000.
Definition PENDING_BLOCK_TIMEOUT_SECS : Z := 900.
Definition NANOS : Z := 1000000000.

Record CertificatePendingEntry := mkEntry {
  e_pending_data : PendingBlockData;
  e_height : Z;
  e_created_at : Z;
  e_source_peer : bytes;
}.

Record CertificatePendingBlocks := mkCpb {
  entries : gmap bytes CertificatePendingEntry;
  by_height_group : gmap (Z * string) bytes;
  by_height_group_tx_root : gmap (Z * string * bytes) bytes;
  committed : gmap bytes Z;
}.

Definition CertificatePendingBlocks_new : CertificatePendingBlocks := mkCpb ∅ ∅ ∅ ∅.

(** [retain(|_, v| v != hash)]. *)
Definition retain_not `{Countable K} (hash : bytes) (m : gmap K bytes) : gmap K bytes :=
  filter (fun p : K * bytes => p.2 <> hash) m.

(** An entry and the index records that point to it, removed. *)
Definition remove_entry (hash : bytes) (s : CertificatePendingBlocks) : CertificatePendingBlocks :=
  mkCpb (delete hash (entries s)) (retain_not hash (by_height_group s)) (retain_not hash (by_height_group_tx_root s))
    (committed s).

Definition is_pending (hash : bytes) (s : CertificatePendingBlocks) : bool := bool_decide (is_Some (entries s !! hash)).
Definition is_committed (hash : bytes) (s : CertificatePendingBlocks) : bool :=
  bool_decide (is_Some (committed s !! hash)).
Definition pending_count (s : CertificatePendingBlocks) : nat := size (entries s).

Definition created_le (p q : bytes * Z) : Prop := p.2 <= q.2.
#[global] Instance created_le_dec p q : Decision (created_le p q).
Proof. unfold created_le. apply _. Defined.
#[global] Typeclasses Opaque created_le.

Section Registry.
Context `{HashOrder}.

(** The iteration over [entries]. *)
Definition entries_iter (s : CertificatePendingBlocks) : list (bytes * CertificatePendingEntry) :=
  hash_order (map_to_list (entries s)).

(** What timed out, for the callback, and the registry without it and within
    its capacity. *)
Definition evict_stale_entries (now : Z) (s : CertificatePendingBlocks) : list bytes * CertificatePendingBlocks :=
  let timed_out := (filter (fun p : bytes * CertificatePendingEntry =>
    saturating_sub now (e_created_at p.2) > PENDING_BLOCK_TIMEOUT_SECS * NANOS) (entries_iter s)).*1 in
  let s := fold_left (fun s h => remove_entry h s) timed_out s in
  if Z.of_nat (size (entries s)) >? MAX_PENDING_BLOCKS then
    let by_age := merge_sort created_le
      ((fun p : bytes * CertificatePendingEntry => (p.1, e_created_at p.2)) <$> entries_iter s) in
    let to_evict := Z.to_nat (Z.of_nat (size (entries s)) - MAX_PENDING_BLOCKS) in
    (timed_out, fold_left (fun s h => remove_entry h s) (take to_evict by_age).*1 s)
  else (timed_out, s).

Definition register_pending_with_group (now : Z) (hash : bytes) (height : Z) (group_id : string)
    (pending_data : PendingBlockData) (source_peer : bytes) (s : CertificatePendingBlocks) :
    list bytes * CertificatePendingBlocks :=
  let tx_root_32 := take 32 (b_tx_root (pd_block pending_data)) in
  let '(evicted, s) := evict_stale_entries now s in
  if is_committed hash s then (evicted, s)
  else if is_pending hash s then (evicted, s)
  else
    (evicted, mkCpb (<[hash := mkEntry pending_data height now source_peer]> (entries s))
       (<[(height, group_id) := hash]> (by_height_group s))
       (<[(height, group_id, tx_root_32) := hash]> (by_height_group_tx_root s)) (committed s)).

Definition register_pending (now : Z) (hash : bytes) (height : Z) (pending_data : PendingBlockData)
    (source_peer : bytes) (s : CertificatePendingBlocks) : list bytes * CertificatePendingBlocks :=
  register_pending_with_group now hash height "" pending_data source_peer s.

(** Committed hashes are forgotten after five minutes, when there are more
    than a thousand. *)
Definition mark_committed (now : Z) (hash : bytes) (s : CertificatePendingBlocks) : CertificatePendingBlocks :=
  let c := <[hash := now]> (committed s) in
  let c := if (1000 <? size c)%nat
           then filter (fun p : bytes * Z => ~ saturating_sub now p.2 > 300 * NANOS) c else c in
  mkCpb (entries s) (by_height_group s) (by_height_group_tx_root s) c.
End Registry.

Definition take_pending (hash : bytes) (s : CertificatePendingBlocks) :
    option CertificatePendingEntry * CertificatePendingBlocks :=
  match entries s !! hash with
  | Some e => (Some e, remove_entry hash s)
  | None => (None, s)
  end.

Definition take_pending_by_height_group_tx_root (height : Z) (group_id : string) (tx_root : bytes)
    (s : CertificatePendingBlocks) : option CertificatePendingEntry * CertificatePendingBlocks :=
  let key := (height, group_id, tx_root) in
  match by_height_group_tx_root s !! key with
  | None => (None, s)
  | Some hash =>
      let s := mkCpb (entries s) (by_height_group s) (delete key (by_height_group_tx_root s)) (committed s) in
      match entries s !! hash with
      | Some e => (Some e, remove_entry hash s)
      | None => (None, s)
      end
  end.

Definition take_pending_by_height_group (height : Z) (group_id : string) (s : CertificatePendingBlocks) :
    option CertificatePendingEntry * CertificatePendingBlocks :=
  match by_height_group s !! (height, group_id) with
  | None => (None, s)
  | Some hash =>
      let s := mkCpb (entries s) (delete (height, group_id) (by_height_group s)) (by_height_group_tx_root s) (committed s) in
      match entries s !! hash with
      | Some e =>
          (Some e, mkCpb (delete hash (entries s)) (by_height_group s)
                     (retain_not hash (by_height_group_tx_root s)) (committed s))
      | None =>
          (* the legacy registration under the empty group *)
          match by_height_group s !! (height, ""%string) with
          | None => (None, s)
          | Some legacy =>
              let s := mkCpb (entries s) (delete (height, ""%string) (by_height_group s))
                         (by_height_group_tx_root s) (committed s) in
              match entries s !! legacy with
              | Some e =>
                  (Some e, mkCpb (delete legacy (entries s)) (by_height_group s)
                             (retain_not legacy (by_height_group_tx_root s)) (committed s))
              | None => (None, s)
              end
          end
      end
  end.

(** The certificate handler: by hash, by transaction root, by height. *)
Definition take_certified (c : ConsensusCertificate) (s : CertificatePendingBlocks) :
    option CertificatePendingEntry * CertificatePendingBlocks :=
  if is_committed (c_block_hash c) s then (None, s)
  else
    match take_pending (c_block_hash c) s with
    | (Some e, s) => (Some e, s)
    | (None, s) =>
        match take_pending_by_height_group_tx_root (c_height c) (c_group_id c) (take 32 (c_tx_root c)) s with
        | (Some e, s) => (Some e, s)
        | (None, s) => take_pending_by_height_group (c_height c) (c_group_id c) s
        end
    end.

(** ** What a certificate proves *)

Section Evidence.
Context `{Sha256, Ed25519}.
Variable valid_key : bytes -> bool.

(** The voter slots whose key verifies the signature. *)
Definition verified_slots (c : ConsensusCertificate) : list bytes :=
  filter (fun v => ed25519_verify v (sha256 (cert_message c)) (c_aggregated_signature c) = true) (c_voters c).

Lemma count_verified_spec digest sig i voters n : count_verified valid_key digest sig i voters = Ok n ->
  n = Z.of_nat (length (filter (fun v => ed25519_verify v digest sig = true) voters)) /\
  Forall (fun v => valid_key v = true) voters.
Proof.
  revert i n; induction voters as [|v voters IH]; intros i n; [by intros [= <-]|]. simpl.
  destruct (valid_key v) eqn:Ev; [|done]. destruct (count_verified _ _ _ _ voters) as [k|] eqn:E; [|done].
  destruct (IH _ _ E) as [-> Hv]. rewrite filter_cons. intros [= <-]. split; [|by constructor].
  destruct (ed25519_verify v digest sig); [rewrite decide_True by done|rewrite decide_False by done]; simpl; lia.
Qed.

Lemma count_verified_all digest sig i v n : valid_key v = true -> ed25519_verify v digest sig = true ->
  count_verified valid_key digest sig i (replicate n v) = Ok (Z.of_nat n).
Proof.
  intros Hk Hv. revert i; induction n as [|n IH]; intros i; [done|]. simpl. rewrite Hk, IH, Hv. f_equal. lia.
Qed.

(** An accepted certificate has quorum-many voter slots whose keys verify the
    one signature, names its committee, and is at most an hour old. *)
Theorem validate_certificate_sound (now : Z) (c : ConsensusCertificate) (committee_size : Z) :
  validate_certificate valid_key now c committee_size = Ok tt ->
  required_votes committee_size <= Z.of_nat (length (verified_slots c)) /\
  Forall (fun v => valid_key v = true /\ length v = 32%nat) (c_voters c) /\
  length (c_aggregated_signature c) = 64%nat /\ now - 3600 <= c_timestamp c /\
  c_round c <= 1000 /\ c_committee_id c <> 0.
Proof.
  unfold validate_certificate, check_signature_field. destruct (Z.ltb_spec (Z.of_nat (length (c_voters c))) (required_votes committee_size)); [done|].
  case_bool_decide; [done|]. destruct (Nat.eqb_spec (length (c_aggregated_signature c)) 64); simpl; [|done].
  destruct (bad_voter (c_voters c)) eqn:Eb; [done|]. case_bool_decide; [done|].
  destruct (count_verified _ _ _ _ _) as [n|] eqn:En; [|done]. apply count_verified_spec in En as [-> Hk].
  fold (verified_slots c). destruct (Z.ltb_spec (Z.of_nat (length (verified_slots c))) (required_votes committee_size)); [done|].
  destruct (c_timestamp c >? _); [done|]. destruct (Z.ltb_spec (c_timestamp c) (saturating_sub now 3600)); [done|].
  destruct (Z.gtb_spec (c_round c) 1000); [done|]. destruct (Z.eqb_spec (c_committee_id c) 0); [done|]. intros _.
  split; [done|]. split; [|mlia]. unfold bad_voter in Eb. apply fmap_None, list_find_None in Eb.
  apply Forall_forall. intros v Hv. rewrite Forall_forall in Hk, Eb. split; [by apply Hk|].
  destruct (decide (length v = 32%nat)) as [|Hn]; [done|]. by destruct (Eb v Hv).
Qed.

(** One key certifies for a whole committee.  Voters need not be different
    and all share one signature: whoever holds one valid key fills the voter
    list with it and has a certificate for any committee, while a certificate
    of different voters, who would each sign for themselves, has no field for
    their signatures. *)
Theorem one_voter_fills_the_committee (now committee_size : Z) (c : ConsensusCertificate) (v : bytes) :
  0 < committee_size <= U32_MAX -> valid_key v = true -> length v = 32%nat ->
  length (c_aggregated_signature c) = 64%nat ->
  ed25519_verify v (sha256 (cert_message c)) (c_aggregated_signature c) = true ->
  c_voters c = replicate (Z.to_nat committee_size) v ->
  in_range (U64_MAX - 300) now -> now - 3600 <= c_timestamp c <= now + 300 -> 0 <= c_timestamp c ->
  c_round c <= 1000 -> c_committee_id c <> 0 ->
  validate_certificate valid_key now c committee_size = Ok tt.
Proof.
  intros Hc Hk Hl Hs He Hv Hn Ht Ht0 Hr Hi.
  assert (required_votes committee_size = (committee_size * 2 + 2) / 3) as Er.
  { unfold required_votes, USIZE_wrap. rewrite !wrap_id; [done|mlia..]. }
  assert (required_votes committee_size <= committee_size) by (rewrite Er; Z.div_mod_to_equations; lia).
  unfold validate_certificate, check_signature_field. rewrite Hv, length_replicate, Z2Nat.id by lia.
  rewrite (proj2 (Z.ltb_ge _ _)) by done. rewrite bool_decide_eq_false_2 by (intros E; by rewrite E in Hs).
  rewrite Hs. simpl. assert (bad_voter (replicate (Z.to_nat committee_size) v) = None) as ->.
  { unfold bad_voter. apply fmap_None, list_find_None, Forall_replicate. by intros ?. }
  rewrite bool_decide_eq_false_2 by (destruct (Z.to_nat committee_size) eqn:E; [lia|done]).
  rewrite count_verified_all by done. rewrite Z2Nat.id by lia.
  destruct (Z.ltb_spec committee_size (required_votes committee_size)); [lia|].
  rewrite wrap_id by mlia. destruct (Z.gtb_spec (c_timestamp c) (now + 300)); [lia|].
  destruct (Z.ltb_spec (c_timestamp c) (saturating_sub now 3600)); [mlia|].
  destruct (Z.gtb_spec (c_round c) 1000); [lia|]. by destruct (Z.eqb_spec (c_committee_id c) 0).
Qed.
End Evidence.

(** The certificates of a masternode are not checked against anything.
    Unless the environment enforces the quorum, a certificate with one voter,
    any 64 bytes that are not all zero for its signature and a recent time is
    accepted for every committee, whatever block, height, round or roots it
    names and whoever the voter is. *)
Theorem masternode_certificate_unauthenticated (now committee_size : Z) (c : ConsensusCertificate) (v : bytes) :
  c_voters c = [v] -> length v = 32%nat -> length (c_aggregated_signature c) = 64%nat ->
  is_zero (c_aggregated_signature c) = false -> in_range (U64_MAX - 900) now ->
  now - 7200 <= c_timestamp c <= now + 900 -> 0 <= c_timestamp c -> c_committee_id c <> 0 ->
  forall hash height epoch round group root,
    validate_certificate_masternode false now
      (mkCert hash height epoch (c_committee_id c) round [v] (c_aggregated_signature c) (c_timestamp c) group root)
      committee_size = Ok tt.
Proof.
  intros Hv Hl Hs Hz Hn Ht Ht0 Hi hash height epoch round group root.
  unfold validate_certificate_masternode, check_signature_field. simpl c_voters. simpl c_aggregated_signature.
  rewrite bool_decide_eq_false_2 by done. simpl. rewrite bool_decide_eq_false_2 by (intros E; by rewrite E in Hs).
  rewrite Hs. simpl. assert (bad_voter [v] = None) as ->.
  { unfold bad_voter. by rewrite (proj2 (list_find_None _ _)) by (repeat constructor; tauto). }
  rewrite Hz, wrap_id by mlia. destruct (Z.gtb_spec (c_timestamp c) (now + 900)); [lia|].
  destruct (Z.ltb_spec (c_timestamp c) (saturating_sub now 7200)); [mlia|]. by destruct (Z.eqb_spec (c_committee_id c) 0).
Qed.

(** With enforcement on, too few voters are refused. *)
Lemma masternode_quorum_enforced now c committee_size : c_voters c <> [] -> 0 < committee_size ->
  Z.of_nat (length (c_voters c)) < required_votes committee_size ->
  validate_certificate_masternode true now c committee_size =
    Err (BelowQuorum (Z.of_nat (length (c_voters c))) (required_votes committee_size)).
Proof.
  intros Hv Hc Hl. unfold validate_certificate_masternode. rewrite bool_decide_eq_false_2 by done.
  by rewrite (proj2 (Z.gtb_lt _ _)), (proj2 (Z.ltb_lt _ _)) by lia.
Qed.

(** A chain that verifies has consecutive heights and neither time nor epoch
    runs back. *)
Lemma check_links_spec l : forall i prev, Forall (fun c => 0 <= c_height c < U64_MAX) (prev :: l) ->
  check_links i prev l = Ok tt ->
  forall k c, l !! k = Some c -> c_height c = c_height prev + 1 + Z.of_nat k /\
    c_timestamp prev <= c_timestamp c /\ c_epoch_id prev <= c_epoch_id c.
Proof.
  induction l as [|curr l IH]; intros i prev Hall; [done|]. simpl. apply Forall_cons in Hall as [Hp Hall].
  pose proof (proj1 (Forall_cons _ _ _) Hall) as [Hcur _].
  destruct (Z.eqb_spec (c_height curr) (wrap U64_MAX (c_height prev + 1))) as [Eh|]; simpl; [|done].
  rewrite wrap_id in Eh by mlia. destruct (Z.ltb_spec (c_timestamp curr) (c_timestamp prev)); [done|].
  destruct (Z.ltb_spec (c_epoch_id curr) (c_epoch_id prev)); [done|]. intros Hl [|k] c; simpl; [intros [= <-]; lia|].
  intros Hk. destruct (IH _ _ Hall Hl k c Hk) as (? & ? & ?). lia.
Qed.

End Cert.
