(* ===== verification/CertRegistry.v ===== *)
(** * The registry of pending blocks is consistent

    Invariants of [CertificatePendingBlocks] over every sequence of its
    operations: both secondary indices point to pending entries, of the
    height and transaction root they are filed under, and at most once to each; the number of entries is bounded.  From these: what each lookup
    returns, and what the certificate handler takes. *)

From stdpp Require Import sorting.
From Stdlib Require Import Strings.Byte.
From S2P Require Import Prelude OrdMap Codec SignedTx BlockStore BlockExec BlockCommit BlockStm Certificates.

Module CertC.
Import Tx BS BC Cert.

(** An index over the entries: every record points to an entry with the key
    [key] computes, and no entry is pointed to twice. *)
Record index_ok `{Countable K} (files : K -> CertificatePendingEntry -> Prop) (es : gmap bytes CertificatePendingEntry)
    (m : gmap K bytes) : Prop := {
  ix_files : forall k h, m !! k = Some h -> exists e, es !! h = Some e /\ files k e;
  ix_inj : forall k k' h, m !! k = Some h -> m !! k' = Some h -> k = k';
}.

Definition files_height (k : Z * string) (e : CertificatePendingEntry) : Prop := k.1 = e_height e.
Definition files_root (k : Z * string * bytes) (e : CertificatePendingEntry) : Prop :=
  k.1.1 = e_height e /\ k.2 = take 32 (b_tx_root (pd_block (e_pending_data e))).

Record registry_ok (s : CertificatePendingBlocks) : Prop := {
  ro_height : index_ok files_height (entries s) (by_height_group s);
  ro_root : index_ok files_root (entries s) (by_height_group_tx_root s);
  ro_size : Z.of_nat (size (entries s)) <= MAX_PENDING_BLOCKS + 1;
}.

Section Index.
Context `{Countable K} (files : K -> CertificatePendingEntry -> Prop).

Lemma retain_lookup h (m : gmap K bytes) k h' : retain_not h m !! k = Some h' <-> m !! k = Some h' /\ h' <> h.
Proof. unfold retain_not. by rewrite map_lookup_filter_Some. Qed.

(** Removing an entry with what points to it. *)
Lemma index_remove h es m : index_ok files es m -> index_ok files (delete h es) (retain_not h m).
Proof.
  intros [Hf Hi]. constructor.
  - intros k h' [Hk Hne]%retain_lookup. destruct (Hf k h' Hk) as (e & He & Hfe). exists e. by rewrite lookup_delete_ne.
  - intros k k' h' [Hk _]%retain_lookup [Hk' _]%retain_lookup. by apply (Hi k k' h').
Qed.

Lemma index_delete k es m : index_ok files es m -> index_ok files es (delete k m).
Proof.
  intros [Hf Hi]. constructor.
  - intros k' h [_ Hk]%lookup_delete_Some. by apply Hf.
  - intros k1 k2 h [_ Hk]%lookup_delete_Some [_ Hk']%lookup_delete_Some. by apply (Hi k1 k2 h).
Qed.

(** The only record of an entry removed, the entry can go. *)
Lemma index_delete_entry k h es m : index_ok files es m -> m !! k = Some h -> index_ok files (delete h es) (delete k m).
Proof.
  intros [Hf Hi] Hk. constructor.
  - intros k' h' [Hne Hk']%lookup_delete_Some. destruct (Hf k' h' Hk') as (e & He & Hfe). exists e.
    rewrite lookup_delete_ne; [done|]. intros <-. by apply Hne, (Hi k k' h).
  - intros k1 k2 h' [_ H1]%lookup_delete_Some [_ H2]%lookup_delete_Some. by apply (Hi k1 k2 h').
Qed.

Lemma index_insert k h e es m : index_ok files es m -> es !! h = None -> files k e ->
  index_ok files (<[h := e]> es) (<[k := h]> m).
Proof.
  intros [Hf Hi] Hn Hke. assert (forall k', m !! k' <> Some h) as Hh.
  { intros k' Hk'. destruct (Hf k' h Hk') as (e' & He' & _). congruence. }
  constructor.
  - intros k' h' [[<- <-]|[Hne Hk']]%lookup_insert_Some; [exists e; by rewrite lookup_insert_eq|].
    destruct (Hf k' h' Hk') as (e' & He' & Hfe). exists e'. rewrite lookup_insert_ne; [done|]. intros <-. by apply (Hh k').
  - intros k1 k2 h' [[<- <-]|[_ H1]]%lookup_insert_Some [[<- H2]|[_ H2]]%lookup_insert_Some; [done| | |by apply (Hi k1 k2 h')].
    + by destruct (Hh k2).
    + subst. by destruct (Hh k1).
Qed.
End Index.

Lemma remove_ok h s : registry_ok s -> registry_ok (remove_entry h s).
Proof.
  intros [Hh Hr Hn]. constructor; simpl; [by apply index_remove..|].
  unfold MAX_PENDING_BLOCKS in *. rewrite map_size_delete. destruct (entries s !! h); unfold id; lia.
Qed.

Lemma remove_all_entries l s : entries (fold_left (fun s h => remove_entry h s) l s) =
  fold_left (fun m h => delete h m) l (entries s).
Proof. revert s; induction l as [|h l IH]; intros s; [done|]. apply IH. Qed.

Lemma remove_all_ok l s : registry_ok s -> registry_ok (fold_left (fun s h => remove_entry h s) l s).
Proof. revert s; induction l as [|h l IH]; intros s Hs; [done|]. by apply IH, remove_ok. Qed.

Section Steps.
Context `{HashOrder, !HashOrderLaws}.

Lemma fold_delete_size `{Countable K} {A} (l : list K) (m : gmap K A) : NoDup l -> (forall k, k ∈ l -> is_Some (m !! k)) ->
  size (fold_left (fun m h => delete h m) l m) = (size m - length l)%nat.
Proof.
  intros Hn. revert m; induction Hn as [|k l Hk Hn IH]; intros m Hm; [simpl; lia|].
  simpl. rewrite IH.
  - rewrite map_size_delete. destruct (Hm k) as [x ->]; [by left|]. simpl. lia.
  - intros k' Hk'. rewrite lookup_delete_ne by (by intros ->). apply Hm. by right.
Qed.

Lemma entries_iter_keys s : NoDup (entries_iter s).*1.
Proof. unfold entries_iter. rewrite hash_order_perm. apply NoDup_fst_map_to_list. Qed.

Lemma elem_of_entries_iter s h e : (h, e) ∈ entries_iter s <-> entries s !! h = Some e.
Proof. unfold entries_iter. rewrite hash_order_perm. apply elem_of_map_to_list. Qed.

Lemma length_entries_iter s : length (entries_iter s) = size (entries s).
Proof. unfold entries_iter. rewrite hash_order_perm. apply length_map_to_list. Qed.

(** Eviction keeps the registry consistent and within its capacity. *)
Lemma evict_ok now s : registry_ok s ->
  registry_ok (evict_stale_entries now s).2 /\
  Z.of_nat (size (entries (evict_stale_entries now s).2)) <= MAX_PENDING_BLOCKS /\
  committed (evict_stale_entries now s).2 = committed s.
Proof.
  intros Hs. unfold evict_stale_entries.
  set (l := (filter _ (entries_iter s)).*1). set (s1 := fold_left _ l s).
  assert (registry_ok s1) as H1 by (by apply remove_all_ok).
  assert (forall l s, committed (fold_left (fun s h => remove_entry h s) l s) = committed s) as Hc.
  { clear. induction l as [|h l IH]; intros s; [done|]. simpl. by rewrite IH. }
  destruct (Z.gtb_spec (Z.of_nat (size (entries s1))) MAX_PENDING_BLOCKS); cbn [snd].
  2:{ split; [done|]. split; [lia|apply Hc]. }
  split; [by apply remove_all_ok|]. split; [|rewrite Hc; apply Hc].
  set (by_age := merge_sort created_le _).
  assert (by_age.*1 ≡ₚ (entries_iter s1).*1) as Hp.
  { unfold by_age. rewrite merge_sort_Permutation. by rewrite <- list_fmap_compose. }
  assert (NoDup by_age.*1) as Hn by (rewrite Hp; apply entries_iter_keys).
  rewrite remove_all_entries, fmap_take, fold_delete_size.
  - rewrite length_take, length_fmap. assert (length by_age = size (entries s1)) as ->.
    { rewrite <- (length_fmap fst), Hp, length_fmap. apply length_entries_iter. }
    unfold MAX_PENDING_BLOCKS in *. lia.
  - rewrite <- (take_drop (Z.to_nat (Z.of_nat (size (entries s1)) - MAX_PENDING_BLOCKS)) by_age.*1) in Hn.
    by apply NoDup_app in Hn as (? & _).
  - intros k Hk. apply elem_of_take in Hk as (i & Hi & _). apply list_elem_of_lookup_2 in Hi. rewrite Hp in Hi.
    apply list_elem_of_fmap in Hi as ([k' e] & -> & Hi). apply elem_of_entries_iter in Hi. by exists e.
Qed.

(** ** Every operation *)

Inductive op :=
| Register (now : Z) (hash : bytes) (height : Z) (group_id : string) (pd : PendingBlockData) (peer : bytes)
| MarkCommitted (now : Z) (hash : bytes)
| Take (hash : bytes)
| TakeByRoot (height : Z) (group_id : string) (root : bytes)
| TakeByHeight (height : Z) (group_id : string)
| TakeCertified (c : ConsensusCertificate).

Definition step (o : op) (s : CertificatePendingBlocks) : CertificatePendingBlocks :=
  match o with
  | Register now h ht g pd peer => (register_pending_with_group now h ht g pd peer s).2
  | MarkCommitted now h => mark_committed now h s
  | Take h => (take_pending h s).2
  | TakeByRoot ht g r => (take_pending_by_height_group_tx_root ht g r s).2
  | TakeByHeight ht g => (take_pending_by_height_group ht g s).2
  | TakeCertified c => (take_certified c s).2
  end.

Definition reachable (s : CertificatePendingBlocks) : Prop :=
  exists l, s = fold_left (fun s o => step o s) l CertificatePendingBlocks_new.

Lemma register_ok now h ht g pd peer s : registry_ok s -> registry_ok (register_pending_with_group now h ht g pd peer s).2.
Proof.
  intros Hs. unfold register_pending_with_group. destruct (evict_ok now s Hs) as (H1 & Hn & _).
  destruct (evict_stale_entries now s) as [ev s1]. simpl in H1, Hn. destruct (is_committed h s1); [done|].
  unfold is_pending. case_bool_decide as Hp; [done|]. apply eq_None_not_Some in Hp. destruct H1 as [Hh Hr _].
  constructor; simpl; [by apply index_insert..|]. unfold MAX_PENDING_BLOCKS in *. rewrite map_size_insert_None by done. lia.
Qed.

Lemma take_ok h s : registry_ok s -> registry_ok (take_pending h s).2.
Proof. intros Hs. unfold take_pending. destruct (entries s !! h); [by apply remove_ok|done]. Qed.

Lemma take_root_ok ht g r s : registry_ok s -> registry_ok (take_pending_by_height_group_tx_root ht g r s).2.
Proof.
  intros [Hh Hr Hn]. unfold take_pending_by_height_group_tx_root.
  destruct (by_height_group_tx_root s !! _) as [h|] eqn:E; [|done]. simpl.
  assert (registry_ok (mkCpb (entries s) (by_height_group s) (delete (ht, g, r) (by_height_group_tx_root s)) (committed s))) as H1.
  { constructor; simpl; [done|by apply index_delete|done]. }
  destruct (entries s !! h); [by apply remove_ok|done].
Qed.

(** The lookup by height: its record always points to an entry, so the
    fallback to the empty group is never taken. *)
Lemma take_height_eq ht g s : registry_ok s -> take_pending_by_height_group ht g s =
  match by_height_group s !! (ht, g) with
  | None => (None, s)
  | Some h => (entries s !! h, mkCpb (delete h (entries s)) (delete (ht, g) (by_height_group s))
                                 (retain_not h (by_height_group_tx_root s)) (committed s))
  end.
Proof.
  intros [[Hf _] _ _]. unfold take_pending_by_height_group. destruct (by_height_group s !! (ht, g)) as [h|] eqn:E; [|done].
  simpl. destruct (Hf _ _ E) as (e & He & _). by rewrite He.
Qed.

Lemma take_height_ok ht g s : registry_ok s -> registry_ok (take_pending_by_height_group ht g s).2.
Proof.
  intros Hs. rewrite take_height_eq by done. destruct (by_height_group s !! (ht, g)) as [h|] eqn:E; [|done].
  destruct Hs as [Hh Hr Hn]. constructor; simpl; [by apply index_delete_entry|by apply index_remove|].
  unfold MAX_PENDING_BLOCKS in *. rewrite map_size_delete. destruct (entries s !! h); unfold id; lia.
Qed.

Lemma step_ok o s : registry_ok s -> registry_ok (step o s).
Proof.
  intros Hs. destruct o; simpl; [by apply register_ok| |by apply take_ok|by apply take_root_ok|by apply take_height_ok|].
  - by destruct Hs.
  - unfold take_certified. destruct (is_committed _ s); [done|].
    pose proof (take_ok (c_block_hash c) s Hs) as H1. destruct (take_pending (c_block_hash c) s) as [[e|] s1]; [done|].
    simpl in H1. pose proof (take_root_ok (c_height c) (c_group_id c) (take 32 (c_tx_root c)) s1 H1) as H2.
    destruct (take_pending_by_height_group_tx_root _ _ _ s1) as [[e|] s2]; [done|]. by apply take_height_ok.
Qed.

Lemma registry_reachable_ok s : reachable s -> registry_ok s.
Proof.
  intros [l ->]. assert (registry_ok CertificatePendingBlocks_new) as Hnew.
  { constructor; [by constructor..|done]. }
  revert Hnew. generalize CertificatePendingBlocks_new. induction l as [|o l IH]; intros s Hs; [done|]. by apply IH, step_ok.
Qed.
(** C23: The registry is consistent and bounded.  In every registry reachable by
    registering, taking, committing and the certificate handler: every record
    of the index by height and group points to a pending block of that height,
    and every record of the index by transaction root to one of that height
    and root; neither index points to a block twice; and there are never more
    than one above the maximum of pending blocks. *)
Theorem registry_reachable (s : CertificatePendingBlocks) : reachable s ->
  (forall ht g h, by_height_group s !! (ht, g) = Some h -> exists e, entries s !! h = Some e /\ e_height e = ht) /\
  (forall ht g r h, by_height_group_tx_root s !! (ht, g, r) = Some h ->
     exists e, entries s !! h = Some e /\ e_height e = ht /\ take 32 (b_tx_root (pd_block (e_pending_data e))) = r) /\
  (forall k k' h, by_height_group s !! k = Some h -> by_height_group s !! k' = Some h -> k = k') /\
  (forall k k' h, by_height_group_tx_root s !! k = Some h -> by_height_group_tx_root s !! k' = Some h -> k = k') /\
  Z.of_nat (pending_count s) <= MAX_PENDING_BLOCKS + 1.
Proof.
  intros Hs. destruct (registry_reachable_ok s Hs) as [[Hh Hi] [Hr Hri] Hn]. split_and!; [| |exact Hi|exact Hri|exact Hn].
  - intros ht g h Hk. destruct (Hh _ _ Hk) as (e & He & Hf). by exists e.
  - intros ht g r h Hk. destruct (Hr _ _ Hk) as (e & He & Hf & Hf'). by exists e.
Qed.

(** The fallback for the empty group never runs.  A lookup by height and
    group finds what is registered under exactly that group: when nothing is,
    it returns at once, and a block registered under the empty group for the
    same height stays where it is. *)
Theorem legacy_fallback_is_dead (s : CertificatePendingBlocks) (ht : Z) (g : string) : reachable s ->
  (by_height_group s !! (ht, g) = None -> take_pending_by_height_group ht g s = (None, s)) /\
  (forall h, by_height_group s !! (ht, g) = Some h ->
     exists e, entries s !! h = Some e /\ (take_pending_by_height_group ht g s).1 = Some e).
Proof.
  intros Hs. pose proof (registry_reachable_ok s Hs) as Hok. rewrite take_height_eq by done. split; [by intros ->|].
  intros h Hh. destruct Hok as [[Hf _] _ _]. destruct (Hf _ _ Hh) as (e & He & _). rewrite Hh. by exists e.
Qed.

(** A certificate takes the block of its height, whichever it is.  When
    neither its hash nor its transaction root is registered, the handler
    takes the block last registered for its height and group: a block with
    another hash and another transaction root, that no quorum voted for. *)
Theorem certificate_takes_another_block (s : CertificatePendingBlocks) (c : ConsensusCertificate) (h : bytes) :
  reachable s -> is_committed (c_block_hash c) s = false -> is_pending (c_block_hash c) s = false ->
  by_height_group_tx_root s !! (c_height c, c_group_id c, take 32 (c_tx_root c)) = None ->
  by_height_group s !! (c_height c, c_group_id c) = Some h ->
  exists e, (take_certified c s).1 = Some e /\ entries s !! h = Some e /\ h <> c_block_hash c.
Proof.
  intros Hs Hc Hp Hr Hh. pose proof (registry_reachable_ok s Hs) as Hok. unfold is_pending in Hp.
  apply bool_decide_eq_false, eq_None_not_Some in Hp.
  unfold take_certified, take_pending, take_pending_by_height_group_tx_root. rewrite Hc, Hp, Hr.
  rewrite take_height_eq, Hh by done. destruct Hok as [[Hf _] _ _]. destruct (Hf _ _ Hh) as (e & He & _).
  exists e. split; [exact He|]. split; [done|]. intros ->. congruence.
Qed.

(** A block registered and not evicted since is found by its hash, with the
    data it was registered with, and is gone afterwards. *)
Theorem register_then_take (now : Z) (h : bytes) (ht : Z) (g : string) (pd : PendingBlockData) (peer : bytes)
    (s : CertificatePendingBlocks) :
  reachable s -> is_committed h s = false -> entries s !! h = None ->
  let s' := (register_pending_with_group now h ht g pd peer s).2 in
  (take_pending h s').1 = Some (mkEntry pd ht now peer) /\
  by_height_group s' !! (ht, g) = Some h /\
  entries (take_pending h s').2 !! h = None /\
  by_height_group (take_pending h s').2 !! (ht, g) = None.
Proof.
  intros Hs Hc Hn s'. pose proof (registry_reachable_ok s Hs) as Hok. unfold s', register_pending_with_group.
  destruct (evict_ok now s Hok) as (_ & _ & Ec). assert (entries (evict_stale_entries now s).2 !! h = None) as En.
  { unfold evict_stale_entries. destruct (_ >? _); simpl; rewrite !remove_all_entries, !fold_delete_lookup;
      repeat destruct (decide _); done. }
  destruct (evict_stale_entries now s) as [ev s1]. simpl in Ec, En. unfold is_committed in *. rewrite Ec, Hc.
  unfold is_pending. rewrite En. simpl. unfold take_pending. cbn [entries]. rewrite lookup_insert_eq. cbn -[retain_not].
  split; [done|]. split; [by rewrite lookup_insert_eq|]. split; [by rewrite lookup_delete_eq|].
  destruct (retain_not h _ !! (ht, g)) as [h'|] eqn:E; [|done]. apply retain_lookup in E as [E Hne].
  rewrite lookup_insert_eq in E. by injection E as <-.
Qed.
End Steps.

(** ** Witnesses *)

Section Witnesses.
Definition wit_order : HashOrder := {| hash_order _ l := l |}.
#[local] Existing Instance wit_order.
Lemma registry_order_laws : @HashOrderLaws wit_order.
Proof. by constructor. Qed.
#[local] Existing Instance registry_order_laws.

Definition wit_pd (root : byte) : PendingBlockData :=
  mkPending (mkBlock [] 7 0 [] [] [root] [] [] [] [] 1) [] [].
Definition wit_reg : CertificatePendingBlocks := step (Register 0 [x01] 7 "g" (wit_pd x05) []) CertificatePendingBlocks_new.
Definition wit_cert : ConsensusCertificate := mkCert [x02] 7 0 1 0 [] [] 0 "g" [x06].

Lemma wit_reachable : reachable wit_reg.
Proof. by exists [Register 0 [x01] 7 "g" (wit_pd x05) []]. Qed.

Lemma registry_reachable_witness :
  reachable wit_reg /\ Z.of_nat (pending_count wit_reg) <= MAX_PENDING_BLOCKS + 1.
Proof. split; [exact wit_reachable|]. apply (registry_reachable wit_reg wit_reachable). Defined.

Lemma legacy_fallback_is_dead_witness :
  by_height_group wit_reg !! (7, "other"%string) = None /\ take_pending_by_height_group 7 "other" wit_reg = (None, wit_reg).
Proof. split; [by vm_compute|]. apply (legacy_fallback_is_dead wit_reg 7 "other" wit_reachable). by vm_compute. Defined.

Lemma certificate_takes_another_block_witness :
  exists e, (take_certified wit_cert wit_reg).1 = Some e /\ entries wit_reg !! [x01] = Some e.
Proof.
  destruct (certificate_takes_another_block wit_reg wit_cert [x01] wit_reachable) as (e & He & Hh & _).
  1-4: by vm_compute.
  exists e. split; [exact He|exact Hh].
Defined.

Lemma register_then_take_witness :
  (take_pending [x01] wit_reg).1 = Some (mkEntry (wit_pd x05) 7 0 []).
Proof.
  apply (register_then_take 0 [x01] 7 "g" (wit_pd x05) [] CertificatePendingBlocks_new);
    [by exists []|by vm_compute|by vm_compute].
Defined.

Definition wit_key : bytes := replicate 32 x11.
Definition wit_digest : Sha256 := {| sha256 := fun b => take 32 (b ++ zeros 32) |}.
Definition wit_voted : ConsensusCertificate :=
  let c := mkCert (zeros 64) 7 0 1 0 (replicate 4 wit_key) [] 5000 "g" [] in
  mkCert (c_block_hash c) 7 0 1 0 (c_voters c) (wit_key ++ @sha256 wit_digest (cert_message c)) 5000 "g" [].
#[local] Existing Instances wit_digest toy_ed25519.

Lemma one_voter_fills_the_committee_witness :
  validate_certificate (fun _ => true) 5000 wit_voted 4 = Ok tt.
Proof.
  apply (one_voter_fills_the_committee (fun _ => true) 5000 4 wit_voted wit_key); try done; by vm_compute.
Defined.

Lemma validate_certificate_sound_witness :
  required_votes 4 <= Z.of_nat (length (verified_slots wit_voted)).
Proof. apply (validate_certificate_sound (fun _ => true) 5000 wit_voted 4). by vm_compute. Defined.

Lemma masternode_certificate_unauthenticated_witness :
  validate_certificate_masternode false 5000
    (mkCert (zeros 64) 99 3 1 7 [wit_key] (replicate 64 x01) 5000 "" []) 100 = Ok tt.
Proof.
  apply (masternode_certificate_unauthenticated 5000 100
    (mkCert [] 0 0 1 0 [wit_key] (replicate 64 x01) 5000 "" []) wit_key); try done; by vm_compute.
Defined.
End Witnesses.

End CertC.
