(* ===== verification/Dag.v ===== *)
(** * The block DAG of the light node

    [savitri-lightnode/src/p2p/dag.rs]: [DagManager], with its tips, indices,
    ordering, equivocation check, deduplication and pruning; and
    [register_block_in_dag] and [dedup_txs_against_dag] of [p2p/block.rs].

    The manager holds one lock, so an operation is one step on [DagState].
    Where the code iterates over a [HashMap] and does not sort, the order is
    that of [HashOrder]. *)

From stdpp Require Import sorting.
From S2P Require Import Prelude OrdMap Codec SignedTx BlockStore BlockStm.

Module Dag.
Import Tx BS.

Record DagBlock := mkDagBlock {
  d_hash : bytes;
  d_height : Z;
  d_group_id : string;
  d_parent_hashes : list bytes;
  d_tx_hashes : list bytes;
  d_proposer_pou_score : Z;
  d_timestamp : Z;
  d_proposer : bytes;
}.

#[global] Instance DagBlock_eq_dec : EqDecision DagBlock.
Proof. solve_decision. Defined.

Record DagFrontierTip := mkTip {
  t_hash : bytes;
  t_height : Z;
  t_group_id : string;
  t_timestamp : Z;
}.

Record DagState := mkDag {
  dag_blocks : gmap bytes DagBlock;
  tips : gmap string bytes;
  seen_tx_hashes : gset bytes;
  blocks_by_height : gmap Z (list bytes);
  max_height : Z;
  max_height_per_group : gmap string Z;
  proposer_at_height : gmap (Z * bytes) bytes;
}.

Record EquivocationProof := mkProof {
  eq_proposer : bytes;
  eq_height : Z;
  block_hash_a : bytes;
  block_hash_b : bytes;
}.

Definition DagState_new : DagState := mkDag ∅ ∅ ∅ ∅ 0 ∅ ∅.

(** The equivocation index and the proof, if there is one. *)
Definition check_equivocation (b : DagBlock) (idx : gmap (Z * bytes) bytes) :
    option EquivocationProof * gmap (Z * bytes) bytes :=
  if bool_decide (d_proposer b = zeros 32) then (None, idx)
  else
    match idx !! (d_height b, d_proposer b) with
    | Some existing =>
        (if bool_decide (existing = d_hash b) then None
         else Some (mkProof (d_proposer b) (d_height b) existing (d_hash b)), idx)
    | None => (None, <[(d_height b, d_proposer b) := d_hash b]> idx)
    end.

Definition add_block (b : DagBlock) (s : DagState) : option EquivocationProof * DagState :=
  if d_height b =? U64_MAX then (None, s)
  else
    let '(equivocation, idx) := check_equivocation b (proposer_at_height s) in
    let group_max := default 0 (max_height_per_group s !! d_group_id b) in
    let should_update :=
      match tips s !! d_group_id b with
      | Some tip => match dag_blocks s !! tip with Some t => d_height b >=? d_height t | None => true end
      | None => true
      end in
    (equivocation, mkDag
       (<[d_hash b := b]> (dag_blocks s))
       (if should_update then <[d_group_id b := d_hash b]> (tips s) else tips s)
       (list_to_set (d_tx_hashes b) ∪ seen_tx_hashes s)
       (<[d_height b := default [] (blocks_by_height s !! d_height b) ++ [d_hash b]]> (blocks_by_height s))
       (if d_height b >? max_height s then d_height b else max_height s)
       (<[d_group_id b := if d_height b >? group_max then d_height b else group_max]> (max_height_per_group s))
       idx).

(** *** Parents *)

Definition group_le (p q : string * bytes) : Prop := String.le p.1 q.1.
#[global] Instance group_le_dec p q : Decision (group_le p q).
Proof. unfold group_le. apply _. Defined.
#[global] Typeclasses Opaque group_le.

Definition get_parent_hashes (group_id : string) (s : DagState) : list bytes :=
  match tips s !! group_id with Some t => [t] | None => [] end ++
  (merge_sort group_le (map_to_list (filter (fun p : string * bytes => p.1 <> group_id) (tips s)))).*2.

Definition tip_le (a b : DagFrontierTip) : Prop :=
  t_height a < t_height b \/ t_height a = t_height b /\ bytes_le (t_hash a) (t_hash b).
#[global] Instance tip_le_dec a b : Decision (tip_le a b).
Proof. unfold tip_le. apply _. Defined.
#[global] Typeclasses Opaque tip_le.

Definition all_blocks (s : DagState) : list DagBlock := (map_to_list (dag_blocks s)).*2.

Definition referenced (s : DagState) : gset bytes :=
  list_to_set (filter (fun h => h <> zeros 64) (concat (d_parent_hashes <$> all_blocks s))).

Definition get_frontier_tips (s : DagState) : list DagFrontierTip :=
  merge_sort tip_le
    ((fun b => mkTip (d_hash b) (d_height b) (d_group_id b) (d_timestamp b)) <$>
     filter (fun b => d_hash b ∉ referenced s) (all_blocks s)).

(** [if !parents.contains(h) { parents.push(h) }] for every tip. *)
Definition push_new (parents : list bytes) (h : bytes) : list bytes :=
  if bool_decide (h ∈ parents) then parents else parents ++ [h].

Definition get_frontier_parent_candidates (group_id : string) (s : DagState) : list bytes :=
  let frontier := get_frontier_tips s in
  match frontier with
  | [] => []
  | _ =>
      let primary :=
        match list_find (fun t => t_group_id t = group_id) frontier with
        | Some (_, t) => Some (t_hash t)
        | None => t_hash <$> last frontier
        end in
      fold_left (fun parents t => push_new parents (t_hash t)) frontier (from_option (fun h => [h]) [] primary)
  end.

(** *** Queries *)

Definition get_group_tip (group_id : string) (s : DagState) : option bytes := tips s !! group_id.
Definition get_all_tips (s : DagState) : gmap string bytes := tips s.

Definition highest_key (s : DagState) : Z := from_option fst 0 (last (btree_iter (blocks_by_height s))).

Definition get_max_height (s : DagState) : Z :=
  if max_height s =? U64_MAX then highest_key s else max_height s.

Definition get_max_height_for_group (group_id : string) (s : DagState) : Z :=
  default 0 (max_height_per_group s !! group_id).

Definition is_tx_seen (tx_hash : bytes) (s : DagState) : bool := bool_decide (tx_hash ∈ seen_tx_hashes s).

Definition dedup_transactions (tx_hashes : list bytes) (s : DagState) : list bytes :=
  filter (fun h => h ∉ seen_tx_hashes s) tx_hashes.

Definition has_block (hash : bytes) (s : DagState) : bool := bool_decide (is_Some (dag_blocks s !! hash)).

Definition validate_parents (parent_hashes : list bytes) (s : DagState) : list bytes :=
  filter (fun h => dag_blocks s !! h = None /\ h <> zeros 64) parent_hashes.

(** Higher scores first, ties by hash. *)
Definition score_le (a b : DagBlock) : Prop :=
  d_proposer_pou_score b < d_proposer_pou_score a \/
  d_proposer_pou_score a = d_proposer_pou_score b /\ bytes_le (d_hash a) (d_hash b).
#[global] Instance score_le_dec a b : Decision (score_le a b).
Proof. unfold score_le. apply _. Defined.
#[global] Typeclasses Opaque score_le.

(** One height's blocks, in order. *)
Definition height_blocks (s : DagState) (hashes : list bytes) : list DagBlock :=
  merge_sort score_le (omap (fun h => dag_blocks s !! h) hashes).

Definition ordered_blocks (s : DagState) : list DagBlock :=
  concat ((fun p : Z * list bytes => height_blocks s p.2) <$> btree_iter (blocks_by_height s)).

Definition get_ordering (s : DagState) : list bytes := d_hash <$> ordered_blocks s.
Definition get_canonical_order (s : DagState) : list bytes := get_ordering s.

Definition get_block (hash : bytes) (s : DagState) : option DagBlock := dag_blocks s !! hash.

Definition get_blocks_at_height (height : Z) (s : DagState) : list DagBlock :=
  from_option (omap (fun h => dag_blocks s !! h)) [] (blocks_by_height s !! height).

(** *** Pruning *)

(** One block of a pruned height. *)
Definition prune_hash (height : Z) (st : Z * DagState) (hash : bytes) : Z * DagState :=
  let s := st.2 in
  match dag_blocks s !! hash with
  | None => st
  | Some b => (st.1 + 1, mkDag (delete hash (dag_blocks s)) (tips s)
                 (seen_tx_hashes s ∖ list_to_set (d_tx_hashes b)) (blocks_by_height s) (max_height s)
                 (max_height_per_group s) (delete (height, d_proposer b) (proposer_at_height s)))
  end.

Definition prune_height (st : Z * DagState) (height : Z) : Z * DagState :=
  let s := st.2 in
  match blocks_by_height s !! height with
  | None => st
  | Some hashes =>
      fold_left (prune_hash height) hashes
        (st.1, mkDag (dag_blocks s) (tips s) (seen_tx_hashes s) (delete height (blocks_by_height s)) (max_height s)
                 (max_height_per_group s) (proposer_at_height s))
  end.

Definition prune_below (min_height : Z) (s : DagState) : Z * DagState :=
  let heights := filter (fun h => h < min_height) (btree_iter (blocks_by_height s)).*1 in
  let '(pruned, s) := fold_left prune_height heights (0, s) in
  (pruned, mkDag (dag_blocks s) (filter (fun p : string * bytes => is_Some (dag_blocks s !! p.2)) (tips s))
     (seen_tx_hashes s) (blocks_by_height s) (highest_key s) (max_height_per_group s) (proposer_at_height s)).

Section Tips.
Context `{HashOrder}.
Definition get_tips (s : DagState) : list (string * bytes * Z) :=
  omap (fun p : string * bytes => (fun b => (p.1, p.2, d_height b)) <$> dag_blocks s !! p.2)
    (hash_order (map_to_list (tips s))).
End Tips.

Record DagStats := mkStats { total_blocks : Z; active_groups : Z; st_max_height : Z; seen_tx_count : Z }.

Definition stats (s : DagState) : DagStats :=
  mkStats (Z.of_nat (size (dag_blocks s))) (Z.of_nat (size (tips s))) (max_height s) (Z.of_nat (size (seen_tx_hashes s))).

(** ** From blocks and transactions *)

Section Register.
Context `{Sha256, TxBincode}.

Definition tx_hash_of (t : SignedTx) : option bytes :=
  match serialize_signed_tx t with Ok b => Some (take 32 (hash_signed_tx_bytes b)) | Err _ => None end.

Definition register_block_in_dag (b : Block) (signed_txs : list SignedTx) (group_id : string)
    (parent_hashes : list bytes) (proposer_pou_score : Z) (s : DagState) : option EquivocationProof * DagState :=
  add_block (mkDagBlock (b_hash b) (b_height b) group_id parent_hashes (omap tx_hash_of signed_txs)
               proposer_pou_score (b_timestamp b) (b_proposer b)) s.

(** What has no hash gets the zero hash. *)
Definition dedup_txs_against_dag (signed_txs : list SignedTx) (s : DagState) : list SignedTx :=
  let tx_hashes := (fun t => default (zeros 32) (tx_hash_of t)) <$> signed_txs in
  let unseen := dedup_transactions tx_hashes s in
  (filter (fun p : SignedTx * bytes => p.2 ∈ unseen) (zip signed_txs tx_hashes)).*1.
End Register.

End Dag.
