(* ===== verification/DagCorrect.v ===== *)
(** * The DAG as a set of blocks

    A DAG built by adding blocks is compared with the plain list of what was
    added: its ordering is a sort of that list and so does not depend on the
    order of arrival; its tips are the highest blocks of their groups; the
    equivocation check is exact; and pruning keeps exactly the blocks at or
    above the height, but forgets transactions they hold. *)

From stdpp Require Import sorting.
From Stdlib Require Import Strings.Byte.
From S2P Require Import Prelude OrdMap Codec SignedTx BlockStore BlockStm Dag.

Module DagC.
Import Tx BS Dag.

Definition add_all (bs : list DagBlock) : DagState := fold_left (fun s b => (add_block b s).2) bs DagState_new.

(** Blocks with different hashes and heights an honest chain can have. *)
Record history_ok (bs : list DagBlock) : Prop := {
  ho_hashes : NoDup (d_hash <$> bs);
  ho_heights : Forall (fun b => 0 <= d_height b < U64_MAX) bs;
}.

Lemma add_all_snoc bs b : add_all (bs ++ [b]) = (add_block b (add_all bs)).2.
Proof. unfold add_all. by rewrite fold_left_app. Qed.

Lemma history_snoc bs b : history_ok (bs ++ [b]) ->
  history_ok bs /\ (d_hash b ∉ (d_hash <$> bs)) /\ 0 <= d_height b < U64_MAX.
Proof.
  intros [Hn Hh]. rewrite fmap_app in Hn. apply NoDup_app in Hn as (Hn & Hd & _).
  apply Forall_app in Hh as [Hh Hb]. apply Forall_cons in Hb as [Hb _]. split; [by split|].
  split; [|done]. intros Hin. apply (Hd _ Hin). by left.
Qed.

(** The block is added, whatever the equivocation check says. *)
Lemma add_block_eq b s : d_height b < U64_MAX -> exists idx, proposer_at_height (add_block b s).2 = idx /\
  dag_blocks (add_block b s).2 = <[d_hash b := b]> (dag_blocks s) /\
  seen_tx_hashes (add_block b s).2 = list_to_set (d_tx_hashes b) ∪ seen_tx_hashes s /\
  blocks_by_height (add_block b s).2 =
    <[d_height b := default [] (blocks_by_height s !! d_height b) ++ [d_hash b]]> (blocks_by_height s) /\
  max_height (add_block b s).2 = Z.max (max_height s) (d_height b).
Proof.
  intros Hb. unfold add_block. destruct (Z.eqb_spec (d_height b) U64_MAX); [lia|].
  destruct (check_equivocation b (proposer_at_height s)) as [eq idx]. exists idx. simpl. split_and!; [done..|].
  destruct (Z.gtb_spec (d_height b) (max_height s)); lia.
Qed.

(** The indices hold what was added. *)
Record indexed (bs : list DagBlock) (s : DagState) : Prop := {
  in_blocks : forall h b, dag_blocks s !! h = Some b <-> b ∈ bs /\ d_hash b = h;
  in_heights : forall h, default [] (blocks_by_height s !! h) = d_hash <$> filter (fun b => d_height b = h) bs;
  in_nonempty : forall h, blocks_by_height s !! h <> Some [];
  in_seen : forall x, x ∈ seen_tx_hashes s <-> exists b, b ∈ bs /\ x ∈ d_tx_hashes b;
  in_max : forall b, b ∈ bs -> d_height b <= max_height s;
}.

Lemma add_all_indexed bs : history_ok bs -> indexed bs (add_all bs).
Proof.
  induction bs as [|b bs IH] using rev_ind; intros Hh.
  { constructor; simpl.
    - intros h b. rewrite lookup_empty. set_solver.
    - intros h. by rewrite lookup_empty.
    - intros h. by rewrite lookup_empty.
    - set_solver.
    - set_solver. }
  apply history_snoc in Hh as (Hh & Hb & Hr). destruct (IH Hh) as [Hbl Hhe Hne Hse Hmx]. rewrite add_all_snoc.
  destruct (add_block_eq b (add_all bs)) as (idx & _ & Eb & Es & Eh & Em); [lia|]. constructor.
  - intros h x. rewrite Eb, lookup_insert_Some, Hbl, elem_of_app, list_elem_of_singleton. split.
    + intros [[<- <-]|[Hne' [? <-]]]; auto.
    + intros [[Hx| ->] <-]; [|by left]. right. split; [|done]. intros E. apply Hb. rewrite E. by apply list_elem_of_fmap_2.
  - intros h. rewrite Eh, filter_app, fmap_app, <- Hhe. destruct (decide (h = d_height b)) as [->|Hn].
    + rewrite lookup_insert_eq. simpl. by rewrite filter_cons_True by done.
    + rewrite lookup_insert_ne by done. rewrite filter_cons_False by done. by rewrite app_nil_r.
  - intros h. rewrite Eh. destruct (decide (h = d_height b)) as [->|Hn].
    + rewrite lookup_insert_eq. intros [= E]. by apply app_eq_nil in E as [_ ?].
    + by rewrite lookup_insert_ne by done.
  - intros x. rewrite Es, elem_of_union, elem_of_list_to_set, Hse. set_solver.
  - intros x. rewrite Em, elem_of_app, list_elem_of_singleton. intros [Hx| ->]; [specialize (Hmx x Hx)|]; lia.
Qed.

(** ** The ordering is a sort *)

(** By height, then by score, then by hash. *)
Definition dag_le (a b : DagBlock) : Prop :=
  d_height a < d_height b \/ d_height a = d_height b /\ score_le a b.
#[global] Instance dag_le_dec a b : Decision (dag_le a b).
Proof. unfold dag_le. apply _. Defined.

#[global] Instance score_le_total : Total score_le.
Proof.
  intros a b. unfold score_le. destruct (Z.lt_total (d_proposer_pou_score a) (d_proposer_pou_score b)) as [?|[?|?]]; auto.
  destruct (total bytes_le (d_hash a) (d_hash b)); auto.
Qed.

#[global] Instance score_le_trans : Transitive score_le.
Proof.
  intros a b c. unfold score_le. intros [?|[? Hab]] [?|[? Hbc]]; [left; lia..|]. right.
  split; [lia|by trans (d_hash b)].
Qed.

#[global] Instance dag_le_total : Total dag_le.
Proof.
  intros a b. unfold dag_le. destruct (Z.lt_total (d_height a) (d_height b)) as [?|[?|?]]; auto.
  destruct (total score_le a b); auto.
Qed.

#[global] Instance dag_le_trans : Transitive dag_le.
Proof.
  intros a b c. unfold dag_le. intros [?|[? Hab]] [?|[? Hbc]]; [left; lia..|]. right.
  split; [lia|by trans b].
Qed.

Lemma dag_le_antisymm bs a b : history_ok bs -> a ∈ bs -> b ∈ bs -> dag_le a b -> dag_le b a -> a = b.
Proof.
  intros [Hn _] Ha Hb Hab Hba. assert (d_hash a = d_hash b) as E.
  { unfold dag_le, score_le in *. apply (anti_symm bytes_le); naive_solver lia. }
  apply list_elem_of_lookup in Ha as [i Hi], Hb as [j Hj]. assert (i = j) as ->; [|congruence].
  apply (NoDup_lookup _ i j (d_hash a) Hn); rewrite list_lookup_fmap; [by rewrite Hi|by rewrite Hj, E].
Qed.

Lemma omap_lookup bs s (l : list DagBlock) : indexed bs s -> (forall b, b ∈ l -> b ∈ bs) ->
  omap (fun h => dag_blocks s !! h) (d_hash <$> l) = l.
Proof.
  intros Hi. induction l as [|b l IH]; intros Hl; [done|]. rewrite fmap_cons. simpl.
  rewrite (proj2 (in_blocks _ _ Hi (d_hash b) b)) by (split; [apply Hl; by left|done]). simpl.
  f_equal. apply IH. intros x Hx. apply Hl. by right.
Qed.

Lemma height_blocks_perm bs s h l : indexed bs s -> blocks_by_height s !! h = Some l ->
  height_blocks s l ≡ₚ filter (fun b => d_height b = h) bs.
Proof.
  intros Hi Hl. unfold height_blocks. rewrite merge_sort_Permutation.
  pose proof (in_heights _ _ Hi h) as E. rewrite Hl in E. simpl in E. rewrite E, (omap_lookup bs); [done|done|].
  intros b [_ Hb]%list_elem_of_filter. done.
Qed.

Lemma elem_of_concat {A} (x : A) (ll : list (list A)) : x ∈ concat ll <-> exists l, l ∈ ll /\ x ∈ l.
Proof. rewrite list_elem_of_In, in_concat. by setoid_rewrite list_elem_of_In. Qed.

Lemma concat_sorted (l : list (Z * list DagBlock)) : StronglySorted entry_lt l ->
  (forall h g, (h, g) ∈ l -> StronglySorted score_le g /\ NoDup g /\ Forall (fun b => d_height b = h) g) ->
  StronglySorted dag_le (concat l.*2) /\ NoDup (concat l.*2).
Proof.
  induction l as [|[h g] l IH]; intros Hs Hg; simpl; [split; constructor|].
  apply entry_lt_cons_inv in Hs as [Hs Hlt]. destruct (IH Hs) as [Hl Hn]; [intros h' g' Hin; apply Hg; by right|].
  destruct (Hg h g) as (Hsg & Hng & Hh); [by left|].
  assert (forall a b, a ∈ g -> b ∈ concat l.*2 -> d_height a < d_height b) as Hab.
  { intros a b Ha Hb. rewrite Forall_forall in Hh. rewrite (Hh a Ha).
    apply elem_of_concat in Hb as (g' & Hg' & Hb). apply list_elem_of_fmap in Hg' as ([h' g''] & -> & Hin). specialize (Hlt _ _ Hin). simpl in *.
    destruct (Hg h' g'') as (_ & _ & Hh'); [by right|]. rewrite Forall_forall in Hh'. by rewrite (Hh' b Hb). }
  split.
  - apply StronglySorted_app_2; [|clear -Hsg Hh|done].
    + intros a b Ha Hb. left. by apply Hab.
    + induction Hsg as [|a g _ IHg Ha]; [constructor|]. apply Forall_cons in Hh as [Hha Hh]. constructor; [by apply IHg|].
      rewrite Forall_forall in *. intros b Hb. right. split; [by rewrite Hha, (Hh b Hb)|by apply Ha].
  - apply NoDup_app. split; [done|]. split; [|done]. intros a Ha Hb. specialize (Hab a a Ha Hb). lia.
Qed.

Lemma keys_sorted_fmap {A B} (f : A -> B) (l : list (Z * A)) : StronglySorted entry_lt l ->
  StronglySorted entry_lt ((fun p : Z * A => (p.1, f p.2)) <$> l).
Proof.
  induction 1 as [|[h x] r _ IH Hr]; [constructor|]. rewrite fmap_cons. constructor; [done|].
  apply Forall_fmap. eapply Forall_impl; [exact Hr|]. intros [h' y] Hlt. exact Hlt.
Qed.

Lemma ordered_spec bs s : history_ok bs -> indexed bs s ->
  StronglySorted dag_le (ordered_blocks s) /\ ordered_blocks s ≡ₚ bs.
Proof.
  intros Hh Hi. unfold ordered_blocks.
  set (l := (fun p : Z * list bytes => (p.1, height_blocks s p.2)) <$> btree_iter (blocks_by_height s)).
  assert (((fun p : Z * list bytes => height_blocks s p.2) <$> btree_iter (blocks_by_height s)) = l.*2) as ->.
  { unfold l. by rewrite <- list_fmap_compose. }
  assert (NoDup bs) as Hnd by (eapply (NoDup_fmap_1 d_hash), Hh).
  assert (forall h g, (h, g) ∈ l -> g ≡ₚ filter (fun b => d_height b = h) bs /\ StronglySorted score_le g) as Hl.
  { intros h g Hin. apply list_elem_of_fmap in Hin as ([h' hs] & [= -> ->] & Hin). apply elem_of_btree_iter in Hin.
    split; [by apply height_blocks_perm|]. apply StronglySorted_merge_sort; apply _. }
  destruct (concat_sorted l) as [Hs Hn].
  - apply keys_sorted_fmap, btree_iter_sorted.
  - intros h g Hin. destruct (Hl h g Hin) as [Hp Hsg]. split; [done|]. rewrite Hp.
    split; [by apply NoDup_filter|]. apply Forall_forall. by intros b [? _]%list_elem_of_filter.
  - split; [done|]. apply NoDup_Permutation; [done..|]. intros b.
    rewrite elem_of_concat. split.
    + intros (g & Hg & Hb). apply list_elem_of_fmap in Hg as ([h g'] & -> & Hin). simpl in Hb.
      rewrite (proj1 (Hl h g' Hin)) in Hb. by apply list_elem_of_filter in Hb as [_ ?].
    + intros Hb. pose proof (in_heights _ _ Hi (d_height b)) as E.
      destruct (blocks_by_height s !! d_height b) as [hs|] eqn:Eh; simpl in E.
      2:{ assert (b ∈ filter (fun x => d_height x = d_height b) bs) as Hf by (by apply list_elem_of_filter).
          symmetry in E. apply fmap_nil_inv in E. rewrite E in Hf. by apply not_elem_of_nil in Hf. }
      exists (height_blocks s hs). split.
      * apply list_elem_of_fmap. exists (d_height b, height_blocks s hs). split; [done|].
        apply list_elem_of_fmap. exists (d_height b, hs). split; [done|]. by apply elem_of_btree_iter.
      * rewrite (height_blocks_perm bs s (d_height b) hs Hi Eh). by apply list_elem_of_filter.
Qed.

Lemma history_perm bs bs' : bs' ≡ₚ bs -> history_ok bs -> history_ok bs'.
Proof. intros Hp [Hn Hh]. constructor; by rewrite Hp. Qed.

(** C20: The ordering sorts the blocks by height, score and hash, whatever the
    groups and the order of arrival: two managers that were given the same
    blocks in any order agree, and what they agree on is one sort of all the
    blocks. *)
Theorem ordering_is_sort (bs bs' : list DagBlock) : history_ok bs -> bs' ≡ₚ bs ->
  get_ordering (add_all bs') = d_hash <$> merge_sort dag_le bs.
Proof.
  intros Hh Hp. pose proof (history_perm bs bs' Hp Hh) as Hh'.
  destruct (ordered_spec bs' (add_all bs') Hh' (add_all_indexed bs' Hh')) as [Hs Hq].
  unfold get_ordering. f_equal. apply (StronglySorted_unique_strong dag_le); [|done| |].
  - intros x y Hx Hy. rewrite Hq in Hx. rewrite merge_sort_Permutation, <- Hp in Hy. by apply (dag_le_antisymm bs').
  - apply StronglySorted_merge_sort; apply _.
  - by rewrite Hq, merge_sort_Permutation.
Qed.

(** ** Tips and equivocation *)

Lemma add_block_tips b s : d_height b < U64_MAX -> tips (add_block b s).2 =
  if match tips s !! d_group_id b with
     | Some tip => match dag_blocks s !! tip with Some t => d_height b >=? d_height t | None => true end
     | None => true
     end
  then <[d_group_id b := d_hash b]> (tips s) else tips s.
Proof.
  intros Hb. unfold add_block. destruct (Z.eqb_spec (d_height b) U64_MAX); [lia|].
  by destruct (check_equivocation b (proposer_at_height s)).
Qed.

(** The tip of a group that has blocks is one of them, at their greatest
    height. *)
Theorem tip_is_highest (bs : list DagBlock) (b : DagBlock) : history_ok bs -> b ∈ bs ->
  exists t, get_group_tip (d_group_id b) (add_all bs) = Some (d_hash t) /\ t ∈ bs /\
    d_group_id t = d_group_id b /\ d_height b <= d_height t.
Proof.
  revert b; induction bs as [|x bs IH] using rev_ind; intros b Hh Hb; [by apply not_elem_of_nil in Hb|].
  apply history_snoc in Hh as (Hh & Hx & Hr). pose proof (add_all_indexed bs Hh) as Hi.
  unfold get_group_tip in *. rewrite add_all_snoc, add_block_tips by lia.
  assert (forall b, b ∈ bs -> exists t, tips (add_all bs) !! d_group_id b = Some (d_hash t) /\ t ∈ bs ++ [x] /\
    d_group_id t = d_group_id b /\ d_height b <= d_height t) as Hold.
  { intros y Hy. destruct (IH y Hh Hy) as (t & Et & Ht & Hg & Hle). exists t.
    split; [done|]. split; [rewrite elem_of_app; by left|done]. }
  assert (forall t, t ∈ bs -> dag_blocks (add_all bs) !! d_hash t = Some t) as Hlk.
  { intros t Ht. by apply (in_blocks _ _ Hi). }
  apply elem_of_app in Hb. rewrite list_elem_of_singleton in Hb.
  destruct (tips (add_all bs) !! d_group_id x) as [tip|] eqn:Et.
  - assert (exists t, t ∈ bs /\ d_hash t = tip /\ d_group_id t = d_group_id x) as (t & Ht & <- & Hg).
    { clear -Et Hh. revert tip Et. induction bs as [|y bs IH] using rev_ind; intros tip; [done|].
      apply history_snoc in Hh as (Hh & _ & Hr). rewrite add_all_snoc, add_block_tips by lia.
      assert (forall tip, tips (add_all bs) !! d_group_id x = Some tip ->
        exists t, t ∈ bs ++ [y] /\ d_hash t = tip /\ d_group_id t = d_group_id x) as Ho.
      { intros tp Hp. destruct (IH Hh tp Hp) as (t & ? & ? & ?). exists t. rewrite elem_of_app. auto. }
      case_match; [|apply Ho]. intros [[Hg <-]|[_ Hp]]%lookup_insert_Some; [|by apply Ho].
      exists y. rewrite elem_of_app, list_elem_of_singleton. auto. }
    rewrite Hlk by done. destruct (Z.geb_spec (d_height x) (d_height t)) as [Hge|Hlt].
    + destruct Hb as [Hb| ->].
      * destruct (decide (d_group_id b = d_group_id x)) as [E|E]; [|rewrite lookup_insert_ne by done; by apply Hold].
        rewrite E, lookup_insert_eq. exists x. rewrite elem_of_app, list_elem_of_singleton.
        destruct (IH b Hh Hb) as (u & Eu & Hu & Hgu & Hle). rewrite E, Et in Eu. injection Eu as Eu.
        assert (t = u) as <-. { pose proof (Hlk t Ht) as E1. pose proof (Hlk u Hu) as E2. rewrite Eu in E1. congruence. }
        split; [done|]. split; [by right|]. split; [done|]. lia.
      * rewrite lookup_insert_eq. exists x. rewrite elem_of_app, list_elem_of_singleton. split_and!; auto. lia.
    + destruct Hb as [Hb| ->]; [by apply Hold|]. rewrite Et. exists t. rewrite elem_of_app.
      split; [done|]. split; [by left|]. split; [done|]. lia.
  - destruct Hb as [Hb| ->].
    + destruct (IH b Hh Hb) as (u & Eu & _). assert (d_group_id x <> d_group_id b) as Hne by congruence.
      rewrite lookup_insert_ne by done. by apply Hold.
    + rewrite lookup_insert_eq. exists x. rewrite elem_of_app, list_elem_of_singleton. split_and!; auto. lia.
Qed.

Lemma equivocation_index bs h p : history_ok bs -> p <> zeros 32 ->
  proposer_at_height (add_all bs) !! (h, p) = d_hash <$> head (filter (fun b => d_height b = h /\ d_proposer b = p) bs).
Proof.
  intros Hh Hp. induction bs as [|b bs IH] using rev_ind; [done|]. apply history_snoc in Hh as (Hh & _ & Hr).
  specialize (IH Hh). rewrite add_all_snoc, filter_app. unfold add_block.
  destruct (Z.eqb_spec (d_height b) U64_MAX); [lia|]. unfold check_equivocation.
  case_bool_decide as Hz; simpl.
  { rewrite (filter_cons_False _ b), app_nil_r by (intros [_ E]; congruence). done. }
  destruct (decide (d_height b = h /\ d_proposer b = p)) as [[<- <-]|Hn].
  - rewrite filter_cons_True by done. rewrite IH.
    destruct (filter _ bs) as [|a l] eqn:E; simpl; [by rewrite lookup_insert_eq|]. by rewrite IH.
  - rewrite filter_cons_False, app_nil_r by done.
    destruct (proposer_at_height (add_all bs) !! (d_height b, d_proposer b)); simpl; [done|].
    rewrite lookup_insert_ne; [done|]. intros E. apply Hn. by injection E as -> ->.
Qed.

(** The equivocation check is exact: adding a block reports its proposer just
    when another block of the same proposer at the same height was added
    before, and the report names two different such blocks. *)
Theorem equivocation_exact (bs : list DagBlock) (b : DagBlock) : history_ok (bs ++ [b]) -> d_proposer b <> zeros 32 ->
  match (add_block b (add_all bs)).1 with
  | Some pr => eq_proposer pr = d_proposer b /\ eq_height pr = d_height b /\ block_hash_b pr = d_hash b /\
      exists a, a ∈ bs /\ d_hash a = block_hash_a pr /\ d_proposer a = d_proposer b /\ d_height a = d_height b /\
                d_hash a <> d_hash b
  | None => forall a, a ∈ bs -> d_proposer a = d_proposer b -> d_height a <> d_height b
  end.
Proof.
  intros Hh Hp. apply history_snoc in Hh as (Hh & Hb & Hr).
  pose proof (equivocation_index bs (d_height b) (d_proposer b) Hh Hp) as E.
  unfold add_block. destruct (Z.eqb_spec (d_height b) U64_MAX); [lia|]. unfold check_equivocation.
  rewrite bool_decide_eq_false_2 by done.
  destruct (filter (fun a => d_height a = d_height b /\ d_proposer a = d_proposer b) bs) as [|a l] eqn:Ef;
    simpl in E; rewrite E; simpl.
  - intros a Ha Hpa Hha. assert (a ∈ filter (fun a => d_height a = d_height b /\ d_proposer a = d_proposer b) bs) as Hin.
    { by apply list_elem_of_filter. }
    rewrite Ef in Hin. by apply not_elem_of_nil in Hin.
  - assert (a ∈ bs /\ d_height a = d_height b /\ d_proposer a = d_proposer b) as (Ha & Hah & Hap).
    { assert (a ∈ a :: l) as Hin by (by left). rewrite <- Ef in Hin. apply list_elem_of_filter in Hin as [[? ?] ?]. done. }
    assert (d_hash a <> d_hash b) as Hne. { intros E'. apply Hb. rewrite <- E'. by apply list_elem_of_fmap_2. }
    rewrite bool_decide_eq_false_2 by done. simpl. split_and!; [done..|]. exists a. done.
Qed.

(** ** Pruning *)

Lemma prune_hashes h l st : NoDup (d_hash <$> l) -> (forall b, b ∈ l -> dag_blocks st.2 !! d_hash b = Some b) ->
  let st' := fold_left (prune_hash h) (d_hash <$> l) st in
  st'.1 = st.1 + Z.of_nat (length l) /\
  (forall k b, dag_blocks st'.2 !! k = Some b <-> dag_blocks st.2 !! k = Some b /\ (k ∉ (d_hash <$> l))) /\
  (forall x, x ∈ seen_tx_hashes st'.2 <-> x ∈ seen_tx_hashes st.2 /\ forall b, b ∈ l -> x ∉ d_tx_hashes b) /\
  blocks_by_height st'.2 = blocks_by_height st.2 /\ tips st'.2 = tips st.2.
Proof.
  revert st; induction l as [|b l IH]; intros st Hn Hl; cbn [fmap list_fmap fold_left] in *.
  { simpl. split; [lia|]. split; [set_solver|]. split; [set_solver|done]. }
  apply NoDup_cons in Hn as [Hb Hn]. unfold prune_hash at 2 4 6 8 10. rewrite (Hl b) by (by left).
  match goal with |- context [fold_left _ _ ?st1] => destruct (IH st1 Hn) as (E1 & E2 & E3 & E4 & E5) end.
  { intros x Hx. simpl. rewrite lookup_delete_ne; [apply Hl; by right|]. intros E. apply Hb. rewrite E.
    by apply list_elem_of_fmap_2. }
  cbn [fst snd dag_blocks seen_tx_hashes blocks_by_height tips] in *. split; [rewrite E1; simpl; lia|].
  split; [|split; [|done]].
  - intros k x. rewrite E2, lookup_delete_Some, not_elem_of_cons. naive_solver.
  - intros x. rewrite E3, elem_of_difference, elem_of_list_to_set. setoid_rewrite elem_of_cons. naive_solver.
Qed.

(** After the heights [hs] are pruned. *)
Record pruned (bs : list DagBlock) (s0 : DagState) (hs : list Z) (st : Z * DagState) : Prop := {
  pr_count : st.1 = Z.of_nat (length (filter (fun b => d_height b ∈ hs) bs));
  pr_blocks : forall k b, dag_blocks st.2 !! k = Some b <-> b ∈ bs /\ d_hash b = k /\ (d_height b ∉ hs);
  pr_seen : forall x, x ∈ seen_tx_hashes st.2 <->
    x ∈ seen_tx_hashes s0 /\ forall b, b ∈ bs -> d_height b ∈ hs -> x ∉ d_tx_hashes b;
  pr_heights : forall h, h ∉ hs -> blocks_by_height st.2 !! h = blocks_by_height s0 !! h;
  pr_tips : tips st.2 = tips s0;
}.

Lemma filter_or_length (bs : list DagBlock) h hs : h ∉ hs ->
  length (filter (fun b => d_height b ∈ hs ++ [h]) bs) =
  (length (filter (fun b => d_height b ∈ hs) bs) + length (filter (fun b => d_height b = h) bs))%nat.
Proof.
  intros Hh. induction bs as [|b bs IH]; [done|]. rewrite !filter_cons.
  repeat case_decide; rewrite ?elem_of_app, ?list_elem_of_singleton in *; simpl; try lia; naive_solver.
Qed.

Lemma prune_step bs h hs st : history_ok bs -> h ∉ hs -> is_Some (blocks_by_height (add_all bs) !! h) ->
  pruned bs (add_all bs) hs st -> pruned bs (add_all bs) (hs ++ [h]) (prune_height st h).
Proof.
  intros Hh Hn [l Hl] [Hc Hb Hse Hhe Ht]. pose proof (add_all_indexed bs Hh) as Hi.
  unfold prune_height. rewrite Hhe, Hl by done.
  pose proof (in_heights _ _ Hi h) as El. rewrite Hl in El. simpl in El. rewrite El.
  set (f := filter (fun b => d_height b = h) bs) in *.
  assert (forall b, b ∈ f <-> b ∈ bs /\ d_height b = h) as Hf by (intros b; unfold f; rewrite list_elem_of_filter; tauto).
  match goal with |- context [fold_left _ _ ?st1] => destruct (prune_hashes h f st1) as (E1 & E2 & E3 & E4 & E5) end.
  - apply (sublist_NoDup _ (d_hash <$> bs)); [apply (ho_hashes _ Hh)|by apply fmap_sublist, sublist_filter].
  - intros b [Hbb Hbh]%Hf. simpl. apply Hb. split; [done|]. split; [done|]. by rewrite Hbh.
  - cbn [fst snd dag_blocks seen_tx_hashes blocks_by_height tips] in *. constructor.
    + rewrite E1, Hc, filter_or_length by done. fold f. lia.
    + intros k b. rewrite E2, Hb, elem_of_app, list_elem_of_singleton.
      assert (b ∈ bs -> d_hash b = k -> (k ∉ (d_hash <$> f) <-> d_height b <> h)) as Hk; [|naive_solver].
      intros Hbb <-. split; [intros Hnf E; apply Hnf, list_elem_of_fmap_2, Hf; done|].
      intros E (c & Ec & [Hcb Hch]%Hf)%list_elem_of_fmap. apply E.
      pose proof (proj2 (in_blocks _ _ Hi (d_hash b) b) (conj Hbb eq_refl)) as G1.
      pose proof (proj2 (in_blocks _ _ Hi (d_hash c) c) (conj Hcb eq_refl)) as G2. rewrite Ec in G1. congruence.
    + intros x. rewrite E3, Hse. setoid_rewrite elem_of_app. setoid_rewrite list_elem_of_singleton. setoid_rewrite Hf.
      naive_solver.
    + intros h'. rewrite elem_of_app, list_elem_of_singleton, E4. intros Hh'.
      rewrite lookup_delete_ne by naive_solver. apply Hhe. naive_solver.
    + by rewrite E5.
Qed.

Lemma prune_all bs hs : history_ok bs -> NoDup hs -> (forall h, h ∈ hs -> is_Some (blocks_by_height (add_all bs) !! h)) ->
  pruned bs (add_all bs) hs (fold_left prune_height hs (0, add_all bs)).
Proof.
  intros Hh Hn Hs. induction hs as [|h hs IH] using rev_ind.
  - pose proof (add_all_indexed bs Hh) as Hi. constructor; simpl; [|..|done|done].
    + clear. induction bs as [|b bs IHb]; [done|]. rewrite filter_cons_False; [done|]. by intros ?%not_elem_of_nil.
    + intros k b. rewrite (in_blocks _ _ Hi). set_solver.
    + set_solver.
  - rewrite fold_left_app. simpl. apply NoDup_app in Hn as (Hn & Hd & _). apply prune_step; [done| | |].
    + intros Hin. apply (Hd h Hin). by left.
    + apply Hs. rewrite elem_of_app. right. by left.
    + apply IH; [done|]. intros h' Hh'. apply Hs. rewrite elem_of_app. by left.
Qed.

(** Pruning keeps the blocks at or above the height and only those, and every
    tip that is left is one of them; but it forgets the transactions of a
    pruned block even where a kept block holds them too, so that they pass
    the deduplication of later proposals. *)
Theorem prune_below_exact (bs : list DagBlock) (m : Z) : history_ok bs ->
  let s := (prune_below m (add_all bs)).2 in
  (prune_below m (add_all bs)).1 = Z.of_nat (length (filter (fun b => d_height b < m) bs)) /\
  (forall k b, get_block k s = Some b <-> b ∈ bs /\ d_hash b = k /\ m <= d_height b) /\
  (forall g t, get_group_tip g s = Some t -> is_Some (get_block t s)) /\
  (forall a b x, a ∈ bs -> b ∈ bs -> d_height a < m <= d_height b -> x ∈ d_tx_hashes a -> x ∈ d_tx_hashes b ->
     is_tx_seen x (add_all bs) = true /\ has_block (d_hash b) s = true /\ is_tx_seen x s = false).
Proof.
  intros Hh s. pose proof (add_all_indexed bs Hh) as Hi. unfold s, prune_below.
  set (hs := filter (fun h => h < m) (btree_iter (blocks_by_height (add_all bs))).*1).
  assert (forall b, b ∈ bs -> d_height b ∈ hs <-> d_height b < m) as Hhs.
  { intros b Hb. unfold hs. rewrite list_elem_of_filter. split; [tauto|]. intros Hm. split; [done|].
    pose proof (in_heights _ _ Hi (d_height b)) as E. destruct (blocks_by_height (add_all bs) !! d_height b) as [l|] eqn:El.
    - apply list_elem_of_fmap. exists (d_height b, l). split; [done|]. by apply elem_of_btree_iter.
    - simpl in E. symmetry in E. apply fmap_nil_inv in E.
      assert (b ∈ filter (fun x => d_height x = d_height b) bs) as Hf by (by apply list_elem_of_filter).
      rewrite E in Hf. by apply not_elem_of_nil in Hf. }
  destruct (prune_all bs hs Hh) as [Hc Hb Hse _ Ht].
  { apply NoDup_filter, btree_iter_nodup. }
  { intros h [_ Hin]%list_elem_of_filter. apply list_elem_of_fmap in Hin as ([h' l] & -> & Hin).
    apply elem_of_btree_iter in Hin. by exists l. }
  destruct (fold_left prune_height hs (0, add_all bs)) as [n s1]. cbn [fst snd] in *.
  assert (forall k b, dag_blocks s1 !! k = Some b <-> b ∈ bs /\ d_hash b = k /\ m <= d_height b) as Hb'.
  { intros k b. rewrite Hb. split; intros (Hbb & Hk & Hm); split_and!; try done.
    - rewrite Hhs in Hm by done. lia.
    - rewrite Hhs by done. lia. }
  split; [|split; [exact Hb'|split]].
  - rewrite Hc. do 2 f_equal. clearbody hs. clear -Hhs. induction bs as [|b bs IH]; [done|]. rewrite !filter_cons, IH.
    + destruct (Hhs b) as [? ?]; [by left|]. repeat case_decide; naive_solver.
    + intros x Hx. apply Hhs. by right.
  - intros g t. unfold get_group_tip, get_block. cbn [tips dag_blocks]. rewrite map_lookup_filter_Some. by intros [_ ?].
  - intros a b x Ha Hbb Hm Hxa Hxb. unfold is_tx_seen, has_block. cbn [seen_tx_hashes dag_blocks]. split_and!.
    + apply bool_decide_eq_true, (in_seen _ _ Hi). by exists a.
    + apply bool_decide_eq_true. exists b. apply Hb'. split_and!; [done..|lia].
    + apply bool_decide_eq_false. rewrite Hse. intros [_ Hx]. apply (Hx a Ha); [apply Hhs; [done|lia]|done].
Qed.

(** ** Witnesses *)

Section Witnesses.
Definition wit_a : DagBlock := mkDagBlock [x01] 1 "g" [] [[x09]] 5 0 [x0a].
Definition wit_b : DagBlock := mkDagBlock [x02] 1 "h" [] [] 7 0 [x0a].
Definition wit_c : DagBlock := mkDagBlock [x03] 4 "g" [] [[x09]] 1 0 [x0b].
Definition wit_blocks : list DagBlock := [wit_a; wit_b; wit_c].

Lemma wit_history : history_ok wit_blocks.
Proof. constructor; [by apply (bool_decide_unpack _); vm_compute|by repeat constructor]. Qed.

Lemma ordering_is_sort_witness : get_ordering (add_all [wit_c; wit_a; wit_b]) = [[x02]; [x01]; [x03]].
Proof.
  rewrite (ordering_is_sort wit_blocks [wit_c; wit_a; wit_b] wit_history);
    [by vm_compute|by apply (bool_decide_unpack _); vm_compute].
Defined.

Lemma tip_is_highest_witness : exists t, get_group_tip "g" (add_all wit_blocks) = Some (d_hash t) /\ 1 <= d_height t.
Proof.
  destruct (tip_is_highest wit_blocks wit_a wit_history) as (t & Et & _ & _ & Hle); [by left|]. by exists t.
Defined.

Lemma equivocation_exact_witness : exists pr, (add_block wit_b (add_all [wit_a])).1 = Some pr /\ block_hash_b pr = [x02].
Proof.
  assert (history_ok ([wit_a] ++ [wit_b])) as Hh.
  { constructor; [by apply (bool_decide_unpack _); vm_compute|by repeat constructor]. }
  pose proof (equivocation_exact [wit_a] wit_b Hh ltac:(done)) as He.
  destruct (add_block wit_b (add_all [wit_a])).1 as [pr|] eqn:E; [exists pr; split; [done|apply He]|].
  exfalso. apply (He wit_a); [by left|done|done].
Defined.

Lemma prune_below_exact_witness :
  has_block [x03] (prune_below 2 (add_all wit_blocks)).2 = true /\
  is_tx_seen [x09] (prune_below 2 (add_all wit_blocks)).2 = false.
Proof.
  destruct (prune_below_exact wit_blocks 2 wit_history) as (_ & _ & _ & Hp).
  destruct (Hp wit_a wit_c [x09]) as (_ & H1 & H2); [by left|by right; right; left|done|by left|by left|].
  split; [exact H1|exact H2].
Defined.
End Witnesses.

End DagC.
