(* ===== verification/CommitScheduler.v ===== *)
(** * The commit scheduler

    [savitri-lightnode/src/p2p/conflict_keys.rs] and
    [p2p/commit_scheduler.rs]: conflict keys, conflict sets and their winners,
    the nonce cursors, and the scheduler that admits speculatively executed
    blocks, resolves their conflicts, and releases, defers and wakes them.

    The storage the scheduler reads is an argument of every operation that
    reads it, so that it may change in between.  Iterations over hash maps and
    sets follow [HashOrder].  [created_at] is a clock reading passed to
    [admit_block]. *)

From Stdlib Require Import Strings.Byte.
From S2P Require Import Prelude OrdMap Codec Account SignedTx BlockStore BlockExec BlockCommit.

Module Sched.
Import Tx BS Exec BC.

Inductive ConflictKey :=
| TxHash (h : bytes)
| AccountNonce (sender : bytes) (nonce : Z)
| StorageSlot (contract slot : bytes)
| Resource (account : bytes) (resource_type : Z).

#[global] Instance ConflictKey_eq_dec : EqDecision ConflictKey.
Proof. solve_decision. Defined.
#[global] Program Instance ConflictKey_countable : Countable ConflictKey :=
  inj_countable'
    (fun k => match k with
      | TxHash h => inl (inl h) | AccountNonce s n => inl (inr (s, n))
      | StorageSlot c s => inr (inl (c, s)) | Resource a t => inr (inr (a, t))
      end)
    (fun x => match x with
      | inl (inl h) => TxHash h | inl (inr (s, n)) => AccountNonce s n
      | inr (inl (c, s)) => StorageSlot c s | inr (inr (a, t)) => Resource a t
      end) _.
Next Obligation. by intros []. Qed.

Inductive BlockStatus :=
| Pending | Accepted | Conflicting | ResolvedWinner | ResolvedLoser | Committed | Rejected | Deferred.
#[global] Instance BlockStatus_eq_dec : EqDecision BlockStatus.
Proof. solve_decision. Defined.

Record ConflictSet := mkSet {
  cs_id : Z;
  cs_key : ConflictKey;
  cs_members : list bytes;
  cs_resolved : bool;
  cs_winner : option bytes;
  cs_created_at : Z;
}.

Record ExecutedBlockMeta := mkMeta {
  em_block_hash : bytes;
  em_height : Z;
  em_group_id : string;
  em_status : BlockStatus;
  em_read_set : gset bytes;
  em_write_set : gset bytes;
  em_conflict_keys : list ConflictKey;
  em_state_diff : Overlay;
  em_topo_rank : Z;
  em_pou_score : Z;
  em_timestamp : Z;
  em_pending_data : PendingBlockData;
}.

Definition set_status (st : BlockStatus) (m : ExecutedBlockMeta) : ExecutedBlockMeta :=
  mkMeta (em_block_hash m) (em_height m) (em_group_id m) st (em_read_set m) (em_write_set m) (em_conflict_keys m)
    (em_state_diff m) (em_topo_rank m) (em_pou_score m) (em_timestamp m) (em_pending_data m).

Definition em_txs (m : ExecutedBlockMeta) : list SignedTx := pd_signed_txs (em_pending_data m).

(** *** [AccountCommitCursor] *)

Abbreviation Cursors := (gmap bytes Z).

Definition next_nonce (account : bytes) (c : Cursors) : option Z := c !! account.

Definition advance (account : bytes) (new_nonce : Z) (c : Cursors) : Cursors :=
  let old := default 0 (c !! account) in
  <[account := if new_nonce >? old then new_nonce else old]> c.

Inductive TxCommitCheck := CheckOk | CheckDeferred | CheckReject.

Section Check.
Context {S : Type} `{BlockAndAccountStorage S}.

Definition stored_nonce (s : S) (account : bytes) : Z := from_option sa_nonce 0 (ok_flatten (get_account account s)).

Definition expected_nonce (s : S) (c : Cursors) (sender : bytes) : Z := default (stored_nonce s sender) (c !! sender).

Definition check_tx_nonce (s : S) (c : Cursors) (sender : bytes) (tx_nonce : Z) : TxCommitCheck :=
  let expected := expected_nonce s c sender in
  if tx_nonce =? expected then CheckOk else if tx_nonce >? expected then CheckDeferred else CheckReject.
End Check.

Record CommitStats := mkCStats {
  blocks_committed : Z;
  blocks_deferred : Z;
  blocks_rejected : Z;
  conflict_sets_created : Z;
  conflict_sets_resolved : Z;
  txs_committed : Z;
  txs_rejected_nonce : Z;
}.

(** *** Keys and sets of a block *)

(** [copy_from_slice] into a zeroed array of 32 bytes. *)
Definition to_32 (b : bytes) : bytes := let b := take 32 b in b ++ zeros (32 - length b).

Section Keys.
Context `{Hex, Sha256, TxBincode}.

Definition tx_conflict_keys (t : SignedTx) : list ConflictKey :=
  match serialize_signed_tx t with Ok b => [TxHash (to_32 (hash_signed_tx_bytes b))] | Err _ => [] end ++
  [AccountNonce (to_32 (default [] (hex_decode (from t)))) (nonce t)].

Definition extract_conflict_keys (signed_txs : list SignedTx) : list ConflictKey :=
  concat (tx_conflict_keys <$> signed_txs).

Definition extract_read_write_sets (o : Overlay) (signed_txs : list SignedTx) : gset bytes * gset bytes :=
  (list_to_set (omap (fun t => hex_decode (from t)) signed_txs ++ omap (fun t => hex_decode (to t)) signed_txs),
   dom o).
End Keys.

(** *** Winners *)

Record BlockMeta := mkBMeta { bm_block_hash : bytes; bm_topo_rank : Z; bm_pou_score : Z; bm_height : Z }.

(** Lowest rank, highest score, lowest height, lowest hash. *)
Definition meta_le (a b : BlockMeta) : Prop :=
  bm_topo_rank a < bm_topo_rank b \/ bm_topo_rank a = bm_topo_rank b /\
  (bm_pou_score b < bm_pou_score a \/ bm_pou_score a = bm_pou_score b /\
  (bm_height a < bm_height b \/ bm_height a = bm_height b /\ bytes_le (bm_block_hash a) (bm_block_hash b))).
#[global] Instance meta_le_dec a b : Decision (meta_le a b).
Proof. unfold meta_le. apply _. Defined.
#[global] Typeclasses Opaque meta_le.

(** [min_by]: the first of the least. *)
Definition choose_winner (candidates : list BlockMeta) : option bytes :=
  match candidates with
  | [] => None
  | c :: l => Some (bm_block_hash (fold_left (fun best x => if decide (meta_le best x) then best else x) l c))
  end.

(** ** The scheduler *)

Record CommitScheduler := mkSched {
  block_meta : gmap bytes ExecutedBlockMeta;
  ready_queue : list bytes;
  deferred_by_nonce : gmap bytes (list bytes);
  conflict_sets : gmap Z ConflictSet;
  conflict_key_index : gmap ConflictKey (gset Z);
  block_conflict_sets : gmap bytes (gset Z);
  next_conflict_id : Z;
  account_cursors : Cursors;
  committed_blocks : gset bytes;
  stats : CommitStats;
}.

Definition CommitScheduler_new : CommitScheduler := mkSched ∅ [] ∅ ∅ ∅ ∅ 0 ∅ ∅ (mkCStats 0 0 0 0 0 0 0).

(** Setters. *)
Definition set_meta x s := mkSched x (ready_queue s) (deferred_by_nonce s) (conflict_sets s) (conflict_key_index s)
  (block_conflict_sets s) (next_conflict_id s) (account_cursors s) (committed_blocks s) (stats s).
Definition set_ready x s := mkSched (block_meta s) x (deferred_by_nonce s) (conflict_sets s) (conflict_key_index s)
  (block_conflict_sets s) (next_conflict_id s) (account_cursors s) (committed_blocks s) (stats s).
Definition set_deferred x s := mkSched (block_meta s) (ready_queue s) x (conflict_sets s) (conflict_key_index s)
  (block_conflict_sets s) (next_conflict_id s) (account_cursors s) (committed_blocks s) (stats s).
Definition set_sets x s := mkSched (block_meta s) (ready_queue s) (deferred_by_nonce s) x (conflict_key_index s)
  (block_conflict_sets s) (next_conflict_id s) (account_cursors s) (committed_blocks s) (stats s).
Definition set_block_sets x s := mkSched (block_meta s) (ready_queue s) (deferred_by_nonce s) (conflict_sets s)
  (conflict_key_index s) x (next_conflict_id s) (account_cursors s) (committed_blocks s) (stats s).
Definition set_stats x s := mkSched (block_meta s) (ready_queue s) (deferred_by_nonce s) (conflict_sets s)
  (conflict_key_index s) (block_conflict_sets s) (next_conflict_id s) (account_cursors s) (committed_blocks s) x.

Definition count_deferred (c : CommitStats) : CommitStats :=
  mkCStats (blocks_committed c) (blocks_deferred c + 1) (blocks_rejected c) (conflict_sets_created c)
    (conflict_sets_resolved c) (txs_committed c) (txs_rejected_nonce c).
Definition count_created (c : CommitStats) : CommitStats :=
  mkCStats (blocks_committed c) (blocks_deferred c) (blocks_rejected c) (conflict_sets_created c + 1)
    (conflict_sets_resolved c) (txs_committed c) (txs_rejected_nonce c).
Definition count_resolved (c : CommitStats) : CommitStats :=
  mkCStats (blocks_committed c) (blocks_deferred c) (blocks_rejected c) (conflict_sets_created c)
    (conflict_sets_resolved c + 1) (txs_committed c) (txs_rejected_nonce c).
Definition count_committed (txs : nat) (c : CommitStats) : CommitStats :=
  mkCStats (blocks_committed c + 1) (blocks_deferred c) (blocks_rejected c) (conflict_sets_created c)
    (conflict_sets_resolved c) (txs_committed c + Z.of_nat txs) (txs_rejected_nonce c).

(** [if let Some(meta) = block_meta.get_mut(h) { meta.status = st }]. *)
Definition mark (st : BlockStatus) (hash : bytes) (s : CommitScheduler) : CommitScheduler :=
  set_meta (alter (set_status st) hash (block_meta s)) s.

Definition push_ready (hash : bytes) (s : CommitScheduler) : CommitScheduler := set_ready (ready_queue s ++ [hash]) s.

(** [Committed | Rejected | ResolvedLoser]. *)
Definition finished (st : BlockStatus) : bool :=
  match st with Committed | Rejected | ResolvedLoser => true | _ => false end.

Section Admit.
Context `{HashOrder}.

(** A set of the key that holds the existing block and is open. *)
Definition open_set (key : ConflictKey) (existing_block : bytes) (s : CommitScheduler) : option (Z * ConflictSet) :=
  head (omap (fun id =>
    match conflict_sets s !! id with
    | Some cs => if bool_decide (existing_block ∈ cs_members cs) && negb (cs_resolved cs) then Some (id, cs) else None
    | None => None
    end) (hash_order (elements (default ∅ (conflict_key_index s !! key))))).

Definition add_member (new_block : bytes) (cs : ConflictSet) : ConflictSet :=
  mkSet (cs_id cs) (cs_key cs)
    (if bool_decide (new_block ∈ cs_members cs) then cs_members cs else cs_members cs ++ [new_block])
    (cs_resolved cs) (cs_winner cs) (cs_created_at cs).

Definition note_set (hash : bytes) (id : Z) (m : gmap bytes (gset Z)) : gmap bytes (gset Z) :=
  <[hash := {[ id ]} ∪ default ∅ (m !! hash)]> m.

Definition find_or_create_conflict_set (now : Z) (key : ConflictKey) (existing_block new_block : bytes)
    (s : CommitScheduler) : Z * CommitScheduler :=
  match open_set key existing_block s with
  | Some (set_id, cs) => (set_id, set_sets (<[set_id := add_member new_block cs]> (conflict_sets s)) s)
  | None =>
      let set_id := next_conflict_id s in
      (set_id, mkSched (block_meta s) (ready_queue s) (deferred_by_nonce s)
         (<[set_id := mkSet set_id key [existing_block; new_block] false None now]> (conflict_sets s))
         (<[key := {[ set_id ]} ∪ default ∅ (conflict_key_index s !! key)]> (conflict_key_index s))
         (note_set new_block set_id (note_set existing_block set_id (block_conflict_sets s)))
         (wrap U64_MAX (set_id + 1)) (account_cursors s) (committed_blocks s) (count_created (stats s)))
  end.

(** Every conflict set the block is in is resolved; sets that are gone count
    as resolved. *)
Definition all_resolved (hash : bytes) (s : CommitScheduler) : bool :=
  match block_conflict_sets s !! hash with
  | Some ids => forallb (fun id => from_option cs_resolved true (conflict_sets s !! id)) (elements ids)
  | None => true
  end.

Definition settle_member (winner : bytes) (s : CommitScheduler) (hash : bytes) : CommitScheduler :=
  if bool_decide (hash = winner) then
    if all_resolved hash s then push_ready hash (mark ResolvedWinner hash s) else s
  else mark ResolvedLoser hash s.

Definition candidates_of (members : list bytes) (s : CommitScheduler) : list BlockMeta :=
  omap (fun h => (fun m => mkBMeta h (em_topo_rank m) (em_pou_score m) (em_height m)) <$> block_meta s !! h) members.

Definition try_resolve_conflict_set (s : CommitScheduler) (set_id : Z) : CommitScheduler :=
  match conflict_sets s !! set_id with
  | None => s
  | Some cs =>
      if cs_resolved cs then s
      else
        let candidates := candidates_of (cs_members cs) s in
        if (length candidates <? 2)%nat then s
        else match choose_winner candidates with
        | None => s
        | Some winner =>
            let s := set_sets (<[set_id := mkSet (cs_id cs) (cs_key cs) (cs_members cs) true (Some winner)
                                              (cs_created_at cs)]> (conflict_sets s)) s in
            let s := set_stats (count_resolved (stats s)) s in
            fold_left (settle_member winner) (cs_members cs) s
        end
  end.

(** The blocks a new one may conflict with. *)
Definition existing_entries (hash : bytes) (s : CommitScheduler) : list (bytes * ExecutedBlockMeta) :=
  filter (fun p : bytes * ExecutedBlockMeta => p.1 <> hash /\ finished (em_status p.2) = false)
    (hash_order (map_to_list (block_meta s))).

(** The conflict sets of one key. *)
Definition conflicts_of_key (now : Z) (hash : bytes) (existing : list (bytes * ExecutedBlockMeta))
    (st : gset Z * CommitScheduler) (key : ConflictKey) : gset Z * CommitScheduler :=
  fold_left (fun (st : gset Z * CommitScheduler) (p : bytes * ExecutedBlockMeta) =>
    if bool_decide (key ∈ em_conflict_keys p.2) then
      let '(id, s) := find_or_create_conflict_set now key p.1 hash st.2 in ({[ id ]} ∪ st.1, s)
    else st) existing st.

Definition admit_block (now : Z) (meta : ExecutedBlockMeta) (s : CommitScheduler) : BlockStatus * CommitScheduler :=
  let hash := em_block_hash meta in
  if bool_decide (is_Some (block_meta s !! hash)) || bool_decide (hash ∈ committed_blocks s) then (Committed, s)
  else
    let existing := existing_entries hash s in
    let '(ids, s) := fold_left (conflicts_of_key now hash existing) (em_conflict_keys meta) (∅, s) in
    let status := if bool_decide (ids = ∅) then Accepted else Conflicting in
    let s := if bool_decide (ids = ∅) then s else set_block_sets (<[hash := ids]> (block_conflict_sets s)) s in
    let s := set_meta (<[hash := set_status status meta]> (block_meta s)) s in
    let s := if bool_decide (status = Accepted) then push_ready hash s else s in
    (status, fold_left try_resolve_conflict_set (hash_order (elements ids)) s).

(** *** Releasing blocks *)

Section Drain.
Context {S : Type} `{BlockAndAccountStorage S, Hex}.

(** The nonces of a block against the cursors: the account that makes it
    wait, or the verdict. *)
Fixpoint check_txs (st : S) (c : Cursors) (txs : list SignedTx) : bool * option bytes :=
  match txs with
  | [] => (true, None)
  | t :: txs =>
      let sender := normalize_address_bytes (from t) in
      match check_tx_nonce st c sender (nonce t) with
      | CheckOk => check_txs st c txs
      | CheckDeferred => (false, Some sender)
      | CheckReject => (false, None)
      end
  end.

Definition has_unresolved (hash : bytes) (s : CommitScheduler) : bool :=
  match block_conflict_sets s !! hash with
  | Some ids => existsb (fun id => from_option (fun cs => negb (cs_resolved cs)) false (conflict_sets s !! id)) (elements ids)
  | None => false
  end.

(** Cursors after a block, in the order of its state diff. *)
Definition advance_all (diff : Overlay) (c : Cursors) : Cursors :=
  fold_left (fun c (p : bytes * Acct.Account) => advance p.1 (Acct.nonce p.2) c) (bytes_iter diff) c.

(** A block that passes all checks. *)
Definition release (hash : bytes) (m : ExecutedBlockMeta) (s : CommitScheduler) : CommitScheduler :=
  let s := mark Committed hash s in
  mkSched (block_meta s) (ready_queue s) (deferred_by_nonce s) (conflict_sets s) (conflict_key_index s)
    (block_conflict_sets s) (next_conflict_id s) (advance_all (em_state_diff m) (account_cursors s))
    ({[ hash ]} ∪ committed_blocks s) (count_committed (length (em_txs m)) (stats s)).

(** The loop over the ready queue: what is released, what has to wait. *)
Fixpoint drain_loop (st : S) (queue : list bytes) (s : CommitScheduler) :
    list (bytes * ExecutedBlockMeta) * list (bytes * bytes) * CommitScheduler :=
  match queue with
  | [] => ([], [], set_ready [] s)
  | hash :: queue =>
      match block_meta s !! hash with
      | None => drain_loop st queue s
      | Some m =>
          if finished (em_status m) then drain_loop st queue s
          else if has_unresolved hash s then drain_loop st queue s
          else match check_txs st (account_cursors s) (em_txs m) with
          | (true, _) =>
              let '(committed, to_defer, s) := drain_loop st queue (release hash m s) in
              ((hash, set_status Committed m) :: committed, to_defer, s)
          | (false, Some account) =>
              let '(committed, to_defer, s) := drain_loop st queue (set_stats (count_deferred (stats s)) s) in
              (committed, (hash, account) :: to_defer, s)
          | (false, None) => drain_loop st queue s
          end
      end
  end.

Definition defer_block (s : CommitScheduler) (p : bytes * bytes) : CommitScheduler :=
  let s := mark Deferred p.1 s in
  set_deferred (<[p.2 := default [] (deferred_by_nonce s !! p.2) ++ [p.1]]> (deferred_by_nonce s)) s.

Definition drain_ready (st : S) (s : CommitScheduler) : list (bytes * ExecutedBlockMeta) * CommitScheduler :=
  let '(committed, to_defer, s) := drain_loop st (ready_queue s) s in
  (committed, fold_left defer_block to_defer s).

(** *** Waking *)

Definition woken_of (st : S) (s : CommitScheduler) (p : bytes * list bytes) : list bytes :=
  let cursor_nonce := expected_nonce st (account_cursors s) p.1 in
  filter (fun hash =>
    match block_meta s !! hash with
    | Some m => existsb (fun t => bool_decide (normalize_address_bytes (from t) = p.1) && (nonce t =? cursor_nonce)) (em_txs m)
    | None => false
    end = true) p.2.

Definition wake_one (s : CommitScheduler) (hash : bytes) : CommitScheduler :=
  let s := push_ready hash (mark Accepted hash s) in
  set_deferred (filter (fun h => h <> hash) <$> deferred_by_nonce s) s.

Definition wake_deferred (st : S) (s : CommitScheduler) : CommitScheduler :=
  let woken := concat (woken_of st s <$> hash_order (map_to_list (deferred_by_nonce s))) in
  let s := fold_left wake_one woken s in
  set_deferred (filter (fun p : bytes * list bytes => p.2 <> []) (deferred_by_nonce s)) s.
End Drain.
End Admit.

(** *** Queries and garbage collection *)

Definition block_status (hash : bytes) (s : CommitScheduler) : option BlockStatus :=
  if bool_decide (hash ∈ committed_blocks s) then Some Committed else em_status <$> block_meta s !! hash.

Definition is_known (hash : bytes) (s : CommitScheduler) : bool :=
  bool_decide (is_Some (block_meta s !! hash)) || bool_decide (hash ∈ committed_blocks s).

Definition gc (keep_height : Z) (s : CommitScheduler) : CommitScheduler :=
  let gone (m : ExecutedBlockMeta) := em_height m < keep_height /\ finished (em_status m) = true in
  let to_remove : gset bytes := dom (filter (fun p : bytes * ExecutedBlockMeta => gone p.2) (block_meta s)) in
  let meta := filter (fun p : bytes * ExecutedBlockMeta => ~ gone p.2) (block_meta s) in
  mkSched meta (ready_queue s) (deferred_by_nonce s)
    (filter (fun p : Z * ConflictSet => cs_resolved p.2 = false \/ Exists (fun h => is_Some (meta !! h)) (cs_members p.2))
       (conflict_sets s))
    (conflict_key_index s)
    (filter (fun p : bytes * gset Z => p.1 ∉ to_remove) (block_conflict_sets s))
    (next_conflict_id s) (account_cursors s) (committed_blocks s ∖ to_remove) (stats s).

Definition sched_pending_count (s : CommitScheduler) : nat :=
  length (filter (fun p : bytes * ExecutedBlockMeta => finished (em_status p.2) = false) (map_to_list (block_meta s))).

Definition unresolved_conflicts (s : CommitScheduler) : nat :=
  length (filter (fun p : Z * ConflictSet => cs_resolved p.2 = false) (map_to_list (conflict_sets s))).

End Sched.
