(* ===== verification/SchedCorrect.v ===== *)
(** * What the commit scheduler guarantees

    Safety: over any run, a transaction that the execution of a released block
    applied is in no block released later; one that it skipped can be.  The
    choice of a winner does
    not depend on the order of the candidates.  Against the scheduler: a block
    with two nonces of one sender is never released, and the outcome of
    overlapping conflicts depends on the iteration order of a hash set. *)

From Stdlib Require Import Strings.Byte.
From S2P Require Import Prelude OrdMap Codec Account SignedTx BlockStore BlockExec BlockCommit BlockCorrect BlockStm CommitScheduler.

Module SchedC.
Import Tx BS Exec BC Sched.

(** ** Cursors *)

Lemma advance_lookup a n c k : advance a n c !! k =
  if decide (k = a) then Some (Z.max n (default 0 (c !! a))) else c !! k.
Proof.
  unfold advance. case_decide as Hk.
  - subst. rewrite lookup_insert_eq. f_equal. destruct (Z.gtb_spec n (default 0 (c !! a))); lia.
  - by rewrite lookup_insert_ne.
Qed.

(** Cursors only grow. *)
Definition cursors_le (c c' : Cursors) : Prop := forall k n, c !! k = Some n -> exists n', c' !! k = Some n' /\ n <= n'.

#[global] Instance cursors_le_refl : Reflexive cursors_le.
Proof. intros c k n Hk. exists n. split; [done|lia]. Qed.
#[global] Instance cursors_le_trans : Transitive cursors_le.
Proof.
  intros a b c Hab Hbc k n Hk. destruct (Hab k n Hk) as (n1 & Hk1 & ?). destruct (Hbc k n1 Hk1) as (n2 & Hk2 & ?).
  exists n2. split; [done|lia].
Qed.

Lemma advance_le a n c : cursors_le c (advance a n c).
Proof.
  intros k m Hk. rewrite advance_lookup. case_decide; [subst; rewrite Hk; eexists; split; [done|simpl; lia]|].
  exists m. split; [done|lia].
Qed.

Lemma advance_list (l : list (bytes * Acct.Account)) c :
  let c' := fold_left (fun c p => advance p.1 (Acct.nonce p.2) c) l c in
  cursors_le c c' /\ forall a x, (a, x) ∈ l -> exists n, c' !! a = Some n /\ Acct.nonce x <= n.
Proof.
  revert c; induction l as [|[a x] l IH]; intros c; simpl; [split; [done|by intros ? ? ?%not_elem_of_nil]|].
  destruct (IH (advance a (Acct.nonce x) c)) as [Hle Hl]. split; [etrans; [apply advance_le|done]|].
  intros b y [[= -> ->]|Hin]%elem_of_cons; [|by apply Hl].
  destruct (Hle a (Z.max (Acct.nonce x) (default 0 (c !! a)))) as (n & En & Hn).
  - rewrite advance_lookup. by rewrite decide_True.
  - exists n. split; [done|lia].
Qed.

Lemma advance_all_spec diff c : cursors_le c (advance_all diff c) /\
  forall a x, diff !! a = Some x -> exists n, advance_all diff c !! a = Some n /\ Acct.nonce x <= n.
Proof.
  unfold advance_all. destruct (advance_list (bytes_iter diff) c) as [Hle Hl]. split; [done|].
  intros a x Hx. apply Hl. by apply BlockC.elem_of_bytes_iter.
Qed.

Section Safety.
Context {S : Type} `{BlockAndAccountStorage S, Hex, HashOrder}.

Definition sender_of (t : SignedTx) : bytes := normalize_address_bytes (from t).
Definition uses (m : ExecutedBlockMeta) : list (bytes * Z) := (fun t => (sender_of t, nonce t)) <$> em_txs m.

(** The transactions that the speculative execution of the block applied: it
    moved their senders past their nonces. *)
Definition moves (m : ExecutedBlockMeta) (u : bytes * Z) : bool :=
  from_option (fun x => u.2 <? Acct.nonce x) false (em_state_diff m !! u.1).
Definition applied (m : ExecutedBlockMeta) : list (bytes * Z) := filter (fun u => moves m u = true) (uses m).

(** A block is released only with every nonce equal to the expected one. *)
Lemma check_txs_ok st c txs o : check_txs st c txs = (true, o) ->
  forall t, t ∈ txs -> nonce t = expected_nonce st c (sender_of t).
Proof.
  induction txs as [|t txs IH]; [by intros _ ? ?%not_elem_of_nil|]. simpl. unfold check_tx_nonce.
  destruct (Z.eqb_spec (nonce t) (expected_nonce st c (normalize_address_bytes (from t)))) as [E|].
  - intros Hc u [->|Hu]%elem_of_cons; [done|by apply IH].
  - by destruct (_ >? _).
Qed.

(** *** What the operations leave alone *)

(** Cursors stay, and no block is new or changes but for its status. *)
Definition same_blocks (s s' : CommitScheduler) : Prop :=
  account_cursors s' = account_cursors s /\
  forall h m', block_meta s' !! h = Some m' -> exists m st, block_meta s !! h = Some m /\ m' = set_status st m.

Lemma set_status_id m : set_status (em_status m) m = m.
Proof. by destruct m. Qed.

Lemma same_of_eq s s' : account_cursors s' = account_cursors s -> block_meta s' = block_meta s -> same_blocks s s'.
Proof. intros Ec Em. split; [done|]. rewrite Em. intros h m' Hm. exists m', (em_status m'). by rewrite set_status_id. Qed.

#[global] Instance same_blocks_refl : Reflexive same_blocks.
Proof. intros s. by apply same_of_eq. Qed.
#[global] Instance same_blocks_trans : Transitive same_blocks.
Proof.
  intros a b c [Ec Hab] [Ec' Hbc]. split; [by rewrite Ec'|]. intros h m Hm.
  destruct (Hbc h m Hm) as (m1 & st1 & Hm1 & ->). destruct (Hab h m1 Hm1) as (m2 & st2 & Hm2 & ->).
  by exists m2, st1.
Qed.

Lemma same_fold {A} (f : CommitScheduler -> A -> CommitScheduler) l s :
  (forall s x, same_blocks s (f s x)) -> same_blocks s (fold_left f l s).
Proof. intros Hf. revert s; induction l as [|x l IH]; intros s; [done|]. etrans; [apply Hf|apply IH]. Qed.

Lemma mark_same st h s : same_blocks s (mark st h s).
Proof.
  split; [done|]. intros k m. simpl. rewrite lookup_alter_Some. intros [(<- & m0 & Hm & ->)|[_ Hm]].
  - by exists m0, st.
  - exists m, (em_status m). by rewrite set_status_id.
Qed.

Lemma push_same h s : same_blocks s (push_ready h s).
Proof. by apply same_of_eq. Qed.

Lemma find_same now key h h' s : same_blocks s (find_or_create_conflict_set now key h h' s).2.
Proof. unfold find_or_create_conflict_set. destruct (open_set key h s) as [[id cs]|]; by apply same_of_eq. Qed.

Lemma conflicts_same now h ex ks st : same_blocks st.2 (fold_left (conflicts_of_key now h ex) ks st).2.
Proof.
  revert st; induction ks as [|k ks IH]; intros st; [done|]. simpl. etrans; [|apply IH]. clear.
  unfold conflicts_of_key. revert st; induction ex as [|p ex IH]; intros st; [done|]. simpl. etrans; [|apply IH].
  case_bool_decide; [|done]. pose proof (find_same now k p.1 h st.2) as Hf.
  by destruct (find_or_create_conflict_set now k p.1 h st.2).
Qed.

Lemma resolve_same s id : same_blocks s (try_resolve_conflict_set s id).
Proof.
  unfold try_resolve_conflict_set. destruct (conflict_sets s !! id) as [cs|]; [|done].
  destruct (cs_resolved cs); [done|]. destruct (_ <? 2)%nat; [done|]. destruct (choose_winner _) as [w|]; [|done].
  etrans; [|apply same_fold].
  - by apply same_of_eq.
  - intros s' h. unfold settle_member. case_bool_decide; [|apply mark_same]. destruct (all_resolved h s'); [|done].
    etrans; [apply mark_same|apply push_same].
Qed.

Lemma admit_blocks now m s h m' : block_meta (admit_block now m s).2 !! h = Some m' ->
  (exists m0 st, block_meta s !! h = Some m0 /\ m' = set_status st m0) \/ exists st, m' = set_status st m.
Proof.
  unfold admit_block. destruct (_ || _); [intros Hm; left; exists m', (em_status m'); by rewrite set_status_id|].
  set (ex := existing_entries _ s). pose proof (conflicts_same now (em_block_hash m) ex (em_conflict_keys m) (∅, s)) as [_ Hc].
  destruct (fold_left _ (em_conflict_keys m) (∅, s)) as [ids s1]; cbn [snd] in *.
  match goal with |- context [fold_left try_resolve_conflict_set ?l ?s2] =>
    destruct (same_fold try_resolve_conflict_set l s2 resolve_same) as [_ Hr] end.
  intros Hm. destruct (Hr h m' Hm) as (m1 & st & Hm1 & ->).
  assert (<[em_block_hash m := set_status (if bool_decide (ids = ∅) then Accepted else Conflicting) m]> (block_meta s1) !! h
    = Some m1) as Hi.
  { revert Hm1. repeat case_bool_decide; done. }
  apply lookup_insert_Some in Hi as [[<- <-]|[_ Hi]]; [right; by exists st|].
  destruct (Hc h m1 Hi) as (m0 & st0 & Hm0 & ->). left. by exists m0, st.
Qed.

Lemma admit_cursors now m s : account_cursors (admit_block now m s).2 = account_cursors s.
Proof.
  unfold admit_block. destruct (_ || _); [done|].
  set (ex := existing_entries _ s). pose proof (conflicts_same now (em_block_hash m) ex (em_conflict_keys m) (∅, s)) as [Ec _].
  destruct (fold_left _ (em_conflict_keys m) (∅, s)) as [ids s1]; cbn [snd] in *.
  match goal with |- context [fold_left try_resolve_conflict_set ?l ?s2] =>
    destruct (same_fold try_resolve_conflict_set l s2 resolve_same) as [-> _] end.
  rewrite <- Ec. by repeat case_bool_decide.
Qed.

(** *** Releasing blocks *)

(** Everything applied so far is below the cursors. *)
Definition sound (past : list (bytes * Z)) (s : CommitScheduler) : Prop :=
  forall a n, (a, n) ∈ past -> exists c, account_cursors s !! a = Some c /\ n < c.

Lemma sound_same past s s' : same_blocks s s' -> sound past s -> sound past s'.
Proof.
  intros [Ec _] Hp. unfold sound. by rewrite Ec.
Qed.

(** Each block in turn uses nothing applied before. *)
Fixpoint fresh_chain (past : list (bytes * Z)) (l : list ExecutedBlockMeta) : Prop :=
  match l with
  | [] => True
  | m :: l => (forall u, u ∈ uses m -> u ∉ past) /\ fresh_chain (past ++ applied m) l
  end.

Definition used_by (l : list ExecutedBlockMeta) : list (bytes * Z) := concat (applied <$> l).

Lemma fresh_chain_app past l l' : fresh_chain past (l ++ l') <-> fresh_chain past l /\ fresh_chain (past ++ used_by l) l'.
Proof.
  revert past; induction l as [|m l IH]; intros past; unfold used_by in *; simpl; [rewrite app_nil_r; tauto|].
  rewrite IH, <- app_assoc. tauto.
Qed.

Lemma release_sound past h m s : sound past s -> sound (past ++ applied m) (release h m s).
Proof.
  intros Hp. destruct (advance_all_spec (em_state_diff m) (account_cursors s)) as [Hle Hadv].
  intros a n. rewrite elem_of_app. cbn [release account_cursors]. intros [Hin|Hin].
  - destruct (Hp a n Hin) as (c & Ec & Hn). destruct (Hle a c Ec) as (c' & Ec' & Hcc). exists c'.
    split; [done|lia].
  - apply list_elem_of_filter in Hin as [Hmv _]. unfold moves in Hmv. cbn [fst snd] in Hmv.
    destruct (em_state_diff m !! a) as [x|] eqn:Hx; [|done]. apply Z.ltb_lt in Hmv.
    destruct (Hadv a x Hx) as (c & Ec & Hxc). exists c. split; [done|lia].
Qed.

Lemma checked_fresh st past s m : sound past s -> check_txs st (account_cursors s) (em_txs m) = (true, None) ->
  forall u, u ∈ uses m -> u ∉ past.
Proof.
  intros Hp Hc u Hu Hin. apply list_elem_of_fmap in Hu as (t & -> & Ht).
  pose proof (check_txs_ok _ _ _ _ Hc t Ht) as E. destruct (Hp _ _ Hin) as (c & Ec & Hn).
  unfold expected_nonce in E. rewrite Ec in E. simpl in E. lia.
Qed.

Lemma check_txs_None st c txs o : check_txs st c txs = (true, o) -> o = None.
Proof.
  induction txs as [|t txs IH]; simpl; [by intros [= <-]|]. destruct (check_tx_nonce _ _ _ _); [apply IH|done..].
Qed.

Lemma drain_loop_spec st q s past : sound past s ->
  let r := drain_loop st q s in
  sound (past ++ used_by r.1.1.*2) r.2 /\ fresh_chain past r.1.1.*2.
Proof.
  revert s past; induction q as [|h q IH]; intros s past Hs.
  { simpl. unfold used_by. simpl. rewrite app_nil_r. split; [|done]. apply (sound_same past s); [by apply same_of_eq|done]. }
  cbn [drain_loop]. destruct (block_meta s !! h) as [m|] eqn:Em; [|by apply IH].
  destruct (finished (em_status m)); [by apply IH|]. destruct (has_unresolved h s); [by apply IH|].
  destruct (check_txs st (account_cursors s) (em_txs m)) as [[|] o] eqn:Ec.
  - pose proof (check_txs_None _ _ _ _ Ec) as ->. pose proof (release_sound past h m s Hs) as Hr.
    specialize (IH (release h m s) (past ++ applied m) Hr).
    destruct (drain_loop st q (release h m s)) as [[c d] s']. cbn [fst snd fmap list_fmap] in *.
    destruct IH as [IH1 IH2]. split.
    + unfold used_by in *. simpl. change (applied (set_status Committed m)) with (applied m). by rewrite app_assoc.
    + simpl. change (uses (set_status Committed m)) with (uses m). change (applied (set_status Committed m)) with (applied m).
      split; [by eapply checked_fresh|done].
  - destruct o as [a|]; [|by apply IH].
    assert (sound past (set_stats (count_deferred (stats s)) s)) as Hs' by (apply (sound_same past s); [by apply same_of_eq|done]).
    specialize (IH _ past Hs'). by destruct (drain_loop st q (set_stats (count_deferred (stats s)) s)) as [[c d] s'].
Qed.

Lemma defer_same s p : same_blocks s (defer_block s p).
Proof. unfold defer_block. etrans; [apply mark_same|by apply same_of_eq]. Qed.

Lemma wake_same st s : same_blocks s (wake_deferred st s).
Proof.
  unfold wake_deferred. etrans; [apply (same_fold wake_one)|by apply same_of_eq].
  intros s' h. unfold wake_one. etrans; [apply mark_same|]. etrans; [apply push_same|by apply same_of_eq].
Qed.

Lemma gc_same k s : same_blocks s (gc k s).
Proof.
  split; [done|]. intros h m. cbn [gc block_meta]. rewrite map_lookup_filter_Some. intros [Hm _].
  exists m, (em_status m). by rewrite set_status_id.
Qed.

(** *** Runs *)

Inductive op := Admit (now : Z) (m : ExecutedBlockMeta) | Drain (st : S) | Wake (st : S) | Gc (keep_height : Z).

(** The blocks an operation releases, and the scheduler after it. *)
Definition step (o : op) (s : CommitScheduler) : list ExecutedBlockMeta * CommitScheduler :=
  match o with
  | Admit now m => ([], (admit_block now m s).2)
  | Drain st => let r := drain_ready st s in (r.1.*2, r.2)
  | Wake st => ([], wake_deferred st s)
  | Gc k => ([], gc k s)
  end.

Fixpoint run (l : list op) (s : CommitScheduler) : list ExecutedBlockMeta * CommitScheduler :=
  match l with
  | [] => ([], s)
  | o :: l =>
      let '(r1, s) := step o s in
      let '(r2, s) := run l s in (r1 ++ r2, s)
  end.

Lemma step_sound o s past : sound past s ->
  sound (past ++ used_by (step o s).1) (step o s).2 /\ fresh_chain past (step o s).1.
Proof.
  intros Hs. destruct o as [now m|st|st|k]; cbn [step fst snd].
  - unfold used_by. simpl. rewrite app_nil_r. split; [|done]. intros a n Hin. rewrite admit_cursors. by apply Hs.
  - unfold drain_ready. pose proof (drain_loop_spec st (ready_queue s) s past Hs) as Hd.
    destruct (drain_loop st (ready_queue s) s) as [[c d] s1]. cbn [fst snd] in *. destruct Hd as [Hd Hf].
    split; [|done]. eapply sound_same; [|exact Hd]. apply same_fold, defer_same.
  - unfold used_by. simpl. rewrite app_nil_r. split; [|done]. eapply sound_same; [apply wake_same|done].
  - unfold used_by. simpl. rewrite app_nil_r. split; [|done]. eapply sound_same; [apply gc_same|done].
Qed.

Lemma run_fresh l s past : sound past s -> fresh_chain past (run l s).1.
Proof.
  revert s past; induction l as [|o l IH]; intros s past Hs; [done|]. cbn [run].
  destruct (step_sound o s past Hs) as [Hs1 Hf1]. destruct (step o s) as [r1 s1]. cbn [fst snd] in *.
  specialize (IH s1 (past ++ used_by r1) Hs1). destruct (run l s1) as [r2 s2]. cbn [fst] in *. by apply fresh_chain_app.
Qed.

Lemma fresh_chain_disjoint past l i j mi mj u : fresh_chain past l -> (i < j)%nat ->
  l !! i = Some mi -> l !! j = Some mj -> u ∈ applied mi -> u ∉ uses mj.
Proof.
  revert past i j; induction l as [|m l IH]; intros past i j Hf Hij Hi Hj Hu Hu'; [done|].
  destruct Hf as [_ Hf]. destruct j as [|j]; [lia|]. destruct i as [|i].
  - injection Hi as ->. simpl in Hj. assert (forall l past, u ∈ past -> fresh_chain past l -> mj ∈ l -> u ∉ uses mj) as Hp.
    { clear. induction l as [|x l IH]; intros past Hu Hfc Hin; [by apply not_elem_of_nil in Hin|].
      destruct Hfc as [Hx Hl]. apply elem_of_cons in Hin as [->|Hin]; [intros Hm; by apply (Hx u)|].
      apply (IH (past ++ applied x)); [rewrite elem_of_app; by left|done|done]. }
    apply (Hp l (past ++ applied mi)); [rewrite elem_of_app; by right|done|by eapply list_elem_of_lookup_2|done].
  - exact (IH (past ++ applied m) i j Hf ltac:(lia) Hi Hj Hu Hu').
Qed.

(** C13: No double release.  Over any run of admissions, drains, wakes and garbage
    collections, whatever the storage reads in between, once a block is
    released whose execution applied a transaction (its state diff moves the
    sender past the nonce), no block released later contains a transaction of
    the same sender with the same nonce. *)
Theorem no_double_release (l : list op) (i j : nat) (mi mj : ExecutedBlockMeta) : (i < j)%nat ->
  (run l CommitScheduler_new).1 !! i = Some mi -> (run l CommitScheduler_new).1 !! j = Some mj ->
  forall t t', t ∈ em_txs mi -> moves mi (sender_of t, nonce t) = true -> t' ∈ em_txs mj ->
    (sender_of t, nonce t) <> (sender_of t', nonce t').
Proof.
  intros Hij Hi Hj t t' Ht Hmv Ht' E.
  assert (sound [] CommitScheduler_new) as Hs by (by intros a n ?%not_elem_of_nil).
  pose proof (run_fresh l _ [] Hs) as Hf.
  apply (fresh_chain_disjoint [] _ i j mi mj (sender_of t, nonce t) Hf Hij Hi Hj).
  - apply list_elem_of_filter. split; [done|]. by apply (list_elem_of_fmap_2 (fun t => (sender_of t, nonce t))).
  - rewrite E. unfold uses. by apply (list_elem_of_fmap_2 (fun t => (sender_of t, nonce t))).
Qed.

Lemma drain_loop_released st q s h m : (h, m) ∈ (drain_loop st q s).1.1 ->
  exists c, check_txs st c (em_txs m) = (true, None).
Proof.
  revert s; induction q as [|k q IH]; intros s; [by intros ?%not_elem_of_nil|]. cbn [drain_loop].
  destruct (block_meta s !! k) as [x|]; [|by apply IH]. destruct (finished (em_status x)); [by apply IH|].
  destruct (has_unresolved k s); [by apply IH|].
  destruct (check_txs st (account_cursors s) (em_txs x)) as [[|] o] eqn:Ec.
  - specialize (IH (release k x s)). destruct (drain_loop st q (release k x s)) as [[c d] s']. cbn [fst] in *.
    intros [[= -> ->]|Hin]%elem_of_cons; [|by apply IH]. exists (account_cursors s).
    by rewrite <- (check_txs_None _ _ _ _ Ec).
  - destruct o as [a|]; [|by apply IH]. specialize (IH (set_stats (count_deferred (stats s)) s)).
    by destruct (drain_loop st q (set_stats (count_deferred (stats s)) s)) as [[c d] s'].
Qed.

(** A block with two nonces of one sender is never released.  Every
    transaction of a block is compared with the same cursor, which moves only
    after the block: consecutive transactions of one sender can never both
    match, so such a block is deferred, woken and deferred again, in every
    state of the scheduler and whatever the storage says. *)
Theorem multi_nonce_block_never_released (st : S) (s : CommitScheduler) (h : bytes) (m : ExecutedBlockMeta)
    (t t' : SignedTx) :
  t ∈ em_txs m -> t' ∈ em_txs m -> sender_of t = sender_of t' -> nonce t <> nonce t' ->
  (h, m) ∉ (drain_ready st s).1.
Proof.
  intros Ht Ht' Es Hn Hin. unfold drain_ready in Hin.
  pose proof (drain_loop_released st (ready_queue s) s h m) as Hd.
  destruct (drain_loop st (ready_queue s) s) as [[c d] s1]. cbn [fst] in *. destruct (Hd Hin) as (cur & Hc).
  pose proof (check_txs_ok _ _ _ _ Hc t Ht) as E. pose proof (check_txs_ok _ _ _ _ Hc t' Ht') as E'.
  rewrite Es in E. congruence.
Qed.
End Safety.

(** ** Winners *)

#[global] Instance meta_le_total : Total meta_le.
Proof.
  intros a b. unfold meta_le. destruct (Z.lt_total (bm_topo_rank a) (bm_topo_rank b)) as [?|[?|?]]; auto.
  destruct (Z.lt_total (bm_pou_score a) (bm_pou_score b)) as [?|[?|?]]; auto.
  destruct (Z.lt_total (bm_height a) (bm_height b)) as [?|[?|?]]; auto.
  - left. right. split; [done|]. right. split; [done|]. by left.
  - destruct (total bytes_le (bm_block_hash a) (bm_block_hash b)); [left|right]; right; (split; [done|]); right;
      (split; [done|]); right; done.
  - right. right. split; [done|]. right. split; [done|]. by left.
Qed.

#[global] Instance meta_le_trans : Transitive meta_le.
Proof.
  intros a b c. unfold meta_le. intros Hab Hbc.
  assert (bytes_le (bm_block_hash a) (bm_block_hash b) -> bytes_le (bm_block_hash b) (bm_block_hash c) ->
    bytes_le (bm_block_hash a) (bm_block_hash c)) as Ht by (intros; by trans (bm_block_hash b)).
  naive_solver lia.
Qed.

Lemma meta_le_hash a b : meta_le a b -> meta_le b a -> bm_block_hash a = bm_block_hash b.
Proof. unfold meta_le. intros Hab Hba. apply (anti_symm bytes_le); naive_solver lia. Qed.

Lemma winner_least l c : let w := fold_left (fun best x => if decide (meta_le best x) then best else x) l c in
  w ∈ c :: l /\ forall x, x ∈ c :: l -> meta_le w x.
Proof.
  revert c; induction l as [|y l IH]; intros c; simpl.
  - split; [by left|]. intros x ->%list_elem_of_singleton. by destruct (total meta_le c c).
  - destruct (decide (meta_le c y)) as [Hc|Hc].
    + destruct (IH c) as [Hin Hle]. split; [set_solver|]. intros x [->|[->|Hx]%elem_of_cons]%elem_of_cons.
      * apply Hle. by left.
      * trans c; [apply Hle; by left|done].
      * apply Hle. by right.
    + destruct (IH y) as [Hin Hle]. assert (meta_le y c) by (by destruct (total meta_le c y)). split; [set_solver|].
      intros x [->|[->|Hx]%elem_of_cons]%elem_of_cons; [trans y; [apply Hle; by left|done]|apply Hle; by left|].
      apply Hle. by right.
Qed.

(** The winner of a conflict is one of the candidates, no other candidate
    comes before it by rank, score, height and hash, and the order in which
    the candidates are listed does not matter. *)
Theorem choose_winner_correct (l l' : list BlockMeta) : l' ≡ₚ l ->
  choose_winner l' = choose_winner l /\
  (l <> [] -> exists w, choose_winner l = Some (bm_block_hash w) /\ w ∈ l /\ forall x, x ∈ l -> meta_le w x).
Proof.
  intros Hp. assert (forall l, l <> [] -> exists w, choose_winner l = Some (bm_block_hash w) /\ w ∈ l /\
    forall x, x ∈ l -> meta_le w x) as Hw.
  { intros [|c k] Hk; [done|]. destruct (winner_least k c) as [Hin Hle]. by eexists. }
  split; [|apply Hw]. destruct l as [|c k]; [by apply Permutation_nil_r in Hp as ->|].
  destruct (Hw (c :: k)) as (w & -> & Hin & Hle); [done|].
  destruct (Hw l') as (w' & -> & Hin' & Hle'); [intros ->; by apply Permutation_nil in Hp|].
  f_equal. rewrite Hp in Hin'. apply meta_le_hash; [apply Hle'; by rewrite Hp|by apply Hle].
Qed.

(** ** The order of resolution matters *)

Section Order.
Definition in_order : HashOrder := {| hash_order _ l := l |}.
Definition reversed : HashOrder := {| hash_order _ l := rev l |}.

Lemma in_order_laws : @HashOrderLaws in_order.
Proof. by constructor. Qed.
Lemma reversed_laws : @HashOrderLaws reversed.
Proof. constructor. intros A l. simpl. symmetry. apply Permutation_rev. Qed.

Definition sched_tx (n : Z) : SignedTx := mkTx (hex_encode [x0a]) (hex_encode [x0b]) 1 n None None [] [] true.
Definition sched_block (hash : bytes) (rank : Z) (keys : list ConflictKey) (next : Z) (txs : list SignedTx) :
    ExecutedBlockMeta :=
  mkMeta hash rank "g" Pending ∅ ∅ keys {[ [x0a] := Acct.mkAccount 0 next ]} rank 0 0
    (mkPending (mkBlock hash rank 0 [] [] [] [] [] [] [] 1) txs []).

Definition first_block := sched_block [x01] 1 [TxHash [x01]] 0 [].
Definition middle_block := sched_block [x02] 2 [TxHash [x01]; TxHash [x02]] 0 [].
Definition last_block := sched_block [x03] 3 [TxHash [x02]] 0 [].

(** Three blocks, the middle one in conflict with each of the others. *)
Definition three_blocks (ho : HashOrder) : CommitScheduler :=
  (@admit_block ho 0 middle_block (@admit_block ho 0 last_block (@admit_block ho 0 first_block CommitScheduler_new).2).2).2.

(** Conflict resolution depends on the iteration order of a set.  A block
    that loses one conflict to a better block and wins another against a
    worse one ends as loser when the conflict it wins is resolved first, and
    as winner, ready for commit, when it is resolved last; two nodes with the
    same blocks can disagree.  Either way the worse block is a loser for
    good. *)
Theorem resolution_depends_on_order : exists ho ho',
  @HashOrderLaws ho /\ @HashOrderLaws ho' /\
  block_status [x02] (three_blocks ho) = Some ResolvedWinner /\
  block_status [x02] (three_blocks ho') = Some ResolvedLoser /\
  block_status [x03] (three_blocks ho) = Some ResolvedLoser /\
  block_status [x03] (three_blocks ho') = Some ResolvedLoser.
Proof.
  exists reversed, in_order. split; [exact reversed_laws|]. split; [exact in_order_laws|]. split_and!; by vm_compute.
Qed.
End Order.

(** ** Witnesses *)

Section Witnesses.
#[local] Existing Instance in_order.

Definition two_nonces := sched_block [x04] 1 [] 2 [sched_tx 0; sched_tx 1].
Definition one_nonce := sched_block [x05] 1 [] 1 [sched_tx 0].
Definition next_one := sched_block [x06] 2 [] 2 [sched_tx 1].
Definition sched_store : Store := mkStore ∅ ∅ ∅ ∅.

Lemma sender_of_tx n : sender_of (sched_tx n) = [x0a].
Proof. by vm_compute. Qed.

Definition sched_run : list (op (S := Store)) :=
  [Admit 0 one_nonce; Drain sched_store; Admit 0 next_one; Drain sched_store].

Lemma no_double_release_witness :
  em_block_hash <$> (run sched_run CommitScheduler_new).1 = [[x05]; [x06]] /\
  (sender_of (sched_tx 0), nonce (sched_tx 0)) <> (sender_of (sched_tx 1), nonce (sched_tx 1)).
Proof.
  split; [by vm_compute|].
  apply (no_double_release sched_run 0 1 (set_status Committed one_nonce) (set_status Committed next_one)).
  - lia.
  - by vm_compute.
  - by vm_compute.
  - by left.
  - by vm_compute.
  - by left.
Defined.

(** A transaction that execution skipped, so that the state diff does not
    move its sender, can be released again: two blocks with it, one after the
    other, are both released. *)
#[local] Instance sched_sha : Sha256 := {| sha256 b := b |}.
#[local] Instance sched_bincode : TxBincode := {| bincode_serialize t := None; bincode_deserialize b := None |}.
Definition skipping (hash : bytes) (rank : Z) : ExecutedBlockMeta :=
  sched_block hash rank (extract_conflict_keys [sched_tx 0]) 0 [sched_tx 0].
Lemma skipped_transaction_released_twice :
  let r := (run (S := Store) [Admit 0 (skipping [x07] 1); Drain sched_store; Admit 0 (skipping [x08] 2); Drain sched_store] CommitScheduler_new).1 in
  em_block_hash <$> r = [[x07]; [x08]] /\ em_txs <$> r = [[sched_tx 0]; [sched_tx 0]].
Proof. by vm_compute. Qed.

Lemma multi_nonce_block_never_released_witness :
  ready_queue (admit_block 0 two_nonces CommitScheduler_new).2 = [[x04]] /\
  ([x04], set_status Committed two_nonces) ∉
    (drain_ready sched_store (admit_block 0 two_nonces CommitScheduler_new).2).1.
Proof.
  split; [by vm_compute|].
  apply (multi_nonce_block_never_released sched_store _ [x04] (set_status Committed two_nonces) (sched_tx 0) (sched_tx 1));
    [by left|by right; left|done|done].
Defined.

Lemma choose_winner_correct_witness :
  choose_winner [mkBMeta [x02] 1 5 0; mkBMeta [x01] 1 7 0] = choose_winner [mkBMeta [x01] 1 7 0; mkBMeta [x02] 1 5 0] /\
  choose_winner [mkBMeta [x01] 1 7 0; mkBMeta [x02] 1 5 0] = Some [x01].
Proof.
  split; [|by vm_compute].
  apply (choose_winner_correct [mkBMeta [x01] 1 7 0; mkBMeta [x02] 1 5 0]). apply Permutation_swap.
Defined.
End Witnesses.

End SchedC.
