(* ===== verification/Proposals.v ===== *)
(** * Block proposals at the masternode

    [savitri-masternode/src/proposal_validator.rs]: the proposal of a light
    node with its election certificate, the checks a masternode makes of it,
    its vote, and the acceptance certificate; [handle_lightnode_proposal] and
    [handle_block_acceptance_certificate] of [libp2p_network.rs], which decide
    what reaches the validator.

    Clock readings are arguments, in seconds; arithmetic on them that the code
    leaves unchecked wraps.  The JSON of the signed election result comes from
    [serde_json] and is a class parameter.  A message is modelled after it has
    been decoded; the cache of block payloads is not modelled. *)

From stdpp Require Import gmap.
From Stdlib Require Import Strings.Byte.
From S2P Require Import Prelude Codec Primitives SignedTx BlockStore BlockExec.

(** [VerifyingKey::verify_strict], and signing: the public key of a secret
    and the signature it makes. *)
Class Ed25519Strict := { ed25519_verify_strict : bytes -> bytes -> bytes -> bool }.
Class Ed25519Sign := { public_key : bytes -> bytes; ed25519_sign : bytes -> bytes -> bytes }.
Class Ed25519SignLaws `{Ed25519, Ed25519Sign} : Prop := {
  sign_verifies sk msg : ed25519_verify (public_key sk) msg (ed25519_sign sk msg) = true;
}.

Module Proposal.
Import Tx.

Record ElectionAttestation := mkAttestation {
  signer_peer_id : string;
  signer_pubkey : bytes;
  att_signature : bytes;
}.

Record ElectionCertificate := mkElection {
  ec_group_id : string;
  election_round : Z;
  elected_proposer_peer_id : string;
  elected_proposer_pubkey : bytes;
  proposer_pou_score : Z;
  ec_timestamp : Z;
  candidates : list (string * Z * Z);
  attestations : list ElectionAttestation;
  tenure_start_height : Z;
}.

Definition PROPOSER_TENURE_BLOCKS : Z := 100.

Inductive MnGroupRole := Leader | Backup | Participant.
#[global] Instance MnGroupRole_eq_dec : EqDecision MnGroupRole.
Proof. solve_decision. Defined.

Record LightnodeProposal := mkProposal {
  p_round_id : Z;
  p_height : Z;
  p_timestamp : Z;
  proposer_pubkey : bytes;
  p_block_hash : bytes;
  tx_count : Z;
  p_signature : bytes;
  p_parent_hash : bytes;
  p_state_root : bytes;
  p_tx_root : bytes;
  proposer_group_id : string;
  election_certificate : option ElectionCertificate;
  raw_txs : option (list bytes);
}.

Record ProposalWithRole := mkWithRole { proposal : LightnodeProposal; role : MnGroupRole }.

Inductive VoteType := Approve | Reject.
#[global] Instance VoteType_eq_dec : EqDecision VoteType.
Proof. solve_decision. Defined.

Record MasternodeVote := mkVote {
  v_round_id : Z;
  v_height : Z;
  v_block_hash : bytes;
  voter_pubkey : bytes;
  vote_type : VoteType;
  v_signature : bytes;
  v_group_id : string;
  v_state_root : bytes;
  v_tx_root : bytes;
  v_parent_hash : bytes;
}.

Record BlockAcceptanceCertificate := mkAcceptance {
  ac_group_id : string;
  ac_height : Z;
  ac_round_id : Z;
  ac_block_hash : bytes;
  ac_tx_root : bytes;
  ac_state_root : bytes;
  ac_parent_hash : bytes;
  ac_tx_count : Z;
  owner_masternode_id : string;
  owner_pubkey : bytes;
  ac_signature : bytes;
  ac_timestamp : Z;
  reward_recipients : list bytes;
}.

Record ProposalValidator := mkValidator {
  local_pubkey : bytes;
  signing_key : bytes;
  quorum_threshold : nat;
}.

(** [serde_json::to_vec] of the signed election result. *)
Class ElectionJson := {
  election_json : Z -> string -> Z -> string -> string -> list (string * Z * Z) -> Z -> option bytes;
}.

Section Validator.
Context `{Hex, Sha256, Sha512, Ed25519, Ed25519Sign}.

Definition from_signing_key (sk : bytes) (quorum : nat) : ProposalValidator := mkValidator (public_key sk) sk quorum.

(** *** Acceptance certificates *)

Definition acceptance_signable (owner_id group_id : string) (height round_id : Z)
    (block_hash tx_root state_root parent_hash : bytes) (tx_count : Z) : bytes :=
  bytes_of_string group_id ++ to_le_bytes 8 height ++ to_le_bytes 8 round_id ++ block_hash ++ tx_root ++ state_root
  ++ parent_hash ++ to_le_bytes 4 tx_count ++ bytes_of_string owner_id.

Definition sign_block_acceptance (now : Z) (self : ProposalValidator) (owner_id group_id : string) (height round_id : Z)
    (block_hash tx_root state_root parent_hash : bytes) (tx_count : Z) : BlockAcceptanceCertificate :=
  let signable := acceptance_signable owner_id group_id height round_id block_hash tx_root state_root parent_hash
                    tx_count in
  mkAcceptance group_id height round_id block_hash tx_root state_root parent_hash tx_count owner_id
    (local_pubkey self) (ed25519_sign (signing_key self) signable) now [].

Definition verify_block_acceptance (c : BlockAcceptanceCertificate) : bool :=
  ed25519_verify (owner_pubkey c)
    (acceptance_signable (owner_masternode_id c) (ac_group_id c) (ac_height c) (ac_round_id c) (ac_block_hash c)
       (ac_tx_root c) (ac_state_root c) (ac_parent_hash c) (ac_tx_count c))
    (ac_signature c).

Definition verify_proposal_matches_certificate (p : LightnodeProposal) (c : BlockAcceptanceCertificate) : bool :=
  if negb (bool_decide (p_block_hash p = ac_block_hash c)) then false
  else if negb (bool_decide (p_tx_root p = ac_tx_root c)) then false
  else if negb (bool_decide (p_state_root p = ac_state_root c)) then false
  else if negb (bool_decide (p_parent_hash p = ac_parent_hash c)) then false
  else if negb (tx_count p =? ac_tx_count c) then false
  else if negb (p_height p =? ac_height c) || negb (p_round_id p =? ac_round_id c) then false
  else true.

(** *** Signatures and validity of a proposal *)

Definition compute_block_hash (parent_hash state_root tx_root : bytes) (height : Z) : bytes :=
  Exec.compute_hash parent_hash (take 32 state_root) (take 32 tx_root) height.

Definition proposal_signable_bytes (p : LightnodeProposal) : bytes :=
  to_le_bytes 8 (p_round_id p) ++ to_le_bytes 8 (p_height p) ++ to_le_bytes 8 (p_timestamp p) ++ proposer_pubkey p
  ++ p_block_hash p ++ to_le_bytes 4 (tx_count p).

Definition legacy_data (p : LightnodeProposal) : bytes :=
  to_le_bytes 8 (p_round_id p) ++ to_le_bytes 8 (p_height p) ++ to_le_bytes 8 (p_timestamp p) ++ proposer_pubkey p
  ++ p_parent_hash p ++ p_state_root p ++ p_tx_root p.

(** The 64 bytes the fallback expects for a signature. *)
Definition legacy_expected (p : LightnodeProposal) : bytes :=
  sha256 (legacy_data p) ++ sha256 (bytes_of_string (hex_encode (proposer_pubkey p))).

(** [parse_key] is [VerifyingKey::from_bytes] accepting the key: the fallback
    is reached only with a key that parses. *)
Definition verify_proposal_signature (parse_key : bytes -> bool) (p : LightnodeProposal) : bool :=
  if negb (parse_key (proposer_pubkey p)) then false
  else if ed25519_verify (proposer_pubkey p) (proposal_signable_bytes p) (p_signature p) then true
  else if negb (bool_decide (p_parent_hash p = zeros 64)) || negb (bool_decide (p_state_root p = zeros 64))
          || negb (bool_decide (p_tx_root p = zeros 64))
  then bool_decide (legacy_expected p = p_signature p)
  else false.

Definition validate_proposal (parse_key : bytes -> bool) (now : Z) (p : LightnodeProposal) : bool :=
  if p_height p =? 0 then false
  else if tx_count p >? 10000 then false
  else if p_timestamp p >? wrap U64_MAX (now + 300) then false
  else if p_timestamp p <? wrap U64_MAX (now - 3600) then false
  else if bool_decide (proposer_pubkey p = zeros 32) then false
  else if bool_decide (p_block_hash p = zeros 64) then false
  else if negb (bool_decide (p_parent_hash p = zeros 64)) && negb (bool_decide (p_state_root p = zeros 64))
          && negb (bool_decide (p_tx_root p = zeros 64))
          && negb (bool_decide (p_block_hash p =
                     compute_block_hash (p_parent_hash p) (p_state_root p) (p_tx_root p) (p_height p)))
  then false
  else if negb (verify_proposal_signature parse_key p) then false
  else true.

(** *** Votes *)

Definition vote_byte (t : VoteType) : byte := match t with Approve => x01 | Reject => x00 end.

Definition vote_data (round_id height : Z) (block_hash pubkey : bytes) (t : VoteType) (group_id : string) : bytes :=
  to_le_bytes 8 round_id ++ to_le_bytes 8 height ++ block_hash ++ pubkey ++ [vote_byte t] ++ bytes_of_string group_id.

(** [vote_on_proposal]; [now'] is its own reading of the clock, after that of
    the validation. *)
Definition vote_on_proposal (parse_key : bytes -> bool) (now now' : Z) (self : ProposalValidator)
    (p : LightnodeProposal) : option MasternodeVote :=
  if negb (validate_proposal parse_key now p) then None
  else if (p_timestamp p >? wrap U64_MAX (now' - 600)) && (p_timestamp p <? wrap U64_MAX (now' + 60)) then
    let data := vote_data (p_round_id p) (p_height p) (p_block_hash p) (local_pubkey self) Approve
                  (proposer_group_id p) in
    Some (mkVote (p_round_id p) (p_height p) (p_block_hash p) (local_pubkey self) Approve
            (ed25519_sign (signing_key self) data) (proposer_group_id p) (p_state_root p) (p_tx_root p)
            (p_parent_hash p))
  else None.
End Validator.

(** *** Election certificates *)

Section Election.
Context `{Ed25519Strict, ElectionJson}.

Definition attestation_payload (c : ElectionCertificate) (signable : bytes) : bytes :=
  bytes_of_string "savitri-intragroup-v1|" ++ bytes_of_string "election_result" ++ bytes_of_string "|"
  ++ bytes_of_string (ec_group_id c) ++ bytes_of_string "|" ++ signable.

(** The loop body over the attestations, after the warning about the roster. *)
Definition verify_attestation (c : ElectionCertificate) (a : ElectionAttestation) : bool :=
  match election_json (election_round c) (elected_proposer_peer_id c) (proposer_pou_score c) (signer_peer_id a)
          (ec_group_id c) (candidates c) (tenure_start_height c) with
  | None => false
  | Some signable => ed25519_verify_strict (signer_pubkey a) (attestation_payload c signable) (att_signature a)
  end.

Definition election_quorum (group_size : nat) : Z := 2 * (saturating_sub (Z.of_nat group_size) 1 / 3) + 1.
Definition MIN_FLOOR_ATTESTATIONS : Z := 3.

(** The attestations whose signer is on the roster. *)
Definition valid_signers (members : list string) (c : ElectionCertificate) : Z :=
  Z.of_nat (length (filter (fun a => signer_peer_id a ∈ members) (attestations c))).

(** [falla3_disabled] is the environment variable, true by default. *)
Definition verify_proposal_group_and_certificate (falla3_disabled : bool) (p : LightnodeProposal)
    (group_members : list string) : bool :=
  if bool_decide (proposer_group_id p = "") then false
  else match election_certificate p with
  | None => false
  | Some c =>
      let tenure_end := saturating_add U64_MAX (tenure_start_height c) PROPOSER_TENURE_BLOCKS in
      if negb falla3_disabled && ((p_height p <? tenure_start_height c) || (p_height p >=? tenure_end)) then false
      else if negb (bool_decide (ec_group_id c = proposer_group_id p)) then false
      else if negb (bool_decide (elected_proposer_pubkey c = proposer_pubkey p)) then false
      else if negb (forallb (verify_attestation c) (attestations c)) then false
      else if bool_decide (attestations c = []) then false
      else if negb (bool_decide (group_members = [])) then
        negb (valid_signers group_members c <? election_quorum (length group_members))
      else negb (Z.of_nat (length (attestations c)) <? MIN_FLOOR_ATTESTATIONS)
  end.
End Election.

End Proposal.
