(* ===== verification/Votes.v ===== *)
(** * The vote aggregator

    [savitri-masternode/src/vote_aggregator.rs]: the votes of the masternodes
    on a proposal are collected until a quorum of them makes a
    [BlockCertificate]; and [group_index_from_id] of
    [savitri-consensus/src/primitives/group_id.rs].

    Every method takes the locks it needs in turn and holds no two of them
    while it waits, except that [add_vote] keeps the lock on the votes until
    the bucket is removed; the model runs a method as one step.  Counts are
    [nat].  The certificate carries the time it is made, an argument. *)

From stdpp Require Import gmap pretty.
From Stdlib Require Import Strings.Byte Strings.Ascii.
From S2P Require Import Prelude OrdMap Codec Primitives SignedTx BlockStore Proposals.

(** ** Group identifiers *)

Module GroupId.

(** [str::split]. *)
Fixpoint split_on (sep : ascii) (s : string) : list string :=
  match s with
  | EmptyString => [EmptyString]
  | String a s =>
      if Ascii.eqb a sep then EmptyString :: split_on sep s
      else match split_on sep s with
           | [] => [String a EmptyString]
           | w :: l => String a w :: l
           end
  end.

Definition digit_value (a : ascii) : option Z :=
  let n := Z.of_nat (nat_of_ascii a) in if (48 <=? n) && (n <=? 57) then Some (n - 48) else None.

Fixpoint parse_digits (acc : Z) (s : string) : option Z :=
  match s with
  | EmptyString => Some acc
  | String a s =>
      d ← digit_value a;
      acc ← checked_mul U64_MAX acc 10;
      acc ← checked_add U64_MAX acc d;
      parse_digits acc s
  end.

(** [str::parse::<usize>]: an optional sign and at least one digit. *)
Definition parse_usize (s : string) : option Z :=
  match s with
  | EmptyString => None
  | String "+" EmptyString => None
  | String "+" s => parse_digits 0 s
  | _ => parse_digits 0 s
  end.

Definition group_index_from_id (group_id : string) : option Z :=
  match split_on "_" group_id with
  | first :: second :: third :: _ =>
      if negb (bool_decide (first = "group")) then None
      else if bool_decide (second = "singleton") then parse_usize third
      else parse_usize third
  | _ => None
  end.

(** *** Facts *)

(** The string has no underscore. *)
Definition plain (s : string) : Prop := Forall (fun a => a <> "_"%char) (String.list_ascii_of_string s).

Lemma split_plain s t : plain s -> split_on "_" (s +:+ String "_" t) = s :: split_on "_" t.
Proof.
  intros Hs. induction s as [|a s IH]; [done|]. inversion Hs as [|? ? Ha Hs']; subst.
  change (String a s +:+ String "_" t) with (String a (s +:+ String "_" t)). cbn [split_on].
  destruct (Ascii.eqb_spec a "_"); [done|]. by rewrite IH.
Qed.

Lemma split_last s : plain s -> split_on "_" s = [s].
Proof.
  intros Hs. induction s as [|a s IH]; [done|]. inversion Hs as [|? ? Ha Hs']; subst. cbn [split_on].
  destruct (Ascii.eqb_spec a "_"); [done|]. by rewrite IH.
Qed.

Definition is_digit (a : ascii) : Prop := is_Some (digit_value a).

Lemma pretty_digit n : (n < 10)%N -> digit_value (pretty_N_char n) = Some (Z.of_N n).
Proof.
  intros Hn. assert (n ∈ (N.of_nat <$> seq 0 10)) as Hin.
  { apply list_elem_of_fmap. exists (N.to_nat n). split; [lia|]. apply elem_of_seq. lia. }
  revert Hin. clear. simpl. intros H. repeat (apply elem_of_cons in H as [->|H]; [done|]). by apply elem_of_nil in H.
Qed.

Lemma parse_pretty_go x s : Z.of_N x <= U64_MAX -> parse_digits 0 (pretty_N_go x s) = parse_digits (Z.of_N x) s.
Proof.
  revert s. induction (N.lt_wf_0 x) as [x _ IH]. intros s Hx. destruct (decide (0 < x)%N) as [Hp|Hp].
  - rewrite pretty_N_go_step by done.
    assert ((x `div` 10) < x)%N by (apply N.div_lt; lia).
    rewrite IH by (done || lia). cbn [parse_digits].
    rewrite pretty_digit by (apply N.mod_lt; lia). cbn [mbind option_bind].
    assert (Z.of_N x = Z.of_N (x `div` 10) * 10 + Z.of_N (x `mod` 10)) as E.
    { pose proof (N.div_mod x 10 ltac:(done)). lia. }
    assert (checked_mul U64_MAX (Z.of_N (x `div` 10)) 10 = Some (Z.of_N (x `div` 10) * 10)) as ->.
    { apply checked_mul_Some. split; [done|]. clear - E Hx. pose proof (N2Z.is_nonneg (x `mod` 10)%N).
      set (r := Z.of_N (x `mod` 10)) in *. set (q := Z.of_N (x `div` 10)) in *. clearbody r q. lia. }
    assert (checked_add U64_MAX (Z.of_N (x `div` 10) * 10) (Z.of_N (x `mod` 10)) = Some (Z.of_N x)) as Ha.
    { apply checked_add_Some. split; [done|]. by rewrite <- E. }
    cbn [mbind option_bind]. by rewrite Ha.
  - assert (x = 0)%N as -> by lia. by rewrite pretty_N_go_0.
Qed.

Lemma parse_pretty n : Z.of_N n <= U64_MAX -> parse_usize (pretty n) = Some (Z.of_N n).
Proof.
  intros Hn. unfold pretty, pretty_N. case_decide as H0; [by subst|].
  pose proof (parse_pretty_go n "" Hn) as Hp. cbn [parse_digits] in Hp.
  destruct (pretty_N_go n "") as [|a s] eqn:E; [by injection Hp; intros; subst; lia|].
  rewrite <- Hp. cbn [parse_usize parse_digits]. destruct (Ascii.eqb_spec a "+") as [->|Hne].
  - done.
  - destruct a as [[] [] [] [] [] [] [] []]; done || (exfalso; by apply Hne).
Qed.

Lemma plain_pretty_go x s : plain s -> plain (pretty_N_go x s).
Proof.
  revert s. induction (N.lt_wf_0 x) as [x _ IH]. intros s Hs. destruct (decide (0 < x)%N) as [Hp|Hp].
  - rewrite pretty_N_go_step by done. apply IH; [apply N.div_lt; lia|].
    assert (digit_value (pretty_N_char (x `mod` 10)) = Some (Z.of_N (x `mod` 10))) as Hd.
    { apply pretty_digit, N.mod_lt. lia. }
    apply Forall_cons. split; [|done]. intros E. by rewrite E in Hd.
  - assert (x = 0)%N as -> by lia. by rewrite pretty_N_go_0.
Qed.

Lemma plain_pretty (n : N) : plain (pretty n).
Proof.
  unfold pretty, pretty_N. case_decide; [by repeat constructor|]. by apply plain_pretty_go, Forall_nil.
Qed.

(** The name of a group of an epoch, as group formation writes it. *)
Definition group_name (epoch index : N) : string :=
  "group" +:+ String "_" (pretty epoch +:+ String "_" (pretty index +:+ String "_" (pretty epoch))).

(** The index of a group is read back from its name, whatever the epoch. *)
Theorem group_index_roundtrip (epoch index : N) : Z.of_N index <= U64_MAX ->
  group_index_from_id (group_name epoch index) = Some (Z.of_N index) /\
  group_index_from_id ("group_singleton_" +:+ pretty index) = Some (Z.of_N index).
Proof.
  intros Hi.
  assert (plain "group" /\ plain "singleton") as [Hg Hs] by (by repeat constructor). unfold group_index_from_id. split.
  - unfold group_name. rewrite (split_plain "group"), (split_plain (pretty epoch)), (split_plain (pretty index))
      by (done || apply plain_pretty).
    rewrite parse_pretty by done. rewrite bool_decide_true by done. by destruct (bool_decide (pretty epoch = _)).
  - change ("group_singleton_" +:+ pretty index) with ("group" +:+ String "_" ("singleton" +:+ String "_" (pretty index))).
    rewrite (split_plain "group"), (split_plain "singleton"), split_last by (done || apply plain_pretty).
    by rewrite parse_pretty.
Qed.

End GroupId.

(** ** The aggregator *)

Module Votes.
Import Proposal GroupId.

(** Height, round, block hash and group. *)
Definition ProposalKey : Type := Z * Z * bytes * string.

Record ProposalVotes := mkVotes { approve_votes : list MasternodeVote; reject_votes : list MasternodeVote }.
Definition ProposalVotes_new : ProposalVotes := mkVotes [] [].

(** A vote of a voter who is on the list already is dropped. *)
Definition push_vote (v : MasternodeVote) (l : list MasternodeVote) : list MasternodeVote :=
  if existsb (fun w => bool_decide (voter_pubkey w = voter_pubkey v)) l then l else l ++ [v].

(** [ProposalVotes::add_vote]. *)
Definition record_vote (v : MasternodeVote) (pv : ProposalVotes) : ProposalVotes :=
  match vote_type v with
  | Approve => mkVotes (push_vote v (approve_votes pv)) (reject_votes pv)
  | Reject => mkVotes (approve_votes pv) (push_vote v (reject_votes pv))
  end.

Definition get_certificate_votes (pv : ProposalVotes) : list MasternodeVote := approve_votes pv.

Record BlockCertificate := mkBlockCert {
  bc_round_id : Z;
  bc_height : Z;
  bc_block_hash : bytes;
  bc_votes : list MasternodeVote;
  bc_timestamp : Z;
  bc_group_id : string;
  bc_state_root : bytes;
  bc_tx_root : bytes;
  bc_parent_hash : bytes;
  bc_reward_recipients : list bytes;
}.

Definition vote_key (v : MasternodeVote) : ProposalKey := (v_height v, v_round_id v, v_block_hash v, v_group_id v).
Definition cert_key (c : BlockCertificate) : ProposalKey :=
  (bc_height c, bc_round_id c, bc_block_hash c, bc_group_id c).

Record VoteAggregator := mkAggregator {
  votes : gmap ProposalKey ProposalVotes;
  group_mn_sizes : gmap string nat;
  issued_certs : gset ProposalKey;
  fallback_voters : nat;
}.

Definition VoteAggregator_new (total_voters : nat) : VoteAggregator := mkAggregator ∅ ∅ ∅ total_voters.

Definition quorum_for_voters (n : nat) : Z := Quorum.quorum_for_voters (Z.of_nat n).
Definition index_alias_key (index : Z) : string := "#idx:" +:+ pretty index.

Definition add_size (m : gmap string nat) (p : string * nat) : gmap string nat :=
  <[p.1 := p.2]> (match group_index_from_id p.1 with Some idx => <[index_alias_key idx := p.2]> m | None => m end).

Definition set_group_mn_sizes `{HashOrder} (sizes : gmap string nat) (s : VoteAggregator) : VoteAggregator :=
  mkAggregator (votes s) (fold_left add_size (hash_order (map_to_list sizes)) ∅) (issued_certs s) (fallback_voters s).

Definition quorum_for_group (group_id : string) (s : VoteAggregator) : Z :=
  match group_mn_sizes s !! group_id with
  | Some n => quorum_for_voters n
  | None =>
      match idx ← group_index_from_id group_id; group_mn_sizes s !! index_alias_key idx with
      | Some n => quorum_for_voters n
      | None => quorum_for_voters (fallback_voters s)
      end
  end.

Definition key_height (k : ProposalKey) : Z := k.1.1.1.

Definition cleanup_old_votes (max_height : Z) (s : VoteAggregator) : VoteAggregator :=
  let floor := saturating_sub max_height 10 in
  mkAggregator (filter (fun p => floor <= key_height p.1) (votes s)) (group_mn_sizes s)
    (filter (fun k => floor <= key_height k) (issued_certs s)) (fallback_voters s).

Record VoteAggregatorStats := mkVStats { active_proposals : nat; total_votes : nat }.
Definition get_stats (s : VoteAggregator) : VoteAggregatorStats :=
  mkVStats (size (votes s))
    (sum_list ((fun p : ProposalKey * ProposalVotes => length (approve_votes p.2) + length (reject_votes p.2))%nat
       <$> map_to_list (votes s))).

Section Aggregate.
Context `{Ed25519}.

Definition verify_vote_signature (v : MasternodeVote) : bool :=
  ed25519_verify (voter_pubkey v)
    (vote_data (v_round_id v) (v_height v) (v_block_hash v) (voter_pubkey v) (vote_type v) (v_group_id v))
    (v_signature v).

(** The certificate made of a bucket. *)
Definition make_certificate (now : Z) (k : ProposalKey) (pv : ProposalVotes) : BlockCertificate :=
  let '(height, round_id, block_hash, group_id) := k in
  let '(state_root, tx_root, parent_hash) :=
    match approve_votes pv with
    | v :: _ => (v_state_root v, v_tx_root v, v_parent_hash v)
    | [] => (zeros 64, zeros 64, zeros 64)
    end in
  mkBlockCert round_id height block_hash (get_certificate_votes pv) now group_id state_root tx_root parent_hash [].

Definition add_vote (now : Z) (v : MasternodeVote) (s : VoteAggregator) : option BlockCertificate * VoteAggregator :=
  if negb (verify_vote_signature v) then (None, s)
  else
    let key := vote_key v in
    if bool_decide (key ∈ issued_certs s) then (None, s)
    else
      let quorum := quorum_for_group (v_group_id v) s in
      let pv := record_vote v (default ProposalVotes_new (votes s !! key)) in
      if Z.of_nat (length (approve_votes pv)) >=? quorum then
        (Some (make_certificate now key pv),
         mkAggregator (delete key (votes s)) (group_mn_sizes s) ({[ key ]} ∪ issued_certs s) (fallback_voters s))
      else (None, mkAggregator (<[key := pv]> (votes s)) (group_mn_sizes s) (issued_certs s) (fallback_voters s)).

(** *** Runs *)

Inductive op :=
| AddVote (now : Z) (v : MasternodeVote)
| SetSizes (sizes : gmap string nat)
| Cleanup (max_height : Z).

Context `{HashOrder}.

Definition exec (o : op) (s : VoteAggregator) : list BlockCertificate * VoteAggregator :=
  match o with
  | AddVote now v => let '(c, s) := add_vote now v s in (option_list c, s)
  | SetSizes sizes => ([], set_group_mn_sizes sizes s)
  | Cleanup h => ([], cleanup_old_votes h s)
  end.

Fixpoint run (l : list op) (s : VoteAggregator) : list BlockCertificate * VoteAggregator :=
  match l with
  | [] => ([], s)
  | o :: l => let '(cs, s) := exec o s in let '(cs', s) := run l s in (cs ++ cs', s)
  end.
End Aggregate.

End Votes.
