(* ===== verification/VoteCorrect.v ===== *)
(** * Correctness of the vote aggregator

    What an issued certificate rests on, that a proposal is certified once,
    and exactly when it is; what the certificate does not rest on: neither
    the membership of the voters nor the roots it carries are checked. *)

From stdpp Require Import gmap.
From Stdlib Require Import Strings.Byte.
From S2P Require Import Prelude OrdMap Codec Primitives SignedTx BlockStore Proposals Votes.

Module VoteC.
Import Proposal GroupId Votes.

Section Theorems.
Context `{Ed25519, HashOrder}.

(** *** Buckets *)

(** The votes of a list are for the key and of the type, verified, and of
    different voters. *)
Definition ballots (k : ProposalKey) (t : VoteType) (l : list MasternodeVote) : Prop :=
  NoDup (voter_pubkey <$> l) /\
  Forall (fun v => vote_key v = k /\ vote_type v = t /\ verify_vote_signature v = true) l.

Definition bucket_ok (k : ProposalKey) (pv : ProposalVotes) : Prop :=
  ballots k Approve (approve_votes pv) /\ ballots k Reject (reject_votes pv).

Lemma existsb_voter v l : existsb (fun w => bool_decide (voter_pubkey w = voter_pubkey v)) l = true <->
  voter_pubkey v ∈ voter_pubkey <$> l.
Proof.
  rewrite existsb_exists, list_elem_of_fmap. split.
  - intros (w & Hw & E). apply bool_decide_eq_true in E. exists w. split; [done|]. by apply list_elem_of_In.
  - intros (w & E & Hw). exists w. split; [by apply list_elem_of_In|]. by apply bool_decide_eq_true.
Qed.

Lemma push_ballots k t v l : vote_key v = k -> vote_type v = t -> verify_vote_signature v = true ->
  ballots k t l -> ballots k t (push_vote v l).
Proof.
  intros Hk Ht Hv [Hn Hf]. unfold push_vote. destruct (existsb _ l) eqn:E; [done|]. split.
  - rewrite fmap_app. apply NoDup_app. split; [done|]. split; [|apply NoDup_singleton].
    intros x Hx [->|[]%elem_of_nil]%elem_of_cons. apply not_true_iff_false in E. apply E. by apply existsb_voter.
  - apply Forall_app. split; [done|]. by repeat constructor.
Qed.

Lemma record_ok k v pv : vote_key v = k -> verify_vote_signature v = true -> bucket_ok k pv ->
  bucket_ok k (record_vote v pv).
Proof.
  intros Hk Hv [Ha Hr]. unfold record_vote. destruct (vote_type v) eqn:Ht; (split; [|done]) || (split; [done|]);
    by apply push_ballots.
Qed.

Lemma new_ok k : bucket_ok k ProposalVotes_new.
Proof. repeat split; constructor. Qed.

Definition aggregator_ok (s : VoteAggregator) : Prop := map_Forall bucket_ok (votes s).

Lemma bucket_of s k : aggregator_ok s -> bucket_ok k (default ProposalVotes_new (votes s !! k)).
Proof. intros Hs. destruct (votes s !! k) eqn:E; [by apply Hs|apply new_ok]. Qed.

(** What [add_vote] does with a vote it takes into account. *)
Lemma add_vote_cases now v s :
  (verify_vote_signature v = false \/ vote_key v ∈ issued_certs s) /\ add_vote now v s = (None, s) \/
  verify_vote_signature v = true /\ vote_key v ∉ issued_certs s /\
  (let pv := record_vote v (default ProposalVotes_new (votes s !! vote_key v)) in
  (quorum_for_group (v_group_id v) s <= Z.of_nat (length (approve_votes pv)) /\
   add_vote now v s = (Some (make_certificate now (vote_key v) pv),
     mkAggregator (delete (vote_key v) (votes s)) (group_mn_sizes s) ({[ vote_key v ]} ∪ issued_certs s)
       (fallback_voters s)) \/
   Z.of_nat (length (approve_votes pv)) < quorum_for_group (v_group_id v) s /\
   add_vote now v s = (None, mkAggregator (<[vote_key v := pv]> (votes s)) (group_mn_sizes s) (issued_certs s)
     (fallback_voters s)))).
Proof.
  unfold add_vote. destruct (verify_vote_signature v); simpl; [|left; auto].
  case_bool_decide as Hi; [left; auto|]. right. split; [done|]. split; [done|].
  rewrite Z.geb_leb. destruct (Z.leb_spec (quorum_for_group (v_group_id v) s)
    (Z.of_nat (length (approve_votes (record_vote v (default ProposalVotes_new (votes s !! vote_key v)))))));
    [left|right]; by split.
Qed.

Lemma exec_ok o s : aggregator_ok s -> aggregator_ok (exec o s).2.
Proof.
  intros Hs. destruct o as [now v|sizes|h]; simpl; [|done|].
  - destruct (add_vote_cases now v s) as [[_ ->]|(Hv & Hi & [[_ ->]|[_ ->]])]; simpl; [done|..].
    + by apply map_Forall_delete.
    + apply map_Forall_insert_2; [|done]. by apply record_ok, bucket_of.
  - intros k pv. unfold cleanup_old_votes. simpl. rewrite map_lookup_filter_Some. intros [Hk _]. by apply Hs.
Qed.

(** *** What a certificate rests on *)

(** The votes of a certificate are verified approvals of just its proposal by
    different keys. *)
Definition backed (c : BlockCertificate) : Prop :=
  NoDup (voter_pubkey <$> bc_votes c) /\
  Forall (fun v => vote_key v = cert_key c /\ vote_type v = Approve /\ verify_vote_signature v = true) (bc_votes c) /\
  (forall v l, bc_votes c = v :: l ->
     bc_state_root c = v_state_root v /\ bc_tx_root c = v_tx_root v /\ bc_parent_hash c = v_parent_hash v).

Lemma cert_key_make now k pv : cert_key (make_certificate now k pv) = k.
Proof. destruct k as [[[h r] b] g], pv as [[|v l] rj]; done. Qed.

Lemma cert_votes_make now k pv : bc_votes (make_certificate now k pv) = approve_votes pv.
Proof. destruct k as [[[h r] b] g], pv as [[|v l] rj]; done. Qed.

Lemma make_backed now k pv : bucket_ok k pv -> backed (make_certificate now k pv).
Proof.
  intros [[Hn Hf] _]. unfold backed. rewrite cert_key_make, cert_votes_make. split; [done|]. split; [done|].
  intros v l E. unfold make_certificate. destruct k as [[[h r] b] g]. by rewrite E.
Qed.

Lemma run_snoc l o s : run (l ++ [o]) s =
  ((run l s).1 ++ (exec o (run l s).2).1, (exec o (run l s).2).2).
Proof.
  revert s. induction l as [|a l IH]; intros s; simpl.
  - destruct (exec o s). simpl. by rewrite app_nil_r.
  - destruct (exec a s) as [cs s']. rewrite IH. destruct (run l s') as [cs' s'']. simpl. by rewrite app_assoc.
Qed.

Lemma run_ok_inv l s : aggregator_ok s -> aggregator_ok (run l s).2.
Proof.
  intros Hs. induction l as [|o l IH] using rev_ind; [done|]. rewrite run_snoc. by apply exec_ok.
Qed.

Lemma run_elem c l s : c ∈ (run l s).1 ->
  exists l1 now v l2, l = l1 ++ AddVote now v :: l2 /\ (add_vote now v (run l1 s).2).1 = Some c.
Proof.
  induction l as [|o l IH] using rev_ind; [by intros ?%elem_of_nil|].
  rewrite run_snoc. simpl. intros [Hc|Hc]%elem_of_app.
  - destruct (IH Hc) as (l1 & now & v & l2 & -> & E). exists l1, now, v, (l2 ++ [o]). by rewrite <- app_assoc.
  - destruct o as [now v|sizes|h]; simpl in Hc; [|by apply elem_of_nil in Hc..].
    exists l, now, v, []. split; [done|]. destruct (add_vote now v (run l s).2) as [[c'|] s']; simpl in *.
    + by apply list_elem_of_singleton in Hc as ->.
    + by apply elem_of_nil in Hc.
Qed.

(** Every certificate is backed by a quorum.  Whatever votes arrive, in
    whatever order and however often, and however the group sizes change:
    a certificate that is issued lists, for its very proposal, verified
    approvals of pairwise different keys, at least as many as the quorum of
    its group at that moment, and takes its roots from the first of them. *)
Theorem certificate_backed (n : nat) (l : list op) (c : BlockCertificate) :
  c ∈ (run l (VoteAggregator_new n)).1 ->
  backed c /\
  exists l1 now v l2, l = l1 ++ AddVote now v :: l2 /\ vote_key v = cert_key c /\
    quorum_for_group (bc_group_id c) (run l1 (VoteAggregator_new n)).2 <= Z.of_nat (length (bc_votes c)).
Proof.
  intros Hc. apply run_elem in Hc as (l1 & now & v & l2 & -> & E).
  assert (aggregator_ok (run l1 (VoteAggregator_new n)).2) as Hs by (by apply run_ok_inv, map_Forall_empty).
  destruct (add_vote_cases now v (run l1 (VoteAggregator_new n)).2) as [[_ E']|(Hv & _ & [[Hq E']|[_ E']])];
    rewrite E' in E; [done| |done]. cbn [fst] in E. apply (inj Some) in E.
  pose proof (make_backed now (vote_key v) _ (record_ok _ v _ eq_refl Hv (bucket_of _ _ Hs))) as Hb.
  rewrite E in Hb. pose proof (f_equal cert_key E) as Hk. pose proof (f_equal bc_votes E) as Hl.
  rewrite cert_key_make in Hk. rewrite cert_votes_make in Hl. rewrite Hl in Hq. split; [done|]. exists l1, now, v, l2. split; [done|].
  split; [done|]. by change (bc_group_id c) with (cert_key c).2; rewrite <- Hk.
Qed.

(** *** One certificate per proposal *)

(** The floors of the cleanups in a run. *)
Definition cleaned (l : list op) (k : ProposalKey) : Prop :=
  exists h, Cleanup h ∈ l /\ key_height k < saturating_sub h 10.

Lemma issued_step o s k : k ∈ issued_certs s -> k ∈ issued_certs (exec o s).2 \/ cleaned [o] k.
Proof.
  intros Hk. destruct o as [now v|sizes|h]; simpl; [|by left|].
  - left. destruct (add_vote_cases now v s) as [[_ ->]|(_ & _ & [[_ ->]|[_ ->]])]; simpl; [done|by apply elem_of_union_r|done].
  - destruct (decide (saturating_sub h 10 <= key_height k)).
    + left. by apply elem_of_filter.
    + right. exists h. split; [set_solver|lia].
Qed.

Lemma issued_run l s k : k ∈ issued_certs s -> k ∈ issued_certs (run l s).2 \/ cleaned l k.
Proof.
  intros Hk. induction l as [|o l IH] using rev_ind; [by left|]. rewrite run_snoc. simpl.
  assert (forall a b : list op, a ⊆ b -> cleaned a k -> cleaned b k) as Hsub by (intros a b Hab (h & Hh & Hf); exists h; auto).
  destruct IH as [IH|IH]; [|right; eapply Hsub; [|exact IH]; set_solver].
  destruct (issued_step o _ _ IH) as [?|Hc]; [by left|]. right. eapply Hsub; [|exact Hc]. set_solver.
Qed.

(** C24: A proposal is certified once.  If a vote yields a certificate and,
    after the operations [l], another vote yields one for the same height,
    round, hash and group, then one of the operations between them was a
    cleanup that dropped the height. *)
Theorem no_second_certificate (s : VoteAggregator) (now now' : Z) (v v' : MasternodeVote) (l : list op)
    (c c' : BlockCertificate) :
  (add_vote now v s).1 = Some c -> (add_vote now' v' (run l (add_vote now v s).2).2).1 = Some c' ->
  cert_key c = cert_key c' -> cleaned l (cert_key c).
Proof.
  destruct (add_vote_cases now v s) as [[_ ->]|(_ & _ & [[_ ->]|[_ ->]])]; cbn [fst snd]; [done| |done].
  intros E. apply (inj Some) in E. rewrite <- E, cert_key_make. set (s1 := mkAggregator _ _ _ _).
  destruct (add_vote_cases now' v' (run l s1).2) as [[_ ->]|(_ & Hn & [[_ ->]|[_ ->]])]; cbn [fst]; [done| |done].
  intros E'. apply (inj Some) in E'. rewrite <- E', cert_key_make. intros Hk.
  destruct (issued_run l s1 (vote_key v)) as [Hi|?]; [by apply elem_of_union_l, elem_of_singleton| |done].
  by rewrite Hk in Hi.
Qed.

(** *** Exactly when a proposal is certified *)

Definition approves (k : ProposalKey) (v : MasternodeVote) : Prop :=
  vote_key v = k /\ vote_type v = Approve /\ verify_vote_signature v = true.
#[local] Instance approves_dec k v : Decision (approves k v).
Proof. unfold approves. apply _. Defined.

(** The keys that have approved a proposal. *)
Definition approvers (k : ProposalKey) (vs : list (Z * MasternodeVote)) : gset bytes :=
  list_to_set (voter_pubkey <$> filter (approves k) vs.*2).

Lemma approvers_snoc k vs now v :
  approvers k (vs ++ [(now, v)]) = (if decide (approves k v) then {[ voter_pubkey v ]} else ∅) ∪ approvers k vs.
Proof.
  unfold approvers. rewrite fmap_app, filter_app, fmap_app, list_to_set_app_L, (comm_L (∪)). f_equal.
  simpl. rewrite filter_cons, filter_nil. case_decide; [|done]. simpl. by rewrite union_empty_r_L.
Qed.

Definition cast (vs : list (Z * MasternodeVote)) : list op := (fun p => AddVote p.1 p.2) <$> vs.

Definition voters (l : list MasternodeVote) : gset bytes := list_to_set (voter_pubkey <$> l).

Lemma push_voters v l : voters (push_vote v l) = {[ voter_pubkey v ]} ∪ voters l.
Proof.
  unfold voters, push_vote. destruct (existsb _ l) eqn:E.
  - apply existsb_voter in E. assert (voter_pubkey v ∈@{gset bytes} list_to_set (voter_pubkey <$> l)) as Hin
      by (by apply elem_of_list_to_set). apply (anti_symm (⊆)); [by apply union_subseteq_r|].
    apply union_subseteq. split; [by apply singleton_subseteq_l|done].
  - rewrite fmap_app, list_to_set_app_L, (comm_L (∪)). simpl. by rewrite union_empty_r_L.
Qed.

Lemma ballots_size k t l : ballots k t l -> size (voters l) = length l.
Proof.
  intros [Hn _]. unfold voters. rewrite size_list_to_set by done. apply length_fmap.
Qed.

Lemma record_voters k v pv : vote_key v = k -> verify_vote_signature v = true ->
  voters (approve_votes (record_vote v pv)) =
  (if decide (approves k v) then {[ voter_pubkey v ]} else ∅) ∪ voters (approve_votes pv).
Proof.
  intros Hk Hv. unfold record_vote. destruct (vote_type v) eqn:Ht; simpl.
  - rewrite decide_True by done. apply push_voters.
  - rewrite decide_False by (intros (_ & E & _); by rewrite Ht in E). by rewrite union_empty_l_L.
Qed.

(** Where the aggregator stands after the votes [vs]. *)
Definition standing (q : Z) (k : ProposalKey) (vs : list (Z * MasternodeVote)) (certs : list BlockCertificate)
    (s : VoteAggregator) : Prop :=
  (k ∈ issued_certs s /\ q <= Z.of_nat (size (approvers k vs)) /\ exists c, c ∈ certs /\ cert_key c = k) \/
  (k ∉ issued_certs s /\ Z.of_nat (size (approvers k vs)) < q /\ (forall c, c ∈ certs -> cert_key c <> k) /\
   voters (approve_votes (default ProposalVotes_new (votes s !! k))) = approvers k vs).

Definition same_sizes (s s' : VoteAggregator) : Prop :=
  group_mn_sizes s' = group_mn_sizes s /\ fallback_voters s' = fallback_voters s.

Lemma same_quorum s s' g : same_sizes s s' -> quorum_for_group g s' = quorum_for_group g s.
Proof. intros [E1 E2]. unfold quorum_for_group. by rewrite E1, E2. Qed.

Lemma approvers_mono k vs p : approvers k vs ⊆ approvers k (vs ++ [p]).
Proof. destruct p as [now v]. rewrite approvers_snoc. apply union_subseteq_r. Qed.

(** A vote that is not counted for a proposal leaves it where it stands. *)
Lemma standing_skip q k vs certs s now v : (~ approves k v \/ k ∈ issued_certs s) ->
  standing q k vs certs s -> standing q k (vs ++ [(now, v)]) certs s.
Proof.
  intros Hn [(Hi & Hq & Hc)|(Hi & Hq & Hc & Ha)].
  - left. split; [done|]. split; [|done]. pose proof (subseteq_size _ _ (approvers_mono k vs (now, v))). lia.
  - right. destruct Hn as [Hn|]; [|done]. rewrite approvers_snoc, decide_False, union_empty_l_L by done. done.
Qed.

Lemma standing_other q k vs certs c s s' : cert_key c <> k -> (k ∈ issued_certs s' <-> k ∈ issued_certs s) ->
  votes s' !! k = votes s !! k -> standing q k vs certs s -> standing q k vs (certs ++ [c]) s'.
Proof.
  intros Hc Hi Hv. unfold standing. rewrite Hv, Hi. intros [(H1 & H2 & x & Hx & E)|(H1 & H2 & H3 & H4)]; [left|right].
  - split; [done|]. split; [done|]. exists x. split; [by apply elem_of_app; left|done].
  - split; [done|]. split; [done|]. split; [|done]. intros x [Hx| ->%list_elem_of_singleton]%elem_of_app; [by apply H3|done].
Qed.

Lemma standing_same q k vs certs s s' : issued_certs s' = issued_certs s -> votes s' !! k = votes s !! k ->
  standing q k vs certs s -> standing q k vs certs s'.
Proof. intros Hi Hv. unfold standing. by rewrite Hv, Hi. Qed.

Lemma cast_standing (s : VoteAggregator) (k : ProposalKey) (vs : list (Z * MasternodeVote)) :
  votes s = ∅ -> issued_certs s = ∅ -> 0 < quorum_for_group k.2 s ->
  let r := run (cast vs) s in
  aggregator_ok r.2 /\ same_sizes s r.2 /\ standing (quorum_for_group k.2 s) k vs r.1 r.2.
Proof.
  intros Hv Hi Hq. cbn zeta. induction vs as [|[now v] vs IH] using rev_ind; simpl.
  { split; [unfold aggregator_ok; rewrite Hv; apply map_Forall_empty|]. split; [done|]. right.
    rewrite Hv, Hi, lookup_empty. split; [apply not_elem_of_empty|]. split; [exact Hq|].
    split; [|done]. by intros c ?%elem_of_nil. }
  destruct IH as (Hok & Hs & Hst). unfold cast. rewrite fmap_app. fold (cast vs). cbn [fmap list_fmap].
  rewrite run_snoc. set (r := run (cast vs) s) in *. split; [by apply exec_ok|]. cbn [fst snd exec].
  destruct (add_vote_cases now v r.2) as [[Hno ->]|(Hver & Hni & [[Hge ->]|[Hlt ->]])]; cbn [fst snd option_list].
  - rewrite app_nil_r. split; [done|]. apply standing_skip; [|done]. destruct Hno as [Hno|Hno].
    + left. intros (_ & _ & E). by rewrite Hno in E.
    + destruct (decide (vote_key v = k)) as [<-|]; [by right|]. left. by intros [? _].
  - split; [done|]. destruct (decide (vote_key v = k)) as [<-|Hne].
    + left. cbn [issued_certs]. split; [by apply elem_of_union_l, elem_of_singleton|]. split.
      * destruct Hst as [(Hin & _)|(_ & _ & _ & Ha)]; [done|].
        rewrite approvers_snoc, <- Ha, <- (record_voters (vote_key v)) by done.
        rewrite (ballots_size (vote_key v) Approve) by (by apply record_ok, bucket_of).
        rewrite (same_quorum s) in Hge by done. done.
      * eexists. split; [apply elem_of_app; right; by apply list_elem_of_singleton|]. apply cert_key_make.
    + apply (standing_other _ _ _ _ _ r.2); [by rewrite cert_key_make| |by apply lookup_delete_ne|].
      { cbn [issued_certs]. rewrite elem_of_union, elem_of_singleton. naive_solver. }
      apply standing_skip; [|done]. left. by intros [? _].
  - rewrite app_nil_r. split; [done|]. destruct (decide (vote_key v = k)) as [<-|Hne].
    + right. destruct Hst as [(Hin & _)|(_ & _ & Hc & Ha)]; [done|]. split; [done|]. cbn [votes].
      rewrite lookup_insert_eq. cbn [from_option]. unfold id at 1. rewrite (record_voters (vote_key v)), Ha, <- (approvers_snoc _ vs now) by done.
      split; [|done]. rewrite approvers_snoc, <- Ha, <- (record_voters (vote_key v)) by done.
      rewrite (ballots_size (vote_key v) Approve) by (by apply record_ok, bucket_of).
      rewrite (same_quorum s) in Hlt by done. done.
    + apply (standing_same _ _ _ _ r.2); [done|by apply lookup_insert_ne|].
      apply standing_skip; [|done]. left. by intros [? _].
Qed.

(** C6: A proposal is certified exactly when a quorum of keys approves it.
    Whatever votes are cast, in whatever order, repeated, forged or for other
    proposals: a certificate for a proposal is issued just when as many
    different keys as the quorum have cast a verified approval of it.  Whose
    keys these are is not asked. *)
Theorem certified_iff_quorum (s : VoteAggregator) (k : ProposalKey) (vs : list (Z * MasternodeVote)) :
  votes s = ∅ -> issued_certs s = ∅ -> 0 < quorum_for_group k.2 s ->
  (exists c, c ∈ (run (cast vs) s).1 /\ cert_key c = k) <->
  quorum_for_group k.2 s <= Z.of_nat (size (approvers k vs)).
Proof.
  intros Hv Hi Hq. destruct (cast_standing s k vs Hv Hi Hq) as (_ & _ & [(_ & H1 & H2)|(_ & H1 & H2 & _)]).
  - by split.
  - split; [|lia]. intros (c & Hc & E). by destruct (H2 c Hc).
Qed.

(** *** The roots of a certificate *)

Definition set_roots (state_root tx_root parent_hash : bytes) (v : MasternodeVote) : MasternodeVote :=
  mkVote (v_round_id v) (v_height v) (v_block_hash v) (voter_pubkey v) (vote_type v) (v_signature v) (v_group_id v)
    state_root tx_root parent_hash.

(** The approval that heads a bucket stays its head. *)
Definition headed (k : ProposalKey) (v : MasternodeVote) (certs : list BlockCertificate) (s : VoteAggregator) : Prop :=
  (forall c, c ∈ certs -> cert_key c = k -> head (bc_votes c) = Some v) /\
  (k ∈ issued_certs s \/ exists pv, votes s !! k = Some pv /\ head (approve_votes pv) = Some v).

Lemma push_head v w l : head l = Some v -> head (push_vote w l) = Some v.
Proof. destruct l; [done|]. intros [= ->]. unfold push_vote. by destruct (existsb _ _). Qed.

Lemma record_head v w pv : head (approve_votes pv) = Some v -> head (approve_votes (record_vote w pv)) = Some v.
Proof. intros E. unfold record_vote. destruct (vote_type w); [by apply push_head|done]. Qed.

Lemma headed_add now v w certs s k : headed k v certs s ->
  headed k v (certs ++ option_list (add_vote now w s).1) (add_vote now w s).2.
Proof.
  intros [Hc Hk]. destruct (add_vote_cases now w s) as [[_ ->]|(_ & Hni & [[_ ->]|[_ ->]])]; cbn [fst snd option_list].
  - by rewrite app_nil_r.
  - split; cbn [votes issued_certs].
    + intros c [Hin| ->%list_elem_of_singleton]%elem_of_app E; [by apply Hc|]. rewrite cert_key_make in E. subst k.
      destruct Hk as [Hk|(pv & Hpv & Hh)]; [done|]. rewrite cert_votes_make, Hpv. by apply record_head.
    + rewrite elem_of_union, elem_of_singleton. destruct (decide (k = vote_key w)) as [->|Hne]; [by left; left|].
      destruct Hk as [Hk|Hk]; [by left; right|]. right. by rewrite lookup_delete_ne.
  - rewrite app_nil_r. split; [done|]. destruct Hk as [Hk|(pv & Hpv & Hh)]; [by left|]. right. cbn [votes].
    destruct (decide (vote_key w = k)) as [<-|Hne].
    + rewrite lookup_insert_eq, Hpv. eexists. split; [done|]. by apply record_head.
    + rewrite lookup_insert_ne by done. by exists pv.
Qed.

(** The first vote sets the roots, and nothing vouches for them.  A
    certificate carries the state root, the transaction root and the parent
    of the first approval that arrived, whatever the later ones say; and these
    fields are not signed: with any others in their place the vote is as
    valid. *)
Theorem first_vote_sets_the_roots (s : VoteAggregator) (now : Z) (v : MasternodeVote) (vs : list (Z * MasternodeVote))
    (c : BlockCertificate) :
  votes s = ∅ -> issued_certs s = ∅ -> approves (vote_key v) v -> c ∈ (run (cast ((now, v) :: vs)) s).1 ->
  cert_key c = vote_key v ->
  bc_state_root c = v_state_root v /\ bc_tx_root c = v_tx_root v /\ bc_parent_hash c = v_parent_hash v /\
  forall sr tr ph, verify_vote_signature (set_roots sr tr ph v) = verify_vote_signature v /\
    vote_key (set_roots sr tr ph v) = vote_key v.
Proof.
  intros Hv Hi (_ & Ht & Hver) Hc Hk.
  assert (aggregator_ok s) as Hok by (unfold aggregator_ok; rewrite Hv; apply map_Forall_empty).
  assert (headed (vote_key v) v (run (cast ((now, v) :: vs)) s).1 (run (cast ((now, v) :: vs)) s).2) as [Hh _].
  { clear Hc. induction vs as [|[now' w] vs IH] using rev_ind.
    - simpl. assert (head (approve_votes (record_vote v (default ProposalVotes_new (votes s !! vote_key v)))) = Some v) as Hd.
      { rewrite Hv, lookup_empty. unfold record_vote. by rewrite Ht. }
      destruct (add_vote_cases now v s) as [[[E|E] _]|(_ & _ & [[_ E]|[_ E]])].
      + by rewrite Hver in E.
      + rewrite Hi in E. by apply not_elem_of_empty in E.
      + rewrite E. cbn [fst snd option_list app]. split; [|left; by apply elem_of_union_l, elem_of_singleton].
        intros c' ->%list_elem_of_singleton _. by rewrite cert_votes_make.
      + rewrite E. cbn [fst snd option_list app votes]. split; [by intros c' ?%elem_of_nil|]. right.
        eexists. split; [apply lookup_insert_eq|done].
    - rewrite app_comm_cons. unfold cast. rewrite fmap_app. fold (cast ((now, v) :: vs)). cbn [fmap list_fmap].
      rewrite run_snoc. cbn [fst snd exec]. pose proof (headed_add now' v w _ _ _ IH) as Hn.
      by destruct (add_vote now' w _). }
  specialize (Hh c Hc Hk). apply run_elem in Hc as (l1 & now1 & w & l2 & _ & E).
  unfold cast in Hh. destruct (bc_votes c) as [|x l] eqn:El; [done|]. injection Hh as ->.
  destruct (add_vote_cases now1 w (run l1 s).2) as [[_ E']|(Hw & _ & [[_ E']|[_ E']])];
    rewrite E' in E; [done| |done]. cbn [fst] in E. apply (inj Some) in E.
  pose proof (make_backed now1 (vote_key w) _ (record_ok _ w _ eq_refl Hw (bucket_of _ _ (run_ok_inv l1 s Hok)))) as Hb.
  rewrite E in Hb. destruct Hb as (_ & _ & Hr). destruct (Hr v l El) as (-> & -> & ->). done.
Qed.

(** What a vote signs: two votes over 64-byte hashes and by 32-byte keys that
    agree in their signed bytes agree in everything but the roots. *)
Theorem vote_data_inj (v w : MasternodeVote) :
  in_range U64_MAX (v_round_id v) -> in_range U64_MAX (v_round_id w) ->
  in_range U64_MAX (v_height v) -> in_range U64_MAX (v_height w) ->
  length (v_block_hash v) = 64%nat -> length (v_block_hash w) = 64%nat ->
  length (voter_pubkey v) = 32%nat -> length (voter_pubkey w) = 32%nat ->
  vote_data (v_round_id v) (v_height v) (v_block_hash v) (voter_pubkey v) (vote_type v) (v_group_id v) =
  vote_data (v_round_id w) (v_height w) (v_block_hash w) (voter_pubkey w) (vote_type w) (v_group_id w) ->
  vote_key v = vote_key w /\ voter_pubkey v = voter_pubkey w /\ vote_type v = vote_type w.
Proof.
  intros Hr Hr' Hh Hh' Hb Hb' Hp Hp' E. unfold vote_data in E.
  apply Tx.app_inj_len in E as [E1 E]; [|by rewrite !length_to_le_bytes].
  apply Tx.app_inj_len in E as [E2 E]; [|by rewrite !length_to_le_bytes].
  apply Tx.app_inj_len in E as [E3 E]; [|by rewrite Hb, Hb'].
  apply Tx.app_inj_len in E as [E4 E]; [|by rewrite Hp, Hp'].
  apply Tx.app_inj_len in E as [E5 E6]; [|done].
  apply Tx.le_bytes_inj in E1, E2; [|mlia..]. apply bytes_of_string_inj in E6.
  unfold vote_key. rewrite E1, E2, E3, E4, E6. split; [done|]. split; [done|].
  destruct (vote_type v), (vote_type w); done.
Qed.
End Theorems.

End VoteC.
