(* ===== verification/Masternode.v ===== *)
(** * The masternode's path from a proposal to a certificate

    [handle_lightnode_proposal] and [handle_block_acceptance_certificate] of
    [savitri-masternode/src/libp2p_network.rs], the branches of the main loop
    of [main.rs] that take a proposal and a vote, and what follows from their
    composition with the validator and the aggregator.

    A message is modelled after it has been decoded.  Broadcasts are results;
    what the main loop writes to the database after a certificate is not
    modelled. *)

From stdpp Require Import gmap.
From Stdlib Require Import Strings.Byte.
From S2P Require Import Prelude OrdMap Codec Primitives SignedTx BlockStore BlockExec Proposals Votes VoteCorrect.

Module Masternode.
Import Proposal GroupId Votes VoteC.

(** The fields of [P2PGroup] the handler reads. *)
Record P2PGroup := mkGroup {
  g_group_id : string;
  g_members : list string;
  group_leader_masternode : option string;
  backup_leader_masternode : option string;
}.

Record LightnodeBlockProposalCompat := mkCompat {
  lc_round_id : Z;
  lc_height : Z;
  lc_timestamp : Z;
  lc_proposer_pubkey : bytes;
  lc_parent_hash : bytes;
  lc_state_root : bytes;
  lc_tx_root : bytes;
  lc_transactions : nat;
  lc_signature : bytes;
}.

(** What the two attempts at decoding a message yield. *)
Inductive Incoming :=
| Decoded (p : LightnodeProposal)
| DecodedCompat (c : LightnodeBlockProposalCompat)
| Undecodable.

Record PendingProposalEntry := mkPendingProposal { pp_proposal : LightnodeProposal; received_at : Z }.
Definition PendingProposals : Type := gmap (string * Z * Z) PendingProposalEntry.

Section Handlers.
Context `{Hex, Sha256, Sha512, Ed25519, Ed25519Sign, Ed25519Strict, ElectionJson, HashOrder}.

(** [compute_signed_proposal_hash] of
    [savitri-consensus/src/primitives/hashing.rs]. *)
Definition compute_signed_proposal_hash (round_id height timestamp : Z)
    (pubkey parent_hash state_root tx_root : bytes) (count : Z) : bytes :=
  sha512 (bytes_of_string "savitri-lightnode-proposal-v1" ++ to_le_bytes 8 round_id ++ to_le_bytes 8 height
    ++ to_le_bytes 8 timestamp ++ pubkey ++ parent_hash ++ state_root ++ tx_root ++ to_le_bytes 4 count).

(** [transactions.len() as u32]. *)
Definition compat_tx_count (c : LightnodeBlockProposalCompat) : Z := wrap U32_MAX (Z.of_nat (lc_transactions c)).

Definition compute_compat_block_hash (c : LightnodeBlockProposalCompat) : bytes :=
  compute_signed_proposal_hash (lc_round_id c) (lc_height c) (lc_timestamp c) (lc_proposer_pubkey c)
    (lc_parent_hash c) (lc_state_root c) (lc_tx_root c) (compat_tx_count c).

Definition compat_proposal (c : LightnodeBlockProposalCompat) : LightnodeProposal :=
  mkProposal (lc_round_id c) (lc_height c) (lc_timestamp c) (lc_proposer_pubkey c) (compute_compat_block_hash c)
    (compat_tx_count c) (lc_signature c) (lc_parent_hash c) (lc_state_root c) (lc_tx_root c) "" None None.

(** The first element that satisfies the test. *)
Definition find_group (f : P2PGroup -> bool) (groups : list P2PGroup) : option P2PGroup :=
  snd <$> list_find (fun g => f g = true) groups.

Definition members_of (groups : option (list P2PGroup)) (group_id : string) : list string :=
  match groups with
  | Some l => from_option g_members [] (find_group (fun g => bool_decide (g_group_id g = group_id)) l)
  | None => []
  end.

(** The group by its name, or else by its index. *)
Definition group_match (groups : list P2PGroup) (group_id : string) : option P2PGroup :=
  match find_group (fun g => bool_decide (g_group_id g = group_id)) groups with
  | Some g => Some g
  | None =>
      idx ← group_index_from_id group_id;
      find_group (fun g => bool_decide (group_index_from_id (g_group_id g) = Some idx)) groups
  end.

Definition group_role (groups : option (list P2PGroup)) (local_peer_id group_id : string) : MnGroupRole :=
  match groups with
  | None => Participant
  | Some l =>
      match group_match l group_id with
      | None => Participant
      | Some g =>
          if bool_decide (group_leader_masternode g = Some local_peer_id) then Leader
          else if bool_decide (backup_leader_masternode g = Some local_peer_id) then Backup
          else Participant
      end
  end.

(** [channel]: the proposal channel has been configured.  [groups]: the
    active groups, if there is a group manager. *)
Definition handle_lightnode_proposal (now : Z) (falla3_disabled channel : bool) (local_peer_id : string)
    (groups : option (list P2PGroup)) (msg : Incoming) (pending : PendingProposals) :
    option ProposalWithRole * PendingProposals :=
  let forward p r := if channel then Some (mkWithRole p r) else None in
  match msg with
  | Decoded p =>
      let gid := proposer_group_id p in
      if negb (bool_decide (gid = "")) then
        if negb (verify_proposal_group_and_certificate falla3_disabled p (members_of groups gid)) then (None, pending)
        else
          let r := group_role groups local_peer_id gid in
          (forward p r,
           if bool_decide (r = Backup) then <[(gid, p_height p, p_round_id p) := mkPendingProposal p now]> pending
           else pending)
      else (forward p Leader, pending)
  | DecodedCompat c => (forward (compat_proposal c) Leader, pending)
  | Undecodable => (None, pending)
  end.

Definition handle_block_acceptance_certificate (c : BlockAcceptanceCertificate) (pending : PendingProposals) :
    PendingProposals :=
  if negb (verify_block_acceptance c) then pending else delete (ac_group_id c, ac_height c, ac_round_id c) pending.

(** *** The main loop *)

Record MnState := mkMn {
  certified_proposal_cache : gmap ProposalKey LightnodeProposal;
  pending_proposals : PendingProposals;
  vote_aggregator : VoteAggregator;
}.

Definition proposal_key (p : LightnodeProposal) : ProposalKey :=
  (p_height p, p_round_id p, p_block_hash p, proposer_group_id p).

(** The branch for a proposal: the vote that is broadcast and sent to the own
    aggregator. *)
Definition on_proposal (parse_key : bytes -> bool) (now now' : Z) (self : ProposalValidator) (pr : ProposalWithRole)
    (s : MnState) : option MasternodeVote * MnState :=
  let p := proposal pr in
  let s := mkMn (<[proposal_key p := p]> (certified_proposal_cache s)) (pending_proposals s) (vote_aggregator s) in
  match vote_on_proposal parse_key now now' self p with
  | None => (None, s)
  | Some vote =>
      (Some vote,
       if negb (bool_decide (proposer_group_id p = ""))
       then mkMn (certified_proposal_cache s)
              (delete (proposer_group_id p, p_height p, p_round_id p) (pending_proposals s)) (vote_aggregator s)
       else s)
  end.

(** The proposal kept for a certificate: under its key, or else any with the
    same height, round and hash. *)
Definition take_proposal (k : ProposalKey) (cache : gmap ProposalKey LightnodeProposal) :
    option LightnodeProposal * gmap ProposalKey LightnodeProposal :=
  match cache !! k with
  | Some p => (Some p, delete k cache)
  | None =>
      match list_find (fun k' : ProposalKey => k'.1 = k.1) (hash_order (map_to_list cache).*1) with
      | Some (_, k') => (cache !! k', delete k' cache)
      | None => (None, cache)
      end
  end.

(** The branch for a vote: the certificate that is broadcast and the proposal
    whose block is stored. *)
Definition on_vote (now : Z) (v : MasternodeVote) (s : MnState) :
    option (BlockCertificate * option LightnodeProposal) * MnState :=
  let '(c, agg) := add_vote now v (vote_aggregator s) in
  match c with
  | None => (None, mkMn (certified_proposal_cache s) (pending_proposals s) agg)
  | Some c =>
      let '(p, cache) := take_proposal (cert_key c) (certified_proposal_cache s) in
      (Some (c, p), mkMn cache (pending_proposals s) agg)
  end.
End Handlers.

End Masternode.
