(* ===== verification/MasternodeCorrect.v ===== *)
(** * From proposals to certificates

    Theorems about the composition of the proposal handler, the validator and
    the vote aggregator of the masternodes: what a proposal needs to be
    certified, and what nobody asks of it. *)

From stdpp Require Import gmap.
From Stdlib Require Import Strings.Byte.
From S2P Require Import Prelude OrdMap Codec Primitives SignedTx BlockStore BlockExec Proposals Votes VoteCorrect Masternode.

Module MnC.
Import Tx Proposal GroupId Votes VoteC Masternode.

Section Theorems.
Context `{Hex, Sha256, Sha512, Ed25519, Ed25519Sign, !Ed25519SignLaws, Ed25519Strict, ElectionJson, HashOrder}.
Variable parse_key : bytes -> bool.

(** The clock of a masternode is near the time of a proposal. *)
Definition on_time (now : Z) (p : LightnodeProposal) : Prop :=
  3600 <= now <= U64_MAX - 300 /\ now - 600 < p_timestamp p < now + 60.

(** A valid proposal on time is voted for, and the vote counts for it. *)
Lemma valid_voted now now' sk q p :
  validate_proposal parse_key now p = true -> on_time now' p ->
  exists v, vote_on_proposal parse_key now now' (from_signing_key sk q) p = Some v /\
    approves (proposal_key p) v /\ voter_pubkey v = public_key sk.
Proof.
  intros Hv [Hn Ht]. unfold vote_on_proposal. rewrite Hv. simpl.
  rewrite !wrap_id by (unfold in_range in *; mlia).
  destruct (Z.gtb_spec (p_timestamp p) (now' - 600)); [|lia]. destruct (Z.ltb_spec (p_timestamp p) (now' + 60)); [|lia].
  simpl. eexists. split; [done|]. split; [|done]. split; [done|]. split; [done|]. apply sign_verifies.
Qed.

(** The votes of a list of masternodes on a proposal are among those cast. *)
Definition all_vote (sks : list bytes) (p : LightnodeProposal) (vs : list (Z * MasternodeVote)) : Prop :=
  forall sk, sk ∈ sks -> exists now now' q v,
    vote_on_proposal parse_key now now' (from_signing_key sk q) p = Some v /\ v ∈ vs.*2.

Lemma vote_approves now now' sk q p v : vote_on_proposal parse_key now now' (from_signing_key sk q) p = Some v ->
  approves (proposal_key p) v /\ voter_pubkey v = public_key sk.
Proof.
  unfold vote_on_proposal. destruct (validate_proposal _ _ _); [|done]. simpl. destruct (_ && _); [|done].
  intros [= <-]. split; [|done]. split; [done|]. split; [done|]. apply sign_verifies.
Qed.

Lemma approvers_all sks p vs : NoDup (public_key <$> sks) -> all_vote sks p vs ->
  (length sks <= size (approvers (proposal_key p) vs))%nat.
Proof.
  intros Hn Ha. rewrite <- (length_fmap public_key sks), <- (size_list_to_set (C:=gset bytes)) by done.
  apply subseteq_size. intros x. rewrite elem_of_list_to_set. intros (sk & -> & Hsk)%list_elem_of_fmap.
  destruct (Ha sk Hsk) as (now & now' & q & v & Hv & Hin). apply vote_approves in Hv as [Hap <-].
  unfold approvers. apply elem_of_list_to_set, list_elem_of_fmap. exists v. split; [done|].
  by apply list_elem_of_filter.
Qed.

(** Honest votes certify.  If as many masternodes with different keys as the
    quorum vote for a proposal, then whatever other votes are cast, forged
    ones and votes for other proposals included, and in whatever order they
    arrive, a certificate of the proposal is issued. *)
Theorem honest_votes_certify (s : VoteAggregator) (sks : list bytes) (p : LightnodeProposal)
    (vs : list (Z * MasternodeVote)) :
  votes s = ∅ -> issued_certs s = ∅ -> 0 < quorum_for_group (proposer_group_id p) s <= Z.of_nat (length sks) ->
  NoDup (public_key <$> sks) -> all_vote sks p vs ->
  exists c, c ∈ (run (cast vs) s).1 /\ cert_key c = proposal_key p.
Proof.
  intros Hv Hi Hq Hn Ha. apply certified_iff_quorum; [done..|exact (proj1 Hq)|].
  pose proof (approvers_all sks p vs Hn Ha). change (proposal_key p).2 with (proposer_group_id p). lia.
Qed.

(** Conflicting blocks are both certified.  A masternode does not remember
    what it voted for: shown two valid proposals of one height and round, it
    votes for both.  So when all masternodes are honest and see both, two
    certificates for different blocks of the same height are issued. *)
Theorem conflicting_blocks_are_certified (s : VoteAggregator) (sks : list bytes) (p p' : LightnodeProposal)
    (vs : list (Z * MasternodeVote)) :
  votes s = ∅ -> issued_certs s = ∅ -> 0 < quorum_for_group (proposer_group_id p) s <= Z.of_nat (length sks) ->
  NoDup (public_key <$> sks) -> proposer_group_id p' = proposer_group_id p ->
  p_height p' = p_height p -> p_round_id p' = p_round_id p -> p_block_hash p' <> p_block_hash p ->
  all_vote sks p vs -> all_vote sks p' vs ->
  exists c c', c ∈ (run (cast vs) s).1 /\ c' ∈ (run (cast vs) s).1 /\
    bc_height c = bc_height c' /\ bc_round_id c = bc_round_id c' /\ bc_group_id c = bc_group_id c' /\
    bc_block_hash c <> bc_block_hash c'.
Proof.
  intros Hv Hi Hq Hn Hg Hh Hr Hb Ha Ha'.
  destruct (honest_votes_certify s sks p vs) as (c & Hc & Ec); [done..|].
  destruct (honest_votes_certify s sks p' vs) as (c' & Hc' & Ec'); [done|done|by rewrite Hg|done..|].
  exists c, c'. split; [done|]. split; [done|]. injection Ec as -> -> -> ->. injection Ec' as -> -> -> ->. auto.
Qed.

(** *** Forged proposals *)

(** The signature of the fallback, computed from the proposal alone. *)
Definition sign_legacy (p : LightnodeProposal) : LightnodeProposal :=
  mkProposal (p_round_id p) (p_height p) (p_timestamp p) (proposer_pubkey p) (p_block_hash p) (tx_count p)
    (legacy_expected p) (p_parent_hash p) (p_state_root p) (p_tx_root p) (proposer_group_id p)
    (election_certificate p) (raw_txs p).

(** A proposal as anyone can write it: any key that parses for its proposer,
    any hash, no group, and one root that is not zero. *)
Definition plausible (p : LightnodeProposal) : Prop :=
  0 < p_height p /\ tx_count p <= 10000 /\ parse_key (proposer_pubkey p) = true /\ proposer_pubkey p <> zeros 32 /\
  p_block_hash p <> zeros 64 /\ proposer_group_id p = "" /\
  p_parent_hash p = zeros 64 /\ (p_state_root p <> zeros 64 \/ p_tx_root p <> zeros 64).

Lemma forged_valid now p : plausible p -> on_time now p -> validate_proposal parse_key now (sign_legacy p) = true.
Proof.
  intros (Hh & Hc & Hk & Hz & Hb & _ & Hp & Hr) [Hn Ht]. unfold validate_proposal. cbn -[sign_legacy].
  destruct (Z.eqb_spec (p_height (sign_legacy p)) 0); [simpl in *; lia|].
  destruct (Z.gtb_spec (tx_count (sign_legacy p)) 10000); [simpl in *; lia|].
  rewrite !wrap_id by (unfold in_range in *; mlia).
  destruct (Z.gtb_spec (p_timestamp (sign_legacy p)) (now + 300)); [simpl in *; lia|].
  destruct (Z.ltb_spec (p_timestamp (sign_legacy p)) (now - 3600)); [simpl in *; lia|].
  rewrite (bool_decide_false (proposer_pubkey (sign_legacy p) = _)), (bool_decide_false (p_block_hash (sign_legacy p) = _)),
    (bool_decide_true (p_parent_hash (sign_legacy p) = _)) by done. simpl.
  unfold verify_proposal_signature. simpl. rewrite Hk. simpl. destruct (ed25519_verify _ _ _); [done|].
  rewrite Hp, (bool_decide_true (zeros 64 = zeros 64)) by done. simpl.
  rewrite (bool_decide_true (legacy_expected _ = _)) by (unfold legacy_expected, legacy_data; simpl; by rewrite Hp).
  destruct Hr as [Hr|Hr]; rewrite (bool_decide_false _ Hr); simpl; [done|]. by destruct (bool_decide _).
Qed.

(** C35: Anybody's block is certified.  Without any secret, anybody can write a
    proposal for any block hash in the name of any key: the fallback accepts
    two public hashes as its signature, and without a group no election
    certificate is asked for.  Every masternode forwards it as leader and
    votes for it, and the votes of a quorum of honest masternodes certify
    it. *)
Theorem forged_proposal_is_certified (p : LightnodeProposal) :
  plausible p ->
  (forall now falla3 local groups pending,
     handle_lightnode_proposal now falla3 true local groups (Decoded (sign_legacy p)) pending =
       (Some (mkWithRole (sign_legacy p) Leader), pending)) /\
  (forall now now' sk q, on_time now p -> on_time now' p ->
     is_Some (vote_on_proposal parse_key now now' (from_signing_key sk q) (sign_legacy p))) /\
  (forall (s : VoteAggregator) sks vs, votes s = ∅ -> issued_certs s = ∅ ->
     0 < quorum_for_group "" s <= Z.of_nat (length sks) -> NoDup (public_key <$> sks) ->
     all_vote sks (sign_legacy p) vs ->
     exists c, c ∈ (run (cast vs) s).1 /\ bc_block_hash c = p_block_hash p /\ bc_height c = p_height p).
Proof.
  intros Hp. assert (proposer_group_id p = "") as Hg by apply Hp. split; [|split].
  - intros. unfold handle_lightnode_proposal. simpl. by rewrite Hg.
  - intros now now' sk q Ht Ht'. destruct (valid_voted now now' sk q (sign_legacy p)) as (v & -> & _); [|done|done].
    by apply forged_valid.
  - intros s sks vs Hv Hi Hq Hn Ha. destruct (honest_votes_certify s sks (sign_legacy p) vs) as (c & Hc & Ec);
      [done|done|simpl; by rewrite Hg|done|done|]. exists c. split; [done|].
    injection Ec as E1 _ E3 _. by rewrite E1, E3.
Qed.

(** *** Elections *)

(** The quorum of an election is that of the lattice, not the two thirds the
    votes need. *)
Lemma election_quorum_lattice n : (0 < n)%nat -> election_quorum n = Quorum.lattice_quorum (Z.of_nat n).
Proof.
  intros Hn. rewrite Quorum.lattice_quorum_eq by lia. unfold election_quorum. unfold saturating_sub. mlia.
Qed.

(** A light node elects itself.  Attestations are counted without asking
    whether their signers differ, and the name of a signer is not tied to a
    key: who holds one key signs an election of itself once, in the name of
    one member of the group, repeats the attestation as often as the quorum
    needs, and is accepted as elected proposer of the group, in a tenure long
    past too, unless the environment enables the check of the height. *)
Theorem light_node_elects_itself (p : LightnodeProposal) (c : ElectionCertificate) (members : list string)
    (a : ElectionAttestation) (k : nat) :
  proposer_group_id p <> "" -> election_certificate p = Some c -> ec_group_id c = proposer_group_id p ->
  elected_proposer_pubkey c = proposer_pubkey p -> attestations c = replicate k a ->
  verify_attestation c a = true -> signer_peer_id a ∈ members -> election_quorum (length members) <= Z.of_nat k ->
  verify_proposal_group_and_certificate true p members = true /\
  (3 <= Z.of_nat k -> verify_proposal_group_and_certificate true p [] = true).
Proof.
  intros Hg Hc Hcg Hk Hr Ha Hm Hq. unfold verify_proposal_group_and_certificate.
  rewrite (bool_decide_false (proposer_group_id p = "")), Hc by done. simpl.
  rewrite (bool_decide_true (ec_group_id c = _)), (bool_decide_true (elected_proposer_pubkey c = _)) by done. simpl.
  assert (forallb (verify_attestation c) (attestations c) = true) as ->.
  { rewrite Hr. clear - Ha. induction k as [|k IH]; [done|]. simpl. by rewrite Ha. }
  assert (forall q, 1 <= q <= Z.of_nat k -> bool_decide (attestations c = []) = false) as Hne.
  { intros q Hk1. apply bool_decide_eq_false. rewrite Hr. destruct k; [lia|done]. }
  assert (1 <= election_quorum (length members)).
  { unfold election_quorum, saturating_sub. assert (0 <= Z.max 0 (Z.of_nat (length members) - 1) / 3) by (apply Z.div_pos; lia). lia. }
  simpl. split.
  - rewrite (Hne (election_quorum (length members))) by lia. destruct members as [|m ms]; [by apply elem_of_nil in Hm|].
    rewrite bool_decide_false by done. simpl. apply negb_true_iff, Z.ltb_ge. unfold valid_signers. rewrite Hr.
    assert (forall n, filter (fun x => signer_peer_id x ∈ m :: ms) (replicate n a) = replicate n a) as ->.
    { induction n as [|n IH]; [done|]. simpl. by rewrite filter_cons_True, IH. }
    by rewrite length_replicate.
  - intros Hk3. rewrite (Hne 3) by lia.
    apply negb_true_iff, Z.ltb_ge. rewrite Hr, length_replicate. exact Hk3.
Qed.

(** Anybody stops the backup.  An acceptance certificate is checked against
    the key it carries itself, whosever that is: with any secret one can make
    the backup forget a proposal of any group, height and round. *)
Theorem anybody_stops_the_backup (now : Z) (sk : bytes) (q : nat) (group_id : string) (height round_id : Z)
    (pending : PendingProposals) :
  let c := sign_block_acceptance now (from_signing_key sk q) "" group_id height round_id (zeros 64) (zeros 64)
             (zeros 64) (zeros 64) 0 in
  verify_block_acceptance c = true /\
  handle_block_acceptance_certificate c pending = delete (group_id, height, round_id) pending.
Proof.
  cbn zeta. set (c := sign_block_acceptance _ _ _ _ _ _ _ _ _ _ _).
  assert (verify_block_acceptance c = true) as Hv by apply sign_verifies. split; [done|].
  unfold handle_block_acceptance_certificate. by rewrite Hv.
Qed.
End Theorems.

(** ** Witnesses *)

Section Witnesses.
Definition toy_sign : Ed25519Sign := {| public_key sk := sk; ed25519_sign sk m := sk ++ m |}.
Definition toy_strict : Ed25519Strict := {| ed25519_verify_strict pk m s := bool_decide (s = pk ++ m) |}.
Definition toy_json : ElectionJson :=
  {| election_json _ _ _ sender _ _ _ := Some (bytes_of_string sender) |}.
Definition toy_sha512_64 : Sha512 := {| sha512 b := take 64 (b ++ zeros 64) |}.
Definition toy_order : HashOrder := {| hash_order _ l := l |}.
#[local] Existing Instances toy_sha256_32 toy_sha512_64 toy_ed25519 toy_sign toy_strict toy_json toy_order.

Lemma toy_sign_laws : @Ed25519SignLaws toy_ed25519 toy_sign.
Proof. constructor. intros sk msg. simpl. by apply bool_decide_eq_true. Qed.
#[local] Existing Instance toy_sign_laws.

Definition mn_keys : list bytes := [replicate 32 x01; replicate 32 x02].
Definition any_key (b : bytes) : bool := true.
Definition three_voters : VoteAggregator := VoteAggregator_new 3.

(** A proposal of height 7 with the hash [b], not signed by anybody. *)
Definition unsigned (b : byte) : LightnodeProposal :=
  mkProposal 1 7 5000 (replicate 32 xaa) (b :: zeros 63) 0 [] (zeros 64) (x01 :: zeros 63) (zeros 64) "" None None.
Definition forged (b : byte) : LightnodeProposal := sign_legacy (unsigned b).

Lemma unsigned_plausible b : b <> x00 -> plausible any_key (unsigned b).
Proof.
  intros Hb. repeat split; try (by vm_compute); [|by left]. intros [= E]. by destruct b.
Qed.

Lemma five_plausible : plausible any_key (unsigned x05).
Proof. by apply unsigned_plausible. Qed.

Lemma unsigned_on_time b : on_time 5000 (unsigned b).
Proof. split; simpl; mlia. Qed.

(** The votes of both masternodes on the proposals. *)
Definition votes_on (l : list byte) : list (Z * MasternodeVote) :=
  concat ((fun b => omap (fun sk => pair 5000 <$> vote_on_proposal any_key 5000 5000 (from_signing_key sk 2) (forged b))
                      mn_keys) <$> l).

Lemma forged_voted b : b <> x00 -> forall sk, exists v,
  vote_on_proposal any_key 5000 5000 (from_signing_key sk 2) (forged b) = Some v.
Proof.
  intros Hb sk. destruct (valid_voted any_key 5000 5000 sk 2 (forged b)) as (v & E & _); [|apply unsigned_on_time|by exists v].
  by apply forged_valid; [apply unsigned_plausible|apply unsigned_on_time].
Qed.

Lemma all_voted b l : b <> x00 -> b ∈ l -> all_vote any_key mn_keys (forged b) (votes_on l).
Proof.
  intros Hb Hl sk Hsk. destruct (forged_voted b Hb sk) as [v E]. exists 5000, 5000, 2%nat, v. split; [done|].
  apply list_elem_of_fmap. exists (5000, v). split; [done|]. apply list_elem_of_In, in_concat.
  eexists. split; [apply list_elem_of_In, list_elem_of_fmap; exists b; split; [reflexivity|done]|].
  apply list_elem_of_In, list_elem_of_omap. exists sk. split; [done|]. by rewrite E.
Qed.

Lemma mn_keys_nodup : NoDup (public_key <$> mn_keys).
Proof. apply NoDup_cons. split; [|apply NoDup_singleton]. by intros ?%list_elem_of_singleton. Qed.

Lemma conflicting_blocks_are_certified_witness : exists c c',
  c ∈ (run (cast (votes_on [x05; x06])) three_voters).1 /\ c' ∈ (run (cast (votes_on [x05; x06])) three_voters).1 /\
  bc_height c = bc_height c' /\ bc_block_hash c <> bc_block_hash c'.
Proof.
  destruct (conflicting_blocks_are_certified any_key three_voters mn_keys (forged x05) (forged x06) (votes_on [x05; x06])
    eq_refl eq_refl ltac:(by vm_compute) mn_keys_nodup eq_refl eq_refl eq_refl ltac:(done)
    ltac:(by apply all_voted; [|apply elem_of_cons; left]) ltac:(by apply all_voted; [|do 2 constructor]))
    as (c & c' & Hc & Hc' & Hh & _ & _ & Hb).
  by exists c, c'.
Defined.

Lemma forged_proposal_is_certified_witness :
  plausible any_key (unsigned x05) /\ is_Some (vote_on_proposal any_key 5000 5000 (from_signing_key (replicate 32 x01) 2)
    (forged x05)) /\
  exists c, c ∈ (run (cast (votes_on [x05])) three_voters).1 /\ bc_height c = 7.
Proof.
  destruct (forged_proposal_is_certified any_key (unsigned x05) five_plausible) as (_ & H1 & H2).
  split; [exact five_plausible|]. split; [apply H1; apply unsigned_on_time|].
  destruct (H2 three_voters mn_keys (votes_on [x05]) eq_refl eq_refl ltac:(by vm_compute) mn_keys_nodup
    ltac:(by apply all_voted; [|apply elem_of_cons; left])) as (c & Hc & _ & Hh).
  by exists c.
Defined.

Definition self_attested : ElectionAttestation :=
  mkAttestation "member-1" (replicate 32 xaa)
    (replicate 32 xaa ++ bytes_of_string "savitri-intragroup-v1|election_result|group_0_0_0|member-1").
Definition self_elected : ElectionCertificate :=
  mkElection "group_0_0_0" 1 "member-1" (replicate 32 xaa) 0 0 [] (replicate 3 self_attested) 0.
Definition self_proposal : LightnodeProposal :=
  mkProposal 1 7 5000 (replicate 32 xaa) (x05 :: zeros 63) 0 [] (zeros 64) (zeros 64) (zeros 64) "group_0_0_0"
    (Some self_elected) None.

Lemma light_node_elects_itself_witness :
  verify_proposal_group_and_certificate true self_proposal ["member-1"; "member-2"; "member-3"; "member-4"] = true /\
  verify_proposal_group_and_certificate true self_proposal [] = true.
Proof.
  destruct (light_node_elects_itself self_proposal self_elected ["member-1"; "member-2"; "member-3"; "member-4"]
    self_attested 3 ltac:(done) eq_refl eq_refl eq_refl eq_refl ltac:(by vm_compute) ltac:(apply elem_of_cons; by left)
    ltac:(by vm_compute)) as [H1 H2].
  split; [exact H1|]. apply H2. lia.
Defined.

(** An approval by the key [b]. *)
Definition approval (b : byte) : MasternodeVote :=
  let pk := replicate 32 b in
  mkVote 1 7 (x05 :: zeros 63) pk Approve (pk ++ vote_data 1 7 (x05 :: zeros 63) pk Approve "g") "g"
    (b :: zeros 63) (zeros 64) (zeros 64).

Definition two_approvals : list (Z * MasternodeVote) := [(5000, approval x01); (5001, approval x02)].

Lemma approval_ok : approves (vote_key (approval x01)) (approval x01).
Proof. split; [done|]. split; [done|]. by vm_compute. Qed.

Lemma two_certify : length (run (cast two_approvals) three_voters).1 = 1%nat.
Proof. by vm_compute. Qed.

Lemma the_certificate : exists c, (run (cast two_approvals) three_voters).1 = [c].
Proof.
  pose proof two_certify as Hl. destruct (run (cast two_approvals) three_voters).1 as [|c [|]]; [done|by exists c|done].
Qed.

Lemma certificate_backed_witness : exists c, c ∈ (run (cast two_approvals) three_voters).1 /\ backed c.
Proof.
  destruct the_certificate as [c E]. exists c.
  assert (c ∈ (run (cast two_approvals) three_voters).1) as Hc by (rewrite E; by apply list_elem_of_singleton).
  split; [exact Hc|]. exact (proj1 (certificate_backed 3 (cast two_approvals) c Hc)).
Defined.

(** After a cleanup the same votes certify the proposal again. *)
Definition one_vote : VoteAggregator := (run (cast [(5000, approval x01)]) three_voters).2.
Definition between : list op := [Cleanup 100; AddVote 5002 (approval x01)].
Lemma no_second_certificate_witness :
  is_Some (add_vote 5001 (approval x02) one_vote).1 /\
  is_Some (add_vote 5003 (approval x02) (run between (add_vote 5001 (approval x02) one_vote).2).2).1 /\
  cleaned between (vote_key (approval x02)).
Proof.
  pose proof (no_second_certificate one_vote 5001 5003 (approval x02) (approval x02) between) as Hc.
  destruct (add_vote 5001 (approval x02) one_vote).1 as [c|] eqn:E; [|vm_compute in E; discriminate E].
  destruct (add_vote 5003 (approval x02) _).1 as [c'|] eqn:E'; [|vm_compute in E'; discriminate E'].
  split; [by exists c|]. split; [by exists c'|].
  assert (cert_key c = vote_key (approval x02)) as Hk by (vm_compute in E; injection E as <-; vm_compute; reflexivity).
  rewrite <- Hk. apply (Hc c c' eq_refl eq_refl). rewrite Hk. vm_compute in E'. injection E' as <-. vm_compute. reflexivity.
Defined.

Lemma certified_iff_quorum_witness :
  quorum_for_group "g" three_voters = 2 /\
  exists c, c ∈ (run (cast two_approvals) three_voters).1 /\ cert_key c = (7, 1, x05 :: zeros 63, "g").
Proof.
  split; [by vm_compute|].
  apply (certified_iff_quorum three_voters (7, 1, x05 :: zeros 63, "g") two_approvals eq_refl eq_refl); by vm_compute.
Defined.

Lemma first_vote_sets_the_roots_witness : exists c, c ∈ (run (cast two_approvals) three_voters).1 /\
  bc_state_root c = x01 :: zeros 63.
Proof.
  destruct the_certificate as [c E]. exists c.
  assert (c ∈ (run (cast two_approvals) three_voters).1) as Hc by (rewrite E; by apply list_elem_of_singleton).
  split; [exact Hc|].
  assert (cert_key c = vote_key (approval x01)) as Hk.
  { assert (cert_key <$> (run (cast two_approvals) three_voters).1 = [vote_key (approval x01)]) as Ek by (by vm_compute).
    rewrite E in Ek. exact (f_equal (fun l => default (cert_key c) (head l)) Ek). }
  exact (proj1 (first_vote_sets_the_roots three_voters 5000 (approval x01) [(5001, approval x02)] c eq_refl eq_refl
    approval_ok Hc Hk)).
Defined.

Lemma vote_data_inj_witness : vote_key (approval x01) = vote_key (approval x01).
Proof.
  apply (vote_data_inj (approval x01) (approval x01)); done.
Defined.

Lemma group_index_roundtrip_witness : group_index_from_id "group_12_3_12" = Some 3 /\
  group_index_from_id "group_singleton_3" = Some 3.
Proof. exact (group_index_roundtrip 12 3 ltac:(done)). Defined.
End Witnesses.

End MnC.
