(* ===== verification/Merkle.v ===== *)
(** * Merkle trees

    [savitri-consensus/src/crypto/merkle.rs], and the hashes of
    [crypto/hashes.rs] it uses: the tree built level by level, the proofs of
    its leaves and their verification.

    The loop over the levels runs with the number of leaves as fuel; a level
    is at most half of the one below, rounded up, and the loop stops at one. *)

From Stdlib Require Import Strings.Byte.
From S2P Require Import Prelude Codec.

Module Merkle.

Inductive MerkleError :=
| EmptyInput
| InvalidProof
| IndexOutOfBounds (index len : nat).

Inductive ProofDirection := Left | Right.
#[global] Instance ProofDirection_eq_dec : EqDecision ProofDirection.
Proof. solve_decision. Defined.

Record ProofStep := mkStep { step_hash : bytes; direction : ProofDirection }.
Record MerkleProof := mkProof { leaf_hash : bytes; path : list ProofStep; proof_root : bytes }.
Record MerkleTree := mkTree { leaves : list bytes; nodes : list (list bytes); root : bytes }.

Record MultiProof := mkMulti {
  leaf_indices : list nat;
  leaf_hashes : list bytes;
  proof_hashes : list bytes;
  multi_root : bytes;
}.

Section Tree.
Context `{Sha256}.

Definition hash_leaf (data : bytes) : bytes := sha256 (x00 :: data).
Definition hash_internal (left right : bytes) : bytes := sha256 (x01 :: left ++ right).

Definition apply_step (current : bytes) (s : ProofStep) : bytes :=
  match direction s with
  | Left => hash_internal (step_hash s) current
  | Right => hash_internal current (step_hash s)
  end.

Definition verify (p : MerkleProof) : bool :=
  bool_decide (fold_left apply_step (path p) (leaf_hash p) = proof_root p).

(** An odd level is padded with its last node. *)
Definition pad (level : list bytes) : list bytes :=
  if Nat.odd (length level) then level ++ option_list (last level) else level.

Fixpoint parents (level : list bytes) : list bytes :=
  match level with
  | x :: y :: level => hash_internal x y :: parents level
  | _ => []
  end.

(** The levels above a level. *)
Fixpoint grow (fuel : nat) (level : list bytes) : list (list bytes) :=
  match fuel with
  | O => []
  | S fuel =>
      if (length level <=? 1)%nat then []
      else let next := parents (pad level) in next :: grow fuel next
  end.

Definition from_leaf_hashes (l : list bytes) : result MerkleError MerkleTree :=
  if bool_decide (l = []) then Err EmptyInput
  else
    let nodes := l :: grow (length l) l in
    Ok (mkTree l nodes (default [] (head (default [] (last nodes))))).

Definition from_leaves (data : list bytes) : result MerkleError MerkleTree :=
  if bool_decide (data = []) then Err EmptyInput else from_leaf_hashes (hash_leaf <$> data).

Definition sibling (i : nat) : nat := if Nat.even i then (i + 1)%nat else (i - 1)%nat.

(** The loop of [proof] over the levels below the root. *)
Fixpoint path_of (levels : list (list bytes)) (i : nat) : list ProofStep :=
  match levels with
  | [] => []
  | [_] => []
  | level :: levels =>
      let rest := path_of levels (i / 2) in
      match level !! sibling i with
      | Some h => mkStep h (if Nat.even i then Right else Left) :: rest
      | None => rest
      end
  end.

Definition proof (t : MerkleTree) (index : nat) : result MerkleError MerkleProof :=
  match leaves t !! index with
  | None => Err (IndexOutOfBounds index (length (leaves t)))
  | Some h => Ok (mkProof h (path_of (nodes t) index) (root t))
  end.

Definition verify_leaf (t : MerkleTree) (leaf_data : bytes) (index : nat) : result MerkleError bool :=
  if negb (bool_decide (leaves t !! index = Some (hash_leaf leaf_data))) then Ok false
  else match proof t index with Ok p => Ok (verify p) | Err e => Err e end.

Definition compute_tx_root (tx_hashes : list bytes) : bytes :=
  match tx_hashes with
  | [] => zeros 32
  | [h] => h
  | _ => match from_leaf_hashes tx_hashes with Ok t => root t | Err _ => zeros 32 end
  end.

Definition verify_tx_inclusion (tx_hash tx_root : bytes) (p : MerkleProof) : bool :=
  bool_decide (leaf_hash p = tx_hash) && bool_decide (proof_root p = tx_root) && verify p.

Definition compute_merkle_root (data : list bytes) : result MerkleError bytes :=
  match from_leaves data with Ok t => Ok (root t) | Err e => Err e end.

(** The hashes of the steps that are not in the list yet. *)
Definition add_hashes (acc : list bytes) (steps : list ProofStep) : list bytes :=
  fold_left (fun acc s => if bool_decide (step_hash s ∈ acc) then acc else acc ++ [step_hash s]) steps acc.

Fixpoint collect_leaves (t : MerkleTree) (indices : list nat) : result MerkleError (list bytes) :=
  match indices with
  | [] => Ok []
  | i :: indices =>
      match leaves t !! i with
      | None => Err (IndexOutOfBounds i (length (leaves t)))
      | Some h => match collect_leaves t indices with Ok l => Ok (h :: l) | Err e => Err e end
      end
  end.

Fixpoint collect_hashes (t : MerkleTree) (indices : list nat) (acc : list bytes) : result MerkleError (list bytes) :=
  match indices with
  | [] => Ok acc
  | i :: indices =>
      match proof t i with
      | Err e => Err e
      | Ok p => collect_hashes t indices (add_hashes acc (path p))
      end
  end.

Definition multi_proof (t : MerkleTree) (indices : list nat) : result MerkleError MultiProof :=
  match collect_leaves t indices with
  | Err e => Err e
  | Ok hashes =>
      match collect_hashes t indices [] with
      | Err e => Err e
      | Ok ph => Ok (mkMulti indices hashes ph (root t))
      end
  end.
End Tree.
(** ** Facts *)

Section Facts.
Context `{Sha256}.

Definition half_up (n : nat) : nat := Nat.div2 (S n).

Lemma half_up_even k : half_up (2 * k) = k.
Proof. apply Nat.div2_succ_double. Qed.
Lemma half_up_odd k : half_up (2 * k + 1) = S k.
Proof. unfold half_up. replace (S (2 * k + 1)) with (2 * S k)%nat by lia. apply Nat.div2_double. Qed.

Lemma odd_double k : Nat.odd (2 * k) = false.
Proof. rewrite Nat.odd_mul. done. Qed.
Lemma odd_double_1 k : Nat.odd (2 * k + 1) = true.
Proof. by rewrite Nat.odd_add, odd_double. Qed.

Lemma length_pad l : length (pad l) = (2 * half_up (length l))%nat.
Proof.
  unfold pad. destruct (Nat.Even_or_Odd (length l)) as [[k E]|[k E]]; rewrite E.
  - by rewrite odd_double, half_up_even, E.
  - rewrite odd_double_1, half_up_odd, length_app, E. destruct (last l) as [x|] eqn:El; [simpl; lia|].
    apply last_None in El as ->. simpl in E. lia.
Qed.

Lemma two_ind {A} (P : list A -> Prop) : P [] -> (forall x, P [x]) -> (forall x y l, P l -> P (x :: y :: l)) -> forall l, P l.
Proof.
  intros H0 H1 H2. assert (forall l, P l /\ forall x, P (x :: l)) as Hb; [|apply Hb].
  induction l as [|y l [IH1 IH2]]; [auto|]. split; [apply IH2|]. intros x. by apply H2.
Qed.

Lemma parents_lookup l i a b : l !! (2 * i)%nat = Some a -> l !! (2 * i + 1)%nat = Some b ->
  parents l !! i = Some (hash_internal a b).
Proof.
  revert i. induction l as [|x|x y l IH] using two_ind; intros i Ha Hb; [done|by destruct i|].
  destruct i as [|i]; [by injection Ha as ->; injection Hb as ->|]. simpl parents. simpl.
  replace (2 * S i)%nat with (S (S (2 * i)))%nat in * by lia. simpl in Ha, Hb. by apply IH.
Qed.

Lemma length_parents l : length (parents l) = Nat.div2 (length l).
Proof. induction l as [|x|x y l IH] using two_ind; simpl; by rewrite ?IH. Qed.

Definition above (l : list bytes) : list bytes := parents (pad l).

Lemma length_above l : length (above l) = half_up (length l).
Proof. unfold above. rewrite length_parents, length_pad. apply Nat.div2_double. Qed.

Lemma pad_lookup l i h : l !! i = Some h -> pad l !! i = Some h.
Proof. intros E. unfold pad. destruct (Nat.odd _); [by apply lookup_app_l_Some|done]. Qed.

Lemma half_up_lt n : (2 <= n)%nat -> (1 <= half_up n < n)%nat.
Proof.
  intros Hn. destruct (Nat.Even_or_Odd n) as [[k ->]|[k ->]]; rewrite ?half_up_even, ?half_up_odd; lia.
Qed.

(** The node above a node that has its sibling. *)
Lemma above_step l i h x : l !! i = Some h -> l !! sibling i = Some x ->
  above l !! (i / 2)%nat = Some (apply_step h (mkStep x (if Nat.even i then Right else Left))).
Proof.
  unfold sibling, above, apply_step. destruct (Nat.Even_or_Odd i) as [[j ->]|[j ->]].
  - assert (Nat.even (2 * j) = true) as -> by (by rewrite Nat.even_mul).
    rewrite (Nat.mul_comm 2 j), Nat.div_mul by done. intros Hi Hx.
    apply parents_lookup; apply pad_lookup; by rewrite (Nat.mul_comm 2 j).
  - assert (Nat.even (2 * j + 1) = false) as -> by (by rewrite Nat.even_add, Nat.even_mul).
    replace ((2 * j + 1) / 2)%nat with j by (rewrite Nat.mul_comm, Nat.div_add_l by done; simpl; lia).
    rewrite Nat.add_sub. intros Hi Hx. by apply parents_lookup; apply pad_lookup.
Qed.

(** The node above a last node that is padded. *)
Lemma above_last l h k : length l = (2 * k + 1)%nat -> l !! (2 * k)%nat = Some h ->
  above l !! k = Some (hash_internal h h).
Proof.
  intros Hl Hh. unfold above. apply parents_lookup; [by apply pad_lookup|].
  unfold pad. rewrite Hl, odd_double_1, lookup_app_r, Hl, Nat.sub_diag by lia.
  rewrite last_lookup, Hl. replace (pred (2 * k + 1)) with (2 * k)%nat by lia. by rewrite Hh.
Qed.

(** *** The top of a tree *)

Definition top (fuel : nat) (l : list bytes) : bytes := default [] (head (default [] (last (l :: grow fuel l)))).

Lemma grow_step fuel l : (2 <= length l)%nat -> grow (S fuel) l = above l :: grow fuel (above l).
Proof. intros Hl. simpl. destruct (Nat.leb_spec (length l) 1); [lia|done]. Qed.

Lemma grow_one fuel l : (length l <= 1)%nat -> grow fuel l = [].
Proof. intros Hl. destruct fuel; [done|]. simpl. by destruct (Nat.leb_spec (length l) 1); [|lia]. Qed.

(** Every node on the way up has a sibling. *)
Fixpoint paired (fuel n i : nat) : bool :=
  match fuel with
  | O => true
  | S fuel => if (n <=? 1)%nat then true else (sibling i <? n)%nat && paired fuel (half_up n) (i / 2)
  end.

Lemma div2_half_up i n : (i < n)%nat -> (i / 2 < half_up n)%nat.
Proof.
  intros Hi. rewrite <- Nat.div2_div. destruct (Nat.Even_or_Odd n) as [[k ->]|[k ->]], (Nat.Even_or_Odd i) as [[j ->]|[j ->]];
    rewrite ?half_up_even, ?half_up_odd, ?Nat.div2_double, ?Nat.add_1_r, ?Nat.div2_succ_double; lia.
Qed.

Lemma walk_up fuel l i h : (length l <= fuel)%nat -> l !! i = Some h -> paired fuel (length l) i = true ->
  fold_left apply_step (path_of (l :: grow fuel l) i) h = top fuel l.
Proof.
  revert l i h. induction fuel as [|fuel IH]; intros l i h Hl Hi.
  { apply lookup_lt_Some in Hi. lia. }
  cbn [paired]. destruct (Nat.leb_spec (length l) 1) as [H1|H2].
  - intros _. unfold top. rewrite grow_one by done. destruct l as [|x [|]]; [done| |simpl in H1; lia].
    destruct i; [by injection Hi as ->|done].
  - rewrite andb_true_iff, Nat.ltb_lt. intros [Hs Hp]. unfold top. rewrite grow_step by done.
    destruct (lookup_lt_is_Some_2 l (sibling i) Hs) as [x Hx].
    change (last (l :: above l :: grow fuel (above l))) with (last (above l :: grow fuel (above l))).
    cbn [path_of]. rewrite Hx. cbn [fold_left]. pose proof (half_up_lt _ H2).
    apply IH; [rewrite length_above; lia|by apply above_step|by rewrite length_above].
Qed.

Lemma from_hashes_eq l : l <> [] -> from_leaf_hashes l = Ok (mkTree l (l :: grow (length l) l) (top (length l) l)).
Proof. intros Hl. unfold from_leaf_hashes. by rewrite bool_decide_false. Qed.

Lemma proof_eq l i h : l !! i = Some h ->
  proof (mkTree l (l :: grow (length l) l) (top (length l) l)) i =
    Ok (mkProof h (path_of (l :: grow (length l) l) i) (top (length l) l)).
Proof. intros E. unfold proof. cbn [leaves nodes root]. by rewrite E. Qed.
Lemma paired_full k fuel i : (i < 2 ^ k)%nat -> paired fuel (2 ^ k) i = true.
Proof.
  revert fuel i. induction k as [|k IH]; intros fuel i Hi; (destruct fuel as [|fuel]; [done|]); [done|].
  cbn [paired]. destruct (Nat.leb_spec (2 ^ S k) 1) as [|H2]; [done|].
  assert (half_up (2 ^ S k) = 2 ^ k)%nat as Hh by (rewrite Nat.pow_succ_r'; apply half_up_even). rewrite Hh.
  apply andb_true_iff. split.
  - apply Nat.ltb_lt. unfold sibling. rewrite Nat.pow_succ_r' in *.
    destruct (Nat.Even_or_Odd i) as [[j ->]|[j ->]].
    + assert (Nat.even (2 * j) = true) as -> by (by rewrite Nat.even_mul). lia.
    + assert (Nat.even (2 * j + 1) = false) as -> by (by rewrite Nat.even_add, Nat.even_mul). lia.
  - apply IH. apply div2_half_up in Hi. by rewrite Hh in Hi.
Qed.

(** The proof of a leaf all of whose nodes have a sibling verifies, and names
    the leaf and the root; in a tree whose number of leaves is a power of two
    that is every leaf. *)
Theorem proof_verifies (l : list bytes) (i : nat) (h : bytes) : l !! i = Some h ->
  paired (length l) (length l) i = true \/ (exists k, length l = 2 ^ k)%nat ->
  exists t p, from_leaf_hashes l = Ok t /\ proof t i = Ok p /\
    verify_tx_inclusion h (root t) p = true.
Proof.
  intros Hi Hp. assert (paired (length l) (length l) i = true) as Hpa.
  { destruct Hp as [|[k E]]; [done|]. rewrite E. apply paired_full. rewrite <- E. by eapply lookup_lt_Some. }
  rewrite from_hashes_eq by (by destruct l). eexists _, _. split; [done|]. split; [by apply proof_eq|].
  unfold verify_tx_inclusion, verify. cbn [leaf_hash path proof_root root].
  rewrite !bool_decide_true; [done|by apply walk_up|done|done].
Qed.

(** *** Collisions *)

Definition collision : Prop := exists a b : bytes, a <> b /\ sha256 a = sha256 b.

Lemma step_inj s x y : apply_step x s = apply_step y s -> x = y \/ collision.
Proof.
  unfold apply_step, hash_internal. destruct (decide (x = y)) as [|Hne]; [by left|].
  intros E. right. destruct (direction s); eexists _, _; (split; [|exact E]); intros [= E'].
  - by apply app_inv_head in E'.
  - by apply app_inv_tail in E'.
Qed.

Lemma path_inj ps x y : fold_left apply_step ps x = fold_left apply_step ps y -> x = y \/ collision.
Proof.
  revert x y. induction ps as [|s ps IH]; intros x y; [by left|]. simpl. intros E.
  destruct (IH _ _ E) as [E'|]; [by apply step_inj in E'|by right].
Qed.

(** The last leaf of an odd tree has no valid proof.  The tree pads an odd
    level with its last node, but the proof leaves the step out: whenever the
    levels above are paired, the proof the tree makes of its own last leaf
    verifies only at the price of a collision of the hash. *)
Theorem odd_leaf_proof_fails (l : list bytes) (k : nat) (h : bytes) :
  length l = (2 * k + 1)%nat -> (0 < k)%nat -> l !! (2 * k)%nat = Some h -> paired (2 * k) (S k) k = true ->
  exists t p, from_leaf_hashes l = Ok t /\ proof t (2 * k) = Ok p /\
    (verify p = true -> hash_internal h h = h \/ collision).
Proof.
  intros Hl Hk Hh Hp. rewrite from_hashes_eq by (by destruct l). eexists _, _. split; [done|].
  split; [by apply proof_eq|]. unfold verify. cbn [leaf_hash path proof_root]. intros Hv%bool_decide_eq_true.
  assert (length (above l) = S k) as Ha by (rewrite length_above, Hl; apply half_up_odd).
  assert (exists fuel, length l = S fuel /\ fuel = (2 * k)%nat) as (fuel & Ef & ->) by (exists (2 * k)%nat; lia).
  rewrite Ef in Hv. unfold top in Hv. rewrite grow_step in Hv by lia.
  change (last (l :: above l :: grow (2 * k) (above l))) with (last (above l :: grow (2 * k) (above l))) in Hv.
  fold (top (2 * k) (above l)) in Hv. cbn [path_of] in Hv. rewrite lookup_ge_None_2 in Hv.
  2:{ rewrite Hl. unfold sibling. assert (Nat.even (2 * k) = true) as -> by (by rewrite Nat.even_mul). lia. }
  rewrite (Nat.mul_comm 2 k), Nat.div_mul, (Nat.mul_comm k 2) in Hv by done.
  rewrite <- (walk_up (2 * k) (above l) k (hash_internal h h)) in Hv;
    [|rewrite Ha; lia|by apply above_last|by rewrite Ha].
  apply path_inj in Hv as [<-|]; [by left|by right].
Qed.

(** A root binds its leaves.  Two proofs with the same turns that verify
    against the same root are of the same leaf, or else they exhibit a
    collision of the hash. *)
Theorem proofs_bind (p q : MerkleProof) : (forall b, length (sha256 b) = 32%nat) ->
  direction <$> path p = direction <$> path q -> length (leaf_hash p) = 32%nat -> length (leaf_hash q) = 32%nat ->
  Forall (fun s => length (step_hash s) = 32%nat) (path p) -> Forall (fun s => length (step_hash s) = 32%nat) (path q) ->
  proof_root p = proof_root q -> verify p = true -> verify q = true -> leaf_hash p = leaf_hash q \/ collision.
Proof.
  intros H32 Hd Hp Hq Fp Fq Hr Vp%bool_decide_eq_true Vq%bool_decide_eq_true. rewrite <- Vp, <- Vq in Hr. clear Vp Vq.
  destruct p as [x ps rp], q as [y qs rq]. cbn in *. clear rp rq. revert x y qs Hd Hp Hq Fq Hr.
  induction ps as [|s ps IH]; intros x y [|s' qs] Hd Hx Hy Fq Hr; try done; [by left|].
  apply Forall_cons in Fp as [Hs Fp]. apply Forall_cons in Fq as [Hs' Fq]. injection Hd as Hd Hds. cbn in Hr.
  assert (forall x s, length (apply_step x s) = 32%nat) as Ha.
  { intros z st. unfold apply_step, hash_internal. by destruct (direction st). }
  destruct (IH Fp _ _ _ Hds (Ha _ _) (Ha _ _) Fq Hr) as [E|]; [|by right].
  unfold apply_step, hash_internal in E. rewrite <- Hd in E. destruct (decide (x = y)) as [|Hne]; [by left|]. right.
  destruct (direction s); eexists _, _; (split; [|exact E]); intros [= E'].
  - apply app_inj_1 in E' as [_ E']; [done|]. by rewrite Hs, Hs'.
  - apply app_inj_1 in E' as [E' _]; [done|]. by rewrite Hx, Hy.
Qed.

(** The root does not tell an odd list from the list with its last element
    doubled: both have the same transaction root. *)
Theorem duplicated_leaf_same_root (l : list bytes) (k : nat) (h : bytes) : length l = (2 * k + 1)%nat -> (0 < k)%nat ->
  last l = Some h -> compute_tx_root (l ++ [h]) = compute_tx_root l.
Proof.
  intros Hl Hk Hh.
  assert (forall l', (2 <= length l')%nat -> compute_tx_root l' = top (length l') l') as Ht.
  { intros [|x [|y l']]; simpl length; [lia..|]. intros _. unfold compute_tx_root. by rewrite from_hashes_eq. }
  rewrite !Ht by (rewrite ?length_app; simpl; lia).
  assert (above (l ++ [h]) = above l) as Ea.
  { unfold above. f_equal. unfold pad. rewrite Hh, length_app, Hl, odd_double_1. simpl option_list.
    replace (2 * k + 1 + length [h])%nat with (2 * S k)%nat by (simpl; lia). by rewrite odd_double. }
  assert (forall f g l', (length l' <= f)%nat -> (length l' <= g)%nat -> l' <> [] -> top f l' = top g l') as Hf.
  { intros f g l' Hlf Hlg Hn. revert g l' Hlf Hlg Hn. induction f as [|f IH]; intros g l' Hlf Hlg Hn.
    { destruct l'; [done|simpl in *; lia]. }
    destruct g as [|g]; [destruct l'; [done|simpl in *; lia]|].
    destruct (decide (2 <= length l')%nat) as [H2|H2].
    - unfold top. rewrite !grow_step by done. pose proof (half_up_lt _ H2).
      apply (IH g (above l')); [rewrite length_above; lia..|].
      intros E. apply (f_equal length) in E. rewrite length_above in E. simpl in E. lia.
    - unfold top. by rewrite !grow_one by lia. }
  rewrite (length_app l). unfold top. rewrite Hl. replace (2 * k + 1 + length [h])%nat with (S (2 * k + 1)) by (simpl; lia).
  rewrite grow_step, Ea by (rewrite length_app; simpl; lia). replace (2 * k + 1)%nat with (S (2 * k)) at 2 by lia.
  rewrite (grow_step (2 * k) l) by lia. apply (Hf (2 * k + 1)%nat (2 * k)%nat (above l)).
  - rewrite length_above, Hl, half_up_odd. lia.
  - rewrite length_above, Hl, half_up_odd. lia.
  - intros E. apply (f_equal length) in E. rewrite length_above, Hl, half_up_odd in E. done.
Qed.
End Facts.

(** ** Witnesses *)

Section Witnesses.
Definition short_hash : Sha256 := {| sha256 b := take 32 (b ++ zeros 32) |}.
#[local] Existing Instance short_hash.

Definition leaf (b : byte) : bytes := replicate 32 b.
Definition leaves3 : list bytes := [leaf x01; leaf x02; leaf x03].
Definition leaves4 : list bytes := leaves3 ++ [leaf x04].

Lemma proof_verifies_witness : exists t p, from_leaf_hashes leaves4 = Ok t /\ proof t 2 = Ok p /\
  verify_tx_inclusion (leaf x03) (root t) p = true.
Proof. apply (proof_verifies leaves4 2 (leaf x03)); [done|]. right. by exists 2%nat. Defined.

Lemma odd_leaf_proof_fails_witness : exists t p, from_leaf_hashes leaves3 = Ok t /\ proof t 2 = Ok p /\
  (verify p = true -> hash_internal (leaf x03) (leaf x03) = leaf x03 \/ collision).
Proof. apply (odd_leaf_proof_fails leaves3 1 (leaf x03)); done || lia. Defined.

Definition step4 : MerkleProof :=
  mkProof (leaf x01) [mkStep (leaf x02) Right] (hash_internal (leaf x01) (leaf x02)).

Lemma proofs_bind_witness : leaf_hash step4 = leaf_hash step4 \/ collision.
Proof.
  apply (proofs_bind step4 step4); try (by repeat constructor).
  intros b. change (length (take 32 (b ++ zeros 32)) = 32%nat). rewrite length_take, length_app, length_zeros. lia.
Defined.

Lemma duplicated_leaf_same_root_witness : compute_tx_root (leaves3 ++ [leaf x03]) = compute_tx_root leaves3.
Proof. apply (duplicated_leaf_same_root leaves3 1 (leaf x03)); done || lia. Defined.
End Witnesses.

End Merkle.
