(* ===== verification/GovStore.v ===== *)
(** * The governance records of the storage crate

    [savitri-storage/src/storage/governance.rs] and the governance methods of
    [Storage] in [storage/mod.rs]: vote tokens, proposals, votes, parameters,
    and [GovernanceStorage], the lifecycle of a proposal counted in blocks.

    The keys of the different records have prefixes of which none is a prefix
    of another, so every kind of record has a map of its own; what executed
    proposals write is kept as bytes under the keys of the source.  Proposals
    and votes are always written by [bincode::serialize] of the same type they
    are read with, so the value stands for its bytes; the class [GovBincode]
    gives the lengths of the encodings, which the reads limit. *)

From stdpp Require Import gmap pretty.
From Stdlib Require Import Strings.Byte.
From S2P Require Import Prelude OrdMap Codec BlockStore.

Module GovStore.

Inductive ProposalStatus := Pending | ActiveVoting | Approved | Rejected | Executed.
#[global] Instance ProposalStatus_eq_dec : EqDecision ProposalStatus.
Proof. solve_decision. Defined.

Inductive VoteType := Yes | No | Abstain.
#[global] Instance VoteType_eq_dec : EqDecision VoteType.
Proof. solve_decision. Defined.

Inductive ProposalAction :=
| FeeVariation (new_base_fee new_max_fee : option Z)
| ProjectSelection (project_address : bytes) (amount : Z)
| Standards (standard_name standard_version : string)
| ContractUpgrade (contract_address new_code_hash : bytes) (description : string)
| NonCore (description : string)
| SetFlPolicy (fee_treasury_bps max_models : Z) (whitelist_aggregators : list bytes)
| ApproveFlModel (model_id : bytes)
| AbortFlRound (model_id : bytes) (round_id : Z)
| SetBondParams (min_bond max_bond : option Z)
| SetSlashParams (equivocation_pct double_vote_pct invalid_attestation_pct : option Z)
| AddConnector (connector_id : string) (pubkey config : bytes)
| RemoveConnector (connector_id : string)
| SlashingParamsUpdate (new_min_bond_amount new_slash_pct_equivocation new_slash_pct_double_vote
    new_slash_pct_invalid_attestation : option Z).

Record Proposal := mkProposal {
  p_id : Z;
  p_creator : bytes;
  p_deposit : Z;
  p_description : string;
  p_action : ProposalAction;
  p_status : ProposalStatus;
  p_created_at : Z;
  p_review_end : Z;
  p_voting_end : Z;
  p_yes_votes : Z;
  p_no_votes : Z;
  p_abstain_votes : Z;
}.

Record Vote := mkVote {
  vt_proposal_id : Z;
  vt_voter : bytes;
  vt_type : VoteType;
  vt_amount : Z;
  vt_timestamp : Z;
}.

Record GovernanceParams := mkParams {
  quorum_threshold_bps : Z;
  approval_threshold_bps : Z;
  voting_period_blocks : Z;
  review_period_blocks : Z;
  min_proposal_deposit : Z;
  max_proposals_per_block : Z;
}.

Definition GovernanceParams_default : GovernanceParams := mkParams 1000 5000 10080 1440 1000000 5.

(** The lengths of the bincode encodings, and the encoding of an action. *)
Class GovBincode := {
  proposal_len : Proposal -> Z;
  vote_len : Vote -> Z;
  params_len : GovernanceParams -> Z;
  enc_action : ProposalAction -> bytes;
}.

(** The records of the database; [misc] holds the keys written by executed
    proposals. *)
Record GovState := mkGov {
  balances : gmap bytes Z;
  total_tokens : option Z;
  next_id : option Z;
  proposals : gmap Z Proposal;
  votes : gmap (Z * bytes) Vote;
  locked : gmap bytes Z;
  gov_params : option GovernanceParams;
  misc : gmap bytes bytes;
}.

Definition GovState_empty : GovState := mkGov ∅ None None ∅ ∅ ∅ None ∅.

Inductive GovError :=
| DepositTooSmall (required deposit : Z)
| InsufficientBalance (balance amount : Z)
| ZeroAmount
| WrongStatus
| NotFinalized
| BadHex
| BadLength
| ProposalNotFound
| DataTooLarge
| VotingNotStarted
| VotingEnded
| AlreadyVoted
| VotesOverflow
| BadConfig
| ActionNotImplemented
| InvalidAction
| DoesNotFit
| ConnectorNotFound
| OutOfTreasury.

Definition G (A : Type) : Type := M GovState GovError A.

(** [MAX_BINCODE_SIZE] of [savitri-storage/src/lib.rs]. *)
Definition MAX_BINCODE_SIZE : Z := 16 * 1024 * 1024.

(** *** The methods of [Storage] *)

Definition set_balances (f : gmap bytes Z -> gmap bytes Z) (s : GovState) : GovState :=
  mkGov (f (balances s)) (total_tokens s) (next_id s) (proposals s) (votes s) (locked s) (gov_params s) (misc s).
Definition set_proposals (f : gmap Z Proposal -> gmap Z Proposal) (s : GovState) : GovState :=
  mkGov (balances s) (total_tokens s) (next_id s) (f (proposals s)) (votes s) (locked s) (gov_params s) (misc s).
Definition set_votes (f : gmap (Z * bytes) Vote -> gmap (Z * bytes) Vote) (s : GovState) : GovState :=
  mkGov (balances s) (total_tokens s) (next_id s) (proposals s) (f (votes s)) (locked s) (gov_params s) (misc s).
Definition set_misc (f : gmap bytes bytes -> gmap bytes bytes) (s : GovState) : GovState :=
  mkGov (balances s) (total_tokens s) (next_id s) (proposals s) (votes s) (locked s) (gov_params s) (f (misc s)).

Definition balance_of (a : bytes) (s : GovState) : Z := default 0 (balances s !! a).
Definition get_vote_token_balance (a : bytes) : G Z := gets (balance_of a).
Definition increment_vote_token_balance (a : bytes) (amount : Z) : G unit :=
  current ← get_vote_token_balance a;
  modify (set_balances <[a := saturating_add U128_MAX current amount]>).
Definition decrement_vote_token_balance (a : bytes) (amount : Z) : G unit :=
  current ← get_vote_token_balance a;
  modify (set_balances <[a := saturating_sub current amount]>).

Definition get_total_vote_tokens : G Z := gets (fun s => default 0 (total_tokens s)).
Definition next_proposal_id : G Z := gets (fun s => default 1 (next_id s)).
Definition put_next_id (id : Z) : G unit :=
  modify (fun s => mkGov (balances s) (total_tokens s) (Some id) (proposals s) (votes s) (locked s)
                     (gov_params s) (misc s)).
Definition put_proposal (id : Z) (p : Proposal) : G unit := modify (set_proposals <[id := p]>).
Definition get_proposal_raw (id : Z) : G (option Proposal) := gets (fun s => proposals s !! id).
Definition get_vote (voter : bytes) (id : Z) : G (option Vote) := gets (fun s => votes s !! (id, voter)).
Definition put_vote (voter : bytes) (id : Z) (v : Vote) : G unit := modify (set_votes <[(id, voter) := v]>).
(** [get_available_vote_tokens] is the balance: locked tokens are not
    subtracted. *)
Definition get_available_vote_tokens (a : bytes) : G Z := get_vote_token_balance a.
Definition get_locked_vote_tokens (a : bytes) : G Z := gets (fun s => default 0 (locked s !! a)).
Definition put_locked (a : bytes) (z : Z) : G unit :=
  modify (fun s => mkGov (balances s) (total_tokens s) (next_id s) (proposals s) (votes s) (<[a := z]> (locked s))
                     (gov_params s) (misc s)).

Definition votes_on (id : Z) (s : GovState) : list Vote :=
  (map_to_list (filter (fun kv : (Z * bytes) * Vote => kv.1.1 = id) (votes s))).*2.
(** In the order of the database. *)
Definition get_proposal_votes_raw `{HashOrder} (id : Z) : G (list Vote) := gets (fun s => hash_order (votes_on id s)).
(** Sorted by identifier. *)
Definition get_all_ids : G (list Z) := gets (fun s => (btree_iter (proposals s)).*1).

Definition put_misc (k v : bytes) : G unit := modify (set_misc <[k := v]>).
Definition delete_misc (k : bytes) : G unit := modify (set_misc (delete k)).
Definition set_fee_base (fee : Z) : G unit := put_misc (bytes_of_string "fee:base") (to_le_bytes 8 fee).
Definition set_fee_max (fee : Z) : G unit := put_misc (bytes_of_string "fee:max") (to_le_bytes 8 fee).
Definition put_approved_standard (id data : bytes) : G unit := put_misc (bytes_of_string "standard:" ++ id) data.
Definition put_non_core_change (id data : bytes) : G unit := put_misc (bytes_of_string "non_core_change:" ++ id) data.
Definition set_fl_policy (data : bytes) : G unit := put_misc (bytes_of_string "fl:policy") data.
Definition approve_fl_model (id : bytes) : G unit :=
  put_misc (bytes_of_string "fl:approved_model:" ++ id) (bytes_of_string "approved").
Definition abort_fl_round (round_id : Z) : G unit :=
  put_misc (bytes_of_string ("fl:round:" +:+ pretty round_id +:+ ":status")) (bytes_of_string "aborted").
Definition put_connector_info (id data : bytes) : G unit := put_misc (bytes_of_string "connector:" ++ id) data.
Definition connector_exists (id : bytes) : G bool :=
  gets (fun s => bool_decide (is_Some (misc s !! (bytes_of_string "connector:" ++ id)))).
Definition delete_connector_info (id : bytes) : G unit := delete_misc (bytes_of_string "connector:" ++ id).
Definition update_contract_code `{Hex} (address code : bytes) : G unit :=
  put_misc (bytes_of_string ("contract:" +:+ hex_encode address)) code.

Section Storage.
Context `{GovBincode, HashOrder, Hex}.

(** [safe_deserialize] of a stored proposal or vote. *)
Definition safe {A} (len : A -> Z) (a : A) : result GovError A :=
  if len a <=? MAX_BINCODE_SIZE then Ok a else Err DataTooLarge.

Definition cast_total (p : Proposal) : Z :=
  saturating_add U128_MAX (saturating_add U128_MAX (p_yes_votes p) (p_no_votes p)) (p_abstain_votes p).

(** [Storage::check_proposal_quorum] and [check_proposal_approval]. *)
Definition check_proposal_quorum (id : Z) : G bool :=
  o ← get_proposal_raw id;
  match o with
  | None => mret false
  | Some p =>
      match safe proposal_len p with
      | Err _ => mret false
      | Ok p =>
          total ← get_total_vote_tokens;
          if total =? 0 then mret false
          else mret (cast_total p >=? saturating_mul U128_MAX total 1000 / 10000)
      end
  end.

Definition check_proposal_approval (id : Z) : G bool :=
  quorum ← check_proposal_quorum id;
  if negb quorum then mret false
  else
    o ← get_proposal_raw id;
    match o with
    | None => mret false
    | Some p => match safe proposal_len p with Err _ => mret false | Ok p => mret (p_yes_votes p >? p_no_votes p) end
    end.

(** *** [GovernanceStorage] *)

Definition create_proposal (creator : bytes) (deposit : Z) (description : string) (action : ProposalAction)
    (current_block : Z) (ps : GovernanceParams) : G Z :=
  bail_if (deposit <? min_proposal_deposit ps) (DepositTooSmall (min_proposal_deposit ps) deposit);;
  id ← next_proposal_id;
  let review_end := wrap U64_MAX (current_block + review_period_blocks ps) in
  put_proposal id (mkProposal id creator deposit description action Pending current_block review_end
    (wrap U64_MAX (review_end + voting_period_blocks ps)) 0 0 0);;
  put_next_id (wrap U64_MAX (id + 1));;
  mret id.

Definition get_proposal (id : Z) : G (option Proposal) :=
  o ← get_proposal_raw id;
  match o with
  | Some p => p ← lift (safe proposal_len p); mret (Some p)
  | None => mret None
  end.

Definition set_status (st : ProposalStatus) (p : Proposal) : Proposal :=
  mkProposal (p_id p) (p_creator p) (p_deposit p) (p_description p) (p_action p) st (p_created_at p)
    (p_review_end p) (p_voting_end p) (p_yes_votes p) (p_no_votes p) (p_abstain_votes p).

Definition update_proposal_status (id : Z) (st : ProposalStatus) : G unit :=
  o ← get_proposal id;
  p ← lift (ok_or o ProposalNotFound);
  put_proposal id (set_status st p).

(** The votes are added with [+=]. *)
Definition count_vote (t : VoteType) (amount : Z) (p : Proposal) : Proposal :=
  let add x := wrap U128_MAX (x + amount) in
  mkProposal (p_id p) (p_creator p) (p_deposit p) (p_description p) (p_action p) (p_status p) (p_created_at p)
    (p_review_end p) (p_voting_end p)
    (match t with Yes => add (p_yes_votes p) | _ => p_yes_votes p end)
    (match t with No => add (p_no_votes p) | _ => p_no_votes p end)
    (match t with Abstain => add (p_abstain_votes p) | _ => p_abstain_votes p end).

Definition cast_vote (voter : bytes) (id : Z) (t : VoteType) (amount current_block : Z) : G unit :=
  o ← get_proposal id;
  p ← lift (ok_or o ProposalNotFound);
  bail_if (current_block <? p_review_end p) VotingNotStarted;;
  bail_if (current_block >? p_voting_end p) VotingEnded;;
  v ← get_vote voter id;
  bail_if (bool_decide (is_Some v)) AlreadyVoted;;
  available ← get_available_vote_tokens voter;
  bail_if (available <? amount) (InsufficientBalance available amount);;
  put_vote voter id (mkVote id voter t amount current_block);;
  put_proposal id (count_vote t amount p);;
  l ← get_locked_vote_tokens voter;
  put_locked voter (saturating_add U128_MAX l amount).

Fixpoint collect_safe (l : list Vote) : result GovError (list Vote) :=
  match l with
  | [] => Ok []
  | v :: l =>
      match safe vote_len v with
      | Err e => Err e
      | Ok v => match collect_safe l with Ok l => Ok (v :: l) | Err e => Err e end
      end
  end.

Definition get_proposal_votes (id : Z) : G (list Vote) :=
  l ← get_proposal_votes_raw id; lift (collect_safe l).

Fixpoint load_all (ids : list Z) : G (list Proposal) :=
  match ids with
  | [] => mret []
  | id :: ids =>
      o ← get_proposal id;
      l ← load_all ids;
      mret (match o with Some p => p :: l | None => l end)
  end.

Definition get_all_proposals : G (list Proposal) := ids ← get_all_ids; load_all ids.

Definition check_quorum (id : Z) (ps : GovernanceParams) : G bool :=
  o ← get_proposal id;
  match o with
  | None => mret false
  | Some p =>
      total ← get_total_vote_tokens;
      if total =? 0 then mret false
      else mret (cast_total p >=? saturating_mul U128_MAX total (quorum_threshold_bps ps) / 10000)
  end.

Definition check_approval (id : Z) (ps : GovernanceParams) : G bool :=
  quorum ← check_quorum id ps;
  if negb quorum then mret false
  else
    o ← get_proposal id;
    match o with
    | None => mret false
    | Some p =>
        if cast_total p =? 0 then mret false
        else mret (p_yes_votes p >=? saturating_mul U128_MAX (cast_total p) (approval_threshold_bps ps) / 10000)
    end.

Definition run_action (p : Proposal) : G unit :=
  match p_action p with
  | FeeVariation base max =>
      match base with Some fee => set_fee_base (wrap U64_MAX fee) | None => mret tt end;;
      match max with Some fee => set_fee_max (wrap U64_MAX fee) | None => mret tt end
  | Standards name version => put_approved_standard (bytes_of_string (name +:+ ":" +:+ version)) (p_creator p)
  | ContractUpgrade address code _ => update_contract_code address code
  | SetFlPolicy _ _ _ => set_fl_policy (enc_action (p_action p))
  | ApproveFlModel id => approve_fl_model id
  | AbortFlRound _ round_id => abort_fl_round round_id
  | AddConnector id pubkey config =>
      put_connector_info (bytes_of_string id)
        (bytes_of_string (id +:+ ":" +:+ hex_encode pubkey +:+ ":" +:+ hex_encode config))
  | RemoveConnector id => delete_connector_info (bytes_of_string id)
  | _ => fail ActionNotImplemented
  end.

Definition execute_proposal (id : Z) : G unit :=
  o ← get_proposal id;
  p ← lift (ok_or o ProposalNotFound);
  bail_if (negb (bool_decide (p_status p = Approved))) WrongStatus;;
  run_action p;;
  update_proposal_status id Executed.

Definition get_governance_params : G GovernanceParams :=
  o ← gets gov_params;
  match o with
  | Some ps => lift (safe params_len ps)
  | None => mret GovernanceParams_default
  end.

Definition set_governance_params (ps : GovernanceParams) : G unit :=
  modify (fun s => mkGov (balances s) (total_tokens s) (next_id s) (proposals s) (votes s) (locked s)
                     (Some ps) (misc s)).

(** [if let Ok(()) = ...]: the effects of a failing execution stay. *)
Definition try_execute (id : Z) : G bool := fun s => let '(r, s') := execute_proposal id s in (Ok (is_ok r), s').

Fixpoint process (current_block : Z) (ps : GovernanceParams) (l : list Proposal) (executed : list Z) : G (list Z) :=
  match l with
  | [] => mret executed
  | p :: l =>
      match p_status p with
      | Pending =>
          (if current_block >=? p_review_end p then update_proposal_status (p_id p) ActiveVoting else mret tt);;
          process current_block ps l executed
      | ActiveVoting =>
          (if current_block >? p_voting_end p then
             approved ← check_approval (p_id p) ps;
             update_proposal_status (p_id p) (if approved : bool then Approved else Rejected)
           else mret tt);;
          process current_block ps l executed
      | Approved =>
          if Z.of_nat (length executed) <? max_proposals_per_block ps then
            ok ← try_execute (p_id p);
            process current_block ps l (if ok : bool then executed ++ [p_id p] else executed)
          else process current_block ps l executed
      | _ => process current_block ps l executed
      end
  end.

Definition process_proposals (current_block : Z) : G (list Z) :=
  ps ← get_governance_params;
  l ← get_all_proposals;
  process current_block ps l [].

Definition get_voting_power (a : bytes) : G Z := get_available_vote_tokens a.

Record ProposalStats := mkStats {
  ps_proposal_id : Z;
  ps_status : ProposalStatus;
  ps_total_votes : Z;
  ps_yes_votes : Z;
  ps_no_votes : Z;
  ps_abstain_votes : Z;
  ps_unique_voters : Z;
  ps_created_at : Z;
  ps_voting_end : Z;
}.

Definition get_proposal_stats (id : Z) : G (option ProposalStats) :=
  o ← get_proposal id;
  match o with
  | None => mret None
  | Some p =>
      vs ← get_proposal_votes id;
      mret (Some (mkStats id (p_status p) (cast_total p) (p_yes_votes p) (p_no_votes p) (p_abstain_votes p)
        (Z.of_nat (length vs)) (p_created_at p) (p_voting_end p)))
  end.
End Storage.

End GovStore.
