(* ===== verification/Governance.v ===== *)
(** * Contract governance: deposits, proposals, votes

    [Savitri-contracts/src/governance/deposit.rs], [vote_token.rs],
    [proposals.rs] and [voting.rs]: the proposals with string addresses, their
    conversion to and from the records of the storage crate, and the vote
    system counted in seconds.  It shares the records of [GovStore].

    Clock readings are arguments.  Percentages computed in floating point for
    reports and the metrics are left out. *)

From stdpp Require Import gmap.
From Stdlib Require Import Strings.Byte.
From S2P Require Import Prelude OrdMap Codec BlockStore GovStore.

Module Gov.
Import GovStore.

Inductive ProposalStatus := Pending | ActiveVoting | Approved | Rejected.
#[global] Instance Status_eq_dec : EqDecision ProposalStatus.
Proof. solve_decision. Defined.

Inductive VoteType := Yes | No | Abstain.

(** [ConnectorConfig] of [oracle/types.rs]. *)
Record ConnectorConfig := mkConfig {
  max_ingest_per_minute : Z;
  max_payload_size : Z;
  rate_limit_window_secs : Z;
}.

Definition config_valid (c : ConnectorConfig) : bool :=
  negb (max_ingest_per_minute c =? 0) && negb (max_payload_size c =? 0) && negb (rate_limit_window_secs c =? 0).

Inductive ProposalAction :=
| FeeVariation (new_base_fee new_max_fee : option Z)
| ProjectSelection (project_address : string) (amount : Z)
| Standards (standard_name standard_version : string)
| NonCore (description : string)
| ContractUpgrade (contract_address new_code_hash : bytes) (description : string)
| SlashingParamsUpdate (new_min_bond_amount new_slash_pct_equivocation new_slash_pct_double_vote
    new_slash_pct_invalid_attestation : option Z)
| SetFlPolicy (fee_treasury_bps max_models : Z) (whitelist_aggregators : list string)
| ApproveFlModel (model_id : string)
| AbortFlRound (model_id : string) (round_id : Z)
| AddConnector (connector_id : string) (pubkey : bytes) (config : ConnectorConfig)
| RemoveConnector (connector_id : string).

Record Proposal := mkProposal {
  id : Z;
  creator : string;
  deposit : Z;
  description : string;
  action : ProposalAction;
  status : ProposalStatus;
  created_at : Z;
  review_end : Z;
  voting_end : Z;
  yes_votes : Z;
  no_votes : Z;
  abstain_votes : Z;
}.

Definition MAX_DESERIALIZE_SIZE : Z := 4 * 1024 * 1024.
Definition REVIEW_PERIOD_SECONDS : Z := 24 * 60 * 60.
Definition VOTING_PERIOD_SECONDS : Z := 7 * 24 * 60 * 60.
Definition MAX_PROPOSALS_PER_BATCH : nat := 100.

(** *** A proposal by itself *)

Definition calculate_review_end (t : Z) : Z := wrap U64_MAX (t + REVIEW_PERIOD_SECONDS).
Definition calculate_voting_end (t : Z) : Z := wrap U64_MAX (wrap U64_MAX (t + REVIEW_PERIOD_SECONDS) + VOTING_PERIOD_SECONDS).

Definition new_with_timestamp (i : Z) (c : string) (d : Z) (descr : string) (a : ProposalAction) (t : Z) : Proposal :=
  mkProposal i c d descr a Pending t (calculate_review_end t) (calculate_voting_end t) 0 0 0.

Definition total_valid_votes (p : Proposal) : Z :=
  default U128_MAX (checked_add U128_MAX (yes_votes p) (no_votes p)).
Definition total_votes (p : Proposal) : Z :=
  default U128_MAX (checked_add U128_MAX (yes_votes p) (no_votes p) ≫= fun s => checked_add U128_MAX s (abstain_votes p)).

Definition with_votes (y n a : Z) (p : Proposal) : Proposal :=
  mkProposal (id p) (creator p) (deposit p) (description p) (action p) (status p) (created_at p) (review_end p)
    (voting_end p) y n a.
Definition add_yes_vote (amount : Z) (p : Proposal) : result GovError Proposal :=
  match checked_add U128_MAX (yes_votes p) amount with
  | Some y => Ok (with_votes y (no_votes p) (abstain_votes p) p) | None => Err VotesOverflow end.
Definition add_no_vote (amount : Z) (p : Proposal) : result GovError Proposal :=
  match checked_add U128_MAX (no_votes p) amount with
  | Some n => Ok (with_votes (yes_votes p) n (abstain_votes p) p) | None => Err VotesOverflow end.
Definition add_abstain_vote (amount : Z) (p : Proposal) : result GovError Proposal :=
  match checked_add U128_MAX (abstain_votes p) amount with
  | Some a => Ok (with_votes (yes_votes p) (no_votes p) a p) | None => Err VotesOverflow end.

Definition is_in_review (now : Z) (p : Proposal) : bool :=
  bool_decide (status p = Pending) && (now <? review_end p).
Definition is_in_voting (now : Z) (p : Proposal) : bool :=
  bool_decide (status p = ActiveVoting) && (now >=? review_end p) && (now <? voting_end p).
Definition is_expired (now : Z) (p : Proposal) : bool := now >=? voting_end p.

Definition with_status (st : ProposalStatus) (p : Proposal) : Proposal :=
  mkProposal (id p) (creator p) (deposit p) (description p) (action p) st (created_at p) (review_end p)
    (voting_end p) (yes_votes p) (no_votes p) (abstain_votes p).
Definition approve : Proposal -> Proposal := with_status Approved.
Definition reject : Proposal -> Proposal := with_status Rejected.

Definition is_finalized (p : Proposal) : bool :=
  match status p with Approved | Rejected => true | _ => false end.

(** [transition_state_with_timestamp]: the new state, and whether it changed. *)
Definition transition_state (now : Z) (p : Proposal) : bool * Proposal :=
  if is_finalized p then (false, p)
  else match status p with
       | Pending => if now >=? review_end p then (true, with_status ActiveVoting p) else (false, p)
       | ActiveVoting => if now >=? voting_end p then (true, with_status Rejected p) else (false, p)
       | _ => (false, p)
       end.
Definition start_voting (now : Z) (p : Proposal) : Proposal := (transition_state now p).2.

Definition should_transition (now : Z) (p : Proposal) : bool :=
  if is_finalized p then false
  else match status p with
       | Pending => now >=? review_end p
       | ActiveVoting => now >=? voting_end p
       | _ => false
       end.

Definition is_valid_transition (new_status : ProposalStatus) (p : Proposal) : bool :=
  if is_finalized p then false
  else match status p with
       | Pending => bool_decide (new_status = ActiveVoting)
       | ActiveVoting => match new_status with Approved | Rejected => true | _ => false end
       | _ => false
       end.

Definition try_transition_to (new_status : ProposalStatus) (now : Z) (p : Proposal) : result GovError bool * Proposal :=
  if bool_decide (status p = new_status) then (Ok false, p)
  else if negb (is_valid_transition new_status p) then (Err WrongStatus, p)
  else match new_status with
       | ActiveVoting => let '(b, p') := transition_state now p in (Ok b, p')
       | Approved => (Ok true, approve p)
       | Rejected => (Ok true, reject p)
       | Pending => (Err WrongStatus, p)
       end.

Definition can_be_voted (now : Z) (p : Proposal) : bool :=
  if is_in_review now p then false
  else if negb (bool_decide (status p = ActiveVoting)) then false
  else now <? voting_end p.

(** *** Deposits *)

Definition calculate_min_deposit (total : Z) : Z :=
  default U128_MAX ((fun v => v / 100) <$> checked_mul U128_MAX total 5).
Definition is_deposit_sufficient (d total : Z) : bool :=
  if total =? 0 then false else d >=? calculate_min_deposit total.

Definition lock_deposit (c : bytes) (amount : Z) : G unit :=
  bail_if (amount =? 0) ZeroAmount;;
  b ← get_vote_token_balance c;
  bail_if (b <? amount) (InsufficientBalance b amount);;
  decrement_vote_token_balance c amount.

Definition unlock_deposit `{Hex} (p : Proposal) : G unit :=
  bail_if (negb (bool_decide (status p = Approved))) WrongStatus;;
  if deposit p =? 0 then mret tt
  else
    c ← lift (ok_or (hex_decode (creator p)) BadHex);
    bail_if (negb (length c =? 32)%nat) BadLength;;
    increment_vote_token_balance c (deposit p).

(** The deposit was taken when it was locked; nothing is left to burn. *)
Definition burn_deposit (p : Proposal) : G unit :=
  bail_if (negb (bool_decide (status p = Rejected))) WrongStatus.

Definition handle_finalized_proposal `{Hex} (p : Proposal) : G unit :=
  match status p with
  | Approved => unlock_deposit p
  | Rejected => burn_deposit p
  | _ => fail NotFinalized
  end.

(** *** Vote tokens *)

Definition mint_from_fees (total_fees : Z) : Z := total_fees / 1000.

Fixpoint sum_checked (acc : Z) (l : list Z) : option Z :=
  match l with
  | [] => Some acc
  | x :: l => acc ← checked_add U128_MAX acc x; sum_checked acc l
  end.

(** The loop of [distribute_proportional]; the last participant takes what
    is left. *)
Fixpoint distribute_loop (total fees done : Z) (l : list (bytes * Z)) : G unit :=
  match l with
  | [] => mret tt
  | (a, fee) :: l =>
      let tokens :=
        match l with
        | [] => wrap U128_MAX (total - done)
        | _ => default 0 ((fun v => v / fees) <$> checked_mul U128_MAX total fee)
        end in
      if tokens >? 0 then
        increment_vote_token_balance a tokens;;
        done ← lift (ok_or (checked_add U128_MAX done tokens) VotesOverflow);
        distribute_loop total fees done l
      else distribute_loop total fees done l
  end.

Definition distribute_proportional (total : Z) (participants : list (bytes * Z)) : G unit :=
  if (total =? 0) || bool_decide (participants = []) then mret tt
  else
    fees ← lift (ok_or (sum_checked 0 participants.*2) VotesOverflow);
    if fees =? 0 then mret tt else distribute_loop total fees 0 participants.

Definition mint_to_sender (a : bytes) (fee_paid : Z) : G unit :=
  if fee_paid =? 0 then mret tt
  else
    let tokens := mint_from_fees fee_paid in
    if tokens >? 0 then increment_vote_token_balance a tokens else mret tt.

(** *** Conversion to and from the stored record *)

(** bincode of a connector configuration. *)
Class ConfigBincode := { enc_config : ConnectorConfig -> bytes; dec_config : bytes -> option ConnectorConfig }.

(** [hex::decode] of bytes that are taken for the characters of a string. *)
Definition hex_decode_bytes `{Hex} (b : bytes) : option bytes := hex_decode (String.string_of_list_byte b).

(** [Some(x.unwrap_or(0))]. *)
Definition some_or_0 (o : option Z) : option Z := Some (default 0 o).

Section Convert.
Context `{Hex, ConfigBincode}.

Definition status_of_storage (s : GovStore.ProposalStatus) : ProposalStatus :=
  match s with
  | GovStore.Pending => Pending
  | GovStore.ActiveVoting => ActiveVoting
  | GovStore.Approved | GovStore.Executed => Approved
  | GovStore.Rejected => Rejected
  end.
Definition status_to_storage (s : ProposalStatus) : GovStore.ProposalStatus :=
  match s with
  | Pending => GovStore.Pending
  | ActiveVoting => GovStore.ActiveVoting
  | Approved => GovStore.Approved
  | Rejected => GovStore.Rejected
  end.

Definition read_config (config : bytes) : result GovError ConnectorConfig :=
  if Z.of_nat (length config) >? MAX_DESERIALIZE_SIZE then Err DataTooLarge
  else ok_or (dec_config config) BadConfig.

Definition action_of_storage (a : GovStore.ProposalAction) : result GovError ProposalAction :=
  match a with
  | GovStore.FeeVariation b m => Ok (FeeVariation (some_or_0 b) (some_or_0 m))
  | GovStore.ProjectSelection addr amount => Ok (ProjectSelection (hex_encode addr) amount)
  | GovStore.Standards n v => Ok (Standards n v)
  | GovStore.NonCore d => Ok (NonCore d)
  | GovStore.ContractUpgrade addr code d =>
      match hex_decode_bytes addr, hex_decode_bytes code with
      | Some addr, Some code => Ok (ContractUpgrade addr code d)
      | _, _ => Err BadHex
      end
  | GovStore.SlashingParamsUpdate m e d i =>
      Ok (SlashingParamsUpdate (some_or_0 m) (some_or_0 e) (some_or_0 d) (some_or_0 i))
  | GovStore.SetFlPolicy bps n l => Ok (SetFlPolicy bps n (hex_encode <$> l))
  | GovStore.ApproveFlModel i => Ok (ApproveFlModel (hex_encode i))
  | GovStore.AbortFlRound i r => Ok (AbortFlRound (hex_encode i) r)
  | GovStore.AddConnector i k config =>
      match read_config config with Ok c => Ok (AddConnector i k c) | Err e => Err e end
  | GovStore.RemoveConnector i => Ok (RemoveConnector i)
  | GovStore.SetBondParams _ _ | GovStore.SetSlashParams _ _ _ => Ok (NonCore "Unknown action type")
  end.

Definition storage_proposal_to_governance_proposal (p : GovStore.Proposal) : result GovError Proposal :=
  match action_of_storage (p_action p) with
  | Err e => Err e
  | Ok a => Ok (mkProposal (p_id p) (hex_encode (p_creator p)) (p_deposit p) (p_description p) a
                  (status_of_storage (p_status p)) (p_created_at p) (p_review_end p) (p_voting_end p)
                  (p_yes_votes p) (p_no_votes p) (p_abstain_votes p))
  end.

Definition action_to_storage (a : ProposalAction) : result GovError GovStore.ProposalAction :=
  match a with
  | FeeVariation b m => Ok (GovStore.FeeVariation (some_or_0 b) (some_or_0 m))
  | ProjectSelection addr amount =>
      match hex_decode addr with Some addr => Ok (GovStore.ProjectSelection addr amount) | None => Err BadHex end
  | Standards n v => Ok (GovStore.Standards n v)
  | NonCore d => Ok (GovStore.NonCore d)
  | ContractUpgrade addr code d =>
      match hex_decode_bytes addr, hex_decode_bytes code with
      | Some addr, Some code => Ok (GovStore.ContractUpgrade addr code d)
      | _, _ => Err BadHex
      end
  | SlashingParamsUpdate m e d i =>
      Ok (GovStore.SlashingParamsUpdate (some_or_0 m) (some_or_0 e) (some_or_0 d) (some_or_0 i))
  | SetFlPolicy bps n l => Ok (GovStore.SetFlPolicy bps n ((fun a => default [] (hex_decode a)) <$> l))
  | ApproveFlModel i => match hex_decode i with Some i => Ok (GovStore.ApproveFlModel i) | None => Err BadHex end
  | AbortFlRound i r => match hex_decode i with Some i => Ok (GovStore.AbortFlRound i r) | None => Err BadHex end
  | AddConnector i k c => Ok (GovStore.AddConnector i k (enc_config c))
  | RemoveConnector i => Ok (GovStore.RemoveConnector i)
  end.

Definition governance_proposal_to_storage_proposal (p : Proposal) : result GovError GovStore.Proposal :=
  match hex_decode (creator p) with
  | None => Err BadHex
  | Some c =>
      match action_to_storage (action p) with
      | Err e => Err e
      | Ok a => Ok (GovStore.mkProposal (id p) c (deposit p) (description p) a (status_to_storage (status p))
                      (created_at p) (review_end p) (voting_end p) (yes_votes p) (no_votes p) (abstain_votes p))
      end
  end.
End Convert.

(** *** The proposal system *)

Section System.
Context `{Hex, ConfigBincode, GovBincode, HashOrder}.

Definition create_proposal (now : Z) (c : bytes) (d : Z) (descr : string) (a : ProposalAction) : G Proposal :=
  total ← get_total_vote_tokens;
  bail_if (negb (is_deposit_sufficient d total)) (DepositTooSmall (calculate_min_deposit total) d);;
  b ← get_vote_token_balance c;
  bail_if (b <? d) (InsufficientBalance b d);;
  decrement_vote_token_balance c d;;
  i ← next_proposal_id;
  let p := new_with_timestamp i (hex_encode c) d descr a now in
  sp ← lift (governance_proposal_to_storage_proposal p);
  put_proposal (p_id sp) sp;;
  mret p.

(** The stored proposal, refused when its encoding is too large. *)
Definition load (i : Z) : G GovStore.Proposal :=
  o ← get_proposal_raw i;
  p ← lift (ok_or o ProposalNotFound);
  bail_if (proposal_len p >? MAX_DESERIALIZE_SIZE) DataTooLarge;;
  mret p.

Definition update_proposal_state (i now : Z) : G bool :=
  sp ← load i;
  p ← lift (storage_proposal_to_governance_proposal sp);
  let '(changed, p) := transition_state now p in
  if changed : bool then
    sp ← lift (governance_proposal_to_storage_proposal p);
    put_proposal (p_id sp) sp;;
    mret changed
  else mret changed.

(** *** The voting system *)

Definition add_vote (t : VoteType) (amount : Z) (p : GovStore.Proposal) : result GovError GovStore.Proposal :=
  let put y n a := GovStore.mkProposal (p_id p) (p_creator p) (p_deposit p) (p_description p) (p_action p) (p_status p)
    (p_created_at p) (p_review_end p) (p_voting_end p) y n a in
  match t with
  | Yes => match checked_add U128_MAX (p_yes_votes p) amount with
           | Some y => Ok (put y (p_no_votes p) (p_abstain_votes p)) | None => Err VotesOverflow end
  | No => match checked_add U128_MAX (p_no_votes p) amount with
          | Some n => Ok (put (p_yes_votes p) n (p_abstain_votes p)) | None => Err VotesOverflow end
  | Abstain => match checked_add U128_MAX (p_abstain_votes p) amount with
               | Some a => Ok (put (p_yes_votes p) (p_no_votes p) a) | None => Err VotesOverflow end
  end.

Definition vote_to_storage (t : VoteType) : GovStore.VoteType :=
  match t with Yes => GovStore.Yes | No => GovStore.No | Abstain => GovStore.Abstain end.

Definition vote (now i : Z) (voter : bytes) (t : VoteType) (amount : Z) : G unit :=
  bail_if (amount =? 0) ZeroAmount;;
  p ← load i;
  bail_if (negb (bool_decide (p_status p = GovStore.ActiveVoting))) WrongStatus;;
  bail_if (now >=? p_voting_end p) VotingEnded;;
  v ← get_vote voter i;
  bail_if (bool_decide (is_Some v)) AlreadyVoted;;
  available ← get_available_vote_tokens voter;
  bail_if (available <? amount) (InsufficientBalance available amount);;
  decrement_vote_token_balance voter amount;;
  put_vote voter i (mkVote i voter (vote_to_storage t) amount now);;
  p ← lift (add_vote t amount p);
  put_proposal i p.

Definition vote_with_struct (now i : Z) (voter : string) (t : VoteType) (amount : Z) : G unit :=
  v ← lift (ok_or (hex_decode voter) BadHex);
  bail_if (negb (length v =? 32)%nat) BadLength;;
  vote now i v t amount.

Fixpoint pay_back (l : list Vote) : G unit :=
  match l with
  | [] => mret tt
  | v :: l => increment_vote_token_balance (vt_voter v) (vt_amount v);; pay_back l
  end.

Definition unlock_vote_tokens (i : Z) : G unit :=
  p ← load i;
  bail_if (negb (bool_decide (p_status p = GovStore.Approved) || bool_decide (p_status p = GovStore.Rejected)))
    NotFinalized;;
  vs ← get_proposal_votes_raw i;
  bail_if (existsb (fun v => vote_len v >? MAX_DESERIALIZE_SIZE) vs) DataTooLarge;;
  pay_back vs.

Definition calculate_quorum (total : Z) : Z := total / 5.
Definition is_quorum_reached (votes total : Z) : bool := if total =? 0 then false else votes >=? calculate_quorum total.
Definition calculate_missing_for_quorum (votes total : Z) : Z :=
  if total =? 0 then 0
  else if votes >=? calculate_quorum total then 0
  else default 0 (checked_sub (calculate_quorum total) votes).
Definition calculate_approval_threshold (valid : Z) : Z :=
  default U128_MAX ((fun v => v / 100) <$> checked_mul U128_MAX valid 65).
Definition is_approval_reached (yes no : Z) : bool :=
  let valid := default U128_MAX (checked_add U128_MAX yes no) in
  if valid =? 0 then false else yes >=? calculate_approval_threshold valid.
Definition calculate_missing_for_approval (yes no : Z) : Z :=
  let valid := default U128_MAX (checked_add U128_MAX yes no) in
  if valid =? 0 then 0
  else if yes >=? calculate_approval_threshold valid then 0
  else default 0 (checked_sub (calculate_approval_threshold valid) yes).
Definition is_approved (yes no votes total : Z) : bool :=
  if negb (is_quorum_reached votes total) then false else is_approval_reached yes no.

Definition calculate_proposal_result (p : Proposal) : G ProposalStatus :=
  total ← get_total_vote_tokens;
  mret (if is_approved (yes_votes p) (no_votes p) (total_votes p) total then Approved else Rejected).

Definition calculate_proposal_result_from_storage (i : Z) : G ProposalStatus :=
  p ← load i;
  votes ← lift (ok_or (checked_add U128_MAX (p_yes_votes p) (p_no_votes p) ≫= fun s =>
                         checked_add U128_MAX s (p_abstain_votes p)) VotesOverflow);
  total ← get_total_vote_tokens;
  mret (if is_approved (p_yes_votes p) (p_no_votes p) votes total then Approved else Rejected).

(** The action of the proposal built for the deposit manager. *)
Definition expired_action (a : GovStore.ProposalAction) : result GovError ProposalAction :=
  match a with
  | GovStore.ContractUpgrade addr code d => Ok (ContractUpgrade addr code d)
  | GovStore.SetBondParams min max =>
      Ok (SlashingParamsUpdate (some_or_0 (match min with Some m => Some m | None => max end)) None None None)
  | GovStore.SetSlashParams e d i => Ok (SlashingParamsUpdate None (some_or_0 e) (some_or_0 d) (some_or_0 i))
  | a => action_of_storage a
  end.

Definition expired_proposal (p : GovStore.Proposal) (result : ProposalStatus) : Prelude.result GovError Proposal :=
  match expired_action (p_action p) with
  | Err e => Err e
  | Ok a =>
      let g := new_with_timestamp (p_id p) (hex_encode (p_creator p)) (p_deposit p) (p_description p) a (p_created_at p) in
      Ok (match result with Approved | Rejected => with_status result g | _ => g end)
  end.

(** One proposal of the batch: whether its voting was closed. *)
Definition process_one (now i : Z) : G bool :=
  p ← load i;
  let activated := bool_decide (p_status p = GovStore.Pending) && (now >=? p_review_end p) in
  let p := if activated : bool then set_status GovStore.ActiveVoting p else p in
  if bool_decide (p_status p = GovStore.ActiveVoting) && (now >=? p_voting_end p) then
    result ← calculate_proposal_result_from_storage (p_id p);
    let p := set_status (match result with Approved => GovStore.Approved | _ => GovStore.Rejected end) p in
    g ← lift (expired_proposal p result);
    (match result with
     | Approved => unlock_deposit g;; unlock_vote_tokens (p_id p)
     | Rejected => burn_deposit g;; unlock_vote_tokens (p_id p)
     | _ => mret tt
     end);;
    put_proposal (p_id p) p;;
    mret true
  else
    (if activated : bool then put_proposal (p_id p) p else mret tt);;
    mret false.

Fixpoint process_batch (now : Z) (ids : list Z) (count : Z) : G Z :=
  match ids with
  | [] => mret count
  | i :: ids => closed ← process_one now i; process_batch now ids (if closed : bool then count + 1 else count)
  end.

Definition process_expired_proposals (now : Z) : G Z :=
  ids ← get_all_ids;
  process_batch now (take MAX_PROPOSALS_PER_BATCH ids) 0.

Definition is_in_voting_period (i now : Z) : G bool :=
  p ← load i;
  mret (bool_decide (p_status p = GovStore.ActiveVoting) && (now >=? p_review_end p) && (now <? p_voting_end p)).
End System.

End Gov.
