(* ===== verification/GovExec.v ===== *)
(** * Execution of approved proposals

    [Savitri-contracts/src/governance/execution.rs]: the validation of every
    action and [ProposalExecutor].  The treasury of an executor is the one of
    [Fee]; the bond manager is the one of [Bonds]. *)

From stdpp Require Import gmap pretty.
From Stdlib Require Import Strings.Byte.
From S2P Require Import Prelude OrdMap Codec BlockStore GovStore Governance Fee Bonds.

Module GovExec.
Import GovStore Gov.

(** [FlPolicy] of [savitri-storage/src/storage/fl.rs]. *)
Record FlPolicy := mkPolicy {
  fee_treasury_bps : Z;
  max_models : Z;
  whitelist_aggregators : list bytes;
  min_contributions_per_round : Z;
  max_contributions_per_round : Z;
  reward_per_contribution : Z;
  round_duration_blocks : Z;
  model_approval_required : bool;
}.
Definition FlPolicy_default : FlPolicy := mkPolicy 100 100 [] 5 100 1000000 10080 true.

(** The bincode encodings that are stored, and [char::is_alphanumeric] of
    some character, which needs the tables of Unicode. *)
Class ExecBincode := {
  enc_policy : FlPolicy -> bytes;
  enc_connector : bytes -> ConnectorConfig -> Z -> bytes;
  has_alphanumeric : string -> bool;
}.

Definition V : Type := result GovError unit.
Definition ok_if (c : bool) (e : GovError) : V := if c then Ok tt else Err e.

Section Exec.
Context `{Hex, ExecBincode}.

Definition in_bounds (lo hi : Z) (o : option Z) : bool :=
  match o with Some x => negb (x <? lo) && negb (x >? hi) | None => true end.

Definition validate_fee_variation (base max : option Z) : V :=
  if bool_decide (base = None) && bool_decide (max = None) then Err InvalidAction
  else if negb (in_bounds 100000000000000 1000000000000000000000 base) then Err InvalidAction
  else if negb (in_bounds 1000000000000000 10000000000000000000000 max) then Err InvalidAction
  else match base, max with
       | Some b, Some m => ok_if (negb (b >? m)) InvalidAction
       | _, _ => Ok tt
       end.

Definition hex32 (s : string) : V :=
  match hex_decode s with
  | None => Err BadHex
  | Some b => ok_if (length b =? 32)%nat BadLength
  end.

Definition validate_project_selection (addr : string) (amount : Z) : V :=
  if bool_decide (addr = "") then Err InvalidAction
  else match hex32 addr with
       | Err e => Err e
       | Ok _ => ok_if (negb (amount =? 0)) InvalidAction
       end.

Definition strlen (s : string) : Z := Z.of_nat (String.length s).

Definition validate_standard_approval (name version : string) : V :=
  ok_if (negb (bool_decide (name = "")) && negb (bool_decide (version = ""))
    && (strlen name <=? 100) && (strlen version <=? 50) && has_alphanumeric version) InvalidAction.

Definition validate_contract_upgrade (addr code : bytes) : V :=
  if negb (length addr =? 32)%nat then Err BadLength
  else if negb (length code =? 32)%nat then Err BadLength
  else ok_if (negb (is_zero addr) && negb (is_zero code)) InvalidAction.

Definition validate_non_core_change (d : string) : V :=
  ok_if (negb (bool_decide (d = "")) && (strlen d <=? 10000)) InvalidAction.

Fixpoint validate_aggregators (l : list string) : V :=
  match l with
  | [] => Ok tt
  | a :: l => match hex32 a with Err e => Err e | Ok _ => validate_aggregators l end
  end.

Definition validate_set_fl_policy (bps n : Z) (l : list string) : V :=
  if bps >? 10000 then Err InvalidAction
  else if n =? 0 then Err InvalidAction
  else validate_aggregators l.

Definition validate_model_id (i : string) : V := hex32 i.

Definition validate_abort_round (i : string) (round_id : Z) : V :=
  match validate_model_id i with
  | Err e => Err e
  | Ok _ => ok_if (negb (round_id =? 0)) InvalidAction
  end.

Definition validate_slashing_params_update (bond e d i : option Z) : V :=
  if negb (in_bounds Bonds.MIN_BOND_AMOUNT Bonds.MAX_BOND_AMOUNT bond) then Err InvalidAction
  else if negb (forallb (in_bounds Bonds.MIN_SLASH_PCT Bonds.MAX_SLASH_PCT) [e; d; i]) then Err InvalidAction
  else ok_if (existsb (fun o => bool_decide (is_Some o)) [bond; e; d; i]) InvalidAction.

Definition validate_add_connector (i : string) (k : bytes) (c : ConnectorConfig) : V :=
  if bool_decide (i = "") || (strlen i >? 256) then Err InvalidAction
  else if negb (length k =? 32)%nat then Err BadLength
  else ok_if (config_valid c) BadConfig.

Definition validate_remove_connector (i : string) : V := ok_if (negb (bool_decide (i = ""))) InvalidAction.

Definition validate_action (a : ProposalAction) : V :=
  match a with
  | FeeVariation b m => validate_fee_variation b m
  | ProjectSelection addr amount => validate_project_selection addr amount
  | Standards n v => validate_standard_approval n v
  | NonCore d => validate_non_core_change d
  | ContractUpgrade addr code _ => validate_contract_upgrade addr code
  | SlashingParamsUpdate b e d i => validate_slashing_params_update b e d i
  | SetFlPolicy bps n l => validate_set_fl_policy bps n l
  | ApproveFlModel i => validate_model_id i
  | AbortFlRound i r => validate_abort_round i r
  | AddConnector i k c => validate_add_connector i k c
  | RemoveConnector i => validate_remove_connector i
  end.

(** *** Execution *)

Definition to_u64 (x : Z) : result GovError Z := if x <=? U64_MAX then Ok x else Err DoesNotFit.

Definition execute_fee_variation (base max : option Z) : G unit :=
  lift (validate_fee_variation base max);;
  match base with Some b => fee ← lift (to_u64 b); set_fee_base fee | None => mret tt end;;
  match max with Some m => fee ← lift (to_u64 m); set_fee_max fee | None => mret tt end.

(** The treasury is cloned and the clone dropped after the withdrawal. *)
Definition execute_project_selection (t : Fee.Treasury) (now : Z) (addr : string) (amount : Z) : G unit :=
  lift (validate_project_selection addr amount);;
  match (Fee.spend now amount t).1 with Ok _ => mret tt | Err _ => fail OutOfTreasury end.

Definition execute_standard_approval (name version : string) : G unit :=
  lift (validate_standard_approval name version);;
  put_approved_standard (bytes_of_string name) (bytes_of_string version).

Definition execute_non_core_change (now : Z) (d : string) : G unit :=
  lift (validate_non_core_change d);;
  put_non_core_change (bytes_of_string ("non_core_change:" +:+ pretty now)) (bytes_of_string d).

Definition updated_params (p : Bonds.SlashingParams) (bond e d i : option Z) : Bonds.SlashingParams :=
  {| Bonds.equivocation_pct := default (Bonds.equivocation_pct p) e;
     Bonds.double_vote_pct := default (Bonds.double_vote_pct p) d;
     Bonds.invalid_attestation_pct := default (Bonds.invalid_attestation_pct p) i;
     Bonds.min_bond_amount := default (Bonds.min_bond_amount p) bond;
     Bonds.slash_pct_equivocation := default (Bonds.slash_pct_equivocation p) e;
     Bonds.slash_pct_double_vote := default (Bonds.slash_pct_double_vote p) d;
     Bonds.slash_pct_invalid_attestation := default (Bonds.slash_pct_invalid_attestation p) i;
     Bonds.updated_at := Bonds.updated_at p |}.

(** The parameters of a bond manager made on the spot are updated. *)
Definition execute_slashing_params_update (bond e d i : option Z) : G unit :=
  let m := Bonds.new in
  match (Bonds.update_slashing_params (updated_params (Bonds.get_slashing_params m) bond e d i) m).1 with
  | Ok _ => mret tt
  | Err _ => fail InvalidAction
  end.

Fixpoint decode_all (l : list string) : option (list bytes) :=
  match l with
  | [] => Some []
  | a :: l => b ← hex_decode a; r ← decode_all l; Some (b :: r)
  end.

Definition execute_set_fl_policy (bps n : Z) (l : list string) : G unit :=
  lift (validate_set_fl_policy bps n l);;
  ds ← lift (ok_or (decode_all l) BadHex);
  let d := FlPolicy_default in
  set_fl_policy (enc_policy (mkPolicy bps n ds (min_contributions_per_round d) (max_contributions_per_round d)
    (reward_per_contribution d) (round_duration_blocks d) (model_approval_required d))).

Definition execute_approve_fl_model (i : string) : G unit :=
  lift (validate_model_id i);;
  b ← lift (ok_or (hex_decode i) BadHex);
  approve_fl_model b.

Definition execute_abort_fl_round (i : string) (round_id : Z) : G unit :=
  lift (validate_abort_round i round_id);; abort_fl_round round_id.

Definition execute_add_connector (now : Z) (i : string) (k : bytes) (c : ConnectorConfig) : G unit :=
  lift (validate_add_connector i k c);; put_connector_info (bytes_of_string i) (enc_connector k c now).

Definition execute_remove_connector (i : string) : G unit :=
  lift (validate_remove_connector i);;
  e ← connector_exists (bytes_of_string i);
  bail_if (negb e) ConnectorNotFound;;
  delete_connector_info (bytes_of_string i).

Definition execute_proposal (t : Fee.Treasury) (now : Z) (p : Proposal) : G unit :=
  bail_if (negb (bool_decide (status p = Approved))) WrongStatus;;
  match action p with
  | FeeVariation b m => execute_fee_variation b m
  | ProjectSelection addr amount => execute_project_selection t now addr amount
  | Standards n v => execute_standard_approval n v
  | NonCore d => execute_non_core_change now d
  | ContractUpgrade _ _ _ => mret tt
  | SlashingParamsUpdate b e d i => execute_slashing_params_update b e d i
  | SetFlPolicy bps n l => execute_set_fl_policy bps n l
  | ApproveFlModel i => execute_approve_fl_model i
  | AbortFlRound i r => execute_abort_fl_round i r
  | AddConnector i k c => execute_add_connector now i k c
  | RemoveConnector i => execute_remove_connector i
  end.

Definition burn_deposit_if_rejected (p : Proposal) : G unit :=
  if negb (bool_decide (status p = Rejected)) then mret tt
  else if deposit p =? 0 then mret tt
  else burn_deposit p.

Definition handle_finalized_proposal (t : Fee.Treasury) (now : Z) (p : Proposal) : G unit :=
  match status p with
  | Approved => execute_proposal t now p
  | Rejected => burn_deposit_if_rejected p
  | _ => fail NotFinalized
  end.
End Exec.

End GovExec.
