(* ===== verification/GovCorrect.v ===== *)
(** * What the governance does and what it cannot do

    The runs of the contract governance and of the storage governance over
    the records they share: no proposal can be created because nothing counts
    the vote tokens, no proposal ends approved because its votes are released
    before its status is stored, and a deposit is paid back at every attempt. *)

From stdpp Require Import gmap pretty.
From Stdlib Require Import Strings.Byte.
From S2P Require Import Prelude OrdMap Codec BlockStore BlockStm GovStore Governance Fee Bonds GovExec.

Module GovC.
Import GovStore Gov GovExec.

Section Runs.
Context `{Hex, ConfigBincode, GovBincode, HashOrder, ExecBincode}.

(** The operations of the contract governance; those of the deposit manager
    and of the executor take any proposal, as the code does. *)
Inductive op :=
| Create (now : Z) (c : bytes) (d : Z) (descr : string) (a : ProposalAction)
| CastVote (now i : Z) (voter : bytes) (t : VoteType) (amount : Z)
| UpdateState (i now : Z)
| ProcessExpired (now : Z)
| LockDeposit (c : bytes) (amount : Z)
| HandleDeposit (g : Proposal)
| UnlockVotes (i : Z)
| Distribute (total : Z) (l : list (bytes * Z))
| MintToSender (a : bytes) (fee : Z)
| Execute (t : Fee.Treasury) (now : Z) (g : Proposal).

(** The operations of [GovernanceStorage]. *)
Inductive sop :=
| SCreate (c : bytes) (d : Z) (descr : string) (a : GovStore.ProposalAction) (block : Z) (ps : GovernanceParams)
| SUpdate (i : Z) (st : GovStore.ProposalStatus)
| SVote (voter : bytes) (i : Z) (t : GovStore.VoteType) (amount block : Z)
| SExecute (i : Z)
| SParams (ps : GovernanceParams)
| SProcess (block : Z).

Definition exec (o : op) (s : GovState) : GovState :=
  match o with
  | Create now c d descr a => (create_proposal now c d descr a s).2
  | CastVote now i voter t amount => (vote now i voter t amount s).2
  | UpdateState i now => (update_proposal_state i now s).2
  | ProcessExpired now => (process_expired_proposals now s).2
  | LockDeposit c amount => (lock_deposit c amount s).2
  | HandleDeposit g => (Gov.handle_finalized_proposal g s).2
  | UnlockVotes i => (unlock_vote_tokens i s).2
  | Distribute total l => (distribute_proportional total l s).2
  | MintToSender a fee => (mint_to_sender a fee s).2
  | Execute t now g => (GovExec.handle_finalized_proposal t now g s).2
  end.

Definition sexec (o : sop) (s : GovState) : GovState :=
  match o with
  | SCreate c d descr a block ps => (GovStore.create_proposal c d descr a block ps s).2
  | SUpdate i st => (update_proposal_status i st s).2
  | SVote voter i t amount block => (cast_vote voter i t amount block s).2
  | SExecute i => (GovStore.execute_proposal i s).2
  | SParams ps => (set_governance_params ps s).2
  | SProcess block => (process_proposals block s).2
  end.

Definition exec_any (o : op + sop) : GovState -> GovState := match o with inl o => exec o | inr o => sexec o end.
Definition run_ops (l : list op) (s : GovState) : GovState := fold_left (fun s o => exec o s) l s.
Definition run_any (l : list (op + sop)) (s : GovState) : GovState := fold_left (fun s o => exec_any o s) l s.

(** *** The reads *)

Definition loaded (i : Z) (s : GovState) : result GovError GovStore.Proposal :=
  match proposals s !! i with
  | None => Err ProposalNotFound
  | Some p => if proposal_len p >? MAX_DESERIALIZE_SIZE then Err DataTooLarge else Ok p
  end.
Lemma load_run i s : load i s = (loaded i s, s).
Proof.
  unfold load, loaded, get_proposal_raw, gets, lift, bail_if, mbind, M_bind.
  destruct (proposals s !! i) as [p|]; [|done]. simpl. by destruct (_ >? _).
Qed.
Lemma loaded_Ok i s p : loaded i s = Ok p ->
  proposals s !! i = Some p /\ (proposal_len p >? MAX_DESERIALIZE_SIZE) = false.
Proof. unfold loaded. destruct (proposals s !! i) as [q|]; [|done]. destruct (_ >? _) eqn:El; [done|]. by intros [= ->]. Qed.

Lemma get_run i s : GovStore.get_proposal i s =
  (match proposals s !! i with
   | None => Ok None
   | Some p => match safe proposal_len p with Ok p => Ok (Some p) | Err e => Err e end
   end, s).
Proof.
  unfold GovStore.get_proposal, get_proposal_raw, gets, lift, mbind, M_bind. destruct (proposals s !! i) as [p|]; [|done].
  by destruct (safe _ p).
Qed.

(** *** Nothing counts the vote tokens *)

Ltac kp := unfold increment_vote_token_balance, decrement_vote_token_balance, get_vote_token_balance, get_total_vote_tokens,
  next_proposal_id, put_next_id, put_proposal, get_proposal_raw, get_vote, put_vote, get_available_vote_tokens,
  get_vote_token_balance, get_locked_vote_tokens, put_locked, get_proposal_votes_raw, get_all_ids, set_fee_base, set_fee_max,
  put_approved_standard, put_non_core_change, set_fl_policy, approve_fl_model, abort_fl_round, put_connector_info,
  connector_exists, delete_connector_info, update_contract_code, put_misc, delete_misc;
  repeat (intros; cbv zeta; first [solve [auto 2 with keeps nocore]
    | apply keeps_modify; let Hk := fresh in intros ? Hk; exact Hk
    | match goal with H : forall _, keeps _ _ |- _ => apply H end | progress case_match | apply keeps_bind]).

(** What only moves tokens and writes other keys leaves the total and the
    proposals as they are. *)
Definition core (s : GovState) : option Z * gmap Z GovStore.Proposal := (total_tokens s, proposals s).
Definition quiet {A} (m : G A) : Prop := forall k, keeps (fun s => core s = k) m.

Lemma quiet_keeps {A} (m : G A) (Q : option Z * gmap Z GovStore.Proposal -> Prop) :
  quiet m -> keeps (fun s => Q (core s)) m.
Proof. intros Hm s Hs. by rewrite (Hm (core s) s eq_refl). Qed.
Lemma quiet_bind {A B} (m : G A) (f : A -> G B) : quiet m -> (forall a, quiet (f a)) -> quiet (m ≫= f).
Proof. intros Hm Hf k. apply keeps_bind; [apply Hm|intros a; apply Hf]. Qed.
#[local] Hint Extern 1 (keeps (fun s => core s = _) _) => match goal with H : quiet ?m |- keeps _ ?m => apply H end : keeps.
Ltac quiet := let k := fresh in intros k; kp.

Lemma load_quiet i : quiet (load i).
Proof. unfold load. quiet. Qed.
Lemma pay_back_quiet l : quiet (pay_back l).
Proof. induction l as [|v l IH]; simpl; quiet. Qed.
Lemma unlock_votes_quiet i : quiet (unlock_vote_tokens i).
Proof.
  apply quiet_bind; [apply load_quiet|intros p]. apply quiet_bind; [quiet|intros _]. apply quiet_bind; [quiet|intros vs].
  apply quiet_bind; [quiet|intros _]. apply pay_back_quiet.
Qed.
Lemma unlock_deposit_quiet g : quiet (unlock_deposit g).
Proof. unfold unlock_deposit. quiet. Qed.
Lemma burn_deposit_quiet g : quiet (burn_deposit g).
Proof. unfold burn_deposit. quiet. Qed.
Lemma lock_deposit_quiet c a : quiet (lock_deposit c a).
Proof. unfold lock_deposit. quiet. Qed.
Lemma handle_deposit_quiet g : quiet (Gov.handle_finalized_proposal g).
Proof. unfold Gov.handle_finalized_proposal. destruct (status g); [quiet..|apply unlock_deposit_quiet|apply burn_deposit_quiet]. Qed.
Lemma distribute_loop_quiet total fees done l : quiet (distribute_loop total fees done l).
Proof.
  revert done. induction l as [|[a fee] l IH]; intros done; cbn [distribute_loop]; cbv zeta; [quiet|].
  match goal with |- context [if ?c then _ else _] => destruct c end; [|apply IH].
  apply quiet_bind; [quiet|intros _]. apply quiet_bind; [quiet|intros d; apply IH].
Qed.
Lemma distribute_quiet total l : quiet (distribute_proportional total l).
Proof.
  unfold distribute_proportional. destruct (_ || _); [quiet|]. apply quiet_bind; [quiet|intros fees].
  destruct (fees =? 0); [quiet|apply distribute_loop_quiet].
Qed.
Lemma mint_quiet a fee : quiet (mint_to_sender a fee).
Proof. unfold mint_to_sender. quiet. Qed.
Lemma execute_quiet t now g : quiet (GovExec.handle_finalized_proposal t now g).
Proof.
  unfold GovExec.handle_finalized_proposal, GovExec.execute_proposal, burn_deposit_if_rejected, burn_deposit,
    execute_fee_variation, execute_project_selection, execute_standard_approval, execute_non_core_change,
    execute_slashing_params_update, execute_set_fl_policy, execute_approve_fl_model, execute_abort_fl_round,
    execute_add_connector, execute_remove_connector. cbv zeta. quiet.
Qed.
Lemma result_quiet i : quiet (calculate_proposal_result_from_storage i).
Proof.
  apply quiet_bind; [apply load_quiet|intros p]. apply quiet_bind; [quiet|intros n]. quiet.
Qed.

Definition uncounted (s : GovState) : Prop := total_tokens s = None.
Lemma quiet_uncounted {A} (m : G A) : quiet m -> keeps uncounted m.
Proof. apply (quiet_keeps m (fun k => k.1 = None)). Qed.
#[local] Hint Resolve load_quiet pay_back_quiet unlock_votes_quiet unlock_deposit_quiet burn_deposit_quiet lock_deposit_quiet
  handle_deposit_quiet distribute_quiet mint_quiet execute_quiet result_quiet : keeps.
#[local] Hint Resolve quiet_uncounted | 8 : keeps.

Lemma process_one_uncounted now i : keeps uncounted (process_one now i).
Proof. unfold process_one. kp. Qed.
#[local] Hint Resolve process_one_uncounted : keeps.
Lemma process_batch_uncounted now ids n : keeps uncounted (process_batch now ids n).
Proof. revert n. induction ids as [|i ids IH]; intros n; simpl; kp. Qed.
#[local] Hint Resolve process_batch_uncounted : keeps.
Lemma run_action_uncounted p : keeps uncounted (run_action p).
Proof. unfold run_action. kp. Qed.
Lemma get_uncounted i : keeps uncounted (GovStore.get_proposal i).
Proof. unfold GovStore.get_proposal. kp. Qed.
#[local] Hint Resolve run_action_uncounted get_uncounted : keeps.
Lemma update_uncounted i st : keeps uncounted (update_proposal_status i st).
Proof. unfold update_proposal_status. kp. Qed.
#[local] Hint Resolve update_uncounted : keeps.
Lemma execute_uncounted i : keeps uncounted (GovStore.execute_proposal i).
Proof. unfold GovStore.execute_proposal. kp. Qed.
Lemma load_all_uncounted ids : keeps uncounted (load_all ids).
Proof. induction ids; simpl; kp. Qed.
Lemma check_uncounted i ps : keeps uncounted (check_approval i ps).
Proof. unfold check_approval, check_quorum. kp. Qed.
#[local] Hint Resolve load_all_uncounted check_uncounted : keeps.
Lemma process_uncounted block ps l ex : keeps uncounted (process block ps l ex).
Proof.
  revert ex. induction l as [|p l IH]; intros ex; cbn [process]; [kp|].
  assert (keeps uncounted (try_execute (p_id p))) as Ht.
  { intros s Hs. pose proof (execute_uncounted (p_id p) s Hs). unfold try_execute.
    by destruct (GovStore.execute_proposal (p_id p) s). }
  destruct (p_status p); kp.
Qed.

#[local] Hint Resolve process_uncounted : keeps.

Lemma exec_uncounted o s : uncounted s -> uncounted (exec_any o s).
Proof.
  destruct o as [[]|[]]; simpl; [..|by intros Hs|];
    lazymatch goal with |- uncounted s -> uncounted (?m s).2 => apply (fun Hm : keeps uncounted m => Hm s) end;
    unfold create_proposal, vote, update_proposal_state, process_expired_proposals, GovStore.create_proposal, cast_vote, process_proposals, get_governance_params, get_all_proposals; cbv zeta.
  all: kp.
Qed.

(** The total of vote tokens is read from a key that no operation writes.  In
    every run of both modules from a store without it, no proposal can be
    created, no quorum is reached and every vote ends in rejection. *)
Theorem governance_is_dead (l : list (op + sop)) (s : GovState) : total_tokens s = None ->
  let s' := run_any l s in
  (forall now c d descr a, create_proposal now c d descr a s' = (Err (DepositTooSmall 0 d), s')) /\
  (forall i ps b, (check_approval i ps s').1 = Ok b -> b = false) /\
  (forall i st, (calculate_proposal_result_from_storage i s').1 = Ok st -> st = Rejected).
Proof.
  intros Hs. cbv zeta.
  assert (uncounted (run_any l s)) as Hu.
  { unfold run_any. revert s Hs. induction l as [|o l IH]; intros s Hs; [done|]. by apply IH, exec_uncounted. }
  generalize dependent (run_any l s). intros s' Hu. unfold uncounted in Hu. split_and!.
  - intros. unfold create_proposal, get_total_vote_tokens, gets, mbind, M_bind. by rewrite Hu.
  - intros i ps b. unfold check_approval, check_quorum, get_total_vote_tokens, gets, mbind, M_bind. rewrite get_run.
    destruct (proposals s' !! i) as [p|]; [|simpl; congruence]. destruct (safe _ p); [|simpl; congruence].
    rewrite Hu. simpl. congruence.
  - intros i st. unfold calculate_proposal_result_from_storage, get_total_vote_tokens, gets, mbind, M_bind. rewrite load_run.
    destruct (loaded i s') as [p|e]; [|done]. unfold lift.
    match goal with |- context [ok_or ?o _] => destruct (ok_or o VotesOverflow) end; [|done]. rewrite Hu. unfold is_approved, is_quorum_reached. simpl. congruence.
Qed.

(** *** No proposal ends approved *)

Definition undecided (p : GovStore.Proposal) : Prop := p_status p <> GovStore.Approved /\ p_status p <> GovStore.Executed.
Definition all_undecided (s : GovState) : Prop := map_Forall (fun i p => p_id p = i /\ undecided p) (proposals s).

Lemma quiet_undecided {A} (m : G A) : quiet m -> keeps all_undecided m.
Proof. apply (quiet_keeps m (fun k => map_Forall (fun i p => p_id p = i /\ undecided p) k.2)). Qed.
#[local] Hint Resolve quiet_undecided | 8 : keeps.

Lemma wp_load i (Q : GovStore.Proposal -> GovState -> Prop) (R : GovError -> GovState -> Prop) s :
  (forall p, loaded i s = Ok p -> Q p s) -> (forall e, loaded i s = Err e -> R e s) -> wp (load i) Q R s.
Proof. intros HQ HR. unfold wp. rewrite load_run. destruct (loaded i s); auto. Qed.

Lemma wp_quiet {A} (m : G A) (Q : A -> GovState -> Prop) (R : GovError -> GovState -> Prop) s : quiet m ->
  (forall a s', core s' = core s -> Q a s') -> (forall e s', core s' = core s -> R e s') -> wp m Q R s.
Proof.
  intros Hm HQ HR. pose proof (keeps_wp _ m s (Hm (core s)) eq_refl) as Hw.
  eapply wp_mono; [exact Hw|auto..].
Qed.

Lemma core_undecided s s' : core s' = core s -> all_undecided s -> all_undecided s'.
Proof. unfold core, all_undecided. by intros [= _ ->]. Qed.

Lemma put_undecided p s : all_undecided s -> undecided p -> all_undecided (set_proposals <[p_id p := p]> s).
Proof. intros Hs Hp. by apply map_Forall_insert_2. Qed.

(** The votes of a proposal that is stored as still open are not released. *)
Lemma unlock_open i s p : loaded i s = Ok p -> p_status p <> GovStore.Approved -> p_status p <> GovStore.Rejected ->
  unlock_vote_tokens i s = (Err NotFinalized, s).
Proof.
  intros Hp Ha Hr. unfold unlock_vote_tokens, mbind, M_bind. rewrite load_run, Hp. unfold bail_if, fail.
  by rewrite !bool_decide_eq_false_2.
Qed.

Lemma loaded_core i s s' : core s' = core s -> loaded i s' = loaded i s.
Proof. unfold core, loaded. by intros [= _ ->]. Qed.

Lemma add_vote_spec t amount p p' : add_vote t amount p = Ok p' -> p_id p' = p_id p /\ p_status p' = p_status p.
Proof. destruct t; simpl; destruct (checked_add _ _ _); by intros [= <-]. Qed.

Lemma to_storage_spec g p : governance_proposal_to_storage_proposal g = Ok p ->
  p_id p = id g /\ p_status p = status_to_storage (status g).
Proof.
  unfold governance_proposal_to_storage_proposal. destruct (hex_decode _); [|done].
  destruct (action_to_storage _); by intros [= <-].
Qed.

Lemma of_storage_spec p g : storage_proposal_to_governance_proposal p = Ok g ->
  id g = p_id p /\ status g = status_of_storage (p_status p).
Proof. unfold storage_proposal_to_governance_proposal. destruct (action_of_storage _); by intros [= <-]. Qed.

Lemma transition_status now g : (transition_state now g).1 = true ->
  id (transition_state now g).2 = id g /\
  (status (transition_state now g).2 = ActiveVoting \/ status (transition_state now g).2 = Rejected).
Proof. unfold transition_state, is_finalized. destruct (status g); simpl; try done; destruct (_ >=? _); simpl; auto; done. Qed.

Lemma create_undecided now c d descr a : keeps all_undecided (create_proposal now c d descr a).
Proof.
  unfold create_proposal. do 6 (apply keeps_bind; [kp|intros ?]). cbv zeta.
  apply wp_keeps. intros s Hs. apply wp_bind, wp_lift; [|done]. intros p Hp. apply to_storage_spec in Hp as [Hi Hst].
  apply keeps_wp; [|done]. apply keeps_bind; [|kp]. apply keeps_modify. intros s' Hs'. apply put_undecided; [done|].
  unfold undecided. by rewrite Hst.
Qed.

Lemma vote_undecided now i voter t amount : keeps all_undecided (vote now i voter t amount).
Proof.
  unfold vote. apply keeps_bind; [kp|intros _]. apply wp_keeps. intros s Hs. apply wp_bind, wp_load; [|done]. intros p Hp.
  apply loaded_Ok in Hp as [Hp _]. destruct (Hs i p Hp) as [Hi Hu].
  apply keeps_wp; [|done]. do 8 (apply keeps_bind; [kp|intros ?]).
  apply wp_keeps. intros s' Hs'. apply wp_bind, wp_lift; [|done]. intros p' Hp'. apply add_vote_spec in Hp' as [Hi' Hst].
  apply keeps_wp; [|done]. apply keeps_modify. intros s'' Hs''. rewrite <- Hi, <- Hi'. apply put_undecided; [done|].
  unfold undecided. by rewrite Hst.
Qed.

Lemma update_undecided i now : keeps all_undecided (update_proposal_state i now).
Proof.
  unfold update_proposal_state. apply wp_keeps. intros s Hs. apply wp_bind, wp_load; [|done]. intros p Hp.
  apply loaded_Ok in Hp as [Hp _]. destruct (Hs i p Hp) as [Hi Hu].
  apply wp_bind, wp_lift; [|done]. intros g Hg. apply of_storage_spec in Hg as [Hgi Hgs].
  pose proof (transition_status now g) as Ht. destruct (transition_state now g) as [[|] g'] eqn:Etr; [|done]. simpl in Ht.
  destruct (Ht eq_refl) as [Hi' Hst]. apply wp_bind, wp_lift; [|done]. intros p' Hp'. apply to_storage_spec in Hp' as [Hpi Hps].
  apply keeps_wp; [|done]. apply keeps_bind; [|kp]. apply keeps_modify. intros s' Hs'. apply put_undecided; [done|].
  unfold undecided. rewrite Hps. by destruct Hst as [-> | ->].
Qed.

(** A proposal whose voting is over cannot be closed. *)
Lemma close_fails result g p i s : loaded i s = Ok p -> undecided p -> p_status p <> GovStore.Rejected ->
  wp (match result with
      | Approved => unlock_deposit g;; unlock_vote_tokens i
      | Rejected => burn_deposit g;; unlock_vote_tokens i
      | _ => mret tt
      end) (fun _ s' => core s' = core s /\ result <> Approved /\ result <> Rejected) (fun _ s' => core s' = core s) s.
Proof.
  intros Hp [Ha _] Hr.
  assert (forall s', core s' = core s -> wp (unlock_vote_tokens i)
    (fun _ s' => core s' = core s /\ result <> Approved /\ result <> Rejected) (fun _ s' => core s' = core s) s') as Hv.
  { intros s' Hc. unfold wp. by rewrite (unlock_open i s' p) by (rewrite ?(loaded_core i s s'); done). }
  destruct result; [apply wp_ret; done..| |]; apply wp_bind;
    (apply wp_quiet; [auto with keeps|intros _ s' Hc; by apply Hv|done]).
Qed.

Lemma result_decided i s r s' : calculate_proposal_result_from_storage i s = (Ok r, s') -> r = Approved \/ r = Rejected.
Proof.
  unfold calculate_proposal_result_from_storage, mbind, M_bind. rewrite load_run. destruct (loaded i s) as [p|]; [|done].
  match goal with |- context [ok_or ?o _] => destruct (ok_or o VotesOverflow) end; [|done]. simpl.
  destruct (is_approved _ _ _ _); intros [=]; auto.
Qed.

(** One proposal of a batch: either it is closed, which fails and leaves all
    proposals as they are, or it is opened for votes, or nothing happens. *)
Lemma process_one_spec now i s : all_undecided s ->
  wp (process_one now i)
     (fun closed s' => closed = false /\ all_undecided s')
     (fun _ s' => core s' = core s) s.
Proof.
  intros Hs. unfold process_one. apply wp_bind, wp_load; [|done]. intros p Hp.
  pose proof (loaded_Ok _ _ _ Hp) as [Hl _]. destruct (Hs i p Hl) as [Hi Hu]. cbv zeta.
  set (act := bool_decide (p_status p = GovStore.Pending) && (now >=? p_review_end p)).
  set (q := if act then set_status GovStore.ActiveVoting p else p).
  assert (p_id q = i) as Hqi by (by unfold q; destruct act).
  destruct (bool_decide (p_status q = GovStore.ActiveVoting) && (now >=? p_voting_end q)) eqn:Eend.
  - assert (p_status p <> GovStore.Rejected) as Hr.
    { intros Hr. unfold q, act in Eend. rewrite Hr in Eend. simpl in Eend. by rewrite Hr in Eend. }
    clear Eend.
    destruct (calculate_proposal_result_from_storage (p_id q) s) as [[r|e] s1] eqn:Er.
    + assert (core s1 = core s) as Hc1.
      { pose proof (result_quiet (p_id q) (core s) s eq_refl) as Hq. by rewrite Er in Hq. }
      apply wp_bind. unfold wp at 1. rewrite Er.
      apply wp_bind, wp_lift; [|done]. intros g _. apply wp_bind.
      eapply wp_mono; [eapply (close_fails r g p (p_id q) s1); [by rewrite Hqi, (loaded_core i s)|done..]| |].
      * intros ? s2 (_ & Ha & Hn). by destruct (result_decided _ _ _ _ Er).
      * intros ? s2 Hc2. by rewrite Hc2.
    + apply wp_bind. unfold wp at 1. rewrite Er.
      pose proof (result_quiet (p_id q) (core s) s eq_refl) as Hq. by rewrite Er in Hq.
  - apply wp_bind. destruct act eqn:Ea; [|by apply wp_ret, wp_ret].
    apply wp_modify, wp_ret. split; [done|]. apply put_undecided; [done|]. by split.
Qed.

Lemma process_batch_undecided now ids n s : all_undecided s ->
  wp (process_batch now ids n) (fun k s' => k = n /\ all_undecided s') (fun _ s' => all_undecided s') s.
Proof.
  revert n s. induction ids as [|i ids IH]; intros n s Hs; [by apply wp_ret|]. cbn [process_batch]. apply wp_bind.
  eapply wp_mono; [by apply process_one_spec| |].
  - intros closed s' [-> Hs']. by apply IH.
  - intros e s' Hc. by apply (core_undecided s).
Qed.

Lemma expired_undecided now : keeps all_undecided (process_expired_proposals now).
Proof.
  unfold process_expired_proposals. apply keeps_bind; [kp|intros ids]. apply wp_keeps. intros s Hs.
  eapply wp_mono; [by apply process_batch_undecided| |done]. by intros n s' [_ Hs'].
Qed.

Lemma exec_undecided o s : all_undecided s -> all_undecided (exec o s).
Proof.
  destruct o; simpl;
    lazymatch goal with |- _ s -> _ (?m s).2 => apply (fun Hm : keeps all_undecided m => Hm s) end;
    auto using create_undecided, vote_undecided, update_undecided, expired_undecided with keeps.
Qed.

(** C15: In no run of the contract governance is a proposal ever approved, however
    the votes are cast, and no call of [process_expired_proposals] reports a
    proposal as processed: the votes of a proposal are released while it is
    still stored as open, which fails. *)
Theorem nothing_is_ever_approved (l : list op) (s : GovState) : all_undecided s ->
  let s' := run_ops l s in
  (forall i p, proposals s' !! i = Some p -> p_status p <> GovStore.Approved) /\
  (forall now n, (process_expired_proposals now s').1 = Ok n -> n = 0).
Proof.
  intros Hs. cbv zeta.
  assert (all_undecided (run_ops l s)) as Hu.
  { unfold run_ops. revert s Hs. induction l as [|o l IH]; intros s Hs; [done|]. by apply IH, exec_undecided. }
  split; [intros i p Hp; by destruct (Hu i p Hp) as [_ [? _]]|]. intros now n Hn.
  pose proof (process_batch_undecided now (take MAX_PROPOSALS_PER_BATCH (btree_iter (proposals (run_ops l s))).*1) 0 _ Hu) as Hw.
  unfold wp in Hw. unfold process_expired_proposals, get_all_ids, gets, mbind, M_bind in Hn.
  destruct (process_batch _ _ _ _) as [[k|e] s']; [|done]. simpl in Hn. destruct Hw as [-> _]. congruence.
Qed.

(** *** What the repeated attempts do *)

Lemma least_first {V} (m : gmap Z V) i v : m !! i = Some v -> (forall j, is_Some (m !! j) -> i <= j) ->
  exists l, (btree_iter m).*1 = i :: l.
Proof.
  intros Hi Hle. pose proof (btree_iter_sorted m) as Hs. apply elem_of_btree_iter in Hi.
  destruct (btree_iter m) as [|[j w] l] eqn:El; [by apply elem_of_nil in Hi|]. exists l.*1. simpl. f_equal.
  assert (i <= j) by (apply Hle; exists w; apply elem_of_btree_iter; rewrite El; left).
  apply elem_of_cons in Hi as [[= -> _]|Hi]; [done|].
  apply StronglySorted_inv in Hs as [_ Hf]. rewrite Forall_forall in Hf. specialize (Hf _ Hi). unfold entry_lt in Hf. simpl in Hf. lia.
Qed.

(** The first proposal of the store is over and has won its vote. *)
Record won (now i : Z) (p : GovStore.Proposal) (s : GovState) : Prop := {
  won_stored : proposals s !! i = Some p;
  won_first : forall j, is_Some (proposals s !! j) -> i <= j;
  won_id : p_id p = i;
  won_small : proposal_len p <= MAX_DESERIALIZE_SIZE;
  won_open : p_status p = GovStore.ActiveVoting \/ p_status p = GovStore.Pending /\ p_review_end p <= now;
  won_over : p_voting_end p <= now;
  won_total : p_yes_votes p + p_no_votes p + p_abstain_votes p <= U128_MAX;
  won_votes : 0 <= p_abstain_votes p;
  won_approved : is_approved (p_yes_votes p) (p_no_votes p) (p_yes_votes p + p_no_votes p + p_abstain_votes p)
    (default 0 (total_tokens s)) = true;
  won_action : is_ok (expired_action (p_action p)) = true;
  won_creator : length (p_creator p) = 32%nat;
  won_deposit : 0 < p_deposit p;
}.

Definition pay (c : bytes) (d : Z) (s : GovState) : GovState :=
  set_balances <[c := saturating_add U128_MAX (balance_of c s) d]> s.

Lemma won_loaded now i p s : won now i p s -> loaded i s = Ok p.
Proof. intros W. unfold loaded. rewrite (won_stored _ _ _ _ W). destruct (Z.gtb_spec (proposal_len p) MAX_DESERIALIZE_SIZE); [|done].
  pose proof (won_small _ _ _ _ W). lia. Qed.

Lemma won_pay now i p s c d : won now i p s -> won now i p (pay c d s).
Proof. intros []. by constructor. Qed.

Lemma won_result now i p s : won now i p s -> calculate_proposal_result_from_storage i s = (Ok Approved, s).
Proof.
  intros W. unfold calculate_proposal_result_from_storage, mbind, M_bind. rewrite load_run, (won_loaded now i p s W).
  pose proof (won_total _ _ _ _ W). pose proof (won_votes _ _ _ _ W).
  rewrite (proj2 (checked_add_Some _ _ _ _)) by (split; [reflexivity|lia]). simpl.
  rewrite (proj2 (checked_add_Some _ _ _ _)) by (split; [reflexivity|lia]). simpl. by rewrite (won_approved _ _ _ _ W).
Qed.

Lemma unlock_deposit_run `{!HexLaws} g c s : status g = Approved -> deposit g <> 0 -> creator g = hex_encode c ->
  length c = 32%nat -> unlock_deposit g s = (Ok tt, pay c (deposit g) s).
Proof.
  intros Hs Hd Hc Hl. unfold unlock_deposit. rewrite bool_decide_eq_true_2 by done. simpl.
  destruct (Z.eqb_spec (deposit g) 0); [done|]. rewrite Hc, hex_decode_encode.
  unfold lift, bail_if, mbind, M_bind. simpl. by rewrite Hl.
Qed.

Lemma won_blocks `{!HexLaws} now i p s : won now i p s ->
  process_expired_proposals now s = (Err NotFinalized, pay (p_creator p) (p_deposit p) s).
Proof.
  intros W. unfold process_expired_proposals, get_all_ids, gets, mbind, M_bind.
  destruct (least_first _ i p (won_stored _ _ _ _ W) (won_first _ _ _ _ W)) as [l ->].
  change (take MAX_PROPOSALS_PER_BATCH (i :: l)) with (i :: take 99 l). cbn [process_batch]. unfold mbind, M_bind.
  enough (process_one now i s = (Err NotFinalized, pay (p_creator p) (p_deposit p) s)) as -> by done.
  unfold process_one, mbind, M_bind. rewrite load_run, (won_loaded now i p s W).
  set (act := bool_decide (p_status p = GovStore.Pending) && (now >=? p_review_end p)).
  set (q := if act then set_status GovStore.ActiveVoting p else p).
  assert (p_status q = GovStore.ActiveVoting /\ p_id q = i /\ p_voting_end q = p_voting_end p /\
    p_creator q = p_creator p /\ p_deposit q = p_deposit p /\ p_action q = p_action p) as (Hqs & Hqi & Hqe & Hqc & Hqd & Hqa).
  { pose proof (won_id _ _ _ _ W). unfold q, act. destruct (won_open _ _ _ _ W) as [Hst|[Hst Hrev]].
    - rewrite Hst. simpl. by rewrite Hst.
    - rewrite Hst. simpl. rewrite (proj2 (Z.geb_le _ _)) by lia. done. }
  rewrite Hqs, Hqe, bool_decide_eq_true_2 by done. rewrite (proj2 (Z.geb_le _ _)) by apply (won_over _ _ _ _ W).
  simpl. rewrite Hqi, (won_result now i p s W). unfold lift, expired_proposal. simpl. rewrite Hqa.
  pose proof (won_action _ _ _ _ W) as Ha. destruct (expired_action (p_action p)) as [a|]; [|done]. simpl.
  pose proof (won_deposit _ _ _ _ W). rewrite (unlock_deposit_run _ (p_creator p)); simpl;
    [|done|lia|by rewrite Hqc|by apply (won_creator _ _ _ _ W)].
  rewrite Hqd. erewrite unlock_open; [done|apply (won_loaded now i p), won_pay, W|..];
    by destruct (won_open _ _ _ _ W) as [-> |[-> _]].
Qed.

(** Once the first proposal of the store has won its vote and its period is
    over, every call of [process_expired_proposals] fails, changes no
    proposal and pays the deposit of that proposal to its creator again. *)
Theorem deposit_paid_at_every_call `{!HexLaws} (now i : Z) (p : GovStore.Proposal) (s : GovState) (k : nat) :
  won now i p s -> 0 <= balance_of (p_creator p) s <= U128_MAX ->
  let s' := Nat.iter k (fun s => (process_expired_proposals now s).2) s in
  (process_expired_proposals now s').1 = Err NotFinalized /\ proposals s' = proposals s /\
  balance_of (p_creator p) s' = Z.min U128_MAX (balance_of (p_creator p) s + Z.of_nat k * p_deposit p).
Proof.
  intros W Hb. cbv zeta.
  enough (won now i p (Nat.iter k (fun s => (process_expired_proposals now s).2) s) /\
    proposals (Nat.iter k (fun s => (process_expired_proposals now s).2) s) = proposals s /\
    balance_of (p_creator p) (Nat.iter k (fun s => (process_expired_proposals now s).2) s) =
      Z.min U128_MAX (balance_of (p_creator p) s + Z.of_nat k * p_deposit p)) as (Wk & Hp & Hk).
  { split; [by rewrite (won_blocks now i p)|done]. }
  pose proof (won_deposit _ _ _ _ W) as Hd. induction k as [|k (Wk & Hp & Hk)]; [split_and!; [done..|simpl; lia]|].
  rewrite Nat.iter_succ, (won_blocks now i p) by done. split_and!; [by apply won_pay|done|].
  unfold pay, balance_of at 1. simpl. rewrite lookup_insert_eq. simpl. rewrite Hk. unfold saturating_add. lia.
Qed.
End Runs.
End GovC.
