(* ===== verification/GovVotes.v ===== *)
(** * Votes, thresholds and the proposals of the governance

    Votes move tokens and keep the counts, a second proposal replaces the
    first, the thresholds round down, conversion loses what it cannot write,
    and the storage governance moves every proposal one step per block. *)

From stdpp Require Import gmap pretty.
From Stdlib Require Import Strings.Byte.
From S2P Require Import Prelude OrdMap Codec BlockStore BlockStm GovStore Governance Fee Bonds GovExec GovCorrect.

Module GovV.
Import GovStore Gov GovExec GovC.

Section Theorems.
Context `{Hex, ConfigBincode, GovBincode, HashOrder, ExecBincode}.

(** *** Creation *)

Lemma create_Ok now c d descr a s p s' : create_proposal now c d descr a s = (Ok p, s') ->
  p = new_with_timestamp (default 1 (next_id s)) (hex_encode c) d descr a now /\
  is_deposit_sufficient d (default 0 (total_tokens s)) = true /\ d <= balance_of c s /\
  exists sp, governance_proposal_to_storage_proposal p = Ok sp /\
    s' = set_proposals <[p_id sp := sp]> (set_balances <[c := saturating_sub (balance_of c s) d]> s).
Proof.
  unfold create_proposal, get_total_vote_tokens, get_vote_token_balance, decrement_vote_token_balance, next_proposal_id,
    put_proposal, gets, modify, lift, bail_if, mbind, M_bind. simpl.
  destruct (is_deposit_sufficient _ _) eqn:Ed; [|done]. simpl. destruct (Z.ltb_spec (balance_of c s) d); [done|]. simpl.
  destruct (governance_proposal_to_storage_proposal _) as [sp|] eqn:Es; [|done]. simpl. intros [= <- <-].
  split_and!; [done..|]. by exists sp.
Qed.

(** Creating a proposal does not advance the next identifier: a second
    proposal takes the identifier of the first and replaces it, and the
    deposit of the first stays taken. *)
Theorem second_proposal_replaces_first `{!HexLaws} now now' c c' d d' descr descr' a a' s s1 s2 p p' :
  create_proposal now c d descr a s = (Ok p, s1) -> create_proposal now' c' d' descr' a' s1 = (Ok p', s2) -> c <> c' ->
  id p' = id p /\ next_id s2 = next_id s /\ balance_of c s2 = balance_of c s - d /\
  exists q, proposals s2 = <[id p := q]> (proposals s) /\ p_creator q = c'.
Proof.
  intros (-> & _ & Hd & sp & Hsp & ->)%create_Ok (-> & _ & Hd' & sp' & Hsp' & ->)%create_Ok Hc. simpl in *.
  destruct (to_storage_spec _ _ Hsp) as [Hi _]. destruct (to_storage_spec _ _ Hsp') as [Hi' _]. simpl in Hi, Hi'.
  split_and!; [done..| |].
  - unfold balance_of at 1. simpl. rewrite lookup_insert_ne by done. rewrite lookup_insert_eq. simpl. unfold saturating_sub. lia.
  - exists sp'. rewrite Hi, Hi', insert_insert_eq. split; [done|].
    revert Hsp'. unfold governance_proposal_to_storage_proposal. simpl. rewrite hex_decode_encode.
    destruct (action_to_storage a'); by intros [= <-].
Qed.

(** *** Votes *)

Definition tally (i : Z) (t : GovStore.VoteType) (s : GovState) : Z :=
  map_sum (fun v => if bool_decide (vt_proposal_id v = i /\ vt_type v = t) then vt_amount v else 0) (votes s).
(** The tokens of the balances and of the votes. *)
Definition tokens (s : GovState) : Z := map_sum (fun b => b) (balances s) + map_sum vt_amount (votes s).

Record fair (s : GovState) : Prop := {
  fair_balances : map_Forall (fun _ b => 0 <= b) (balances s);
  fair_votes : map_Forall (fun k v => vt_proposal_id v = k.1 /\ vt_voter v = k.2 /\ 0 <= vt_amount v) (votes s);
  fair_counts : map_Forall (fun i p => p_yes_votes p = tally i GovStore.Yes s /\ p_no_votes p = tally i GovStore.No s /\
    p_abstain_votes p = tally i GovStore.Abstain s) (proposals s);
  fair_tokens : tokens s <= U128_MAX;
}.

(** The stores between the checks and the end of a vote. *)
Definition ballot (now i : Z) (voter : bytes) (t : VoteType) (amount : Z) : Vote :=
  mkVote i voter (vote_to_storage t) amount now.
Definition recorded (now i : Z) (voter : bytes) (t : VoteType) (amount : Z) (s : GovState) : GovState :=
  set_votes <[(i, voter) := ballot now i voter t amount]> (set_balances <[voter := balance_of voter s - amount]> s).

(** Either a vote is refused and nothing changes, or it was allowed. *)
Lemma vote_cases now i voter t amount s :
  (exists e, vote now i voter t amount s = (Err e, s)) \/
  (exists p, loaded i s = Ok p /\ amount <> 0 /\ p_status p = GovStore.ActiveVoting /\ now < p_voting_end p /\
     votes s !! (i, voter) = None /\ amount <= balance_of voter s /\
     vote now i voter t amount s =
       match add_vote t amount p with
       | Ok p' => (Ok tt, set_proposals <[i := p']> (recorded now i voter t amount s))
       | Err e => (Err e, recorded now i voter t amount s)
       end) \/ amount < 0.
Proof.
  unfold vote, get_vote, get_available_vote_tokens, get_vote_token_balance, decrement_vote_token_balance, put_vote,
    put_proposal, get_vote_token_balance, gets, modify, lift, bail_if, fail, mbind, M_bind. simpl.
  destruct (Z.eqb_spec amount 0); [left; by eexists|]. simpl. rewrite load_run.
  destruct (loaded i s) as [p|e]; [|left; by eexists].
  case_bool_decide as Hst; [|left; by eexists]. simpl. destruct (Z.geb_spec now (p_voting_end p)); [left; by eexists|]. simpl.
  case_bool_decide as Hv; [left; by eexists|]. simpl. destruct (Z.ltb_spec (balance_of voter s) amount); [left; by eexists|].
  simpl. destruct (Z.ltb_spec amount 0); [by right; right|]. right. left. exists p. apply eq_None_not_Some in Hv. split_and!; [done..|].
  unfold recorded. replace (saturating_sub (balance_of voter s) amount) with (balance_of voter s - amount)
    by (unfold saturating_sub; lia). by destruct (add_vote t amount p).
Qed.

Lemma map_sum_le `{Countable K} {V} (f g : V -> Z) (m : gmap K V) :
  map_Forall (fun _ v => f v <= g v) m -> map_sum f m <= map_sum g m.
Proof.
  induction m as [|k v m Hk IH] using map_ind; [done|]. intros [Hv Hm]%map_Forall_insert; [|done].
  rewrite !map_sum_fresh by done. specialize (IH Hm). lia.
Qed.

Lemma tally_le i t s : fair s -> tally i t s <= map_sum vt_amount (votes s).
Proof.
  intros F. apply map_sum_le. intros k v Hv. destruct (fair_votes _ F k v Hv) as (_ & _ & Ha). by case_bool_decide.
Qed.

Lemma balance_le a s : fair s -> balance_of a s <= map_sum (fun b => b) (balances s).
Proof.
  intros F. unfold balance_of. destruct (balances s !! a) as [b|] eqn:E; simpl.
  - by apply (map_sum_lookup_le (fun b => b) _ a b (fair_balances _ F)).
  - apply map_sum_nonneg, (fair_balances _ F).
Qed.

Section Record.
Context (now i : Z) (voter : bytes) (t : VoteType) (amount : Z) (s : GovState).
Context (F : fair s) (Hnew : votes s !! (i, voter) = None) (Hpos : 0 <= amount) (Hle : amount <= balance_of voter s).

Lemma recorded_tokens : tokens (recorded now i voter t amount s) = tokens s.
Proof.
  unfold tokens, recorded. simpl. rewrite map_sum_update, map_sum_fresh by done. simpl.
  change (from_option (fun b => b) 0 (balances s !! voter)) with (balance_of voter s). lia.
Qed.

Lemma recorded_tally j t' : tally j t' (recorded now i voter t amount s) =
  tally j t' s + (if bool_decide (i = j) && bool_decide (vote_to_storage t = t') then amount else 0).
Proof. unfold tally, recorded. simpl. rewrite map_sum_fresh by done. simpl. rewrite bool_decide_and. lia. Qed.

Lemma add_vote_fair p : proposals s !! i = Some p -> exists p', add_vote t amount p = Ok p' /\
  fair (set_proposals <[i := p']> (recorded now i voter t amount s)).
Proof.
  intros Hp. destruct (fair_counts _ F i p Hp) as (Hy & Hn & Ha).
  pose proof (tally_le i GovStore.Yes s F). pose proof (tally_le i GovStore.No s F). pose proof (tally_le i GovStore.Abstain s F).
  pose proof (balance_le voter s F) as Hb. pose proof (fair_tokens _ F) as Ht. unfold tokens in Ht.
  assert (exists p', add_vote t amount p = Ok p' /\
    p_yes_votes p' = p_yes_votes p + (if bool_decide (vote_to_storage t = GovStore.Yes) then amount else 0) /\
    p_no_votes p' = p_no_votes p + (if bool_decide (vote_to_storage t = GovStore.No) then amount else 0) /\
    p_abstain_votes p' = p_abstain_votes p + (if bool_decide (vote_to_storage t = GovStore.Abstain) then amount else 0))
    as (p' & Hp' & Cy & Cn & Ca).
  { destruct t; simpl; rewrite (proj2 (checked_add_Some _ _ _ _)) by (split; [reflexivity|lia]);
      eexists; (split; [reflexivity|]); simpl; lia. }
  exists p'. split; [done|]. constructor; simpl.
  - apply map_Forall_insert_2; [lia|apply (fair_balances _ F)].
  - apply map_Forall_insert_2; [done|apply (fair_votes _ F)].
  - intros j q Hj.
    assert (forall t', tally j t' (set_proposals <[i := p']> (recorded now i voter t amount s)) =
      tally j t' s + (if bool_decide (i = j) && bool_decide (vote_to_storage t = t') then amount else 0)) as Htal
      by (intros t'; apply recorded_tally).
    rewrite !Htal. destruct (decide (i = j)) as [<-|Hij].
    + rewrite lookup_insert_eq in Hj. injection Hj as <-. rewrite Cy, Cn, Ca, Hy, Hn, Ha.
      by rewrite (bool_decide_eq_true_2 (i = i)).
    + rewrite lookup_insert_ne in Hj by done. destruct (fair_counts _ F j q Hj) as (-> & -> & ->).
      rewrite (bool_decide_eq_false_2 (i = j)) by done. simpl. lia.
  - change (tokens (recorded now i voter t amount s) <= U128_MAX). rewrite recorded_tokens. apply (fair_tokens _ F).
Qed.
End Record.

Definition is_vote (o : op) : Prop := match o with CastVote _ _ _ _ amount => 0 <= amount | _ => False end.

Lemma vote_fair o s : is_vote o -> fair s -> fair (exec o s) /\ tokens (exec o s) = tokens s /\ votes s ⊆ votes (exec o s).
Proof.
  destruct o as [|now i voter t amount| | | | | | | |]; try done. simpl. intros Ha F.
  destruct (vote_cases now i voter t amount s) as [[e ->]|[(p & Hp & _ & _ & _ & Hv & Hb & ->)|?]]; [done| |lia].
  apply loaded_Ok in Hp as [Hp _].
  destruct (add_vote_fair now i voter t amount s F Hv Ha Hb p Hp) as (p' & -> & F'). split; [done|]. split.
  - change (tokens (recorded now i voter t amount s) = tokens s). by apply recorded_tokens.
  - simpl. by apply insert_subseteq.
Qed.

(** C18: However many votes are cast, by whom and in which order: the counts of
    every proposal are the sums of the votes recorded for it, no recorded vote
    is lost or replaced, and the tokens of the balances and of the votes
    together stay the same. *)
Theorem votes_are_conserved (l : list op) (s : GovState) : Forall is_vote l -> fair s ->
  let s' := run_ops l s in fair s' /\ tokens s' = tokens s /\ votes s ⊆ votes s'.
Proof.
  intros Hl F. cbv zeta. unfold run_ops. revert s F. induction Hl as [|o l Ho Hl IH]; intros s F; [done|]. simpl.
  destruct (vote_fair o s Ho F) as (F' & Ht & Hv). destruct (IH _ F') as (F'' & Ht' & Hv'). split; [done|].
  split; [congruence|]. by transitivity (votes (exec o s)).
Qed.

(** *** The thresholds *)

(** The thresholds of quorum and approval are rounded down, so a vote misses
    them by less than one token and passes; when the product overflows, no
    vote but that of all tokens passes. *)
Theorem thresholds_round_down (y n v total : Z) : 0 <= y -> 0 <= n -> y + n <= U128_MAX -> 0 <= total ->
  (is_quorum_reached v total = true <-> 0 < total < 5 * (v + 1)) /\
  (65 * (y + n) <= U128_MAX -> (is_approval_reached y n = true <-> 0 < y + n /\ 65 * (y + n) < 100 * (y + 1))) /\
  (U128_MAX < 65 * (y + n) -> (is_approval_reached y n = true <-> y = U128_MAX)).
Proof.
  intros Hy Hn Hs Ht. split_and!.
  - unfold is_quorum_reached, calculate_quorum. destruct (Z.eqb_spec total 0); [split; [done|lia]|].
    rewrite Z.geb_le. split; intros; Z.div_mod_to_equations; lia.
  - intros Hm. unfold is_approval_reached, calculate_approval_threshold.
    rewrite (proj2 (checked_add_Some _ _ _ _)) by (split; [reflexivity|lia]). simpl.
    rewrite (proj2 (checked_mul_Some _ _ _ _)) by (split; [reflexivity|lia]). simpl.
    destruct (Z.eqb_spec (y + n) 0); [split; [done|lia]|]. rewrite Z.geb_le. split; intros; Z.div_mod_to_equations; lia.
  - intros Hm. unfold is_approval_reached, calculate_approval_threshold.
    rewrite (proj2 (checked_add_Some _ _ _ _)) by (split; [reflexivity|lia]). simpl.
    rewrite (proj2 (checked_mul_None _ _ _)) by lia. simpl.
    destruct (Z.eqb_spec (y + n) 0); [unfold U128_MAX in *; lia|]. rewrite Z.geb_le. lia.
Qed.

(** *** Conversion *)

(** What the conversion makes of the parameters that are left alone. *)
Definition fill (a : ProposalAction) : ProposalAction :=
  match a with
  | FeeVariation b m => FeeVariation (some_or_0 b) (some_or_0 m)
  | SlashingParamsUpdate b e d i => SlashingParamsUpdate (some_or_0 b) (some_or_0 e) (some_or_0 d) (some_or_0 i)
  | a => a
  end.

(** Addresses are in the printed form; configurations can be read back. *)
Definition printed (s : string) : Prop := exists b, s = hex_encode b.
Definition canonical (a : ProposalAction) : Prop :=
  match a with
  | ContractUpgrade _ _ _ => False
  | ProjectSelection s _ | ApproveFlModel s | AbortFlRound s _ => printed s
  | SetFlPolicy _ _ l => Forall printed l
  | AddConnector _ _ c => dec_config (enc_config c) = Some c /\ Z.of_nat (length (enc_config c)) <= MAX_DESERIALIZE_SIZE
  | _ => True
  end.

Lemma printed_aggregators `{!HexLaws} l : Forall printed l ->
  hex_encode <$> ((fun a => default [] (hex_decode a)) <$> l) = l.
Proof.
  induction 1 as [|a l [b ->] Hl IH]; [done|]. cbn [fmap list_fmap]. f_equal; [by rewrite hex_decode_encode|exact IH].
Qed.

Definition with_action (a : ProposalAction) (g : Proposal) : Proposal :=
  mkProposal (id g) (creator g) (deposit g) (description g) a (status g) (created_at g) (review_end g) (voting_end g)
    (yes_votes g) (no_votes g) (abstain_votes g).

Lemma action_roundtrip `{!HexLaws} a : canonical a ->
  exists b, action_to_storage a = Ok b /\ action_of_storage b = Ok (fill a).
Proof.
  assert (forall s, printed s -> exists b, hex_decode s = Some b /\ hex_encode b = s) as Hpr
    by (intros s [b ->]; exists b; by rewrite hex_decode_encode).
  destruct a; simpl; try done; try (intros _; eexists; split; [done|]; done); try (intros (b & Hb & Hc)%Hpr; rewrite Hb; eexists; split; [done|]; simpl; by rewrite Hc).
  - intros Hl. eexists. split; [done|]. simpl. by rewrite printed_aggregators.
  - intros [Hd Hl]. eexists. split; [done|]. simpl. unfold read_config.
    destruct (Z.gtb_spec (Z.of_nat (length (enc_config config))) MAX_DESERIALIZE_SIZE); [lia|]. by rewrite Hd.
Qed.

(** Writing a proposal and reading it back gives the proposal with every
    parameter that was left alone set to zero. *)
Theorem stored_proposal_roundtrip `{!HexLaws} (g : Proposal) (c : bytes) : creator g = hex_encode c -> canonical (action g) ->
  exists p, governance_proposal_to_storage_proposal g = Ok p /\
    storage_proposal_to_governance_proposal p = Ok (with_action (fill (action g)) g).
Proof.
  intros Hc Ha. destruct (action_roundtrip (action g) Ha) as (b & Hb & Hb').
  unfold governance_proposal_to_storage_proposal. rewrite Hc, hex_decode_encode, Hb. eexists. split; [done|].
  unfold storage_proposal_to_governance_proposal. simpl. rewrite Hb'. unfold with_action. rewrite Hc. by destruct (status g).
Qed.

(** A change of the base fee alone or of the maximal fee alone is a valid
    action, but once stored and read back it can never be executed. *)
Theorem single_fee_change_never_executes `{!HexLaws} (g : Proposal) (c : bytes) (fee : Z) :
  creator g = hex_encode c -> 1000000000000000 <= fee <= 1000000000000000000000 ->
  (action g = FeeVariation (Some fee) None \/ action g = FeeVariation None (Some fee)) ->
  validate_action (action g) = Ok tt /\
  exists p g', governance_proposal_to_storage_proposal g = Ok p /\ storage_proposal_to_governance_proposal p = Ok g' /\
    forall t now s, GovExec.execute_proposal t now (approve g') s = (Err InvalidAction, s).
Proof.
  intros Hc Hf Ha.
  assert (forall lo hi, lo <= 1000000000000000 -> 1000000000000000000000 <= hi -> in_bounds lo hi (Some fee) = true) as Hin.
  { intros lo hi Hlo Hhi. simpl. destruct (Z.ltb_spec fee lo); [lia|]. destruct (Z.gtb_spec fee hi); [lia|]. done. }
  split.
  - destruct Ha as [-> | ->]; cbn [validate_action]; unfold validate_fee_variation.
    + rewrite (bool_decide_eq_false_2 (Some fee = None)) by done. cbn [andb]. rewrite (Hin 100000000000000) by lia. done.
    + rewrite (bool_decide_eq_false_2 (Some fee = None)), andb_false_r by done.
      rewrite (Hin 1000000000000000 10000000000000000000000) by lia. done.
  - assert (canonical (action g)) as Hcan by (by destruct Ha as [-> | ->]).
    destruct (action_roundtrip (action g) Hcan) as (b & Hb & Hb').
    unfold governance_proposal_to_storage_proposal. rewrite Hc, hex_decode_encode, Hb. do 2 eexists. split; [done|].
    unfold storage_proposal_to_governance_proposal. simpl. rewrite Hb'. split; [done|]. intros t now s.
    assert (forall b, in_bounds 100000000000000 1000000000000000000000 b = false \/
      in_bounds 100000000000000 1000000000000000000000 b = true) as Hb2 by (intros b'; destruct (in_bounds _ _ b'); auto).
    unfold GovExec.execute_proposal, execute_fee_variation, validate_fee_variation, bail_if, lift, mbind, M_bind.
    destruct Ha as [-> | ->]; cbn [with_action approve with_status status action fill];
      change (some_or_0 (Some fee)) with (Some fee); change (some_or_0 None) with (Some 0).
    + by destruct (Hb2 (Some fee)) as [-> | ->].
    + done.
Qed.
End Theorems.
End GovV.
