(* ===== verification/GovLife.v ===== *)
(** * The lifecycle of a proposal in the storage crate

    One call of [GovernanceStorage::process_proposals] executes the first
    approved proposals whose action is implemented, and moves every other one
    by a step of its state machine; what an executed
    proposal writes is cut to the width of the field. *)

From stdpp Require Import gmap pretty.
From Stdlib Require Import Strings.Byte.
From S2P Require Import Prelude OrdMap Codec Fee Bonds BlockStore BlockStm GovStore Governance.
From S2P Require Import GovExec GovCorrect GovVotes.

Module GovL.
Import GovStore.

Section Theorems.
Context `{GovBincode, HashOrder, Hex}.

(** The vote of a proposal under the parameters. *)
Definition passes (ps : GovernanceParams) (total : Z) (p : Proposal) : bool :=
  negb (total =? 0) && (cast_total p >=? saturating_mul U128_MAX total (quorum_threshold_bps ps) / 10000) &&
  negb (cast_total p =? 0) &&
  (p_yes_votes p >=? saturating_mul U128_MAX (cast_total p) (approval_threshold_bps ps) / 10000).

(** The state machine, execution apart. *)
Definition next_status (block : Z) (ps : GovernanceParams) (total : Z) (p : Proposal) : ProposalStatus :=
  match p_status p with
  | Pending => if block >=? p_review_end p then ActiveVoting else Pending
  | ActiveVoting => if block >? p_voting_end p then (if passes ps total p then Approved else Rejected) else ActiveVoting
  | st => st
  end.

Definition small (p : Proposal) : Prop := proposal_len p <= MAX_BINCODE_SIZE.
(** A stored proposal that can be read, under its own identifier. *)
Definition stored (s : GovState) (p : Proposal) : Prop := proposals s !! p_id p = Some p /\ small p.

Lemma stored_get s p : stored s p -> GovStore.get_proposal (p_id p) s = (Ok (Some p), s).
Proof. intros [Hp Hs]. rewrite GovC.get_run, Hp. unfold safe. by rewrite (proj2 (Z.leb_le _ _)). Qed.

Lemma set_status_same p : set_status (p_status p) p = p.
Proof. by destruct p. Qed.

Lemma update_run s p st : stored s p ->
  update_proposal_status (p_id p) st s = (Ok tt, set_proposals <[p_id p := set_status st p]> s).
Proof. intros Hp. unfold update_proposal_status, mbind, M_bind. by rewrite stored_get. Qed.

Lemma check_approval_run s p ps : stored s p ->
  check_approval (p_id p) ps s = (Ok (passes ps (default 0 (total_tokens s)) p), s).
Proof.
  intros Hp. unfold check_approval, check_quorum, get_total_vote_tokens, gets, mbind, M_bind, passes. rewrite stored_get by done.
  set (total := default 0 (total_tokens s)). destruct (total =? 0) eqn:Et; [done|]. simpl.
  destruct (cast_total p >=? _); [|done]. simpl. rewrite stored_get by done. by destruct (cast_total p =? 0).
Qed.

Lemma run_action_quiet p : GovC.quiet (run_action p).
Proof.
  unfold run_action, set_fee_base, set_fee_max, put_approved_standard, update_contract_code, set_fl_policy, approve_fl_model,
    abort_fl_round, put_connector_info, delete_connector_info, put_misc, delete_misc.
  intros k. destruct (p_action p); repeat (intros; cbv zeta; first [solve [auto 2 with keeps nocore]
    | apply keeps_modify; let Hk := fresh in intros ? Hk; exact Hk | case_match | apply keeps_bind]).
Qed.

(** The actions that have an implementation, and the proposals that execute
    when their turn comes. *)
Definition implemented (a : ProposalAction) : bool :=
  match a with
  | FeeVariation _ _ | Standards _ _ | ContractUpgrade _ _ _ | SetFlPolicy _ _ _ | ApproveFlModel _ | AbortFlRound _ _
  | AddConnector _ _ _ | RemoveConnector _ => true
  | _ => false
  end.
Definition ready (p : Proposal) : bool := bool_decide (p_status p = Approved) && implemented (p_action p).

(** The effects of the actions of [l], in order. *)
Definition run_all (l : list Proposal) (s : GovState) : GovState := fold_left (fun s p => (run_action p s).2) l s.

Lemma run_action_ok p s : is_ok (run_action p s).1 = implemented (p_action p) /\
  (implemented (p_action p) = false -> (run_action p s).2 = s).
Proof. unfold run_action. destruct (p_action p) as [[?|] [?|]| | | | | | | | | | | |]; done. Qed.
Lemma run_action_misc p s s' : misc s = misc s' -> misc (run_action p s).2 = misc (run_action p s').2.
Proof.
  intros Hm. unfold run_action. destruct (p_action p) as [[?|] [?|]| | | | | | | | | | | |];
    unfold mbind, M_bind, mret, M_ret; cbn; by rewrite ?Hm.
Qed.
Lemma run_all_misc l s s' : misc s = misc s' -> misc (run_all l s) = misc (run_all l s').
Proof. revert s s'. induction l as [|p l IH]; intros s s' Hm; [done|]. simpl. by apply IH, run_action_misc. Qed.

(** Executing an approved proposal runs its action and marks it as executed,
    or fails and leaves everything as it is. *)
Lemma execute_run s p : stored s p -> p_status p = Approved ->
  exists s', try_execute (p_id p) s = (Ok (implemented (p_action p)), s') /\ total_tokens s' = total_tokens s /\
    misc s' = misc (run_action p s).2 /\
    proposals s' = if implemented (p_action p) then <[p_id p := set_status Executed p]> (proposals s) else proposals s.
Proof.
  intros Hp Hst. unfold try_execute, GovStore.execute_proposal, mbind, M_bind. rewrite stored_get by done.
  unfold lift, bail_if. simpl. rewrite Hst. simpl. destruct (run_action_ok p s) as [Hok Hno].
  pose proof (run_action_quiet p (GovC.core s) s eq_refl) as Hc. destruct (run_action p s) as [[[]|e] s1]; cbn [fst snd is_ok] in *;
    injection Hc as Ht Hps; rewrite <- Hok.
  - rewrite update_run by (by destruct Hp; split; [rewrite Hps|]). eexists. split; [done|]. simpl. by rewrite Hps.
  - rewrite Hno by done. by eexists.
Qed.

(** The status of a proposal after a call that executes those of [new]. *)
Definition status_after (block : Z) (ps : GovernanceParams) (total : Z) (new : list Proposal) (p : Proposal) : ProposalStatus :=
  if decide (p_id p ∈ p_id <$> new) then Executed else next_status block ps total p.
(** Those of [l] that execute when [n] of the call have executed. *)
Definition executing (ps : GovernanceParams) (n : nat) (l : list Proposal) : list Proposal :=
  take (Z.to_nat (max_proposals_per_block ps - Z.of_nat n)) (filter (fun p => ready p = true) l).

(** One round of the loop. *)
Lemma process_cons block ps p l ex s : stored s p ->
  let new := if ready p && (Z.of_nat (length ex) <? max_proposals_per_block ps) then [p] else [] in
  exists s1, process block ps (p :: l) ex s = process block ps l (ex ++ (p_id <$> new)) s1 /\
    total_tokens s1 = total_tokens s /\ misc s1 = misc (run_all new s) /\
    (forall j, j <> p_id p -> proposals s1 !! j = proposals s !! j) /\
    proposals s1 !! p_id p = Some (set_status (status_after block ps (default 0 (total_tokens s)) new p) p).
Proof.
  intros Hp. pose proof (proj1 Hp) as Hl. unfold ready, status_after, next_status. cbn [process].
  destruct (p_status p) eqn:Hst; unfold mbind, M_bind; cbn [bool_decide andb]; cbv zeta;
    try (rewrite bool_decide_eq_false_2 by done; cbn [andb]); cbn [fmap list_fmap]; rewrite ?app_nil_r.
  - destruct (block >=? p_review_end p); [rewrite update_run by done|]; eexists; split_and!; try done; simpl.
    + intros j Hj. by rewrite lookup_insert_ne.
    + by rewrite lookup_insert_eq.
    + by rewrite Hl, <- Hst, set_status_same.
  - destruct (block >? p_voting_end p); [rewrite check_approval_run, update_run by done|]; eexists; split_and!; try done; simpl.
    + intros j Hj. by rewrite lookup_insert_ne.
    + by rewrite lookup_insert_eq.
    + by rewrite Hl, <- Hst, set_status_same.
  - rewrite bool_decide_eq_true_2 by done. cbn [andb].
    destruct (Z.ltb_spec (Z.of_nat (length ex)) (max_proposals_per_block ps)) as [Hm|Hm]; rewrite ?andb_true_r, ?andb_false_r.
    + destruct (execute_run s p Hp Hst) as (s1 & -> & Ht & Hmi & Hps). destruct (implemented (p_action p)) eqn:Hi.
      * exists s1. split_and!; [done..| |].
        -- intros j Hj. by rewrite Hps, lookup_insert_ne.
        -- rewrite Hps, lookup_insert_eq. rewrite decide_True; [done|]. by left.
      * exists s1. cbn [fmap list_fmap]. rewrite app_nil_r. destruct (run_action_ok p s) as [_ Hno]. rewrite Hno in Hmi by done.
        split_and!; [done..| |]; rewrite Hps; [done|]. simpl. by rewrite Hl, <- Hst, set_status_same.
    + exists s. cbn [fmap list_fmap]. rewrite app_nil_r. split_and!; [done..|]. simpl. by rewrite Hl, <- Hst, set_status_same.
  - exists s. split_and!; [done..|]. simpl. by rewrite Hl, <- Hst, set_status_same.
  - exists s. split_and!; [done..|]. simpl. by rewrite Hl, <- Hst, set_status_same.
Qed.

Lemma executing_cons ps n p l :
  executing ps n (p :: l) =
  let new := if ready p && (Z.of_nat n <? max_proposals_per_block ps) then [p] else [] in
  new ++ executing ps (n + length new) l.
Proof.
  unfold executing. rewrite filter_cons. destruct (ready p); cbn [andb]; cbv zeta.
  - rewrite decide_True by done. destruct (Z.ltb_spec (Z.of_nat n) (max_proposals_per_block ps)).
    + replace (Z.to_nat (max_proposals_per_block ps - Z.of_nat n))
        with (S (Z.to_nat (max_proposals_per_block ps - Z.of_nat (n + 1)))) by lia. done.
    + simpl. rewrite Nat.add_0_r. by replace (Z.to_nat (max_proposals_per_block ps - Z.of_nat n)) with 0%nat by lia.
  - rewrite decide_False by done. simpl. by rewrite Nat.add_0_r.
Qed.

Lemma executing_sub ps n l j : j ∈ p_id <$> executing ps n l -> j ∈ p_id <$> l.
Proof.
  intros (p & -> & Hp)%list_elem_of_fmap. apply list_elem_of_fmap_2. unfold executing in Hp.
  apply list_elem_of_lookup in Hp as [i [Hi _]%lookup_take_Some]. apply list_elem_of_lookup_2, list_elem_of_filter in Hi. tauto.
Qed.

Lemma process_spec block ps l : forall ex s, NoDup (p_id <$> l) -> Forall (stored s) l ->
  let new := executing ps (length ex) l in
  exists s', process block ps l ex s = (Ok (ex ++ (p_id <$> new)), s') /\ misc s' = misc (run_all new s) /\
    (forall j, j ∉ p_id <$> l -> proposals s' !! j = proposals s !! j) /\
    Forall (fun p => proposals s' !! p_id p = Some (set_status (status_after block ps (default 0 (total_tokens s)) new p) p)) l.
Proof.
  induction l as [|p l IH]; intros ex s Hnd Hst; cbv zeta.
  - exists s. unfold executing. rewrite filter_nil, take_nil. cbn [fmap list_fmap]. rewrite app_nil_r. split_and!; [done..|by apply Forall_nil].
  - apply NoDup_cons in Hnd as [Hnp Hnd]. apply Forall_cons in Hst as [Hp Hst].
    rewrite executing_cons. destruct (process_cons block ps p l ex s Hp) as (s1 & -> & Ht & Hmi & Hoth & Hstep). cbv zeta in *.
    set (n1 := if ready p && _ then [p] else []) in *.
    assert (Forall (stored s1) l) as Hst1.
    { eapply Forall_impl; [apply Forall_and; split; [exact Hst|apply (Forall_forall (fun q => q ∈ l)); done]|].
      intros q [[Hq Hs] Hin]. split; [|done]. rewrite Hoth; [done|]. intros Heq. apply Hnp. rewrite <- Heq.
      by apply list_elem_of_fmap_2. }
    destruct (IH (ex ++ (p_id <$> n1)) s1 Hnd Hst1) as (s' & -> & Hms & Hother & Hall). rewrite length_app, length_fmap in *.
    set (n2 := executing ps (length ex + length n1) l) in *.
    assert (Hn1 : forall j, j ∈ p_id <$> n1 -> j = p_id p).
    { unfold n1. destruct (_ && _); cbn [fmap list_fmap]; [by intros j ->%list_elem_of_singleton|by intros j ?%not_elem_of_nil]. }
    exists s'. rewrite fmap_app, app_assoc. split_and!; [done|..].
    + rewrite Hms. unfold run_all at 2. rewrite fold_left_app. by apply run_all_misc.
    + intros j Hj. cbn [fmap list_fmap] in Hj. apply not_elem_of_cons in Hj as [Hj1 Hj2]. by rewrite Hother, Hoth.
    + apply Forall_cons. split.
      * rewrite Hother, Hstep by done. do 2 f_equal. unfold status_after. rewrite fmap_app.
        assert (p_id p ∉ p_id <$> n2) by (intros Hin; apply Hnp; exact (executing_sub _ _ _ _ Hin)).
        destruct (decide (p_id p ∈ p_id <$> n1)) as [Hin|Hin]; [rewrite decide_True; [done|by apply elem_of_app; left]|].
        rewrite decide_False; [done|]. by rewrite not_elem_of_app.
      * rewrite Ht in Hall. eapply Forall_impl; [apply Forall_and; split; [exact Hall|apply (Forall_forall (fun q => q ∈ l)); done]|].
        intros q [-> Hin]. do 2 f_equal. unfold status_after. rewrite fmap_app.
        assert (p_id q ∉ p_id <$> n1) by (intros Hq1%Hn1; apply Hnp; rewrite <- Hq1; by apply list_elem_of_fmap_2).
        destruct (decide (p_id q ∈ p_id <$> n2)) as [Hin2|Hin2]; [rewrite decide_True; [done|by apply elem_of_app; right]|].
        rewrite decide_False; [done|]. by rewrite not_elem_of_app.
Qed.

(** Every proposal is stored under its own identifier and can be read. *)
Definition readable (s : GovState) : Prop := map_Forall (fun i p => p_id p = i /\ small p) (proposals s).

Lemma load_all_run s (l : list (Z * Proposal)) :
  Forall (fun x => x.1 = p_id x.2 /\ stored s x.2) l -> load_all l.*1 s = (Ok l.*2, s).
Proof.
  induction 1 as [|[i p] l [Hi Hp] Hl IH]; [done|]. simpl in Hi. subst i. cbn [fmap list_fmap load_all]. unfold mbind, M_bind.
  change (fst (p_id p, p)) with (p_id p). rewrite stored_get by done. change (list_fmap _ _ fst l) with (l.*1). by rewrite IH.
Qed.

(** C16: One call of [process_proposals] succeeds.  It executes, in the order of
    their identifiers, the first approved proposals whose action is
    implemented, as many as the parameters allow per block: their actions are
    run in this order, they become executed and they are what it reports.
    Every other proposal moves by the state machine: review to voting when
    its review has ended, voting to approved or rejected by the quorum and the
    approval of the parameters when the vote has ended; otherwise it stays.
    No proposal is added.  (Every stored proposal can be read.) *)
Theorem every_proposal_takes_one_step (block : Z) (s : GovState) : readable s ->
  (forall ps, gov_params s = Some ps -> params_len ps <= MAX_BINCODE_SIZE) ->
  let ps := default GovernanceParams_default (gov_params s) in
  let new := take (Z.to_nat (max_proposals_per_block ps)) (filter (fun p => ready p = true) (btree_iter (proposals s)).*2) in
  exists s', process_proposals block s = (Ok (p_id <$> new), s') /\ misc s' = misc (run_all new s) /\
    forall i, proposals s' !! i =
      (fun p => set_status (status_after block ps (default 0 (total_tokens s)) new p) p) <$> proposals s !! i.
Proof.
  intros Hr Hps. cbv zeta. set (ps := default GovernanceParams_default (gov_params s)).
  set (l := btree_iter (proposals s)).
  assert (Forall (fun x => x.1 = p_id x.2 /\ stored s x.2) l) as Hl.
  { apply Forall_forall. intros [i p] Hi%elem_of_btree_iter. destruct (Hr i p Hi) as [<- Hs]. by split. }
  assert (p_id <$> l.*2 = l.*1) as Hids.
  { clearbody l. induction Hl as [|x l [Hx _] _ IH]; [done|]. cbn [fmap list_fmap]. by f_equal. }
  destruct (process_spec block ps l.*2 [] s) as (s' & Hrun & Hmi & Hoth & Hall).
  - rewrite Hids. apply btree_iter_nodup.
  - rewrite Forall_fmap. eapply Forall_impl; [exact Hl|]. by intros x [_ Hx].
  - unfold executing in *. cbn [length] in *. rewrite Z.sub_0_r in *. exists s'. split_and!.
    + unfold process_proposals, get_governance_params, get_all_proposals, get_all_ids, gets, mbind, M_bind.
      assert ((match gov_params s with Some ps => lift (safe params_len ps) | None => mret GovernanceParams_default end) s
        = (Ok ps, s)) as ->.
      { unfold ps, lift, safe. destruct (gov_params s) as [q|] eqn:Eq; [|done]. by rewrite (proj2 (Z.leb_le _ _)) by by apply Hps. }
      fold l. by rewrite load_all_run.
    + exact Hmi.
    + intros i. destruct (proposals s !! i) as [p|] eqn:Hi.
      * destruct (Hr i p Hi) as [<- _]. rewrite Forall_forall in Hall. apply (Hall p). apply list_elem_of_fmap. exists (p_id p, p).
        split; [done|]. by apply elem_of_btree_iter.
      * rewrite Hoth, Hi; [done|]. rewrite Hids. intros ([j p] & -> & Hj)%list_elem_of_fmap.
        apply elem_of_btree_iter in Hj. simpl in Hi. congruence.
Qed.

(** An approved change of the base fee stores its remainder modulo 2^64: a
    fee of 2^64 sets the base fee to zero. *)
Theorem executed_fee_is_truncated (s : GovState) (p : Proposal) (fee : Z) : stored s p -> p_status p = Approved ->
  p_action p = FeeVariation (Some fee) None ->
  exists s', GovStore.execute_proposal (p_id p) s = (Ok tt, s') /\
    misc s' !! bytes_of_string "fee:base" = Some (to_le_bytes 8 (fee mod 2 ^ 64)).
Proof.
  intros Hp Hst Ha. unfold GovStore.execute_proposal, mbind, M_bind. rewrite stored_get by done.
  unfold lift, bail_if. simpl. rewrite Hst. simpl. unfold run_action. rewrite Ha.
  unfold set_fee_base, put_misc, modify, mbind, M_bind. cbn.
  rewrite update_run by (by destruct Hp). eexists. split; [done|]. simpl. by rewrite lookup_insert_eq.
Qed.
End Theorems.
End GovL.

(** ** Concrete runs of the governance

    One store with an open proposal that two holders vote on; every theorem
    about the governance is applied to it. *)

Module GovW.
Import GovStore GovC GovV GovL.

Section Witnesses.
Definition gov_bincode : GovBincode :=
  {| proposal_len _ := 200; vote_len _ := 80; params_len _ := 48; enc_action _ := [] |}.
Definition gov_config : Gov.ConfigBincode := {| Gov.enc_config _ := []; Gov.dec_config _ := None |}.
Definition gov_exec : GovExec.ExecBincode :=
  {| GovExec.enc_policy _ := []; GovExec.enc_connector _ _ _ := []; GovExec.has_alphanumeric _ := true |}.
Definition gov_order : HashOrder := {| hash_order _ l := l |}.
#[local] Existing Instances gov_bincode gov_config gov_exec gov_order.

Definition alice : bytes := replicate 32 x01.
Definition bob : bytes := replicate 32 x02.

Definition idea : Gov.ProposalAction := Gov.NonCore "a new road".
Definition open_proposal (st : ProposalStatus) (a : ProposalAction) : Proposal :=
  mkProposal 1 alice 10 "roads" a st 0 10 20 40 0 0.
(** Alice holds 100 tokens and Bob 50, after 40 of his voted for the
    proposal; the total is set to 200. *)
Definition store (st : ProposalStatus) (a : ProposalAction) : GovState :=
  mkGov {[alice := 100; bob := 50]} (Some 200) None {[1 := open_proposal st a]} {[(1, bob) := mkVote 1 bob Yes 40 12]}
    ∅ None ∅.
Definition open_store : GovState := store ActiveVoting (NonCore "a new road").

Lemma open_undecided : all_undecided open_store.
Proof. apply map_Forall_singleton. split; [done|]. split; done. Qed.

Lemma nothing_is_ever_approved_witness :
  let s' := run_ops [CastVote 15 1 alice Gov.Yes 60; ProcessExpired 30; UpdateState 1 30] open_store in
  (forall i p, proposals s' !! i = Some p -> p_status p <> Approved) /\
  (forall now n, (Gov.process_expired_proposals now s').1 = Ok n -> n = 0).
Proof.
  exact (nothing_is_ever_approved [CastVote 15 1 alice Gov.Yes 60; ProcessExpired 30; UpdateState 1 30] open_store
    open_undecided).
Defined.

Lemma open_won : won 30 1 (open_proposal ActiveVoting (NonCore "a new road")) open_store.
Proof.
  constructor; try (vm_compute; reflexivity); try (vm_compute; congruence); [|by left].
  intros j [q Hq]. unfold open_store, store in Hq. simpl in Hq. apply lookup_singleton_Some in Hq as [<- _]. lia.
Qed.

Lemma deposit_paid_at_every_call_witness :
  let s' := Nat.iter 3 (fun s => (Gov.process_expired_proposals 30 s).2) open_store in
  (Gov.process_expired_proposals 30 s').1 = Err NotFinalized /\ proposals s' = proposals open_store /\
  balance_of alice s' = Z.min U128_MAX (100 + Z.of_nat 3 * 10).
Proof.
  refine (deposit_paid_at_every_call 30 1 (open_proposal ActiveVoting (NonCore "a new road")) open_store 3 open_won _).
  vm_compute. split; discriminate.
Defined.

Lemma governance_is_dead_witness :
  let s' := run_any [inl (MintToSender alice 5000); inr (SCreate bob 1000000 "x" (NonCore "y") 3 GovernanceParams_default)]
    GovState_empty in
  (forall now c d descr a, Gov.create_proposal now c d descr a s' = (Err (DepositTooSmall 0 d), s')) /\
  (forall i ps b, (check_approval i ps s').1 = Ok b -> b = false) /\
  (forall i st, (Gov.calculate_proposal_result_from_storage i s').1 = Ok st -> st = Gov.Rejected).
Proof.
  exact (governance_is_dead [inl (MintToSender alice 5000);
    inr (SCreate bob 1000000 "x" (NonCore "y") 3 GovernanceParams_default)] GovState_empty eq_refl).
Defined.

Lemma second_proposal_replaces_first_witness :
  exists p p' s1 s2, Gov.create_proposal 0 alice 20 "one" idea open_store = (Ok p, s1) /\
    Gov.create_proposal 5 bob 30 "two" idea s1 = (Ok p', s2) /\
    Gov.id p' = Gov.id p /\ next_id s2 = next_id open_store /\ balance_of alice s2 = balance_of alice open_store - 20 /\
    exists q, proposals s2 = <[Gov.id p := q]> (proposals open_store) /\ p_creator q = bob.
Proof.
  destruct (run_ok_state (Gov.create_proposal 0 alice 20 "one" idea open_store)) as (p & s1 & E1); [by vm_compute|].
  destruct (run_ok_state (Gov.create_proposal 5 bob 30 "two" idea s1)) as (p' & s2 & E2);
    [injection E1 as _ <-; by vm_compute|].
  exists p, p', s1, s2. split; [exact E1|]. split; [exact E2|].
  exact (second_proposal_replaces_first 0 5 alice bob 20 30 "one" "two" idea idea open_store s1 s2 p p' E1 E2
    ltac:(discriminate)).
Defined.

Lemma open_fair : fair open_store.
Proof.
  constructor.
  - apply map_Forall_insert_2; [lia|]. by apply map_Forall_singleton.
  - by apply map_Forall_singleton.
  - apply map_Forall_singleton. by vm_compute.
  - by vm_compute.
Qed.

Lemma votes_are_conserved_witness :
  let s' := run_ops [CastVote 15 1 alice Gov.No 60; CastVote 16 1 bob Gov.Yes 5] open_store in
  fair s' /\ tokens s' = tokens open_store /\ votes open_store ⊆ votes s'.
Proof.
  refine (votes_are_conserved [CastVote 15 1 alice Gov.No 60; CastVote 16 1 bob Gov.Yes 5] open_store _ open_fair).
  repeat constructor; discriminate.
Defined.

Lemma thresholds_round_down_witness :
  (Gov.is_quorum_reached 1 9 = true <-> 0 < 9 < 5 * (1 + 1)) /\
  (65 * (0 + 1) <= U128_MAX -> (Gov.is_approval_reached 0 1 = true <-> 0 < 0 + 1 /\ 65 * (0 + 1) < 100 * (0 + 1))) /\
  (U128_MAX < 65 * (0 + 1) -> (Gov.is_approval_reached 0 1 = true <-> 0 = U128_MAX)).
Proof. apply (thresholds_round_down 0 1 1 9); [lia|lia|unfold U128_MAX; lia|lia]. Defined.

Definition change : Gov.Proposal :=
  Gov.new_with_timestamp 1 (hex_encode alice) 10 "fees" (Gov.FeeVariation (Some 2000000000000000) None) 0.

Lemma stored_proposal_roundtrip_witness : exists p, Gov.governance_proposal_to_storage_proposal change = Ok p /\
  Gov.storage_proposal_to_governance_proposal p = Ok (with_action (fill (Gov.action change)) change).
Proof. exact (stored_proposal_roundtrip change alice eq_refl I). Defined.

Lemma single_fee_change_never_executes_witness : GovExec.validate_action (Gov.action change) = Ok tt /\
  exists p g', Gov.governance_proposal_to_storage_proposal change = Ok p /\
    Gov.storage_proposal_to_governance_proposal p = Ok g' /\
    forall t now s, GovExec.execute_proposal t now (Gov.approve g') s = (Err InvalidAction, s).
Proof.
  apply (single_fee_change_never_executes change alice 2000000000000000); [reflexivity|lia|by left].
Defined.

(** Two approved proposals that can execute, one that cannot, one that is
    voted on. *)
Definition numbered (i : Z) (st : ProposalStatus) (a : ProposalAction) : Proposal :=
  mkProposal i alice 10 "roads" a st 0 10 20 40 0 0.
Definition four_store : GovState :=
  mkGov ∅ (Some 200) None
    (list_to_map ((fun p => (p_id p, p)) <$> [numbered 1 Approved (NonCore "x"); numbered 2 Approved (RemoveConnector "c");
      numbered 3 Approved (FeeVariation (Some 7) None); numbered 4 ActiveVoting (NonCore "y")]))
    ∅ ∅ None ∅.
Lemma every_proposal_takes_one_step_witness : exists s', process_proposals 21 four_store = (Ok [2; 3], s') /\
  p_status <$> proposals s' !! 1 = Some Approved /\ p_status <$> proposals s' !! 2 = Some Executed /\
  p_status <$> proposals s' !! 4 = Some Approved.
Proof.
  destruct (every_proposal_takes_one_step 21 four_store) as (s' & Hrun & _ & Hps); [|discriminate|].
  - unfold readable, four_store. cbn [proposals]. repeat (apply map_Forall_insert_2; [split; [reflexivity|vm_compute; discriminate]|]).
    apply map_Forall_empty.
  - exists s'. split; [refine (eq_trans Hrun _); vm_compute; reflexivity|].
    rewrite !Hps. split_and!; vm_compute; reflexivity.
Defined.

Lemma executed_fee_is_truncated_witness : exists s',
  GovStore.execute_proposal 1 (store Approved (FeeVariation (Some (2 ^ 64)) None)) = (Ok tt, s') /\
  misc s' !! bytes_of_string "fee:base" = Some (to_le_bytes 8 (2 ^ 64 mod 2 ^ 64)).
Proof.
  refine (executed_fee_is_truncated (store Approved (FeeVariation (Some (2 ^ 64)) None))
    (open_proposal Approved (FeeVariation (Some (2 ^ 64)) None)) (2 ^ 64) _ _ _); [|done|done].
  split; [done|]. by vm_compute.
Defined.
End Witnesses.

End GovW.
