(* ===== verification/Savitri1155.v ===== *)
(** * SAVITRI-1155: the multi-token

    [Savitri-contracts/src/contracts/standards/savitri1155.rs]: balances of
    many token ids, operators, single and batch transfers with the check of
    the receiver.  The transfers call the receiver's contract between their
    checks and their writes, so they run in a frame of the call executor
    ([CallExec.v]); reads and approvals are contract storage operations.  The
    word encodings are those of SAVITRI-20 and of the base contract.  The
    functions take an optional meter; it is present here. *)

From Stdlib Require Import Strings.Byte.
From S2P Require Import Prelude Gas ContractStorage Codec BaseContract Savitri20 Savitri20Correct Savitri721 Account.
From S2P Require Import CallStack Fee Evm StorageRoot Abi CallExec.

Import CS.

Module Sav1155.

Definition SLOT_BALANCES_BASE : Z := 100.
Definition SLOT_OPERATOR_APPROVALS_BASE : Z := 200.

(** 32-byte words of the ABI holding a [u128] and a [u32]. *)
Definition word_u128 (v : Z) : bytes := zeros 16 ++ Abi.to_be_bytes 16 v.
Definition word_u32 (v : Z) : bytes := zeros 28 ++ Abi.to_be_bytes 4 v.

(** [data] with its length, padded to words. *)
Definition padded_data (data : bytes) : bytes :=
  word_u32 (Z.of_nat (length data)) ++
  (if bool_decide (data = []) then [] else data ++ zeros ((32 - length data mod 32) mod 32)).

(** An array with its length. *)
Definition word_array (l : list Z) : bytes := word_u32 (Z.of_nat (length l)) ++ concat (word_u128 <$> l).
(** [len as u32 * 32]. *)
Definition len32 (l : list Z) : Z := wrap U32_MAX (wrap U32_MAX (Z.of_nat (length l)) * 32).

Section Ops.
Context `{Hex} `{Keccak} (st : Storage) (rt : Runtime).

Definition calculate_balance_slot (owner : bytes) (id : Z) : Z :=
  hash_slot (keccak256 (word_u128 id ++ keccak256 (owner ++ to_le_bytes 8 SLOT_BALANCES_BASE))).
Definition calculate_operator_approval_slot (owner operator : bytes) : Z :=
  hash_slot (keccak256 (operator ++ keccak256 (owner ++ to_le_bytes 8 SLOT_OPERATOR_APPROVALS_BASE))).

Definition emit_transfer_single_event (contract operator from to : bytes) (id value : Z) : X unit :=
  emit_custom_event {|
    ev_contract_address := hex_encode contract;
    ev_name := "TransferSingle";
    ev_topics := [keccak256 (bytes_of_string "TransferSingle(address,address,address,uint256,uint256)"); operator; from; to];
    ev_data := word_u128 id ++ word_u128 value |}.

Definition emit_transfer_batch_event (contract operator from to : bytes) (ids values : list Z) : X unit :=
  emit_custom_event {|
    ev_contract_address := hex_encode contract;
    ev_name := "TransferBatch";
    ev_topics := [keccak256 (bytes_of_string "TransferBatch(address,address,address,uint256[],uint256[])"); operator; from; to];
    ev_data := word_u32 128 ++ word_u32 (wrap U32_MAX (128 + 64 + len32 ids)) ++ word_array ids ++ word_array values |}.

Definition emit_approval_for_all_event (contract owner operator : bytes) (approved : bool) : X unit :=
  emit_custom_event {|
    ev_contract_address := hex_encode contract;
    ev_name := "ApprovalForAll";
    ev_topics := [keccak256 (bytes_of_string "ApprovalForAll(address,address,bool)"); owner; operator];
    ev_data := zeros 31 ++ [if approved then x01 else x00] |}.

(** The amount a slot holds; an all-zero word is zero. *)
Definition load_amount (slot : Z) : X Z :=
  value ← sload st slot;
  if is_zero value then mret 0 else lift (Sav20.storage_value_to_u128 value).

Definition balance_of (owner : string) (id : Z) : X Z :=
  o ← Sav20.decode owner; load_amount (calculate_balance_slot o id).

(** The two loops of [balance_of_batch]: slots first, then balances. *)
Fixpoint batch_slots (l : list (string * Z)) : X (list Z) :=
  match l with
  | [] => mret []
  | (owner, id) :: l =>
      o ← Sav20.decode owner; r ← batch_slots l; mret (calculate_balance_slot o id :: r)
  end.
Fixpoint load_amounts (l : list Z) : X (list Z) :=
  match l with
  | [] => mret []
  | slot :: l => b ← load_amount slot; r ← load_amounts l; mret (b :: r)
  end.
Definition balance_of_batch (owners : list string) (ids : list Z) : X (list Z) :=
  bail_if (negb (bool_decide (length owners = length ids))) LengthMismatch;;
  slots ← batch_slots (zip owners ids);
  load_amounts slots.

Definition is_approved_for_all (owner operator : string) : X bool :=
  o ← Sav20.decode owner;
  p ← Sav20.decode operator;
  value ← sload st (calculate_operator_approval_slot o p);
  if is_zero value then mret false
  else v ← lift (Base.storage_value_to_u64 value); mret (negb (v =? 0)).

Definition set_approval_for_all (operator : string) (approved : bool) : X unit :=
  p ← Base.is_paused st;
  bail_if p Paused;;
  caller ← Base.current_caller rt;
  contract ← Base.current_contract rt;
  op ← Sav20.decode operator;
  sstore st (calculate_operator_approval_slot caller op) (Base.u64_to_storage_value (if approved then 1 else 0));;
  emit_approval_for_all_event contract caller op approved.

(** Who calls and which contract runs, the two accounts, and the right of the
    caller to move tokens of the first. *)
Record Transfer := mkTransfer { t_caller : bytes; t_contract : bytes; t_from : bytes; t_to : bytes }.

Definition authorize (from to : string) : X Transfer :=
  caller ← Base.current_caller rt;
  contract ← Base.current_contract rt;
  from_bytes ← Sav20.decode from;
  to_bytes ← Sav20.decode to;
  bail_if (bool_decide (to_bytes = zeros 32)) ZeroAddress;;
  approved ← (if bool_decide (caller = from_bytes) then mret true
              else is_approved_for_all from (Sav721.encode_address caller));
  bail_if (negb approved) NotOwnerNorApproved;;
  mret (mkTransfer caller contract from_bytes to_bytes).

Definition store_amount (slot v : Z) : X unit := sstore st slot (Sav20.u128_to_storage_value v).

(** [safe_transfer_from] before and after the receiver is called. *)
Definition single_checks (from to : string) (id amount : Z) : X (Transfer * Z) :=
  p ← Base.is_paused st;
  bail_if p Paused;;
  t ← authorize from to;
  from_balance ← balance_of from id;
  bail_if (from_balance <? amount) (InsufficientBalance from_balance amount);;
  mret (t, from_balance).

Definition single_writes (t : Transfer) (id amount from_balance : Z) : X unit :=
  (if bool_decide (t_from t = t_to t) then mret tt
   else
     new_from ← lift (ok_or (checked_sub from_balance amount) Underflow);
     store_amount (calculate_balance_slot (t_from t) id) new_from;;
     to_balance ← balance_of (Sav721.encode_address (t_to t)) id;
     new_to ← lift (ok_or (checked_add U128_MAX to_balance amount) Overflow);
     store_amount (calculate_balance_slot (t_to t) id) new_to);;
  emit_transfer_single_event (t_contract t) (t_caller t) (t_from t) (t_to t) id amount.

(** The first phase of a batch: the balances of both accounts before it. *)
Fixpoint batch_balances (from : string) (to : bytes) (l : list (Z * Z)) : X (list (Z * Z)) :=
  match l with
  | [] => mret []
  | (id, amount) :: l =>
      from_balance ← balance_of from id;
      bail_if (from_balance <? amount) (InsufficientBalance from_balance amount);;
      to_balance ← balance_of (Sav721.encode_address to) id;
      lift (ok_or (checked_add U128_MAX to_balance amount) Overflow);;
      r ← batch_balances from to l;
      mret ((from_balance, to_balance) :: r)
  end.

Definition batch_checks (from to : string) (ids amounts : list Z) : X (Transfer * list (Z * Z)) :=
  p ← Base.is_paused st;
  bail_if p Paused;;
  bail_if (negb (bool_decide (length ids = length amounts))) LengthMismatch;;
  t ← authorize from to;
  balances ← batch_balances from (t_to t) (zip ids amounts);
  mret (t, balances).

(** The last phase: both balances of every id are written from the balances
    of the first phase. *)
Fixpoint batch_writes (from to : bytes) (l : list ((Z * Z) * (Z * Z))) : X unit :=
  match l with
  | [] => mret tt
  | ((id, amount), (from_balance, to_balance)) :: l =>
      new_from ← lift (ok_or (checked_sub from_balance amount) Underflow);
      new_to ← lift (ok_or (checked_add U128_MAX to_balance amount) Overflow);
      store_amount (calculate_balance_slot from id) new_from;;
      store_amount (calculate_balance_slot to id) new_to;;
      batch_writes from to l
  end.

Definition batch_finish (t : Transfer) (ids amounts : list Z) (balances : list (Z * Z)) : X unit :=
  (if bool_decide (t_from t = t_to t) then mret tt
   else batch_writes (t_from t) (t_to t) (zip (zip ids amounts) balances));;
  emit_transfer_batch_event (t_contract t) (t_caller t) (t_from t) (t_to t) ids amounts.
End Ops.

Section Calls.
Context `{Hex} `{Keccak} `{U256} `{InfoBincode} (db : Root.Db).
Variable call_contract : Call.CallContract.

Definition on_sma_received_magic_value : bytes :=
  Abi.calculate_selector "onSMAReceived(address,address,uint256,uint256,bytes)".
Definition on_sma_batch_received_magic_value : bytes :=
  Abi.calculate_selector "onSMABatchReceived(address,address,uint256[],uint256[],bytes)".

Definition received_calldata (operator from : bytes) (id value : Z) (data : bytes) : bytes :=
  operator ++ from ++ word_u128 id ++ word_u128 value ++ word_u32 160 ++ padded_data data.

Definition batch_received_calldata (operator from : bytes) (ids values : list Z) (data : bytes) : bytes :=
  let values_offset := wrap U32_MAX (160 + 32 + len32 ids) in
  let data_offset := wrap U32_MAX (values_offset + 32 + len32 values) in
  operator ++ from ++ word_u32 160 ++ word_u32 values_offset ++ word_u32 data_offset ++
  word_array ids ++ word_array values ++ padded_data data.

(** The call of the receiver's hook, which must answer with its own selector;
    an address without a contract is not called. *)
Definition ask_receiver (receiver selector calldata : bytes) (gas_limit : Z) : Call.XM unit :=
  if negb (bool_decide (is_Some (Root.db_contracts db !! receiver))) then mret tt
  else
    return_data ← Call.cross_call call_contract receiver selector calldata (Some gas_limit);
    bail_if (length return_data <? 4)%nat Call.BadReceiverReturn;;
    bail_if (negb (bool_decide (take 4 return_data = selector))) Call.BadReceiverReturn.

Definition validate_receiver (receiver operator from : bytes) (id value : Z) (data : bytes) : Call.XM unit :=
  ask_receiver receiver on_sma_received_magic_value (received_calldata operator from id value data) 50000.
Definition validate_batch_receiver (receiver operator from : bytes) (ids values : list Z) (data : bytes) : Call.XM unit :=
  ask_receiver receiver on_sma_batch_received_magic_value (batch_received_calldata operator from ids values data) 100000.

Definition safe_transfer_from (from to : string) (id amount : Z) (data : bytes) : Call.XM unit :=
  '(t, from_balance) ← Call.native db (fun st rt => single_checks st rt from to id amount);
  validate_receiver (t_to t) (t_caller t) (t_from t) id amount data;;
  Call.native db (fun st rt => single_writes st t id amount from_balance).

Definition safe_batch_transfer_from (from to : string) (ids amounts : list Z) (data : bytes) : Call.XM unit :=
  '(t, balances) ← Call.native db (fun st rt => batch_checks st rt from to ids amounts);
  validate_batch_receiver (t_to t) (t_caller t) (t_from t) ids amounts data;;
  Call.native db (fun st rt => batch_finish st t ids amounts balances).
End Calls.

End Sav1155.

(** ** What a batch transfer of SAVITRI-1155 moves

    The balances of a batch are read before its first write, so of several
    entries for one token id only the last takes effect, while the checks and
    the event see each of them alone. *)

Import CS.

Module Sav1155C.
Import Sav1155.

(** The amount of the last entry for [id]. *)
Fixpoint last_amount (id : Z) (l : list (Z * Z)) : option Z :=
  match l with
  | [] => None
  | (i, a) :: l => match last_amount id l with Some x => Some x | None => if decide (i = id) then Some a else None end
  end.

Lemma last_amount_nodup id a l : NoDup l.*1 -> (id, a) ∈ l -> last_amount id l = Some a.
Proof.
  induction l as [|[i b] l IH]; intros Hnd Hin; [by apply not_elem_of_nil in Hin|].
  simpl in Hnd. apply NoDup_cons in Hnd as [Hn Hnd]. simpl.
  apply elem_of_cons in Hin as [[= -> ->]|Hin].
  - rewrite decide_True by done. destruct (last_amount i l) as [x|] eqn:E; [|done]. exfalso. apply Hn. clear -E.
    induction l as [|[j c] l IH]; [done|]. simpl in *. rewrite elem_of_cons.
    destruct (last_amount i l); [right; by apply IH|]. case_decide; [by left|done].
  - by rewrite IH.
Qed.

Section Batch.
Context {HexI : Hex} {HexL : HexLaws} {KeccakI : Keccak} (st : Storage) (rt : Runtime).

Definition bal (s : ExecState) (a : bytes) (id : Z) : Z := amt st s (calculate_balance_slot a id).

Lemma balance_reads s s' a id : reads st s s' -> bal s' a id = bal s a id.
Proof. apply amt_reads. Qed.

Lemma wp_load_amount slot (Q : Z -> ExecState -> Prop) R s :
  cs_wf st (es_cs s) -> (forall s', reads st s s' -> Q (amt st s slot) s') ->
  (forall e s', reads st s s' -> fallible st s -> R e s') -> wp (load_amount st slot) Q R s.
Proof.
  intros Hwf HQ HR. unfold load_amount. wp_accessor; [done| |done]. intros s1 H1 Hl.
  destruct (is_zero (view st s slot)) eqn:Hz.
  - apply wp_ret. replace 0 with (amt st s slot); [by apply HQ|]. unfold amt. apply is_zero_spec in Hz. rewrite Hz, Hl. done.
  - rewrite storage_value_to_u128_word by done. apply wp_lift; [|done]. intros a [= <-]. by apply HQ.
Qed.

Lemma wp_balance_of str a id (Q : Z -> ExecState -> Prop) R s :
  decode_address str = Ok a -> cs_wf st (es_cs s) -> (forall s', reads st s s' -> Q (bal s a id) s') ->
  (forall e s', reads st s s' -> R e s') -> wp (balance_of st str id) Q R s.
Proof.
  intros Hd Hwf HQ HR. unfold balance_of. apply wp_bind. eapply wp_decode; [done|]. apply wp_load_amount; auto.
Qed.

(** The first phase reads the balances and checks each entry alone. *)
Lemma wp_batch_balances from fb tb l s :
  decode_address from = Ok fb -> length tb = 32%nat -> cs_wf st (es_cs s) ->
  wp (batch_balances st from tb l)
    (fun r s' => reads st s s' /\ r = (fun e => (bal s fb e.1, bal s tb e.1)) <$> l /\
       Forall (fun e => e.2 <= bal s fb e.1 /\ bal s tb e.1 + e.2 <= U128_MAX) l)
    (fun _ s' => reads st s s') s.
Proof.
  intros Hd Ht. revert s. induction l as [|[id amount] l IH]; intros s Hwf; simpl.
  { apply wp_ret. split; [by apply reads_refl|done]. }
  eapply wp_bind, wp_balance_of; [done..| |done]. intros s1 H1.
  apply wp_bind, wp_bail_if; [done|]. intros Hge%Z.ltb_ge.
  eapply wp_bind, wp_balance_of; [by apply decode_encode_address|apply H1| |intros; by etransitivity]. intros s2 H2.
  rewrite (balance_reads _ _ _ _ H1). assert (reads st s s2) as H12 by (by etransitivity).
  apply wp_bind, wp_lift; [|done]. intros x [-> Hx]%ok_or_Ok%checked_add_Some.
  apply wp_bind. eapply wp_mono; [apply (IH s2), H12| |intros; by etransitivity]. intros r s3 (H3 & -> & Hf).
  apply wp_ret. split; [by etransitivity|]. split.
  - f_equal. apply list_fmap_ext. intros i y _. simpl. by rewrite !(balance_reads _ _ _ _ H12).
  - constructor; [done|]. eapply Forall_impl; [done|]. intros y. simpl. by rewrite !(balance_reads _ _ _ _ H12).
Qed.

(** The slots of the two accounts for the ids of a batch: distinct, and not
    persisted. *)
Record apart (addr fb tb : bytes) (ids : list Z) : Prop := {
  ap_inj : forall a b i j, a ∈ [fb; tb] -> b ∈ [fb; tb] -> i ∈ ids -> j ∈ ids ->
    calculate_balance_slot a i = calculate_balance_slot b j -> a = b /\ i = j;
  ap_db : forall a i, a ∈ [fb; tb] -> i ∈ ids -> word_amount (db_value st addr (calculate_balance_slot a i)) = 0;
}.

(** The last phase, for balances [F] and [T] read before. *)
Lemma wp_batch_writes fb tb ids (F T : Z -> Z) l s :
  cs_wf st (es_cs s) -> apart (contract_address (es_cs s)) fb tb ids -> fb <> tb ->
  (forall e, e ∈ l -> e.1 ∈ ids /\ 0 <= e.2) ->
  (forall id, in_range U128_MAX (F id) /\ in_range U128_MAX (T id)) ->
  wp (batch_writes st fb tb (zip l ((fun e => (F e.1, T e.1)) <$> l)))
    (fun _ s' => cs_wf st (es_cs s') /\ forall id, id ∈ ids ->
       bal s' fb id = match last_amount id l with Some a => F id - a | None => bal s fb id end /\
       bal s' tb id = match last_amount id l with Some a => T id + a | None => bal s tb id end)
    (fun _ _ => True) s.
Proof.
  intros Hwf Ha Hne Hl HFT. revert s Hwf Ha. induction l as [|[id amount] l IH]; intros s Hwf Ha; simpl.
  { apply wp_ret. done. }
  destruct (Hl (id, amount)) as [Hid Ham]; [by left|]. simpl in *. destruct (HFT id) as [HF HT].
  apply wp_bind, wp_lift; [|done]. intros nf [-> Hnf]%ok_or_Ok%checked_sub_Some.
  apply wp_bind, wp_lift; [|done]. intros nt [-> Hnt]%ok_or_Ok%checked_add_Some.
  assert (in_range U128_MAX (F id - amount)) as Rf by mlia. assert (in_range U128_MAX (T id + amount)) as Rt by mlia.
  apply wp_bind. unfold store_amount. wp_accessor; [done|apply length_u128_value| |done]. intros s1 H1 _.
  wp_accessor; [apply H1|apply length_u128_value| |done]. intros s2 H2 _.
  assert (fb ∈ [fb; tb]) as Hf by left. assert (tb ∈ [fb; tb]) as Ht by (right; left).
  assert (eff st s (calculate_balance_slot fb id) (F id - amount)) as E1 by (intros _; by apply (ap_db _ _ _ _ Ha)).
  assert (eff st s1 (calculate_balance_slot tb id) (T id + amount)) as E2.
  { eapply eff_writes; [done|]. intros _. by apply (ap_db _ _ _ _ Ha). }
  eapply wp_mono; [apply (IH ltac:(intros; apply Hl; by right) s2); [apply H2|]| |done].
  { by rewrite (wr_addr _ _ _ _ _ H2), (wr_addr _ _ _ _ _ H1). }
  intros ? s3 [Hw3 Hb3]. split; [done|]. intros k Hk. destruct (Hb3 k Hk) as [-> ->].
  assert (bal s2 fb k = if decide (id = k) then F id - amount else bal s fb k) as ->.
  { unfold bal. rewrite (amt_writes _ _ _ _ _ _ Rt H2 E2), decide_False; [|by intros [? _]%(ap_inj _ _ _ _ Ha)].
    rewrite (amt_writes _ _ _ _ _ _ Rf H1 E1). destruct (decide (id = k)) as [->|Hn]; [by rewrite decide_True|].
    rewrite decide_False; [done|]. by intros [_ ?]%(ap_inj _ _ _ _ Ha). }
  assert (bal s2 tb k = if decide (id = k) then T id + amount else bal s tb k) as ->.
  { unfold bal. rewrite (amt_writes _ _ _ _ _ _ Rt H2 E2). destruct (decide (id = k)) as [->|Hn]; [by rewrite decide_True|].
    rewrite decide_False by (by intros [_ ?]%(ap_inj _ _ _ _ Ha)).
    rewrite (amt_writes _ _ _ _ _ _ Rf H1 E1), decide_False; [done|]. intros [? _]%(ap_inj _ _ _ _ Ha); congruence. }
  destruct (last_amount k l); [done|]. case_decide; [by subst|done].
Qed.

Lemma wp_authorize from to fb tb (Q : Transfer -> ExecState -> Prop) s :
  cs_wf st (es_cs s) -> decode_address from = Ok fb -> decode_address to = Ok tb ->
  (forall t s', reads st s s' -> t_from t = fb -> t_to t = tb -> Q t s') ->
  wp (authorize st rt from to) Q (fun _ _ => True) s.
Proof.
  intros Hwf Hf Ht HQ. unfold authorize. apply wp_bind, Base.wp_current_caller; [|done]. intros f _.
  apply wp_bind, Base.wp_current_contract; [|done]. intros f' _.
  apply wp_bind. eapply wp_decode; [done|]. apply wp_bind. eapply wp_decode; [done|].
  apply wp_bind, wp_bail_if; [done|intros _]. apply wp_bind. case_bool_decide.
  - apply wp_ret, wp_bind, wp_bail_if; [done|intros _]. apply wp_ret, HQ; [by apply reads_refl|done..].
  - unfold is_approved_for_all. apply wp_bind. eapply wp_decode; [done|].
    apply wp_bind. unfold decode. apply wp_lift; [|done]. intros op _.
    wp_accessor; [done| |done]. intros s1 H1 _.
    assert (Hk : forall b, wp (bail_if (negb b) NotOwnerNorApproved;; mret (mkTransfer (cf_caller f) (cf_contract_address f') fb tb)) Q
      (fun _ _ => True) s1) by (intros b; apply wp_bind, wp_bail_if; [done|intros _]; apply wp_ret, HQ; done).
    destruct (is_zero _); [apply wp_ret, Hk|]. apply wp_bind, wp_lift; [|done]. intros v _. apply wp_ret, Hk.
Qed.

Lemma wp_batch_checks from to fb tb ids amounts s :
  cs_wf st (es_cs s) -> decode_address from = Ok fb -> decode_address to = Ok tb ->
  wp (batch_checks st rt from to ids amounts)
    (fun r s' => reads st s s' /\ length ids = length amounts /\ t_from r.1 = fb /\ t_to r.1 = tb /\
       r.2 = (fun e => (bal s fb e.1, bal s tb e.1)) <$> zip ids amounts)
    (fun _ _ => True) s.
Proof.
  intros Hwf Hf Ht. unfold batch_checks. apply wp_bind, Base.wp_is_paused; [done| |done]. intros s1 H1.
  apply wp_bind, wp_bail_if; [done|intros _]. apply wp_bind, wp_bail_if; [done|].
  intros Hlen%negb_false_iff%bool_decide_eq_true. eapply wp_bind, wp_authorize; [apply H1|done..|].
  intros t s2 H2 Htf <-. apply wp_bind.
  assert (reads st s s2) as H12 by (by etransitivity).
  eapply wp_mono; [eapply wp_batch_balances; [done|by eapply decode_address_length|apply H2]| |done].
  intros r s3 (H3 & -> & _). apply wp_ret. split; [by etransitivity|]. split_and!; try done. simpl.
  apply list_fmap_ext. intros i y _. simpl. by rewrite !(balance_reads _ _ _ _ H12).
Qed.

Lemma wp_batch_finish t ids amounts (F T : Z -> Z) s :
  cs_wf st (es_cs s) -> apart (contract_address (es_cs s)) (t_from t) (t_to t) ids -> t_from t <> t_to t ->
  Forall (Z.le 0) amounts -> (forall id, in_range U128_MAX (F id) /\ in_range U128_MAX (T id)) ->
  wp (batch_finish st t ids amounts ((fun e => (F e.1, T e.1)) <$> zip ids amounts))
    (fun _ s' => forall id, id ∈ ids ->
       bal s' (t_from t) id = match last_amount id (zip ids amounts) with Some a => F id - a | None => bal s (t_from t) id end /\
       bal s' (t_to t) id = match last_amount id (zip ids amounts) with Some a => T id + a | None => bal s (t_to t) id end)
    (fun _ _ => True) s.
Proof.
  intros Hwf Ha Hne Hp HFT. unfold batch_finish. rewrite bool_decide_eq_false_2 by done. apply wp_bind.
  eapply wp_mono; [apply (wp_batch_writes (t_from t) (t_to t) ids F T); try done| |done].
  { intros [i a] Hin. apply list_elem_of_In in Hin. split.
    - apply list_elem_of_In. by eapply in_combine_l.
    - rewrite Forall_forall in Hp. apply Hp, list_elem_of_In. by eapply in_combine_r. }
  intros ? s1 [Hw Hb]. unfold emit_transfer_batch_event. wp_accessor; [done|]. intros s2 H2 id Hid.
  rewrite !(balance_reads _ _ _ _ H2). by apply Hb.
Qed.
End Batch.

Section Frame.
Context {HexI : Hex} {HexL : HexLaws} {KeccakI : Keccak} `{U256} `{InfoBincode} (db : Root.Db) (call_contract : Call.CallContract).

Definition balance (x : Call.Exec) (a : bytes) (id : Z) : Z :=
  word_amount (view_cs (Root.as_storage db) (Call.x_cs x) (calculate_balance_slot a id)).

Lemma wp_native {A} (op : Storage -> Runtime -> X A) (Q : A -> Call.Exec -> Prop) R x :
  (let s := mkES (Call.x_cs x) (Some (Call.x_gas x)) (Calls.rt_events (Call.x_rt x)) (Calls.rt_custom_events (Call.x_rt x)) in
   wp (op (Root.as_storage db) (Calls.as_runtime (Call.x_rt x)))
     (fun a s' => forall x', Call.x_cs x' = es_cs s' -> Q a x') (fun e s' => forall x', Call.x_cs x' = es_cs s' -> R (Call.Native e) x') s) ->
  wp (Call.native db op) Q R x.
Proof. simpl. unfold wp, Call.native. intros Hw. destruct (op _ _ _) as [[a|e] s']; by apply Hw. Qed.

Lemma wp_ask receiver selector calldata gas (Q : unit -> Call.Exec -> Prop) x :
  (forall x', Call.x_cs x' = Call.x_cs x -> Q tt x') ->
  wp (ask_receiver db call_contract receiver selector calldata gas) Q (fun _ _ => True) x.
Proof.
  intros HQ. unfold ask_receiver. case_match; [by apply wp_ret, HQ|]. apply wp_bind. unfold wp at 1, Call.cross_call.
  destruct (call_contract _ _ _ _ _) as [[d|e] c]; [|done]. apply wp_bind, wp_bail_if; [done|intros _].
  apply wp_bail_if; [done|intros _]. by apply HQ.
Qed.

(** A batch transfer between two accounts, whatever the receiver's contract
    does: for every token id exactly the amount of its last entry moves.  With
    distinct ids that is every amount; of repeated ids the earlier amounts are
    checked and reported in the event but do not move. *)
Theorem batch_moves_last_amounts from to fb tb ids amounts data x x' :
  cs_wf (Root.as_storage db) (Call.x_cs x) -> decode_address from = Ok fb -> decode_address to = Ok tb -> fb <> tb ->
  apart (Root.as_storage db) (contract_address (Call.x_cs x)) fb tb ids -> Forall (Z.le 0) amounts ->
  safe_batch_transfer_from db call_contract from to ids amounts data x = (Ok tt, x') ->
  length ids = length amounts /\
  (forall id, id ∈ ids -> let moved := default 0 (last_amount id (zip ids amounts)) in
     balance x' fb id = balance x fb id - moved /\ balance x' tb id = balance x tb id + moved) /\
  (NoDup ids -> forall i id a, ids !! i = Some id -> amounts !! i = Some a ->
     last_amount id (zip ids amounts) = Some a).
Proof.
  intros Hwf Hf Ht Hne Hap Hp E.
  assert (Hw : wp (safe_batch_transfer_from db call_contract from to ids amounts data)
    (fun _ y => length ids = length amounts /\ forall id, id ∈ ids ->
       balance y fb id = match last_amount id (zip ids amounts) with Some a => balance x fb id - a | None => balance x fb id end /\
       balance y tb id = match last_amount id (zip ids amounts) with Some a => balance x tb id + a | None => balance x tb id end)
    (fun _ _ => True) x).
  { unfold safe_batch_transfer_from. apply wp_bind, wp_native. simpl. set (s0 := mkES _ _ _ _).
    eapply wp_mono; [by apply (wp_batch_checks _ _ from to fb tb ids amounts s0)| |done].
    intros [t bs] s1 (H1 & Hlen & Htf & Htt & Hbs) x1 Hx1. simpl in *. subst bs.
    unfold validate_batch_receiver. apply wp_bind, wp_ask. intros x2 Hx2. apply wp_native. simpl. set (s2 := mkES _ _ _ _).
    assert (es_cs s2 = es_cs s1) as Hs2 by (simpl; congruence).
    assert (forall a id, bal (Root.as_storage db) s2 a id = balance x a id) as Hb.
    { intros a id. unfold bal, amt, view. rewrite Hs2. fold (view (Root.as_storage db) s1 (calculate_balance_slot a id)).
      by rewrite (rd_view _ _ _ H1). }
    eapply wp_mono; [apply (wp_batch_finish _ t ids amounts (balance x fb) (balance x tb) s2)| |done].
    - rewrite Hs2. apply H1.
    - rewrite Hs2, (rd_addr _ _ _ H1), Htf, Htt. done.
    - congruence.
    - done.
    - intros id. split; apply word_amount_range.
    - intros ? s3 Hb3 x3 Hx3. split; [done|]. intros id Hid. specialize (Hb3 id Hid). rewrite Htf, Htt in Hb3.
      rewrite !Hb in Hb3. assert (forall b i, balance x3 b i = bal (Root.as_storage db) s3 b i) as Hb' by (intros b i; unfold balance; by rewrite Hx3).
      by rewrite !Hb'. }
  destruct (wp_ok _ _ _ _ _ _ Hw E) as [Hlen Hb]. split; [done|]. split.
  - intros id Hid moved. subst moved. destruct (Hb id Hid) as [-> ->]. destruct (last_amount id (zip ids amounts)); simpl; lia.
  - intros Hnd i id a Hi Ha. apply last_amount_nodup.
    + rewrite fst_zip; [done|lia].
    + apply list_elem_of_lookup. exists i. by rewrite lookup_zip_with, Hi, Ha.
Qed.
End Frame.
(** ** A concrete batch

    Alice holds ten of token 1 and sends three and four of it in one batch to
    Bob: Bob gets four. *)

#[local] Existing Instance keccak_toy.
#[local] Instance info_demo : InfoBincode := {| serialize_info := ci_code; deserialize_info := fun _ => None |}.
Import Base (alice, bob, frame_of).
Definition db0 : Root.Db := Root.mkDb ∅ ∅ ∅.
Definition silent : Call.CallContract := fun _ _ _ _ => fail Call.ContractNotFound.
Definition runtime1 : Calls.RuntimeState :=
  Calls.mkRt ∅ (Gas.new 1000000) [frame_of addr0 alice] 64 0 false [] [].
Definition frame1 : Call.Exec :=
  Call.mkExec (mkCS addr0 {[ calculate_balance_slot alice 1 := Sav20.u128_to_storage_value 10 ]} ∅) (Gas.new 1000000) runtime1.
Definition frame2 : Call.Exec :=
  snd (safe_batch_transfer_from db0 silent (hex_encode alice) (hex_encode bob) [1; 1] [3; 4] [] frame1).

Lemma batch_moves_last_amounts_witness :
  balance db0 frame1 alice 1 = 10 /\ balance db0 frame2 alice 1 = 6 /\ balance db0 frame2 bob 1 = 4.
Proof.
  split; [vm_compute; reflexivity|].
  destruct (batch_moves_last_amounts db0 silent (hex_encode alice) (hex_encode bob) alice bob [1; 1] [3; 4] [] frame1 frame2)
    as (_ & Hb & _).
  - apply cs_wf_decide; vm_compute; reflexivity.
  - vm_compute; reflexivity.
  - vm_compute; reflexivity.
  - vm_compute; discriminate.
  - split.
    + intros a b i j Ha Hb Hi Hj. assert (i = 1 /\ j = 1) as [-> ->] by set_solver.
      rewrite !elem_of_cons in Ha, Hb.
      assert (calculate_balance_slot alice 1 <> calculate_balance_slot bob 1) as Hd by (vm_compute; discriminate).
      intros E. destruct Ha as [->|[->|[]%not_elem_of_nil]], Hb as [->|[->|[]%not_elem_of_nil]];
        [split; reflexivity|destruct (Hd E)|destruct (Hd (eq_sym E))|split; reflexivity].
    + intros a i Ha Hi. assert (i = 1) as -> by set_solver. rewrite !elem_of_cons in Ha.
      destruct Ha as [->|[->|[]%not_elem_of_nil]]; vm_compute; reflexivity.
  - by repeat constructor.
  - vm_compute; reflexivity.
  - exact (Hb 1 ltac:(by left)).
Defined.
End Sav1155C.
