(* ===== verification/Savnft.v ===== *)
(** * SAVNFT: the extended non-fungible token

    [Savitri-contracts/src/contracts/standards/savnft.rs], every function:
    names, minting with a URI, operators, transfers with the check of the
    receiver, enumeration and burning.  The words of the base contract, the
    reading of a URI and the loading of an owner are those of the other
    standards; the slots here are checked against the reserved ones. *)

From S2P Require Import Prelude Gas ContractStorage Codec BaseContract Savitri20.
From S2P Require Import Savitri721 Account CallStack Fee Evm StorageRoot Abi CallExec.
From Stdlib Require Import Strings.Byte.
Import CS.

Module Nft.

Definition SLOT_TOKEN_OWNERS_BASE : Z := 100.
Definition SLOT_TOKEN_BALANCES_BASE : Z := 200.
Definition SLOT_TOKEN_APPROVALS_BASE : Z := 300.
Definition SLOT_TOKEN_URIS_BASE : Z := 400.
Definition SLOT_OPERATOR_APPROVALS_BASE : Z := 500.
Definition SLOT_NAME_BASE : Z := 600.
Definition SLOT_SYMBOL_BASE : Z := 700.
Definition SLOT_TOTAL_SUPPLY : Z := 800.
Definition SLOT_ENUMERATION_ENABLED : Z := 900.
Definition SLOT_ALL_TOKENS_BASE : Z := 1000.
Definition SLOT_OWNER_TOKENS_BASE : Z := 2000.
Definition SLOT_BURN_ENABLED : Z := 3000.

(** [.unwrap_or(d)] on a storage operation. *)
Definition unwrap_or {A} (m : X A) (d : A) : X A := fun s =>
  match m s with (Ok a, s') => (Ok a, s') | (Err _, s') => (Ok d, s') end.

Record TokenInfo := mkInfo { ti_exists : bool; ti_owner : string; ti_uri : bytes; ti_approved : string }.

Section Ops.
Context `{Hex} `{Keccak} (st : Storage) (rt : Runtime).

(** [BaseContract::validate_slot_not_reserved(slot)?; Ok(slot)]. *)
Definition unreserved (slot : Z) : X Z :=
  bail_if (is_reserved_slot slot) (ReservedSlot slot);; mret slot.

Definition token_owner_slot (token_id : Z) : X Z :=
  unreserved (hash_slot (keccak256 (to_le_bytes 8 token_id ++ to_le_bytes 8 SLOT_TOKEN_OWNERS_BASE))).
Definition owner_balance_slot (owner : bytes) : X Z :=
  unreserved (hash_slot (keccak256 (owner ++ to_le_bytes 8 SLOT_TOKEN_BALANCES_BASE))).
Definition token_approval_slot (token_id : Z) : X Z :=
  unreserved (hash_slot (keccak256 (to_le_bytes 8 token_id ++ to_le_bytes 8 SLOT_TOKEN_APPROVALS_BASE))).
Definition token_uri_base_slot (token_id : Z) : X Z :=
  slot ← lift (ok_or (checked_add U64_MAX SLOT_TOKEN_URIS_BASE token_id) Overflow); unreserved slot.
Definition operator_approval_slot (owner operator : bytes) : X Z :=
  unreserved (hash_slot (keccak256 (owner ++ operator ++ to_le_bytes 8 SLOT_OPERATOR_APPROVALS_BASE))).

Definition emit_transfer_event (contract from to : bytes) (token_id : Z) : X unit :=
  emit_custom_event {|
    ev_contract_address := hex_encode contract;
    ev_name := "Transfer";
    ev_topics := [keccak256 (bytes_of_string "Transfer(address,address,uint256)"); from; to];
    ev_data := Base.u64_to_storage_value token_id |}.
Definition emit_approval_event (contract owner approved : bytes) (token_id : Z) : X unit :=
  emit_custom_event {|
    ev_contract_address := hex_encode contract;
    ev_name := "Approval";
    ev_topics := [keccak256 (bytes_of_string "Approval(address,address,uint256)"); owner; approved];
    ev_data := Base.u64_to_storage_value token_id |}.
Definition emit_approval_for_all_event (contract owner operator : bytes) (approved : bool) : X unit :=
  emit_custom_event {|
    ev_contract_address := hex_encode contract;
    ev_name := "ApprovalForAll";
    ev_topics := [keccak256 (bytes_of_string "ApprovalForAll(address,address,bool)"); owner; operator];
    ev_data := Base.bool_to_storage_value approved |}.

(** *** Strings *)

(** The loop over the chunks of a URI, from [slot_offset] on. *)
Fixpoint write_uri_chunks (base slot_offset : Z) (l : list bytes) : X unit :=
  match l with
  | [] => mret tt
  | c :: r =>
      slot ← lift (ok_or (checked_add U64_MAX base slot_offset) Overflow);
      slot ← unreserved slot;
      sstore st slot (Sav20.pad32 c);;
      next ← lift (ok_or (checked_add U64_MAX slot_offset 1) Overflow);
      write_uri_chunks base next r
  end.
Definition first_slot (uri : bytes) : bytes :=
  to_le_bytes 8 (Z.of_nat (length uri)) ++ take 24 uri ++ zeros (24 - length uri).
Definition write_uri_to_storage (base_slot : Z) (uri : bytes) : X unit :=
  sstore st base_slot (first_slot uri);;
  if (length uri <=? 24)%nat then mret tt
  else write_uri_chunks base_slot 1 (Sav20.chunks (drop 24 uri)).
Definition read_uri_from_storage (base_slot : Z) : X bytes := Sav721.read_uri_from_storage st base_slot.

Definition set_name (name : bytes) : X unit := write_uri_to_storage SLOT_NAME_BASE name.
Definition name : X bytes := read_uri_from_storage SLOT_NAME_BASE.
Definition set_symbol (symbol : bytes) : X unit := write_uri_to_storage SLOT_SYMBOL_BASE symbol.
Definition symbol : X bytes := read_uri_from_storage SLOT_SYMBOL_BASE.

Definition initialize (owner : bytes) (name symbol : option bytes) (enumeration burn : option bool) : X unit :=
  bail_if (negb (bool_decide (length owner = 32%nat))) (InvalidAddressLength (length owner));;
  Base.initialize st owner;;
  set_name (default (bytes_of_string "SAVNFT") name);;
  set_symbol (default (bytes_of_string "SAVNFT") symbol);;
  sstore st SLOT_TOTAL_SUPPLY (Base.u64_to_storage_value 0);;
  let enumeration := default false enumeration in
  sstore st SLOT_ENUMERATION_ENABLED (Base.bool_to_storage_value enumeration);;
  (if (enumeration : bool) then sstore st SLOT_ALL_TOKENS_BASE (Base.u64_to_storage_value 0) else mret tt);;
  sstore st SLOT_BURN_ENABLED (Base.bool_to_storage_value (default false burn)).

(** *** Guards *)

Definition load_u64 (slot : Z) : X Z := Sav721.load_u64 st slot.
Definition store_u64 (slot v : Z) : X unit := Sav721.store_u64 st slot v.

Definition total_supply : X Z := load_u64 SLOT_TOTAL_SUPPLY.
Definition only_owner : X unit :=
  caller ← Base.current_caller rt;
  owner ← Base.get_owner st;
  bail_if (negb (bool_decide (caller = owner))) OnlyOwner.
Definition when_not_paused : X unit := p ← Base.is_paused st; bail_if p Paused.
Definition is_paused : X bool := Base.is_paused st.
Definition only_burnable : X unit :=
  v ← sload st SLOT_BURN_ENABLED; bail_if (negb (Base.storage_value_to_bool v)) BurnDisabled.
Definition owner : X bytes := Base.get_owner st.
Definition transfer_ownership (new_owner : bytes) : X bool :=
  only_owner;; Base.transfer_ownership st rt new_owner.
Definition pause : X bool := Base.pause st rt.
Definition unpause : X bool := Base.unpause st rt.
Definition version : X Z := Base.get_version st.

(** *** Reads *)

Definition balance_of (owner : string) : X Z :=
  o ← Sav20.decode owner;
  bail_if (bool_decide (o = zeros 32)) ZeroAddress;;
  slot ← owner_balance_slot o;
  load_u64 slot.

(** The owner of a token that exists. *)
Definition load_owner (token_id : Z) : X bytes :=
  slot ← token_owner_slot token_id;
  v ← sload st slot;
  bail_if (is_zero v) NoSuchToken;;
  lift (Sav721.storage_value_to_address v).
Definition owner_of (token_id : Z) : X string := o ← load_owner token_id; mret (Sav721.encode_address o).

Definition get_approved (token_id : Z) : X (option string) :=
  owner_slot ← token_owner_slot token_id;
  owner_value ← sload st owner_slot;
  bail_if (is_zero owner_value) NoSuchToken;;
  slot ← token_approval_slot token_id;
  v ← sload st slot;
  if is_zero v then mret None
  else a ← lift (Sav721.storage_value_to_address v); mret (Some (Sav721.encode_address a)).

Definition is_approved_for_all (owner operator : string) : X bool :=
  o ← Sav20.decode owner;
  p ← Sav20.decode operator;
  slot ← operator_approval_slot o p;
  v ← sload st slot;
  mret (Base.storage_value_to_bool v).

(** *** Enumeration *)

Definition is_enumeration_enabled : X bool :=
  v ← sload st SLOT_ENUMERATION_ENABLED; mret (Base.storage_value_to_bool v).

Definition array_element_slot (base index : Z) : X Z :=
  lift (ok_or (checked_add U64_MAX (hash_slot (keccak256 (to_le_bytes 8 base))) index) Overflow).
Definition get_array_length (base : Z) : X Z := load_u64 base.
Definition set_array_length (base length : Z) : X unit := store_u64 base length.
Definition get_array_element (base index : Z) : X Z := slot ← array_element_slot base index; load_u64 slot.
Definition set_array_element (base index value : Z) : X unit :=
  slot ← array_element_slot base index; store_u64 slot value.

(** [add_to_all_tokens] and [add_to_owner_tokens] after their base slot. *)
Definition array_push (base token_id : Z) : X unit :=
  length ← get_array_length base;
  set_array_element base length token_id;;
  set_array_length base (wrap U64_MAX (length + 1)).

(** [for i in 0..length]: the first index that holds the token. *)
Fixpoint array_find (base token_id i : Z) (n : nat) : X (option Z) :=
  match n with
  | O => mret None
  | S n =>
      e ← get_array_element base i;
      if e =? token_id then mret (Some i) else array_find base token_id (i + 1) n
  end.

(** [remove_from_all_tokens] and [remove_from_owner_tokens] after their base
    slot: the last element takes the place of the removed one. *)
Definition array_remove (base token_id : Z) : X unit :=
  length ← get_array_length base;
  if length =? 0 then mret tt
  else
    found ← array_find base token_id 0 (Z.to_nat length);
    match found with
    | None => mret tt
    | Some index =>
        (if index <? length - 1 then
           last ← get_array_element base (length - 1);
           set_array_element base index last
         else mret tt);;
        set_array_length base (length - 1)
    end.

Definition owner_tokens_base_slot (owner : bytes) : Z :=
  hash_slot (keccak256 (owner ++ to_le_bytes 8 SLOT_OWNER_TOKENS_BASE)).
Definition add_to_all_tokens (token_id : Z) : X unit := array_push SLOT_ALL_TOKENS_BASE token_id.
Definition remove_from_all_tokens (token_id : Z) : X unit := array_remove SLOT_ALL_TOKENS_BASE token_id.
Definition add_to_owner_tokens (owner : bytes) (token_id : Z) : X unit :=
  array_push (owner_tokens_base_slot owner) token_id.
Definition remove_from_owner_tokens (owner : bytes) (token_id : Z) : X unit :=
  array_remove (owner_tokens_base_slot owner) token_id.

(** The bounds check and the read of both index functions. *)
Definition array_at (base index : Z) : X Z :=
  length ← get_array_length base;
  bail_if (length <=? index) (IndexOutOfBounds index length);;
  get_array_element base index.
Definition token_by_index (index : Z) : X Z :=
  enabled ← is_enumeration_enabled;
  bail_if (negb enabled) EnumerationDisabled;;
  array_at SLOT_ALL_TOKENS_BASE index.
Definition token_of_owner_by_index (owner : string) (index : Z) : X Z :=
  enabled ← is_enumeration_enabled;
  bail_if (negb enabled) EnumerationDisabled;;
  o ← Sav20.decode owner;
  bail_if (bool_decide (o = zeros 32)) ZeroAddress;;
  array_at (owner_tokens_base_slot o) index.

(** *** Minting *)

(** The approval of a token is cleared when there is one. *)
Definition clear_approval (slot : Z) (value : bytes) : X unit :=
  if is_zero value then mret tt else sstore st slot (zeros 32).

Definition mint (to : string) (token_id : Z) (uri : option bytes) : X unit :=
  when_not_paused;;
  only_owner;;
  to_bytes ← Sav20.decode to;
  bail_if (bool_decide (to_bytes = zeros 32)) ZeroAddress;;
  owner_slot ← token_owner_slot token_id;
  current ← sload st owner_slot;
  bail_if (negb (is_zero current)) TokenExists;;
  contract ← Base.current_contract rt;
  sstore st owner_slot to_bytes;;
  balance_slot ← owner_balance_slot to_bytes;
  balance ← load_u64 balance_slot;
  new_balance ← lift (ok_or (checked_add U64_MAX balance 1) Overflow);
  store_u64 balance_slot new_balance;;
  match uri with
  | Some ((_ :: _) as uri) => slot ← token_uri_base_slot token_id; write_uri_to_storage slot uri
  | _ => mret tt
  end;;
  approval_slot ← token_approval_slot token_id;
  approval ← sload st approval_slot;
  clear_approval approval_slot approval;;
  supply ← load_u64 SLOT_TOTAL_SUPPLY;
  new_supply ← lift (ok_or (checked_add U64_MAX supply 1) Overflow);
  store_u64 SLOT_TOTAL_SUPPLY new_supply;;
  enabled ← unwrap_or is_enumeration_enabled false;
  (if (enabled : bool) then add_to_all_tokens token_id;; add_to_owner_tokens to_bytes token_id else mret tt);;
  emit_transfer_event contract (zeros 32) to_bytes token_id.

(** *** Transfers *)

(** The writes of a transfer between two different accounts. *)
Definition move_token (owner_slot approval_slot : Z) (approval from to : bytes) (token_id : Z) : X unit :=
  sstore st owner_slot to;;
  clear_approval approval_slot approval;;
  from_slot ← owner_balance_slot from;
  from_balance ← load_u64 from_slot;
  new_from ← lift (ok_or (checked_sub from_balance 1) Underflow);
  store_u64 from_slot new_from;;
  to_slot ← owner_balance_slot to;
  to_balance ← load_u64 to_slot;
  new_to ← lift (ok_or (checked_add U64_MAX to_balance 1) Overflow);
  store_u64 to_slot new_to;;
  enabled ← unwrap_or is_enumeration_enabled false;
  if (enabled : bool) then remove_from_owner_tokens from token_id;; add_to_owner_tokens to token_id else mret tt.

Definition transfer_from (from to : string) (token_id : Z) : X unit :=
  when_not_paused;;
  caller ← Base.current_caller rt;
  from_bytes ← Sav20.decode from;
  to_bytes ← Sav20.decode to;
  bail_if (bool_decide (to_bytes = zeros 32)) ZeroAddress;;
  owner_slot ← token_owner_slot token_id;
  owner_value ← sload st owner_slot;
  bail_if (is_zero owner_value) NoSuchToken;;
  token_owner ← lift (Sav721.storage_value_to_address owner_value);
  bail_if (negb (bool_decide (token_owner = from_bytes))) NotTokenOwner;;
  approval_slot ← token_approval_slot token_id;
  approval ← sload st approval_slot;
  is_approved ← (if is_zero approval then mret false
                 else a ← lift (Sav721.storage_value_to_address approval); mret (bool_decide (caller = a)));
  is_operator ← unwrap_or (is_approved_for_all (Sav721.encode_address token_owner) (Sav721.encode_address caller)) false;
  bail_if (negb (bool_decide (caller = token_owner)) && negb is_approved && negb is_operator) NotOwnerNorApproved;;
  contract ← Base.current_contract rt;
  (if bool_decide (from_bytes = to_bytes) then mret tt
   else move_token owner_slot approval_slot approval from_bytes to_bytes token_id);;
  emit_transfer_event contract from_bytes to_bytes token_id.

(** *** Approvals *)

Definition approve (approved : string) (token_id : Z) : X unit :=
  when_not_paused;;
  caller ← Base.current_caller rt;
  token_owner ← load_owner token_id;
  is_operator ← (if bool_decide (caller = token_owner) then mret false
                 else unwrap_or (is_approved_for_all (Sav721.encode_address token_owner) (Sav721.encode_address caller)) false);
  bail_if (negb (bool_decide (caller = token_owner)) && negb is_operator) NotOwnerNorApproved;;
  a ← Sav20.decode approved;
  bail_if (bool_decide (a = token_owner)) CannotApproveOwner;;
  contract ← Base.current_contract rt;
  slot ← token_approval_slot token_id;
  sstore st slot a;;
  emit_approval_event contract token_owner a token_id.

Definition set_approval_for_all (operator : string) (approved : bool) : X unit :=
  when_not_paused;;
  owner ← Base.current_caller rt;
  op ← Sav20.decode operator;
  bail_if (bool_decide (op = owner)) OperatorIsOwner;;
  contract ← Base.current_contract rt;
  slot ← operator_approval_slot owner op;
  sstore st slot (Base.bool_to_storage_value approved);;
  emit_approval_for_all_event contract owner op approved.

(** *** URIs *)

Definition set_token_uri (token_id : Z) (uri : bytes) : X unit :=
  when_not_paused;;
  caller ← Base.current_caller rt;
  token_owner ← load_owner token_id;
  contract_owner ← Base.get_owner st;
  bail_if (negb (bool_decide (caller = token_owner)) && negb (bool_decide (caller = contract_owner))) NotOwnerNorApproved;;
  slot ← token_uri_base_slot token_id;
  write_uri_to_storage slot uri.

Definition token_uri (token_id : Z) : X bytes :=
  owner_slot ← token_owner_slot token_id;
  owner_value ← sload st owner_slot;
  bail_if (is_zero owner_value) NoSuchToken;;
  slot ← token_uri_base_slot token_id;
  read_uri_from_storage slot.

(** *** Burning *)

Definition burn (token_id : Z) : X unit :=
  when_not_paused;;
  only_burnable;;
  caller ← Base.current_caller rt;
  owner_slot ← token_owner_slot token_id;
  owner_value ← sload st owner_slot;
  bail_if (is_zero owner_value) NoSuchToken;;
  token_owner ← lift (Sav721.storage_value_to_address owner_value);
  contract_owner ← Base.get_owner st;
  bail_if (negb (bool_decide (caller = token_owner)) && negb (bool_decide (caller = contract_owner))) NotOwnerNorApproved;;
  contract ← Base.current_contract rt;
  sstore st owner_slot (zeros 32);;
  balance_slot ← owner_balance_slot token_owner;
  balance ← load_u64 balance_slot;
  new_balance ← lift (ok_or (checked_sub balance 1) Underflow);
  store_u64 balance_slot new_balance;;
  approval_slot ← token_approval_slot token_id;
  approval ← sload st approval_slot;
  clear_approval approval_slot approval;;
  uri_slot ← token_uri_base_slot token_id;
  uri ← unwrap_or (read_uri_from_storage uri_slot) [];
  (if bool_decide (uri = []) then mret tt else write_uri_to_storage uri_slot []);;
  supply ← load_u64 SLOT_TOTAL_SUPPLY;
  new_supply ← lift (ok_or (checked_sub supply 1) Underflow);
  store_u64 SLOT_TOTAL_SUPPLY new_supply;;
  enabled ← unwrap_or is_enumeration_enabled false;
  (if (enabled : bool) then remove_from_all_tokens token_id;; remove_from_owner_tokens token_owner token_id else mret tt);;
  emit_transfer_event contract token_owner (zeros 32) token_id.

(** *** Helpers for callers *)

(** The owner word of a token, zero when it does not exist. *)
Definition owner_word (token_id : Z) : X bytes :=
  slot ← token_owner_slot token_id;
  v ← sload st slot;
  lift (Sav721.storage_value_to_address v).
Definition exists_ (token_id : Z) : X bool := a ← owner_word token_id; mret (negb (bool_decide (a = zeros 32))).
Definition balance_of_u64 (owner : string) : X Z :=
  o ← Sav20.decode owner; slot ← owner_balance_slot o; load_u64 slot.
Definition is_approved_for_all_bool (owner operator : string) : X bool := is_approved_for_all owner operator.
Definition get_approved_hex (token_id : Z) : X string :=
  a ← get_approved token_id; mret (default "" a)%string.
Definition owner_of_hex (token_id : Z) : X string := a ← owner_word token_id; mret (Sav721.encode_address a).
Fixpoint batch_exists (l : list Z) : X (list bool) :=
  match l with
  | [] => mret []
  | t :: l => b ← exists_ t; r ← batch_exists l; mret (b :: r)
  end.
Definition get_token_info (token_id : Z) : X TokenInfo :=
  e ← exists_ token_id;
  if negb e then mret (mkInfo false "" [] "")
  else
    owner ← owner_of_hex token_id;
    uri ← token_uri token_id;
    approved ← get_approved_hex token_id;
    mret (mkInfo true owner uri approved).
End Ops.

(** *** Safe transfers *)

Section Calls.
Context `{Hex} `{Keccak} `{U256} `{InfoBincode} (db : Root.Db).
Variable call_contract : Call.CallContract.

(** [validate_receiver] is that of SAVITRI-721. *)
Definition safe_transfer_from_with_data (from to : string) (token_id : Z) (data : bytes) : Call.XM unit :=
  from_bytes ← Call.native db (fun st rt => Sav20.decode from);
  to_bytes ← Call.native db (fun st rt => Sav20.decode to);
  bail_if (bool_decide (to_bytes = zeros 32)) (Call.Native ZeroAddress);;
  operator ← Call.native db (fun st rt => Base.current_caller rt);
  Call.validate_receiver db call_contract to_bytes operator from_bytes token_id data;;
  Call.native db (fun st rt => transfer_from st rt from to token_id).
Definition safe_transfer_from (from to : string) (token_id : Z) : Call.XM unit :=
  safe_transfer_from_with_data from to token_id [].
End Calls.

End Nft.
