(* ===== verification/SavnftCorrect.v ===== *)
(** * What SAVNFT promises

    The arrays of the enumeration implement lists: a push appends, a removal
    swaps the last element in, and the loop that searches them ends.  The URI
    slots are not hashed, so the URIs of some tokens are the counters and flags
    of the contract, and long URIs run into the next token's. *)

From S2P Require Import Prelude Gas ContractStorage Codec BaseContract Savitri20 Savitri20Correct.
From S2P Require Import Savitri721 Savnft.
From Stdlib Require Import Strings.Byte.
Import CS.

Module NftC.
Import Nft.

(** ** Lists *)

(** What [array_remove] makes of the list: the last element replaces the
    first occurrence. *)
Definition remove_swap (t : Z) (l : list Z) : list Z :=
  match list_find (fun x => x = t) l with
  | None => l
  | Some (i, _) => take (length l - 1) (<[i := List.last l 0]> l)
  end.

Lemma remove_swap_not_in t l : t ∉ l -> remove_swap t l = l.
Proof.
  intros Hn. unfold remove_swap. destruct (list_find _ l) as [[i x]|] eqn:E; [|done].
  apply list_find_Some in E as (Hi & -> & _). by apply list_elem_of_lookup_2 in Hi.
Qed.

Lemma remove_swap_perm t l : t ∈ l -> t :: remove_swap t l ≡ₚ l.
Proof.
  intros Hin. unfold remove_swap. destruct (list_find _ l) as [[i x]|] eqn:E.
  - apply list_find_Some in E as (Hi & -> & _). destruct l as [|y l _] using rev_ind; [done|].
    rewrite List.last_last, length_app. simpl. replace (length l + 1 - 1)%nat with (length l) by lia.
    destruct (decide (i < length l)%nat) as [Hl|Hl].
    + rewrite insert_app_l by done. rewrite take_app_le by (by rewrite length_insert).
      rewrite take_ge by (by rewrite length_insert). rewrite lookup_app_l in Hi by done.
      rewrite (delete_Permutation l i t Hi) at 2. rewrite insert_take_drop by done.
      rewrite (delete_take_drop l i). rewrite <- Permutation_middle. simpl.
      rewrite <- (Permutation_cons_append _ y). constructor. by constructor.
    + apply lookup_lt_Some in Hi as Hlt. rewrite length_app in Hlt. simpl in Hlt. assert (i = length l) as -> by lia.
      rewrite lookup_app_r, Nat.sub_diag in Hi by done. injection Hi as ->.
      rewrite insert_app_r_alt, Nat.sub_diag by done. simpl. rewrite take_app_le, take_ge by done.
      by rewrite Permutation_cons_append.
  - apply list_find_None in E. exfalso. rewrite Forall_forall in E. by eapply E.
Qed.

(** ** Arrays in storage *)

Section Arrays.
Context `{Hex} `{Keccak} (st : Storage).
Local Abbreviation word64 := Sav721.word64.

Definition elem_slot (base : Z) (i : nat) : Z := hash_slot (keccak256 (to_le_bytes 8 base)) + Z.of_nat i.

(** The slots of an array of at most [n] elements: free and distinct. *)
Record space (addr : bytes) (base : Z) (n : nat) : Prop := {
  sp_fits : hash_slot (keccak256 (to_le_bytes 8 base)) + Z.of_nat n <= U64_MAX;
  sp_base : is_reserved_slot base = false;
  sp_elem : forall i, (i < n)%nat -> is_reserved_slot (elem_slot base i) = false /\ elem_slot base i <> base;
}.

(** Storing the list [l] loses no zero: it is empty only if no length is
    persisted, and holds token 0 only if no element is. *)
Definition lasting (addr : bytes) (base : Z) (n : nat) (l : list Z) : Prop :=
  (l = [] -> word64 (db_value st addr base) = 0) /\
  (0 ∈ l -> forall i, (i < n)%nat -> word64 (db_value st addr (elem_slot base i)) = 0).

Record is_array (base : Z) (l : list Z) (s : ExecState) : Prop := {
  ar_length : word64 (view st s base) = Z.of_nat (length l);
  ar_elem : forall i x, l !! i = Some x -> word64 (view st s (elem_slot base i)) = x;
}.

Lemma word64_writes slot v s s' k :
  in_range U64_MAX v -> writes st slot (Base.u64_to_storage_value v) s s' ->
  (v = 0 -> word64 (db_value st (contract_address (es_cs s)) slot) = 0) ->
  word64 (view st s' k) = if decide (k = slot) then v else word64 (view st s k).
Proof.
  intros Hv Hw Hd. rewrite (wr_view _ _ _ _ _ Hw). case_decide; [|done]. unfold stored.
  rewrite Sav721.is_zero_value64 by done. destruct (Z.eqb_spec v 0) as [->|]; [by apply Hd|]. by apply Sav721.word64_value.
Qed.

Lemma wp_store64 slot v (Q : unit -> ExecState -> Prop) R s :
  cs_wf st (es_cs s) -> is_reserved_slot slot = false ->
  (forall s', writes st slot (Base.u64_to_storage_value v) s s' -> Q tt s') ->
  (forall e s', reads st s s' -> fallible st s -> R e s') -> wp (store_u64 st slot v) Q R s.
Proof.
  intros Hwf Hr HQ HR. unfold store_u64, Sav721.store_u64. wp_accessor; [done|apply Base.length_u64_value|by auto|].
  intros e s' ? [Hf|Hf]; [by eapply HR|congruence].
Qed.

Lemma is_array_reads base l s s' : reads st s s' -> is_array base l s -> is_array base l s'.
Proof. intros Hr [H1 H2]. split; intros; rewrite (rd_view _ _ _ Hr); auto. Qed.

Lemma elem_slot_inj base i j : elem_slot base i = elem_slot base j -> i = j.
Proof. unfold elem_slot. lia. Qed.

Lemma wp_elem_slot base i n (Q : Z -> ExecState -> Prop) R s :
  space (contract_address (es_cs s)) base n -> 0 <= i < Z.of_nat n ->
  Q (elem_slot base (Z.to_nat i)) s -> wp (array_element_slot base i) Q R s.
Proof.
  intros Hs Hi HQ. unfold array_element_slot. pose proof (sp_fits _ _ _ Hs).
  apply wp_lift.
  - intros a [-> _]%ok_or_Ok%checked_add_Some. unfold elem_slot in HQ. by rewrite Z2Nat.id in HQ by lia.
  - intros e [Hn%checked_add_None _]%ok_or_Err. pose proof (hash_slot_range (keccak256 (to_le_bytes 8 base))). mlia.
Qed.

(** The state after a run that failed for lack of gas or in the database. *)
Lemma wp_get_element base i l n (Q : Z -> ExecState -> Prop) R s :
  cs_wf st (es_cs s) -> space (contract_address (es_cs s)) base n -> is_array base l s ->
  (length l <= n)%nat -> 0 <= i < Z.of_nat (length l) ->
  (forall s' x, reads st s s' -> l !! Z.to_nat i = Some x -> Q x s') ->
  (forall e s', reads st s s' -> fallible st s -> R e s') -> wp (get_array_element st base i) Q R s.
Proof.
  intros Hwf Hs Ha Hn Hi HQ HR. unfold get_array_element. eapply wp_bind, wp_elem_slot; [done|lia|].
  apply Sav721.wp_load_u64; [done| |done]. intros s' Hr.
  destruct (lookup_lt_is_Some_2 l (Z.to_nat i)) as [x Hx]; [lia|]. rewrite (ar_elem _ _ _ Ha _ _ Hx). by apply HQ.
Qed.

Lemma wp_find base t l n k i (Q : option Z -> ExecState -> Prop) R s :
  cs_wf st (es_cs s) -> space (contract_address (es_cs s)) base n -> is_array base l s ->
  (length l <= n)%nat -> (i + k = length l)%nat ->
  (forall s', reads st s s' ->
    Q (match list_find (fun x => x = t) (drop i l) with Some (j, _) => Some (Z.of_nat (i + j)) | None => None end) s') ->
  (forall e s', reads st s s' -> fallible st s -> R e s') ->
  wp (array_find st base t (Z.of_nat i) k) Q R s.
Proof.
  revert i s. induction k as [|k IH]; intros i s Hwf Hs Ha Hn Hk HQ HR; simpl.
  - apply wp_ret. rewrite drop_ge in HQ by lia. apply HQ. by apply reads_refl.
  - eapply wp_bind, wp_get_element; [done..|lia| |done]. intros s' x Hr Hx. rewrite Nat2Z.id in Hx.
    rewrite (drop_S _ _ _ Hx) in HQ. simpl in HQ. destruct (Z.eqb_spec x t) as [->|Hne].
    + apply wp_ret. specialize (HQ _ Hr). rewrite decide_True in HQ by done. by rewrite Nat.add_0_r in HQ.
    + replace (Z.of_nat i + 1) with (Z.of_nat (S i)) by lia. apply IH; [apply Hr| | |done|lia| |].
      * by rewrite (rd_addr _ _ _ Hr).
      * by eapply is_array_reads.
      * intros s2 H2. specialize (HQ s2). rewrite decide_False in HQ by done.
        destruct (list_find (fun x0 => x0 = t) (drop (S i) l)) as [[j y]|]; simpl in *;
          [replace (S (i + j)) with (i + S j)%nat by lia|]; apply HQ; by etransitivity.
      * intros e s2 H2 Hf. apply HR; [by etransitivity|]. by eapply reads_fallible.
Qed.

(** [s'] differs from [s] in slots of the array only. *)
Record updates (base : Z) (n : nat) (s s' : ExecState) : Prop := {
  up_wf : cs_wf st (es_cs s');
  up_addr : contract_address (es_cs s') = contract_address (es_cs s);
  up_gas : es_gas s = None <-> es_gas s' = None;
  up_view : forall k, k <> base -> (forall i, (i < n)%nat -> k <> elem_slot base i) -> view st s' k = view st s k;
}.
Lemma updates_reads base n s s' : reads st s s' -> updates base n s s'.
Proof. intros []. by split. Qed.
Lemma updates_writes base n slot v s s' :
  (slot = base \/ exists i, (i < n)%nat /\ slot = elem_slot base i) -> writes st slot v s s' -> updates base n s s'.
Proof.
  intros Hs Hw. split; [apply Hw..|]. intros k Hb Hk. rewrite (wr_view _ _ _ _ _ Hw). case_decide; [|done]. subst k.
  destruct Hs as [->|(i & Hi & ->)]; [done|by destruct (Hk i Hi)].
Qed.
#[global] Instance updates_trans base n : Transitive (updates base n).
Proof.
  intros a b c [] []. split; [done|congruence|by etransitivity|]. intros k Hb Hk. rewrite up_view1 by done. by apply up_view0.
Qed.
Lemma updates_fallible base n s s' : updates base n s s' -> fallible st s' -> fallible st s.
Proof. intros []. unfold fallible. rewrite up_addr0. tauto. Qed.

Lemma is_array_set base (l : list Z) n i v s s' :
  space (contract_address (es_cs s)) base n -> is_array base l s -> (length l <= n)%nat -> (i < n)%nat ->
  in_range U64_MAX v -> (v = 0 -> word64 (db_value st (contract_address (es_cs s)) (elem_slot base i)) = 0) ->
  writes st (elem_slot base i) (Base.u64_to_storage_value v) s s' ->
  word64 (view st s' base) = Z.of_nat (length l) /\
  forall j x, <[i := v]> l !! j = Some x -> word64 (view st s' (elem_slot base j)) = x.
Proof.
  intros Hs Ha Hl Hi Hv Hd Hw. destruct (sp_elem _ _ _ Hs i Hi) as (_ & Hne).
  split; [rewrite (word64_writes _ _ _ _ _ Hv Hw Hd), decide_False by done; apply Ha|].
  intros j x Hj. rewrite (word64_writes _ _ _ _ _ Hv Hw Hd). case_decide as Hij.
  - apply elem_slot_inj in Hij as ->. apply list_lookup_insert_Some in Hj. naive_solver.
  - rewrite list_lookup_insert_ne in Hj by congruence. by apply Ha.
Qed.

Lemma wp_set_element base n i v (Q : unit -> ExecState -> Prop) R s :
  cs_wf st (es_cs s) -> space (contract_address (es_cs s)) base n -> 0 <= i < Z.of_nat n ->
  (forall s', writes st (elem_slot base (Z.to_nat i)) (Base.u64_to_storage_value v) s s' -> Q tt s') ->
  (forall e s', reads st s s' -> fallible st s -> R e s') -> wp (set_array_element st base i v) Q R s.
Proof.
  intros Hwf Hs Hi HQ HR. unfold set_array_element. eapply wp_bind, wp_elem_slot; [done|done|].
  apply wp_store64; [done| |done|done]. apply (sp_elem _ _ _ Hs). lia.
Qed.

Lemma wp_set_length base n v (Q : unit -> ExecState -> Prop) R s :
  cs_wf st (es_cs s) -> space (contract_address (es_cs s)) base n ->
  (forall s', writes st base (Base.u64_to_storage_value v) s s' -> Q tt s') ->
  (forall e s', reads st s s' -> fallible st s -> R e s') -> wp (set_array_length st base v) Q R s.
Proof. intros Hwf Hs. apply wp_store64; [done|apply Hs]. Qed.

(** Setting the length to that of [l'], whose elements are in place. *)
Lemma is_array_length base n (l' : list Z) v s s' :
  space (contract_address (es_cs s)) base n -> lasting (contract_address (es_cs s)) base n l' ->
  (length l' <= n)%nat -> v = Z.of_nat (length l') ->
  (forall j x, l' !! j = Some x -> word64 (view st s (elem_slot base j)) = x) ->
  writes st base (Base.u64_to_storage_value v) s s' -> is_array base l' s'.
Proof.
  intros Hs [Hz _] Hl -> He Hw. pose proof (sp_fits _ _ _ Hs) as Hfits. pose proof (hash_slot_range (keccak256 (to_le_bytes 8 base))) as Hhash.
  assert (in_range U64_MAX (Z.of_nat (length l'))) as Hv by mlia.
  assert (Z.of_nat (length l') = 0 -> word64 (db_value st (contract_address (es_cs s)) base) = 0) as Hd
    by (intros; apply Hz, length_zero_iff_nil; lia).
  split; [by rewrite (word64_writes _ _ _ _ _ Hv Hw Hd), decide_True|].
  intros j x Hj. rewrite (word64_writes _ _ _ _ _ Hv Hw Hd). rewrite decide_False; [by apply He|].
  apply (sp_elem _ _ _ Hs). apply lookup_lt_Some in Hj. lia.
Qed.

Lemma wp_array_push base l n t s :
  cs_wf st (es_cs s) -> space (contract_address (es_cs s)) base n -> is_array base l s ->
  (length l < n)%nat -> in_range U64_MAX t -> lasting (contract_address (es_cs s)) base n (l ++ [t]) ->
  wp (array_push st base t) (fun _ s' => is_array base (l ++ [t]) s' /\ updates base n s s')
    (fun _ _ => fallible st s) s.
Proof.
  intros Hwf Hs Ha Hn Ht Hla. unfold array_push, get_array_length.
  apply wp_bind, Sav721.wp_load_u64; [done| |done]. intros s1 H1. rewrite (ar_length _ _ _ Ha).
  assert (space (contract_address (es_cs s1)) base n) as Hs1 by (by rewrite (rd_addr _ _ _ H1)).
  eapply wp_bind, (wp_set_element base n); [apply H1|done|lia| |intros; by eapply reads_fallible].
  intros s2 H2. rewrite Nat2Z.id in H2.
  assert (space (contract_address (es_cs s2)) base n) as Hs2 by (by rewrite (wr_addr _ _ _ _ _ H2)).
  assert (updates base n s s2) as U2.
  { etransitivity; [by apply updates_reads|]. eapply updates_writes; [|done]. eauto. }
  pose proof (sp_fits _ _ _ Hs) as Hfits. pose proof (hash_slot_range (keccak256 (to_le_bytes 8 base))) as Hhash.
  apply (wp_set_length base n); [apply H2|done| |intros; by eapply updates_fallible].
  intros s3 H3. split.
  - assert (t = 0 -> word64 (db_value st (contract_address (es_cs s1)) (elem_slot base (length l))) = 0) as Hd.
    { intros ->. rewrite (rd_addr _ _ _ H1). apply Hla; [|done]. apply elem_of_app. right. by left. }
    eapply (is_array_length base n); [done| |rewrite length_app; simpl; lia| | |done].
    { by rewrite (wr_addr _ _ _ _ _ H2), (rd_addr _ _ _ H1). }
    + rewrite length_app. simpl. mlia.
    + intros j x Hj. destruct (is_array_set base l n (length l) t s1 s2) as [_ He]; try done.
      { by eapply is_array_reads. } { lia. }
      destruct (decide (j = length l)) as [->|Hne].
      * rewrite lookup_app_r, Nat.sub_diag in Hj by done. injection Hj as <-.
        rewrite (word64_writes _ _ _ _ _ Ht H2), decide_True; done.
      * apply He. rewrite list_lookup_insert_ne by done. apply lookup_lt_Some in Hj as Hlt.
        rewrite length_app in Hlt. simpl in Hlt. by rewrite lookup_app_l in Hj by lia.
  - etransitivity; [done|]. eapply updates_writes; [|done]. by left.
Qed.

Lemma wp_array_remove base l n t s :
  cs_wf st (es_cs s) -> space (contract_address (es_cs s)) base n -> is_array base l s ->
  (length l <= n)%nat -> Forall (in_range U64_MAX) l ->
  lasting (contract_address (es_cs s)) base n l -> lasting (contract_address (es_cs s)) base n (remove_swap t l) ->
  wp (array_remove st base t) (fun _ s' => is_array base (remove_swap t l) s' /\ updates base n s s')
    (fun _ _ => fallible st s) s.
Proof.
  intros Hwf Hs Ha Hn Hr Hla Hla'. unfold array_remove, get_array_length.
  apply wp_bind, Sav721.wp_load_u64; [done| |done]. intros s1 H1. rewrite (ar_length _ _ _ Ha).
  destruct (Z.eqb_spec (Z.of_nat (length l)) 0) as [E|E].
  { apply wp_ret. assert (l = []) as -> by (destruct l; simpl in E; [done|lia]).
    split; [by eapply is_array_reads|by apply updates_reads]. }
  assert (space (contract_address (es_cs s1)) base n) as Hs1 by (by rewrite (rd_addr _ _ _ H1)).
  assert (is_array base l s1) as Ha1 by (by eapply is_array_reads).
  rewrite Nat2Z.id. apply wp_bind. change 0 with (Z.of_nat 0) at 1.
  eapply (wp_find base t l n); [apply H1|done..| |intros; by eapply reads_fallible].
  intros s2 H2. rewrite drop_0. unfold remove_swap in *. assert (reads st s s2) as H12 by (by etransitivity).
  destruct (list_find _ l) as [[i x]|] eqn:Ef;
    [|apply wp_ret; split; [by eapply is_array_reads|by apply updates_reads]].
  apply list_find_Some in Ef as (Hi & -> & _). apply lookup_lt_Some in Hi as Hlt. rewrite Nat.add_0_l.
  assert (space (contract_address (es_cs s2)) base n) as Hs2 by (by rewrite (rd_addr _ _ _ H12)).
  assert (is_array base l s2) as Ha2 by (by eapply is_array_reads).
  pose proof (sp_fits _ _ _ Hs) as Hfits. pose proof (hash_slot_range (keccak256 (to_le_bytes 8 base))) as Hhash.
  assert (Hlast : l !! (length l - 1)%nat = Some (List.last l 0)).
  { destruct l as [|y l _] using rev_ind; [done|]. rewrite List.last_last, length_app. simpl.
    by rewrite lookup_app_r, Nat.add_sub, Nat.sub_diag by lia. }
  assert (Hfin : forall s3, ((length l - 1 <= i)%nat /\ reads st s2 s3) \/ ((i < length l - 1)%nat /\ exists s2', reads st s2 s2' /\
      writes st (elem_slot base i) (Base.u64_to_storage_value (List.last l 0)) s2' s3) ->
    wp (set_array_length st base (Z.of_nat (length l) - 1))
      (fun _ s' => is_array base (take (length l - 1) (<[i:=List.last l 0]> l)) s' /\ updates base n s s')
      (fun _ _ => fallible st s) s3).
  { intros s3 H3.
    assert (updates base n s s3) as U3.
    { destruct H3 as [[_ H3]|(Hl & s2' & H3 & H4)]; [by apply updates_reads; etransitivity|].
      etransitivity; [apply updates_reads; by etransitivity|]. eapply updates_writes; [|done]. right. exists i. split; [lia|done]. }
    apply (wp_set_length base n); [apply U3|by rewrite (up_addr _ _ _ _ U3)| |intros; by eapply updates_fallible].
    intros s4 H4. split; [|etransitivity; [done|]; eapply updates_writes; [by left|done]].
    eapply (is_array_length base n); [by rewrite (up_addr _ _ _ _ U3)|by rewrite (up_addr _ _ _ _ U3)|rewrite length_take, length_insert; lia| | |done].
    { rewrite length_take, length_insert. lia. }
    intros j y Hj. apply lookup_take_Some in Hj as [Hj Hjl].
    destruct H3 as [[Hl H3]|(Hl & s2' & H3 & H5)].
    - rewrite (rd_view _ _ _ H3). rewrite list_lookup_insert_ne in Hj by lia. by apply Ha2.
    - eapply (is_array_set base l n i); [by rewrite (rd_addr _ _ _ H3)|by eapply is_array_reads|done|lia| | |exact H5|done].
      + rewrite Forall_forall in Hr. eapply Hr, list_elem_of_lookup_2, Hlast.
      + intros E0. rewrite (rd_addr _ _ _ H3), (rd_addr _ _ _ H12). apply Hla; [|lia].
        rewrite <- E0. eapply list_elem_of_lookup_2, Hlast. }
  destruct (Z.ltb_spec (Z.of_nat i) (Z.of_nat (length l) - 1)) as [Hl|Hl].
  - apply wp_bind. eapply wp_bind, (wp_get_element base _ l n); [apply H2|done..|lia| |].
    + intros s3 y H3 Hy. replace (Z.to_nat (Z.of_nat (length l) - 1)) with (length l - 1)%nat in Hy by lia.
      assert (y = List.last l 0) as -> by congruence.
      apply (wp_set_element base n); [apply H3|by rewrite (rd_addr _ _ _ H3)|lia| |].
      * intros s4 H4. rewrite Nat2Z.id in H4. apply Hfin. right. split; [lia|]. eauto.
      * intros e s4 H4 Hf. eapply reads_fallible; [|done]. by etransitivity.
    + intros e s3 H3 Hf. by eapply reads_fallible.
  - apply wp_bind, wp_ret, Hfin. left. split; [lia|]. apply reads_refl, H2.
Qed.

(** *** Refinement *)

Inductive array_op := Push (t : Z) | Remove (t : Z).
Definition op_token (o : array_op) : Z := match o with Push t | Remove t => t end.
Fixpoint run_array (base : Z) (ops : list array_op) : X unit :=
  match ops with
  | [] => mret tt
  | Push t :: ops => array_push st base t;; run_array base ops
  | Remove t :: ops => array_remove st base t;; run_array base ops
  end.
Definition list_op (l : list Z) (o : array_op) : list Z :=
  match o with Push t => l ++ [t] | Remove t => remove_swap t l end.

Lemma remove_swap_incl t l x : x ∈ remove_swap t l -> x ∈ l.
Proof.
  intros Hx. destruct (decide (t ∈ l)) as [Hin|Hn].
  - rewrite <- (remove_swap_perm t l Hin). by right.
  - by rewrite remove_swap_not_in in Hx.
Qed.
Lemma remove_swap_length t l : (length (remove_swap t l) <= length l)%nat.
Proof.
  destruct (decide (t ∈ l)) as [Hin|Hn].
  - apply remove_swap_perm, Permutation_length in Hin. simpl in Hin. lia.
  - by rewrite remove_swap_not_in.
Qed.
Lemma list_op_length l o : (length (list_op l o) <= length l + 1)%nat.
Proof. destruct o; simpl; [rewrite length_app; simpl; lia|]. pose proof (remove_swap_length t l). lia. Qed.
Lemma list_op_range l o :
  Forall (in_range U64_MAX) l -> in_range U64_MAX (op_token o) -> Forall (in_range U64_MAX) (list_op l o).
Proof.
  intros Hl Ho. destruct o; simpl in *; [apply Forall_app; split; [done|by constructor]|].
  rewrite Forall_forall in Hl |- *. intros x Hx%remove_swap_incl. by apply Hl.
Qed.

(** The lists the operations go through are all [lasting]. *)
Fixpoint all_lasting (addr : bytes) (base : Z) (n : nat) (ops : list array_op) (l : list Z) : Prop :=
  lasting addr base n l /\ match ops with [] => True | o :: ops => all_lasting addr base n ops (list_op l o) end.
Lemma all_lasting_hd addr base n ops l : all_lasting addr base n ops l -> lasting addr base n l.
Proof. destruct ops; by intros []. Qed.

(** Lists that are never empty nor hold token 0 lose nothing. *)
Fixpoint never_zero (ops : list array_op) (l : list Z) : bool :=
  negb (bool_decide (l = [])) && negb (bool_decide (0 ∈ l)) &&
  match ops with [] => true | o :: ops => never_zero ops (list_op l o) end.
Lemma never_zero_lasting addr base n ops l : never_zero ops l = true -> all_lasting addr base n ops l.
Proof.
  revert l. induction ops as [|o ops IH]; intros l; simpl; intros [[He Hz]%andb_true_iff Hr]%andb_true_iff;
    apply negb_true_iff, bool_decide_eq_false in He; apply negb_true_iff, bool_decide_eq_false in Hz; split; try done;
    by apply IH.
Qed.

Lemma wp_run_array base n ops l s :
  cs_wf st (es_cs s) -> space (contract_address (es_cs s)) base n -> is_array base l s ->
  Forall (in_range U64_MAX) l -> Forall (fun o => in_range U64_MAX (op_token o)) ops ->
  (length l + length ops <= n)%nat -> all_lasting (contract_address (es_cs s)) base n ops l ->
  wp (run_array base ops) (fun _ s' => is_array base (fold_left list_op ops l) s' /\ updates base n s s')
    (fun _ _ => fallible st s) s.
Proof.
  revert l s. induction ops as [|o ops IH]; intros l s Hwf Hs Ha Hl Ho Hn Hla; simpl.
  { apply wp_ret. split; [done|]. by apply updates_reads, reads_refl. }
  apply Forall_cons in Ho as [Ho Hos]. simpl in Hn. destruct Hla as [Hla Hlas]. pose proof (all_lasting_hd _ _ _ _ _ Hlas) as Hla'.
  pose proof (list_op_length l o) as Hlen. pose proof (list_op_range l o Hl Ho) as Hrg.
  assert (Hk : forall s1, is_array base (list_op l o) s1 /\ updates base n s s1 ->
    wp (run_array base ops) (fun _ s' => is_array base (fold_left list_op ops (list_op l o)) s' /\ updates base n s s')
      (fun _ _ => fallible st s) s1).
  { intros s1 [Ha1 U1]. eapply wp_mono; [apply (IH (list_op l o)); [apply U1| |done|done|done|lia|]| |].
    - by rewrite (up_addr _ _ _ _ U1).
    - by rewrite (up_addr _ _ _ _ U1).
    - intros ? s2 [Ha2 U2]. split; [done|by etransitivity].
    - intros ? ? Hf. by eapply updates_fallible. }
  destruct o as [t|t]; simpl in *; apply wp_bind.
  - eapply wp_mono; [apply (wp_array_push base l n); try done; lia|intros ? s1 H1; by apply Hk|done].
  - eapply wp_mono; [apply (wp_array_remove base l n); try done; lia|intros ? s1 H1; by apply Hk|done].
Qed.

Lemma wp_array_at base n l i s :
  cs_wf st (es_cs s) -> space (contract_address (es_cs s)) base n -> is_array base l s -> (length l <= n)%nat -> 0 <= i ->
  wp (array_at st base i) (fun x _ => l !! Z.to_nat i = Some x)
    (fun e _ => (l !! Z.to_nat i = None /\ e = IndexOutOfBounds i (Z.of_nat (length l))) \/ fallible st s) s.
Proof.
  intros Hwf Hs Ha Hn Hi. unfold array_at, get_array_length.
  apply wp_bind, Sav721.wp_load_u64; [done| |by auto]. intros s1 H1. rewrite (ar_length _ _ _ Ha).
  apply wp_bind, wp_bail_if.
  - intros Hle%Z.leb_le. left. split; [|done]. apply lookup_ge_None. lia.
  - intros Hlt%Z.leb_gt. eapply (wp_get_element base _ l n); [apply H1|by rewrite (rd_addr _ _ _ H1)| |done|lia|by auto|].
    + by eapply is_array_reads.
    + intros e s2 _ Hf2. right. by eapply reads_fallible.
Qed.

(** C21: The enumeration keeps a list.  Any sequence of additions and removals
    of tokens leaves in storage the list it makes of the elements, where a
    removal puts the last element in the place of the removed one; reading
    index [i] gives its [i]-th element or the error for an index out of bounds,
    and no slot outside the array changes.  Only a gas meter or the database
    stops the sequence or the reading.  The array's slots are free and
    distinct, and no zero is written over a persisted value, where it would be
    lost: the list becomes empty only if no length is persisted, and holds
    token 0 only if no element is. *)
Theorem enumeration_refines_lists base n ops l s :
  cs_wf st (es_cs s) -> space (contract_address (es_cs s)) base n -> is_array base l s ->
  Forall (in_range U64_MAX) l -> Forall (fun o => in_range U64_MAX (op_token o)) ops ->
  (length l + length ops <= n)%nat -> all_lasting (contract_address (es_cs s)) base n ops l ->
  let l' := fold_left list_op ops l in
  match run_array base ops s with
  | (Ok _, s') =>
      (forall k, k <> base -> (forall i, (i < n)%nat -> k <> elem_slot base i) -> view st s' k = view st s k) /\
      forall i, 0 <= i ->
        match fst (array_at st base i s') with
        | Ok x => l' !! Z.to_nat i = Some x
        | Err e => (l' !! Z.to_nat i = None /\ e = IndexOutOfBounds i (Z.of_nat (length l'))) \/ fallible st s
        end
  | (Err _, _) => fallible st s
  end.
Proof.
  intros Hwf Hs Ha Hl Ho Hn Hla l'. pose proof (wp_run_array base n ops l s Hwf Hs Ha Hl Ho Hn Hla) as Hw. unfold wp in Hw.
  destruct (run_array base ops s) as [[[]|e] s'] eqn:E; [|done].
  destruct Hw as [Ha' U]. split; [apply U|]. intros i Hi.
  assert (length l' <= n)%nat as Hn'.
  { unfold l'. clear -Hn. revert l Hn. induction ops as [|o ops IH]; intros l Hn; simpl in *; [lia|].
    apply IH. pose proof (list_op_length l o). lia. }
  pose proof (wp_array_at base n l' i s') as Hw. unfold wp in Hw.
  destruct (array_at st base i s') as [[x|e] s2]; simpl.
  - apply Hw; try done; [apply U|by rewrite (up_addr _ _ _ _ U)].
  - destruct Hw as [?|Hf]; try done; [apply U|by rewrite (up_addr _ _ _ _ U)|by left|right].
    by eapply updates_fallible.
Qed.
End Arrays.

(** ** URI slots *)

Section Uris.
Context `{Hex} `{Keccak} (st : Storage) (rt : Runtime).

(** A short URI is written to slot [400 + token_id]. *)
Lemma wp_set_token_uri t uri f s :
  cs_wf st (es_cs s) -> current_frame rt = Some f -> (length uri <= 24)%nat -> 0 <= t ->
  wp (set_token_uri st rt t uri) (fun _ s' => writes st (400 + t) (first_slot uri) s s') (fun _ _ => True) s.
Proof.
  intros Hwf Hf Hl Ht. unfold set_token_uri, when_not_paused, load_owner, token_owner_slot, token_uri_base_slot, unreserved.
  apply wp_bind, wp_bind, Base.wp_is_paused; [done| |done]. intros s1 H1. apply wp_bail_if; [done|intros _].
  apply wp_bind, Base.wp_current_caller; [|done]. intros f' _.
  apply wp_bind, wp_bind, wp_bind, wp_bail_if; [done|intros _]. apply wp_ret.
  wp_accessor; [apply H1| |done]. intros s2 H2 _. apply wp_bind, wp_bail_if; [done|intros _].
  apply wp_lift; [|done]. intros o _.
  apply wp_bind, Base.wp_get_owner; [apply H2| |done]. intros s3 H3. apply wp_bind, wp_bail_if; [done|intros _].
  apply wp_bind, wp_bind, wp_lift; [|done]. intros k [-> _]%ok_or_Ok%checked_add_Some.
  apply wp_bind, wp_bail_if; [done|intros Hres]. apply wp_ret. unfold write_uri_to_storage.
  wp_accessor; [apply H3| | |done].
  { unfold first_slot. rewrite !length_app, length_to_le_bytes, length_take, length_zeros. lia. }
  intros s4 H4 _. assert (length uri <=? 24 = true)%nat as -> by (by apply Nat.leb_le). apply wp_ret.
  eapply writes_between; [|exact H4|apply reads_refl, H4]. do 2 (etransitivity; [done|]). done.
Qed.
Lemma first_slot_word uri :
  Z.of_nat (length uri) <= U64_MAX -> Sav721.word64 (first_slot uri) = Z.of_nat (length uri).
Proof.
  intros Hl. unfold Sav721.word64, first_slot. rewrite take_app_le, take_ge by (by rewrite length_to_le_bytes).
  rewrite from_to_le_bytes, Z.mod_small; [done|mlia].
Qed.

Lemma first_slot_flag uri :
  (0 < length uri <= 24)%nat -> Base.storage_value_to_bool (first_slot uri) = true.
Proof.
  intros [Hl Hu]. unfold first_slot. cbn [to_le_bytes app Base.storage_value_to_bool].
  destruct (Byte.eqb (byte_of_Z (Z.of_nat (length uri))) x00) eqn:E; [|done].
  apply Byte.byte_dec_bl, (f_equal byte_to_Z) in E. rewrite byte_to_of_Z, Z.mod_small in E by lia.
  change (byte_to_Z x00) with 0 in E. lia.
Qed.

(** The URI of a token lives in slot [400 + token_id], where the contract
    keeps its own state: whoever may set the URI of token 400 sets the total
    supply to the length of the URI, that of token 500 turns the enumeration
    on, that of token 600 sets the length of the list of all tokens, and that
    of token 2600 allows burning. *)
Theorem token_uri_overwrites_contract_state t uri f s s' :
  cs_wf st (es_cs s) -> current_frame rt = Some f -> (0 < length uri <= 24)%nat -> 0 <= t ->
  set_token_uri st rt t uri s = (Ok tt, s') ->
  (t = 400 -> Sav721.word64 (view st s' SLOT_TOTAL_SUPPLY) = Z.of_nat (length uri)) /\
  (t = 500 -> Base.storage_value_to_bool (view st s' SLOT_ENUMERATION_ENABLED) = true) /\
  (t = 600 -> Sav721.word64 (view st s' SLOT_ALL_TOKENS_BASE) = Z.of_nat (length uri)) /\
  (t = 2600 -> Base.storage_value_to_bool (view st s' SLOT_BURN_ENABLED) = true).
Proof.
  intros Hwf Hf Hl Ht E.
  pose proof (wp_ok _ _ _ _ _ _ (wp_set_token_uri t uri f s Hwf Hf ltac:(lia) Ht) E) as Hw. simpl in Hw.
  assert (Hv : view st s' (400 + t) = first_slot uri).
  { rewrite (wr_view _ _ _ _ _ Hw), decide_True by done. apply stored_nonzero.
    destruct (is_zero (first_slot uri)) eqn:Ez; [|done]. apply is_zero_spec in Ez.
    pose proof (first_slot_flag uri Hl) as Hb. rewrite Ez in Hb. by destruct (length (first_slot uri)). }
  split_and!; intros ->.
  - change (400 + 400) with SLOT_TOTAL_SUPPLY in Hv. rewrite Hv. apply first_slot_word. mlia.
  - change (400 + 500) with SLOT_ENUMERATION_ENABLED in Hv. rewrite Hv. by apply first_slot_flag.
  - change (400 + 600) with SLOT_ALL_TOKENS_BASE in Hv. rewrite Hv. apply first_slot_word. mlia.
  - change (400 + 2600) with SLOT_BURN_ENABLED in Hv. rewrite Hv. by apply first_slot_flag.
Qed.
End Uris.

(** ** A concrete collection

    Alice owns the contract and mints token 2600 to Bob, who turns burning on
    with its URI. *)

#[local] Existing Instance keccak_toy.
Import Base (alice, bob, runtime_of).
Definition nobody : Storage := mem_storage ∅.
Definition collection : ExecState :=
  snd ((initialize nobody alice None None None None;;
        mint nobody (runtime_of addr0 alice) (hex_encode bob) 2600 None) (fresh addr0)).
Definition with_uri : ExecState :=
  snd (set_token_uri nobody (runtime_of addr0 bob) 2600 (bytes_of_string "x") collection).

Lemma token_uri_overwrites_contract_state_witness :
  Base.storage_value_to_bool (view nobody collection SLOT_BURN_ENABLED) = false /\
  Base.storage_value_to_bool (view nobody with_uri SLOT_BURN_ENABLED) = true.
Proof.
  split; [vm_compute; reflexivity|].
  apply (token_uri_overwrites_contract_state nobody (runtime_of addr0 bob) 2600 (bytes_of_string "x")
    (Base.frame_of addr0 bob) collection with_uri).
  - apply cs_wf_decide; vm_compute; reflexivity.
  - reflexivity.
  - vm_compute. lia.
  - lia.
  - vm_compute. reflexivity.
  - reflexivity.
Defined.

(** An array of one token that the database already holds. *)
Definition one_token : Storage :=
  mem_storage {[ make_storage_key addr0 SLOT_ALL_TOKENS_BASE := Base.u64_to_storage_value 1;
                 make_storage_key addr0 (elem_slot SLOT_ALL_TOKENS_BASE 0) := Base.u64_to_storage_value 6 ]}.

Lemma one_token_ok addr : db_ok one_token addr.
Proof. apply db_ok_mem. apply map_Forall_insert_2; [done|]. by apply map_Forall_singleton. Qed.

Lemma enumeration_refines_lists_witness :
  let s' : ExecState := snd (run_array one_token SLOT_ALL_TOKENS_BASE [Push 7; Push 8; Push 9; Remove 6; Remove 7] (fresh addr0)) in
  fst (array_at one_token SLOT_ALL_TOKENS_BASE 0 s') = Ok 9 /\
  fst (array_at one_token SLOT_ALL_TOKENS_BASE 2 s') = Err (IndexOutOfBounds 2 2).
Proof.
  pose proof (enumeration_refines_lists one_token SLOT_ALL_TOKENS_BASE 6
    [Push 7; Push 8; Push 9; Remove 6; Remove 7] [6] (fresh addr0)) as Hc.
  destruct (run_array one_token SLOT_ALL_TOKENS_BASE [Push 7; Push 8; Push 9; Remove 6; Remove 7] (fresh addr0)) as [[u|e] s'] eqn:E;
    [|vm_compute in E; discriminate E].
  destruct Hc as [_ Hat].
  - apply cs_wf_fresh.
  - split; [vm_compute; done|done|].
    intros i Hi. do 6 (destruct i as [|i]; [split; [vm_compute; reflexivity|vm_compute; discriminate]|]). lia.
  - split; [vm_compute; reflexivity|]. intros [|i] x Hx; [|done]. injection Hx as <-. vm_compute. reflexivity.
  - repeat constructor; vm_compute; done.
  - repeat constructor; vm_compute; done.
  - simpl. lia.
  - apply never_zero_lasting. vm_compute. reflexivity.
  - assert (~ fallible one_token (fresh addr0)) as Hnf by (apply not_fallible; [reflexivity|apply one_token_ok]).
    assert (fold_left list_op [Push 7; Push 8; Push 9; Remove 6; Remove 7] [6] = [9; 8]) as El by (vm_compute; reflexivity).
    rewrite El in Hat. cbn [snd]. cbv zeta. apply conj.
    + specialize (Hat 0 ltac:(lia)). destruct (fst (array_at one_token SLOT_ALL_TOKENS_BASE 0 s')) as [x|er].
      * injection Hat as <-. reflexivity.
      * destruct Hat as [[Hn _]|Hf]; [discriminate Hn|destruct (Hnf Hf)].
    + specialize (Hat 2 ltac:(lia)). destruct (fst (array_at one_token SLOT_ALL_TOKENS_BASE 2 s')) as [x|er].
      * discriminate Hat.
      * destruct Hat as [[_ ->]|Hf]; [reflexivity|destruct (Hnf Hf)].
Defined.
End NftC.
