(* ===== verification/Bft.v ===== *)
(** * The BFT engine and its locks

    [savitri-consensus/src/protocols/bft.rs]: proposals, votes and rounds of
    [BftConsensus], the messages of [DefaultBftEngine] and [BftUtils].

    Every field of the engine lies behind a [tokio] lock, and guards live to
    the end of their block.  The model keeps the set of write locks that are
    held: acquiring one of them, for reading or writing, is the outcome
    [Blocked], and a task that blocks on its own guard keeps its locks for
    ever.  Read guards are dropped before the task writes to the same field
    and never held where a task can block, so they are not recorded.  The
    deprecated floating-point threshold is left out. *)

From stdpp Require Import gmap pretty.
From Stdlib Require Import Strings.Byte.
From S2P Require Import Prelude Codec Proposals.

Module Bft.

Record BftConfig := mkConfig {
  min_validators : Z;
  max_faulty : Z;
  total_validators : Z;
  round_timeout_ms : Z;
  max_rounds : Z;
  enable_fast_path : bool;
  fast_path_threshold_permille : Z;
}.
Definition BftConfig_default : BftConfig := mkConfig 4 1 4 5000 100 true 670.

Inductive BftState := Initial | Proposing | Voting | Committed | Timeout.
#[global] Instance BftState_eq_dec : EqDecision BftState.
Proof. solve_decision. Defined.

Inductive ValidatorStatus := Active | Inactive | Slashed | Jailed | Pending.
#[global] Instance ValidatorStatus_eq_dec : EqDecision ValidatorStatus.
Proof. solve_decision. Defined.

(** The fields of [ValidatorInfo] the engine reads. *)
Record ValidatorInfo := mkValidator {
  validator_id : string;
  vi_public_key : bytes;
  vi_status : ValidatorStatus;
}.

Record BftProposal := mkProposal {
  bp_proposal_id : string;
  bp_round : Z;
  bp_block_data : bytes;
  bp_proposer_id : string;
  bp_timestamp : Z;
  bp_signature : bytes;
}.

Record BftVote := mkVote {
  bv_vote_id : string;
  bv_round : Z;
  bv_proposal_id : string;
  bv_voter_id : string;
  bv_vote : bool;
  bv_timestamp : Z;
  bv_signature : bytes;
}.

(** The counters of [BftStats]. *)
Record BftStats := mkStats {
  total_rounds : Z;
  successful_rounds : Z;
  failed_rounds : Z;
  total_proposals : Z;
  total_votes : Z;
  fast_path_agreements : Z;
}.

Inductive lock := LValidators | LRound | LProposals | LVotes | LState | LStats.
#[global] Instance lock_eq_dec : EqDecision lock.
Proof. solve_decision. Defined.

Record BftConsensus := mkBft {
  config : BftConfig;
  validators : gmap string ValidatorInfo;
  current_round : Z;
  proposals : gmap Z BftProposal;
  votes : gmap Z (gmap string BftVote);
  state : BftState;
  stats : BftStats;
  local_signing_key : option bytes;
  id_counter : Z;
  held : list lock;
}.

Definition new (c : BftConfig) : BftConsensus := mkBft c ∅ 0 ∅ ∅ Initial (mkStats 0 0 0 0 0 0) None 0 [].

Inductive BftError := ValidationFailed | InvalidSignature | Blocked.
#[global] Instance BftError_eq_dec : EqDecision BftError.
Proof. solve_decision. Defined.

Definition B (A : Type) : Type := M BftConsensus BftError A.

(** *** Locks *)

Definition set_held (h : list lock) (s : BftConsensus) : BftConsensus :=
  mkBft (config s) (validators s) (current_round s) (proposals s) (votes s) (state s) (stats s)
    (local_signing_key s) (id_counter s) h.

Definition acquire_read (l : lock) : B unit := h ← gets held; bail_if (bool_decide (l ∈ h)) Blocked.
Definition acquire_write (l : lock) : B unit := acquire_read l;; modify (fun s => set_held (l :: held s) s).
Definition release (l : lock) : B unit := modify (fun s => set_held (filter (fun x => x <> l) (held s)) s).
(** A guard that lives for one statement. *)
Definition with_write (l : lock) (f : BftConsensus -> BftConsensus) : B unit :=
  acquire_write l;; modify f;; release l.

(** The end of a method drops its guards, unless it never comes. *)
Definition task {A} (m : B A) : B A := fun s =>
  match m s with
  | (Err Blocked, s') => (Err Blocked, s')
  | (r, s') => (r, set_held (held s) s')
  end.

Definition set_validators (f : gmap string ValidatorInfo -> gmap string ValidatorInfo) (s : BftConsensus) : BftConsensus :=
  mkBft (config s) (f (validators s)) (current_round s) (proposals s) (votes s) (state s) (stats s)
    (local_signing_key s) (id_counter s) (held s).
Definition set_round (r : Z) (s : BftConsensus) : BftConsensus :=
  mkBft (config s) (validators s) r (proposals s) (votes s) (state s) (stats s) (local_signing_key s) (id_counter s) (held s).
Definition set_proposals (f : gmap Z BftProposal -> gmap Z BftProposal) (s : BftConsensus) : BftConsensus :=
  mkBft (config s) (validators s) (current_round s) (f (proposals s)) (votes s) (state s) (stats s)
    (local_signing_key s) (id_counter s) (held s).
Definition set_votes (f : gmap Z (gmap string BftVote) -> gmap Z (gmap string BftVote)) (s : BftConsensus) : BftConsensus :=
  mkBft (config s) (validators s) (current_round s) (proposals s) (f (votes s)) (state s) (stats s)
    (local_signing_key s) (id_counter s) (held s).
Definition set_state (st : BftState) (s : BftConsensus) : BftConsensus :=
  mkBft (config s) (validators s) (current_round s) (proposals s) (votes s) st (stats s)
    (local_signing_key s) (id_counter s) (held s).
Definition set_stats (f : BftStats -> BftStats) (s : BftConsensus) : BftConsensus :=
  mkBft (config s) (validators s) (current_round s) (proposals s) (votes s) (state s) (f (stats s))
    (local_signing_key s) (id_counter s) (held s).

Definition inc (x : Z) : Z := wrap U64_MAX (x + 1).

(** [id_counter.fetch_add(1)]. *)
Definition fetch_id : B Z :=
  n ← gets id_counter;
  modify (fun s => mkBft (config s) (validators s) (current_round s) (proposals s) (votes s) (state s) (stats s)
                     (local_signing_key s) (inc n) (held s));;
  mret n.

Definition set_signing_key (sk : bytes) (s : BftConsensus) : BftConsensus :=
  mkBft (config s) (validators s) (current_round s) (proposals s) (votes s) (state s) (stats s)
    (Some sk) (id_counter s) (held s).

Definition add_validator (v : ValidatorInfo) : B unit :=
  task (acquire_write LValidators;; modify (set_validators <[validator_id v := v]>)).
Definition remove_validator (i : string) : B unit :=
  task (acquire_write LValidators;; modify (set_validators (delete i))).
Definition get_validators : B (list ValidatorInfo) :=
  task (acquire_read LValidators;; vs ← gets validators; mret (map_to_list vs).*2).

Definition is_zero64 (sig : bytes) : bool := bool_decide (sig = zeros 64).

Section Engine.
Context `{Ed25519, Ed25519Sign, Blake3}.

Definition build_proposal_message (round : Z) (proposer : string) (data : bytes) (timestamp : Z) : bytes :=
  bytes_of_string "BFT-PROP" ++ to_le_bytes 8 round ++ to_le_bytes 4 (Z.of_nat (length (bytes_of_string proposer)))
    ++ bytes_of_string proposer ++ blake3 data ++ to_le_bytes 8 timestamp.

Definition build_vote_message (round : Z) (proposal voter : string) (vote : bool) (timestamp : Z) : bytes :=
  bytes_of_string "BFT-VOTE" ++ to_le_bytes 8 round ++ to_le_bytes 4 (Z.of_nat (length (bytes_of_string proposal)))
    ++ bytes_of_string proposal ++ to_le_bytes 4 (Z.of_nat (length (bytes_of_string voter))) ++ bytes_of_string voter
    ++ [if vote then x01 else x00] ++ to_le_bytes 8 timestamp.

Definition verify_proposal_signature (p : BftProposal) (pk : bytes) : bool :=
  ed25519_verify pk (build_proposal_message (bp_round p) (bp_proposer_id p) (bp_block_data p) (bp_timestamp p)) (bp_signature p).
Definition verify_vote_signature (v : BftVote) (pk : bytes) : bool :=
  ed25519_verify pk (build_vote_message (bv_round v) (bv_proposal_id v) (bv_voter_id v) (bv_vote v) (bv_timestamp v))
    (bv_signature v).

(** The signature of the local key, zeros without one. *)
Definition sign_local (msg : bytes) : B bytes :=
  k ← gets local_signing_key;
  mret (match k with Some sk => ed25519_sign sk msg | None => zeros 64 end).

Definition create_proposal (now : Z) (data : bytes) (proposer : string) : B BftProposal := task (
  acquire_read LValidators;;
  v ← gets (fun s => validators s !! proposer);
  bail_if (match v with Some v => bool_decide (vi_status v = Slashed) || bool_decide (vi_status v = Jailed) | None => false end)
    ValidationFailed;;
  acquire_read LRound;;
  round ← gets current_round;
  seq ← fetch_id;
  let proposal_id := proposer +:+ "-" +:+ pretty round +:+ "-" +:+ pretty seq in
  sig ← sign_local (build_proposal_message round proposer data now);
  let p := mkProposal proposal_id round data proposer now sig in
  bail_if (is_zero64 sig) InvalidSignature;;
  acquire_write LProposals;;
  e ← gets (fun s => proposals s !! round);
  bail_if (match e with
           | Some e => negb (bool_decide (bp_proposer_id e = proposer)) || negb (bool_decide (bp_proposal_id e = proposal_id))
           | None => false
           end) ValidationFailed;;
  modify (set_proposals <[round := p]>);;
  with_write LState (set_state Proposing);;
  acquire_write LStats;;
  modify (set_stats (fun x => mkStats (total_rounds x) (successful_rounds x) (failed_rounds x) (inc (total_proposals x))
                                (total_votes x) (fast_path_agreements x)));;
  mret p).

(** The votes of a round by validators that are active. *)
Definition valid_votes (vs : gmap string ValidatorInfo) (rv : gmap string BftVote) : list BftVote :=
  filter (fun v => vi_status <$> vs !! bv_voter_id v = Some Active) (map_to_list rv).*2.
Definition count_votes (b : bool) (l : list BftVote) : Z :=
  Z.of_nat (length (filter (fun v => bv_vote v = b) l)).

Definition get_required_votes (c : BftConfig) : Z := wrap U64_MAX (total_validators c - max_faulty c).
Definition bft_quorum (c : BftConfig) : Z := wrap U64_MAX (2 * max_faulty c + 1).

Definition check_consensus (round : Z) : B bool := task (
  acquire_read LVotes;;
  acquire_read LValidators;;
  s ← get;
  match votes s !! round with
  | None => mret false
  | Some rv =>
      let l := valid_votes (validators s) rv in
      let yes := count_votes true l in
      let no := count_votes false l in
      if yes + no >=? get_required_votes (config s) then
        if yes >=? bft_quorum (config s) then
          with_write LState (set_state Committed);;
          with_write LStats (set_stats (fun x => mkStats (total_rounds x) (inc (successful_rounds x)) (failed_rounds x)
                                          (total_proposals x) (total_votes x) (inc (fast_path_agreements x))));;
          mret true
        else if no >=? bft_quorum (config s) then
          with_write LState (set_state Timeout);;
          with_write LStats (set_stats (fun x => mkStats (total_rounds x) (successful_rounds x) (inc (failed_rounds x))
                                          (total_proposals x) (total_votes x) (fast_path_agreements x)));;
          mret false
        else mret false
      else mret false
  end).

Definition vote (now : Z) (proposal_id voter : string) (b : bool) : B BftVote := task (
  acquire_read LRound;;
  round ← gets current_round;
  seq ← fetch_id;
  acquire_read LValidators;;
  i ← gets (fun s => validators s !! voter);
  i ← lift (ok_or i ValidationFailed);
  bail_if (match vi_status i with Slashed | Jailed | Inactive => true | _ => false end) ValidationFailed;;
  sig ← sign_local (build_vote_message round proposal_id voter b now);
  let v := mkVote (voter +:+ "-" +:+ proposal_id +:+ "-" +:+ pretty seq) round proposal_id voter b now sig in
  bail_if (is_zero64 sig) InvalidSignature;;
  acquire_read LValidators;;
  i ← gets (fun s => validators s !! voter);
  bail_if (match i with Some i => negb (verify_vote_signature v (vi_public_key i)) | None => false end) InvalidSignature;;
  acquire_write LVotes;;
  rv ← gets (fun s => default ∅ (votes s !! round));
  modify (set_votes <[round := rv]>);;
  bail_if (bool_decide (is_Some (rv !! voter))) ValidationFailed;;
  modify (set_votes <[round := <[voter := v]> rv]>);;
  with_write LState (set_state Voting);;
  acquire_write LStats;;
  modify (set_stats (fun x => mkStats (total_rounds x) (successful_rounds x) (failed_rounds x) (total_proposals x)
                                (inc (total_votes x)) (fast_path_agreements x)));;
  check_consensus round;;
  mret v).

Definition next_round : B unit := task (
  acquire_read LState;;
  st ← gets state;
  bail_if (negb (bool_decide (st = Committed) || bool_decide (st = Timeout))) ValidationFailed;;
  acquire_write LRound;;
  prev ← gets current_round;
  modify (set_round (inc prev));;
  acquire_write LProposals;;
  acquire_write LVotes;;
  let min_keep := saturating_sub (inc prev) 10 in
  modify (set_proposals (fun m => filter (fun kv => min_keep <= kv.1) (delete prev m)));;
  modify (set_votes (fun m => filter (fun kv => min_keep <= kv.1) (delete prev m)));;
  with_write LState (set_state Initial);;
  acquire_write LStats;;
  modify (set_stats (fun x => mkStats (inc (total_rounds x)) (successful_rounds x) (failed_rounds x) (total_proposals x)
                                (total_votes x) (fast_path_agreements x)))).

Definition get_state : B BftState := task (acquire_read LState;; gets state).
Definition get_round : B Z := task (acquire_read LRound;; gets current_round).
Definition is_consensus_reached : B bool :=
  task (acquire_read LState;; st ← gets state; mret (bool_decide (st = Committed))).
Definition get_stats : B BftStats := task (acquire_read LStats;; gets stats).
Definition is_bft_valid (c : BftConfig) : bool := total_validators c >=? wrap U64_MAX (3 * max_faulty c + 1).

(** *** Messages *)

Inductive BftMessage :=
| MProposal (p : BftProposal)
| MVote (v : BftVote)
| MCommit (validator_id : string) (round : Z)
| MTimeout (round : Z) (validator_id : string)
| MSyncRequest (from_round to_round : Z)
| MSyncResponse (ps : list BftProposal) (vs : list BftVote).

(** The signature of a message is checked against the registered key unless
    it is zero. *)
Definition check_signature (sig : bytes) (signer : string) (verify : bytes -> bool) : B unit :=
  if is_zero64 sig then mret tt
  else
    acquire_read LValidators;;
    i ← gets (fun s => validators s !! signer);
    match i with
    | Some i => bail_if (negb (verify (vi_public_key i))) InvalidSignature
    | None => fail ValidationFailed
    end.

(** [Ok] is the response of success; no message is stored. *)
Definition process_message (m : BftMessage) : B unit := task (
  match m with
  | MProposal p => check_signature (bp_signature p) (bp_proposer_id p) (verify_proposal_signature p)
  | MVote v => check_signature (bv_signature v) (bv_voter_id v) (verify_vote_signature v)
  | _ => mret tt
  end).

Fixpoint initialize (l : list ValidatorInfo) : B unit :=
  match l with
  | [] => mret tt
  | v :: l => add_validator v;; initialize l
  end.
End Engine.

(** *** [BftUtils] *)

Definition min_validators_for_faulty (f : Z) : Z := wrap U64_MAX (3 * f + 1).
Definition max_faulty_for_validators (n : Z) : Z := wrap U64_MAX (n - 1) / 3.
Definition is_valid_bft_parameters (n f : Z) : bool := n >=? wrap U64_MAX (3 * f + 1).
Definition supermajority_threshold_permille (n f : Z) : Z :=
  if n =? 0 then 0 else wrap U32_MAX (wrap U64_MAX (wrap U64_MAX (n - f) * 1000) / n).

End Bft.
