(* ===== verification/BftCorrect.v ===== *)
(** * What the BFT engine decides

    A vote that passes every check waits for a lock its own task holds, so no
    vote returns, no round ends, and after the first such vote nobody votes or
    proposes.  The count itself is exact, and ignores which proposal a vote is
    for. *)

From stdpp Require Import gmap pretty.
From Stdlib Require Import Strings.Byte.
From S2P Require Import Prelude Codec Proposals Bft.

Module BftC.
Import Bft.

Section Theorems.
Context `{Ed25519, Ed25519Sign, Blake3}.

(** A lock stays held until the task releases it. *)
Definition holds (l : lock) (s : BftConsensus) : Prop := l ∈ held s.

Lemma wp_read l (Q : unit -> BftConsensus -> Prop) (R : BftError -> BftConsensus -> Prop) s :
  (l ∉ held s -> Q tt s) -> (l ∈ held s -> R Blocked s) -> wp (acquire_read l) Q R s.
Proof.
  intros HQ HR. unfold acquire_read. apply wp_bind, wp_gets, wp_bail_if; intros Hb.
  - apply HR. by apply bool_decide_eq_true in Hb.
  - apply HQ. by apply bool_decide_eq_false in Hb.
Qed.
Lemma wp_write l (Q : unit -> BftConsensus -> Prop) (R : BftError -> BftConsensus -> Prop) s :
  (l ∉ held s -> Q tt (set_held (l :: held s) s)) -> (l ∈ held s -> R Blocked s) -> wp (acquire_write l) Q R s.
Proof. intros HQ HR. unfold acquire_write. apply wp_bind, wp_read; [|done]. intros Hl. apply wp_modify. auto. Qed.
Lemma wp_with_write l f (Q : unit -> BftConsensus -> Prop) (R : BftError -> BftConsensus -> Prop) s :
  (forall s, held (f s) = held s) ->
  (l ∉ held s -> forall h, (forall x, x ∈ held s <-> x ∈ h) -> Q tt (set_held h (f (set_held (l :: held s) s)))) ->
  (l ∈ held s -> R Blocked s) -> wp (with_write l f) Q R s.
Proof.
  intros Hf HQ HR. unfold with_write. apply wp_bind, wp_write; [|done]. intros Hl. apply wp_bind, wp_modify, wp_modify.
  apply HQ; [done|]. intros x. rewrite Hf. simpl. rewrite list_elem_of_filter, elem_of_cons. naive_solver.
Qed.

Lemma wp_task {A} (m : B A) (Q : A -> BftConsensus -> Prop) (R : BftError -> BftConsensus -> Prop) s :
  wp m (fun a s' => Q a (set_held (held s) s'))
    (fun e s' => R e (if bool_decide (e = Blocked) then s' else set_held (held s) s')) s -> wp (task m) Q R s.
Proof. unfold wp, task. destruct (m s) as [[a|[]] s']; auto. Qed.
Lemma wp_fetch (Q : Z -> BftConsensus -> Prop) R s :
  (forall n, Q (id_counter s) (mkBft (config s) (validators s) (current_round s) (proposals s) (votes s) (state s)
    (stats s) (local_signing_key s) n (held s))) -> wp fetch_id Q R s.
Proof. intros HQ. apply HQ. Qed.
Lemma wp_sign msg (Q : bytes -> BftConsensus -> Prop) R s :
  Q (match local_signing_key s with Some sk => ed25519_sign sk msg | None => zeros 64 end) s -> wp (sign_local msg) Q R s.
Proof. done. Qed.

(** *** No vote returns, and no round ends *)

Lemma check_blocked round s : holds LVotes s -> check_consensus round s = (Err Blocked, s).
Proof.
  intros Hh. unfold check_consensus, task, acquire_read, gets, bail_if, fail, mbind, M_bind.
  by rewrite bool_decide_eq_true_2.
Qed.
Lemma wp_check_blocked round (Q : bool -> BftConsensus -> Prop) (R : BftError -> BftConsensus -> Prop) s :
  holds LVotes s -> R Blocked s -> wp (check_consensus round) Q R s.
Proof. intros Hh HR. unfold wp. by rewrite check_blocked. Qed.

(** The round is not decided. *)
Definition undecided (s : BftConsensus) : Prop := state s <> Committed /\ state s <> Timeout.
(** A vote waits for the votes it has locked. *)
Definition wedged (s : BftConsensus) : Prop := holds LVotes s /\ holds LStats s.

(** What a task leaves of an undecided round. *)
Record after (s s' : BftConsensus) : Prop := {
  after_round : current_round s' = current_round s;
  after_undecided : undecided s';
  after_held : forall l, l ∈ held s -> l ∈ held s';
  after_votes : holds LVotes s -> votes s' = votes s;
}.

(** The public operations that take a guard to write, and the messages. *)
Inductive op :=
| OAdd (v : ValidatorInfo) | ORemove (i : string)
| OPropose (now : Z) (data : bytes) (proposer : string)
| OVote (now : Z) (proposal voter : string) (b : bool)
| ONext | OMessage (m : BftMessage) | OSetKey (sk : bytes).
Definition step (o : op) : B unit :=
  match o with
  | OAdd v => add_validator v
  | ORemove i => remove_validator i
  | OPropose now data proposer => create_proposal now data proposer;; mret tt
  | OVote now p voter b => vote now p voter b;; mret tt
  | ONext => next_round
  | OMessage m => process_message m
  | OSetKey sk => modify (set_signing_key sk)
  end.
Definition run (l : list op) (s : BftConsensus) : BftConsensus := foldl (fun s o => (step o s).2) s l.

Ltac bwp := repeat (cbv beta zeta; intros; match goal with
  | |- wp (_ ≫= _) _ _ _ => apply wp_bind
  | |- wp (task _) _ _ _ => apply wp_task
  | |- wp (gets _) _ _ _ => apply wp_gets
  | |- wp (modify _) _ _ _ => apply wp_modify
  | |- wp (mret _) _ _ _ => apply wp_ret
  | |- wp (fail _) _ _ _ => apply wp_fail
  | |- wp (bail_if _ _) _ _ _ => apply wp_bail_if
  | |- wp (lift _) _ _ _ => apply wp_lift
  | |- wp (acquire_read _) _ _ _ => apply wp_read
  | |- wp (acquire_write _) _ _ _ => apply wp_write
  | |- wp (with_write _ _) _ _ _ => apply wp_with_write; [done|..]
  | |- wp fetch_id _ _ _ => apply wp_fetch
  | |- wp (sign_local _) _ _ _ => apply wp_sign
  | |- wp (check_consensus _) _ _ _ => apply wp_check_blocked
  end).
Ltac in_held := repeat match goal with
  | H : ?x ∈ ?l |- ?x ∈ ?l => exact H
  | |- _ ∈ _ :: _ => first [apply list_elem_of_here | apply list_elem_of_further]
  | H : forall x, x ∈ _ <-> x ∈ ?h |- _ ∈ ?h => apply H; simpl
  end.
Ltac bdone := intros; repeat case_bool_decide; try done; try match goal with
  | |- _ /\ ~ _ => split; [|unfold holds; intros ?; match goal with H : LStats ∉ _ |- _ => apply H; simpl; in_held end]
  | |- holds _ _ => unfold holds; simpl; in_held
  end; try match goal with
  | |- after _ _ => split; [reflexivity|first [assumption|by split]|simpl; intros; in_held|
      simpl; intros; first [reflexivity|exfalso; unfold holds in *; simpl in *; match goal with H : LVotes ∉ _ |- _ => apply H; in_held end]]
  end.

Lemma add_after v s : undecided s -> wp (add_validator v) (fun _ => after s) (fun _ => after s) s.
Proof.
 intros Hu. unfold add_validator. bwp; bdone.
Qed.
Lemma remove_after v s : undecided s -> wp (remove_validator v) (fun _ => after s) (fun _ => after s) s.
Proof. intros Hu. unfold remove_validator. bwp; bdone. Qed.
Lemma propose_after now data p s :
  undecided s -> wp (create_proposal now data p) (fun _ s' => after s s' /\ ~ holds LStats s) (fun _ => after s) s.
Proof. intros Hu. unfold create_proposal. bwp; bdone. Qed.
Lemma vote_after now p v b s : undecided s -> wp (vote now p v b) (fun _ _ => False) (fun _ => after s) s.
Proof. intros Hu. unfold vote. bwp; bdone. Qed.
Lemma next_after s : undecided s -> wp next_round (fun _ _ => False) (fun _ => after s) s.
Proof.
  intros Hu. unfold next_round. apply wp_task, wp_bind, wp_read; [|bdone]. intros _. apply wp_bind, wp_gets, wp_bind, wp_bail_if;
    [bdone|].
  destruct Hu as [Hc Ht]. by rewrite !bool_decide_eq_false_2.
Qed.
Lemma message_after m s : undecided s -> wp (process_message m) (fun _ => after s) (fun _ => after s) s.
Proof. intros Hu. unfold process_message, check_signature. destruct m; try case_match; bwp; try case_match; bwp; bdone. Qed.

Lemma step_after o s : undecided s -> wp (step o) (fun _ => after s) (fun _ => after s) s.
Proof.
  intros Hu. destruct o; simpl; [by apply add_after|by apply remove_after|..].
  - apply wp_bind. eapply wp_mono; [by apply propose_after| |done]. intros ? ? [Ha _]. exact Ha.
  - apply wp_bind. eapply wp_mono; [by apply vote_after|done|done].
  - eapply wp_mono; [by apply next_after|done|done].
  - by apply message_after.
  - bwp; bdone.
Qed.

Lemma after_run l s : undecided s -> after s (run l s).
Proof.
  revert s. induction l as [|o l IH]; intros s Hu; [split; auto|]. simpl.
  assert (Ha : after s (step o s).2) by (pose proof (step_after o s Hu) as Hw; unfold wp in Hw; by destruct (step o s) as [[]]).
  destruct Ha as [H1' H2' H3' H4']. destruct (IH _ H2') as [I1 I2 I3 I4].
  split; [congruence|done|auto|intros Hh; rewrite I4; [auto|by apply H3']].
Qed.

(** A vote that every check lets through. *)
Record admissible (sk : bytes) (now : Z) (p voter : string) (b : bool) (s : BftConsensus) : Prop := {
  adm_free : held s = [];
  adm_key : local_signing_key s = Some sk;
  adm_nonzero : ed25519_sign sk (build_vote_message (current_round s) p voter b now) <> zeros 64;
  adm_validator : exists i, validators s !! voter = Some i /\ (vi_status i = Active \/ vi_status i = Pending) /\
    ed25519_verify (vi_public_key i) (build_vote_message (current_round s) p voter b now)
      (ed25519_sign sk (build_vote_message (current_round s) p voter b now)) = true;
  adm_once : default ∅ (votes s !! current_round s) !! voter = None;
}.

Lemma vote_wedges sk now p v b s :
  admissible sk now p v b s ->
  wp (vote now p v b) (fun _ _ => False) (fun e s' =>
    e = Blocked /\ wedged s' /\ state s' = Voting /\ exists x, bv_voter_id x = v /\ bv_vote x = b /\
       votes s' = <[current_round s := <[v := x]> (default ∅ (votes s !! current_round s))]> (votes s)) s.
Proof.
  intros [Hh Hk Hz (i & Hi & Hst & Hv) Ho]. unfold vote. apply wp_task.
  assert (Hf : forall l, l ∉ held s) by (intros l; rewrite Hh; apply not_elem_of_nil).
  apply wp_bind, wp_read; [intros _|by intros ?%Hf]. apply wp_bind, wp_gets, wp_bind, wp_fetch. intros n.
  apply wp_bind, wp_read; simpl; [intros _|by intros ?%Hf]. apply wp_bind, wp_gets. simpl. rewrite Hi.
  apply wp_bind, wp_lift; [|done]. intros i' [= <-]. apply wp_bind, wp_bail_if; [by destruct Hst as [->| ->]|intros _].
  apply wp_bind, wp_sign. simpl. rewrite Hk. apply wp_bind, wp_bail_if; [unfold is_zero64; by rewrite bool_decide_eq_false_2|intros _].
  apply wp_bind, wp_read; simpl; [intros _|by intros ?%Hf]. apply wp_bind, wp_gets. simpl. rewrite Hi.
  apply wp_bind, wp_bail_if; [unfold verify_vote_signature; simpl; by rewrite Hv|intros _].
  apply wp_bind, wp_write; simpl; [intros _|by intros ?%Hf]. apply wp_bind, wp_gets, wp_bind, wp_modify. simpl.
  apply wp_bind, wp_bail_if; [by rewrite Ho, bool_decide_eq_false_2 by (intros [? [=]])|intros _]. apply wp_bind, wp_modify.
  apply wp_bind, wp_with_write; [done| |by rewrite Hh; simpl; intros ?%list_elem_of_singleton].
  intros _ h. simpl. rewrite Hh. intros Hl. apply wp_bind, wp_write; simpl; [intros _|by intros Hx%Hl%list_elem_of_singleton].
  apply wp_bind, wp_modify, wp_bind, wp_check_blocked.
  - unfold holds. simpl. apply list_elem_of_further, Hl, list_elem_of_here.
  - rewrite bool_decide_eq_true_2 by done. split; [done|]. split; [split; unfold holds; simpl|split; [done|]].
    + apply list_elem_of_further, Hl, list_elem_of_here.
    + apply list_elem_of_here.
    + eexists (mkVote _ _ _ _ _ _ _). simpl. rewrite insert_insert_eq. by split_and!.
Qed.

(** C37: From the start, whatever is called in whatever order: the round stays 0
    and is never decided, so nothing is ever committed and no round times
    out.  No vote returns; one that passes every check leaves the votes and
    the statistics locked, and then the votes of the engine never change
    again, and neither a vote nor a proposal returns. *)
Theorem no_round_ends c l :
  let s := run l (new c) in
  current_round s = 0 /\ state s <> Committed /\ state s <> Timeout /\
  (forall now p v b x s', vote now p v b s <> (Ok x, s')) /\
  (forall sk now p v b, admissible sk now p v b s ->
    let s1 := (step (OVote now p v b) s).2 in
    (exists x, votes s1 !! 0 = Some (<[v := x]> (default ∅ (votes s !! 0))) /\ bv_voter_id x = v /\ bv_vote x = b) /\
    forall l', let s2 := run l' s1 in
      votes s2 = votes s1 /\
      (forall now' data who x s', create_proposal now' data who s2 <> (Ok x, s'))).
Proof.
  assert (Hi : undecided (new c)) by by split. intros s. subst s. destruct (after_run l _ Hi) as [Hr Hu _ _].
  set (s := run l (new c)) in *. split; [done|]. split; [apply Hu|]. split; [apply Hu|]. split.
  - intros now p v b x s' Hv. exact (wp_ok _ _ _ _ _ _ (vote_after now p v b s Hu) Hv).
  - intros sk now p v b Ha. pose proof (vote_wedges _ _ _ _ _ _ Ha) as Hw. pose proof (vote_after now p v b s Hu) as Hv.
    simpl. unfold wp in Hw, Hv. unfold mbind, M_bind. destruct (vote now p v b s) as [[?|e] s1]; [done|]. simpl.
    destruct Hw as (-> & [HV HS] & _ & x & Hx1 & Hx2 & Hvs). destruct Hv as [Hr1 Hu1 _ _]. simpl in *. split.
    + exists x. rewrite Hvs, Hr, lookup_insert_eq. done.
    + intros l'. destruct (after_run l' _ Hu1) as [Hr2 Hu2 Hl2 Hv2]. split; [by apply Hv2|].
      intros now' data who y s' Hc. destruct (wp_ok _ _ _ _ _ _ (propose_after now' data who _ Hu2) Hc) as [_ Hn].
      by apply Hn, Hl2.
Qed.

(** *** The count *)

(** The votes of a round that count, and what they decide. *)
Definition tally (round : Z) (s : BftConsensus) : list BftVote := valid_votes (validators s) (default ∅ (votes s !! round)).
Definition decision (round : Z) (s : BftConsensus) : option bool :=
  let l := tally round s in
  if negb (bool_decide (is_Some (votes s !! round))) then None
  else if count_votes true l + count_votes false l <? get_required_votes (config s) then None
  else if bft_quorum (config s) <=? count_votes true l then Some true
  else if bft_quorum (config s) <=? count_votes false l then Some false else None.

(** With no lock held, the count commits the round, rejects it, or leaves it,
    as the votes of the active validators decide; it changes no vote and keeps
    no lock. *)
Lemma check_consensus_spec round s :
  held s = [] ->
  wp (check_consensus round) (fun r s' =>
    r = bool_decide (decision round s = Some true) /\ votes s' = votes s /\ held s' = [] /\
    state s' = match decision round s with Some true => Committed | Some false => Timeout | None => state s end)
    (fun _ _ => False) s.
Proof.
  intros Hh. assert (Hf : forall l, l ∉ held s) by (intros l; rewrite Hh; apply not_elem_of_nil).
  unfold check_consensus, decision, tally. apply wp_task, wp_bind, wp_read; [intros _|by intros ?%Hf].
  apply wp_bind, wp_read; [intros _|by intros ?%Hf]. apply wp_bind, wp_get.
  destruct (votes s !! round) as [rv|]; simpl; [|by apply wp_ret].
  set (yes := count_votes true _). set (no := count_votes false _).
  rewrite !Z.geb_leb, Z.ltb_antisym. destruct (get_required_votes (config s) <=? yes + no); simpl; [|by apply wp_ret].
  destruct (bft_quorum (config s) <=? yes).
  - apply wp_bind, wp_with_write; [done| |by intros ?%Hf]. intros _ h Hl.
    apply wp_bind, wp_with_write; [done| |simpl; by intros ?%Hl%Hf]. intros _ h' _. by apply wp_ret.
  - destruct (bft_quorum (config s) <=? no); [|by apply wp_ret].
    apply wp_bind, wp_with_write; [done| |by intros ?%Hf]. intros _ h Hl.
    apply wp_bind, wp_with_write; [done| |simpl; by intros ?%Hl%Hf]. intros _ h' _. by apply wp_ret.
Qed.

(** Which proposal a vote is for does not count. *)
Definition relabel (f : BftVote -> string) (v : BftVote) : BftVote :=
  mkVote (bv_vote_id v) (bv_round v) (f v) (bv_voter_id v) (bv_vote v) (bv_timestamp v) (bv_signature v).

Lemma count_relabel f b (vs : gmap string ValidatorInfo) (l : list BftVote) :
  count_votes b (filter (fun v => vi_status <$> vs !! bv_voter_id v = Some Active) (relabel f <$> l)) =
  count_votes b (filter (fun v => vi_status <$> vs !! bv_voter_id v = Some Active) l).
Proof.
  induction l as [|v l IH]; [done|]. unfold count_votes in *. simpl. rewrite !filter_cons. simpl.
  case_decide; [|apply IH]. rewrite !filter_cons. simpl. case_decide; [|apply IH].
  simpl. rewrite !Nat2Z.inj_succ. f_equal. apply IH.
Qed.
Lemma valid_relabel f b vs rv :
  count_votes b (valid_votes vs (relabel f <$> rv)) = count_votes b (valid_votes vs rv).
Proof.
  unfold valid_votes. rewrite map_to_list_fmap, <- list_fmap_compose.
  replace ((snd ∘ prod_map id (relabel f)) <$> map_to_list rv) with (relabel f <$> (map_to_list rv).*2).
  - apply count_relabel.
  - rewrite <- list_fmap_compose. apply list_fmap_ext. by intros ? [? ?] _.
Qed.
Lemma decision_relabel f round s :
  decision round (set_votes (alter (fun rv => relabel f <$> rv) round) s) = decision round s.
Proof.
  unfold decision, tally. simpl. rewrite lookup_alter_eq.
  destruct (votes s !! round) as [rv|]; simpl; rewrite ?valid_relabel; [|done]. done.
Qed.

(** A message whose signature is zero is accepted, whoever it names. *)
Lemma unsigned_message_accepted v s :
  is_zero64 (bv_signature v) = true -> process_message (MVote v) s = (Ok tt, set_held (held s) s).
Proof. intros Hz. unfold process_message, check_signature, task. by rewrite Hz. Qed.
End Theorems.

(** *** Configurations *)

(** [max_faulty_for_validators] is the largest valid number of faults. *)
Lemma max_faulty_correct n : 1 <= n <= 2 ^ 63 -> is_valid_bft_parameters n (max_faulty_for_validators n) = true /\
  is_valid_bft_parameters n (max_faulty_for_validators n + 1) = false.
Proof.
  intros Hn. unfold is_valid_bft_parameters, max_faulty_for_validators, wrap, U64_MAX. rewrite !Z.geb_leb, Z.leb_le, Z.leb_gt.
  rewrite (Z.mod_small (n - 1)), !Z.mod_small by (Z.div_mod_to_equations; lia). Z.div_mod_to_equations; lia.
Qed.
Example max_faulty_of_none : max_faulty_for_validators 0 = 6148914691236517205.
Proof. reflexivity. Qed.

(** *** Concrete runs *)

#[local] Instance demo_verify : Ed25519 := {| ed25519_verify pk m sig := bool_decide (sig = pk ++ m) |}.
#[local] Instance demo_sign : Ed25519Sign := {| public_key sk := sk; ed25519_sign sk m := sk ++ m |}.
#[local] Instance demo_hash : Blake3 := {| blake3 m := m |}.
Definition demo_ops : list op :=
  [OSetKey [x01]; OAdd (mkValidator "a" [x01] Active); OAdd (mkValidator "b" [x01] Active)].

Lemma demo_admissible : admissible [x01] 7 "p" "a" true (run demo_ops (new BftConfig_default)).
Proof.
  split; [by vm_compute..|by vm_compute| |by vm_compute].
  exists (mkValidator "a" [x01] Active). split_and!; [by vm_compute|by left|by vm_compute].
Qed.

(** A vote for "p" is recorded and never returns; afterwards "b" cannot vote. *)
Lemma no_round_ends_witness :
  let s1 := (step (OVote 7 "p" "a" true) (run demo_ops (new BftConfig_default))).2 in
  let s2 := run [OVote 8 "p" "b" true; ONext] s1 in
  is_Some (votes s1 !! 0) /\ votes s2 = votes s1.
Proof.
  destruct (no_round_ends BftConfig_default demo_ops) as (_ & _ & _ & _ & Hw).
  destruct (Hw [x01] 7 "p" "a" true demo_admissible) as [(x & Hx & _) Hv]. split; [by rewrite Hx|].
  exact (proj1 (Hv [OVote 8 "p" "b" true; ONext])).
Defined.

End BftC.
