(* ===== verification/Slots.v ===== *)
(** * Slots and leaders

    [savitri-core/src/core/slot_scheduler.rs] and [unified_slot.rs]: the slot
    of a time, the leader of a slot, the last slot that was seen and its copy
    in the metadata of the storage ([savitri-storage/src/storage/mod.rs]).
    The clock is an argument.  The channel, the task and the sleeping loop
    around the scheduler are left out; database accesses succeed.  A division
    by zero and an index out of range are the outcome [Panic]. *)

From stdpp Require Import gmap pretty.
From Stdlib Require Import Strings.Byte Strings.Ascii Strings.String.
From stdpp Require Import gmap pretty sorting.
From S2P Require Import Prelude Codec.

(** [VerifyingKey::from_bytes] succeeds. *)
Class Ed25519Point := { point_valid : bytes -> bool }.

Module Slots.

Inductive SlotRole := Leader | Follower | Observer.
Definition is_leader (r : SlotRole) : bool := match r with Leader => true | _ => false end.
Definition is_validator_role (r : SlotRole) : bool := match r with Observer => false | _ => true end.

Record SlotInfo := mkSlotInfo {
  slot : Z;
  round : Z;
  leader : option string;
  role : SlotRole;
  start_ms : Z;
  end_ms : Z;
}.

Inductive SlotErr := ZeroDuration | NoValidators | EmptyId | NoBase | DurationTooLong | Panic.

(** The duration in nanoseconds. *)
Record SlotSchedulerConfig := mkConfig {
  slot_duration : Z;
  cfg_validators : list string;
  cfg_local_id : string;
  slot_base_ms : option Z;
}.

Definition is_space (a : ascii) : bool := let n := N_of_ascii a in ((9 <=? n) && (n <=? 13))%N || (n =? 32)%N.
(** [s.trim().is_empty()], for the white space of ASCII. *)
Definition blank (s : string) : bool := forallb is_space (list_ascii_of_string s).

Definition validate (c : SlotSchedulerConfig) : result SlotErr unit :=
  if slot_duration c =? 0 then Err ZeroDuration
  else if bool_decide (cfg_validators c = []) then Err NoValidators
  else if blank (cfg_local_id c) then Err EmptyId
  else if bool_decide (slot_base_ms c = None) then Err NoBase
  else Ok tt.

(** The two keys of the metadata. *)
Record Meta := mkMeta { meta_base : option Z; meta_last : option Z }.

Record Scheduler := mkSched {
  slot_duration_ms : Z;
  base_ms : Z;
  validators : list string;
  local_id : string;
  is_validator : bool;
  last_slot : Z;
  meta : Meta;
}.

Definition get_consensus_slot_base_ms (m : Meta) : option Z := meta_base m.
Definition set_consensus_slot_base_ms (v : Z) (m : Meta) : Meta := mkMeta (Some v) (meta_last m).
Definition get_consensus_last_slot (m : Meta) : option Z := meta_last m.
Definition set_consensus_last_slot (v : Z) (m : Meta) : Meta := mkMeta (meta_base m) (Some v).

Definition slot_from_time (base d now : Z) : result SlotErr Z :=
  if now <=? base then Ok 0 else if d =? 0 then Err Panic else Ok ((now - base) / d).

(** [SlotScheduler::new], with the metadata it leaves. *)
Definition new (c : SlotSchedulerConfig) (now : Z) (m : Meta) : result SlotErr Scheduler :=
  match validate c with
  | Err e => Err e
  | Ok _ =>
      let d := slot_duration c / 1000000 in
      if U64_MAX <? d then Err DurationTooLong
      else
        let cfg_base := default 0 (slot_base_ms c) in
        let base := default cfg_base (get_consensus_slot_base_ms m) in
        let m1 := match get_consensus_slot_base_ms m with Some _ => m | None => set_consensus_slot_base_ms cfg_base m end in
        match slot_from_time base d now with
        | Err e => Err e
        | Ok now_slot =>
            let initial := match get_consensus_last_slot m1 with Some stored => Z.max stored now_slot | None => now_slot end in
            let m2 := match get_consensus_last_slot m1 with
                      | Some stored => if stored <? initial then set_consensus_last_slot initial m1 else m1
                      | None => set_consensus_last_slot initial m1
                      end in
            Ok (mkSched d base (cfg_validators c) (cfg_local_id c)
                  (bool_decide (cfg_local_id c ∈ cfg_validators c)) initial m2)
        end
  end.

(** *** Leaders *)

(** The hexadecimal digits of a string, the rest ignored. *)
Fixpoint hex_digits (s : string) : list Z :=
  match s with
  | EmptyString => []
  | String a s => match char_nibble a with Some n => Z.of_N n :: hex_digits s | None => hex_digits s end
  end.
(** [digits.chunks(2).map(..)]: a last single digit is an index out of range. *)
Fixpoint pair_digits (l : list Z) : result SlotErr bytes :=
  match l with
  | [] => Ok []
  | [_] => Err Panic
  | a :: b :: l => match pair_digits l with Ok r => Ok (byte_of_Z (a * 16 + b) :: r) | Err e => Err e end
  end.

Section Leaders.
Context `{Ed25519Point, Sha256}.

Definition validator_key (v : string) : result SlotErr (option bytes) :=
  match pair_digits (hex_digits v) with
  | Err e => Err e
  | Ok b => Ok (if bool_decide (length b = 32%nat) && point_valid b then Some b else None)
  end.
Fixpoint validator_keys (l : list string) : result SlotErr (list bytes) :=
  match l with
  | [] => Ok []
  | v :: l =>
      match validator_key v with
      | Err e => Err e
      | Ok k => match validator_keys l with Ok r => Ok (match k with Some b => b :: r | None => r end) | Err e => Err e end
      end
  end.

Definition calculate_deterministic_seed (s : Scheduler) (slot : Z) : bytes :=
  sha256 (bytes_of_string "savitri-slot-leader-v1" ++ to_le_bytes 8 (base_ms s) ++ to_le_bytes 8 slot
    ++ to_le_bytes 8 (slot_duration_ms s) ++ concat (bytes_of_string <$> validators s)).

Definition score_of (scores : gmap bytes Z) (pk : bytes) : Z := default 1 (scores !! pk).

(** The loop over the validators, from [selection] on. *)
Fixpoint select (scores : gmap bytes Z) (selection : Z) (l : list bytes) : option bytes :=
  match l with
  | [] => None
  | pk :: l =>
      let score := score_of scores pk in
      if selection <? score then Some pk else select scores (selection - score) l
  end.
Fixpoint total (scores : gmap bytes Z) (l : list bytes) : Z :=
  match l with [] => 0 | pk :: l => score_of scores pk + total scores l end.

Definition calculate_leader (s : Scheduler) (slot : Z) (scores : gmap bytes Z) : result SlotErr (option bytes) :=
  if bool_decide (validators s = []) then Ok None
  else
    match validator_keys (validators s) with
    | Err e => Err e
    | Ok keys =>
        if bool_decide (keys = []) then Ok None
        else
          let seed := calculate_deterministic_seed s slot in
          let total_score := wrap U32_MAX (total scores keys) in
          if total_score =? 0 then Ok (head keys)
          else
            let selection := from_le_bytes (take 4 seed) mod total_score in
            Ok (match select scores selection keys with Some pk => Some pk | None => head keys end)
    end.

(** [pk.to_bytes().iter().map(|b| b.to_string()).collect()]: the bytes in
    decimal, one after the other. *)
Definition leader_string (pk : bytes) : string := String.concat "" ((fun b => pretty (byte_to_Z b)) <$> pk).

(** *** The state *)

Definition P (A : Type) : Type := M Scheduler SlotErr A.

Definition set_last (v : Z) (s : Scheduler) : Scheduler :=
  mkSched (slot_duration_ms s) (base_ms s) (validators s) (local_id s) (is_validator s) v (meta s).
Definition set_meta (f : Meta -> Meta) (s : Scheduler) : Scheduler :=
  mkSched (slot_duration_ms s) (base_ms s) (validators s) (local_id s) (is_validator s) (last_slot s) (f (meta s)).

(** The slot of a time, never before the last one. *)
Definition slot_at (now : Z) : P Z :=
  s ← get;
  t ← lift (slot_from_time (base_ms s) (slot_duration_ms s) now);
  mret (if t <? last_slot s then last_slot s else t).

Definition next_slot_start_ms (now : Z) : P Z :=
  t ← slot_at now;
  s ← get;
  mret (wrap U64_MAX (base_ms s + wrap U64_MAX (saturating_add U64_MAX t 1 * slot_duration_ms s))).

Definition slot_info_at (now : Z) : P SlotInfo :=
  t ← slot_at now;
  s ← get;
  (if last_slot s <? t then modify (set_meta (set_consensus_last_slot t));; modify (set_last t) else mret tt);;
  let start := wrap U64_MAX (base_ms s + wrap U64_MAX (t * slot_duration_ms s)) in
  leader ← (if bool_decide (validators s = []) then mret None
            else l ← lift (calculate_leader s t ∅); mret (leader_string <$> l));
  let role := match leader, is_validator s with
              | Some l, true => if bool_decide (l = local_id s) then Leader else Follower
              | _, _ => Observer
              end in
  let round := if bool_decide (validators s = []) then 0
               else wrap U32_MAX (t mod Z.of_nat (length (validators s))) in
  mret (mkSlotInfo t round leader role start (wrap U64_MAX (start + slot_duration_ms s))).
End Leaders.

(** *** [UnifiedSlotConfig] *)

Record UnifiedSlotConfig := mkUnified {
  heartbeat_interval_ms : Z;
  slots_per_epoch : Z;
  monolith_epoch_ms : Z;
  genesis_timestamp_ms : Z;
}.
Definition UnifiedSlotConfig_default : UnifiedSlotConfig := mkUnified 5000 20 86400000 0.
Definition UnifiedSlotConfig_new (heartbeat slots monolith genesis : Z) : UnifiedSlotConfig :=
  mkUnified (Z.max heartbeat 1) (Z.max slots 1) monolith genesis.

Definition epoch_duration_ms (c : UnifiedSlotConfig) : Z :=
  saturating_mul U64_MAX (heartbeat_interval_ms c) (slots_per_epoch c).
Definition epochs_per_monolith (c : UnifiedSlotConfig) : Z :=
  let epoch_ms := saturating_mul U64_MAX (heartbeat_interval_ms c) (slots_per_epoch c) in
  if epoch_ms =? 0 then 864 else monolith_epoch_ms c / epoch_ms.
Definition elapsed_ms (now : Z) (c : UnifiedSlotConfig) : Z := saturating_sub now (genesis_timestamp_ms c).
Definition current_slot (now : Z) (c : UnifiedSlotConfig) : Z := elapsed_ms now c / Z.max (heartbeat_interval_ms c) 1.
Definition current_epoch (now : Z) (c : UnifiedSlotConfig) : Z := current_slot now c / Z.max (slots_per_epoch c) 1.
Definition current_round (now : Z) (c : UnifiedSlotConfig) : Z :=
  wrap U32_MAX (current_slot now c mod Z.max (slots_per_epoch c) 1).
Definition current_monolith_epoch (now : Z) (c : UnifiedSlotConfig) : Z :=
  current_epoch now c / Z.max (epochs_per_monolith c) 1.
Definition slot_start_ms (s : Z) (c : UnifiedSlotConfig) : Z :=
  saturating_add U64_MAX (genesis_timestamp_ms c) (saturating_mul U64_MAX s (heartbeat_interval_ms c)).
Definition at_timestamp_ms (ts : Z) (c : UnifiedSlotConfig) : Z * Z * Z :=
  let elapsed := saturating_sub ts (genesis_timestamp_ms c) in
  let slot := elapsed / Z.max (heartbeat_interval_ms c) 1 in
  (slot, slot / Z.max (slots_per_epoch c) 1, wrap U32_MAX (slot mod Z.max (slots_per_epoch c) 1)).
Definition is_monolith_boundary (now : Z) (c : UnifiedSlotConfig) : bool :=
  let elapsed := elapsed_ms now c in
  let epoch_ms := epoch_duration_ms c in
  if epoch_ms =? 0 then false
  else
    let m := epochs_per_monolith c in
    if m =? 0 then false
    else ((elapsed / epoch_ms) mod m =? 0) && (elapsed mod epoch_ms <? heartbeat_interval_ms c).

End Slots.

(** ** What the slot scheduler promises

    The leader of a slot is chosen in proportion to the scores, the slots that
    are reported never go back, also over a restart, and the unified slots are
    read back from their times.  A node whose identifier is not made of decimal
    digits alone is never told that it leads. *)

Module SlotsC.
Import Slots.

(** *** Selection *)

Lemma total_nonneg scores l : (forall pk, 0 <= score_of scores pk) -> 0 <= total scores l.
Proof. intros Hs. induction l as [|pk l IH]; simpl; [done|]. specialize (Hs pk). lia. Qed.

Lemma select_at scores l i pk v :
  (forall pk, 0 <= score_of scores pk) -> l !! i = Some pk ->
  total scores (take i l) <= v < total scores (take i l) + score_of scores pk -> select scores v l = Some pk.
Proof.
  intros Hs. revert i v. induction l as [|x l IH]; intros i v Hi Hv; [done|]. destruct i as [|i]; simpl in *.
  - injection Hi as ->. destruct (Z.ltb_spec v (score_of scores pk)); [done|lia].
  - pose proof (total_nonneg scores (take i l) Hs). destruct (Z.ltb_spec v (score_of scores x)); [lia|].
    apply (IH i); [done|lia].
Qed.

Lemma total_take scores l i pk : l !! i = Some pk -> total scores (take (S i) l) = total scores (take i l) + score_of scores pk.
Proof.
  revert i. induction l as [|x l IH]; intros i Hi; [done|]. destruct i as [|i]; simpl in *.
  - injection Hi as ->. rewrite ?take_0. simpl. lia.
  - rewrite IH by done. lia.
Qed.
Lemma total_prefix scores l i : (forall pk, 0 <= score_of scores pk) -> total scores (take i l) <= total scores l.
Proof.
  intros Hs. revert i. induction l as [|x l IH]; intros i; [by rewrite take_nil|]. destruct i as [|i]; simpl.
  - pose proof (total_nonneg scores l Hs). specialize (Hs x). lia.
  - specialize (IH i). lia.
Qed.
Lemma select_some scores l v : 0 <= v < total scores l -> (forall pk, 0 <= score_of scores pk) ->
  exists i pk, l !! i = Some pk /\ total scores (take i l) <= v < total scores (take i l) + score_of scores pk.
Proof.
  intros Hv Hs. revert v Hv. induction l as [|x l IH]; intros v Hv; simpl in *; [lia|].
  destruct (Z.ltb_spec v (score_of scores x)) as [Hl|Hl].
  - exists 0%nat, x. rewrite !take_0. simpl. split; [done|lia].
  - destruct (IH (v - score_of scores x)) as (i & pk & Hi & Hr); [lia|]. exists (S i), pk. simpl. split; [done|lia].
Qed.

Section Leaders.
Context `{Ed25519Point, Sha256}.

(** The leader of a slot is the key in whose share of the total score the
    seed of the slot falls: the shares are as long as the scores, lie one
    after the other and cover the total. *)
Theorem leader_in_its_share s slot scores keys :
  validators s <> [] -> validator_keys (validators s) = Ok keys -> keys <> [] ->
  (forall pk, 0 <= score_of scores pk) -> 0 < total scores keys <= U32_MAX ->
  let v := from_le_bytes (take 4 (calculate_deterministic_seed s slot)) mod total scores keys in
  exists i pk, keys !! i = Some pk /\ calculate_leader s slot scores = Ok (Some pk) /\
    total scores (take i keys) <= v < total scores (take (S i) keys) /\
    (forall j pk', keys !! j = Some pk' -> total scores (take (S j) keys) - total scores (take j keys) = score_of scores pk').
Proof.
  intros Hv Hk Hne Hs Ht v. assert (0 <= v < total scores keys) as Hr by (apply Z.mod_pos_bound; lia).
  destruct (select_some scores keys v Hr Hs) as (i & pk & Hi & Hb). exists i, pk.
  split; [done|]. split; [|split; [by rewrite (total_take _ _ _ _ Hi)|intros j pk' Hj; rewrite (total_take _ _ _ _ Hj); lia]].
  unfold calculate_leader. rewrite (bool_decide_eq_false_2 _ Hv), Hk, (bool_decide_eq_false_2 _ Hne).
  replace (wrap U32_MAX (total scores keys)) with (total scores keys) by mlia.
  destruct (Z.eqb_spec (total scores keys) 0); [lia|]. fold v. by rewrite (select_at _ _ i pk).
Qed.

(** *** The leader's name *)

Definition is_digit (a : ascii) : bool := let n := N_of_ascii a in ((48 <=? n) && (n <=? 57))%N.
Definition decimal (s : string) : bool := forallb is_digit (list_ascii_of_string s).

Lemma decimal_app a b : decimal (a +:+ b) = decimal a && decimal b.
Proof. unfold decimal. induction a as [|x a IH]; simpl; [done|]. by rewrite IH, andb_assoc. Qed.
Lemma decimal_byte b : decimal (pretty (byte_to_Z b)) = true.
Proof. destruct b; reflexivity. Qed.
Lemma decimal_leader pk : decimal (leader_string pk) = true.
Proof.
  unfold leader_string. induction pk as [|b pk IH]; [done|]. simpl in *. destruct pk as [|b' pk]; [apply decimal_byte|].
  simpl in *. rewrite decimal_app, decimal_byte. exact IH.
Qed.

Lemma wp_slot_at now (Q : Z -> Scheduler -> Prop) s :
  (forall t, last_slot s <= t -> (forall r, slot_from_time (base_ms s) (slot_duration_ms s) now = Ok r -> r <= t) -> Q t s) ->
  wp (slot_at now) Q (fun _ s' => s' = s) s.
Proof.
  intros HQ. unfold slot_at. apply wp_bind, wp_get, wp_bind, wp_lift; [|done]. intros t Ht. apply wp_ret, HQ.
  - destruct (Z.ltb_spec t (last_slot s)); lia.
  - intros r Hr. rewrite Ht in Hr. injection Hr as ->. destruct (Z.ltb_spec r (last_slot s)); lia.
Qed.

(** The fixed part of a scheduler, and its slot with the persisted copy. *)
Definition same_setup (s s' : Scheduler) : Prop :=
  slot_duration_ms s' = slot_duration_ms s /\ base_ms s' = base_ms s /\ validators s' = validators s /\
  local_id s' = local_id s /\ is_validator s' = is_validator s /\ meta_base (meta s') = meta_base (meta s).
Definition synced (s : Scheduler) : Prop := meta_last (meta s) = Some (last_slot s).

Lemma wp_slot_info now s :
  wp (slot_info_at now) (fun i s' => same_setup s s' /\ last_slot s <= slot i /\ last_slot s' = slot i /\
       (forall r, slot_from_time (base_ms s) (slot_duration_ms s) now = Ok r -> r <= slot i) /\
       (synced s -> synced s') /\ (decimal (local_id s) = false -> role i <> Leader))
    (fun _ s' => same_setup s s' /\ last_slot s <= last_slot s' /\ (synced s -> synced s')) s.
Proof.
  unfold slot_info_at. apply wp_bind. eapply wp_mono; [apply (wp_slot_at now (fun t s' => s' = s /\ last_slot s <= t /\
    forall r, slot_from_time (base_ms s) (slot_duration_ms s) now = Ok r -> r <= t)); by intros|
    |intros ? ? ->; split; [done|]; split; [done|done]].
  intros t ? (-> & Hle & Hr). apply wp_bind, wp_get, wp_bind.
  set (s1 := if last_slot s <? t then set_last t (set_meta (set_consensus_last_slot t) s) else s).
  assert (H1 : same_setup s s1 /\ last_slot s1 = t /\ (synced s -> synced s1)).
  { unfold s1. destruct (Z.ltb_spec (last_slot s) t); [done|]. split; [done|]. split; [lia|done]. }
  enough (Hk : wp (leader ← (if bool_decide (validators s = []) then mret None
            else l ← lift (calculate_leader s t ∅); mret (leader_string <$> l));
     mret (mkSlotInfo t (if bool_decide (validators s = []) then 0 else wrap U32_MAX (t mod Z.of_nat (length (validators s)))) leader
       (match leader, is_validator s with Some l, true => if bool_decide (l = local_id s) then Leader else Follower | _, _ => Observer end)
       (wrap U64_MAX (base_ms s + wrap U64_MAX (t * slot_duration_ms s)))
       (wrap U64_MAX (wrap U64_MAX (base_ms s + wrap U64_MAX (t * slot_duration_ms s)) + slot_duration_ms s))))
    (fun i s' => same_setup s s' /\ last_slot s <= slot i /\ last_slot s' = slot i /\
       (forall r, slot_from_time (base_ms s) (slot_duration_ms s) now = Ok r -> r <= slot i) /\
       (synced s -> synced s') /\ (decimal (local_id s) = false -> role i <> Leader))
    (fun _ s' => same_setup s s' /\ last_slot s <= last_slot s' /\ (synced s -> synced s')) s1).
  { unfold s1 in Hk. destruct (last_slot s <? t); [apply wp_bind, wp_modify, wp_modify|apply wp_ret]; exact Hk. }
  destruct H1 as (Hs1 & Hl1 & Hy1). apply wp_bind. case_bool_decide.
  - apply wp_ret, wp_ret. simpl. split_and!; auto.
  - apply wp_bind, wp_lift; [|intros e _; split_and!; auto; lia]. intros l Hl. apply wp_ret, wp_ret. simpl. split_and!; auto.
    intros Hd. destruct l as [pk|]; simpl; [|done]. destruct (is_validator s); [|done]. case_bool_decide as E; [|done].
    rewrite <- E, decimal_leader in Hd. done.
Qed.

(** A node whose identifier holds a character that is not a decimal digit is
    never told that it leads, whatever its validator set and the time. *)
Theorem never_told_to_lead now s i s' :
  decimal (local_id s) = false -> slot_info_at now s = (Ok i, s') -> role i <> Leader.
Proof. intros Hd E. pose proof (wp_ok _ _ _ _ _ _ (wp_slot_info now s) E) as (_ & _ & _ & _ & _ & Hr). auto. Qed.

(** *** Slots in time *)

Lemma Sorted_app_mid (a b c d : Z) l1 l2 :
  Sorted Z.le (a :: l1 ++ [b]) -> b <= c -> Sorted Z.le (c :: l2 ++ [d]) -> StronglySorted Z.le (l1 ++ l2).
Proof.
  intros H1%Sorted_StronglySorted Hbc H2%Sorted_StronglySorted; [|intros ???; lia..].
  apply StronglySorted_inv in H1 as [H1 _]. apply StronglySorted_app in H1 as (Hb & H1 & _).
  apply StronglySorted_inv in H2 as [H2 Hc]. apply StronglySorted_app in H2 as (_ & H2 & _).
  apply StronglySorted_app. split; [|done]. intros x y Hx Hy. specialize (Hb x b Hx). rewrite Forall_forall in Hc.
  assert (x <= b) by (apply Hb; set_solver). specialize (Hc y). assert (c <= y) by (apply Hc; set_solver). lia.
Qed.

Fixpoint observe (l : list Z) : P (list Z) :=
  match l with
  | [] => mret []
  | now :: l => i ← slot_info_at now; r ← observe l; mret (slot i :: r)
  end.

Lemma wp_observe l s :
  wp (observe l) (fun r s' => same_setup s s' /\ Sorted Z.le (last_slot s :: r ++ [last_slot s']) /\ (synced s -> synced s'))
    (fun _ s' => same_setup s s' /\ last_slot s <= last_slot s' /\ (synced s -> synced s')) s.
Proof.
  revert s. induction l as [|now l IH]; intros s; simpl.
  - apply wp_ret. simpl. split; [done|]. split; [|done]. repeat constructor. lia.
  - apply wp_bind. eapply wp_mono; [apply wp_slot_info| |done]. intros i s1 (Hs & Hle & Hl & _ & Hy & _). apply wp_bind.
    eapply wp_mono; [apply IH| |].
    + intros r s2 (Hs2 & Ho & Hy2). apply wp_ret. rewrite Hl in Ho. split; [|split; [|auto]].
      * unfold same_setup in *. intuition congruence.
      * simpl. constructor; [exact Ho|]. by constructor.
    + intros _ s2 (Hs2 & Ho & Hy2). split; [|split; [lia|auto]]. unfold same_setup in *. intuition congruence.
Qed.

Lemma new_spec c now m s :
  new c now m = Ok s -> synced s /\ (forall v, meta_last m = Some v -> v <= last_slot s) /\
  base_ms s = default (default 0 (slot_base_ms c)) (meta_base m) /\ meta_base (meta s) = Some (base_ms s).
Proof.
  unfold new, synced. destruct (validate c); [|done]. destruct (U64_MAX <? _); [done|].
  destruct (slot_from_time _ _ _) as [t|]; [|done]. intros [= <-]. simpl.
  destruct m as [[b|] [v|]]; simpl; try destruct (Z.ltb_spec v (Z.max v t)); simpl; split_and!; try done;
    solve [f_equal; lia|intros w [= <-]; lia].
Qed.

(** C26: The slots that a node reports never go back: not within a run, not over a
    restart on the metadata the run left (whatever the clock then says), and
    the base of the slots stays the one that was stored first. *)
Theorem slots_never_go_back c now0 m s0 times1 r1 s1 c' now1 s2 times2 r2 s3 :
  new c now0 m = Ok s0 -> observe times1 s0 = (Ok r1, s1) ->
  new c' now1 (meta s1) = Ok s2 -> observe times2 s2 = (Ok r2, s3) ->
  StronglySorted Z.le (r1 ++ r2) /\ base_ms s3 = base_ms s0.
Proof.
  intros E0 E1 E2 E3. destruct (new_spec _ _ _ _ E0) as (Hy0 & _ & _ & Hb0).
  pose proof (wp_ok _ _ _ _ _ _ (wp_observe _ _) E1) as (Hs1 & Ho1 & Hy1).
  destruct (new_spec _ _ _ _ E2) as (Hy2 & Hl2 & Hb2 & _).
  pose proof (wp_ok _ _ _ _ _ _ (wp_observe _ _) E3) as (Hs3 & Ho3 & _).
  specialize (Hl2 _ (Hy1 Hy0)). split.
  - by eapply Sorted_app_mid; [exact Ho1|exact Hl2|exact Ho3].
  - destruct Hs3 as (_ & -> & _). destruct Hs1 as (_ & _ & _ & _ & _ & Hm1). by rewrite Hb2, Hm1, Hb0.
Qed.
End Leaders.

(** *** The unified slots *)

(** A slot of the unified schedule is read back from any of its instants, with
    its epoch and its round, as long as its start does not saturate. *)
Theorem unified_slot_round_trip c s d :
  0 < heartbeat_interval_ms c -> 0 < slots_per_epoch c <= U32_MAX -> 0 <= genesis_timestamp_ms c -> 0 <= s ->
  genesis_timestamp_ms c + s * heartbeat_interval_ms c <= U64_MAX -> 0 <= d < heartbeat_interval_ms c ->
  at_timestamp_ms (slot_start_ms s c + d) c = (s, s / slots_per_epoch c, s mod slots_per_epoch c).
Proof.
  intros Hh Hp Hg Hs Hm Hd. unfold at_timestamp_ms, slot_start_ms.
  assert (0 <= s * heartbeat_interval_ms c) by nia.
  replace (saturating_mul U64_MAX s (heartbeat_interval_ms c)) with (s * heartbeat_interval_ms c) by mlia.
  replace (saturating_add U64_MAX (genesis_timestamp_ms c) (s * heartbeat_interval_ms c))
    with (genesis_timestamp_ms c + s * heartbeat_interval_ms c) by mlia.
  replace (saturating_sub (genesis_timestamp_ms c + s * heartbeat_interval_ms c + d) (genesis_timestamp_ms c))
    with (d + s * heartbeat_interval_ms c) by mlia.
  rewrite (Z.max_l (heartbeat_interval_ms c)), (Z.max_l (slots_per_epoch c)) by lia.
  rewrite Z.div_add, (Z.div_small d) by lia. rewrite Z.add_0_l.
  pose proof (Z.mod_pos_bound s (slots_per_epoch c) ltac:(lia)). do 2 f_equal. mlia.
Qed.

(** *** Witnesses *)

#[local] Instance wit_point : Ed25519Point := {| point_valid _ := true |}.
#[local] Instance wit_sha : Sha256 := {| sha256 b := drop 22 b |}.

Definition key_of (c : string) : string := String.concat "" (replicate 32 c).
Definition two : list string := [key_of "0a"; key_of "0b"].
Definition config : SlotSchedulerConfig := mkConfig 1000000000 two (key_of "0a") (Some 5000).
Definition sched0 : Scheduler := mkSched 1000 5000 two (key_of "0a") true 0 (mkMeta (Some 5000) (Some 0)).

Definition pk_of (z : Z) : bytes := replicate 32 (byte_of_Z z).

Lemma leader_in_its_share_witness :
  exists i pk, [pk_of 10; pk_of 11] !! i = Some pk /\ calculate_leader sched0 3 {[ pk_of 10 := 7 ]} = Ok (Some pk).
Proof.
  destruct (leader_in_its_share sched0 3 {[ pk_of 10 := 7 ]} [pk_of 10; pk_of 11]) as (i & pk & Hi & Hl & _).
  - discriminate.
  - vm_compute; reflexivity.
  - discriminate.
  - intros pk. unfold score_of. destruct (decide (pk = pk_of 10)) as [->|Hn].
    + rewrite lookup_singleton_eq. simpl. lia.
    + rewrite lookup_singleton_ne by congruence. simpl. lia.
  - vm_compute; split; [reflexivity|discriminate].
  - exists i, pk. split; [exact Hi|exact Hl].
Defined.

Lemma never_told_to_lead_witness :
  exists i s', slot_info_at 8200 sched0 = (Ok i, s') /\ slot i = 3 /\ role i <> Leader.
Proof.
  destruct (slot_info_at 8200 sched0) as [[i|e] s'] eqn:E; [|vm_compute in E; discriminate E].
  exists i, s'. split; [reflexivity|]. split.
  - assert (match fst (slot_info_at 8200 sched0) with Ok i => slot i | Err _ => 0 end = 3) as Hs by (vm_compute; reflexivity).
    rewrite E in Hs. exact Hs.
  - apply (never_told_to_lead 8200 sched0 i s'); [vm_compute; reflexivity|exact E].
Defined.

Lemma slots_never_go_back_witness :
  exists s0 s1 s2 r1 r2, new config 7300 (mkMeta None None) = Ok s0 /\
    fst (observe [9500; 8100] s0) = Ok r1 /\ new config 6000 (meta s1) = Ok s2 /\ fst (observe [6100; 12000] s2) = Ok r2 /\
    r1 ++ r2 = [4; 4; 4; 7] /\ StronglySorted Z.le (r1 ++ r2).
Proof.
  set (s0 := mkSched 1000 5000 two (key_of "0a") true 2 (mkMeta (Some 5000) (Some 2))).
  set (s1 := mkSched 1000 5000 two (key_of "0a") true 4 (mkMeta (Some 5000) (Some 4))).
  set (s3 := mkSched 1000 5000 two (key_of "0a") true 7 (mkMeta (Some 5000) (Some 7))).
  exists s0, s1, s1, [4; 4], [4; 7].
  destruct (slots_never_go_back config 7300 (mkMeta None None) s0 [9500; 8100] [4; 4] s1 config 6000 s1 [6100; 12000] [4; 7] s3)
    as [Hs _]; [vm_compute; reflexivity..|].
  repeat (split; [vm_compute; reflexivity|]). exact Hs.
Defined.

Lemma unified_slot_round_trip_witness :
  at_timestamp_ms (slot_start_ms 47 UnifiedSlotConfig_default + 4999) UnifiedSlotConfig_default = (47, 2, 7).
Proof. apply (unified_slot_round_trip UnifiedSlotConfig_default 47 4999); vm_compute; intuition discriminate. Defined.
End SlotsC.
