(* ===== verification/FlAi.v ===== *)
(** * Federated learning: models, rounds, updates and rewards

    [Savitri-contracts/src/contracts/fl/mod.rs] ([FlAiManager]) and the two
    files that repeat its operations, [job_lifecycle.rs] and
    [model_registry.rs] (Modules [JobLifecycle] and [ModelRegistry]: the
    functions have the text of their namesakes, so they are those).  Every
    record lies in contract storage, one word per field, from a slot that is
    hashed from its keys.  A slot plus an offset wraps, as in a release build.

    The functions take an optional meter, [es_gas].  Events go to an event
    system created for the call and dropped after it, so that only the gas of
    a log is left of them. *)

From S2P Require Import Prelude OrdMap Gas ContractStorage Codec BaseContract Savitri20.
From Stdlib Require Import Strings.Byte.
Import CS.

Module Fl.

Definition SLOT_STORAGE_VERSION : Z := 100.
Definition SLOT_TREASURY_ADDRESS : Z := 101.
Definition SLOT_TREASURY_FEE_BPS : Z := 102.
Definition SLOT_CONTRACT_REGISTRY_HASH : Z := 103.
Definition SLOT_MODEL_COUNT : Z := 110.

Definition SLOT_MODELS_BASE : Z := 200.
Definition SLOT_VERSIONS_BASE : Z := 300.
Definition SLOT_ROUNDS_BASE : Z := 400.
Definition SLOT_UPDATES_BASE : Z := 500.
Definition SLOT_ROLES_BASE : Z := 600.
Definition SLOT_ALLOWLIST_BASE : Z := 700.
Definition SLOT_DENYLIST_BASE : Z := 800.
Definition SLOT_NONCES_BASE : Z := 900.
Definition SLOT_CLAIM_BASE : Z := 1000.
Definition SLOT_POOL_BASE : Z := 1100.

Definition MODEL_OFFSET_CREATOR : Z := 0.
Definition MODEL_OFFSET_NFT_CONTRACT : Z := 1.
Definition MODEL_OFFSET_TOKEN_CLASS : Z := 2.
Definition MODEL_OFFSET_CURRENT_VERSION : Z := 3.
Definition MODEL_OFFSET_METADATA : Z := 4.
Definition MODEL_OFFSET_LICENSE : Z := 5.
Definition MODEL_OFFSET_ACCESS_POLICY : Z := 6.
Definition MODEL_OFFSET_REWARD_POLICY : Z := 7.
Definition MODEL_OFFSET_NEXT_ROUND : Z := 8.

Definition VERSION_OFFSET_PARENT : Z := 0.
Definition VERSION_OFFSET_WEIGHTS_COMMIT : Z := 1.
Definition VERSION_OFFSET_URI_HASH : Z := 2.
Definition VERSION_OFFSET_ROUND_ID : Z := 3.
Definition VERSION_OFFSET_AGGREGATOR : Z := 4.
Definition VERSION_OFFSET_TIMESTAMP : Z := 5.

Definition ROUND_OFFSET_STATUS : Z := 0.
Definition ROUND_OFFSET_BASE_VERSION : Z := 1.
Definition ROUND_OFFSET_OPEN_FROM : Z := 2.
Definition ROUND_OFFSET_OPEN_UNTIL : Z := 3.
Definition ROUND_OFFSET_MIN_UPDATES : Z := 4.
Definition ROUND_OFFSET_MAX_UPDATES : Z := 5.
Definition ROUND_OFFSET_UPDATE_COUNT : Z := 6.
Definition ROUND_OFFSET_AGGREGATED_COMMIT : Z := 7.
Definition ROUND_OFFSET_ACCEPTED_ROOT : Z := 8.
Definition ROUND_OFFSET_SCORE_ROOT : Z := 9.
Definition ROUND_OFFSET_CHECKPOINT_URI : Z := 10.

Definition UPDATE_OFFSET_COMMIT : Z := 0.
Definition UPDATE_OFFSET_URI_HASH : Z := 1.
Definition UPDATE_OFFSET_NONCE : Z := 2.
Definition UPDATE_OFFSET_TIMESTAMP : Z := 3.

Inductive Role := Creator | Viewer | Trainer | Aggregator.
Definition role_code (r : Role) : Z :=
  match r with Creator => 0 | Viewer => 1 | Trainer => 2 | Aggregator => 3 end.

Inductive RoundStatus := Planned | Open | Sealed | Finalized | Aborted.
#[global] Instance RoundStatus_eq_dec : EqDecision RoundStatus.
Proof. solve_decision. Defined.
Definition status_code (s : RoundStatus) : Z :=
  match s with Planned => 0 | Open => 1 | Sealed => 2 | Finalized => 3 | Aborted => 4 end.
Definition status_of (c : Z) : RoundStatus :=
  if c =? 1 then Open else if c =? 2 then Sealed else if c =? 3 then Finalized else if c =? 4 then Aborted else Planned.

Record ModelView := mkModel {
  creator : bytes;
  nft_contract : bytes;
  token_class : Z;
  current_version : Z;
  metadata_hash : bytes;
  license_hash : bytes;
  access_policy_hash : bytes;
  reward_policy_hash : bytes;
  next_round_id : Z;
}.

Record VersionView := mkVersion {
  parent_version : Z;
  weights_commit : bytes;
  v_uri_hash : bytes;
  v_round_id : Z;
  aggregator : bytes;
  v_timestamp : Z;
}.

Record RoundView := mkRound {
  status : RoundStatus;
  base_version : Z;
  open_from : Z;
  open_until : Z;
  min_updates : Z;
  max_updates : Z;
  update_count : Z;
  aggregated_commit : bytes;
  accepted_root : bytes;
  score_root : bytes;
  checkpoint_uri_hash : bytes;
}.

Record UpdateView := mkUpdate { commit : bytes; u_uri_hash : bytes; u_nonce : Z; u_timestamp : Z }.

(** *** Words *)

Section Words.
Context (st : Storage).

(** A word holding an [n]-byte integer at its front. *)
Definition int_word (n : nat) (v : Z) : bytes := to_le_bytes n v ++ zeros (32 - n).
Definition word_int (n : nat) (w : bytes) : Z := from_le_bytes (take n w).

Definition read_bytes32 (slot : Z) : X bytes :=
  v ← sload st slot;
  bail_if (negb (bool_decide (length v = 32%nat))) (Message "invalid storage length");;
  mret v.
Definition write_bytes32 (slot : Z) (value : bytes) : X unit :=
  bail_if (negb (bool_decide (length value = 32%nat))) (Message "value must be 32 bytes");;
  sstore st slot value.
Definition read_int (n : nat) (slot : Z) : X Z := v ← sload st slot; mret (word_int n v).
Definition write_int (n : nat) (slot v : Z) : X unit := sstore st slot (int_word n v).
Definition read_u8 := read_int 1.
Definition write_u8 := write_int 1.
Definition read_u16 := read_int 2.
Definition write_u16 := write_int 2.
Definition read_u32 := read_int 4.
Definition write_u32 := write_int 4.
Definition read_u64 := read_int 8.
Definition write_u64 := write_int 8.
Definition read_u128 := read_int 16.
Definition write_u128 := write_int 16.
Definition read_bool (slot : Z) : X bool := v ← read_u8 slot; mret (negb (v =? 0)).
Definition write_bool (slot : Z) (value : bool) : X unit := write_u8 slot (if value then 1 else 0).
End Words.

(** [emit_event] with a meter ([true]) or without, for an event with these
    topics and data: nothing but the gas of the log, a lack of which is
    ignored. *)
Definition emit_event (metered : bool) (topics : list bytes) (data : bytes) : X unit := fun s =>
  if metered then
    match meter (Gas.consume_log (Z.of_nat (length topics)) (Z.of_nat (length data))) s with
    | (_, s') => (Ok tt, s')
    end
  else (Ok tt, s).

Definition ensure_address32 (addr : bytes) : X unit :=
  bail_if (negb (bool_decide (length addr = 32%nat))) (Message "address must be 32 bytes").
Definition validate_fee_bps (fee_bps : Z) : X unit :=
  bail_if (1000 <? fee_bps) (Message "ERR_FEE_CONFIG_INVALID").

(** [if f(..).is_ok()]. *)
Definition is_ok {A} (m : X A) : X bool := fun s =>
  match m s with (Ok _, s') => (Ok true, s') | (Err _, s') => (Ok false, s') end.

(** *** Slots *)

Section Slots.
Context `{Keccak}.

Definition mapping_slot_single (key : bytes) (base : Z) : Z := hash_slot (keccak256 (key ++ to_le_bytes 8 base)).
Definition mapping_slot_double (k1 k2 : bytes) (base : Z) : Z := mapping_slot_single k2 (mapping_slot_single k1 base).
Definition mapping_slot_triple (k1 k2 k3 : bytes) (base : Z) : Z :=
  mapping_slot_single k3 (mapping_slot_single k2 (mapping_slot_single k1 base)).

Definition u64b (z : Z) : bytes := to_le_bytes 8 z.
Definition model_slot (model_id : Z) : Z := mapping_slot_single (u64b model_id) SLOT_MODELS_BASE.
Definition version_slot (model_id version_id : Z) : Z :=
  mapping_slot_double (u64b model_id) (u64b version_id) SLOT_VERSIONS_BASE.
Definition round_slot (model_id round_id : Z) : Z := mapping_slot_double (u64b model_id) (u64b round_id) SLOT_ROUNDS_BASE.
Definition update_slot (model_id round_id : Z) (contributor : bytes) : Z :=
  mapping_slot_triple (u64b model_id) (u64b round_id) contributor SLOT_UPDATES_BASE.
Definition role_slot (model_id : Z) (account : bytes) (role : Role) : Z :=
  mapping_slot_triple (u64b model_id) account (to_le_bytes 1 (role_code role)) SLOT_ROLES_BASE.
Definition claim_slot (model_id round_id : Z) (asset_id contributor : bytes) : Z :=
  mapping_slot_single contributor (mapping_slot_triple (u64b model_id) (u64b round_id) asset_id SLOT_CLAIM_BASE).
Definition pool_slot (model_id : Z) (asset_id : bytes) : Z := mapping_slot_double (u64b model_id) asset_id SLOT_POOL_BASE.
Definition allow_slot (model_id : Z) (account : bytes) : Z := mapping_slot_double (u64b model_id) account SLOT_ALLOWLIST_BASE.
Definition deny_slot (model_id : Z) (account : bytes) : Z := mapping_slot_double (u64b model_id) account SLOT_DENYLIST_BASE.
Definition nonce_slot (model_id : Z) (account : bytes) : Z := mapping_slot_double (u64b model_id) account SLOT_NONCES_BASE.

(** [slot + offset]. *)
Definition at_off (slot off : Z) : Z := wrap U64_MAX (slot + off).

(** *** Proofs *)

Definition keccak_concat (parts : list bytes) : bytes := keccak256 (concat parts).
Definition bytes_to_nodes (proof : bytes) : X (list bytes) :=
  bail_if (negb (length proof mod 32 =? 0)%nat) (Message "proof length invalid");;
  mret (Sav20.chunks proof).
Definition proof_step (hash sibling : bytes) : bytes :=
  if lex_leb hash sibling then keccak_concat [hash ++ sibling] else keccak_concat [sibling ++ hash].
Definition verify_merkle_proof (leaf root : bytes) (proof : list bytes) : bool :=
  bool_decide (fold_left proof_step proof leaf = root).

(** *** Views *)

Section Manager.
Context (st : Storage).
Notation rb := (read_bytes32 st).

Definition get_model (model_id : Z) : X ModelView :=
  let base := model_slot model_id in
  c ← rb (at_off base MODEL_OFFSET_CREATOR);
  bail_if (bool_decide (c = zeros 32)) (Message "ERR_INVALID_MODEL");;
  nft ← rb (at_off base MODEL_OFFSET_NFT_CONTRACT);
  cls ← read_u128 st (at_off base MODEL_OFFSET_TOKEN_CLASS);
  ver ← read_u64 st (at_off base MODEL_OFFSET_CURRENT_VERSION);
  meta ← rb (at_off base MODEL_OFFSET_METADATA);
  lic ← rb (at_off base MODEL_OFFSET_LICENSE);
  acc ← rb (at_off base MODEL_OFFSET_ACCESS_POLICY);
  rew ← rb (at_off base MODEL_OFFSET_REWARD_POLICY);
  nxt ← read_u64 st (at_off base MODEL_OFFSET_NEXT_ROUND);
  mret (mkModel c nft cls ver meta lic acc rew nxt).

Definition get_version (model_id version_id : Z) : X VersionView :=
  let slot := version_slot model_id version_id in
  parent ← read_u64 st (at_off slot VERSION_OFFSET_PARENT);
  w ← rb (at_off slot VERSION_OFFSET_WEIGHTS_COMMIT);
  bail_if (bool_decide (w = zeros 32)) (Message "ERR_INVALID_MODEL");;
  w' ← rb (at_off slot VERSION_OFFSET_WEIGHTS_COMMIT);
  uri ← rb (at_off slot VERSION_OFFSET_URI_HASH);
  rnd ← read_u64 st (at_off slot VERSION_OFFSET_ROUND_ID);
  agg ← rb (at_off slot VERSION_OFFSET_AGGREGATOR);
  ts ← read_u64 st (at_off slot VERSION_OFFSET_TIMESTAMP);
  mret (mkVersion parent w' uri rnd agg ts).

Definition get_round (model_id round_id : Z) : X RoundView :=
  let slot := round_slot model_id round_id in
  code ← read_u8 st (at_off slot ROUND_OFFSET_STATUS);
  until ← read_u64 st (at_off slot ROUND_OFFSET_OPEN_UNTIL);
  bail_if ((until =? 0) && negb (round_id =? 0)) (Message "ERR_INVALID_ROUND");;
  bv ← read_u64 st (at_off slot ROUND_OFFSET_BASE_VERSION);
  from ← read_u64 st (at_off slot ROUND_OFFSET_OPEN_FROM);
  until' ← read_u64 st (at_off slot ROUND_OFFSET_OPEN_UNTIL);
  mn ← read_u32 st (at_off slot ROUND_OFFSET_MIN_UPDATES);
  mx ← read_u32 st (at_off slot ROUND_OFFSET_MAX_UPDATES);
  cnt ← read_u32 st (at_off slot ROUND_OFFSET_UPDATE_COUNT);
  agg ← rb (at_off slot ROUND_OFFSET_AGGREGATED_COMMIT);
  acc ← rb (at_off slot ROUND_OFFSET_ACCEPTED_ROOT);
  sco ← rb (at_off slot ROUND_OFFSET_SCORE_ROOT);
  uri ← rb (at_off slot ROUND_OFFSET_CHECKPOINT_URI);
  mret (mkRound (status_of code) bv from until' mn mx cnt agg acc sco uri).

Definition get_update (model_id round_id : Z) (contributor : bytes) : X (option UpdateView) :=
  ensure_address32 contributor;;
  let slot := update_slot model_id round_id contributor in
  c ← rb (at_off slot UPDATE_OFFSET_COMMIT);
  if bool_decide (c = zeros 32) then mret None
  else
    uri ← rb (at_off slot UPDATE_OFFSET_URI_HASH);
    n ← read_u64 st (at_off slot UPDATE_OFFSET_NONCE);
    ts ← read_u64 st (at_off slot UPDATE_OFFSET_TIMESTAMP);
    mret (Some (mkUpdate c uri n ts)).

Definition get_nonce (model_id : Z) (contributor : bytes) : X Z := read_u64 st (nonce_slot model_id contributor).

Definition has_role (model_id : Z) (account : bytes) (role : Role) : X bool :=
  ensure_address32 account;; read_bool st (role_slot model_id account role).
Definition is_allowlisted (model_id : Z) (account : bytes) : X bool :=
  ensure_address32 account;; read_bool st (allow_slot model_id account).
Definition is_denylisted (model_id : Z) (account : bytes) : X bool :=
  ensure_address32 account;; read_bool st (deny_slot model_id account).
Definition is_claimed (model_id round_id : Z) (asset_id contributor : bytes) : X bool :=
  ensure_address32 contributor;; read_bool st (claim_slot model_id round_id asset_id contributor).

Definition get_treasury : X (bytes * Z) :=
  t ← rb SLOT_TREASURY_ADDRESS; fee ← read_u16 st SLOT_TREASURY_FEE_BPS; mret (t, fee).

(** *** Rights *)

Definition unauthorized : ContractError := Message "ERR_UNAUTHORIZED".

Definition ensure_creator (caller : bytes) (model_id : Z) : X unit :=
  model ← get_model model_id;
  bail_if (negb (bool_decide (caller = creator model))) unauthorized.

Definition ensure_creator_or_aggregator (caller : bytes) (model_id : Z) : X unit :=
  ok ← is_ok (ensure_creator caller model_id);
  if (ok : bool) then mret tt
  else r ← has_role model_id caller Aggregator; bail_if (negb r) unauthorized.

Definition ensure_trainer_allowed (caller : bytes) (model_id : Z) : X unit :=
  deny ← is_denylisted model_id caller;
  bail_if deny unauthorized;;
  allow ← is_allowlisted model_id caller;
  if (allow : bool) then mret tt
  else r ← has_role model_id caller Trainer; bail_if (negb r) unauthorized.

(** *** Models *)

Definition create_version_internal (model_id parent : Z) (weights uri : bytes) (round_id : Z)
    (agg : bytes) (timestamp : Z) : X unit :=
  current ← read_u64 st (at_off (model_slot model_id) MODEL_OFFSET_CURRENT_VERSION);
  let slot := version_slot model_id current in
  write_u64 st (at_off slot VERSION_OFFSET_PARENT) parent;;
  write_bytes32 st (at_off slot VERSION_OFFSET_WEIGHTS_COMMIT) weights;;
  write_bytes32 st (at_off slot VERSION_OFFSET_URI_HASH) uri;;
  write_u64 st (at_off slot VERSION_OFFSET_ROUND_ID) round_id;;
  write_bytes32 st (at_off slot VERSION_OFFSET_AGGREGATOR) agg;;
  write_u64 st (at_off slot VERSION_OFFSET_TIMESTAMP) timestamp.

Definition initialize (owner_address treasury_address : bytes) (fee_bps : Z) : X unit :=
  Base.initialize st owner_address;;
  ensure_address32 owner_address;;
  ensure_address32 treasury_address;;
  validate_fee_bps fee_bps;;
  write_u64 st SLOT_STORAGE_VERSION 1;;
  write_bytes32 st SLOT_TREASURY_ADDRESS treasury_address;;
  write_u16 st SLOT_TREASURY_FEE_BPS fee_bps;;
  write_u64 st SLOT_MODEL_COUNT 0.

(** [register_model] before the first version is written. *)
Definition write_model (caller nft : bytes) (cls : Z) (meta lic : bytes) : X Z :=
  ensure_address32 caller;;
  ensure_address32 nft;;
  count ← read_u64 st SLOT_MODEL_COUNT;
  model_id ← lift (ok_or (checked_add U64_MAX count 1) (Message "model_id overflow"));
  write_u64 st SLOT_MODEL_COUNT model_id;;
  let base := mapping_slot_single (u64b model_id) SLOT_MODELS_BASE in
  write_bytes32 st (at_off base MODEL_OFFSET_CREATOR) caller;;
  write_bytes32 st (at_off base MODEL_OFFSET_NFT_CONTRACT) nft;;
  write_u128 st (at_off base MODEL_OFFSET_TOKEN_CLASS) cls;;
  write_u64 st (at_off base MODEL_OFFSET_CURRENT_VERSION) 0;;
  write_bytes32 st (at_off base MODEL_OFFSET_METADATA) meta;;
  write_bytes32 st (at_off base MODEL_OFFSET_LICENSE) lic;;
  write_bytes32 st (at_off base MODEL_OFFSET_ACCESS_POLICY) (zeros 32);;
  write_bytes32 st (at_off base MODEL_OFFSET_REWARD_POLICY) (zeros 32);;
  write_u64 st (at_off base MODEL_OFFSET_NEXT_ROUND) 0;;
  write_bool st (role_slot model_id caller Creator) true;;
  mret model_id.

Definition register_model (caller nft : bytes) (cls : Z) (meta lic weights uri : bytes) (timestamp : Z) : X Z :=
  model_id ← write_model caller nft cls meta lic;
  create_version_internal model_id 0 weights uri 0 caller timestamp;;
  mret model_id.

Definition set_model_metadata (caller : bytes) (model_id : Z) (meta lic : bytes) : X unit :=
  ensure_creator caller model_id;;
  write_bytes32 st (at_off (model_slot model_id) MODEL_OFFSET_METADATA) meta;;
  write_bytes32 st (at_off (model_slot model_id) MODEL_OFFSET_LICENSE) lic.
Definition set_access_policy_hash (caller : bytes) (model_id : Z) (policy : bytes) : X unit :=
  ensure_creator caller model_id;;
  write_bytes32 st (at_off (model_slot model_id) MODEL_OFFSET_ACCESS_POLICY) policy.
Definition set_reward_policy_hash (caller : bytes) (model_id : Z) (policy : bytes) : X unit :=
  ensure_creator caller model_id;;
  write_bytes32 st (at_off (model_slot model_id) MODEL_OFFSET_REWARD_POLICY) policy.

Definition grant_role (caller : bytes) (model_id : Z) (account : bytes) (role : Role) : X unit :=
  ensure_creator caller model_id;;
  ensure_address32 account;;
  write_bool st (role_slot model_id account role) true.
Definition revoke_role (caller : bytes) (model_id : Z) (account : bytes) (role : Role) : X unit :=
  ensure_creator caller model_id;;
  ensure_address32 account;;
  write_bool st (role_slot model_id account role) false.
Definition set_allowlisted (caller : bytes) (model_id : Z) (account : bytes) (allowed : bool) : X unit :=
  ensure_creator caller model_id;;
  ensure_address32 account;;
  write_bool st (allow_slot model_id account) allowed.
Definition set_denylisted (caller : bytes) (model_id : Z) (account : bytes) (denied : bool) : X unit :=
  ensure_creator caller model_id;;
  ensure_address32 account;;
  write_bool st (deny_slot model_id account) denied.

(** *** Rounds *)

Definition read_status (model_id round_id : Z) : X Z := read_u8 st (at_off (round_slot model_id round_id) ROUND_OFFSET_STATUS).
Definition write_status (model_id round_id : Z) (s : RoundStatus) : X unit :=
  write_u8 st (at_off (round_slot model_id round_id) ROUND_OFFSET_STATUS) (status_code s).

Definition create_round (caller : bytes) (model_id bv from until mn mx : Z) : X Z :=
  ensure_creator_or_aggregator caller model_id;;
  model ← get_model model_id;
  bail_if (current_version model <? bv) (Message "ERR_INVALID_ROUND");;
  let base := model_slot model_id in
  round_id ← read_u64 st (at_off base MODEL_OFFSET_NEXT_ROUND);
  next ← lift (ok_or (checked_add U64_MAX round_id 1) (Message "round id overflow"));
  write_u64 st (at_off base MODEL_OFFSET_NEXT_ROUND) next;;
  let slot := round_slot model_id round_id in
  write_u8 st (at_off slot ROUND_OFFSET_STATUS) (status_code Planned);;
  write_u64 st (at_off slot ROUND_OFFSET_BASE_VERSION) bv;;
  write_u64 st (at_off slot ROUND_OFFSET_OPEN_FROM) from;;
  write_u64 st (at_off slot ROUND_OFFSET_OPEN_UNTIL) until;;
  write_u32 st (at_off slot ROUND_OFFSET_MIN_UPDATES) mn;;
  write_u32 st (at_off slot ROUND_OFFSET_MAX_UPDATES) mx;;
  write_u32 st (at_off slot ROUND_OFFSET_UPDATE_COUNT) 0;;
  write_bytes32 st (at_off slot ROUND_OFFSET_AGGREGATED_COMMIT) (zeros 32);;
  write_bytes32 st (at_off slot ROUND_OFFSET_ACCEPTED_ROOT) (zeros 32);;
  write_bytes32 st (at_off slot ROUND_OFFSET_SCORE_ROOT) (zeros 32);;
  write_bytes32 st (at_off slot ROUND_OFFSET_CHECKPOINT_URI) (zeros 32);;
  emit_event false [] [];;
  mret round_id.

Definition open_round (caller : bytes) (model_id round_id : Z) : X unit :=
  ensure_creator_or_aggregator caller model_id;;
  code ← read_status model_id round_id;
  bail_if (negb (code =? status_code Planned)) (Message "ERR_ROUND_NOT_OPEN");;
  write_status model_id round_id Open.

Definition seal_round (caller : bytes) (model_id round_id : Z) : X unit :=
  ensure_creator_or_aggregator caller model_id;;
  code ← read_status model_id round_id;
  bail_if (negb (code =? status_code Open)) (Message "ERR_ROUND_NOT_OPEN");;
  write_status model_id round_id Sealed.

Definition abort_round (caller : bytes) (model_id round_id : Z) : X unit :=
  ensure_creator caller model_id;;
  code ← read_status model_id round_id;
  bail_if (code =? status_code Finalized) (Message "ERR_ROUND_ALREADY_FINALIZED");;
  write_status model_id round_id Aborted.

(** [finalize_round] before the new version is written. *)
Definition finalize_writes (caller : bytes) (model_id round_id : Z) (agg uri acc sco : bytes) : X (Z * Z) :=
  ensure_creator_or_aggregator caller model_id;;
  code ← read_status model_id round_id;
  bail_if (negb (code =? status_code Sealed)) (Message "ERR_ROUND_NOT_SEALED");;
  let slot := round_slot model_id round_id in
  mn ← read_u32 st (at_off slot ROUND_OFFSET_MIN_UPDATES);
  cnt ← read_u32 st (at_off slot ROUND_OFFSET_UPDATE_COUNT);
  bail_if (cnt <? mn) (Message "ERR_MIN_UPDATES_NOT_REACHED");;
  write_bytes32 st (at_off slot ROUND_OFFSET_AGGREGATED_COMMIT) agg;;
  write_bytes32 st (at_off slot ROUND_OFFSET_ACCEPTED_ROOT) acc;;
  write_bytes32 st (at_off slot ROUND_OFFSET_SCORE_ROOT) sco;;
  write_bytes32 st (at_off slot ROUND_OFFSET_CHECKPOINT_URI) uri;;
  write_status model_id round_id Finalized;;
  let base := model_slot model_id in
  current ← read_u64 st (at_off base MODEL_OFFSET_CURRENT_VERSION);
  new_version ← lift (ok_or (checked_add U64_MAX current 1) (Message "version overflow"));
  write_u64 st (at_off base MODEL_OFFSET_CURRENT_VERSION) new_version;;
  mret (current, new_version).

Definition finalize_round (caller : bytes) (model_id round_id : Z) (agg uri acc sco : bytes) (timestamp : Z) : X Z :=
  versions ← finalize_writes caller model_id round_id agg uri acc sco;
  create_version_internal model_id versions.1 agg uri round_id caller timestamp;;
  mret versions.2.

Definition submit_update (caller : bytes) (model_id round_id : Z) (update_commit uri : bytes) (nonce : Z)
    (signature : bytes) (timestamp : Z) : X unit :=
  ensure_address32 caller;;
  ensure_trainer_allowed caller model_id;;
  bail_if (negb (bool_decide (length signature = 64%nat))) (Message "ERR_SIGNATURE_INVALID");;
  code ← read_status model_id round_id;
  bail_if (negb (code =? status_code Open)) (Message "ERR_ROUND_NOT_OPEN");;
  let slot := round_slot model_id round_id in
  let uslot := update_slot model_id round_id caller in
  existing ← rb (at_off uslot UPDATE_OFFSET_COMMIT);
  bail_if (negb (bool_decide (existing = zeros 32))) (Message "ERR_ALREADY_SUBMITTED");;
  expected ← read_u64 st (nonce_slot model_id caller);
  bail_if (negb (nonce =? expected)) (Message "ERR_NONCE_MISMATCH");;
  write_bytes32 st (at_off uslot UPDATE_OFFSET_COMMIT) update_commit;;
  write_bytes32 st (at_off uslot UPDATE_OFFSET_URI_HASH) uri;;
  write_u64 st (at_off uslot UPDATE_OFFSET_NONCE) nonce;;
  write_u64 st (at_off uslot UPDATE_OFFSET_TIMESTAMP) timestamp;;
  next ← lift (ok_or (checked_add U64_MAX nonce 1) (Message "nonce overflow"));
  write_u64 st (nonce_slot model_id caller) next;;
  cnt ← read_u32 st (at_off slot ROUND_OFFSET_UPDATE_COUNT);
  mx ← read_u32 st (at_off slot ROUND_OFFSET_MAX_UPDATES);
  bail_if (mx <=? cnt) (Message "ERR_MAX_UPDATES_REACHED");;
  write_u32 st (at_off slot ROUND_OFFSET_UPDATE_COUNT) (cnt + 1).

Definition set_roots (caller : bytes) (model_id round_id : Z) (acc sco : bytes) : X unit :=
  ensure_creator_or_aggregator caller model_id;;
  let slot := round_slot model_id round_id in
  write_bytes32 st (at_off slot ROUND_OFFSET_ACCEPTED_ROOT) acc;;
  write_bytes32 st (at_off slot ROUND_OFFSET_SCORE_ROOT) sco.

(** *** Rewards *)

Definition mark_claimed (model_id round_id : Z) (asset_id contributor : bytes) : X unit :=
  write_bool st (claim_slot model_id round_id asset_id contributor) true.

Definition fund_pool (caller : bytes) (model_id : Z) (asset_id : bytes) (amount : Z) : X unit :=
  ensure_creator caller model_id;;
  let slot := pool_slot model_id asset_id in
  current ← read_u128 st slot;
  new_amount ← lift (ok_or (checked_add U128_MAX current amount) (Message "pool overflow"));
  write_u128 st slot new_amount.

Definition accepted_leaf (model_id round_id : Z) (caller c : bytes) : bytes :=
  keccak_concat [u64b model_id; u64b round_id; caller; c].
Definition score_leaf (model_id round_id : Z) (caller : bytes) (score gross : Z) : bytes :=
  keccak_concat [u64b model_id; u64b round_id; caller; to_le_bytes 16 score; to_le_bytes 16 gross].

Definition bad_proof : ContractError := Message "ERR_INVALID_ROOT_PROOF".

(** The checks of [claim_reward]. *)
Definition claim_checks (caller : bytes) (model_id round_id : Z) (asset_id : bytes) (gross score : Z)
    (accepted_proof score_proof : bytes) : X unit :=
  ensure_address32 caller;;
  round ← get_round model_id round_id;
  bail_if (negb (bool_decide (status round = Finalized))) (Message "ERR_ROUND_NOT_SEALED");;
  already ← read_bool st (claim_slot model_id round_id asset_id caller);
  bail_if already (Message "ERR_ALREADY_CLAIMED");;
  u ← get_update model_id round_id caller;
  update ← lift (ok_or u bad_proof);
  p ← bytes_to_nodes accepted_proof;
  bail_if (negb (verify_merkle_proof (accepted_leaf model_id round_id caller (commit update)) (accepted_root round) p)) bad_proof;;
  q ← bytes_to_nodes score_proof;
  bail_if (negb (verify_merkle_proof (score_leaf model_id round_id caller score gross) (score_root round) q)) bad_proof.

Definition claim_reward (caller : bytes) (model_id round_id : Z) (asset_id : bytes) (gross score : Z)
    (accepted_proof score_proof : bytes) : X (Z * Z) :=
  claim_checks caller model_id round_id asset_id gross score accepted_proof score_proof;;
  tf ← get_treasury;
  product ← lift (ok_or (checked_mul U128_MAX gross tf.2) (Message "fee overflow"));
  let fee := product / 10000 in
  net ← lift (ok_or (checked_sub gross fee) (Message "fee exceeds gross"));
  balance ← read_u128 st (pool_slot model_id asset_id);
  bail_if (balance <? gross) (Message "ERR_POOL_INSUFFICIENT_FUNDS");;
  write_u128 st (pool_slot model_id asset_id) (balance - gross);;
  write_bool st (claim_slot model_id round_id asset_id caller) true;;
  emit_event true [] [];;
  mret (net, fee).

(** *** Governance *)

Definition on_governance_approve_model (model_id : Z) : X unit := get_model model_id;; mret tt.
Definition governance_caller : bytes := replicate 32 xff.
Definition on_governance_abort_round (model_id round_id : Z) : X unit :=
  abort_round governance_caller model_id round_id.

Section Governance.
Context `{Hex}.
Definition decode_model_id_hex_to_u64 (model_id : string) : X Z :=
  b ← lift (ok_or (hex_decode model_id) (Message "Invalid model_id hex"));
  bail_if (negb (bool_decide (length b = 32%nat))) (Message "model_id deve essere 32 bytes");;
  mret (from_le_bytes (take 8 b)).

Definition on_governance_proposal (action : ProposalAction) : X unit :=
  match action with
  | ApproveFlModel i => m ← decode_model_id_hex_to_u64 i; on_governance_approve_model m
  | AbortFlRound i r => m ← decode_model_id_hex_to_u64 i; on_governance_abort_round m r
  | _ => mret tt
  end.
End Governance.
End Manager.
End Slots.
End Fl.

(** ** The copies *)

Module JobLifecycle.
Section Copy.
Context `{Keccak} (st : Storage).
Definition create_round := Fl.create_round st.
Definition open_round := Fl.open_round st.
Definition seal_round := Fl.seal_round st.
Definition abort_round := Fl.abort_round st.
Definition finalize_round := Fl.finalize_round st.
Definition submit_update := Fl.submit_update st.
Definition claim_reward := Fl.claim_reward st.
Definition get_round := Fl.get_round st.
Definition get_update := Fl.get_update st.
Definition get_nonce := Fl.get_nonce st.
Definition is_claimed := Fl.is_claimed st.
Definition fund_pool := Fl.fund_pool st.
End Copy.
End JobLifecycle.

Module ModelRegistry.
Section Copy.
Context `{Keccak} (st : Storage).
Definition register_model := Fl.register_model st.
Definition set_model_metadata := Fl.set_model_metadata st.
Definition set_access_policy_hash := Fl.set_access_policy_hash st.
Definition set_reward_policy_hash := Fl.set_reward_policy_hash st.
Definition grant_role := Fl.grant_role st.
Definition revoke_role := Fl.revoke_role st.
Definition set_allowlisted := Fl.set_allowlisted st.
Definition set_denylisted := Fl.set_denylisted st.
Definition get_model := Fl.get_model st.
Definition get_version := Fl.get_version st.
Definition has_role := Fl.has_role st.
Definition is_allowlisted := Fl.is_allowlisted st.
Definition is_denylisted := Fl.is_denylisted st.
End Copy.
End ModelRegistry.
