(* ===== verification/FlAiCorrect.v ===== *)
(** * What the federated learning contract promises

    Operations as data, the slots each may write, and three theorems on runs
    of them: a round only moves forward, a reward is claimed once, and claims
    never take more out of a pool than was put in.  The slots are hashes cut
    to 64 bits, so each theorem asks that no other record of the run falls on
    the slot it is about, as a computation on the run; the first also that the
    round is not created during the run, which would plan it again. *)

From S2P Require Import Prelude OrdMap Gas ContractStorage Codec BaseContract Savitri20 FlAi.
From Stdlib Require Import Strings.Byte.
Import CS.

Module FlC.
Import Fl.

Section Frames.
Context (st : Storage).

(** [s] is reached from [s0] with writes to the slots of [L] only. *)
Record within (L : list Z) (s0 s : ExecState) : Prop := {
  wi_wf : cs_wf st (es_cs s);
  wi_addr : contract_address (es_cs s) = contract_address (es_cs s0);
  wi_view : forall k, k ∉ L -> view st s k = view st s0 k;
}.

Lemma within_refl L s : cs_wf st (es_cs s) -> within L s s.
Proof. by split. Qed.
Lemma within_reads L s0 s s' : within L s0 s -> reads st s s' -> within L s0 s'.
Proof. intros [Hw Ha Hv] [Hw' Ha' _ Hv']. split; [done|congruence|]. intros k Hk. by rewrite Hv', Hv. Qed.
Lemma within_writes L s0 s s' k v : k ∈ L -> within L s0 s -> writes st k v s s' -> within L s0 s'.
Proof.
  intros Hk [Hw Ha Hv] [Hw' Ha' _ Hv']. split; [done|congruence|]. intros i Hi. rewrite Hv', decide_False, Hv; [done..|]. by intros ->.
Qed.
Lemma within_trans L s0 s1 s2 : within L s0 s1 -> within L s1 s2 -> within L s0 s2.
Proof. intros [H1 A1 V1] [H2 A2 V2]. split; [done|congruence|]. intros k Hk. by rewrite V2, V1. Qed.
Lemma within_mono L L' s0 s : L ⊆ L' -> within L s0 s -> within L' s0 s.
Proof. intros HL [Hw Ha Hv]. split; [done..|]. intros k Hk. apply Hv. intros Hi. by apply Hk, HL. Qed.

(** *** Primitives *)

Lemma keeps_sload L s0 k : keeps (within L s0) (sload st k).
Proof. apply wp_keeps. intros s Hs. apply wp_sload; [apply Hs| |]; intros; by eapply within_reads. Qed.
Lemma keeps_sstore L s0 k v : k ∈ L -> keeps (within L s0) (sstore st k v).
Proof.
  intros Hk. apply wp_keeps. intros s Hs. destruct (decide (length v = 32%nat)) as [Hl|Hl].
  - apply wp_sstore; [apply Hs|done|..]; intros; [by eapply within_writes|by eapply within_reads].
  - unfold sstore. rewrite bool_decide_eq_false_2 by done. exact Hs.
Qed.
Lemma keeps_read_int L s0 n k : keeps (within L s0) (read_int st n k).
Proof. apply keeps_bind; [apply keeps_sload|intros; apply keeps_ret]. Qed.
Lemma keeps_write_int L s0 n k v : k ∈ L -> keeps (within L s0) (write_int st n k v).
Proof. apply keeps_sstore. Qed.
Lemma keeps_read_bytes32 L s0 k : keeps (within L s0) (read_bytes32 st k).
Proof. apply keeps_bind; [apply keeps_sload|intros; apply keeps_bind; [apply keeps_bail_if|intros; apply keeps_ret]]. Qed.
Lemma keeps_write_bytes32 L s0 k v : k ∈ L -> keeps (within L s0) (write_bytes32 st k v).
Proof. intros. apply keeps_bind; [apply keeps_bail_if|intros; by apply keeps_sstore]. Qed.
Lemma keeps_meter L s0 op : keeps (within L s0) (meter op).
Proof.
  intros s Hs. destruct (meter_reads st op s (wi_wf _ _ _ Hs)) as (s' & Hr & [E|[_ [e E]]]); rewrite E; by eapply within_reads.
Qed.
Lemma keeps_emit L s0 b t d : keeps (within L s0) (emit_event b t d).
Proof.
  intros s Hs. destruct b; [|done]. unfold emit_event.
  pose proof (keeps_meter L s0 (Gas.consume_log (Z.of_nat (length t)) (Z.of_nat (length d))) s Hs) as H.
  by destruct (meter _ s).
Qed.
Lemma keeps_is_ok {A} P (m : X A) : keeps P m -> keeps P (Fl.is_ok m).
Proof. intros Hm s Hs. specialize (Hm s Hs). unfold Fl.is_ok. by destruct (m s) as [[?|?] ?]. Qed.

(** The word in one slot. *)
Definition holds (k : Z) (V : bytes -> Prop) (s : ExecState) : Prop := cs_wf st (es_cs s) /\ V (view st s k).

Lemma holds_reads k V s s' : holds k V s -> reads st s s' -> holds k V s'.
Proof. intros [_ HV] [Hw _ _ Hv]. split; [done|]. by rewrite Hv. Qed.
Lemma keeps_holds_sload k V k' : keeps (holds k V) (sload st k').
Proof. apply wp_keeps. intros s Hs. apply wp_sload; [apply Hs| |]; intros; by eapply holds_reads. Qed.
Lemma keeps_holds_sstore k V k' v :
  k <> k' \/ (V v /\ is_zero v = false) -> keeps (holds k V) (sstore st k' v).
Proof.
  intros Hk. apply wp_keeps. intros s Hs. destruct (decide (length v = 32%nat)) as [Hl|Hl].
  - apply wp_sstore; [apply Hs|done|..]; [|intros; by eapply holds_reads]. intros s' [Hw _ _ Hv] _. split; [done|].
    rewrite Hv. case_decide; [|apply Hs]. destruct Hk as [Hk|[HV Hz]]; [done|]. by rewrite stored_nonzero.
  - unfold sstore. rewrite bool_decide_eq_false_2 by done. exact Hs.
Qed.
Lemma keeps_holds_read_int k V n k' : keeps (holds k V) (read_int st n k').
Proof. apply keeps_bind; [apply keeps_holds_sload|intros; apply keeps_ret]. Qed.
Lemma keeps_holds_read_bytes32 k V k' : keeps (holds k V) (read_bytes32 st k').
Proof. apply keeps_bind; [apply keeps_holds_sload|intros; apply keeps_bind; [apply keeps_bail_if|intros; apply keeps_ret]]. Qed.
Lemma keeps_holds_write_bytes32 k V k' v : k <> k' -> keeps (holds k V) (write_bytes32 st k' v).
Proof. intros. apply keeps_bind; [apply keeps_bail_if|intros; apply keeps_holds_sstore; by left]. Qed.
Lemma keeps_holds_emit k V b t d : keeps (holds k V) (emit_event b t d).
Proof.
  intros s Hs. destruct b; [|done]. unfold emit_event.
  destruct (meter_reads st (Gas.consume_log (Z.of_nat (length t)) (Z.of_nat (length d))) s (proj1 Hs))
    as (s' & Hr & [E|[_ [e E]]]); rewrite E; by eapply holds_reads.
Qed.
(** What writes nothing keeps every slot. *)
Lemma keeps_holds {A} k V (m : X A) : (forall s, keeps (within [] s) m) -> keeps (holds k V) m.
Proof.
  intros Hm s [Hw HV]. destruct (Hm s s (within_refl [] s Hw)) as [Hw' _ Hv]. split; [done|]. rewrite Hv; [done|apply not_elem_of_nil].
Qed.

(** The rules that tell what is read and written. *)
Lemma wp_read_int n k (Q : Z -> ExecState -> Prop) R s :
  cs_wf st (es_cs s) -> (forall s', reads st s s' -> Q (word_int n (view st s k)) s') ->
  (forall e s', reads st s s' -> R e s') -> wp (read_int st n k) Q R s.
Proof. intros Hwf HQ HR. apply wp_bind, wp_sload; [done| |auto]. intros s' Hr _. apply wp_ret. auto. Qed.
Lemma wp_read_bytes32 k (Q : bytes -> ExecState -> Prop) R s :
  cs_wf st (es_cs s) -> (forall s', reads st s s' -> Q (view st s k) s') ->
  (forall e s', reads st s s' -> R e s') -> wp (read_bytes32 st k) Q R s.
Proof.
  intros Hwf HQ HR. apply wp_bind, wp_sload; [done| |auto]. intros s' Hr Hl. rewrite bool_decide_eq_true_2 by done.
  apply wp_bind, wp_bail_if; [done|]. intros _. apply wp_ret. auto.
Qed.
Lemma length_int_word n v : (n <= 32)%nat -> length (int_word n v) = 32%nat.
Proof. intros. unfold int_word. rewrite length_app, length_to_le_bytes, length_zeros. lia. Qed.
Lemma word_int_word n v : word_int n (int_word n v) = v mod 256 ^ Z.of_nat n.
Proof. unfold word_int, int_word. rewrite take_app_le, take_ge, from_to_le_bytes by (rewrite length_to_le_bytes; lia). done. Qed.
Lemma int_word_zero n v : (n <= 32)%nat -> is_zero (int_word n v) = true -> v mod 256 ^ Z.of_nat n = 0.
Proof.
  intros Hn Hz. rewrite <- word_int_word. apply is_zero_spec in Hz. rewrite Hz. unfold word_int, zeros.
  rewrite take_replicate. apply from_le_bytes_zeros.
Qed.
Lemma stored_int s k n v :
  (n <= 32)%nat -> v mod 256 ^ Z.of_nat n <> 0 -> stored st s k (int_word n v) = int_word n v.
Proof. intros Hn Hv. apply stored_nonzero. destruct (is_zero _) eqn:E; [|done]. by apply int_word_zero in E. Qed.
Lemma stored_small s k v : 0 < v < 256 -> word_int 1 (stored st s k (int_word 1 v)) = v.
Proof. intros Hv. rewrite stored_int, word_int_word by (change (256 ^ Z.of_nat 1) with 256; rewrite ?Z.mod_small; lia).
  change (256 ^ Z.of_nat 1) with 256. apply Z.mod_small. lia. Qed.
Lemma wp_write_int n k v (Q : unit -> ExecState -> Prop) R s :
  (n <= 32)%nat -> cs_wf st (es_cs s) -> (forall s', writes st k (int_word n v) s s' -> Q tt s') ->
  (forall e s', reads st s s' -> R e s') -> wp (write_int st n k v) Q R s.
Proof. intros Hn Hwf HQ HR. apply wp_sstore; [done|by apply length_int_word|auto|auto]. Qed.

Lemma wp_keep_bind {A B} P (m : X A) (f : A -> X B) (Q : B -> ExecState -> Prop) (R : ContractError -> ExecState -> Prop) s :
  P s -> keeps P m -> (forall a s', P s' -> wp (f a) Q R s') -> (forall e s', P s' -> R e s') -> wp (m ≫= f) Q R s.
Proof. intros Hs Hm HQ HR. apply wp_bind. eapply wp_mono; [by apply keeps_wp|auto|auto]. Qed.

Lemma wp_self {A} (m : X A) Q R s :
  wp m Q R s -> wp m (fun a s' => Q a s' /\ m s = (Ok a, s')) (fun e s' => R e s') s.
Proof. unfold wp. by destruct (m s) as [[?|?] ?]. Qed.
End Frames.

Ltac holds_store := first [left; assumption | left; congruence | right; split; [done|reflexivity]].
#[export] Hint Resolve keeps_holds_sload keeps_holds_read_int keeps_holds_read_bytes32 keeps_holds_emit : keeps.
#[export] Hint Extern 1 (keeps (holds _ _ _) (sstore _ _ _)) => apply keeps_holds_sstore; holds_store : keeps.
#[export] Hint Extern 1 (keeps (holds _ _ _) (write_int _ _ _ _)) => apply keeps_holds_sstore; holds_store : keeps.
#[export] Hint Extern 1 (keeps (holds _ _ _) (write_bytes32 _ _ _)) => apply keeps_holds_write_bytes32; first [assumption | congruence] : keeps.
Ltac in_list := first [assumption | by left | right; in_list].
#[export] Hint Resolve keeps_sload keeps_read_int keeps_read_bytes32 keeps_meter keeps_emit keeps_is_ok : keeps.
#[export] Hint Extern 1 (keeps _ (sstore _ _ _)) => apply keeps_sstore; in_list : keeps.
#[export] Hint Extern 1 (keeps _ (write_int _ _ _ _)) => apply keeps_write_int; in_list : keeps.
#[export] Hint Extern 1 (keeps _ (write_bytes32 _ _ _)) => apply keeps_write_bytes32; in_list : keeps.
Create HintDb fl.
#[export] Hint Unfold read_u8 read_u16 read_u32 read_u64 read_u128 write_u8 write_u16 write_u32 write_u64 write_u128
  read_bool write_bool read_status write_status ensure_address32 : fl.
Ltac flkeep := repeat (autounfold with fl in *; progress keep).

Section Runs.
Context {KeccakI : Keccak} (st : Storage).

(** *** Reads *)

Lemma get_model_keeps L s0 m : keeps (within st L s0) (get_model st m).
Proof. unfold get_model. flkeep. Qed.
Lemma get_round_keeps L s0 m r : keeps (within st L s0) (get_round st m r).
Proof. unfold get_round. flkeep. Qed.
Lemma get_update_keeps L s0 m r c : keeps (within st L s0) (get_update st m r c).
Proof. unfold get_update. flkeep. Qed.
Lemma ensure_creator_keeps L s0 c m : keeps (within st L s0) (ensure_creator st c m).
Proof. unfold ensure_creator. apply keeps_bind; [apply get_model_keeps|]. flkeep. Qed.
Lemma ensure_creator_or_aggregator_keeps L s0 c m : keeps (within st L s0) (ensure_creator_or_aggregator st c m).
Proof.
  unfold ensure_creator_or_aggregator, has_role. apply keeps_bind; [apply keeps_is_ok, ensure_creator_keeps|]. flkeep.
Qed.
Lemma ensure_trainer_keeps L s0 c m : keeps (within st L s0) (ensure_trainer_allowed st c m).
Proof. unfold ensure_trainer_allowed, has_role, is_denylisted, is_allowlisted. flkeep. Qed.
#[local] Hint Resolve get_model_keeps get_round_keeps get_update_keeps ensure_creator_keeps
  ensure_creator_or_aggregator_keeps ensure_trainer_keeps : keeps.
Lemma claim_checks_keeps L s0 c m r a g sc p q : keeps (within st L s0) (claim_checks st c m r a g sc p q).
Proof. unfold claim_checks, bytes_to_nodes. flkeep. Qed.
#[local] Hint Resolve claim_checks_keeps : keeps.

(** *** Operations as data *)

Inductive Op :=
| Register (caller nft : bytes) (cls : Z) (meta lic weights uri : bytes) (ts : Z)
| SetMetadata (caller : bytes) (m : Z) (meta lic : bytes)
| SetAccessPolicy (caller : bytes) (m : Z) (policy : bytes)
| SetRewardPolicy (caller : bytes) (m : Z) (policy : bytes)
| GrantRole (caller : bytes) (m : Z) (account : bytes) (role : Role)
| RevokeRole (caller : bytes) (m : Z) (account : bytes) (role : Role)
| SetAllowlisted (caller : bytes) (m : Z) (account : bytes) (b : bool)
| SetDenylisted (caller : bytes) (m : Z) (account : bytes) (b : bool)
| CreateRound (caller : bytes) (m bv from until mn mx : Z)
| OpenRound (caller : bytes) (m r : Z)
| SealRound (caller : bytes) (m r : Z)
| AbortRound (caller : bytes) (m r : Z)
| FinalizeRound (caller : bytes) (m r : Z) (agg uri acc sco : bytes) (ts : Z)
| SubmitUpdate (caller : bytes) (m r : Z) (c uri : bytes) (nonce : Z) (sig : bytes) (ts : Z)
| SetRoots (caller : bytes) (m r : Z) (acc sco : bytes)
| MarkClaimed (m r : Z) (asset contributor : bytes)
| FundPool (caller : bytes) (m : Z) (asset : bytes) (amount : Z)
| ClaimReward (caller : bytes) (m r : Z) (asset : bytes) (gross score : Z) (accepted_proof score_proof : bytes)
| GovernanceAbort (m r : Z).

Definition exec (o : Op) : X unit :=
  match o with
  | Register c n cls me li w u ts => register_model st c n cls me li w u ts;; mret tt
  | SetMetadata c m me li => set_model_metadata st c m me li
  | SetAccessPolicy c m h => set_access_policy_hash st c m h
  | SetRewardPolicy c m h => set_reward_policy_hash st c m h
  | GrantRole c m a r => grant_role st c m a r
  | RevokeRole c m a r => revoke_role st c m a r
  | SetAllowlisted c m a b => set_allowlisted st c m a b
  | SetDenylisted c m a b => set_denylisted st c m a b
  | CreateRound c m bv f u mn mx => create_round st c m bv f u mn mx;; mret tt
  | OpenRound c m r => open_round st c m r
  | SealRound c m r => seal_round st c m r
  | AbortRound c m r => abort_round st c m r
  | FinalizeRound c m r ag u ac sc ts => finalize_round st c m r ag u ac sc ts;; mret tt
  | SubmitUpdate c m r co u n sg ts => submit_update st c m r co u n sg ts
  | SetRoots c m r ac sc => set_roots st c m r ac sc
  | MarkClaimed m r a c => mark_claimed st m r a c
  | FundPool c m a x => fund_pool st c m a x
  | ClaimReward c m r a g sc p q => claim_reward st c m r a g sc p q;; mret tt
  | GovernanceAbort m r => on_governance_abort_round st m r
  end.

(** *** The slots each operation may write *)

Definition status_slot (m r : Z) : Z := at_off (round_slot m r) ROUND_OFFSET_STATUS.
Definition version_fields (m v : Z) : list Z := at_off (version_slot m v) <$> [0; 1; 2; 3; 4; 5].
Definition model_field (m o : Z) : Z := at_off (model_slot m) o.
Definition round_field (m r o : Z) : Z := at_off (round_slot m r) o.
Definition update_field (m r : Z) (c : bytes) (o : Z) : Z := at_off (update_slot m r c) o.
Definition version_at (m : Z) (s : ExecState) : Z := word_int 8 (view st s (model_field m MODEL_OFFSET_CURRENT_VERSION)).

Definition write_model_slots (m : Z) (c : bytes) : list Z :=
  SLOT_MODEL_COUNT :: (model_field m <$> [0; 1; 2; 3; 4; 5; 6; 7; 8]) ++ [role_slot m c Creator].
Definition finalize_slots (m r : Z) : list Z :=
  (round_field m r <$> [7; 8; 10; 9]) ++ [model_field m MODEL_OFFSET_CURRENT_VERSION].

(** The status of a round, a claim mark, a pool, and everything else.  The
    version a new model or a finalised round writes is the one it reads. *)
Definition status_of_op (o : Op) : list Z :=
  match o with
  | OpenRound _ m r | SealRound _ m r | AbortRound _ m r | FinalizeRound _ m r _ _ _ _ _ | GovernanceAbort m r => [status_slot m r]
  | _ => []
  end.
Definition claim_of_op (o : Op) : list Z :=
  match o with
  | MarkClaimed m r a c | ClaimReward c m r a _ _ _ _ => [claim_slot m r a c]
  | _ => []
  end.
Definition pool_of_op (o : Op) : list Z :=
  match o with FundPool _ m a _ | ClaimReward _ m _ a _ _ _ _ => [pool_slot m a] | _ => [] end.
Definition rest_of_op (s : ExecState) (o : Op) : list Z :=
  match o with
  | Register c n cls me li _ _ _ =>
      let m := word_int 8 (view st s SLOT_MODEL_COUNT) + 1 in
      write_model_slots m c ++ version_fields m (version_at m (write_model st c n cls me li s).2)
  | SetMetadata _ m _ _ => [model_field m MODEL_OFFSET_METADATA; model_field m MODEL_OFFSET_LICENSE]
  | SetAccessPolicy _ m _ => [model_field m MODEL_OFFSET_ACCESS_POLICY]
  | SetRewardPolicy _ m _ => [model_field m MODEL_OFFSET_REWARD_POLICY]
  | GrantRole _ m a r | RevokeRole _ m a r => [role_slot m a r]
  | SetAllowlisted _ m a _ => [allow_slot m a]
  | SetDenylisted _ m a _ => [deny_slot m a]
  | CreateRound _ m _ _ _ _ _ =>
      let r := word_int 8 (view st s (model_field m MODEL_OFFSET_NEXT_ROUND)) in
      model_field m MODEL_OFFSET_NEXT_ROUND :: (round_field m r <$> [0; 1; 2; 3; 4; 5; 6; 7; 8; 9; 10])
  | FinalizeRound c m r ag u ac sc _ =>
      finalize_slots m r ++ version_fields m (version_at m (finalize_writes st c m r ag u ac sc s).2)
  | SubmitUpdate c m r _ _ _ _ _ =>
      (update_field m r c <$> [0; 1; 2; 3]) ++ [nonce_slot m c; round_field m r ROUND_OFFSET_UPDATE_COUNT]
  | SetRoots _ m r _ _ => [round_field m r ROUND_OFFSET_ACCEPTED_ROOT; round_field m r ROUND_OFFSET_SCORE_ROOT]
  | _ => []
  end.
Definition writes_of (s : ExecState) (o : Op) : list Z := status_of_op o ++ claim_of_op o ++ pool_of_op o ++ rest_of_op s o.

Lemma wp_within {A} (m : X A) L s :
  cs_wf st (es_cs s) -> keeps (within st L s) m -> wp m (fun _ s' => within st L s s') (fun _ s' => within st L s s') s.
Proof. intros Hwf Hm. apply keeps_wp; [done|by apply within_refl]. Qed.

Lemma create_version_within m parent w u r agg ts s :
  cs_wf st (es_cs s) ->
  wp (create_version_internal st m parent w u r agg ts)
    (fun _ s' => within st (version_fields m (version_at m s)) s s')
    (fun _ s' => within st (version_fields m (version_at m s)) s s') s.
Proof.
  intros Hwf. set (L := version_fields m (version_at m s)). assert (within st L s s) as H0 by by apply within_refl.
  unfold create_version_internal. apply wp_bind, wp_read_int; [done| |intros; by eapply within_reads].
  intros s1 H1. apply keeps_wp; [|by eapply within_reads]. fold (version_at m s). autounfold with fl. subst L. unfold version_fields. simpl.
  keep.
Qed.

Lemma write_model_within c n cls me li s :
  cs_wf st (es_cs s) -> let m := word_int 8 (view st s SLOT_MODEL_COUNT) + 1 in
  wp (write_model st c n cls me li) (fun m' s' => m' = m /\ within st (write_model_slots m c) s s')
    (fun _ s' => within st (write_model_slots m c) s s') s.
Proof.
  intros Hwf m. set (L := write_model_slots m c). unfold write_model, ensure_address32.
  apply wp_bind, wp_bail_if; [by intros; apply within_refl|intros _].
  apply wp_bind, wp_bail_if; [by intros; apply within_refl|intros _].
  pose proof (within_refl st L s Hwf) as H0.
  apply wp_bind, wp_read_int; [done| |intros; by eapply within_reads]. intros s1 H1.
  apply (within_reads _ _ _ _ _ H0) in H1.
  apply wp_bind, wp_lift; [|done]. intros m' [-> _]%ok_or_Ok%checked_add_Some. fold m.
  eapply wp_mono with (Q := fun m' s' => m' = m /\ within st L s s') (R := fun _ s' => within st L s s'); [|done..].
  subst L. unfold write_model_slots, model_field, model_slot. simpl. autounfold with fl.
  repeat (eapply wp_keep_bind; [exact H1|keep| |done]; clear H1 s1; intros _ s1 H1).
  by apply wp_ret.
Qed.

Lemma finalize_writes_within c m r ag u ac sc s :
  cs_wf st (es_cs s) -> let L := status_slot m r :: finalize_slots m r in
  wp (finalize_writes st c m r ag u ac sc) (fun _ s' => within st L s s') (fun _ s' => within st L s s') s.
Proof.
  intros Hwf L. apply wp_within; [done|]. unfold finalize_writes. subst L. unfold status_slot, finalize_slots, round_field, model_field. simpl. flkeep.
Qed.

Lemma create_round_within c m bv f u mn mx s :
  cs_wf st (es_cs s) -> let L := rest_of_op s (CreateRound c m bv f u mn mx) in
  wp (create_round st c m bv f u mn mx) (fun _ s' => within st L s s') (fun _ s' => within st L s s') s.
Proof.
  intros Hwf L. unfold create_round. assert (HE : forall s', within st [] s s' -> within st L s s').
  { intros s' Hs'. eapply within_mono, Hs'. set_solver. }
  apply (wp_keep_bind (within st [] s)); [by apply within_refl|auto with keeps| |auto]. intros _ s0 H0.
  apply (wp_keep_bind (within st [] s)); [done|auto with keeps| |auto]. intros mo s1 H1. assert (within st L s s1) as H1' by auto.
  apply wp_bind, wp_bail_if; [done|]. intros _.
  apply wp_bind, wp_read_int; [apply H1| |intros; by eapply within_reads]. intros s2 H2.
  rewrite (wi_view _ _ _ _ H1) by apply not_elem_of_nil. apply (within_reads _ _ _ _ _ H1') in H2.
  apply keeps_wp; [|done]. subst L. unfold rest_of_op, model_field, round_field, model_field. simpl. flkeep.
Qed.

Lemma register_within c n cls me li w u ts s :
  cs_wf st (es_cs s) -> let L := rest_of_op s (Register c n cls me li w u ts) in
  wp (register_model st c n cls me li w u ts) (fun _ s' => within st L s s') (fun _ s' => within st L s s') s.
Proof.
  intros Hwf L. assert (HE : forall s', within st (write_model_slots (word_int 8 (view st s SLOT_MODEL_COUNT) + 1) c) s s' -> within st L s s').
  { intros s' Hs'. eapply within_mono, Hs'. unfold L. simpl. set_solver. }
  apply wp_bind. eapply wp_mono; [apply wp_self, (write_model_within c n cls me li s Hwf)| |auto].
  intros m' s1 [[Em H1] E1]. rewrite <- Em in HE, H1. apply wp_bind. eapply wp_mono; [apply create_version_within, H1| |].
  all: intros ? s2 H2; apply (within_trans _ _ _ s1); [auto|]; eapply within_mono; [|exact H2];
    unfold L, rest_of_op; rewrite E1; set_solver.
Qed.

Lemma finalize_within c m r ag u ac sc ts s :
  cs_wf st (es_cs s) -> let L := status_slot m r :: rest_of_op s (FinalizeRound c m r ag u ac sc ts) in
  wp (finalize_round st c m r ag u ac sc ts) (fun _ s' => within st L s s') (fun _ s' => within st L s s') s.
Proof.
  intros Hwf L. assert (HE : forall s', within st (status_slot m r :: finalize_slots m r) s s' -> within st L s s').
  { intros s' Hs'. eapply within_mono, Hs'. unfold L. simpl. set_solver. }
  apply wp_bind. eapply wp_mono; [apply wp_self, (finalize_writes_within c m r ag u ac sc s Hwf)| |auto].
  intros vs s1 [H1 E1]. apply wp_bind. eapply wp_mono; [apply create_version_within, H1| |].
  all: intros ? s2 H2; apply (within_trans _ _ _ s1); [auto|]; eapply within_mono; [|exact H2];
    unfold L, rest_of_op; rewrite E1; set_solver.
Qed.

Lemma exec_within o s :
  cs_wf st (es_cs s) -> within st (writes_of s o) s (exec o s).2.
Proof.
  intros Hwf. enough (Hw : wp (exec o) (fun _ s' => within st (writes_of s o) s s') (fun _ s' => within st (writes_of s o) s s') s).
  { unfold wp in Hw. by destruct (exec o s) as [[?|?] ?]. }
  destruct o.
  all: try (apply wp_within; [done|]; unfold exec, writes_of; simpl; autounfold with fl;
    unfold set_model_metadata, set_access_policy_hash, set_reward_policy_hash, grant_role, revoke_role, set_allowlisted,
      set_denylisted, open_round, seal_round, on_governance_abort_round, abort_round, submit_update, set_roots, mark_claimed, fund_pool,
      claim_reward, get_treasury, status_slot, model_field, round_field, update_field; flkeep; fail).
  all: unfold exec, writes_of; cbn [status_of_op claim_of_op pool_of_op app]; apply wp_bind.
  - apply register_within, Hwf.
  - apply create_round_within, Hwf.
  - apply finalize_within, Hwf.
Qed.

(** *** Runs *)

Fixpoint run (ops : list Op) (s : ExecState) : ExecState :=
  match ops with [] => s | o :: ops => run ops (exec o s).2 end.

(** The slot [k] is not one of those that [writes] gives, at any step. *)
Fixpoint spared (k : Z) (writes : ExecState -> Op -> list Z) (ops : list Op) (s : ExecState) : Prop :=
  match ops with
  | [] => True
  | o :: ops => k ∉ writes s o /\ spared k writes ops (exec o s).2
  end.

Lemma exec_wf o s : cs_wf st (es_cs s) -> cs_wf st (es_cs (exec o s).2).
Proof. intros Hwf. apply (exec_within o s Hwf). Qed.

(** *** Rounds move forward *)

Definition status_at (k : Z) (s : ExecState) : RoundStatus := status_of (word_int 1 (view st s k)).

Inductive life : RoundStatus -> RoundStatus -> Prop :=
| life_open : life Planned Open
| life_seal : life Open Sealed
| life_finalize : life Sealed Finalized
| life_abort x : x <> Finalized -> life x Aborted.

Lemma status_of_code x : status_of (status_code x) = x.
Proof. by destruct x. Qed.
Lemma status_of_eq c x : c = status_code x -> status_of c = x.
Proof. intros ->. apply status_of_code. Qed.

Lemma status_of_finalized c : status_of c = Finalized -> c = 3.
Proof. unfold status_of. repeat (case_match; [try done|]); [|done]. intros _. by apply Z.eqb_eq. Qed.

(** A check, the guard on the status and the new status. *)
Lemma wp_transition (check : X unit) g e x m r s :
  (forall s0, keeps (within st [] s0) check) -> x <> Planned -> cs_wf st (es_cs s) ->
  wp (check;; code ← read_status st m r; bail_if (g code) e;; write_status st m r x)
    (fun _ s' => g (word_int 1 (view st s (status_slot m r))) = false /\ status_at (status_slot m r) s' = x)
    (fun _ s' => within st [] s s') s.
Proof.
  intros Hc Hx Hwf. apply (wp_keep_bind (within st [] s)); [by apply within_refl|apply Hc| |auto]. intros _ s1 H1.
  apply wp_bind, wp_read_int; [apply H1| |intros; by eapply within_reads]. intros s2 H2.
  rewrite (wi_view _ _ _ _ H1) by apply not_elem_of_nil. apply (within_reads _ _ _ _ _ H1) in H2.
  apply wp_bind, wp_bail_if; [done|]. intros Hg. apply wp_write_int; [lia|apply H2| |intros; by eapply within_reads].
  intros s3 H3. split; [done|]. unfold status_at. fold (status_slot m r). rewrite (wr_view _ _ _ _ _ H3), decide_True by done.
  rewrite stored_int by (destruct x; done || lia). rewrite word_int_word. by destruct x.
Qed.

Lemma finalize_writes_status c m r ag u ac sc s :
  cs_wf st (es_cs s) -> let k := status_slot m r in k ∉ finalize_slots m r ->
  wp (finalize_writes st c m r ag u ac sc)
    (fun _ s' => word_int 1 (view st s k) = 2 /\ holds st k (fun w => word_int 1 w = 3) s')
    (fun _ s' => word_int 1 (view st s' k) = word_int 1 (view st s k) \/
       (word_int 1 (view st s k) = 2 /\ word_int 1 (view st s' k) = 3)) s.
Proof.
  intros Hwf k Hk. unfold finalize_slots, round_field, model_field in Hk. simpl in Hk. rewrite !not_elem_of_cons in Hk.
  destruct Hk as (K1 & K2 & K3 & K4 & K5 & _). unfold finalize_writes.
  assert (HE : forall s', within st [] s s' -> word_int 1 (view st s' k) = word_int 1 (view st s k)).
  { intros s' [_ _ Hv]. rewrite Hv; [done|apply not_elem_of_nil]. }
  apply (wp_keep_bind (within st [] s)); [by apply within_refl|auto with keeps| |auto]. intros _ s1 H1.
  apply wp_bind, wp_read_int; [apply H1| |intros; left; eapply HE, within_reads; done]. intros s2 H2.
  fold (status_slot m r). fold k. rewrite (HE _ H1). apply (within_reads _ _ _ _ _ H1) in H2. clear dependent s1.
  apply wp_bind, wp_bail_if; [auto|]. simpl. intros Hc%negb_false_iff%Z.eqb_eq.
  assert (holds st k (fun w => word_int 1 w = 2) s2) as H by (split; [apply H2|by rewrite (HE _ H2)]). clear H2. unfold read_u32.
  assert (HR : forall (e : ContractError) s', holds st k (fun w => word_int 1 w = 2) s' ->
    word_int 1 (view st s' k) = word_int 1 (view st s k) \/ word_int 1 (view st s k) = 2 /\ word_int 1 (view st s' k) = 3).
  { intros _ s' [_ Hs']. left. congruence. }
  do 2 (eapply wp_keep_bind; [exact H|keep| |exact HR]; clear dependent s2; intros ? s2 H).
  apply wp_bind, wp_bail_if; [intros _; by apply (HR unauthorized)|]. intros _.
  do 4 (eapply wp_keep_bind; [exact H|keep| |exact HR]; clear dependent s2; intros ? s2 H).
  apply wp_bind, wp_write_int; [lia|apply H| |intros e s3 H3; apply (HR e); by eapply holds_reads]. intros s3 H3.
  assert (holds st k (fun w => word_int 1 w = 3) s3) as H' .
  { split; [apply H3|]. rewrite (wr_view _ _ _ _ _ H3). fold (status_slot m r). fold k. rewrite decide_True by done. by apply stored_small. }
  eapply wp_mono; [apply keeps_wp; [|exact H']; unfold read_u64, write_u64; keep|auto|]. intros _ s4 [_ H4]. by right.
Qed.

Lemma finalize_status c m r ag u ac sc ts s :
  cs_wf st (es_cs s) -> let k := status_slot m r in
  k ∉ rest_of_op s (FinalizeRound c m r ag u ac sc ts) ->
  wp (finalize_round st c m r ag u ac sc ts)
    (fun _ s' => word_int 1 (view st s k) = 2 /\ word_int 1 (view st s' k) = 3)
    (fun _ s' => word_int 1 (view st s' k) = word_int 1 (view st s k) \/
       (word_int 1 (view st s k) = 2 /\ word_int 1 (view st s' k) = 3)) s.
Proof.
  intros Hwf k Hk. unfold rest_of_op in Hk. rewrite not_elem_of_app in Hk. destruct Hk as [Hk1 Hk2].
  apply wp_bind. eapply wp_mono; [apply wp_self, finalize_writes_status; done| |done]. intros vs s1 [[Hc [Hw H3]] E1].
  rewrite E1 in Hk2. apply wp_bind. fold k in Hc.
  eapply wp_mono; [apply create_version_within, Hw| |]; intros ? s2 H2; pose proof (wi_view _ _ _ _ H2 _ Hk2) as Hv.
  - apply wp_ret. split; [done|]. by rewrite Hv.
  - right. split; [done|]. by rewrite Hv.
Qed.

Lemma status_step o s k :
  cs_wf st (es_cs s) -> k ∉ claim_of_op o ++ pool_of_op o ++ rest_of_op s o ->
  status_at k (exec o s).2 = status_at k s \/ life (status_at k s) (status_at k (exec o s).2).
Proof.
  intros Hwf Hk. destruct (decide (k ∈ status_of_op o)) as [Hin|Hout].
  2: { left. unfold status_at. rewrite (wi_view _ _ _ _ (exec_within o s Hwf)); [done|]. unfold writes_of. rewrite elem_of_app. tauto. }
  assert (Hstep : forall (p : X unit), wp p (fun _ s' => status_at k s' = status_at k s \/ life (status_at k s) (status_at k s'))
    (fun _ s' => status_at k s' = status_at k s \/ life (status_at k s) (status_at k s')) s ->
    status_at k (p s).2 = status_at k s \/ life (status_at k s) (status_at k (p s).2)).
  { intros p. unfold wp. by destruct (p s) as [[?|?] ?]. }
  apply Hstep. clear Hstep.
  assert (HE : forall (e : ContractError) s', within st [] s s' -> status_at k s' = status_at k s \/ life (status_at k s) (status_at k s')).
  { intros _ s' [_ _ Hv]. left. unfold status_at. rewrite Hv; [done|apply not_elem_of_nil]. }
  destruct o; simpl in Hin; try (by apply not_elem_of_nil in Hin); apply list_elem_of_singleton in Hin as ->.
  - eapply wp_mono; [apply wp_transition; [auto with keeps|done|done]| |exact HE]. intros _ s' [Hg%negb_false_iff%Z.eqb_eq ->]. right.
    unfold status_at. rewrite (status_of_eq _ Planned) by done. constructor.
  - eapply wp_mono; [apply wp_transition; [auto with keeps|done|done]| |exact HE]. intros _ s' [Hg%negb_false_iff%Z.eqb_eq ->]. right.
    unfold status_at. rewrite (status_of_eq _ Open) by done. constructor.
  - eapply wp_mono; [apply wp_transition; [auto with keeps|done|done]| |exact HE]. intros _ s' [Hg%Z.eqb_neq ->]. right.
    constructor. intros E. by apply Hg, status_of_finalized.
  - apply wp_bind. eapply wp_mono; [apply finalize_status; [done|set_solver]| |].
    + intros _ s' [H2 H3]. apply wp_ret. right. unfold status_at. rewrite H2, H3. constructor.
    + intros _ s' [H2|[H2 H3]]; [left; unfold status_at; by rewrite H2|]. right. unfold status_at. rewrite H2, H3. constructor.
  - eapply wp_mono; [apply wp_transition; [auto with keeps|done|done]| |exact HE]. intros _ s' [Hg%Z.eqb_neq ->]. right.
    constructor. intros E. by apply Hg, status_of_finalized.
Qed.

(** C22: A round only moves forward: over any operations, failed ones included,
    its status follows the life cycle, so a finalised round stays finalised
    and an aborted one stays aborted.  Two things are excluded ([spared]):
    that the hashed slot of another record is the slot of the status, and
    that the round is created during the run.  Creating it writes its first
    status over whatever is there; [open_round] does not check that the round
    exists, so a round can be finalised before it is created and be planned
    again then. *)
Theorem rounds_move_forward ops s m r :
  cs_wf st (es_cs s) ->
  spared (status_slot m r) (fun s o => claim_of_op o ++ pool_of_op o ++ rest_of_op s o) ops s ->
  rtc life (status_at (status_slot m r) s) (status_at (status_slot m r) (run ops s)).
Proof.
  revert s. induction ops as [|o ops IH]; intros s Hwf Hs; simpl in *; [reflexivity|]. destruct Hs as [Hk Hs].
  destruct (status_step o s _ Hwf Hk) as [<-|Hl]; [by apply IH; [apply exec_wf|]|].
  eapply rtc_l; [exact Hl|]. by apply IH; [apply exec_wf|].
Qed.
End Runs.
End FlC.
