(* ===== verification/FlAiRewards.v ===== *)
(** * Rewards of the federated learning contract

    What a claim checks, pays and marks; a reward is claimed once; a pool
    never pays more than it got; and what the overlay's treatment of zero
    words does to emptied pools and revoked roles. *)

From Stdlib Require Import Strings.Byte.
From S2P Require Import Prelude OrdMap Gas ContractStorage Codec BaseContract Savitri20 FlAi FlAiCorrect.

Import CS.

Module FlR.
Import Fl FlC.

(** Read a slot through what only read so far. *)
Ltac rd H :=
  autounfold with fl;
  apply wp_bind; first [apply wp_read_int | apply wp_read_bytes32]; [apply H| |intros; by eapply within_reads];
  let s' := fresh "s" in let H' := fresh "H" in
  intros s' H'; try (rewrite !(wi_view _ _ _ _ H) by apply not_elem_of_nil);
  apply (within_reads _ _ _ _ _ H) in H'; clear H; rename H' into H.

Section Rewards.
Context {KeccakI : Keccak} (st : Storage).

Lemma wp_emit_event b t d (Q : unit -> ExecState -> Prop) R s :
  cs_wf st (es_cs s) -> (forall s', reads st s s' -> Q tt s') -> wp (emit_event b t d) Q R s.
Proof.
  intros Hwf HQ. unfold wp, emit_event. destruct b; [|by apply HQ, reads_refl].
  destruct (meter_reads st (Gas.consume_log (Z.of_nat (length t)) (Z.of_nat (length d))) s Hwf) as (s' & Hr & [E|[_ [e E]]]);
    rewrite E; by apply HQ.
Qed.

(** *** Claims *)

Definition claimed (m r : Z) (a c : bytes) (s : ExecState) : Prop := word_int 1 (view st s (claim_slot m r a c)) <> 0.
Definition pool (m : Z) (a : bytes) (s : ExecState) : Z := word_int 16 (view st s (pool_slot m a)).
Definition fee_bps (s : ExecState) : Z := word_int 2 (view st s SLOT_TREASURY_FEE_BPS).

(** What the checks of a claim establish. *)
Record entitled (c : bytes) (m r : Z) (a : bytes) (gross score : Z) (p q : bytes) (s : ExecState) : Prop := {
  en_addr : length c = 32%nat;
  en_final : status_at st (status_slot m r) s = Finalized;
  en_unclaimed : ~ claimed m r a c s;
  en_update : view st s (update_field m r c UPDATE_OFFSET_COMMIT) <> zeros 32;
  en_accepted : verify_merkle_proof (accepted_leaf m r c (view st s (update_field m r c UPDATE_OFFSET_COMMIT)))
    (view st s (round_field m r ROUND_OFFSET_ACCEPTED_ROOT)) (Sav20.chunks p) = true;
  en_score : verify_merkle_proof (score_leaf m r c score gross)
    (view st s (round_field m r ROUND_OFFSET_SCORE_ROOT)) (Sav20.chunks q) = true;
}.

Lemma wp_get_round m r s0 s :
  within st [] s0 s ->
  wp (get_round st m r) (fun rd s' => within st [] s0 s' /\ status rd = status_at st (status_slot m r) s0 /\
      accepted_root rd = view st s0 (round_field m r ROUND_OFFSET_ACCEPTED_ROOT) /\
      score_root rd = view st s0 (round_field m r ROUND_OFFSET_SCORE_ROOT)) (fun _ s' => within st [] s0 s') s.
Proof.
  intros H. unfold get_round. do 2 rd H. apply wp_bind, wp_bail_if; [done|]. intros _. do 10 rd H. apply wp_ret. done.
Qed.
Lemma wp_get_update m r c s0 s :
  within st [] s0 s ->
  wp (get_update st m r c) (fun o s' => within st [] s0 s' /\ length c = 32%nat /\
      forall u, o = Some u -> commit u = view st s0 (update_field m r c UPDATE_OFFSET_COMMIT) /\ commit u <> zeros 32)
    (fun _ s' => within st [] s0 s') s.
Proof.
  intros H. unfold get_update, ensure_address32. apply wp_bind, wp_bail_if; [done|].
  intros Hl%negb_false_iff%bool_decide_eq_true. rd H. case_bool_decide as Hz.
  - apply wp_ret. done.
  - do 3 rd H. apply wp_ret. split; [done|]. split; [done|]. intros u [= <-]. done.
Qed.

Lemma wp_claim_checks c m r a gross score p q s :
  cs_wf st (es_cs s) ->
  wp (claim_checks st c m r a gross score p q)
    (fun _ s' => within st [] s s' /\ entitled c m r a gross score p q s) (fun _ s' => within st [] s s') s.
Proof.
  intros Hwf. pose proof (within_refl st [] s Hwf) as H. unfold claim_checks, ensure_address32.
  apply wp_bind, wp_bail_if; [done|]. intros Hl%negb_false_iff%bool_decide_eq_true.
  apply wp_bind. eapply wp_mono; [apply (wp_get_round m r s), H| |done]. clear H. intros rnd s1 (H & Hst & Ha & Hsc).
  apply wp_bind, wp_bail_if; [done|]. intros Hf%negb_false_iff%bool_decide_eq_true.
  unfold read_bool, read_u8. apply wp_bind. rd H. apply wp_ret.
  apply wp_bind, wp_bail_if; [done|]. intros Hc%negb_false_iff%Z.eqb_eq.
  apply wp_bind. eapply wp_mono; [apply (wp_get_update m r c s), H| |done]. clear H. intros o s2 (H & _ & Hu).
  apply wp_bind, wp_lift; [|done]. intros u [Hu1 Hu2]%ok_or_Ok%Hu. unfold bytes_to_nodes.
  apply wp_bind, wp_bind, wp_bail_if; [done|]. intros _. apply wp_ret, wp_bind, wp_bail_if; [done|]. intros Hp%negb_false_iff.
  apply wp_bind, wp_bind, wp_bail_if; [done|]. intros _. apply wp_ret, wp_bail_if; [done|]. intros Hq%negb_false_iff.
  split; [done|]. rewrite Hu1 in *. rewrite Ha in Hp. rewrite Hsc in Hq. split; try done; [congruence|]. unfold claimed. lia.
Qed.

Lemma wp_claim_reward c m r a gross score p q s :
  cs_wf st (es_cs s) ->
  wp (claim_reward st c m r a gross score p q)
    (fun nf s' => entitled c m r a gross score p q s /\ nf.2 = gross * fee_bps s / 10000 /\ nf.1 = gross - nf.2 /\
       nf.2 <= gross <= pool m a s /\ within st [pool_slot m a; claim_slot m r a c] s s' /\ claimed m r a c s' /\
       (pool_slot m a <> claim_slot m r a c ->
        view st s' (pool_slot m a) = stored st s (pool_slot m a) (int_word 16 (pool m a s - gross))))
    (fun _ s' => within st [pool_slot m a; claim_slot m r a c] s s' /\
       (pool_slot m a <> claim_slot m r a c ->
        view st s' (pool_slot m a) = view st s (pool_slot m a) \/
        (gross <= pool m a s /\ view st s' (pool_slot m a) = stored st s (pool_slot m a) (int_word 16 (pool m a s - gross))))) s.
Proof.
  intros Hwf. set (ks := [pool_slot m a; claim_slot m r a c]).
  set (R := fun (_ : ContractError) s' => within st ks s s' /\ (pool_slot m a <> claim_slot m r a c ->
        view st s' (pool_slot m a) = view st s (pool_slot m a) \/
        (gross <= pool m a s /\ view st s' (pool_slot m a) = stored st s (pool_slot m a) (int_word 16 (pool m a s - gross))))).
  assert (HE : forall (e : ContractError) s', within st [] s s' -> R e s').
  { intros e s' H. split; [eapply within_mono, H; set_solver|]. intros _. left. apply (wi_view _ _ _ _ H), not_elem_of_nil. }
  unfold claim_reward. apply wp_bind. eapply wp_mono; [by apply wp_claim_checks| |exact HE]. intros _ s1 [H He].
  unfold get_treasury. apply wp_bind, wp_bind, wp_read_bytes32; [apply H| |intros; by eapply HE, within_reads]. intros s2 H2.
  apply (within_reads _ _ _ _ _ H) in H2. clear H.
  unfold read_u16. apply wp_bind, wp_read_int; [apply H2| |intros; by eapply HE, within_reads]. intros s3 H3.
  rewrite (wi_view _ _ _ _ H2 SLOT_TREASURY_FEE_BPS) by apply not_elem_of_nil. fold (fee_bps s). apply (within_reads _ _ _ _ _ H2) in H3. clear H2.
  apply wp_ret, wp_bind, wp_lift; [|intros e _; by apply (HE e)]. cbn [snd]. intros x [-> _]%ok_or_Ok%checked_mul_Some.
  apply wp_bind, wp_lift; [|intros e _; by apply (HE e)]. intros n [-> Hfee]%ok_or_Ok%checked_sub_Some.
  unfold read_u128. apply wp_bind, wp_read_int; [apply H3| |intros; by eapply HE, within_reads]. intros s4 H4.
  rewrite (wi_view _ _ _ _ H3) by apply not_elem_of_nil. fold (pool m a s). apply (within_reads _ _ _ _ _ H3) in H4.
  apply wp_bind, wp_bail_if; [intros _; by apply (HE unauthorized)|]. intros Hb%Z.ltb_ge.
  apply wp_bind, wp_write_int; [lia|apply H4| |intros e s' ?; by eapply (HE e), within_reads]. intros s5 H5.
  assert (Hp : stored st s4 (pool_slot m a) (int_word 16 (pool m a s - gross)) = stored st s (pool_slot m a) (int_word 16 (pool m a s - gross))).
  { unfold stored. by rewrite (wi_addr _ _ _ _ H4). }
  assert (W5 : within st ks s s5).
  { eapply within_writes; [|eapply within_mono, H4; set_solver|exact H5]. by left. }
  assert (P5 : view st s5 (pool_slot m a) = stored st s (pool_slot m a) (int_word 16 (pool m a s - gross))).
  { by rewrite (wr_view _ _ _ _ _ H5), decide_True by done. }
  unfold write_bool, write_u8. apply wp_bind, wp_write_int; [lia|apply H5| |].
  2: { intros e s6 H6. split; [by eapply within_reads|]. intros _. right. split; [done|]. by rewrite (rd_view _ _ _ H6). }
  intros s6 H6. assert (W6 : within st ks s s6) by (eapply within_writes; [right; by left|done|exact H6]).
  assert (holds st (claim_slot m r a c) (fun w => word_int 1 w = 1) s6) as C6.
  { split; [apply H6|]. rewrite (wr_view _ _ _ _ _ H6), decide_True by done. by apply stored_small. }
  apply wp_bind, wp_emit_event; [apply H6|]. intros s7 H7. apply wp_ret.
  split; [done|]. split; [done|]. split; [done|]. split; [simpl; lia|]. split; [by eapply within_reads|]. split.
  - destruct (holds_reads _ _ _ _ _ C6 H7) as [_ C7]. unfold claimed. by rewrite C7.
  - intros Hne. by rewrite (rd_view _ _ _ H7), (wr_view _ _ _ _ _ H6), decide_False.
Qed.

(** A granted claim: the round is finalised, the reward was not claimed, the
    caller submitted an update, both proofs verify, the pool held the gross
    amount; then the fee is its share of it, the mark is set, the pool holds
    the rest (as the overlay stores it), and nothing else changes. *)
Theorem claim_pays_once c m r a gross score p q s net fee s' :
  cs_wf st (es_cs s) -> pool_slot m a <> claim_slot m r a c ->
  claim_reward st c m r a gross score p q s = (Ok (net, fee), s') ->
  entitled c m r a gross score p q s /\ net + fee = gross /\ fee = gross * fee_bps s / 10000 /\ gross <= pool m a s /\
  claimed m r a c s' /\ view st s' (pool_slot m a) = stored st s (pool_slot m a) (int_word 16 (pool m a s - gross)) /\
  (forall k, k ∉ [pool_slot m a; claim_slot m r a c] -> view st s' k = view st s k).
Proof.
  intros Hwf Hne E. destruct (wp_ok _ _ _ _ _ _ (wp_claim_reward c m r a gross score p q s Hwf) E)
    as (He & Hf & Hn & Hb & Hw & Hc & Hp). simpl in *.
  split; [done|]. split; [lia|]. split; [done|]. split; [lia|]. split; [done|]. split; [auto|]. apply Hw.
Qed.

(** *** Claims are final *)

Lemma keeps_claimed_claim m r a c caller m' r' a' gross score p q :
  claim_slot m r a c <> pool_slot m' a' ->
  keeps (holds st (claim_slot m r a c) (fun w => word_int 1 w <> 0)) (claim_reward st caller m' r' a' gross score p q).
Proof.
  intros Hne. unfold claim_reward, get_treasury. apply keeps_bind; [apply keeps_holds; intros; apply claim_checks_keeps|]. intros _.
  destruct (decide (claim_slot m r a c = claim_slot m' r' a' caller)) as [<-|]; flkeep.
Qed.

Lemma exec_claimed o m r a c s :
  cs_wf st (es_cs s) -> claim_slot m r a c ∉ status_of_op o ++ pool_of_op o ++ rest_of_op st s o ->
  claimed m r a c s -> claimed m r a c (exec st o s).2.
Proof.
  intros Hwf Hk Hc. destruct (decide (claim_slot m r a c ∈ claim_of_op o)) as [Hin|Hout].
  2: { unfold claimed. rewrite (wi_view _ _ _ _ (exec_within st o s Hwf)); [done|]. unfold writes_of. rewrite !elem_of_app in *. tauto. }
  enough (keeps (holds st (claim_slot m r a c) (fun w => word_int 1 w <> 0)) (exec st o)) as Hh by (by apply Hh).
  destruct o; simpl in Hin; try (by apply not_elem_of_nil in Hin); simpl in Hk; rewrite ?elem_of_cons in Hk.
  - unfold exec, mark_claimed, write_bool. apply list_elem_of_singleton in Hin. rewrite Hin. flkeep.
  - unfold exec. apply keeps_bind; [apply keeps_claimed_claim; tauto|intros; apply keeps_ret].
Qed.

(** C14: A reward is claimed once: after a granted claim, whatever operations
    follow, failed ones included, no second claim of it is granted. *)
Theorem reward_claimed_once c m r a gross score p q s net fee s1 ops gross' score' p' q' v s2 :
  cs_wf st (es_cs s) -> claim_reward st c m r a gross score p q s = (Ok (net, fee), s1) ->
  spared st (claim_slot m r a c) (fun s o => status_of_op o ++ pool_of_op o ++ rest_of_op st s o) ops s1 ->
  claim_reward st c m r a gross' score' p' q' (run st ops s1) <> (Ok v, s2).
Proof.
  intros Hwf E Hs. destruct (wp_ok _ _ _ _ _ _ (wp_claim_reward c m r a gross score p q s Hwf) E) as (_ & _ & _ & _ & Hw & Hc & _).
  assert (Hrun : cs_wf st (es_cs (run st ops s1)) /\ claimed m r a c (run st ops s1)).
  { pose proof (wi_wf _ _ _ _ Hw) as Hwf1. clear E Hw. revert s1 Hs Hc Hwf1. induction ops as [|o ops IH]; intros s1 Hs Hc Hwf1; simpl; [done|].
    destruct Hs as [Hk Hs]. apply IH; [done|by apply exec_claimed|by apply exec_wf]. }
  intros E2. destruct Hrun as [Hwf2 Hc2].
  destruct (wp_ok _ _ _ _ _ _ (wp_claim_reward c m r a gross' score' p' q' _ Hwf2) E2) as (He & _). by apply (en_unclaimed _ _ _ _ _ _ _ _ _ He).
Qed.

(** *** Pools *)

Definition amount_at (k : Z) (s : ExecState) : Z := word_int 16 (view st s k).

Lemma pow16 : 256 ^ Z.of_nat 16 = U128_MAX + 1.
Proof. reflexivity. Qed.
Lemma word16_range w : in_range U128_MAX (word_int 16 w).
Proof.
  unfold word_int, in_range. pose proof (from_le_bytes_range (take 16 w)) as [Hl Hu]. split; [done|].
  assert (256 ^ Z.of_nat (length (take 16 w)) <= 256 ^ Z.of_nat 16); [|rewrite pow16 in *; lia].
  apply Z.pow_le_mono_r; [lia|]. rewrite length_take. lia.
Qed.
Lemma stored_amount s k v :
  word_int 16 (db_value st (contract_address (es_cs s)) k) = 0 -> in_range U128_MAX v ->
  word_int 16 (stored st s k (int_word 16 v)) = v.
Proof.
  intros Hdb Hv. unfold stored. destruct (is_zero (int_word 16 v)) eqn:Hz.
  - apply int_word_zero in Hz; [|lia]. rewrite pow16 in Hz. rewrite Hdb. mlia.
  - rewrite word_int_word, pow16. mlia.
Qed.

Lemma wp_fund_pool c m a x s :
  cs_wf st (es_cs s) -> 0 <= x -> word_int 16 (db_value st (contract_address (es_cs s)) (pool_slot m a)) = 0 ->
  wp (fund_pool st c m a x) (fun _ s' => amount_at (pool_slot m a) s' = amount_at (pool_slot m a) s + x)
    (fun _ s' => within st [] s s') s.
Proof.
  intros Hwf Hx Hdb. unfold fund_pool. apply (wp_keep_bind (within st [] s)); [by apply within_refl|apply ensure_creator_keeps| |auto].
  intros _ s1 H. rd H. apply wp_bind, wp_lift; [|done]. intros v [-> Hv]%ok_or_Ok%checked_add_Some.
  pose proof (word16_range (view st s (pool_slot m a))).
  apply wp_write_int; [lia|apply H| |intros; by eapply within_reads]. intros s3 H3.
  unfold amount_at at 1. rewrite (wr_view _ _ _ _ _ H3), decide_True, stored_amount; [done|by rewrite (wi_addr _ _ _ _ H)|mlia|done].
Qed.

(** What an operation puts into the pool at [k], or takes out of it. *)
Definition moved (k : Z) (o : Op) (res : result ContractError unit) : Z :=
  match o, res with
  | FundPool _ m a x, Ok _ => if decide (pool_slot m a = k) then x else 0
  | ClaimReward _ m _ a gross _ _ _, Ok _ => if decide (pool_slot m a = k) then - gross else 0
  | _, _ => 0
  end.
Fixpoint net_moved (k : Z) (ops : list Op) (s : ExecState) : Z :=
  match ops with
  | [] => 0
  | o :: ops => moved k o (exec st o s).1 + net_moved k ops (exec st o s).2
  end.
Definition amounts_ok (o : Op) : Prop :=
  match o with FundPool _ _ _ x => 0 <= x | ClaimReward _ _ _ _ g _ _ _ => 0 <= g | _ => True end.

Lemma exec_pool o k s :
  cs_wf st (es_cs s) -> word_int 16 (db_value st (contract_address (es_cs s)) k) = 0 -> amounts_ok o ->
  k ∉ status_of_op o ++ claim_of_op o ++ rest_of_op st s o ->
  amount_at k (exec st o s).2 <= amount_at k s + moved k o (exec st o s).1.
Proof.
  intros Hwf Hdb Ha Hk. destruct (decide (k ∈ pool_of_op o)) as [Hin|Hout].
  2: { assert (moved k o (exec st o s).1 = 0) as ->.
       { destruct o; try done; simpl in Hout; unfold moved; destruct (exec st _ s).1; try done; rewrite decide_False; set_solver. }
       unfold amount_at. rewrite (wi_view _ _ _ _ (exec_within st o s Hwf)); [lia|]. unfold writes_of. rewrite !elem_of_app in *. tauto. }
  destruct o; simpl in Hin; try (by apply not_elem_of_nil in Hin); apply list_elem_of_singleton in Hin; subst k; unfold exec.
  - pose proof (wp_fund_pool caller m asset amount s Hwf Ha Hdb) as Hw. unfold wp in Hw.
    destruct (fund_pool st caller m asset amount s) as [[[]|e] s'] eqn:E; simpl.
    + rewrite decide_True by done. lia.
    + unfold amount_at. rewrite (wi_view _ _ _ _ Hw); [lia|apply not_elem_of_nil].
  - pose proof (wp_claim_reward caller m r asset gross score accepted_proof score_proof s Hwf) as Hw. unfold wp in Hw.
    simpl in Ha, Hk. assert (pool_slot m asset <> claim_slot m r asset caller) as Hne by set_solver.
    pose proof (word16_range (view st s (pool_slot m asset))) as Hr. fold (pool m asset s) in Hr.
    unfold mbind, M_bind. destruct (claim_reward st caller m r asset gross score accepted_proof score_proof s) as [[nf|e] s'] eqn:E; simpl.
    + destruct Hw as (_ & _ & _ & Hb & _ & _ & Hp). rewrite decide_True by done. unfold amount_at at 1.
      rewrite (Hp Hne), stored_amount by (done || mlia). unfold amount_at. fold (pool m asset s). lia.
    + destruct Hw as (_ & Hp). destruct (Hp Hne) as [Hp'|[Hb Hp']]; unfold amount_at; rewrite Hp'; [lia|].
      rewrite stored_amount by (done || mlia). fold (pool m asset s). lia.
Qed.

(** A pool never pays more than was put in: over any operations, failed ones
    included, it holds at most what it held and was funded with, less what
    was claimed from it, as long as no balance of it is committed yet. *)
Theorem claims_never_exceed_funds ops k s :
  cs_wf st (es_cs s) -> word_int 16 (db_value st (contract_address (es_cs s)) k) = 0 -> Forall amounts_ok ops ->
  spared st k (fun s o => status_of_op o ++ claim_of_op o ++ rest_of_op st s o) ops s ->
  0 <= amount_at k (run st ops s) <= amount_at k s + net_moved k ops s.
Proof.
  intros Hwf Hdb Ha Hs. split; [apply word16_range|]. revert s Hwf Hdb Hs. induction Ha as [|o ops Ho Ha IH]; intros s Hwf Hdb Hs; simpl; [lia|].
  destruct Hs as [Hk Hs]. pose proof (exec_pool o k s Hwf Hdb Ho Hk).
  assert (word_int 16 (db_value st (contract_address (es_cs (exec st o s).2)) k) = 0) as Hdb'.
  { by rewrite (wi_addr _ _ _ _ (exec_within st o s Hwf)). }
  specialize (IH _ (exec_wf st o s Hwf) Hdb' Hs). lia.
Qed.

(** *** Zero words *)

(** A claim of a whole pool leaves it with the balance that is committed in
    the database, not with zero. *)
Theorem emptied_pool_refills c m r a score p q s v s' :
  cs_wf st (es_cs s) -> pool_slot m a <> claim_slot m r a c ->
  claim_reward st c m r a (pool m a s) score p q s = (Ok v, s') ->
  pool m a s' = word_int 16 (db_value st (contract_address (es_cs s)) (pool_slot m a)).
Proof.
  intros Hwf Hne E. destruct (wp_ok _ _ _ _ _ _ (wp_claim_reward c m r a _ score p q s Hwf) E) as (_ & _ & _ & _ & _ & _ & Hp).
  unfold pool. rewrite (Hp Hne). unfold pool. rewrite Z.sub_diag. done.
Qed.

(** A role, a permission or a ban that is committed cannot be taken back. *)
Lemma wp_write_false k s :
  cs_wf st (es_cs s) ->
  wp (write_bool st k false) (fun _ s' => view st s' k = db_value st (contract_address (es_cs s)) k) (fun _ s' => reads st s s') s.
Proof.
  intros Hwf. apply wp_write_int; [lia|done| |done]. intros s' H. by rewrite (wr_view _ _ _ _ _ H), decide_True.
Qed.

Theorem committed_role_outlives_revocation c m account role s v s' :
  cs_wf st (es_cs s) -> word_int 1 (db_value st (contract_address (es_cs s)) (role_slot m account role)) <> 0 ->
  revoke_role st c m account role s = (Ok v, s') ->
  wp (has_role st m account role) (fun b _ => b = true) (fun _ s'' => reads st s' s'') s'.
Proof.
  intros Hwf Hdb E. assert (Hw : wp (revoke_role st c m account role) (fun _ s' => cs_wf st (es_cs s') /\ length account = 32%nat /\
    word_int 1 (view st s' (role_slot m account role)) <> 0) (fun _ _ => True) s).
  { unfold revoke_role, ensure_address32. apply (wp_keep_bind (within st [] s)); [by apply within_refl|apply ensure_creator_keeps| |done].
    intros _ s1 H. apply wp_bind, wp_bail_if; [done|]. intros Hl%negb_false_iff%bool_decide_eq_true.
    apply wp_write_int; [lia|apply H| |done]. intros s2 H2. split; [apply H2|]. split; [done|].
    rewrite (wr_view _ _ _ _ _ H2), decide_True by done. unfold stored. by rewrite (wi_addr _ _ _ _ H). }
  destruct (wp_ok _ _ _ _ _ _ Hw E) as (Hwf' & Hl & Hv). unfold has_role, ensure_address32. rewrite bool_decide_eq_true_2 by done.
  apply wp_bind, wp_bail_if; [done|]. intros _. unfold read_bool, read_u8. apply wp_bind, wp_read_int; [done| |done].
  intros s3 H3. apply wp_ret. apply negb_true_iff, Z.eqb_neq. done.
Qed.

(** *** Governance *)

(** An abort by governance is refused unless the model was registered by the
    address of 32 bytes [0xff], and nothing is written. *)
Theorem governance_cannot_abort m r s :
  cs_wf st (es_cs s) -> view st s (model_field m MODEL_OFFSET_CREATOR) <> governance_caller ->
  exists e s', on_governance_abort_round st m r s = (Err e, s') /\ within st [] s s'.
Proof.
  intros Hwf Hc. assert (Hw : wp (on_governance_abort_round st m r) (fun _ _ => False) (fun _ s' => within st [] s s') s).
  { pose proof (within_refl st [] s Hwf) as H. unfold on_governance_abort_round, abort_round, ensure_creator.
    apply wp_bind, wp_bind. eapply (wp_mono _ (fun mo s' => within st [] s s' /\ creator mo = view st s (model_field m MODEL_OFFSET_CREATOR)));
      [|intros mo s1 [H1 ->]; apply wp_bail_if; [by intros|]; intros Hb%negb_false_iff%bool_decide_eq_true; congruence|intros ? ? H1; exact H1].
    unfold get_model. rd H. apply wp_bind, wp_bail_if; [done|]. intros _. do 8 rd H. apply wp_ret. done. }
  unfold wp in Hw. destruct (on_governance_abort_round st m r s) as [[?|e] s']; [done|]. by exists e, s'.
Qed.
End Rewards.
End FlR.

(** ** The federated learning contract on concrete runs

    A model with one trained round, its reward claimed once; and a round that
    was never created.  The hash is the small mixing function of [Codec]. *)

Import CS.

Module FlW.
Import Fl FlC FlR.
#[local] Existing Instance keccak_toy.

Definition addr (b : byte) : bytes := replicate 32 b.
Definition alice := addr x0a.
Definition bob := addr x0b.
Definition asset := addr x07.
Definition db0 : Storage := {| get_cf _ _ := Ok None |}.
Definition start : ExecState := mkES (mkCS (addr x01) ∅ ∅) None [] [].

Definition acc_root : bytes := accepted_leaf 1 0 bob (addr x0c).
Definition sco_root : bytes := score_leaf 1 0 bob 9 40.

Definition setup : list Op :=
  [Register alice (addr x02) 5 (addr x03) (addr x03) (addr x04) (addr x04) 1;
   GrantRole alice 1 bob Trainer; FundPool alice 1 asset 100; CreateRound alice 1 0 0 10 1 5].
Definition life_ops : list Op :=
  [OpenRound alice 1 0; OpenRound bob 1 0; SubmitUpdate bob 1 0 (addr x0c) (addr x0d) 0 (replicate 64 x00) 2;
   SealRound alice 1 0; FinalizeRound alice 1 0 (addr x0e) (addr x0f) acc_root sco_root 3; AbortRound alice 1 0].
Definition created : ExecState := run db0 setup start.
Definition finished : ExecState := run db0 life_ops created.
Definition after_claim : ExecState := (claim_reward db0 bob 1 0 asset 40 9 [] [] finished).2.
Definition later : list Op :=
  [SetRoots alice 1 0 acc_root sco_root; ClaimReward bob 1 0 asset 40 9 [] []; FundPool alice 1 asset 3;
   GrantRole alice 1 alice Trainer; CreateRound alice 1 1 0 10 1 5].

Fixpoint sparedb (k : Z) (f : ExecState -> Op -> list Z) (ops : list Op) (s : ExecState) : bool :=
  match ops with
  | [] => true
  | o :: ops => bool_decide (k ∉ f s o) && sparedb k f ops (exec db0 o s).2
  end.
Lemma sparedb_spec k f ops s : sparedb k f ops s = true -> spared db0 k f ops s.
Proof.
  revert s. induction ops as [|o ops IH]; intros s; simpl; [done|]. intros [H1%bool_decide_eq_true H2]%andb_true_iff. auto.
Qed.

Lemma wf_start : cs_wf db0 (es_cs start).
Proof. apply cs_wf_decide; vm_compute; reflexivity. Qed.
Lemma run_wf ops s : cs_wf db0 (es_cs s) -> cs_wf db0 (es_cs (run db0 ops s)).
Proof. revert s. induction ops as [|o ops IH]; intros s Hs; simpl; [done|]. apply IH, exec_wf, Hs. Qed.

Lemma rounds_move_forward_witness :
  status_at db0 (status_slot 1 0) created = Planned /\ status_at db0 (status_slot 1 0) finished = Finalized /\
  rtc life Planned Finalized.
Proof.
  assert (H1 : status_at db0 (status_slot 1 0) created = Planned) by (vm_compute; reflexivity).
  assert (H2 : status_at db0 (status_slot 1 0) finished = Finalized) by (vm_compute; reflexivity).
  split; [exact H1|]. split; [exact H2|]. rewrite <- H1, <- H2.
  apply (rounds_move_forward db0 life_ops created 1 0); [apply run_wf, wf_start|]. apply sparedb_spec. vm_compute. reflexivity.
Defined.

Lemma claim_pays_once_witness :
  exists net fee s', claim_reward db0 bob 1 0 asset 40 9 [] [] finished = (Ok (net, fee), s') /\ net + fee = 40 /\
    pool db0 1 asset finished = 100 /\ pool db0 1 asset s' = 60.
Proof.
  exists 40, 0, after_claim.
  assert (E : claim_reward db0 bob 1 0 asset 40 9 [] [] finished = (Ok (40, 0), after_claim)) by (vm_compute; reflexivity).
  destruct (claim_pays_once db0 bob 1 0 asset 40 9 [] [] finished 40 0 after_claim) as (_ & Hn & _);
    [apply run_wf, run_wf, wf_start|vm_compute; discriminate|exact E|].
  split; [exact E|]. split; [exact Hn|]. split; vm_compute; reflexivity.
Defined.

Lemma reward_claimed_once_witness :
  Prelude.is_ok (claim_reward db0 bob 1 0 asset 40 9 [] [] (run db0 later after_claim)).1 = false.
Proof.
  destruct (claim_reward db0 bob 1 0 asset 40 9 [] [] (run db0 later after_claim)) as [[v|e] s'] eqn:E; [|reflexivity].
  exfalso. revert E. apply (reward_claimed_once db0 bob 1 0 asset 40 9 [] [] finished 40 0 after_claim later 40 9 [] []).
  - apply run_wf, run_wf, wf_start.
  - vm_compute. reflexivity.
  - apply sparedb_spec. vm_compute. reflexivity.
Defined.

Lemma claims_never_exceed_funds_witness :
  0 <= amount_at db0 (pool_slot 1 asset) (run db0 later after_claim) <= 63.
Proof.
  assert (H : 0 <= amount_at db0 (pool_slot 1 asset) (run db0 later after_claim) <=
    amount_at db0 (pool_slot 1 asset) after_claim + net_moved db0 (pool_slot 1 asset) later after_claim).
  { apply (claims_never_exceed_funds db0 later (pool_slot 1 asset) after_claim).
    - assert (after_claim = run db0 [ClaimReward bob 1 0 asset 40 9 [] []] finished) as -> by (vm_compute; reflexivity).
      apply run_wf, run_wf, run_wf, wf_start.
    - vm_compute. reflexivity.
    - repeat constructor; vm_compute; discriminate.
    - apply sparedb_spec. vm_compute. reflexivity. }
  replace 63 with (amount_at db0 (pool_slot 1 asset) after_claim + net_moved db0 (pool_slot 1 asset) later after_claim)
    by (vm_compute; reflexivity). exact H.
Defined.

(** *** A round that was never created *)

Definition ghost : list Op :=
  [Register alice (addr x02) 5 (addr x03) (addr x03) (addr x04) (addr x04) 1;
   OpenRound alice 1 7; SealRound alice 1 7; FinalizeRound alice 1 7 (addr x0e) (addr x0f) acc_root sco_root 3].

(** A round that was never created can be opened, sealed and finalised
    without an update, and the model gets a new version from it. *)
Theorem ghost_round_makes_version :
  let s := run db0 ghost start in
  status_at db0 (status_slot 1 7) s = Finalized /\ version_at db0 1 s = 1 /\
  word_int 8 (view db0 s (model_field 1 MODEL_OFFSET_NEXT_ROUND)) = 0.
Proof. vm_compute. repeat split. Qed.

Definition full_ops : list Op :=
  [Register alice (addr x02) 5 (addr x03) (addr x03) (addr x04) (addr x04) 1; GrantRole alice 1 bob Trainer;
   CreateRound alice 1 0 0 10 0 0; OpenRound alice 1 0].

(** An update that a full round refuses is stored all the same, and its
    trainer's nonce has moved on. *)
Theorem refused_update_is_stored :
  let r := exec db0 (SubmitUpdate bob 1 0 (addr x0c) (addr x0d) 0 (replicate 64 x00) 2) (run db0 full_ops start) in
  r.1 = Err (Message "ERR_MAX_UPDATES_REACHED") /\
  view db0 r.2 (update_field 1 0 bob UPDATE_OFFSET_COMMIT) = addr x0c /\
  word_int 8 (view db0 r.2 (nonce_slot 1 bob)) = 1.
Proof. vm_compute. repeat split. Qed.
End FlW.
