(* ===== verification/Float64.v ===== *)
(** * Binary64 arithmetic

    The [f64] of the program, as the Standard Library specifies it: sums,
    products and quotients round to nearest even, comparisons are those of
    IEEE 754.  The functions compute. *)

From Stdlib Require Import Floats.SpecFloat.
From S2P Require Import Prelude.

Module F64.

Definition f64 : Type := spec_float.

Definition prec : Z := 53.
Definition emax : Z := 1024.

(** [x as f64] for an integer. *)
Definition of_Z (z : Z) : f64 := binary_normalize prec emax z 0 false.
Definition of_nat (n : nat) : f64 := of_Z (Z.of_nat n).
Definition zero : f64 := S754_zero false.
Definition one : f64 := of_Z 1.

Definition add : f64 -> f64 -> f64 := SFadd prec emax.
Definition sub : f64 -> f64 -> f64 := SFsub prec emax.
Definition mul : f64 -> f64 -> f64 := SFmul prec emax.
Definition div : f64 -> f64 -> f64 := SFdiv prec emax.
(** The literal [n / 100]: the nearest number of the quotient. *)
Definition percent (n : Z) : f64 := div (of_Z n) (of_Z 100).

Definition ltb : f64 -> f64 -> bool := SFltb.
Definition leb : f64 -> f64 -> bool := SFleb.
(** [a.partial_cmp(b).unwrap_or(Equal)]. *)
Definition cmp (a b : f64) : comparison := default Eq (SFcompare a b).

(** [iter().sum()]. *)
Definition sum (l : list f64) : f64 := fold_left add l zero.

(** [x.ceil() as usize]: saturating, and 0 for what is not a number. *)
Definition ceil_usize (x : f64) : Z :=
  match x with
  | S754_finite false m e =>
      Z.min U64_MAX (if 0 <=? e then Z.pos m * 2 ^ e else (Z.pos m + 2 ^ (- e) - 1) / 2 ^ (- e))
  | S754_infinity false => U64_MAX
  | _ => 0
  end.

(** A number is not less than itself. *)
Lemma ltb_irrefl a : ltb a a = false.
Proof.
  unfold ltb, SFltb. destruct a as [[]|[]| |[] m e]; simpl; rewrite ?Z.compare_refl, ?Pos.compare_cont_refl; try done.
  all: rewrite ?Pos.compare_refl; try done.
Qed.

Example percent_67 : percent 67 = S754_finite false 6034823500676465 (-53).
Proof. reflexivity. Qed.
(** An integer of 53 bits is represented, and its quotient by itself is 1. *)
Lemma digits2_iter m d : digits2_pos (Pos.iter xO m d) = (digits2_pos m + d)%positive.
Proof.
  induction d as [|d IH] using Pos.peano_ind; [simpl; lia|]. rewrite Pos.iter_succ. simpl. rewrite IH. lia.
Qed.
Lemma digits2_le m : 2 ^ (Z.pos (digits2_pos m) - 1) <= Z.pos m.
Proof.
  induction m as [m IH|m IH|]; cbn [digits2_pos]; [| |done].
  all: rewrite Pos2Z.inj_succ; replace (Z.succ _ - 1) with (Z.succ (Z.pos (digits2_pos m) - 1)) by lia;
    rewrite Z.pow_succ_r by lia; lia.
Qed.
Lemma fexp_small d e : d + e <= 1024 -> -1021 <= d + e -> fexp prec emax (d + e) = d + e - 53.
Proof. unfold fexp, emin, prec, emax. lia. Qed.

Lemma shr_fexp_exact m : digits2_pos m = 53%positive -> forall e, -1074 <= e <= 971 ->
  shr_fexp prec emax (Z.pos m) e loc_Exact = (Build_shr_record (Z.pos m) false false, e).
Proof.
  intros Hd e He. unfold shr_fexp, Zdigits2. rewrite Hd, fexp_small by lia.
  replace (53 + e - 53 - e) with 0 by lia. done.
Qed.

Lemma of_Z_finite z : 0 < z < 2 ^ 53 -> exists m e, of_Z z = S754_finite false m e.
Proof.
  intros Hz. destruct z as [|p|p]; [lia| |lia]. pose proof (digits2_le p) as Hd.
  assert (Hlt : (digits2_pos p <= 53)%positive).
  { destruct (Pos.leb_spec (digits2_pos p) 53) as [|Hgt]; [done|]. exfalso. assert (2 ^ 53 <= 2 ^ (Z.pos (digits2_pos p) - 1)) by (apply Z.pow_le_mono_r; lia). lia. }
  unfold of_Z, binary_normalize, binary_round. rewrite fexp_small by lia. unfold shl_align.
  assert (exists m e, -53 <= e <= 0 /\ digits2_pos m = 53%positive /\
    (match Z.pos (digits2_pos p) + 0 - 53 - 0 with
     | Z.neg d => (Pos.iter xO p d, Z.pos (digits2_pos p) + 0 - 53) | _ => (p, 0) end) = (m, e)) as (m & e & He & Hm & ->).
  { destruct (Z.pos (digits2_pos p) + 0 - 53 - 0) as [|d|d] eqn:E; [|lia|].
    - exists p, 0. split_and!; [lia|lia|lia|done].
    - exists (Pos.iter xO p d), (Z.pos (digits2_pos p) + 0 - 53).
      split_and!; [lia|lia|rewrite digits2_iter; lia|done]. }
  unfold binary_round_aux. rewrite shr_fexp_exact by (done || lia). simpl.
  rewrite shr_fexp_exact by (done || lia). cbn [shr_m].
  destruct (Z.leb_spec e (emax - prec)) as [|Hbad]; [by eauto|]. unfold emax, prec in Hbad. lia.
Qed.

Lemma div_same z : 0 < z < 2 ^ 53 -> div (of_Z z) (of_Z z) = one.
Proof.
  intros (m & e & ->)%of_Z_finite. unfold div, SFdiv, SFdiv_core_binary.
  rewrite !Z.sub_diag. change (fexp prec emax 0) with (-53). change (Z.min (-53) 0) with (-53). change (0 - -53) with 53.
  cbv beta iota zeta. rewrite Z.shiftl_mul_pow2 by lia.
  destruct (Z.div_eucl (Z.pos m * 2 ^ 53) (Z.pos m)) as [q r] eqn:E.
  assert (q = 2 ^ 53) as ->.
  { change q with (fst (q, r)). rewrite <- E. change (fst (Z.div_eucl ?a ?b)) with (a / b). rewrite Z.mul_comm. by apply Z.div_mul. }
  assert (r = 0) as ->.
  { change r with (snd (2 ^ 53, r)). rewrite <- E. change (snd (Z.div_eucl ?a ?b)) with (a mod b). rewrite Z.mul_comm. by apply Z.mod_mul. }
  unfold new_location, new_location_even, new_location_odd. destruct (Z.even (Z.pos m)); reflexivity.
Qed.

End F64.
