(* ===== verification/Groups.v ===== *)
(** * Groups of light nodes and the consensus of the masternodes on them

    [savitri-masternode/src/group_formation.rs] (registration, formation,
    cleanup) and [group_consensus.rs] (proposals, votes, certificates, leader
    election), with the dispatch of [main.rs].  The two managers share one
    state: the consensus holds a clone of the formation manager, whose maps
    are shared.

    An operation runs at one instant [now_ms]; the epoch is that of the
    instant.  The formation of groups and the making of a proposal read the
    clock several times, and their readings ([Clock]) may differ.  Hash maps are visited in some order ([HashOrder]).  Decoding of
    JSON, logs, tasks and channels are left out; the environment variable
    [SAVITRI_FORCE_SINGLE_GROUP], the distributor of groups and the random
    generator are parameters. *)

From Stdlib Require Import Strings.Byte Strings.Ascii Strings.String.
From stdpp Require Import sorting pretty strings.
From S2P Require Import Prelude OrdMap Codec Primitives Float64 BlockStore Proposals.

(** [ChaCha20Rng::from_seed(seed).gen_range(0..n)]. *)
Class SeededPick := { pick_from : bytes -> nat -> nat }.

Module Groups.

Inductive NodeAssignmentStatus := Free | Assigned (group_id : string).
#[global] Instance assignment_eq_dec : EqDecision NodeAssignmentStatus.
Proof. solve_decision. Defined.

Record LightNodeInfo := mkNode {
  node_id : string;
  peer_id : string;
  multiaddr : string;
  geographic_region : string;
  pou_score : F64.f64;
  capabilities : list string;
  last_seen : Z;
  uptime_percentage : F64.f64;
  account : bytes;
  assignment : NodeAssignmentStatus;
}.
Definition set_assignment (a : NodeAssignmentStatus) (n : LightNodeInfo) : LightNodeInfo :=
  mkNode (node_id n) (peer_id n) (multiaddr n) (geographic_region n) (pou_score n) (capabilities n) (last_seen n)
    (uptime_percentage n) (account n) a.
Definition set_last_seen (t : Z) (n : LightNodeInfo) : LightNodeInfo :=
  mkNode (node_id n) (peer_id n) (multiaddr n) (geographic_region n) (pou_score n) (capabilities n) t
    (uptime_percentage n) (account n) (assignment n).

Inductive GroupStatus := Forming | Active | Inactive | Dissolving.
#[global] Instance GroupStatus_eq_dec : EqDecision GroupStatus.
Proof. solve_decision. Defined.

Record P2PGroup := mkGroup {
  group_id : string;
  members : list string;
  member_multiaddrs : gmap string string;
  proposer : option string;
  group_leader_masternode : option string;
  backup_leader_masternode : option string;
  created_at : Z;
  g_epoch : Z;
  g_region : string;
  g_status : GroupStatus;
  health_score : F64.f64;
  assigned_shards : list Z;
}.
Definition set_status (x : GroupStatus) (g : P2PGroup) : P2PGroup :=
  mkGroup (group_id g) (members g) (member_multiaddrs g) (proposer g) (group_leader_masternode g) (backup_leader_masternode g)
    (created_at g) (g_epoch g) (g_region g) x (health_score g) (assigned_shards g).
Definition set_leader (l : option string) (g : P2PGroup) : P2PGroup :=
  mkGroup (group_id g) (members g) (member_multiaddrs g) (proposer g) l (backup_leader_masternode g)
    (created_at g) (g_epoch g) (g_region g) (g_status g) (health_score g) (assigned_shards g).
Definition set_backup (l : option string) (g : P2PGroup) : P2PGroup :=
  mkGroup (group_id g) (members g) (member_multiaddrs g) (proposer g) (group_leader_masternode g) l
    (created_at g) (g_epoch g) (g_region g) (g_status g) (health_score g) (assigned_shards g).
Definition set_region (r : string) (g : P2PGroup) : P2PGroup :=
  mkGroup (group_id g) (members g) (member_multiaddrs g) (proposer g) (group_leader_masternode g) (backup_leader_masternode g)
    (created_at g) (g_epoch g) r (g_status g) (health_score g) (assigned_shards g).
Definition set_shards (l : list Z) (g : P2PGroup) : P2PGroup :=
  mkGroup (group_id g) (members g) (member_multiaddrs g) (proposer g) (group_leader_masternode g) (backup_leader_masternode g)
    (created_at g) (g_epoch g) (g_region g) (g_status g) (health_score g) l.

Record GroupFormationConfig := mkFormConfig {
  f_min_group_size : nat;
  f_max_group_size : nat;
  target_groups : nat;
  formation_interval_epochs : Z;
  node_timeout_secs : Z;
  dissolution_disconnect_threshold : F64.f64;
  geographic_distribution : bool;
  minimum_stake : Z;
}.
Definition DEFAULT_MINIMUM_STAKE : Z := 1000000.
Definition MAX_REGISTRATIONS_PER_EPOCH : Z := 10.
Definition GroupFormationConfig_default : GroupFormationConfig :=
  mkFormConfig 5 50 10 1 600 (F64.percent 95) true DEFAULT_MINIMUM_STAKE.

Record SlotSchedulerConfig := mkSlots {
  heartbeat_interval_ms : Z;
  slots_per_epoch : Z;
  genesis_timestamp_ms : Z;
  local_id : string;
}.
Definition scheduler_epoch (c : SlotSchedulerConfig) (now_ms : Z) : Z :=
  Epoch.current_epoch now_ms (genesis_timestamp_ms c) (heartbeat_interval_ms c) (Z.max (slots_per_epoch c) 1).

Record GroupProposal := mkProposal {
  proposal_id : string;
  p_epoch : Z;
  groups : list P2PGroup;
  proposer_masternode : string;
  used_lightnodes : list string;
  p_timestamp : Z;
  p_signature : bytes;
}.
Inductive GroupVoteType := Approve | Reject.
#[global] Instance GroupVoteType_eq_dec : EqDecision GroupVoteType.
Proof. solve_decision. Defined.
Record GroupVote := mkVote {
  v_proposal_id : string;
  voter_masternode : string;
  vote_type : GroupVoteType;
  v_timestamp : Z;
  v_signature : bytes;
}.
Record GroupApprovalCertificate := mkCert {
  c_proposal : GroupProposal;
  c_votes : list GroupVote;
  c_approved : bool;
  approval_timestamp : Z;
  masternode_signatures : list bytes;
}.

Record LeaderElectionProposal := mkElection {
  e_id : string;
  e_proposer : string;
  e_timestamp : Z;
  e_epoch : Z;
  available_lightnode_count : Z;
  available_lightnode_ids : list string;
  e_signature : bytes;
}.
Record LeaderElectionCertificate := mkElectionCert {
  ec_id : string;
  ec_epoch : Z;
  approver_masternode : string;
  ec_timestamp : Z;
  lightnode_list_verified : bool;
  verified_lightnode_count : Z;
  ec_signature : bytes;
}.
Inductive LeaderElectionState :=
| Idle
| Collecting
| Elected (leader_masternode election_id : string)
| CreatingGroups (leader_masternode election_id : string).
#[global] Instance LeaderElectionState_eq_dec : EqDecision LeaderElectionState.
Proof. solve_decision. Defined.

Record BftGroupConfig := mkBft {
  min_masternodes : Z;
  total_masternodes : Z;
  vote_timeout_ms : Z;
  min_group_size : nat;
  max_group_size : nat;
  approval_threshold : F64.f64;
}.
Definition BftGroupConfig_default : BftGroupConfig := mkBft 3 3 10000 5 8 (F64.percent 67).

(** [GroupFormationManager]: its maps and counters, what is pending and what
    went to the publishing channel ([None]: no channel). *)
Record Manager := mkManager {
  registered : gmap string LightNodeInfo;
  active_groups : gmap string P2PGroup;
  current_epoch : Z;
  node_stakes : gmap string Z;
  registrations_this_epoch : Z;
  registration_epoch : Z;
  pending_election : option LeaderElectionProposal;
  pending_proposal : option GroupProposal;
  pending_vote : option GroupVote;
  published : option (list GroupVote);
}.
(** [GroupConsensusManager]. *)
Record Consensus := mkConsensus {
  active_proposals : gmap string GroupProposal;
  proposal_votes : gmap string (list GroupVote);
  approved_certificates : gmap Z GroupApprovalCertificate;
  available_lightnodes : gmap string LightNodeInfo;
  c_epoch : Z;
  election_state : LeaderElectionState;
  leader_proposals : gmap string LeaderElectionProposal;
  leader_certificates : gmap string (list LeaderElectionCertificate);
  election_start : option Z;
  active_masternodes : Z;
  ordered_masternode_ids : list string;
  banned_masternode_ids : gset string;
}.
Record World := mkWorld { mgr : Manager; cons : Consensus }.

Inductive GroupErr :=
| InsufficientStake | PrivateAddress | RateLimited | InvalidProposal | PastEpoch | GroupTooSmall | GroupTooLarge
| MissingNodes | TooOld | EmptyVoter | EmptyProposal | GroupNotFound | DistributionFailed | InvalidSync.

Definition W (A : Type) : Type := M World GroupErr A.

Definition on_mgr (f : Manager -> Manager) : W unit := modify (fun w => mkWorld (f (mgr w)) (cons w)).
Definition on_cons (f : Consensus -> Consensus) : W unit := modify (fun w => mkWorld (mgr w) (f (cons w))).

(** Field updates. *)
Definition upd_registered f (s : Manager) := mkManager (f (registered s)) (active_groups s) (current_epoch s) (node_stakes s)
  (registrations_this_epoch s) (registration_epoch s) (pending_election s) (pending_proposal s) (pending_vote s) (published s).
Definition upd_groups f (s : Manager) := mkManager (registered s) (f (active_groups s)) (current_epoch s) (node_stakes s)
  (registrations_this_epoch s) (registration_epoch s) (pending_election s) (pending_proposal s) (pending_vote s) (published s).
Definition upd_epoch e (s : Manager) := mkManager (registered s) (active_groups s) e (node_stakes s)
  (registrations_this_epoch s) (registration_epoch s) (pending_election s) (pending_proposal s) (pending_vote s) (published s).
Definition upd_stakes f (s : Manager) := mkManager (registered s) (active_groups s) (current_epoch s) (f (node_stakes s))
  (registrations_this_epoch s) (registration_epoch s) (pending_election s) (pending_proposal s) (pending_vote s) (published s).
Definition upd_counter n e (s : Manager) := mkManager (registered s) (active_groups s) (current_epoch s) (node_stakes s)
  n e (pending_election s) (pending_proposal s) (pending_vote s) (published s).
Definition upd_pending_election p (s : Manager) := mkManager (registered s) (active_groups s) (current_epoch s) (node_stakes s)
  (registrations_this_epoch s) (registration_epoch s) p (pending_proposal s) (pending_vote s) (published s).
Definition upd_pending_proposal p (s : Manager) := mkManager (registered s) (active_groups s) (current_epoch s) (node_stakes s)
  (registrations_this_epoch s) (registration_epoch s) (pending_election s) p (pending_vote s) (published s).
Definition upd_pending_vote p l (s : Manager) := mkManager (registered s) (active_groups s) (current_epoch s) (node_stakes s)
  (registrations_this_epoch s) (registration_epoch s) (pending_election s) (pending_proposal s) p l.

Definition upd_proposals f (s : Consensus) := mkConsensus (f (active_proposals s)) (proposal_votes s) (approved_certificates s)
  (available_lightnodes s) (c_epoch s) (election_state s) (leader_proposals s) (leader_certificates s) (election_start s)
  (active_masternodes s) (ordered_masternode_ids s) (banned_masternode_ids s).
Definition upd_votes f (s : Consensus) := mkConsensus (active_proposals s) (f (proposal_votes s)) (approved_certificates s)
  (available_lightnodes s) (c_epoch s) (election_state s) (leader_proposals s) (leader_certificates s) (election_start s)
  (active_masternodes s) (ordered_masternode_ids s) (banned_masternode_ids s).
Definition upd_certificates f (s : Consensus) := mkConsensus (active_proposals s) (proposal_votes s) (f (approved_certificates s))
  (available_lightnodes s) (c_epoch s) (election_state s) (leader_proposals s) (leader_certificates s) (election_start s)
  (active_masternodes s) (ordered_masternode_ids s) (banned_masternode_ids s).
Definition upd_available f (s : Consensus) := mkConsensus (active_proposals s) (proposal_votes s) (approved_certificates s)
  (f (available_lightnodes s)) (c_epoch s) (election_state s) (leader_proposals s) (leader_certificates s) (election_start s)
  (active_masternodes s) (ordered_masternode_ids s) (banned_masternode_ids s).
Definition upd_c_epoch e (s : Consensus) := mkConsensus (active_proposals s) (proposal_votes s) (approved_certificates s)
  (available_lightnodes s) e (election_state s) (leader_proposals s) (leader_certificates s) (election_start s)
  (active_masternodes s) (ordered_masternode_ids s) (banned_masternode_ids s).
Definition upd_election st ps cs t (s : Consensus) := mkConsensus (active_proposals s) (proposal_votes s) (approved_certificates s)
  (available_lightnodes s) (c_epoch s) st ps cs t (active_masternodes s) (ordered_masternode_ids s) (banned_masternode_ids s).
Definition upd_active n (s : Consensus) := mkConsensus (active_proposals s) (proposal_votes s) (approved_certificates s)
  (available_lightnodes s) (c_epoch s) (election_state s) (leader_proposals s) (leader_certificates s) (election_start s)
  n (ordered_masternode_ids s) (banned_masternode_ids s).
Definition upd_ids ids banned (s : Consensus) := mkConsensus (active_proposals s) (proposal_votes s) (approved_certificates s)
  (available_lightnodes s) (c_epoch s) (election_state s) (leader_proposals s) (leader_certificates s) (election_start s)
  (active_masternodes s) ids banned.
Definition set_election_state st (s : Consensus) : Consensus :=
  upd_election st (leader_proposals s) (leader_certificates s) (election_start s) s.

(** [GroupFormationManager::new] and [GroupConsensusManager::new]. *)
Definition new_manager : Manager := mkManager ∅ ∅ 0 ∅ 0 0 None None None None.
Definition new_consensus (c : BftGroupConfig) : Consensus :=
  mkConsensus ∅ ∅ ∅ ∅ 0 Idle ∅ ∅ None (total_masternodes c) [] ∅.

Definition contains (sub s : string) : bool := match String.index 0 sub s with Some _ => true | None => false end.
(** The addresses a registration refuses. *)
Definition unreachable_addr (a : string) : bool :=
  bool_decide (a = "") || bool_decide (a = "unknown") || contains "tcp/0" a || contains "/ip4/172." a ||
  contains "/ip4/10." a || contains "/ip4/192.168." a || contains "/ip4/127.0.0.1" a || contains "/ip4/0.0.0.0" a.
(** The addresses a group lists. *)
Definition listed_addr (a : string) : bool :=
  negb (bool_decide (a = "") || bool_decide (a = "unknown") || contains "tcp/0" a || contains "/ip4/172." a ||
  contains "/ip4/10." a || contains "/ip4/192.168." a || contains "/ip4/0.0.0.0" a).

(** The readings of the clock while groups are formed and proposed, in ms: of
    the epoch, of the formation, of each group by its number, of the
    proposal's name and of its timestamp, and of the epoch after it. *)
Record Clock := mkClock {
  at_start : Z;
  at_forming : Z;
  at_group : nat -> Z;
  at_name : Z;
  at_stamp : Z;
  at_end : Z;
}.

Section Manage.
Context `{Sha256, Sha512, Ed25519, Ed25519Sign, HashOrder, SeededPick}.
Context (cfg : GroupFormationConfig) (slots : SlotSchedulerConfig) (bft : BftGroupConfig) (force_single : bool).
Context (distributor : option (list P2PGroup -> Z -> bool)) (with_consensus auto_initiate : bool).

(** The values of a map, and a set, in the order of the iteration. *)
Definition values {V} (m : gmap string V) : list V := (hash_order (map_to_list m)).*2.
Definition set_iter (l : list string) : list string := hash_order (remove_dups l).

Definition secs (now_ms : Z) : Z := now_ms / 1000.
Definition epoch_at (now_ms : Z) : Z := scheduler_epoch slots now_ms.

(** *** Formation *)

(** The offsets and the ends of [num_groups] slices of [total] elements. *)
Fixpoint even_slices (base extra i n offset : nat) : list (nat * nat) :=
  match n with
  | O => []
  | S n =>
      let size := if (i <? extra)%nat then S base else base in
      (offset, offset + size)%nat :: even_slices base extra (S i) n (offset + size)
  end.
Definition even_partition (total num_groups : nat) : list (nat * nat) :=
  even_slices (total / num_groups) (total mod num_groups) 0 num_groups 0.

Definition calculate_num_groups (total_nodes : nat) : nat :=
  let effective_min := Nat.max (f_min_group_size cfg) 2 in
  if (total_nodes <? effective_min)%nat then 0%nat
  else if force_single then 1%nat
  else
    let max_possible := (total_nodes / effective_min)%nat in
    if (max_possible =? 0)%nat then 0%nat
    else Nat.max (Nat.min (Nat.max (target_groups cfg) 1) max_possible) 1.

Definition peer_bucket_hash (p : string) : Z := from_le_bytes (rev (take 8 (sha256 (bytes_of_string p)))).

(** [iter().max_by(..)]: the last of the greatest. *)
Definition max_by_score (l : list LightNodeInfo) : option LightNodeInfo :=
  match l with
  | [] => None
  | n :: l => Some (fold_left (fun a b => match F64.cmp (pou_score a) (pou_score b) with Gt => a | _ => b end) l n)
  end.

Definition calculate_group_health (nodes : list LightNodeInfo) : F64.f64 :=
  if bool_decide (nodes = []) then F64.zero
  else
    let n := F64.of_nat (length nodes) in
    F64.add (F64.mul (F64.div (F64.sum (pou_score <$> nodes)) n) (F64.percent 70))
      (F64.mul (F64.div (F64.sum (uptime_percentage <$> nodes)) n) (F64.percent 30)).

Definition create_group_from_chunk (now_ms : Z) (nodes : list LightNodeInfo) (epoch : Z) (index : nat) : P2PGroup :=
  let id := if force_single then "group_singleton_" +:+ pretty (Z.of_nat index)
            else "group_" +:+ pretty epoch +:+ "_" +:+ pretty (Z.of_nat index) +:+ "_" +:+ pretty epoch in
  mkGroup id (peer_id <$> nodes)
    (list_to_map (rev ((fun n => (peer_id n, multiaddr n)) <$> filter (fun n => listed_addr (multiaddr n) = true) nodes)))
    (peer_id <$> max_by_score nodes) None None (secs now_ms) epoch "unknown" Forming (calculate_group_health nodes) [].

Fixpoint z_range (lo : Z) (n : nat) : list Z := match n with O => [] | S n => lo :: z_range (lo + 1) n end.
Definition shards_of (num_groups idx : nat) : list Z :=
  filter (fun shard => shard mod Z.of_nat num_groups = Z.of_nat idx) (z_range 0 (Z.to_nat 65536)).
Definition assign_shards_round_robin (l : list P2PGroup) : list P2PGroup :=
  imap (fun i g => set_shards (shards_of (length l) i) g) l.

(** The groups of [nodes], numbered from [index]. *)
Definition slice (nodes : list LightNodeInfo) (p : nat * nat) : list LightNodeInfo := take (p.2 - p.1) (drop p.1 nodes).
Definition chunk_groups (created_ms : nat -> Z) (nodes : list LightNodeInfo) (epoch : Z) (index : nat) : list P2PGroup :=
  let num := calculate_num_groups (length nodes) in
  if (num =? 0)%nat then []
  else imap (fun i p => create_group_from_chunk (created_ms (index + i)%nat) (slice nodes p) epoch (index + i)) (even_partition (length nodes) num).

Definition create_simple_groups (created_ms : nat -> Z) (nodes : list LightNodeInfo) (epoch : Z) : list P2PGroup :=
  let num := calculate_num_groups (length nodes) in
  if (num =? 0)%nat then []
  else assign_shards_round_robin (chunk_groups created_ms nodes epoch 0).

(** The regions in ascending order, and the groups of each. *)
Definition region_le (a b : string) : Prop := lex_leb (bytes_of_string a) (bytes_of_string b) = true.
#[global] Instance region_le_dec a b : Decision (region_le a b).
Proof. unfold region_le. apply _. Defined.
Definition regions (nodes : list LightNodeInfo) : list string :=
  merge_sort region_le (hash_order (remove_dups (geographic_region <$> nodes))).
Fixpoint regional_groups (created_ms : nat -> Z) (nodes : list LightNodeInfo) (epoch : Z) (index : nat) (rs : list string) : list P2PGroup :=
  match rs with
  | [] => []
  | r :: rs =>
      let gs := set_region r <$> chunk_groups created_ms (filter (fun n => geographic_region n = r) nodes) epoch index in
      gs ++ regional_groups created_ms nodes epoch (index + length gs) rs
  end.
Definition create_geographically_distributed_groups (created_ms : nat -> Z) (nodes : list LightNodeInfo) (epoch : Z) : list P2PGroup :=
  assign_shards_round_robin (regional_groups created_ms nodes epoch 0 (regions nodes)).

Definition REBALANCE_PERIOD_EPOCHS : Z := 60.
Definition by_score (a b : LightNodeInfo) : Prop := F64.cmp (pou_score b) (pou_score a) <> Gt.
#[global] Instance by_score_dec a b : Decision (by_score a b).
Proof. unfold by_score. apply _. Defined.
Definition by_bucket (a b : LightNodeInfo) : Prop :=
  peer_bucket_hash (peer_id a) < peer_bucket_hash (peer_id b) \/
  (peer_bucket_hash (peer_id a) = peer_bucket_hash (peer_id b) /\
   lex_leb (bytes_of_string (peer_id a)) (bytes_of_string (peer_id b)) = true).
#[global] Instance by_bucket_dec a b : Decision (by_bucket a b).
Proof. unfold by_bucket. apply _. Defined.
Definition sort_nodes (epoch : Z) (nodes : list LightNodeInfo) : list LightNodeInfo :=
  if (0 <? epoch) && (epoch mod REBALANCE_PERIOD_EPOCHS =? 0) then merge_sort by_score nodes
  else merge_sort by_bucket nodes.

Definition form_groups (now_ms : Z) (created_ms : nat -> Z) (force : bool) : W (list P2PGroup) :=
  let epoch := epoch_at now_ms in
  w ← get;
  let force := force || (epoch =? 0) in
  if negb force && (wrap U64_MAX (epoch - current_epoch (mgr w)) <? formation_interval_epochs cfg) then mret []
  else
    on_mgr (upd_epoch epoch);;
    on_mgr (upd_registered (fmap (set_assignment Free)));;
    w ← get;
    let nodes := filter (fun n => assignment n = Free) (values (registered (mgr w))) in
    if (length nodes <? f_min_group_size cfg)%nat then mret []
    else
      let sorted := sort_nodes epoch nodes in
      let gs := if geographic_distribution cfg then create_geographically_distributed_groups created_ms sorted epoch
                else create_simple_groups created_ms sorted epoch in
      let gs := set_leader (Some (local_id slots)) <$> gs in
      on_mgr (upd_groups (fun m => fold_left (fun m g => <[group_id g := g]> m) gs m));;
      mret gs.

(** *** The registry *)

Definition get_registered_nodes : W (list LightNodeInfo) := w ← get; mret (values (registered (mgr w))).
Definition get_active_groups : W (list P2PGroup) := w ← get; mret (values (active_groups (mgr w))).

Definition update_last_seen_by_peer_id (now_ms : Z) (p : string) : W bool :=
  w ← get;
  on_mgr (upd_registered (fmap (fun n => if bool_decide (peer_id n = p) then set_last_seen (secs now_ms) n else n)));;
  mret (existsb (fun n => bool_decide (peer_id n = p)) (map_to_list (registered (mgr w))).*2).

Definition add_active_groups (gs : list P2PGroup) : W unit :=
  on_mgr (upd_groups (fun m => fold_left (fun m g => <[group_id g := g]> m) gs m));;
  on_mgr (upd_registered (fun m =>
    fold_left (fun m g => fold_left (fun m i => alter (set_assignment (Assigned (group_id g))) i m) (members g) m) gs m)).

Definition update_group_status (id : string) (st : GroupStatus) : W unit :=
  on_mgr (upd_groups (alter (set_status st) id)).

(** [initialize_available_lightnodes] and its batch form. *)
Definition initialize_available_lightnodes : W unit :=
  w ← get;
  on_cons (upd_available (fun m =>
    fold_left (fun m n => if bool_decide (assignment n = Free) then <[node_id n := n]> m else m) (values (registered (mgr w))) m)).
Definition initialize_available_lightnodes_batch (nodes : list LightNodeInfo) : W unit :=
  on_cons (upd_available (fun m =>
    fold_left (fun m n => match m !! node_id n with Some _ => m | None => <[node_id n := n]> m end) nodes m)).

Definition register_light_node_with_stake (now_ms : Z) (n : LightNodeInfo) (stake : Z) : W unit :=
  bail_if (stake <? minimum_stake cfg) InsufficientStake;;
  bail_if (unreachable_addr (multiaddr n)) PrivateAddress;;
  w ← get;
  (match registered (mgr w) !! node_id n with
   | Some _ =>
       on_mgr (upd_registered <[node_id n := n]>);;
       on_mgr (upd_stakes <[node_id n := stake]>)
   | None =>
       (if epoch_at now_ms =? registration_epoch (mgr w) then mret tt
        else on_mgr (upd_counter 0 (epoch_at now_ms)));;
       w ← get;
       let count := registrations_this_epoch (mgr w) in
       bail_if (MAX_REGISTRATIONS_PER_EPOCH <=? count) RateLimited;;
       on_mgr (upd_counter (wrap U64_MAX (count + 1)) (registration_epoch (mgr w)));;
       on_mgr (upd_registered <[node_id n := n]>);;
       on_mgr (upd_stakes <[node_id n := stake]>)
   end);;
  if with_consensus then initialize_available_lightnodes else mret tt.
Definition register_light_node (now_ms : Z) (n : LightNodeInfo) : W unit :=
  register_light_node_with_stake now_ms n (minimum_stake cfg).

(** [initiate_group_formation], with errors logged by its caller. *)
Definition initiate_group_formation (now_ms : Z) (created_ms : nat -> Z) : W unit :=
  if with_consensus then mret tt else form_groups now_ms created_ms true;; mret tt.

(** The loop of [register_light_nodes_batch]: the map it leaves and the nodes
    that are new. *)
Definition batch_step (acc : gmap string LightNodeInfo * list LightNodeInfo) (n : LightNodeInfo) :
    gmap string LightNodeInfo * list LightNodeInfo :=
  if unreachable_addr (multiaddr n) then acc
  else
    match acc.1 !! node_id n with
    | Some old => (<[node_id n := set_assignment (assignment old) n]> acc.1, acc.2)
    | None => (<[node_id n := n]> acc.1, acc.2 ++ [n])
    end.
Definition register_light_nodes_batch (now_ms : Z) (created_ms : nat -> Z) (l : list LightNodeInfo) : W unit :=
  if bool_decide (l = []) then mret tt
  else
    w ← get;
    let r := fold_left batch_step l (registered (mgr w), []) in
    on_mgr (upd_registered (fun _ => r.1));;
    if bool_decide (r.2 = []) then mret tt
    else
      (if with_consensus then initialize_available_lightnodes_batch r.2 else mret tt);;
      if (Nat.max (f_min_group_size cfg) 1 <=? size r.1)%nat && negb with_consensus && auto_initiate
      then initiate_group_formation now_ms created_ms else mret tt.

Definition elect_proposer (id : string) : W (option string) :=
  w ← get;
  g ← lift (ok_or (active_groups (mgr w) !! id) GroupNotFound);
  let nodes := values (registered (mgr w)) in
  let member_nodes := omap (fun m => head (filter (fun n => peer_id n = m) nodes)) (members g) in
  mret (peer_id <$> max_by_score member_nodes).

(** *** The masternodes *)

Definition set_ordered_masternode_ids (ids : list string) : W unit :=
  on_cons (fun c => upd_ids (merge_sort region_le ids) (banned_masternode_ids c) c).
Definition available_ids (c : Consensus) : list string :=
  filter (fun i => i ∉ banned_masternode_ids c) (ordered_masternode_ids c).
Definition is_available (c : Consensus) (id : string) : bool :=
  bool_decide (id ∈ ordered_masternode_ids c) && negb (bool_decide (id ∈ banned_masternode_ids c)).
Definition ban_masternode (id : string) : W unit :=
  on_cons (fun c => upd_ids (ordered_masternode_ids c) ({[id]} ∪ banned_masternode_ids c) c).
Definition unban_masternode (id : string) : W unit :=
  on_cons (fun c => upd_ids (ordered_masternode_ids c) (banned_masternode_ids c ∖ {[id]}) c).
Definition get_group_leader_masternode (c : Consensus) (i : nat) : option string :=
  if bool_decide (ordered_masternode_ids c = []) then None
  else ordered_masternode_ids c !! (i mod length (ordered_masternode_ids c))%nat.
Definition am_i_coordinator_for_epoch (c : Consensus) (epoch : Z) : bool :=
  if bool_decide (ordered_masternode_ids c = []) then false
  else bool_decide (ordered_masternode_ids c !! Z.to_nat (epoch mod Z.of_nat (length (ordered_masternode_ids c))) = Some (local_id slots)).

Definition update_active_masternodes_count (connected_peers : Z) : W unit :=
  on_cons (upd_active (Z.min (Z.max (wrap U64_MAX (connected_peers + 1)) (min_masternodes bft)) (total_masternodes bft))).

(** The votes needed and the active masternodes. *)
Definition calculate_dynamic_quorum (c : Consensus) : option (Z * Z) :=
  let active := active_masternodes c in
  if active <? min_masternodes bft then None
  else Some (Z.max (F64.ceil_usize (F64.mul (F64.of_Z active) (approval_threshold bft))) (min_masternodes bft), active).

Definition refresh_epoch (now_ms : Z) : W Z := on_cons (upd_c_epoch (epoch_at now_ms));; mret (epoch_at now_ms).
Definition update_epoch (e : Z) : W unit := on_cons (upd_c_epoch e).

(** *** Cleanup *)

Definition deterministic_seed (epoch : Z) (ids : list string) : bytes :=
  sha256 (bytes_of_string "savitri-group-formation-v1" ++ to_le_bytes 8 epoch ++ concat (bytes_of_string <$> ids)).

(** One group of [cleanup_inactive], for the nodes [ids] that stay. *)
Definition cleanup_group (c : Consensus) (epoch : Z) (ids : gset string) (g : P2PGroup) : P2PGroup :=
  if bool_decide (g_status g = Dissolving) then g
  else if bool_decide (members g = []) then g
  else
    let active := length (filter (fun m => m ∈ ids) (members g)) in
    let ratio := F64.sub F64.one (F64.div (F64.of_nat active) (F64.of_nat (length (members g)))) in
    if F64.leb (dissolution_disconnect_threshold cfg) ratio then set_status Dissolving g
    else
      match group_leader_masternode g with
      | None => g
      | Some leader =>
          let avail := if with_consensus then available_ids c else [] in
          let leader_available := if with_consensus then is_available c leader else bool_decide (leader ∈ avail) in
          if negb leader_available && negb (bool_decide (avail = [])) then
            let seed := deterministic_seed epoch (merge_sort region_le (avail ++ [group_id g])) in
            set_leader (avail !! pick_from seed (length avail)) g
          else g
      end.

Definition cleanup_inactive (now_ms : Z) : W unit :=
  on_mgr (upd_registered (filter (fun p => wrap U64_MAX (secs now_ms - last_seen p.2) < node_timeout_secs cfg)));;
  w ← get;
  on_mgr (upd_groups (fmap (cleanup_group (cons w) (current_epoch (mgr w)) (dom (registered (mgr w))))));;
  w ← get;
  let freed := concat (members <$> (filter (fun g => g_status g = Dissolving) (values (active_groups (mgr w))))) in
  on_mgr (upd_groups (filter (fun p => g_status p.2 <> Dissolving)));;
  on_mgr (upd_registered (fun m => fold_left (fun m i => alter (set_assignment Free) i m) freed m)).

(** *** Proposals and votes *)

Definition derive_signing_key (id : string) (epoch : Z) : bytes :=
  take 32 (sha512 (bytes_of_string "MASTERNODE-KEY" ++ bytes_of_string id ++ to_le_bytes 8 epoch)).
Definition get_masternode_pubkey (id : string) (epoch : Z) : bytes := public_key (derive_signing_key id epoch).
Definition get_masternode_signature (c : Consensus) (id : bytes) : bytes :=
  sha512 (bytes_of_string "MASTERNODE-SIGNATURE" ++ id ++ to_le_bytes 8 (c_epoch c)).

Definition proposal_hash (p : GroupProposal) : bytes := sha256 (bytes_of_string (proposal_id p) ++ to_le_bytes 8 (p_epoch p)).
Definition vote_byte (t : GroupVoteType) : byte := match t with Approve => x01 | Reject => x00 end.
Definition vote_hash (v : GroupVote) : bytes :=
  sha256 (bytes_of_string (v_proposal_id v) ++ bytes_of_string (voter_masternode v) ++ [vote_byte (vote_type v)]
    ++ to_le_bytes 8 (v_timestamp v)).
Definition sign_group_proposal (p : GroupProposal) (id : string) : bytes :=
  ed25519_sign (derive_signing_key id (p_epoch p)) (proposal_hash p).
Definition sign_group_vote (v : GroupVote) (epoch : Z) : bytes :=
  ed25519_sign (derive_signing_key (voter_masternode v) epoch) (vote_hash v).

(** One vote of [collect_masternode_signatures], after those of the voters
    that are verified. *)
Definition collect_vote (epoch : Z) (acc : list bytes * gset string) (v : GroupVote) : list bytes * gset string :=
  if negb (bool_decide (vote_type v = Approve)) then acc
  else if bool_decide (voter_masternode v ∈ acc.2) then acc
  else if ed25519_verify (get_masternode_pubkey (voter_masternode v) epoch) (vote_hash v) (v_signature v)
  then (acc.1 ++ [v_signature v], {[voter_masternode v]} ∪ acc.2) else acc.
Definition collect_masternode_signatures (p : GroupProposal) (votes : list GroupVote) : list bytes :=
  let own := if ed25519_verify (get_masternode_pubkey (proposer_masternode p) (p_epoch p)) (proposal_hash p) (p_signature p)
             then ([p_signature p], {[proposer_masternode p]}) else ([], ∅) in
  (fold_left (collect_vote (p_epoch p)) votes own).1.

Definition can_create_group (c : Consensus) : bool := (min_group_size bft <=? size (available_lightnodes c))%nat.

(** The leader and the backup of a proposed group. *)
Definition name_leaders (ids : list string) (g : P2PGroup) : P2PGroup :=
  let g := set_leader (Some (local_id slots)) g in
  let remaining := filter (fun i => i <> local_id slots) ids in
  if bool_decide (remaining = []) then g
  else
    let seed := from_le_bytes (take 8 (sha256 (bytes_of_string (group_id g) ++ bytes_of_string "|backup_seed"))) in
    set_backup (remaining !! Z.to_nat (seed mod Z.of_nat (length remaining))) g.

Definition create_and_propose_groups (k : Clock) : W (option GroupProposal) :=
  w ← get;
  if negb (can_create_group (cons w)) then mret None
  else
    existing ← get_active_groups;
    if negb (bool_decide (existing = [])) &&
       forallb (fun g => bool_decide (g_status g = Active) && (5 <=? length (members g))%nat) existing then mret None
    else
      epoch ← refresh_epoch (at_start k);
      gs ← form_groups (at_forming k) (at_group k) true;
      if bool_decide (gs = []) then mret None
      else
        w ← get;
        let gs := name_leaders (ordered_masternode_ids (cons w)) <$> gs in
        let used := set_iter (concat (members <$> gs)) in
        if (length used <? min_group_size bft)%nat then mret None
        else
          let id := "group_proposal_" +:+ pretty epoch +:+ "_" +:+ local_id slots +:+ "_" +:+ pretty (secs (at_name k)) in
          let p := mkProposal id epoch gs (local_id slots) used (secs (at_stamp k)) [] in
          let p := mkProposal id epoch gs (local_id slots) used (secs (at_stamp k)) (sign_group_proposal p (local_id slots)) in
          on_cons (upd_proposals <[id := p]>);;
          on_cons (upd_available (fun m => fold_left (fun m i => delete i m) used m));;
          mret (Some p).

Definition avg_pou_score (c : Consensus) (l : list string) : F64.f64 :=
  if bool_decide (l = []) then F64.zero
  else F64.div (F64.sum (pou_score <$> omap (fun m => available_lightnodes c !! m) l)) (F64.of_nat (length l)).

Definition TEN_PERCENT : F64.f64 := F64.percent 10.
Definition TWENTY_PERCENT : F64.f64 := F64.percent 20.

(** The nodes a proposal uses that the map [m] lacks, as a share. *)
Definition too_many_missing {V} (m : gmap string V) (used : list string) : bool :=
  let missing := length (filter (fun i => m !! i = None) used) in
  (0 <? missing)%nat && F64.ltb TEN_PERCENT (F64.div (F64.of_nat missing) (F64.of_nat (Nat.max (length used) 1))).

Definition tie_hash (id : string) (t : Z) : bytes := sha256 (bytes_of_string (id +:+ "|" +:+ pretty t)).

(** Whether an active group blocks a proposed one. *)
Definition blocks (c : Consensus) (timestamp : Z) (g e : P2PGroup) : bool :=
  let overlap := length (filter (fun m => m ∈ members e) (remove_dups (members g))) in
  if F64.ltb TWENTY_PERCENT (F64.div (F64.of_nat overlap) (F64.of_nat (Nat.max (length (remove_dups (members g))) 1))) then
    let a := avg_pou_score c (members g) in
    let b := avg_pou_score c (members e) in
    if F64.ltb b a then false
    else if F64.ltb a b then true
    else
      let x := tie_hash (group_id g) timestamp in
      let y := tie_hash (group_id e) (created_at e) in
      negb (lex_leb x y && negb (bool_decide (x = y)))
  else false.

Definition size_ok (lo hi : nat) (g : P2PGroup) : bool := (lo <=? length (members g))%nat && (length (members g) <=? hi)%nat.

Definition validate_proposal (now_ms : Z) (p : GroupProposal) : W bool :=
  epoch ← refresh_epoch now_ms;
  if negb (p_epoch p =? epoch) then mret false
  else if negb (forallb (size_ok (min_group_size bft) (max_group_size bft)) (groups p)) then mret false
  else
    w ← get;
    if too_many_missing (available_lightnodes (cons w)) (used_lightnodes p) then mret false
    else
      existing ← get_active_groups;
      mret (negb (existsb (fun g => existsb (blocks (cons w) (p_timestamp p) g) existing) (groups p))).

Definition approvals (votes : list GroupVote) : nat := length (filter (fun v => vote_type v = Approve) votes).

Definition check_proposal_consensus (now_ms : Z) (id : string) : W (option GroupApprovalCertificate) :=
  w ← get;
  match active_proposals (cons w) !! id, proposal_votes (cons w) !! id with
  | Some p, Some votes =>
      match calculate_dynamic_quorum (cons w) with
      | None => mret None
      | Some (required, _) =>
          if required <=? Z.of_nat (length votes) then
            if F64.leb (approval_threshold bft) (F64.div (F64.of_nat (approvals votes)) (F64.of_nat (length votes))) then
              let cert := mkCert p votes true (secs now_ms) (collect_masternode_signatures p votes) in
              on_cons (upd_certificates <[p_epoch p := cert]>);;
              on_cons (upd_proposals (delete id));;
              on_cons (upd_votes (delete id));;
              mret (Some cert)
            else mret None
          else
            (if vote_timeout_ms bft / 1000 * 2 <? saturating_sub (secs now_ms) (p_timestamp p) then
               on_cons (upd_proposals (delete id));; on_cons (upd_votes (delete id))
             else mret tt);;
            mret None
      end
  | _, _ => mret None
  end.

Definition distribute_groups_to_lightnodes (gs : list P2PGroup) : W unit :=
  w ← get;
  match distributor with
  | Some d => bail_if (negb (d gs (c_epoch (cons w)))) DistributionFailed
  | None => mret tt
  end.
Definition distribute_groups (gs : list P2PGroup) (epoch : Z) : W unit :=
  if bool_decide (gs = []) then mret tt
  else match distributor with Some d => bail_if (negb (d gs epoch)) DistributionFailed | None => mret tt end.

(** [GroupConsensusManager::process_approval_certificate]. *)
Definition process_approval_certificate (cert : GroupApprovalCertificate) : W unit :=
  if negb (c_approved cert) then mret tt
  else
    on_cons (upd_certificates <[p_epoch (c_proposal cert) := cert]>);;
    on_cons (upd_available (fun m => fold_left (fun m i => delete i m) (used_lightnodes (c_proposal cert)) m));;
    add_active_groups (set_status Active <$> groups (c_proposal cert));;
    distribute_groups_to_lightnodes (groups (c_proposal cert)).

Definition reset_leader_election : W unit := on_cons (upd_election Idle ∅ ∅ None).
Definition on_group_approval_complete : W unit := reset_leader_election.

Definition vote_on_proposal (now_ms : Z) (p : GroupProposal) (approve : bool) : W GroupVote :=
  valid ← validate_proposal now_ms p;
  bail_if (negb valid) InvalidProposal;;
  let v := mkVote (proposal_id p) (local_id slots) (if approve then Approve else Reject) (secs now_ms) [] in
  let v := mkVote (proposal_id p) (local_id slots) (if approve then Approve else Reject) (secs now_ms) (sign_group_vote v (p_epoch p)) in
  on_cons (upd_votes (partial_alter (fun o => Some (default [] o ++ [v])) (proposal_id p)));;
  cert ← check_proposal_consensus now_ms (proposal_id p);
  match cert with
  | Some c => if c_approved c then process_approval_certificate c;; on_group_approval_complete;; mret v else mret v
  | None => mret v
  end.

Definition process_proposal (now_ms : Z) (p : GroupProposal) : W GroupVote :=
  on_cons (upd_proposals <[proposal_id p := p]>);;
  ok ← validate_proposal now_ms p;
  ok ← (if (ok : bool) then mret true else initialize_available_lightnodes;; validate_proposal now_ms p);
  vote_on_proposal now_ms p ok.

Definition process_vote (now_ms : Z) (v : GroupVote) : W (option GroupApprovalCertificate) :=
  on_cons (upd_votes (partial_alter (fun o =>
    let l := default [] o in
    Some (if existsb (fun u => bool_decide (voter_masternode u = voter_masternode v)) l then l else l ++ [v])) (v_proposal_id v)));;
  check_proposal_consensus now_ms (v_proposal_id v).

(** *** Leader election *)

Definition b2b (b : bool) : byte := if b then x01 else x00.
Definition leader_election_proposal_message (p : LeaderElectionProposal) : bytes :=
  bytes_of_string (e_id p) ++ bytes_of_string (e_proposer p) ++ to_le_bytes 8 (e_timestamp p) ++ to_le_bytes 8 (e_epoch p)
  ++ to_le_bytes 8 (available_lightnode_count p) ++ concat (bytes_of_string <$> available_lightnode_ids p).
Definition leader_election_certificate_message (c : LeaderElectionCertificate) : bytes :=
  bytes_of_string (ec_id c) ++ to_le_bytes 8 (ec_epoch c) ++ bytes_of_string (approver_masternode c) ++ to_le_bytes 8 (ec_timestamp c)
  ++ [b2b (lightnode_list_verified c)] ++ to_le_bytes 8 (verified_lightnode_count c).
Definition sign_leader_election_proposal (p : LeaderElectionProposal) (id : string) : bytes :=
  ed25519_sign (derive_signing_key id (e_epoch p)) (sha256 (leader_election_proposal_message p)).
Definition sign_leader_election_certificate (c : LeaderElectionCertificate) (id : string) : bytes :=
  ed25519_sign (derive_signing_key id (ec_epoch c)) (sha256 (leader_election_certificate_message c)).
Definition verify_leader_election_proposal_signature (p : LeaderElectionProposal) : bool :=
  ed25519_verify (get_masternode_pubkey (e_proposer p) (e_epoch p)) (sha256 (leader_election_proposal_message p)) (e_signature p).
Definition verify_leader_election_certificate_signature (c : LeaderElectionCertificate) : bool :=
  ed25519_verify (get_masternode_pubkey (approver_masternode c) (ec_epoch c)) (sha256 (leader_election_certificate_message c))
    (ec_signature c).

Definition is_elected_leader (c : Consensus) : bool :=
  match election_state c with
  | Elected l _ | CreatingGroups l _ => bool_decide (l = local_id slots)
  | _ => false
  end.

Definition LEADER_ELECTION_TIMEOUT_SECS : Z := 10.

Definition initiate_leader_election (now_ms : Z) : W (option LeaderElectionProposal) :=
  w ← get;
  match election_state (cons w) with
  | Idle =>
      initialize_available_lightnodes;;
      w ← get;
      let avail := available_lightnodes (cons w) in
      if (size avail <? min_group_size bft)%nat then mret None
      else
        let ids := (hash_order (map_to_list avail)).*1 in
        let count := Z.of_nat (size avail) in
        epoch ← refresh_epoch now_ms;
        let t := secs now_ms in
        let id := "leader_election_" +:+ pretty epoch +:+ "_" +:+ local_id slots +:+ "_" +:+ pretty t in
        let p := mkElection id (local_id slots) t epoch count ids [] in
        let p := mkElection id (local_id slots) t epoch count ids (sign_leader_election_proposal p (local_id slots)) in
        let c := mkElectionCert id epoch (local_id slots) t true count [] in
        let c := mkElectionCert id epoch (local_id slots) t true count (sign_leader_election_certificate c (local_id slots)) in
        on_cons (fun s => upd_election Collecting (<[id := p]> (leader_proposals s))
          (partial_alter (fun o => Some (default [] o ++ [c])) id (leader_certificates s)) (Some t) s);;
        mret (Some p)
  | _ => mret None
  end.

Definition verified_certs (l : list LeaderElectionCertificate) : nat := length (filter (fun c => lightnode_list_verified c = true) l).
(** The proposals with enough certificates, in the order of the map. *)
Definition eligible (c : Consensus) (required : Z) : list LeaderElectionProposal :=
  (filter (fun p : string * LeaderElectionProposal =>
     match leader_certificates c !! p.1 with Some l => required <=? Z.of_nat (verified_certs l) | None => false end = true)
   (hash_order (map_to_list (leader_proposals c)))).*2.
Definition earlier (a b : LeaderElectionProposal) : Prop := e_timestamp a <= e_timestamp b.
#[global] Instance earlier_dec a b : Decision (earlier a b).
Proof. unfold earlier. apply _. Defined.

Definition try_resolve_leader_election (now_ms : Z) : W unit :=
  w ← get;
  let c := cons w in
  if negb (bool_decide (election_state c = Collecting)) then mret tt
  else
    match calculate_dynamic_quorum c with
    | None => mret tt
    | Some (required, _) =>
        match merge_sort earlier (eligible c required) with
        | [] =>
            match election_start c with
            | Some start =>
                if LEADER_ELECTION_TIMEOUT_SECS <? wrap U64_MAX (secs now_ms - start) then reset_leader_election else mret tt
            | None => mret tt
            end
        | winner :: _ => on_cons (set_election_state (Elected (e_proposer winner) (e_id winner)))
        end
    end.

Definition validate_leader_proposal (now_ms : Z) (p : LeaderElectionProposal) : W bool :=
  epoch ← refresh_epoch now_ms;
  mret (if negb (e_epoch p =? epoch) then false
        else if 60 <? saturating_sub (secs now_ms) (e_timestamp p) then false
        else if bool_decide (e_proposer p = "") then false
        else if available_lightnode_count p <? Z.of_nat (min_group_size bft) then false
        else verify_leader_election_proposal_signature p).

(** A certificate joins those of its election unless its approver has one. *)
Definition add_certificate (c : LeaderElectionCertificate) : W unit :=
  on_cons (fun s => upd_election (election_state s) (leader_proposals s)
    (partial_alter (fun o =>
       let l := default [] o in
       Some (if existsb (fun x => bool_decide (approver_masternode x = approver_masternode c)) l then l else l ++ [c]))
     (ec_id c) (leader_certificates s)) (election_start s) s).

Definition process_leader_election_proposal (now_ms : Z) (p : LeaderElectionProposal) : W (option LeaderElectionCertificate) :=
  valid ← validate_leader_proposal now_ms p;
  if negb valid then mret None
  else
    on_cons (fun s => upd_election (election_state s) (<[e_id p := p]> (leader_proposals s)) (leader_certificates s) (election_start s) s);;
    on_cons (fun s => if bool_decide (election_state s = Idle)
                      then upd_election Collecting (leader_proposals s) (leader_certificates s) (Some (secs now_ms)) s else s);;
    initialize_available_lightnodes;;
    w ← get;
    let verified := Z.of_nat (length (filter (fun i => is_Some (available_lightnodes (cons w) !! i)) (available_lightnode_ids p))) in
    let list_verified := (0 <? available_lightnode_count p) &&
      F64.leb (F64.percent 25) (F64.div (F64.of_Z verified) (F64.of_Z (available_lightnode_count p))) in
    if negb list_verified then mret None
    else
      let c := mkElectionCert (e_id p) (e_epoch p) (local_id slots) (secs now_ms) list_verified verified [] in
      let c := mkElectionCert (e_id p) (e_epoch p) (local_id slots) (secs now_ms) list_verified verified
                 (sign_leader_election_certificate c (local_id slots)) in
      add_certificate c;;
      try_resolve_leader_election now_ms;;
      mret (Some c).

Definition process_leader_election_certificate (now_ms : Z) (c : LeaderElectionCertificate) : W unit :=
  if negb (verify_leader_election_certificate_signature c) then mret tt
  else add_certificate c;; try_resolve_leader_election now_ms.

Definition leader_create_and_propose_groups (k : Clock) : W (option GroupProposal) :=
  w ← get;
  match election_state (cons w) with
  | Elected l id =>
      if negb (bool_decide (l = local_id slots)) then mret None
      else
        on_cons (set_election_state (CreatingGroups (local_id slots) id));;
        create_and_propose_groups k
  | _ => mret None
  end.

(** *** The manager's side of the consensus *)

Fixpoint sizes_checked (l : list P2PGroup) : result GroupErr unit :=
  match l with
  | [] => Ok tt
  | g :: l =>
      if (length (members g) <? f_min_group_size cfg)%nat then Err GroupTooSmall
      else if (f_max_group_size cfg <? length (members g))%nat then Err GroupTooLarge
      else sizes_checked l
  end.
Definition mgr_validate_proposal (now_ms : Z) (p : GroupProposal) : W unit :=
  bail_if (p_epoch p <? epoch_at now_ms) PastEpoch;;
  lift (sizes_checked (groups p));;
  w ← get;
  bail_if (too_many_missing (registered (mgr w)) (used_lightnodes p)) MissingNodes;;
  bail_if (300 <? saturating_sub (secs now_ms) (p_timestamp p)) TooOld.

(** A vote goes to the channel, or waits. *)
Definition publish_vote (v : GroupVote) : W unit :=
  on_mgr (fun m => match published m with
                   | Some l => upd_pending_vote (pending_vote m) (Some (l ++ [v])) m
                   | None => upd_pending_vote (Some v) None m
                   end).

Definition handle_proposal (now_ms : Z) (p : GroupProposal) : W unit :=
  mgr_validate_proposal now_ms p;;
  if with_consensus then v ← process_proposal now_ms p; publish_vote v
  else on_mgr (upd_groups (fun m => fold_left (fun m g => <[group_id g := g]> m) (groups p) m)).

Definition validate_vote (now_ms : Z) (v : GroupVote) : W unit :=
  bail_if (bool_decide (voter_masternode v = "")) EmptyVoter;;
  bail_if (bool_decide (v_proposal_id v = "")) EmptyProposal;;
  bail_if (300 <? saturating_sub (secs now_ms) (v_timestamp v)) TooOld.

Definition handle_vote (now_ms : Z) (v : GroupVote) : W unit :=
  validate_vote now_ms v;;
  if with_consensus then
    cert ← process_vote now_ms v;
    match cert with Some c => process_approval_certificate c | None => mret tt end
  else mret tt.

(** [GroupFormationManager::process_approval_certificate]. *)
Definition mgr_process_certificate (cert : GroupApprovalCertificate) : W unit :=
  if negb (c_approved cert) then mret tt
  else on_mgr (upd_groups (fun m => fold_left (fun m g => <[group_id g := set_status Active g]> m) (groups (c_proposal cert)) m)).

(** The messages of the masternodes. *)
Inductive MasternodeMessage :=
| MsgProposal (p : GroupProposal)
| MsgVote (v : GroupVote)
| MsgCertificate (c : GroupApprovalCertificate)
| MsgSyncRequest (from_epoch to_epoch : Z)
| MsgSyncResponse (certificates : list GroupApprovalCertificate)
| MsgElectionProposal (p : LeaderElectionProposal)
| MsgElectionCertificate (c : LeaderElectionCertificate)
| MsgOther.

(** [handle_sync] of the manager. *)
Definition handle_sync (msg : option MasternodeMessage) : W unit :=
  match msg with
  | None => mret tt
  | Some (MsgSyncRequest _ _) => mret tt
  | Some (MsgSyncResponse l) => foldr (fun c k => mgr_process_certificate c;; k) (mret tt) l
  | Some (MsgCertificate c) => mgr_process_certificate c
  | Some _ => fail InvalidSync
  end.

(** The branch of the main loop for a message of a masternode: what it sends.
    An error leaves the loop and ends the node. *)
Definition on_masternode_message (now_ms : Z) (msg : MasternodeMessage) : W (list MasternodeMessage) :=
  match msg with
  | MsgProposal p => v ← process_proposal now_ms p; mret [MsgVote v]
  | MsgVote v =>
      cert ← process_vote now_ms v;
      match cert with
      | Some c => process_approval_certificate c;; on_group_approval_complete;; mret [MsgCertificate c]
      | None => mret []
      end
  | MsgCertificate c => process_approval_certificate c;; on_group_approval_complete;; mret []
  | MsgSyncRequest a b =>
      w ← get;
      mret [MsgSyncResponse (omap (fun e => approved_certificates (cons w) !! e) (seqZ a (b - a + 1)))]
  | MsgSyncResponse l => foldr (fun c k => process_approval_certificate c;; k) (mret tt) l;; mret []
  | MsgElectionProposal p =>
      c ← process_leader_election_proposal now_ms p;
      mret (match c with Some c => [MsgElectionCertificate c] | None => [] end)
  | MsgElectionCertificate c => process_leader_election_certificate now_ms c;; mret []
  | MsgOther => mret []
  end.

(** *** The periodic step *)

Definition HEALTHY_RECHECK_EPOCHS : Z := 6.
Definition formation_healthy (m : Manager) : bool :=
  let gs := values (active_groups m) in
  negb (bool_decide (gs = [])) &&
  forallb (fun g => bool_decide (g_status g = Active) && (f_min_group_size cfg <=? length (members g))%nat) gs.
(** The two reasons to skip a formation that is not forced. *)
Definition throttled (now_ms : Z) (m : Manager) : bool :=
  let epoch := epoch_at now_ms in
  negb (current_epoch m =? 0) && (0 <? epoch) && (wrap U64_MAX (epoch - current_epoch m) <? formation_interval_epochs cfg).
Definition settled (now_ms : Z) (m : Manager) : bool :=
  formation_healthy m && (saturating_sub (epoch_at now_ms) (current_epoch m) <? HEALTHY_RECHECK_EPOCHS).

(** The proposal of a coordinator or of an elected leader is pending. *)
Definition keep_proposal (now_ms : Z) (p : option GroupProposal) : W unit :=
  match p with
  | Some p => on_mgr (upd_epoch (epoch_at now_ms));; on_mgr (upd_pending_proposal (Some p))
  | None => mret tt
  end.

(** The branch on the state of the election. *)
Definition election_step (now_ms : Z) (k : Clock) : W unit :=
  w ← get;
  match election_state (cons w) with
  | Idle =>
      p ← initiate_leader_election now_ms;
      match p with Some p => on_mgr (upd_pending_election (Some p)) | None => mret tt end
  | Collecting => mret tt
  | Elected _ _ =>
      if is_elected_leader (cons w) then p ← leader_create_and_propose_groups k; keep_proposal (at_end k) p else mret tt
  | CreatingGroups leader election =>
      if is_elected_leader (cons w) then
        gs ← form_groups (at_forming k) (at_group k) true;
        if bool_decide (gs = []) then mret tt
        else
          let id := "group_proposal_" +:+ pretty (epoch_at (at_name k)) +:+ "_" +:+ election in
          on_mgr (upd_pending_proposal
            (Some (mkProposal id (epoch_at (at_end k)) gs leader (concat (members <$> gs)) (secs (at_stamp k)) (zeros 64))))
      else mret tt
  end.

Definition form_and_distribute_groups (now_ms : Z) (k : Clock) (force : bool) : W (list P2PGroup) :=
  w ← get;
  if negb force && throttled now_ms (mgr w) then mret []
  else if negb force && settled now_ms (mgr w) then mret []
  else if with_consensus then
    (if auto_initiate then
       (if (size (available_lightnodes (cons w)) <? f_min_group_size cfg)%nat && (f_min_group_size cfg <=? size (registered (mgr w)))%nat
        then initialize_available_lightnodes else mret tt);;
       w ← get;
       if negb (bool_decide (ordered_masternode_ids (cons w) = [])) then
         epoch ← refresh_epoch now_ms;
         if am_i_coordinator_for_epoch (cons w) epoch
         then p ← create_and_propose_groups k; keep_proposal (at_end k) p
         else election_step now_ms k
       else election_step now_ms k
     else mret tt);;
    get_active_groups
  else form_groups (at_forming k) (at_group k) force.

(** [take_pending_..]. *)
Definition take_pending_leader_election_proposal : W (option LeaderElectionProposal) :=
  w ← get; on_mgr (upd_pending_election None);; mret (pending_election (mgr w)).
Definition take_pending_group_proposal : W (option GroupProposal) :=
  w ← get; on_mgr (upd_pending_proposal None);; mret (pending_proposal (mgr w)).
Definition take_pending_group_vote : W (option GroupVote) :=
  w ← get; on_mgr (fun m => upd_pending_vote None (published m) m);; mret (pending_vote (mgr w)).
End Manage.
End Groups.
