(* ===== verification/GroupsCorrect.v ===== *)
(** * What the formation of groups and their consensus promise

    Groups partition the nodes, evenly, and shards are spread over all of
    them; registrations are limited per epoch; a certificate needs a quorum of
    votes, but the votes of one masternode count as often as it sees the
    proposal, a masternode refuses its own proposal while the groups it formed
    for it are active (unless it stamped them in different seconds and every
    tie is lost), and an election follows whoever knows the identifiers of the masternodes. *)

From Stdlib Require Import Strings.Byte Strings.Ascii Strings.String.
From stdpp Require Import sorting pretty strings.
From S2P Require Import Prelude OrdMap Codec Primitives Float64 BlockStore BlockStm Proposals Groups.

Module GroupsC.
Import Groups.

(** The run of an operation, in a hypothesis or in the goal. *)
Ltac grun_in H := unfold get_active_groups, refresh_epoch, on_mgr, on_cons, bail_if, mbind, M_bind, mret, M_ret, get, lift, modify, fail in H;
  cbv beta iota zeta in H.
Ltac grun := unfold get_active_groups, refresh_epoch, on_mgr, on_cons, bail_if, mbind, M_bind, mret, M_ret, get, lift, modify, fail;
  cbv beta iota zeta.

(** *** Even slices *)

Fixpoint slice_sizes (base extra i n : nat) : list nat :=
  match n with O => [] | S n => (if (i <? extra)%nat then S base else base) :: slice_sizes base extra (S i) n end.

Lemma slices_cover {A} (l : list A) base extra i n off :
  (off + sum_list (slice_sizes base extra i n) = length l)%nat ->
  concat ((fun p : nat * nat => take (p.2 - p.1) (drop p.1 l)) <$> even_slices base extra i n off) = drop off l.
Proof.
  revert i off. induction n as [|n IH]; intros i off Hl; simpl in *.
  - symmetry. apply drop_ge. lia.
  - rewrite IH by (simpl in *; lia). set (k := if (i <? extra)%nat then S base else base) in *. cbn [fst snd].
    replace (off + k - off)%nat with k by lia. rewrite <- (take_drop k (drop off l)) at 2. by rewrite drop_drop.
Qed.
Lemma slice_sizes_sum base extra i n : sum_list (slice_sizes base extra i n) = (n * base + (Nat.min n (extra - i)))%nat.
Proof. revert i. induction n as [|n IH]; intros i; [done|]. cbn [slice_sizes sum_list_with]. rewrite IH. unfold id. destruct (Nat.ltb_spec i extra); lia. Qed.
Lemma partition_total total n : (0 < n)%nat -> sum_list (slice_sizes (total / n) (total mod n) 0 n) = total.
Proof.
  intros Hn. rewrite slice_sizes_sum. pose proof (Nat.div_mod_eq total n). pose proof (Nat.mod_upper_bound total n). lia.
Qed.

(** The slices cover the list, in order, and their sizes are the quotient or
    one more. *)
Lemma even_partition_covers {A} (l : list A) n :
  (0 < n)%nat ->
  concat ((fun p : nat * nat => take (p.2 - p.1) (drop p.1 l)) <$> even_partition (length l) n) = l.
Proof. intros Hn. unfold even_partition. rewrite slices_cover; [done|]. simpl. by apply partition_total. Qed.

Lemma length_even_slices base extra i n off : length (even_slices base extra i n off) = n.
Proof. revert i off. induction n; intros; simpl; auto. Qed.

Lemma even_slice_size base extra i n off total p :
  (off + sum_list (slice_sizes base extra i n) <= total)%nat -> p ∈ even_slices base extra i n off ->
  (p.1 <= p.2 <= total)%nat /\ (p.2 - p.1 = base \/ p.2 - p.1 = S base)%nat.
Proof.
  revert i off. induction n as [|n IH]; intros i off Hl Hin; simpl in *; [by apply not_elem_of_nil in Hin|].
  apply elem_of_cons in Hin as [->|Hin].
  - destruct (i <? extra)%nat; simpl in *; lia.
  - eapply IH; [|exact Hin]. lia.
Qed.

Section Formation.
Context `{Sha256, Sha512, Ed25519, Ed25519Sign, HashOrder, !HashOrderLaws, SeededPick}.
Context (cfg : GroupFormationConfig) (slots : SlotSchedulerConfig) (bft : BftGroupConfig) (force_single : bool).
Context (distributor : option (list P2PGroup -> Z -> bool)) (with_consensus auto_initiate : bool).

Local Abbreviation num_groups := (calculate_num_groups cfg force_single).

(** The number of groups leaves each at least the minimum of nodes. *)
Lemma num_groups_bounds n :
  num_groups n <> 0%nat -> (num_groups n * Nat.max (f_min_group_size cfg) 2 <= n)%nat /\
  (num_groups n <= Nat.max (target_groups cfg) 1)%nat.
Proof.
  unfold calculate_num_groups. set (e := Nat.max (f_min_group_size cfg) 2).
  destruct (Nat.ltb_spec n e); [done|]. destruct force_single; [lia|].
  destruct (Nat.eqb_spec (n / e) 0) as [|Hd]; [done|]. intros _.
  assert (n / e * e <= n)%nat by (rewrite Nat.mul_comm; apply Nat.Div0.mul_div_le).
  split; [|lia]. transitivity (n / e * e)%nat; [|done]. apply Nat.mul_le_mono_r. lia.
Qed.

Lemma num_groups_zero n : num_groups n = 0%nat -> (n < Nat.max (f_min_group_size cfg) 2)%nat.
Proof.
  unfold calculate_num_groups. set (e := Nat.max (f_min_group_size cfg) 2). destruct (Nat.ltb_spec n e) as [|Hge]; [done|].
  destruct force_single; [done|]. destruct (Nat.eqb_spec (n / e) 0) as [Hd|Hd]; [|lia].
  apply Nat.div_small_iff in Hd; [done|lia].
Qed.

Lemma imap_members now nodes epoch (f : nat -> nat) ps :
  concat (members <$> imap (fun i p => create_group_from_chunk force_single (now (f i)) (slice nodes p) epoch (f i)) ps) =
  peer_id <$> concat (slice nodes <$> ps).
Proof.
  revert f. induction ps as [|p ps IH]; intros f; cbn [imap fmap list_fmap concat]; [done|].
  rewrite fmap_app, <- (IH (f ∘ S)). done.
Qed.

Lemma chunk_members now nodes epoch i :
  num_groups (length nodes) <> 0%nat ->
  concat (members <$> chunk_groups cfg force_single now nodes epoch i) = peer_id <$> nodes.
Proof.
  intros Hn. unfold chunk_groups. destruct (Nat.eqb_spec (num_groups (length nodes)) 0) as [Hz|_]; [by destruct Hn|].
  transitivity (peer_id <$> concat (slice nodes <$> even_partition (length nodes) (num_groups (length nodes)))).
  2: { f_equal. apply even_partition_covers. lia. }
  apply (imap_members now nodes epoch (fun j => i + j)%nat).
Qed.

Lemma chunk_sizes now nodes epoch i g :
  g ∈ chunk_groups cfg force_single now nodes epoch i ->
  let n := num_groups (length nodes) in
  (length (members g) = length nodes / n \/ length (members g) = S (length nodes / n))%nat /\
  (Nat.max (f_min_group_size cfg) 2 <= length (members g))%nat.
Proof.
  intros Hg n. unfold chunk_groups in Hg. fold n in Hg. destruct (Nat.eqb_spec n 0) as [|Hn]; [by apply not_elem_of_nil in Hg|].
  apply elem_of_lookup_imap in Hg as (j & p & -> & Hp%list_elem_of_lookup_2). simpl. rewrite length_fmap. unfold slice.
  assert (Hs : (0 + sum_list (slice_sizes (length nodes / n) (length nodes mod n) 0 n) <= length nodes)%nat) by (simpl; rewrite partition_total; lia).
  destruct (even_slice_size _ _ _ _ _ _ _ Hs Hp) as [Hr Hsz]. rewrite length_take, length_drop.
  destruct (num_groups_bounds (length nodes) Hn) as [Hm _]. fold n in Hm.
  assert (Nat.max (f_min_group_size cfg) 2 <= length nodes / n)%nat by (apply Nat.div_le_lower_bound; lia). lia.
Qed.
Local Abbreviation effective_min := (Nat.max (f_min_group_size cfg) 2).
(** The nodes that a formation places: with the regions apart, those of a
    region with enough nodes. *)
Definition placed (nodes : list LightNodeInfo) : list LightNodeInfo :=
  if geographic_distribution cfg
  then filter (fun n => effective_min <= length (filter (fun m => geographic_region m = geographic_region n) nodes))%nat nodes
  else if (effective_min <=? length nodes)%nat then nodes else [].

Lemma chunk_members_all now nodes epoch i :
  concat (members <$> chunk_groups cfg force_single now nodes epoch i) =
  peer_id <$> (if (effective_min <=? length nodes)%nat then nodes else []).
Proof.
  destruct (decide (num_groups (length nodes) = 0%nat)) as [Hz|Hn].
  - pose proof (num_groups_zero _ Hz). unfold chunk_groups. rewrite Hz. simpl. destruct (Nat.leb_spec effective_min (length nodes)); [lia|done].
  - rewrite chunk_members by done. destruct (Nat.leb_spec effective_min (length nodes)) as [|Hlt]; [done|].
    exfalso. apply Hn. unfold calculate_num_groups. destruct (Nat.ltb_spec (length nodes) effective_min); [done|lia].
Qed.

Lemma set_shards_members gs : members <$> assign_shards_round_robin gs = members <$> gs.
Proof.
  unfold assign_shards_round_robin. generalize (length gs). intros k. rewrite fmap_imap.
  rewrite (imap_ext _ (fun _ g => members g)) by done. apply (imap_const members gs).
Qed.

Lemma regional_members now nodes epoch i rs :
  concat (members <$> regional_groups cfg force_single now nodes epoch i rs) =
  peer_id <$> concat ((fun r => let l := filter (fun n => geographic_region n = r) nodes in
                                if (effective_min <=? length l)%nat then l else []) <$> rs).
Proof.
  revert i. induction rs as [|r rs IH]; intros i; [done|]. cbn [regional_groups fmap list_fmap concat].
  rewrite fmap_app, concat_app, IH, fmap_app. f_equal. rewrite <- (chunk_members_all now _ epoch i). f_equal.
  rewrite <- list_fmap_compose. by apply list_fmap_ext.
Qed.

Lemma filter_regions (P : string -> bool) (nodes : list LightNodeInfo) rs :
  NoDup rs -> (forall n, n ∈ nodes -> geographic_region n ∈ rs) ->
  concat ((fun r => if P r then filter (fun n => geographic_region n = r) nodes else []) <$> rs) ≡ₚ
  filter (fun n => P (geographic_region n) = true) nodes.
Proof.
  intros Hnd. induction nodes as [|n nodes IH]; intros Hin.
  - clear. induction rs as [|r rs IH]; [done|]. simpl. simpl in IH. rewrite IH. by destruct (P r).
  - assert (Hr : geographic_region n ∈ rs) by (apply Hin; left).
    specialize (IH (fun m Hm => Hin m (list_elem_of_further _ _ _ Hm))). clear Hin.
    transitivity ((if P (geographic_region n) then [n] else []) ++
      concat ((fun r => if P r then filter (fun n => geographic_region n = r) nodes else []) <$> rs)).
    2: { rewrite IH, filter_cons. by destruct (P (geographic_region n)). }
    clear IH. induction rs as [|r rs IH]; [by apply not_elem_of_nil in Hr|]. apply NoDup_cons in Hnd as [Hnr Hnd].
    cbn [fmap list_fmap concat]. rewrite filter_cons. apply elem_of_cons in Hr as [He|Hr].
    + rewrite He. rewrite (list_fmap_ext _ (fun r => if P r then filter (fun n => geographic_region n = r) nodes else []) rs).
      2: { intros i r' Hr'%list_elem_of_lookup_2. rewrite filter_cons. rewrite decide_False; [done|]. intros Heq. apply Hnr. congruence. }
      rewrite (decide_True (P:=r = r)) by done. by destruct (P r).
    + assert (geographic_region n <> r) by (intros Heq; apply Hnr; by rewrite <- Heq). rewrite decide_False by done. rewrite (IH Hnd Hr).
      rewrite !(assoc (++)). f_equiv. apply Permutation_app_comm.
Qed.

Lemma elem_of_z_range n lo s : s ∈ z_range lo n <-> lo <= s < lo + Z.of_nat n.
Proof. revert lo. induction n as [|n IH]; intros lo; cbn [z_range]; [rewrite elem_of_nil; lia|]. rewrite elem_of_cons, IH. lia. Qed.

Lemma shards_spread gs s :
  gs <> [] -> 0 <= s < 65536 ->
  exists i, (i < length (assign_shards_round_robin gs))%nat /\ forall j g, assign_shards_round_robin gs !! j = Some g -> (s ∈ assigned_shards g <-> j = i).
Proof.
  intros Hgs Hs. assert (Hl : 0 < Z.of_nat (length gs)) by (destruct gs; [done|simpl; lia]).
  exists (Z.to_nat (s mod Z.of_nat (length gs))). split.
  { unfold assign_shards_round_robin. rewrite length_imap. pose proof (Z.mod_pos_bound s _ Hl). lia. }
  intros j g Hj. unfold assign_shards_round_robin in Hj.
  rewrite list_lookup_imap in Hj. destruct (gs !! j) as [g0|]; [|done]. simplify_eq/=. unfold shards_of.
  rewrite list_elem_of_filter, elem_of_z_range, Z2Nat.id by done. pose proof (Z.mod_pos_bound s _ Hl). lia.
Qed.

Definition big_enough (g : P2PGroup) : Prop := (effective_min <= length (members g))%nat.

(** The name of the group with a number. *)
Definition group_name (epoch : Z) (n : nat) : string :=
  if force_single then "group_singleton_" +:+ pretty (Z.of_nat n)
  else "group_" +:+ pretty epoch +:+ "_" +:+ pretty (Z.of_nat n) +:+ "_" +:+ pretty epoch.
Lemma bytes_of_string_append a b : bytes_of_string (a +:+ b) = bytes_of_string a ++ bytes_of_string b.
Proof. unfold bytes_of_string, String.list_byte_of_string. induction a as [|c a IH]; [done|]. simpl. by rewrite IH. Qed.
Lemma group_name_inj epoch n m : group_name epoch n = group_name epoch m -> n = m.
Proof.
  unfold group_name. destruct force_single; intros Heq%(f_equal bytes_of_string); rewrite !bytes_of_string_append in Heq.
  - apply app_inv_head, bytes_of_string_inj in Heq. apply (inj pretty) in Heq. lia.
  - do 3 apply app_inv_head in Heq. apply app_inv_tail in Heq. apply bytes_of_string_inj, (inj pretty) in Heq. lia.
Qed.

Lemma chunk_big now nodes epoch i : Forall big_enough (chunk_groups cfg force_single now nodes epoch i).
Proof. apply Forall_forall. intros g Hg. by apply chunk_sizes in Hg as [_ Hg]. Qed.
Lemma chunk_names now nodes epoch i :
  group_id <$> chunk_groups cfg force_single now nodes epoch i =
  group_name epoch <$> seq i (length (chunk_groups cfg force_single now nodes epoch i)).
Proof.
  unfold chunk_groups. destruct (_ =? 0)%nat; [done|]. rewrite length_imap. generalize (even_partition (length nodes) (calculate_num_groups cfg force_single (length nodes))).
  intros ps. apply list_eq. intros j. rewrite list_lookup_fmap, list_lookup_imap, list_lookup_fmap.
  destruct (ps !! j) as [q|] eqn:E.
  - rewrite lookup_seq_lt by by apply lookup_lt_Some in E. done.
  - by rewrite lookup_seq_ge by by apply lookup_ge_None.
Qed.
Lemma regional_big now nodes epoch i rs : Forall big_enough (regional_groups cfg force_single now nodes epoch i rs).
Proof.
  revert i. induction rs as [|r rs IH]; intros i; simpl; [done|]. apply Forall_app. split; [|done].
  apply Forall_fmap. eapply Forall_impl; [apply chunk_big|]. done.
Qed.
Lemma regional_names now nodes epoch i rs :
  group_id <$> regional_groups cfg force_single now nodes epoch i rs =
  group_name epoch <$> seq i (length (regional_groups cfg force_single now nodes epoch i rs)).
Proof.
  revert i. induction rs as [|r rs IH]; intros i; [done|]. cbn [regional_groups].
  rewrite fmap_app, IH, length_app, seq_app, fmap_app. f_equal. rewrite <- list_fmap_compose, length_fmap.
  rewrite <- (chunk_names now). by apply list_fmap_ext.
Qed.
Lemma shards_big gs : Forall big_enough gs -> Forall big_enough (assign_shards_round_robin gs).
Proof.
  intros Hgs. apply Forall_forall. intros g Hg. unfold assign_shards_round_robin in Hg.
  apply elem_of_lookup_imap in Hg as (j & g' & -> & Hg'%list_elem_of_lookup_2). rewrite Forall_forall in Hgs. by apply Hgs in Hg'.
Qed.
Lemma shards_names gs : group_id <$> assign_shards_round_robin gs = group_id <$> gs.
Proof.
  apply list_eq. intros j. unfold assign_shards_round_robin. rewrite !list_lookup_fmap, list_lookup_imap. by destruct (gs !! j).
Qed.

(** The groups of either kind, before their leader is named. *)
Definition groups_of (now : nat -> Z) (nodes : list LightNodeInfo) (epoch : Z) : list P2PGroup :=
  if geographic_distribution cfg then create_geographically_distributed_groups cfg force_single now nodes epoch
  else create_simple_groups cfg force_single now nodes epoch.

Lemma groups_of_members now nodes epoch : concat (members <$> groups_of now nodes epoch) ≡ₚ peer_id <$> placed nodes.
Proof.
  unfold groups_of, placed. destruct (geographic_distribution cfg).
  - unfold create_geographically_distributed_groups. rewrite set_shards_members, regional_members. apply fmap_Permutation.
    rewrite (filter_regions (fun r => (effective_min <=? length (filter (fun n => geographic_region n = r) nodes))%nat)).
    + erewrite list_filter_iff; [done|]. intros n. by rewrite Nat.leb_le.
    + unfold regions. rewrite merge_sort_Permutation, hash_order_perm. apply NoDup_remove_dups.
    + intros n Hn. unfold regions. rewrite merge_sort_Permutation, hash_order_perm, elem_of_remove_dups. by apply list_elem_of_fmap_2.
  - unfold create_simple_groups. destruct (Nat.eqb_spec (num_groups (length nodes)) 0) as [Hz|_].
    + apply num_groups_zero in Hz. destruct (Nat.leb_spec effective_min (length nodes)); [lia|done].
    + by rewrite set_shards_members, chunk_members_all.
Qed.
Lemma groups_of_big now nodes epoch : Forall big_enough (groups_of now nodes epoch).
Proof.
  unfold groups_of, create_geographically_distributed_groups, create_simple_groups.
  destruct (geographic_distribution cfg); [apply shards_big, regional_big|]. destruct (_ =? 0)%nat; [done|]. apply shards_big, chunk_big.
Qed.
Lemma groups_of_names now nodes epoch : NoDup (group_id <$> groups_of now nodes epoch).
Proof.
  assert (Hnd : forall n, NoDup (group_name epoch <$> seq 0 n)).
  { intros n. apply NoDup_fmap_2_strong; [intros x y _ _; apply group_name_inj|apply NoDup_seq]. }
  unfold groups_of, create_geographically_distributed_groups, create_simple_groups.
  destruct (geographic_distribution cfg); [rewrite shards_names, regional_names; apply Hnd|].
  destruct (_ =? 0)%nat; [constructor|]. rewrite shards_names, chunk_names. apply Hnd.
Qed.
Lemma groups_of_shards now nodes epoch s :
  groups_of now nodes epoch <> [] -> 0 <= s < 65536 ->
  exists i, (i < length (groups_of now nodes epoch))%nat /\ forall j g, groups_of now nodes epoch !! j = Some g -> (s ∈ assigned_shards g <-> j = i).
Proof.
  unfold groups_of, create_geographically_distributed_groups, create_simple_groups.
  destruct (geographic_distribution cfg); [|destruct (_ =? 0)%nat; [done|]].
  all: intros Hne; apply shards_spread; intros Hz; apply Hne; by rewrite Hz.
Qed.

Lemma filter_fmap_ext {A} (P Q : A -> Prop) `{forall x, Decision (P x)} `{forall x, Decision (Q x)} (f : A -> A) (l : list A) :
  (forall x, P (f x) <-> Q x) -> filter P (f <$> l) = f <$> filter Q l.
Proof.
  intros Heq. induction l as [|x l IH]; [done|]. cbn [fmap list_fmap]. rewrite !filter_cons, IH.
  destruct (decide (Q x)) as [Hq|Hq]; [by rewrite decide_True by by apply Heq|]. rewrite decide_False by by rewrite Heq. done.
Qed.
Lemma placed_fmap nodes f :
  (forall n, geographic_region (f n) = geographic_region n) -> (forall n, peer_id (f n) = peer_id n) ->
  peer_id <$> placed (f <$> nodes) = peer_id <$> placed nodes.
Proof.
  intros Hr Hp. assert (Hf : forall l, peer_id <$> (f <$> l) = peer_id <$> l) by (intros l; rewrite <- list_fmap_compose; apply list_fmap_ext; intros ? n _; apply Hp).
  unfold placed. rewrite length_fmap. destruct (geographic_distribution cfg).
  - erewrite filter_fmap_ext; [by rewrite Hf|]. intros n. erewrite filter_fmap_ext; [by rewrite length_fmap|].
    intros m. simpl. by rewrite !Hr.
  - by destruct (_ <=? _)%nat.
Qed.
Lemma placed_perm l k : l ≡ₚ k -> placed l ≡ₚ placed k.
Proof.
  intros Hlk. unfold placed. destruct (geographic_distribution cfg).
  - erewrite list_filter_iff; [by rewrite Hlk|]. intros n. simpl. by rewrite Hlk.
  - rewrite Hlk. by destruct (_ <=? _)%nat.
Qed.

Lemma freed_nodes (m : gmap string LightNodeInfo) :
  filter (fun n => assignment n = Free) (values (set_assignment Free <$> m)) ≡ₚ set_assignment Free <$> (map_to_list m).*2.
Proof.
  unfold values. rewrite hash_order_perm, map_to_list_fmap.
  assert (Hf : (prod_map id (set_assignment Free) <$> map_to_list m).*2 = set_assignment Free <$> (map_to_list m).*2).
  { rewrite <- !list_fmap_compose. by apply list_fmap_ext. }
  rewrite Hf. clear Hf. induction (map_to_list m) as [|[k n] l IH]; [done|].
  cbn [fmap list_fmap]. rewrite filter_cons, decide_True by done. by f_equiv.
Qed.

(** What a formation does, when it forms groups: all the registered nodes are
    free, and the groups are those of the nodes in the order of the epoch. *)
Lemma form_groups_inv now created force w gs w' :
  form_groups cfg slots force_single now created force w = (Ok gs, w') -> gs <> [] ->
  exists nodes, nodes ≡ₚ set_assignment Free <$> (map_to_list (registered (mgr w))).*2 /\
    gs = set_leader (Some (local_id slots)) <$> groups_of created nodes (epoch_at slots now) /\
    active_groups (mgr w') = fold_left (fun m g => <[group_id g := g]> m) gs (active_groups (mgr w)).
Proof.
  intros Hf Hne. unfold form_groups in Hf. grun_in Hf. destruct (negb _ && _); [by injection Hf as <- _|].
  cbn [mgr registered upd_epoch upd_registered] in Hf.
  match type of Hf with context [sort_nodes _ ?l] => set (free := l) in Hf end.
  destruct (length free <? f_min_group_size cfg)%nat; cbv beta iota zeta in Hf; [by injection Hf as <- _|].
  injection Hf as <- <-. exists (sort_nodes (epoch_at slots now) free). split; [|done].
  transitivity free; [|apply freed_nodes]. unfold sort_nodes. destruct (_ && _); apply merge_sort_Permutation.
Qed.

Lemma set_leader_members (f : P2PGroup -> P2PGroup) (gs : list P2PGroup) :
  (forall g, members (f g) = members g) -> members <$> (f <$> gs) = members <$> gs.
Proof. intros Hf. rewrite <- list_fmap_compose. apply list_fmap_ext. intros i g _. apply Hf. Qed.

(** C7: Every formation partitions the nodes it places among its groups, none
    below the minimum, and each of the 65536 shards belongs to exactly one of
    the groups. *)
Theorem groups_partition_nodes now created force w gs w' :
  form_groups cfg slots force_single now created force w = (Ok gs, w') -> gs <> [] ->
  concat (members <$> gs) ≡ₚ peer_id <$> placed (map_to_list (registered (mgr w))).*2 /\
  Forall big_enough gs /\
  (forall s, 0 <= s < 65536 -> exists i, (i < length gs)%nat /\ forall j g, gs !! j = Some g -> (s ∈ assigned_shards g <-> j = i)).
Proof.
  intros Hf Hne. destruct (form_groups_inv _ _ _ _ _ _ Hf Hne) as (nodes & Hn & -> & _). split_and!.
  - rewrite set_leader_members by done. rewrite groups_of_members. rewrite (placed_perm _ _ Hn). by rewrite placed_fmap.
  - apply Forall_fmap. eapply Forall_impl; [apply groups_of_big|]. done.
  - intros s Hs. assert (Hne' : groups_of created nodes (epoch_at slots now) <> []) by (intros Hz; apply Hne; by rewrite Hz).
    destruct (groups_of_shards _ _ _ s Hne' Hs) as (i & Hlt & Hi). exists i. rewrite length_fmap. split; [done|]. intros j g Hj. rewrite list_lookup_fmap in Hj.
    destruct (groups_of created nodes (epoch_at slots now) !! j) eqn:E; [|done]. simplify_eq/=. by apply Hi.
Qed.

(** *** Groups beyond the size of the consensus *)

Lemma concat_bound {A} (ls : list (list A)) hi : Forall (fun l => length l <= hi)%nat ls -> (length (concat ls) <= length ls * hi)%nat.
Proof. induction 1; simpl; [lia|]. rewrite length_app. lia. Qed.

Lemma chunk_crowded now nodes epoch i hi :
  (effective_min <= length nodes)%nat -> (Nat.max (target_groups cfg) 1 * hi < length nodes)%nat ->
  exists g, g ∈ chunk_groups cfg force_single now nodes epoch i /\ (hi < length (members g))%nat.
Proof.
  intros Hmin Hmany. pose proof (chunk_members_all now nodes epoch i) as Hc.
  rewrite (proj2 (Nat.leb_le _ _) Hmin) in Hc. set (gs := chunk_groups cfg force_single now nodes epoch i) in *.
  assert (Hk : (length gs <= Nat.max (target_groups cfg) 1)%nat).
  { unfold gs, chunk_groups. destruct (Nat.eqb_spec (num_groups (length nodes)) 0) as [|Hn]; [simpl; lia|].
    rewrite length_imap. unfold even_partition. rewrite length_even_slices. by apply num_groups_bounds. }
  destruct (decide (Forall (fun g => length (members g) <= hi)%nat gs)) as [Hall|Hno].
  - apply (f_equal length) in Hc. rewrite length_fmap in Hc.
    assert (Hb : (length (concat (members <$> gs)) <= length (members <$> gs) * hi)%nat) by by apply concat_bound, Forall_fmap.
    rewrite length_fmap in Hb. nia.
  - apply not_Forall_Exists, Exists_exists in Hno as (g & Hg & Hl); [|apply _]. exists g. split; [done|]. simpl in Hl. lia.
Qed.

(** A crowd: more nodes, of one region when regions are apart, than the
    target number of groups can hold. *)
Definition crowded (hi : nat) (nodes : list LightNodeInfo) : Prop :=
  if geographic_distribution cfg
  then exists r, (Nat.max effective_min (S (Nat.max (target_groups cfg) 1 * hi)) <= length (filter (fun n => geographic_region n = r) nodes))%nat
  else (Nat.max effective_min (S (Nat.max (target_groups cfg) 1 * hi)) <= length nodes)%nat.

Lemma crowd_perm hi l k : l ≡ₚ k -> crowded hi l -> crowded hi k.
Proof.
  intros Hlk. unfold crowded. destruct (geographic_distribution cfg); [|by rewrite Hlk].
  intros [r Hr]. exists r. by rewrite <- Hlk.
Qed.
Lemma crowd_fmap hi f nodes : (forall n, geographic_region (f n) = geographic_region n) -> crowded hi nodes -> crowded hi (f <$> nodes).
Proof.
  intros Hf. unfold crowded. rewrite length_fmap. destruct (geographic_distribution cfg); [|done].
  intros [r Hr]. exists r. erewrite filter_fmap_ext; [rewrite length_fmap; exact Hr|]. intros n. simpl. by rewrite Hf.
Qed.

Lemma regional_chunk now nodes epoch i rs r : r ∈ rs ->
  exists k, (members <$> chunk_groups cfg force_single now (filter (fun n => geographic_region n = r) nodes) epoch k)
    ⊆ (members <$> regional_groups cfg force_single now nodes epoch i rs).
Proof.
  revert i. induction rs as [|r' rs IH]; intros i Hr; [by apply not_elem_of_nil in Hr|]. cbn [regional_groups].
  destruct (decide (r = r')) as [->|Hne].
  - exists i. rewrite fmap_app, set_leader_members by done. apply list_subseteq_app_l. done.
  - apply elem_of_cons in Hr as [|Hr]; [done|].
    destruct (IH (i + length (set_region r' <$> chunk_groups cfg force_single now (filter (fun n => geographic_region n = r') nodes) epoch i))%nat Hr) as [k Hk].
    exists k. rewrite fmap_app. by apply list_subseteq_app_r.
Qed.

Lemma crowded_group now nodes epoch hi :
  crowded hi nodes -> exists l, l ∈ members <$> groups_of now nodes epoch /\ (hi < length l)%nat.
Proof.
  unfold crowded, groups_of. destruct (geographic_distribution cfg).
  - intros [r Hr]. set (l := filter (fun n => geographic_region n = r) nodes) in *.
    assert (Hin : r ∈ regions nodes).
    { unfold regions. rewrite merge_sort_Permutation, hash_order_perm, elem_of_remove_dups.
      destruct l as [|n l'] eqn:E; [simpl in Hr; lia|]. assert (Hn : n ∈ l) by (rewrite E; left).
      apply list_elem_of_filter in Hn as [<- Hn]. by apply list_elem_of_fmap_2. }
    destruct (regional_chunk now nodes epoch 0 _ _ Hin) as [k Hk].
    destruct (chunk_crowded now l epoch k hi) as (g & Hg & Hl); [lia..|].
    exists (members g). split; [|done]. unfold create_geographically_distributed_groups. rewrite set_shards_members.
    apply Hk. by apply list_elem_of_fmap_2.
  - intros Hr. destruct (chunk_crowded now nodes epoch 0 hi) as (g & Hg & Hl); [lia..|]. exists (members g). split; [|done].
    unfold create_simple_groups. destruct (Nat.eqb_spec (num_groups (length nodes)) 0) as [Hz|_]; [apply num_groups_zero in Hz; lia|].
    rewrite set_shards_members. by apply list_elem_of_fmap_2.
Qed.

Lemma form_groups_cons now created force w r w' : form_groups cfg slots force_single now created force w = (r, w') -> cons w' = cons w.
Proof.
  unfold form_groups. grun. destruct (negb _ && _); [by intros [= _ <-]|]. destruct (_ <? _)%nat; by intros [= _ <-].
Qed.

Local Abbreviation propose := (create_and_propose_groups cfg slots bft force_single).

(** A proposal made: the groups formed, with leaders, whose members are no
    longer available. *)
Lemma propose_inv k w p w' :
  propose k w = (Ok (Some p), w') ->
  exists gs w1 w2, form_groups cfg slots force_single (at_forming k) (at_group k) true w1 = (Ok gs, w2) /\ gs <> [] /\ mgr w1 = mgr w /\
    groups p = name_leaders slots (ordered_masternode_ids (cons w)) <$> gs /\ members <$> groups p = members <$> gs /\ used_lightnodes p = set_iter (concat (members <$> gs)) /\
    (min_group_size bft <= length (used_lightnodes p))%nat /\ p_epoch p = epoch_at slots (at_start k) /\ p_timestamp p = secs (at_stamp k) /\
    mgr w' = mgr w2 /\
    available_lightnodes (cons w') = fold_left (fun m i => delete i m) (used_lightnodes p) (available_lightnodes (cons w)).
Proof.
  unfold create_and_propose_groups. grun. destruct (negb (can_create_group _ _)); [done|].
  destruct (negb _ && _); [done|].
  match goal with |- context [form_groups cfg slots force_single ?a ?b true ?w1] => destruct (form_groups cfg slots force_single a b true w1) as [[gs|] w2] eqn:E end; [|done].
  cbv beta iota zeta. case_bool_decide as Hne; [done|]. destruct (_ <? _)%nat eqn:Hsz; [done|]. intros Hp. injection Hp as <- <-.
  assert (Hm : members <$> (name_leaders slots (ordered_masternode_ids (cons w2)) <$> gs) = members <$> gs).
  { apply set_leader_members. intros g. unfold name_leaders. by case_bool_decide. }
  pose proof (form_groups_cons _ _ _ _ _ _ E) as Hc.
  eexists _, _, _. cbn [groups used_lightnodes]. split_and!; [exact E|done|done|by rewrite Hc|exact Hm|by rewrite Hm| |done|done|done|].
  - by apply Nat.ltb_ge in Hsz.
  - cbn. by rewrite Hc.
Qed.

Local Abbreviation validate := (validate_proposal slots bft).

(** What validation reads: groups of a size, nodes that are available. *)
Lemma validate_sizes now p w l :
  l ∈ members <$> groups p -> (max_group_size bft < length l)%nat -> (validate now p w).1 = Ok false.
Proof.
  intros (g & -> & Hg)%list_elem_of_fmap Hl. unfold validate_proposal. grun. destruct (negb (p_epoch p =? _)); [done|].
  destruct (forallb _ (groups p)) eqn:Hall; [|done]. exfalso. rewrite forallb_forall in Hall.
  assert (Hok : size_ok (min_group_size bft) (max_group_size bft) g = true) by (apply Hall; by apply list_elem_of_In).
  unfold size_ok in Hok. apply andb_true_iff in Hok as [_ Hok%Nat.leb_le]. lia.
Qed.
Lemma validate_frame now p w : exists w', (validate now p w).2 = w' /\ mgr w' = mgr w /\ cons w' = upd_c_epoch (epoch_at slots now) (cons w).
Proof.
  unfold validate_proposal. grun. destruct (negb (p_epoch p =? _)); [by eexists|]. destruct (negb (forallb _ _)); [by eexists|].
  destruct (too_many_missing _ _); by eexists.
Qed.

(** When a region (or, regions together, the registry) has more nodes than
    the target number of groups can hold, every proposal is refused by every
    masternode. *)
Theorem crowd_never_grouped k now' w p w' u :
  crowded (max_group_size bft) (map_to_list (registered (mgr w))).*2 -> propose k w = (Ok (Some p), w') ->
  (validate now' p u).1 = Ok false.
Proof.
  intros Hc (gs & w1 & w2 & Hf & Hne & Hw & _ & Hm & _)%propose_inv. destruct (form_groups_inv _ _ _ _ _ _ Hf Hne) as (nodes & Hn & -> & _).
  rewrite Hw in Hn. rewrite set_leader_members in Hm by done.
  destruct (crowded_group (at_group k) nodes (epoch_at slots (at_forming k)) (max_group_size bft)) as (l & Hl & Hbig).
  - eapply crowd_perm; [symmetry; exact Hn|]. by apply crowd_fmap.
  - eapply validate_sizes; [|exact Hbig]. by rewrite Hm.
Qed.

(** *** The proposal of a masternode in its own eyes *)

Lemma validate_blocked now p w g e :
  g ∈ groups p -> e ∈ (map_to_list (active_groups (mgr w))).*2 ->
  (forall c, blocks c (p_timestamp p) g e = true) -> (validate now p w).1 = Ok false.
Proof.
  intros Hg He Hb. unfold validate_proposal. grun. destruct (negb (p_epoch p =? _)); [done|]. destruct (negb (forallb _ _)); [done|].
  destruct (too_many_missing _ _); [done|]. cbn [fst mgr cons]. do 2 f_equal. apply negb_false_iff. apply existsb_exists.
  exists g. split; [by apply list_elem_of_In|]. apply existsb_exists. exists e. split; [|apply Hb].
  apply list_elem_of_In. unfold values. by rewrite hash_order_perm.
Qed.

(** A group does not beat itself, unless the hash of the later time is the
    lower one. *)
Lemma blocks_self c t g e :
  members g = members e -> members e <> [] -> Z.of_nat (length (members e)) < 2 ^ 53 -> group_id g = group_id e ->
  lex_leb (tie_hash (group_id e) (created_at e)) (tie_hash (group_id g) t) = true ->
  blocks c t g e = true.
Proof.
  intros Hm Hne Hlt Hid Ht. unfold blocks. rewrite Hid in Ht. rewrite Hm, Hid.
  assert (Hall : filter (fun m => m ∈ members e) (remove_dups (members e)) = remove_dups (members e)).
  { apply filter_keep_all, Forall_forall. intros x Hx. by rewrite elem_of_remove_dups in Hx. }
  rewrite Hall. set (k := length (remove_dups (members e))).
  assert (Hk : (1 <= k)%nat).
  { unfold k. destruct (remove_dups (members e)) eqn:E; [|simpl; lia]. destruct (members e) as [|x l] eqn:E'; [done|].
    assert (Hx : x ∈ remove_dups (x :: l)) by (apply elem_of_remove_dups; left). rewrite E in Hx. by apply not_elem_of_nil in Hx. }
  assert (Hk' : (k <= length (members e))%nat).
  { unfold k. apply submseteq_length, NoDup_submseteq; [apply NoDup_remove_dups|]. intros x. by rewrite elem_of_remove_dups. }
  rewrite Nat.max_l by lia. unfold F64.of_nat. rewrite F64.div_same by lia.
  replace (F64.ltb TWENTY_PERCENT F64.one) with true by (by vm_compute). rewrite F64.ltb_irrefl.
  apply negb_true_iff, andb_false_iff. destruct (lex_leb (tie_hash (group_id e) t) _) eqn:Hle; [right|by left].
  rewrite bool_decide_eq_true_2; [done|]. by apply lex_leb_antisym.
Qed.

Lemma initialize_frame w : exists a, initialize_available_lightnodes w = (Ok tt, mkWorld (mgr w) (upd_available a (cons w))).
Proof. unfold initialize_available_lightnodes. grun. eexists. reflexivity. Qed.

Local Abbreviation process := (process_proposal slots bft distributor).

Lemma process_invalid now p w :
  (forall w', mgr w' = mgr w -> (validate now p w').1 = Ok false) -> (process now p w).1 = Err InvalidProposal.
Proof.
  intros Hv. unfold process_proposal, vote_on_proposal. grun.
  assert (Hstep : forall u, mgr u = mgr w -> exists u', validate now p u = (Ok false, u') /\ mgr u' = mgr w).
  { intros u Hu. destruct (validate_frame now p u) as (u' & Hu2 & Hm & _). exists u'. split; [|congruence].
    rewrite (surjective_pairing (validate now p u)). by rewrite Hu2, Hv. }
  match goal with |- context [validate now p ?u] => destruct (Hstep u) as (u1 & -> & Hm1); [done|] end. cbv beta iota zeta.
  destruct (initialize_frame u1) as [f ->]. cbv beta iota zeta.
  match goal with |- context [validate now p ?u] => destruct (Hstep u) as (u2 & -> & Hm2); [done|] end. cbv beta iota zeta.
  destruct (Hstep u2 Hm2) as (u3 & -> & _). done.
Qed.

Lemma active_group_lookup (gs : list P2PGroup) (m : gmap string P2PGroup) g :
  NoDup (group_id <$> gs) -> g ∈ gs -> fold_left (fun m g => <[group_id g := g]> m) gs m !! group_id g = Some g.
Proof.
  revert m. induction gs as [|x gs IH]; intros m Hnd Hg; [by apply not_elem_of_nil in Hg|]. simpl in *.
  apply NoDup_cons in Hnd as [Hx Hnd]. apply elem_of_cons in Hg as [->|Hg]; [|by apply IH].
  clear IH Hnd. assert (Hgo : forall l (m : gmap string P2PGroup), group_id x ∉ group_id <$> l ->
    fold_left (fun m g => <[group_id g := g]> m) l m !! group_id x = m !! group_id x).
  { induction l as [|y l IH]; intros k Hk; [done|]. simpl in *. apply not_elem_of_cons in Hk as [Hy Hk].
    rewrite IH by done. by apply lookup_insert_ne. }
  rewrite Hgo by done. apply lookup_insert_eq.
Qed.

(** The time at which a group was created does not lose the tie against the
    proposal's. *)
Definition tie_kept (p : GroupProposal) (g : P2PGroup) : Prop :=
  created_at g = p_timestamp p \/
  lex_leb (tie_hash (group_id g) (created_at g)) (tie_hash (group_id g) (p_timestamp p)) = true.

(** C28: A masternode refuses its own proposal with an error, whenever it
    receives it while the groups it formed for it are still active: each of
    them blocks the group proposed, which is itself.  This is so if, for one
    of the groups, the proposal was stamped in the second in which the group
    was created, or in another whose hash with the group's name is not the
    lower. *)
Theorem own_proposal_refused k now' p w w' u :
  propose k w = (Ok (Some p), w') -> Forall (fun g => Z.of_nat (length (members g)) < 2 ^ 53) (groups p) ->
  active_groups (mgr w') ⊆ active_groups (mgr u) -> Exists (tie_kept p) (groups p) ->
  (process now' p u).1 = Err InvalidProposal.
Proof.
  intros (gs & w1 & w2 & Hf & Hne & _ & Hg & _ & _ & _ & _ & _ & Hm & _)%propose_inv Hsmall Hsub (g & Hin & Htie)%Exists_exists.
  apply process_invalid. intros v Hv.
  destruct (form_groups_inv _ _ _ _ _ _ Hf Hne) as (nodes & _ & Hgs & Hact).
  assert (Hnd : NoDup (group_id <$> gs)).
  { rewrite Hgs, <- list_fmap_compose. apply groups_of_names. }
  pose proof Hin as Hin'. rewrite Hg in Hin'. apply list_elem_of_fmap in Hin' as (e & -> & He).
  set (g := name_leaders slots (ordered_masternode_ids (cons w)) e) in *.
  assert (Hgm : members g = members e) by (unfold g, name_leaders; by case_bool_decide).
  assert (Hgi : group_id g = group_id e) by (unfold g, name_leaders; by case_bool_decide).
  assert (Hgc : created_at g = created_at e) by (unfold g, name_leaders; by case_bool_decide).
  assert (Hbig : big_enough e).
  { assert (Hall : Forall big_enough gs) by (rewrite Hgs; apply Forall_fmap; eapply Forall_impl; [apply groups_of_big|done]).
    rewrite Forall_forall in Hall. by apply Hall. }
  apply (validate_blocked _ _ _ g e); [done| |].
  - rewrite Hv. apply list_elem_of_fmap. exists (group_id e, e). split; [done|]. apply elem_of_map_to_list.
    eapply lookup_weaken; [|exact Hsub]. rewrite Hm, Hact. by apply active_group_lookup.
  - intros c. rewrite Forall_forall in Hsmall. apply Hsmall in Hin. rewrite Hgm in Hin. apply blocks_self; [done| |done|done|].
    + intros Hz. unfold big_enough in Hbig. rewrite Hz in Hbig. simpl in Hbig. lia.
    + destruct Htie as [Heq|Hle]; [|by rewrite Hgc, Hgi in Hle; rewrite Hgi].
      rewrite <- Hgc, Heq, Hgi. destruct (lex_leb_total (tie_hash (group_id e) (p_timestamp p)) (tie_hash (group_id e) (p_timestamp p))); done.
Qed.

(** *** Votes that count twice *)

Lemma validate_ext now p w u :
  mgr u = mgr w -> available_lightnodes (cons u) = available_lightnodes (cons w) -> (validate now p u).1 = (validate now p w).1.
Proof.
  intros Hm Ha. unfold validate_proposal. grun. destruct (negb (p_epoch p =? _)); [done|]. destruct (negb (forallb _ _)); [done|].
  cbn [cons upd_c_epoch available_lightnodes mgr]. rewrite Ha, Hm. destruct (too_many_missing _ _); [done|]. cbn [fst cons mgr].
  do 2 f_equal. unfold blocks, avg_pou_score. cbn [available_lightnodes upd_c_epoch]. by rewrite Ha.
Qed.
Lemma validate_run now p w b :
  (validate now p w).1 = Ok b -> validate now p w = (Ok b, mkWorld (mgr w) (upd_c_epoch (epoch_at slots now) (cons w))).
Proof.
  intros Hb. destruct (validate_frame now p w) as (u & Hu & Hm & Hc). rewrite (surjective_pairing (validate now p w)), Hb, Hu.
  destruct u as [um uc]. simpl in *. by rewrite Hm, Hc.
Qed.

Definition own_vote (now : Z) (p : GroupProposal) : GroupVote :=
  mkVote (proposal_id p) (local_id slots) Approve (secs now)
    (sign_group_vote (mkVote (proposal_id p) (local_id slots) Approve (secs now) []) (p_epoch p)).

(** The state in which the vote on a valid proposal is counted. *)
Lemma process_valid now p w :
  (validate now p w).1 = Ok true ->
  exists u, mgr u = mgr w /\ available_lightnodes (cons u) = available_lightnodes (cons w) /\
    active_masternodes (cons u) = active_masternodes (cons w) /\ active_proposals (cons u) !! proposal_id p = Some p /\
    proposal_votes (cons u) !! proposal_id p = Some (default [] (proposal_votes (cons w) !! proposal_id p) ++ [own_vote now p]) /\
    process now p w =
      (cert ← check_proposal_consensus bft now (proposal_id p);
       match cert with
       | Some c => if c_approved c then process_approval_certificate distributor c;; on_group_approval_complete;; mret (own_vote now p)
                   else mret (own_vote now p)
       | None => mret (own_vote now p)
       end) u.
Proof.
  intros Hv. unfold process_proposal, vote_on_proposal. grun.
  match goal with |- context [validate now p ?u] => rewrite (validate_run now p u true) by by rewrite <- Hv; apply validate_ext end.
  cbv beta iota.
  match goal with |- context [validate now p ?u] => rewrite (validate_run now p u true) by by rewrite <- Hv; apply validate_ext end.
  cbn [negb]. cbv beta iota zeta.
  eexists. split_and!; [| | | | |reflexivity]; cbn; [done|done|done|apply lookup_insert_eq|].
  by rewrite lookup_partial_alter_eq.
Qed.

Lemma approvals_all l : Forall (fun v => vote_type v = Approve) l -> approvals l = length l.
Proof. intros Hl. unfold approvals. by rewrite filter_keep_all. Qed.

Section Replay.
Context (nows : list Z) (p : GroupProposal) (required : Z).
Context (Hfresh : forall now, now ∈ nows -> saturating_sub (secs now) (p_timestamp p) <= vote_timeout_ms bft / 1000 * 2).
Context (Hthr : F64.leb (approval_threshold bft) F64.one = true).
Local Abbreviation own := (fun now => own_vote now p).

(** A state in which the proposal is valid, with the votes of this node made
    at the instants [done_]. *)
Definition voted (done_ : list Z) (w0 w : World) : Prop :=
  (forall now, now ∈ nows -> (validate now p w).1 = Ok true) /\ mgr w = mgr w0 /\
  fst <$> calculate_dynamic_quorum bft (cons w) = Some required /\
  default [] (proposal_votes (cons w) !! proposal_id p) = own <$> done_.

Lemma quorum_ext c c' : active_masternodes c = active_masternodes c' -> calculate_dynamic_quorum bft c = calculate_dynamic_quorum bft c'.
Proof. unfold calculate_dynamic_quorum. by intros ->. Qed.

Lemma process_counts w0 l now w : voted l w0 w -> now ∈ nows -> Z.of_nat (S (length l)) < required ->
  exists w', process now p w = (Ok (own_vote now p), w') /\ voted (l ++ [now]) w0 w'.
Proof.
  intros (Hv & Hm0 & Hq & Hk) Hnow Hlt. destruct (process_valid now p w (Hv now Hnow)) as (u & Hm & Ha & Hact & Hp & Hvs & ->).
  assert (Hl : default [] (proposal_votes (cons w) !! proposal_id p) ++ [own_vote now p] = own <$> l ++ [now]) by by rewrite Hk, fmap_app.
  rewrite Hl in Hvs. exists u. split.
  - unfold check_proposal_consensus. grun. rewrite Hp, Hvs, (quorum_ext _ _ Hact).
    destruct (calculate_dynamic_quorum bft (cons w)) as [[r a]|]; [|done]. injection Hq as ->. rewrite length_fmap, length_app. cbn [length].
    destruct (Z.leb_spec required (Z.of_nat (length l + 1))); [lia|]. pose proof (Hfresh now Hnow).
    destruct (Z.ltb_spec (vote_timeout_ms bft / 1000 * 2) (saturating_sub (secs now) (p_timestamp p))); [lia|done].
  - split_and!; [|congruence|by rewrite (quorum_ext _ _ Hact)|by rewrite Hvs].
    intros t Ht. rewrite <- (Hv t Ht). by apply validate_ext.
Qed.

(** What the last reception leaves, whether the groups are sent on or not. *)
Definition approved_by (l : list Z) (w0 w' : World) : Prop :=
  exists cert, approved_certificates (cons w') !! p_epoch p = Some cert /\
    c_proposal cert = p /\ c_approved cert = true /\ c_votes cert = own <$> l /\
    active_groups (mgr w') = fold_left (fun m g => <[group_id g := g]> m) (set_status Active <$> groups p) (active_groups (mgr w0)).

Lemma process_last w0 l now w : voted l w0 w -> now ∈ nows -> Z.of_nat (S (length l)) = required -> required < 2 ^ 53 ->
  exists r w', process now p w = (r, w') /\ (r = Ok (own_vote now p) \/ distributor <> None /\ r = Err DistributionFailed) /\
    approved_by (l ++ [now]) w0 w'.
Proof.
  intros (Hv & Hm0 & Hq & Hk) Hnow Heq Hb. destruct (process_valid now p w (Hv now Hnow)) as (u & Hm & Ha & Hact & Hp & Hvs & ->).
  assert (Hl : default [] (proposal_votes (cons w) !! proposal_id p) ++ [own_vote now p] = own <$> l ++ [now]) by by rewrite Hk, fmap_app.
  rewrite Hl in Hvs. unfold check_proposal_consensus. grun. rewrite Hp, Hvs, (quorum_ext _ _ Hact).
  destruct (calculate_dynamic_quorum bft (cons w)) as [[r a]|]; [|done]. injection Hq as ->.
  rewrite approvals_all by by apply Forall_fmap, Forall_true.
  rewrite length_fmap, length_app. cbn [length]. destruct (Z.leb_spec required (Z.of_nat (length l + 1))); [|lia].
  unfold F64.of_nat. rewrite F64.div_same by lia. rewrite Hthr. cbn [c_approved].
  unfold process_approval_certificate, distribute_groups_to_lightnodes, add_active_groups. grun. cbn [negb c_approved].
  assert (Hmm : mgr u = mgr w0) by congruence.
  assert (Hdone : forall r w', (r = Ok (own_vote now p) \/ distributor <> None /\ r = Err DistributionFailed) -> approved_by (l ++ [now]) w0 w' ->
    exists r' w'', (r, w') = (r', w'') /\ (r' = Ok (own_vote now p) \/ distributor <> None /\ r' = Err DistributionFailed) /\ approved_by (l ++ [now]) w0 w'').
  { intros r w' Hr Hw. by exists r, w'. }
  destruct distributor as [d|]; [destruct (negb _)|].
  all: eapply Hdone; [by auto|]; eexists; split_and!; [cbn; apply lookup_insert_eq|done|done|done|cbn; by rewrite Hmm].
Qed.
End Replay.

Local Abbreviation on_message := (on_masternode_message slots bft distributor).

(** Messages one after the other, each at its instant; the first error ends
    the loop. *)
Fixpoint deliver (l : list (Z * MasternodeMessage)) : W unit :=
  match l with
  | [] => mret tt
  | (now, m) :: l => on_message now m;; deliver l
  end.

(** C27: A proposal that one masternode finds valid is approved by that
    masternode alone, when it receives the proposal as often as the quorum
    asks, while the votes on it are kept (twice the time to vote, from its
    timestamp) and it stays valid: each reception counts one more of its own
    votes.  Its groups are active then, whether they could be sent to the
    light nodes or not. *)
Theorem replayed_proposal_approved nows p w required active :
  F64.leb (approval_threshold bft) F64.one = true ->
  (forall now, now ∈ nows -> saturating_sub (secs now) (p_timestamp p) <= vote_timeout_ms bft / 1000 * 2 /\ (validate now p w).1 = Ok true) ->
  proposal_votes (cons w) !! proposal_id p = None ->
  calculate_dynamic_quorum bft (cons w) = Some (required, active) -> 0 < required < 2 ^ 53 -> Z.of_nat (length nows) = required ->
  exists r w', deliver ((fun now => (now, MsgProposal p)) <$> nows) w = (r, w') /\
    (r = Ok tt \/ distributor <> None /\ r = Err DistributionFailed) /\ approved_by p nows w w'.
Proof.
  intros Hthr Hok Hnone Hq Hr Hlen.
  assert (Hfr : forall now, now ∈ nows -> saturating_sub (secs now) (p_timestamp p) <= vote_timeout_ms bft / 1000 * 2) by (intros t Ht; by apply Hok).
  assert (Hinv : voted nows p required [] w w) by (split_and!; [intros t Ht; by apply Hok|done|by rewrite Hq|by rewrite Hnone]).
  assert (Hgo : forall rest l u, l ++ rest = nows -> rest <> [] -> voted nows p required l w u ->
    exists r w', deliver ((fun now => (now, MsgProposal p)) <$> rest) u = (r, w') /\
      (r = Ok tt \/ distributor <> None /\ r = Err DistributionFailed) /\ approved_by p nows w w').
  { clear Hinv. induction rest as [|t rest IH]; intros l u Hl Hne Hu; [done|].
    assert (Ht : t ∈ nows) by (rewrite <- Hl; apply elem_of_app; right; left).
    assert (Hcount : (length l + S (length rest) = length nows)%nat) by (rewrite <- Hl, length_app; done).
    cbn [fmap list_fmap deliver]. unfold on_masternode_message. grun. destruct rest as [|t' rest].
    - destruct (process_last nows p required Hthr w l t u Hu Ht) as (r & w' & -> & Hres & Hc); [simpl in Hcount; lia..|].
      rewrite Hl in Hc. destruct Hres as [->|[Hd ->]]; cbv beta iota; eexists _, w'; (split; [reflexivity|]); auto.
    - destruct (process_counts nows p required Hfr w l t u Hu Ht) as (w' & -> & Hw'); [simpl in Hcount; lia|]. cbv beta iota.
      apply (IH (l ++ [t]) w'); [by rewrite <- app_assoc|done|done]. }
  apply (Hgo nows [] w); [done| |done]. intros Hz. rewrite Hz in Hlen. simpl in Hlen. lia.
Qed.

(** A proposal of another epoch ends the main loop of the masternode that
    receives it, whatever follows. *)
Theorem stale_proposal_ends_loop now p w l :
  p_epoch p <> epoch_at slots now -> (deliver ((now, MsgProposal p) :: l) w).1 = Err InvalidProposal.
Proof.
  intros He. assert (Hp : (process now p w).1 = Err InvalidProposal).
  { apply process_invalid. intros u _. unfold validate_proposal. grun. destruct (Z.eqb_spec (p_epoch p) (epoch_at slots now)); done. }
  cbn [deliver]. unfold on_masternode_message. grun. destruct (process now p w) as [[v|e] u]; simpl in Hp; [done|]. by injection Hp as ->.
Qed.

(** A certificate is believed: whatever its votes and signatures, the groups
    of one that says it is approved become active. *)
Theorem any_certificate_installs_groups now cert w :
  distributor = None -> c_approved cert = true ->
  exists w', on_message now (MsgCertificate cert) w = (Ok [], w') /\
    active_groups (mgr w') = fold_left (fun m g => <[group_id g := g]> m) (set_status Active <$> groups (c_proposal cert)) (active_groups (mgr w)) /\
    approved_certificates (cons w') !! p_epoch (c_proposal cert) = Some cert /\ election_state (cons w') = Idle.
Proof.
  intros Hd Ha. unfold on_masternode_message, process_approval_certificate. grun. rewrite Ha. cbn [negb].
  unfold distribute_groups_to_lightnodes, add_active_groups, on_group_approval_complete, reset_leader_election. grun. rewrite Hd.
  eexists. split_and!; [reflexivity|done|cbn; apply lookup_insert_eq|done].
Qed.

(** *** The quorum *)

Definition quorum_of (active : Z) : Z := Z.max (F64.ceil_usize (F64.mul (F64.of_Z active) (F64.percent 67))) 3.
Lemma quorum_two_thirds active : 3 <= active <= 100 -> 2 * active < 3 * quorum_of active /\ quorum_of active <= active.
Proof.
  intros Ha. assert (Hall : forallb (fun a => (2 * a <? 3 * quorum_of a) && (quorum_of a <=? a)) (seqZ 3 98) = true) by by vm_compute.
  rewrite forallb_forall in Hall. specialize (Hall active). rewrite <- list_elem_of_In, elem_of_seqZ in Hall.
  apply andb_true_iff in Hall as [?%Z.ltb_lt ?%Z.leb_le]; lia.
Qed.
Definition ratio_ok (v a : nat) : bool :=
  negb (F64.leb (F64.percent 67) (F64.div (F64.of_nat a) (F64.of_nat v))) || (2 * v <? 3 * a)%nat.
Lemma approvals_two_thirds (v a : nat) :
  (1 <= v <= 100)%nat -> (a <= v)%nat -> F64.leb (F64.percent 67) (F64.div (F64.of_nat a) (F64.of_nat v)) = true -> (2 * v < 3 * a)%nat.
Proof.
  intros Hv Ha Hr. assert (Hall : forallb (fun v => forallb (ratio_ok v) (seq 0 (S v))) (seq 1 100) = true) by by vm_compute.
  rewrite forallb_forall in Hall. specialize (Hall v). rewrite in_seq in Hall. specialize (Hall ltac:(lia)).
  rewrite forallb_forall in Hall. specialize (Hall a). rewrite in_seq in Hall. specialize (Hall ltac:(lia)).
  unfold ratio_ok in Hall. rewrite Hr in Hall. by apply Nat.ltb_lt in Hall.
Qed.

(** C25: With the threshold and the minimum of the default configuration, for up
    to 100 masternodes and votes, a certificate counts more votes than two
    thirds of the number of active masternodes, of which there are three at
    least, and more than two thirds of the votes are approvals.  The votes are
    those recorded: one masternode's vote may be among them more than once. *)
Theorem certificate_needs_two_thirds now id w cert u :
  check_proposal_consensus bft now id w = (Ok (Some cert), u) ->
  approval_threshold bft = F64.percent 67 -> min_masternodes bft = 3 -> active_masternodes (cons w) <= 100 -> (length (c_votes cert) <= 100)%nat ->
  3 <= active_masternodes (cons w) /\ 2 * active_masternodes (cons w) < 3 * Z.of_nat (length (c_votes cert)) /\
  (2 * length (c_votes cert) < 3 * approvals (c_votes cert))%nat /\ proposal_votes (cons w) !! id = Some (c_votes cert).
Proof.
  intros Hc Ht Hm Ha Hv. unfold check_proposal_consensus in Hc. grun_in Hc.
  destruct (active_proposals (cons w) !! id) as [p|]; [|done]. destruct (proposal_votes (cons w) !! id) as [votes|]; [|done].
  unfold calculate_dynamic_quorum in Hc. rewrite Ht, Hm in Hc. destruct (Z.ltb_spec (active_masternodes (cons w)) 3) as [|Hlow]; [done|].
  fold (quorum_of (active_masternodes (cons w))) in Hc. destruct (Z.leb_spec (quorum_of (active_masternodes (cons w))) (Z.of_nat (length votes))) as [Hq|].
  2: { by destruct (_ <? _). }
  destruct (F64.leb _ _) eqn:Hr; [|done]. injection Hc as <- _. cbn [c_votes] in *.
  pose proof (quorum_two_thirds (active_masternodes (cons w)) ltac:(lia)) as [Hq1 Hq2]. split_and!; [lia|lia| |done].
  apply approvals_two_thirds; [lia|apply length_filter|done].
Qed.

(** *** Registrations *)

Local Abbreviation register := (register_light_node_with_stake cfg slots with_consensus).
Definition registrations (l : list (Z * LightNodeInfo * Z)) (w : World) : World :=
  fold_left (fun w (r : Z * LightNodeInfo * Z) => (register r.1.1 r.1.2 r.2 w).2) l w.

(** The registrations counted for epoch [e]. *)
Definition counted (e : Z) (m : Manager) : Z := if registration_epoch m =? e then registrations_this_epoch m else 0.
Definition counter_ok (m : Manager) : Prop := in_range U64_MAX (registrations_this_epoch m).

Lemma register_counted now n stake w :
  counter_ok (mgr w) -> let w' := (register now n stake w).2 in let e := epoch_at slots now in
  counter_ok (mgr w') /\ Z.of_nat (size (registered (mgr w'))) + counted e (mgr w) <= Z.of_nat (size (registered (mgr w))) + counted e (mgr w') /\
  counted e (mgr w') <= Z.max MAX_REGISTRATIONS_PER_EPOCH (counted e (mgr w)).
Proof.
  intros Hok w' e. subst w'. unfold register_light_node_with_stake. grun. destruct (stake <? _); [cbn; split_and!; [done|lia|lia]|].
  destruct (unreachable_addr _); [cbn; split_and!; [done|lia|lia]|].
  destruct (registered (mgr w) !! node_id n) as [old|] eqn:Hn; cbn [mgr cons upd_registered registered].
  - assert (Hsz : size (<[node_id n := n]> (registered (mgr w))) = size (registered (mgr w))).
    { rewrite map_size_insert, Hn. done. }
    destruct with_consensus; [match goal with |- context [initialize_available_lightnodes ?u] => destruct (initialize_frame u) as [f ->] end|].
    all: cbn; rewrite Hsz; split_and!; [done|unfold counted; cbn; lia..].
  - assert (Hsz : size (<[node_id n := n]> (registered (mgr w))) = S (size (registered (mgr w)))).
    { rewrite map_size_insert, Hn. done. }
    unfold counted. fold e. destruct (Z.eqb_spec (registration_epoch (mgr w)) e) as [He|He].
    + rewrite He, Z.eqb_refl. cbn [mgr cons upd_counter registrations_this_epoch registration_epoch].
      destruct (Z.leb_spec MAX_REGISTRATIONS_PER_EPOCH (registrations_this_epoch (mgr w))) as [|Hlt]; cbn; [rewrite He, Z.eqb_refl; split_and!; [done|lia..]|].
      rewrite wrap_id by (unfold counter_ok, in_range, MAX_REGISTRATIONS_PER_EPOCH, U64_MAX in *; lia).
      destruct with_consensus; [match goal with |- context [initialize_available_lightnodes ?u] => destruct (initialize_frame u) as [f ->] end|].
      all: cbn -[Z.of_nat U64_MAX]; rewrite Hsz, He, Z.eqb_refl; unfold counter_ok, in_range, MAX_REGISTRATIONS_PER_EPOCH, U64_MAX in *; cbn -[Z.of_nat]; split_and!; lia.
    + rewrite (proj2 (Z.eqb_neq _ _)) by (intros Hz; by apply He). cbn [mgr cons upd_counter registrations_this_epoch registration_epoch].
      destruct (Z.leb_spec MAX_REGISTRATIONS_PER_EPOCH 0) as [Hbad|_]; [by unfold MAX_REGISTRATIONS_PER_EPOCH in Hbad|]. cbn [mgr cons upd_counter registrations_this_epoch registration_epoch].
      destruct with_consensus; [match goal with |- context [initialize_available_lightnodes ?u] => destruct (initialize_frame u) as [f ->] end|].
      all: cbn -[Z.of_nat U64_MAX wrap]; rewrite Hsz, Z.eqb_refl; rewrite wrap_id by (unfold in_range, U64_MAX; lia); unfold counter_ok, in_range, MAX_REGISTRATIONS_PER_EPOCH, U64_MAX in *; cbn -[Z.of_nat]; split_and!; lia.
Qed.

(** Whatever is registered during one epoch, at most ten nodes are new. *)
Theorem registrations_bounded l w e :
  counter_ok (mgr w) -> Forall (fun r : Z * LightNodeInfo * Z => epoch_at slots r.1.1 = e) l ->
  Z.of_nat (size (registered (mgr (registrations l w)))) <= Z.of_nat (size (registered (mgr w))) + MAX_REGISTRATIONS_PER_EPOCH.
Proof.
  intros Hok Hl. assert (Hc0 : 0 <= counted e (mgr w)) by (unfold counted, counter_ok, in_range in *; destruct (_ =? _); lia).
  cut (Z.of_nat (size (registered (mgr (registrations l w)))) <=
       Z.of_nat (size (registered (mgr w))) + (Z.max MAX_REGISTRATIONS_PER_EPOCH (counted e (mgr w)) - counted e (mgr w))).
  { unfold MAX_REGISTRATIONS_PER_EPOCH. lia. }
  clear Hc0. unfold registrations. revert w Hok. induction Hl as [|[[now n] stake] l He Hl IH]; intros w Hok; cbn [fold_left fst snd]; [lia|].
  destruct (register_counted now n stake w Hok) as (Hok' & Hs & Hc). cbn [fst] in He. rewrite He in *. specialize (IH _ Hok'). lia.
Qed.

(** *** Elections *)

(** The certificate that anyone can make in the name of [a]: the key is
    derived from the name and the epoch. *)
Definition forged (id : string) (epoch t count : Z) (a : string) : LeaderElectionCertificate :=
  mkElectionCert id epoch a t true count (sign_leader_election_certificate (mkElectionCert id epoch a t true count []) a).
Lemma forged_verifies `{!Ed25519SignLaws} id epoch t count a : verify_leader_election_certificate_signature (forged id epoch t count a) = true.
Proof. apply sign_verifies. Qed.

Section Election.
Context `{!Ed25519SignLaws}.
Context (now epoch t count required : Z) (p : LeaderElectionProposal).

(** Collecting certificates for [p], those of [names] so far. *)
Definition collecting (names : list string) (w : World) : Prop :=
  election_state (cons w) = Collecting /\ leader_proposals (cons w) = {[e_id p := p]} /\
  fst <$> calculate_dynamic_quorum bft (cons w) = Some required /\
  (forall start, election_start (cons w) = Some start -> wrap U64_MAX (secs now - start) <= LEADER_ELECTION_TIMEOUT_SECS) /\
  default [] (leader_certificates (cons w) !! e_id p) = forged (e_id p) epoch t count <$> names.

Lemma eligible_forged c names :
  leader_proposals c = {[e_id p := p]} -> leader_certificates c !! e_id p = Some (forged (e_id p) epoch t count <$> names) ->
  eligible c required = if required <=? Z.of_nat (length names) then [p] else [].
Proof.
  intros Hp Hc. unfold eligible. rewrite Hp, map_to_list_singleton.
  assert (Hh : hash_order [(e_id p, p)] = [(e_id p, p)]) by (apply Permutation_singleton_r, hash_order_perm).
  rewrite Hh. cbn [filter list_filter fst]. rewrite Hc. unfold verified_certs.
  rewrite filter_keep_all by by apply Forall_fmap, Forall_true. rewrite length_fmap. by destruct (_ <=? _).
Qed.

(** One certificate more; the last one elects. *)
Lemma certificate_step names a w :
  collecting names w -> a ∉ names ->
  exists w', on_message now (MsgElectionCertificate (forged (e_id p) epoch t count a)) w = (Ok [], w') /\
    if required <=? Z.of_nat (S (length names)) then election_state (cons w') = Elected (e_proposer p) (e_id p)
    else collecting (names ++ [a]) w'.
Proof.
  intros (Hst & Hp & Hq & Hs & Hc) Ha. unfold on_masternode_message, process_leader_election_certificate. rewrite forged_verifies.
  unfold add_certificate, try_resolve_leader_election. grun. cbn [negb cons upd_election election_state]. rewrite Hst.
  match goal with |- context [calculate_dynamic_quorum bft ?c] => rewrite (quorum_ext c (cons w)) by done; set (c1 := c) end.
  destruct (calculate_dynamic_quorum bft (cons w)) as [[r act]|] eqn:E; [|done]. injection Hq as ->. rewrite bool_decide_eq_true_2 by done. cbn [negb].
  assert (Hl : leader_certificates c1 !! e_id p = Some (forged (e_id p) epoch t count <$> names ++ [a])).
  { unfold c1. cbn. rewrite lookup_partial_alter_eq, Hc. destruct (existsb _ _) eqn:Hex; [|by rewrite fmap_app].
    apply existsb_exists in Hex as (x & Hx%list_elem_of_In & Heq%bool_decide_eq_true). apply list_elem_of_fmap in Hx as (b & -> & Hb). cbn in Heq. by subst b. }
  rewrite (eligible_forged c1 (names ++ [a])) by done. 
  replace (length (names ++ [a])) with (S (length names)) by (rewrite length_app; simpl; lia).
  destruct (required <=? Z.of_nat (S (length names))) eqn:Hr; cbv beta iota zeta.
  - eexists. split; [reflexivity|]. done.
  - cbn [merge_sort merge_sort_aux]. destruct (election_start c1) as [start|] eqn:Est.
    + assert (Hto : (LEADER_ELECTION_TIMEOUT_SECS <? wrap U64_MAX (secs now - start)) = false) by (apply Z.ltb_ge; by apply Hs).
      cbn. rewrite Hto. eexists. split; [reflexivity|]. split_and!; [done|done|by rewrite (quorum_ext _ (cons w)), E|done|by cbn [cons]; rewrite Hl].
    + eexists. split; [reflexivity|]. split_and!; [done|done|by rewrite (quorum_ext _ (cons w)), E|done|by cbn [cons]; rewrite Hl].
Qed.

(** Certificates made without any key elect: from an election that collects
    them for a proposal, as many forged ones as the quorum asks, in the names
    of distinct masternodes, make its proposer the leader. *)
Theorem forged_certificates_elect names w :
  collecting [] w -> NoDup names -> Z.of_nat (length names) = required -> 0 < required ->
  exists w', deliver ((fun a => (now, MsgElectionCertificate (forged (e_id p) epoch t count a))) <$> names) w = (Ok tt, w') /\
    election_state (cons w') = Elected (e_proposer p) (e_id p).
Proof.
  intros Hw Hnd Hlen Hr.
  assert (Hgo : forall rest done_ w, collecting done_ w -> NoDup (done_ ++ rest) -> rest <> [] -> Z.of_nat (length (done_ ++ rest)) = required ->
    exists w', deliver ((fun a => (now, MsgElectionCertificate (forged (e_id p) epoch t count a))) <$> rest) w = (Ok tt, w') /\
      election_state (cons w') = Elected (e_proposer p) (e_id p)).
  { clear names w Hw Hnd Hlen Hr. induction rest as [|a rest IH]; intros l w Hw Hnd Hne Hlen; [done|].
    destruct (certificate_step l a w Hw) as (w' & Hm & Hw').
    { intros Ha. apply NoDup_app in Hnd as (_ & Hd & _). apply (Hd a Ha). left. }
    cbn [fmap list_fmap deliver]. unfold mbind, M_bind. rewrite Hm. cbv beta iota. rewrite length_app in Hlen. simpl in Hlen.
    destruct rest as [|b rest].
    - rewrite (proj2 (Z.leb_le _ _)) in Hw' by (simpl in Hlen; lia). exists w'. done.
    - rewrite (proj2 (Z.leb_gt _ _)) in Hw' by (simpl in Hlen; lia). apply (IH (l ++ [a])); [done|by rewrite <- app_assoc|done|].
      rewrite !length_app. simpl in *. lia. }
  apply (Hgo names [] w); [done..| |done]. intros ->. simpl in Hlen. lia.
Qed.
End Election.

(** *** Cleanup *)

Lemma fold_alter_none (f : LightNodeInfo -> LightNodeInfo) l (m : gmap string LightNodeInfo) i :
  fold_left (fun m i => alter f i m) l m !! i = None <-> m !! i = None.
Proof.
  revert m. induction l as [|x l IH]; intros m; [done|]. simpl. rewrite IH. destruct (decide (x = i)) as [->|].
  - rewrite lookup_alter_eq. by destruct (m !! i).
  - by rewrite lookup_alter_ne.
Qed.

(** A node whose last sign is from the near future (a clock ahead of this
    one) is dropped as one that timed out; one seen recently stays. *)
Theorem cleanup_by_clock now i n w :
  registered (mgr w) !! i = Some n -> 0 <= secs now <= U64_MAX -> 0 <= last_seen n <= U64_MAX -> 0 <= node_timeout_secs cfg ->
  (registered (mgr (cleanup_inactive cfg with_consensus now w).2) !! i = None <->
   if last_seen n <=? secs now then node_timeout_secs cfg <= secs now - last_seen n
   else last_seen n - secs now <= 2 ^ 64 - node_timeout_secs cfg).
Proof.
  intros Hi Hnow Hl Ht. unfold cleanup_inactive. grun. cbn [snd mgr upd_registered upd_groups registered].
  rewrite fold_alter_none, map_lookup_filter_None, Hi.
  assert (Hw : wrap U64_MAX (secs now - last_seen n) = if last_seen n <=? secs now then secs now - last_seen n else secs now - last_seen n + 2 ^ 64).
  { unfold wrap. change (U64_MAX + 1) with (2 ^ 64). unfold U64_MAX in *. destruct (Z.leb_spec (last_seen n) (secs now)).
    - apply Z.mod_small. lia.
    - rewrite <- (Z.mod_add _ 1) by done. rewrite Z.mul_1_l. apply Z.mod_small. lia. }
  transitivity (~ wrap U64_MAX (secs now - last_seen n) < node_timeout_secs cfg).
  - split; [intros [|Hno]; [done|by apply Hno]|]. intros Hno. right. by intros ? [= <-].
  - rewrite Hw. destruct (Z.leb_spec (last_seen n) (secs now)); lia.
Qed.
End Formation.
End GroupsC.
