(* ===== verification/GroupsWitness.v ===== *)
(** * Concrete runs of the masternodes' groups

    Six light nodes, three masternodes, and toy primitives that compute: the
    theorems of [GroupsCorrect] at these states. *)

From Stdlib Require Import Strings.Byte Strings.Ascii Strings.String.
From stdpp Require Import sorting pretty strings.
From S2P Require Import Prelude OrdMap Codec Primitives Float64 BlockStore BlockStm Proposals Groups GroupsCorrect.

Module GroupsW.
Import Groups GroupsC.

(** Digests are the messages, a key is its public key, a signature its
    message. *)
#[local] Instance toy_sha256 : Sha256 := {| sha256 := fun b => b |}.
#[local] Instance toy_sha512 : Sha512 := {| sha512 := fun b => b |}.
#[local] Instance toy_ed : Ed25519 := {| ed25519_verify := fun _ m s => bool_decide (m = s) |}.
#[local] Instance toy_sign : Ed25519Sign := {| public_key := fun k => k; ed25519_sign := fun _ m => m |}.
#[local] Instance toy_sign_laws : Ed25519SignLaws.
Proof. constructor. intros sk m. by apply bool_decide_eq_true. Qed.
#[local] Instance toy_order : HashOrder := {| hash_order := fun _ l => l |}.
#[local] Instance toy_order_laws : HashOrderLaws.
Proof. constructor. done. Qed.
#[local] Instance toy_pick : SeededPick := {| pick_from := fun _ _ => 0%nat |}.

Definition a_node (id : string) : LightNodeInfo :=
  mkNode id id "/ip4/1.2.3.4/tcp/5" "eu" F64.one [] 0 F64.one [] Free.
Definition six : list LightNodeInfo := a_node <$> ["a"; "b"; "c"; "d"; "e"; "f"].
Definition slots3 : SlotSchedulerConfig := mkSlots 1000 10 0 "m1".
Definition start : World :=
  mkWorld (upd_registered (fun _ => list_to_map ((fun n => (node_id n, n)) <$> six)) new_manager)
    (upd_ids ["m1"; "m2"; "m3"] ∅ (upd_available (fun _ => list_to_map ((fun n => (node_id n, n)) <$> six)) (new_consensus BftGroupConfig_default))).

Definition form_start : result GroupErr (list P2PGroup) * World :=
  form_groups GroupFormationConfig_default slots3 false 20000 (fun _ => 20000) true start.
(** Six nodes make one group, with every shard. *)
Lemma groups_partition_nodes_witness :
  match form_start.1 with
  | Ok gs => length gs = 1%nat /\
      concat (members <$> gs) ≡ₚ peer_id <$> placed GroupFormationConfig_default (map_to_list (registered (mgr start))).*2 /\
      exists i, (i < length gs)%nat /\ forall j g, gs !! j = Some g -> (65535 ∈ assigned_shards g <-> j = i)
  | Err _ => False
  end.
Proof.
  assert (Hlen : match form_start.1 with Ok gs => length gs = 1%nat | Err _ => False end) by (vm_compute; reflexivity).
  unfold form_start in *. destruct (form_groups _ _ _ _ _ _ _) as [[gs|e] w'] eqn:E; cbn [fst] in *; [|done].
  assert (Hne : gs <> []) by (by intros ->).
  destruct (groups_partition_nodes _ _ _ _ _ _ _ _ _ E Hne) as (Hp & _ & Hs). split_and!; [done|exact Hp|by apply Hs].
Defined.

(** The proposal of the first masternode, which reads the clock every 100 ms:
    the groups at 20.2 s, the timestamp at 20.4 s. *)
Definition readings : Clock := mkClock 20000 20100 (fun _ => 20200) 20300 20400 20500.
Definition made_proposal : result GroupErr (option GroupProposal) * World :=
  create_and_propose_groups GroupFormationConfig_default slots3 BftGroupConfig_default false readings start.

Lemma own_proposal_refused_witness :
  match made_proposal.1 with
  | Ok (Some p) => (process_proposal slots3 BftGroupConfig_default None 25000 p made_proposal.2).1 = Err InvalidProposal
  | _ => False
  end.
Proof.
  assert (Hsz : match made_proposal.1 with
                | Ok (Some p) => forallb (fun g => Z.of_nat (length (members g)) <? 2 ^ 53) (groups p) = true /\
                    created_at <$> head (groups p) = Some (p_timestamp p)
                | _ => False end) by (vm_compute; done).
  unfold made_proposal in *. destruct (create_and_propose_groups _ _ _ _ _ _) as [[[p|]|e] w'] eqn:E; cbn [fst snd] in *; [|done..].
  destruct Hsz as [Hsz Ht].
  apply (own_proposal_refused _ _ _ _ _ _ _ _ _ _ w' E).
  - apply Forall_forall. intros g Hg. rewrite forallb_forall in Hsz. apply Z.ltb_lt, Hsz. by apply list_elem_of_In.
  - done.
  - destruct (groups p) as [|g l]; [done|]. injection Ht as Ht. apply Exists_cons_hd. by left.
Defined.

(** The second masternode approves alone the groups of the first, received
    three times within ten seconds. *)
Definition slots2 : SlotSchedulerConfig := mkSlots 1000 10 0 "m2".
Definition its_proposal : GroupProposal :=
  mkProposal "p" 2 [mkGroup "g" ["a"; "b"; "c"; "d"; "e"] ∅ None None None 20 2 "eu" Forming F64.zero []] "m1" ["a"; "b"; "c"; "d"; "e"] 20 [].
Definition refusing : option (list P2PGroup -> Z -> bool) := Some (fun _ _ => false).

Lemma replayed_proposal_approved_witness :
  exists r w', deliver slots2 BftGroupConfig_default refusing ((fun now => (now, MsgProposal its_proposal)) <$> [21000; 24000; 29000]) start = (r, w') /\
    approved_by slots2 its_proposal [21000; 24000; 29000] start w'.
Proof.
  destruct (replayed_proposal_approved slots2 BftGroupConfig_default refusing [21000; 24000; 29000] its_proposal start 3 3) as (r & w' & Hr & _ & Hc).
  - vm_compute; reflexivity.
  - intros now Hnow. rewrite !elem_of_cons, elem_of_nil in Hnow. destruct Hnow as [->|[->|[->|[]]]]; split; vm_compute; done.
  - vm_compute; reflexivity.
  - vm_compute; reflexivity.
  - lia.
  - reflexivity.
  - exists r, w'. split; [exact Hr|exact Hc].
Defined.

(** Three votes for that proposal make a certificate. *)
Definition vote_of (m : string) : GroupVote := mkVote "p" m Approve 20 [].
Definition voted_start : World :=
  mkWorld (mgr start) (upd_proposals (fun _ => {["p" := its_proposal]}) (upd_votes (fun _ => {["p" := [vote_of "m1"; vote_of "m2"; vote_of "m3"]]}) (cons start))).
Lemma certificate_needs_two_thirds_witness :
  match (check_proposal_consensus BftGroupConfig_default 20000 "p" voted_start).1 with
  | Ok (Some cert) => (2 * length (c_votes cert) < 3 * approvals (c_votes cert))%nat
  | _ => False
  end.
Proof.
  assert (Hn : match (check_proposal_consensus BftGroupConfig_default 20000 "p" voted_start).1 with
               | Ok (Some cert) => length (c_votes cert) = 3%nat | _ => False end) by (vm_compute; reflexivity).
  destruct (check_proposal_consensus BftGroupConfig_default 20000 "p" voted_start) as [[[cert|]|e] u] eqn:E; cbn [fst] in *; [|done..].
  destruct (certificate_needs_two_thirds _ _ _ _ _ _ E) as (_ & _ & Ha & _); [done|done|by vm_compute|rewrite Hn; lia|exact Ha].
Defined.

(** Eleven registrations in one epoch leave ten nodes more. *)
Definition eleven : list (Z * LightNodeInfo * Z) :=
  (fun s => (20000, a_node s, 1000000)) <$> ["g"; "h"; "i"; "j"; "k"; "l"; "m"; "n"; "o"; "p"; "q"].
Lemma registrations_bounded_witness :
  size (registered (mgr (registrations GroupFormationConfig_default slots3 true eleven start))) = 16%nat /\
  Z.of_nat (size (registered (mgr (registrations GroupFormationConfig_default slots3 true eleven start)))) <= 6 + 10.
Proof.
  split; [vm_compute; reflexivity|].
  refine (registrations_bounded GroupFormationConfig_default slots3 true eleven start 2 _ _); [split; vm_compute; discriminate|].
  repeat constructor.
Defined.

(** Three certificates in the names of the masternodes elect "m3". *)
Definition its_election : LeaderElectionProposal := mkElection "e" "m3" 20 2 6 [] [].
Definition election_start_w : World :=
  mkWorld (mgr start) (upd_election Collecting {["e" := its_election]} ∅ (Some 20) (cons start)).
Lemma forged_certificates_elect_witness :
  exists w', deliver slots3 BftGroupConfig_default None
    ((fun a => (20000, MsgElectionCertificate (forged "e" 2 20 6 a))) <$> ["m1"; "m2"; "m3"]) election_start_w = (Ok tt, w') /\
    election_state (cons w') = Elected "m3" "e".
Proof.
  apply (forged_certificates_elect slots3 BftGroupConfig_default None 20000 2 20 6 3 its_election ["m1"; "m2"; "m3"]).
  - split_and!; [reflexivity|reflexivity|vm_compute; reflexivity| |reflexivity]. intros s [= <-]. vm_compute. discriminate.
  - apply (bool_decide_eq_true_1 (NoDup _)). vm_compute. reflexivity.
  - reflexivity.
  - lia.
Defined.
End GroupsW.
