(* ===== verification/Trie.v ===== *)
(** * The state trie of the storage crate

    [savitri-storage/src/storage/merkle_trie.rs]: the root of an ordered map,
    the proof of an entry and its verification.  An odd level is padded with
    the zero hash.  The loops over the levels run with the number of leaves as
    fuel; a level is at most half of the one below, rounded up. *)

From Stdlib Require Import Strings.Byte.
From S2P Require Import Prelude OrdMap Codec Merkle.

Module Trie.

Definition EMPTY_HASH : bytes := zeros 32.

Record MerkleProof := mkProof {
  key : bytes;
  value : bytes;
  leaf_index : nat;
  siblings : list bytes;
  root : bytes;
}.

Definition key_le (a b : bytes * bytes) : Prop := lex_leb a.1 b.1 = true.
#[global] Instance key_le_dec a b : Decision (key_le a b).
Proof. unfold key_le. apply _. Defined.

Section Ops.
Context `{Sha256}.

Definition hash_leaf (k v : bytes) : bytes := sha256 (bytes_of_string "LEAF" ++ k ++ v).
Definition hash_node (l r : bytes) : bytes := sha256 (bytes_of_string "NODE" ++ l ++ r).

(** One level above: [chunks(2)]. *)
Fixpoint next_level (level : list bytes) : list bytes :=
  match level with
  | x :: y :: level => hash_node x y :: next_level level
  | [x] => [hash_node x EMPTY_HASH]
  | [] => []
  end.

Fixpoint fold_levels (fuel : nat) (level : list bytes) : list bytes :=
  match fuel with
  | O => level
  | S fuel => if (1 <? length level)%nat then fold_levels fuel (next_level level) else level
  end.
Definition merkle_root_from_leaves (leaves : list bytes) : bytes :=
  match leaves with
  | [] => EMPTY_HASH
  | [x] => x
  | _ => default [] (head (fold_levels (length leaves) leaves))
  end.

(** The entries in the order of their keys. *)
Definition entries_of (m : gmap bytes bytes) : list (bytes * bytes) := merge_sort key_le (map_to_list m).
Definition leaves_of (m : gmap bytes bytes) : list bytes := (fun e : bytes * bytes => hash_leaf e.1 e.2) <$> entries_of m.

Definition compute_merkle_root (m : gmap bytes bytes) : bytes :=
  if bool_decide (m = ∅) then EMPTY_HASH else merkle_root_from_leaves (leaves_of m).
Definition compute_state_root_from_overlay_bytes (m : gmap bytes bytes) : bytes := compute_merkle_root m.

Fixpoint siblings_of (fuel : nat) (level : list bytes) (index : nat) : list bytes :=
  match fuel with
  | O => []
  | S fuel =>
      if (1 <? length level)%nat then
        let sibling_index := if (index mod 2 =? 0)%nat then (index + 1)%nat else (index - 1)%nat in
        default EMPTY_HASH (level !! sibling_index) :: siblings_of fuel (next_level level) (index / 2)
      else []
  end.
Definition collect_proof_siblings (leaves : list bytes) (leaf_index : nat) : list bytes :=
  siblings_of (length leaves) leaves leaf_index.

Definition generate_proof (m : gmap bytes bytes) (k : bytes) : option MerkleProof :=
  p ← list_find (fun e : bytes * bytes => e.1 = k) (entries_of m);
  v ← m !! k;
  mret (mkProof k v p.1 (collect_proof_siblings (leaves_of m) p.1) (merkle_root_from_leaves (leaves_of m))).

(** One turn of the loop of [verify_proof]. *)
Definition climb (acc : bytes * nat) (sibling : bytes) : bytes * nat :=
  (if (acc.2 mod 2 =? 0)%nat then hash_node acc.1 sibling else hash_node sibling acc.1, (acc.2 / 2)%nat).
Definition verify_proof (p : MerkleProof) : bool :=
  bool_decide ((fold_left climb (siblings p) (hash_leaf (key p) (value p), leaf_index p)).1 = root p).
End Ops.

(** ** Facts *)

Section Facts.
Context `{Sha256}.

Definition sibling_index (i : nat) : nat := if (i mod 2 =? 0)%nat then (i + 1)%nat else (i - 1)%nat.

Lemma half_step i : (2 <= i)%nat -> (i / 2 = S ((i - 2) / 2) /\ i mod 2 = (i - 2) mod 2)%nat.
Proof.
  intros Hi. replace i with (i - 2 + 1 * 2)%nat at 1 3 by lia. rewrite Nat.div_add, Nat.Div0.mod_add by done. split; [lia|done].
Qed.

(** The node above a node, from its sibling. *)
Lemma next_level_lookup level i h :
  level !! i = Some h ->
  next_level level !! (i / 2)%nat = Some (climb (h, i) (default EMPTY_HASH (level !! sibling_index i))).1.
Proof.
  revert i. induction level as [|x|x y level IH] using Merkle.two_ind; intros i Hi; [done| |].
  - destruct i; [|done]. by injection Hi as ->.
  - destruct i as [|[|i]]; [by injection Hi as ->..|]. simpl in Hi.
    destruct (half_step (S (S i))) as [Hd Hm]; [lia|]. replace (S (S i) - 2)%nat with i in * by lia.
    rewrite Hd. cbn [next_level].
    change ((hash_node x y :: next_level level) !! S (i / 2)%nat) with (next_level level !! (i / 2)%nat). rewrite (IH i Hi). unfold climb, sibling_index. cbn [fst snd]. rewrite Hm.
    destruct (Nat.eqb_spec (i mod 2) 0) as [E|E]; [done|]. assert (i <> 0)%nat by (by intros ->).
    replace (S (S i) - 1)%nat with (S (S (i - 1))) by lia. done.
Qed.

Lemma length_next_level level : (length (next_level level) = Nat.div2 (S (length level)))%nat.
Proof. induction level as [|x|x y level IH] using Merkle.two_ind; [done..|]. cbn [next_level length]. by rewrite IH. Qed.

Lemma climb_to_root fuel level i h :
  (length level <= fuel)%nat -> level !! i = Some h ->
  Some (fold_left climb (siblings_of fuel level i) (h, i)).1 = head (fold_levels fuel level).
Proof.
  revert level i h. induction fuel as [|fuel IH]; intros level i h Hl Hi; [apply lookup_lt_Some in Hi; lia|].
  cbn [siblings_of fold_levels]. destruct (Nat.ltb_spec 1 (length level)) as [H1|H1].
  - cbn [fold_left]. fold (sibling_index i). set (sib := default EMPTY_HASH (level !! sibling_index i)).
    assert (climb (h, i) sib = ((climb (h, i) sib).1, (i / 2)%nat)) as -> by done.
    apply IH; [|by apply next_level_lookup]. rewrite length_next_level. pose proof (Merkle.half_up_lt (length level) ltac:(lia)).
    unfold Merkle.half_up in *. lia.
  - destruct level as [|x [|]]; [done| |simpl in H1; lia]. destruct i; [by injection Hi as ->|done].
Qed.

Lemma root_is_fold leaves i h :
  leaves !! i = Some h -> Some (merkle_root_from_leaves leaves) = head (fold_levels (length leaves) leaves).
Proof.
  intros Hi. pose proof (climb_to_root (length leaves) leaves i h (le_n _) Hi) as Hc.
  destruct leaves as [|x [|y leaves]]; [done|done|]. unfold merkle_root_from_leaves.
  by destruct (head (fold_levels _ _)).
Qed.

Lemma elem_of_entries m k v : (k, v) ∈ entries_of m <-> m !! k = Some v.
Proof. unfold entries_of. by rewrite merge_sort_Permutation, elem_of_map_to_list. Qed.

(** C29: The proof of an entry exists exactly for the keys of the map; it names the
    value and the root of the map, and verifies. *)
Theorem trie_proof_verifies m k :
  match generate_proof m k with
  | Some p => m !! k = Some (value p) /\ key p = k /\ root p = compute_merkle_root m /\ verify_proof p = true
  | None => m !! k = None
  end.
Proof.
  unfold generate_proof. destruct (list_find _ (entries_of m)) as [[i [k' v']]|] eqn:Hf; simpl.
  - apply list_find_Some in Hf as (Hi & E & _). simpl in E. subst k'.
    assert (Hv : m !! k = Some v') by (apply elem_of_entries; by apply list_elem_of_lookup_2 in Hi).
    rewrite Hv. simpl. assert (Hl : leaves_of m !! i = Some (hash_leaf k v')) by (unfold leaves_of; by rewrite list_lookup_fmap, Hi).
    split_and!; [done|done| |].
    + unfold compute_merkle_root. rewrite bool_decide_eq_false_2; [done|]. intros ->. by rewrite lookup_empty in Hv.
    + unfold verify_proof. apply bool_decide_eq_true. cbn [siblings key value leaf_index root]. unfold collect_proof_siblings.
      pose proof (climb_to_root _ _ _ _ (le_n _) Hl) as Hc. rewrite <- (root_is_fold _ _ _ Hl) in Hc. by injection Hc.
  - apply list_find_None in Hf. destruct (m !! k) as [v|] eqn:Hv; [|done]. apply elem_of_entries in Hv.
    rewrite Forall_forall in Hf. by apply Hf in Hv.
Qed.

Lemma climb_inj x y i sib : (climb (x, i) sib).1 = (climb (y, i) sib).1 -> x = y \/ Merkle.collision.
Proof.
  unfold climb, hash_node. cbn [fst snd]. destruct (decide (x = y)) as [|Hne]; [by left|].
  intros E. right. destruct (_ =? 0)%nat; eexists _, _; (split; [|exact E]); intros E'%app_inv_head; apply Hne.
  - by apply app_inv_tail in E'.
  - by apply app_inv_head in E'.
Qed.
Lemma climbs_inj l x y i : (fold_left climb l (x, i)).1 = (fold_left climb l (y, i)).1 -> x = y \/ Merkle.collision.
Proof.
  revert x y i. induction l as [|sib l IH]; intros x y i E; [by left|]. cbn [fold_left] in E.
  change (climb (x, i) sib) with ((climb (x, i) sib).1, (i / 2)%nat) in E.
  change (climb (y, i) sib) with ((climb (y, i) sib).1, (i / 2)%nat) in E.
  apply IH in E as [E|]; [by apply climb_inj in E|by right].
Qed.

(** Two proofs that verify along the same path to the same root hash the same
    text, key and value joined, or exhibit a collision. *)
Theorem trie_proofs_bind p q :
  siblings p = siblings q -> leaf_index p = leaf_index q -> root p = root q -> verify_proof p = true -> verify_proof q = true ->
  key p ++ value p = key q ++ value q \/ Merkle.collision.
Proof.
  unfold verify_proof. intros Hs Hi Hr Hp%bool_decide_eq_true Hq%bool_decide_eq_true. rewrite Hs, Hi, Hr, <- Hq in Hp.
  apply climbs_inj in Hp as [E|]; [|by right]. unfold hash_leaf in E.
  destruct (decide (key p ++ value p = key q ++ value q)) as [|Hne]; [by left|]. right. eexists _, _. split; [|exact E].
  intros E'%app_inv_head. by apply Hne.
Qed.

(** The boundary between key and value is not hashed: a map with one entry has
    the root of another one, and the proof of an entry verifies with the end
    of its key moved to its value. *)
Theorem key_value_boundary_open a b c : compute_merkle_root {[a ++ b := c]} = compute_merkle_root {[a := b ++ c]}.
Proof.
  unfold compute_merkle_root. rewrite !bool_decide_eq_false_2 by apply map_non_empty_singleton.
  unfold leaves_of, entries_of. rewrite !map_to_list_singleton. simpl. unfold hash_leaf. by rewrite <- app_assoc.
Qed.
Theorem boundary_moves_in_proofs p a b :
  key p = a ++ b -> verify_proof p = true -> verify_proof (mkProof a (b ++ value p) (leaf_index p) (siblings p) (root p)) = true.
Proof. unfold verify_proof, hash_leaf. intros -> Hv. cbn. by rewrite <- app_assoc in Hv. Qed.
End Facts.
End Trie.
