(* ===== verification/Latency.v ===== *)
(** * Latency reports and the canonical latency table

    [savitri-consensus/src/types/latency_canon.rs] and [latency_table.rs]: the
    buckets of round trip times, the bytes a report signs, and the table every
    node rebuilds from the same reports: per group and peer the lower median
    of the last measurement of each reporter.  Then the buffer of reports a light
    node keeps, the report it publishes and the handlers of its messages. *)

From stdpp Require Import sorting strings.
From Stdlib Require Import Strings.Byte Strings.Ascii Strings.String.
From S2P Require Import Prelude OrdMap Codec Score Observations BlockStore BlockStm Proposals.

Module Latency.

Definition RTT_BUCKET_MS : Z := 5.
Definition RTT_BUCKET_MAX : Z := 255.
Definition bucket_from_rtt_ms (rtt_ms : Z) : Z :=
  let bucketed := rtt_ms / RTT_BUCKET_MS in
  if RTT_BUCKET_MAX <=? bucketed then RTT_BUCKET_MAX else wrap 255 bucketed.

Record PeerLatencyObservation := mkObs { peer_id : string; rtt_ms_bucket : Z; samples : Z }.
Record LatencyReport := mkReport {
  round : Z;
  group_id : string;
  reporter : string;
  observations : list PeerLatencyObservation;
  nonce : Z;
  reporter_pubkey : bytes;
  signature : bytes;
}.

Definition obs_bytes (o : PeerLatencyObservation) : bytes :=
  bytes_of_string (peer_id o) ++ [x3a] ++ to_le_bytes 1 (rtt_ms_bucket o) ++ [x3a] ++ to_le_bytes 1 (samples o) ++ [x2c].
Definition signable_bytes (r : LatencyReport) : bytes :=
  bytes_of_string "savitri-latency-canon-v1|" ++ to_le_bytes 8 (round r) ++ [x7c] ++ to_le_bytes 8 (nonce r) ++ [x7c]
  ++ bytes_of_string (group_id r) ++ [x7c] ++ bytes_of_string (reporter r) ++ [x7c] ++ concat (obs_bytes <$> observations r).
Definition verify_signature `{Ed25519} (r : LatencyReport) : bool :=
  ed25519_verify (reporter_pubkey r) (signable_bytes r) (signature r).

Definition MIN_SAMPLES : Z := 3.
Definition MIN_REPORTERS : nat := 2.
Definition WINDOW_SIZE : Z := 3.

Record LatencyTable := mkTable { entries : gmap (string * string) (option Z); last_update_round : Z }.
Definition LatencyTable_default : LatencyTable := mkTable ∅ 0.
Definition lookup_latency (t : LatencyTable) (g p : string) : option Z := mjoin (entries t !! (g, p)).
Definition defined_pair_count (t : LatencyTable) : nat :=
  length (filter (fun e : string * string * option Z => is_Some e.2) (map_to_list (entries t))).

Section Table.
Context `{HashOrder}.

(** What the reports of a group say of [target]: the last measurement of each
    reporter. *)
Definition note_obs (target rep : string) (m : gmap string Z) (o : PeerLatencyObservation) : gmap string Z :=
  if negb (bool_decide (peer_id o = target)) then m
  else if samples o <? MIN_SAMPLES then m
  else if bool_decide (rep = target) then m
  else <[rep := rtt_ms_bucket o]> m.
Definition by_reporter (rs : list LatencyReport) (target : string) : gmap string Z :=
  fold_left (fun m r => fold_left (note_obs target (reporter r)) (observations r) m) rs ∅.

(** [into_values().collect()], then [sort_unstable]. *)
Definition compute_canonical_bucket (rs : list LatencyReport) (target : string) : option Z :=
  let m := by_reporter rs target in
  if (size m <? MIN_REPORTERS)%nat then None
  else
    let buckets := merge_sort Z.le (hash_order (map_to_list m)).*2 in
    buckets !! ((length buckets - 1) / 2)%nat.

(** The reports outside the window are skipped. *)
Definition too_old (window_end window_size : Z) (r : LatencyReport) : bool :=
  (wrap U64_MAX (round r + window_size) <? wrap U64_MAX (window_end + 1)) && negb (round r =? window_end)
  && (window_size <? saturating_sub window_end (round r)).
Definition group_reports (rs : list LatencyReport) (g : string) : list LatencyReport := filter (fun r => group_id r = g) rs.
Definition targets (rs : list LatencyReport) : list string := remove_dups (concat ((fun r => peer_id <$> observations r) <$> rs)).
(** The keys are distinct, so the order of the groups does not matter. *)
Definition rebuild_from_reports (reports : list LatencyReport) (window_end window_size : Z) : LatencyTable :=
  let rs := filter (fun r => too_old window_end window_size r = false) reports in
  let add_group (m : gmap (string * string) (option Z)) (g : string) :=
    let gs := group_reports rs g in
    fold_left (fun m t => <[(g, t) := compute_canonical_bucket gs t]> m) (targets gs) m in
  mkTable (fold_left add_group (hash_order (remove_dups (group_id <$> rs))) ∅) window_end.
End Table.
End Latency.

(** ** What the latency table promises

    Every entry is the lower median of its reporters, which a minority cannot
    move out of the range of the others; the table does not depend on the
    order of the reports as long as no reporter speaks twice, and on nothing
    but the reports; the signed bytes do not determine the report. *)

Module LatC.
Import Latency.

Lemma bucket_range rtt : 0 <= rtt -> 0 <= bucket_from_rtt_ms rtt <= 255 /\ (rtt < 1275 -> bucket_from_rtt_ms rtt = rtt / 5).
Proof.
  intros Hr. unfold bucket_from_rtt_ms, RTT_BUCKET_MAX, RTT_BUCKET_MS, wrap. destruct (Z.leb_spec 255 (rtt / 5)).
  - split; [lia|]. intros. assert (rtt / 5 < 255) by (apply Z.div_lt_upper_bound; lia). lia.
  - rewrite Z.mod_small by (pose proof (Z.div_pos rtt 5); lia). pose proof (Z.div_pos rtt 5). lia.
Qed.

(** *** The lower median *)

Lemma sorted_around (l : list Z) i b :
  Sorted Z.le l -> l !! i = Some b -> Forall (fun x => x <= b) (take (S i) l) /\ Forall (fun x => b <= x) (drop i l).
Proof.
  intros Hs Hi. apply (Sorted_StronglySorted _) in Hs.
  revert i Hi. induction Hs as [|x l Hs IH Hx]; intros i Hi; [done|]. destruct i as [|i]; simpl in *.
  - injection Hi as ->. split; [constructor; [lia|]; by rewrite take_0|]. constructor; [lia|done].
  - destruct (IH i Hi) as [Ht Hd]. split; [|done]. constructor; [|done].
    rewrite Forall_forall in Hx. apply Hx. by eapply list_elem_of_lookup_2.
Qed.
Lemma filter_length_all {A} (P : A -> Prop) `{forall x, Decision (P x)} l : Forall P l -> length (filter P l) = length l.
Proof. induction 1 as [|x l Hx Hl IH]; [done|]. rewrite filter_cons, decide_True by done. simpl. by rewrite IH. Qed.

Definition inside (lo hi x : Z) : Prop := lo <= x <= hi.
Lemma median_inside (l : list Z) lo hi b :
  Sorted Z.le l -> l !! ((length l - 1) / 2)%nat = Some b -> (2 * length (filter (fun x => ~ inside lo hi x) l) < length l)%nat ->
  inside lo hi b.
Proof.
  set (i := ((length l - 1) / 2)%nat). intros Hs Hi Hm. destruct (sorted_around l i b Hs Hi) as [Ht Hd].
  pose proof (lookup_lt_Some _ _ _ Hi) as Hlt. assert (Hi2 : (2 * i <= length l - 1 /\ length l - 1 <= 2 * i + 1)%nat).
  { unfold i. pose proof (Nat.div_mod_eq (length l - 1) 2). pose proof (Nat.mod_upper_bound (length l - 1) 2). lia. }
  destruct (decide (inside lo hi b)) as [|Ho]; [done|]. exfalso. destruct (decide (b < lo)) as [Hb|Hb].
  - assert (Hf : (length (filter (fun x => ~ inside lo hi x) (take (S i) l)) = S i)%nat).
    { rewrite filter_length_all; [rewrite length_take; lia|]. eapply Forall_impl; [exact Ht|]. unfold inside. simpl. lia. }
    rewrite <- (take_drop (S i) l), filter_app, length_app, Hf in Hm. rewrite take_drop in Hm. lia.
  - assert (Hf : (length (filter (fun x => ~ inside lo hi x) (drop i l)) = length l - i)%nat).
    { rewrite filter_length_all; [by rewrite length_drop|]. eapply Forall_impl; [exact Hd|]. unfold inside in *. simpl. lia. }
    rewrite <- (take_drop i l), filter_app, length_app, Hf in Hm. rewrite take_drop in Hm. lia.
Qed.

Section Table.
Context `{HashOrder, !HashOrderLaws}.

(** The measurements of the reporters. *)
Definition measured (rs : list LatencyReport) (target : string) : list Z := (map_to_list (by_reporter rs target)).*2.

Lemma canonical_spec rs target :
  match compute_canonical_bucket rs target with
  | None => (size (by_reporter rs target) < MIN_REPORTERS)%nat
  | Some b => exists l, l ≡ₚ measured rs target /\ Sorted Z.le l /\ l !! ((length l - 1) / 2)%nat = Some b
  end.
Proof.
  unfold compute_canonical_bucket. destruct (Nat.ltb_spec (size (by_reporter rs target)) MIN_REPORTERS) as [|Hm]; [done|].
  set (l := merge_sort Z.le (hash_order (map_to_list (by_reporter rs target))).*2).
  assert (Hl : l ≡ₚ measured rs target) by (unfold l, measured; by rewrite merge_sort_Permutation, hash_order_perm).
  assert (Hlen : length l = size (by_reporter rs target)) by (rewrite Hl; unfold measured; rewrite length_fmap; apply length_map_to_list).
  destruct (lookup_lt_is_Some_2 l ((length l - 1) / 2)%nat) as [b Hb].
  { unfold MIN_REPORTERS in Hm. assert ((length l - 1) / 2 <= length l - 1)%nat by (apply Nat.Div0.div_le_upper_bound; lia). lia. }
  rewrite Hb. exists l. split_and!; [done|apply Sorted_merge_sort; intros x y; lia|done].
Qed.

(** C31: The bucket of a peer stays within any range that more than half of its
    reporters measured; there is one as soon as two reporters measured. *)
Theorem median_resists_minority rs target lo hi b :
  compute_canonical_bucket rs target = Some b ->
  (2 * length (filter (fun x => ~ inside lo hi x) (measured rs target)) < length (measured rs target))%nat ->
  inside lo hi b.
Proof.
  intros Hb Hm. pose proof (canonical_spec rs target) as Hc. rewrite Hb in Hc. destruct Hc as (l & Hl & Hs & Hi).
  apply (median_inside l); [done|done|]. by rewrite Hl.
Qed.

(** *** The window *)

Lemma window_spec window_end window_size r :
  0 <= round r -> 0 <= window_size -> 0 <= window_end < U64_MAX -> round r + window_size <= U64_MAX ->
  too_old window_end window_size r = (round r + window_size <? window_end).
Proof.
  intros Hr Hw He Hs. unfold too_old, wrap, saturating_sub. rewrite !Z.mod_small by lia.
  destruct (Z.ltb_spec (round r + window_size) window_end), (Z.ltb_spec (round r + window_size) (window_end + 1)), (Z.eqb_spec (round r) window_end),
    (Z.ltb_spec window_size (Z.max 0 (window_end - round r))); simpl; lia.
Qed.

(** *** The table *)

Lemma fold_insert_lookup {V} (g : string) (f : string -> V) (ts : list string) (m : gmap (string * string) V) (g' t : string) :
  fold_left (fun m t => <[(g, t) := f t]> m) ts m !! (g', t) = if bool_decide (g' = g /\ t ∈ ts) then Some (f t) else m !! (g', t).
Proof.
  revert m. induction ts as [|x ts IH]; intros m; cbn [fold_left].
  - rewrite bool_decide_eq_false_2; [done|]. intros [_ Hx]. by apply not_elem_of_nil in Hx.
  - rewrite IH. destruct (decide (g' = g /\ t ∈ ts)) as [[-> Hin]|Hn].
    + rewrite !bool_decide_eq_true_2; [done| |done]. split; [done|by right].
    + rewrite (bool_decide_eq_false_2 (g' = g /\ t ∈ ts)) by done. destruct (decide (g' = g /\ t = x)) as [[-> ->]|Hn'].
      * rewrite lookup_insert_eq, bool_decide_eq_true_2; [done|]. split; [done|left].
      * rewrite lookup_insert_ne by (intros [= -> ->]; by apply Hn'). rewrite bool_decide_eq_false_2; [done|].
        intros [-> [->|Hin]%elem_of_cons]; [by apply Hn'|by apply Hn].
Qed.

Definition windowed (reports : list LatencyReport) (e w : Z) : list LatencyReport := filter (fun r => too_old e w r = false) reports.

Lemma fold_groups_lookup (rs : list LatencyReport) (gs : list string) (m : gmap (string * string) (option Z)) (g t : string) :
  fold_left (fun m g => let gr := group_reports rs g in fold_left (fun m t => <[(g, t) := compute_canonical_bucket gr t]> m) (targets gr) m) gs m !! (g, t) =
  if bool_decide (g ∈ gs /\ t ∈ targets (group_reports rs g)) then Some (compute_canonical_bucket (group_reports rs g) t) else m !! (g, t).
Proof.
  revert m. induction gs as [|x gs IH]; intros m; cbn [fold_left].
  - rewrite bool_decide_eq_false_2; [done|]. intros [Hx _]. by apply not_elem_of_nil in Hx.
  - rewrite IH, fold_insert_lookup. destruct (decide (t ∈ targets (group_reports rs g))) as [Ht|Ht].
    + destruct (decide (g ∈ gs)) as [Hg|Hg]; [rewrite !bool_decide_eq_true_2; [done|split; [by right|done]|done]|].
      rewrite (bool_decide_eq_false_2 (g ∈ gs /\ _)) by tauto. destruct (decide (g = x)) as [->|Hne].
      * rewrite !bool_decide_eq_true_2; [done|split; [left|done]|done].
      * rewrite !bool_decide_eq_false_2; [done| |tauto]. intros [[->|?]%elem_of_cons _]; tauto.
    + rewrite !bool_decide_eq_false_2; [done| | |]; try tauto. intros [-> ?]. done.
Qed.

(** The table has an entry for a group and a peer exactly when a report of the
    group in the window mentions the peer, and the entry is its bucket. *)
Theorem table_entries (reports : list LatencyReport) (e w : Z) (g t : string) :
  entries (rebuild_from_reports reports e w) !! (g, t) =
  let rs := group_reports (windowed reports e w) g in
  if bool_decide (Exists (fun r => t ∈ peer_id <$> observations r) rs) then Some (compute_canonical_bucket rs t) else None.
Proof.
  unfold rebuild_from_reports. cbn [entries]. fold (windowed reports e w). set (rs := windowed reports e w).
  rewrite fold_groups_lookup, lookup_empty. cbv zeta.
  assert (Ht : t ∈ targets (group_reports rs g) <-> exists r, r ∈ group_reports rs g /\ t ∈ peer_id <$> observations r).
  { unfold targets. rewrite elem_of_remove_dups, list_elem_of_In, in_concat. split.
    - intros (l & Hl%list_elem_of_In & Hin%list_elem_of_In). apply list_elem_of_fmap in Hl as (r & -> & Hr). by exists r.
    - intros (r & Hr & Hin). exists (peer_id <$> observations r). split; apply list_elem_of_In; [|done]. apply list_elem_of_fmap. by exists r. }
  apply (f_equal (fun b : bool => if b then _ else _)). apply bool_decide_ext. rewrite Ht, Exists_exists. split; [tauto|]. intros (r & Hr & Hin). split; [|by exists r].
  rewrite hash_order_perm, elem_of_remove_dups. apply list_elem_of_filter in Hr as [<- Hr]. by apply list_elem_of_fmap_2.
Qed.

(** *** The order of the reports *)

Definition note_report (target : string) (m : gmap string Z) (r : LatencyReport) : gmap string Z :=
  fold_left (note_obs target (reporter r)) (observations r) m.

(** What one report says of a peer. *)
Definition said (target : string) (r : LatencyReport) : option Z :=
  fold_left (fun o ob => if negb (bool_decide (peer_id ob = target)) then o else if samples ob <? MIN_SAMPLES then o
                         else if bool_decide (reporter r = target) then o else Some (rtt_ms_bucket ob)) (observations r) None.

Lemma note_report_lookup target m r k :
  note_report target m r !! k = if bool_decide (k = reporter r) then (match said target r with Some b => Some b | None => m !! k end) else m !! k.
Proof.
  unfold note_report, said. set (f := fun (o : option Z) ob => _).
  assert (Hgen : forall obs m o, o = None \/ m !! reporter r = o ->
    fold_left (note_obs target (reporter r)) obs m !! k =
    if bool_decide (k = reporter r) then (match fold_left f obs o with Some b => Some b | None => m !! k end) else m !! k).
  2: { apply Hgen. by left. }
  clear m. induction obs as [|ob obs IH]; intros m o Ho; cbn [fold_left].
  { case_bool_decide as Hk; [|done]. subst k. destruct Ho as [->|<-]; [done|by destruct (m !! reporter r)]. }
  unfold note_obs at 2, f at 2. destruct (negb _); [by apply IH|]. destruct (samples ob <? MIN_SAMPLES); [by apply IH|].
  destruct (bool_decide (reporter r = target)); [by apply IH|]. rewrite (IH _ (Some (rtt_ms_bucket ob))) by (right; apply lookup_insert_eq).
  case_bool_decide as Hk; [|by rewrite lookup_insert_ne].
  subst k. rewrite lookup_insert_eq. assert (Hs : forall obs b, exists c, fold_left f obs (Some b) = Some c).
  { clear. induction obs as [|ob obs IH]; intros b; [by eexists|]. cbn [fold_left]. unfold f at 2.
    destruct (negb _), (samples ob <? MIN_SAMPLES); apply IH. }
  by destruct (Hs obs (rtt_ms_bucket ob)) as [c ->].
Qed.

Lemma by_reporter_perm target rs rs' m :
  rs ≡ₚ rs' -> NoDup (reporter <$> rs) -> fold_left (note_report target) rs m = fold_left (note_report target) rs' m.
Proof.
  intros Hp. revert m. induction Hp as [|x l l' Hp IH|x y l|l l' l'' H1 IH1 H2 IH2]; intros m Hnd; [done| | |].
  - cbn [fold_left]. apply IH. by apply NoDup_cons in Hnd as [_ Hnd].
  - cbn [fold_left]. f_equal. apply map_eq. intros k. rewrite !note_report_lookup.
    apply NoDup_cons in Hnd as [Hn _]. assert (reporter y <> reporter x) by (intros E; apply Hn; rewrite E; left).
    repeat case_bool_decide; congruence.
  - rewrite IH1 by done. apply IH2. by rewrite <- H1.
Qed.

(** When no reporter speaks twice, the bucket of a peer does not depend on the
    order in which the reports arrived. *)
Theorem bucket_ignores_order rs rs' target :
  rs ≡ₚ rs' -> NoDup (reporter <$> rs) -> compute_canonical_bucket rs target = compute_canonical_bucket rs' target.
Proof.
  intros Hp Hnd. unfold compute_canonical_bucket. enough (by_reporter rs target = by_reporter rs' target) as -> by done.
  by apply (by_reporter_perm target).
Qed.
End Table.

(** A reporter that speaks twice makes the table depend on the order. *)
Definition fast (rep : string) (b : Z) : LatencyReport := mkReport 1 "g" rep [mkObs "p" b 3] 0 [] [].
Theorem order_matters `{HashOrder, !HashOrderLaws} :
  compute_canonical_bucket [fast "a" 1; fast "a" 9; fast "b" 9] "p" = Some 9 /\
  compute_canonical_bucket [fast "a" 9; fast "a" 1; fast "b" 9] "p" = Some 1.
Proof.
  assert (Hc : forall rs x y, measured rs "p" ≡ₚ [x; y] -> x <= y -> compute_canonical_bucket rs "p" = Some x).
  { intros rs x y Hm Hxy. pose proof (canonical_spec rs "p") as Hs. destruct (compute_canonical_bucket rs "p") as [b|].
    - destruct Hs as (l & Hl & Hsort & Hi). rewrite Hm in Hl. assert (l = [x; y]) as ->; [|done].
      apply (Sorted_unique Z.le); [done| |done]. repeat constructor; done.
    - unfold MIN_REPORTERS in Hs. rewrite <- length_map_to_list in Hs. apply Permutation_length in Hm. unfold measured in Hm.
      rewrite length_fmap in Hm. simpl in Hm. lia. }
  split.
  - apply (Hc _ 9 9); [|lia]. vm_compute. done.
  - apply (Hc _ 1 9); [|lia]. vm_compute. done.
Qed.

#[local] Instance in_order : HashOrder := {| hash_order := fun _ l => l |}.
#[local] Instance in_order_laws : HashOrderLaws.
Proof. constructor. done. Qed.
(** Two of three reporters measured the first bucket. *)
Lemma median_resists_minority_witness :
  compute_canonical_bucket [fast "a" 1; fast "b" 1; fast "c" 200] "p" = Some 1 /\ inside 0 1 1.
Proof.
  split; [vm_compute; reflexivity|].
  apply (median_resists_minority [fast "a" 1; fast "b" 1; fast "c" 200] "p"); [vm_compute; reflexivity|].
  apply Nat.ltb_lt. vm_compute. reflexivity.
Defined.

(** A reader of the signed bytes cannot tell where the group ends and the
    reporter begins: one signature is valid for both reports. *)
Theorem signed_bytes_ambiguous `{Ed25519} r g a b c :
  group_id r = (g ++ "|" ++ a)%string -> reporter r = (b ++ "|" ++ c)%string ->
  let r' := mkReport (round r) g (a ++ "|" ++ b ++ "|" ++ c)%string (observations r) (nonce r) (reporter_pubkey r) (signature r) in
  signable_bytes r' = signable_bytes r /\ verify_signature r' = verify_signature r.
Proof.
  intros Hg Hr r'. assert (Happ : forall x y, bytes_of_string (x ++ y)%string = bytes_of_string x ++ bytes_of_string y).
  { intros x y. induction x as [|ch x IH]; [done|]. change (bytes_of_string (String ch x ++ y)) with (byte_of_ascii ch :: bytes_of_string (x ++ y)).
    by rewrite IH. }
  assert (Hb : signable_bytes r' = signable_bytes r).
  { unfold signable_bytes. cbn [group_id reporter round nonce observations r']. rewrite Hg, Hr, !Happ, <- !app_assoc. done. }
  split; [done|]. unfold verify_signature. by rewrite Hb.
Qed.
End LatC.

(** ** The buffer of reports on a light node

    [savitri-lightnode/src/latency_canon_state.rs], the report built by
    [latency_canon_publisher.rs], [build_canon_observations] of
    [savitri-consensus/src/scoring/observations.rs], and the handlers
    [process_latency_canon_message] and [rebuild_latency_canon_table] of
    [p2p/intra_group/mod.rs] on a node with an installed state holder.  JSON
    is a parameter. *)

Class ReportJson := { report_to_json : Latency.LatencyReport -> bytes; report_from_json : bytes -> option Latency.LatencyReport }.
Class ReportJsonLaws `{ReportJson} : Prop := { report_json_roundtrip : forall r, report_from_json (report_to_json r) = Some r }.

Module LatState.
Import Latency.

Definition MAX_BUFFERED_REPORTS : nat := 512.
Definition LATENCY_CANON_PUBLISH_INTERVAL_SECS : Z := 10.
Definition WALL_CLOCK_BUCKET_SECS : Z := LATENCY_CANON_PUBLISH_INTERVAL_SECS.

Record LatencyCanonState := mkState { buffer : list LatencyReport; cached : option LatencyTable }.
Definition new : LatencyCanonState := mkState [] None.

Definition ingest_report (r : LatencyReport) (s : LatencyCanonState) : LatencyCanonState :=
  let b := if (MAX_BUFFERED_REPORTS <=? length (buffer s))%nat then tail (buffer s) else buffer s in
  mkState (b ++ [r]) None.

Definition current_wall_clock_bucket (now_secs : Z) : Z := now_secs / WALL_CLOCK_BUCKET_SECS.
Definition lookup_bucket (g p : string) (s : LatencyCanonState) : option Z := t ← cached s; lookup_latency t g p.
Definition buffered_count (s : LatencyCanonState) : nat := length (buffer s).
Definition bucket_to_score (bucket : Z) : Z := saturating_sub 1000 (saturating_mul 65535 bucket 5).
Definition lookup_score (g p : string) (s : LatencyCanonState) : Z :=
  match lookup_bucket g p s with Some b => bucket_to_score b | None => 1000 end.

(** The observations a node publishes. *)
Definition canon_observation (cutoff : Z) (p : string * Obs.PeerObservations) : option PeerLatencyObservation :=
  let rtts := Obs.ls_rtt_ms <$> Obs.recent Obs.ls_ts_secs cutoff (Obs.latency p.2) in
  median ← merge_sort Z.le rtts !! ((length rtts - 1) / 2)%nat;
  mret (mkObs p.1 (bucket_from_rtt_ms median) (Z.min 255 (Z.of_nat (length rtts)))).
Definition peer_le (a b : PeerLatencyObservation) : Prop := lex_leb (bytes_of_string (peer_id a)) (bytes_of_string (peer_id b)) = true.
#[global] Instance peer_le_dec a b : Decision (peer_le a b).
Proof. unfold peer_le. apply _. Defined.

Section Handlers.
Context `{HashOrder, Ed25519, Ed25519Sign, ReportJson}.

(** [rebuild_with] reads the buffer under one lock and stores the table under
    another; between the two other threads may ingest reports. *)
Definition table_of (window_end window_size : Z) (s : LatencyCanonState) : LatencyTable :=
  rebuild_from_reports (buffer s) window_end window_size.
Definition store_table (t : LatencyTable) (s : LatencyCanonState) : LatencyCanonState := mkState (buffer s) (Some t).
Definition rebuild_with (window_end window_size : Z) (s : LatencyCanonState) : LatencyTable * LatencyCanonState :=
  let t := table_of window_end window_size s in (t, store_table t s).
Definition rebuild (current_round : Z) (s : LatencyCanonState) : LatencyTable * LatencyCanonState := rebuild_with current_round WINDOW_SIZE s.

Definition build_canon_observations (now : Z) (store : Obs.ObservationStore) (exclude_self : string) : list PeerLatencyObservation :=
  let cutoff := saturating_sub now (Obs.window_secs store) in
  merge_sort peer_le (omap (canon_observation cutoff)
    (filter (fun p : string * Obs.PeerObservations => p.1 <> exclude_self) (hash_order (map_to_list (Obs.inner store))))).

Definition sign_report (signing_key : bytes) (r : LatencyReport) : LatencyReport :=
  mkReport (round r) (group_id r) (reporter r) (observations r) (nonce r) (reporter_pubkey r) (ed25519_sign signing_key (signable_bytes r)).
(** One tick of the publisher, for the group and round it was given. *)
Definition publish_tick (now now_ms : Z) (local_peer_id : string) (signing_key : bytes) (store : Obs.ObservationStore)
    (group_and_round : option (string * Z)) : option (string * bytes) :=
  g ← group_and_round;
  match build_canon_observations now store local_peer_id with
  | [] => None
  | observations =>
      let report := sign_report signing_key (mkReport g.2 g.1 local_peer_id observations now_ms (public_key signing_key) (zeros 64)) in
      Some ("/savitri/group/" +:+ g.1 +:+ "/latency_canon/1", report_to_json report)
  end.

(** The handler of a message; [local_group] is empty without a group. *)
Definition process_latency_canon_message (local_group : string) (data : bytes) (s : LatencyCanonState) : LatencyCanonState :=
  match report_from_json data with
  | None => s
  | Some report =>
      if negb (verify_signature report) then s
      else if negb (bool_decide (local_group = "")) && negb (bool_decide (group_id report = local_group)) then s
      else ingest_report report s
  end.
Definition rebuild_latency_canon_table (now_secs : Z) (s : LatencyCanonState) : nat * LatencyCanonState :=
  let '(t, s') := rebuild (current_wall_clock_bucket now_secs) s in (defined_pair_count t, s').
End Handlers.
End LatState.

Module LatStateC.
Import Latency LatC LatState.

Lemma bucket_to_score_exact b : 0 <= b <= 255 -> bucket_to_score b = Z.max 0 (1000 - 5 * b).
Proof. intros Hb. unfold bucket_to_score, saturating_sub, saturating_mul. lia. Qed.

(** The buffer holds the last 512 reports, in the order of their arrival. *)
Theorem buffer_is_last_512 rs s :
  (length (buffer s) <= MAX_BUFFERED_REPORTS)%nat ->
  buffer (fold_left (fun s r => ingest_report r s) rs s) = drop (length (buffer s ++ rs) - MAX_BUFFERED_REPORTS) (buffer s ++ rs).
Proof.
  revert s. induction rs as [|r rs IH]; intros s Hs; cbn [fold_left].
  { rewrite app_nil_r. by replace (length (buffer s) - MAX_BUFFERED_REPORTS)%nat with 0%nat by lia. }
  unfold MAX_BUFFERED_REPORTS in *. rewrite IH; unfold ingest_report, MAX_BUFFERED_REPORTS; cbn [buffer].
  - destruct (Nat.leb_spec 512 (length (buffer s))) as [Hl|Hl]; [|by rewrite <- app_assoc].
    destruct (buffer s) as [|x l]; [simpl in Hl; lia|]. cbn [tail]. cbn [length] in Hs, Hl. rewrite <- app_assoc. cbn [app].
    rewrite !length_app in *. cbn [length]. rewrite !length_app. cbn [length].
    replace (S (length l + S (length rs)) - 512)%nat with (S (length l + S (length rs) - 512)) by lia. done.
  - destruct (Nat.leb_spec 512 (length (buffer s))); rewrite length_app; cbn [length]; [|lia]. destruct (buffer s); cbn in *; lia.
Qed.

Section Handlers.
Context `{HashOrder, !HashOrderLaws, Ed25519, Ed25519Sign, !Ed25519SignLaws, ReportJson, !ReportJsonLaws}.

Lemma signed_verifies sk r : reporter_pubkey r = public_key sk -> verify_signature (sign_report sk r) = true.
Proof. intros Hp. unfold verify_signature. cbn [reporter_pubkey signature sign_report]. rewrite Hp. apply sign_verifies. Qed.

Lemma process_signed sk r g s : reporter_pubkey r = public_key sk -> group_id r = g ->
  process_latency_canon_message g (report_to_json (sign_report sk r)) s = ingest_report (sign_report sk r) s.
Proof.
  intros Hp Hg. unfold process_latency_canon_message. rewrite report_json_roundtrip, signed_verifies by done. cbn [negb group_id sign_report].
  rewrite Hg, (bool_decide_eq_true_2 (g = g)) by done. cbn [negb]. by rewrite andb_false_r.
Qed.

(** What a node publishes for its group, every node of the group buffers. *)
Theorem published_is_ingested now now_ms id sk store g round topic data s :
  publish_tick now now_ms id sk store (Some (g, round)) = Some (topic, data) ->
  exists r, process_latency_canon_message g data s = ingest_report r s /\ reporter r = id /\ group_id r = g /\
    observations r = build_canon_observations now store id /\ verify_signature r = true.
Proof.
  unfold publish_tick. cbn. destruct (build_canon_observations now store id) as [|o os] eqn:Ho; [done|]. intros [= _ <-].
  eexists. rewrite process_signed by done. split_and!; [done..|]. by apply signed_verifies.
Qed.

(** A report between the two locks of [rebuild_with] is not in the table that
    stays cached, although every report is said to clear the cache. *)
Lemma stale_table_survives e w r s :
  let t := table_of e w s in cached (store_table t (ingest_report r s)) = Some (rebuild_from_reports (buffer s) e w).
Proof. done. Qed.

(** After a report no score is known, and every node scores 1000. *)
Lemma report_resets_scores r s g p : lookup_score g p (ingest_report r s) = 1000.
Proof. done. Qed.

(** *** Reports in invented names *)

Definition forged (sk : bytes) (round : Z) (g t : string) (b : Z) (name : string) : LatencyReport :=
  sign_report sk (mkReport round g name [mkObs t b 255] 0 (public_key sk) (zeros 64)).

Lemma note_forged sk e g t b name m : name <> t -> note_report t m (forged sk e g t b name) = <[name := b]> m.
Proof.
  intros Hn. unfold note_report, forged. cbn. unfold note_obs, MIN_SAMPLES. cbn. rewrite bool_decide_eq_true_2 by done.
  cbn. by rewrite bool_decide_eq_false_2.
Qed.

Lemma values_forged sk e g t b names m : NoDup names -> t ∉ names -> (forall n, n ∈ names -> m !! n = None) ->
  (map_to_list (fold_left (note_report t) (forged sk e g t b <$> names) m)).*2 ≡ₚ replicate (length names) b ++ (map_to_list m).*2.
Proof.
  revert m. induction names as [|n names IH]; intros m Hnd Ht Hm; [done|]. apply NoDup_cons in Hnd as [Hn Hnd]. apply not_elem_of_cons in Ht as [Htn Ht].
  cbn [fmap list_fmap fold_left length replicate app]. rewrite note_forged by done. rewrite IH; [|done|done|].
  - rewrite map_to_list_insert by (apply Hm; left). cbn [fmap list_fmap]. by rewrite Permutation_middle.
  - intros k Hk. rewrite lookup_insert_ne by (intros ->; done). apply Hm. by right.
Qed.

Lemma by_reporter_dom rs t k : is_Some (by_reporter rs t !! k) -> k ∈ reporter <$> rs.
Proof.
  change (by_reporter rs t) with (fold_left (note_report t) rs ∅).
  assert (Hg : forall rs m, is_Some (fold_left (note_report t) rs m !! k) -> is_Some (m !! k) \/ k ∈ reporter <$> rs).
  2: { intros Hk. destruct (Hg rs ∅ Hk) as [[? Hk']|]; [by rewrite lookup_empty in Hk'|done]. }
  clear rs. induction rs as [|r rs IH]; intros m Hk; [by left|]. cbn [fold_left] in Hk. destruct (IH _ Hk) as [Hm|]; [|right; by right].
  rewrite note_report_lookup in Hm. case_bool_decide; [subst; right; left|by left].
Qed.

Lemma length_measured rs t : (length (measured rs t) <= length (remove_dups (reporter <$> rs)))%nat.
Proof.
  unfold measured. rewrite length_fmap, <- (length_fmap fst). apply submseteq_length, NoDup_submseteq; [apply NoDup_fst_map_to_list|].
  intros k Hk. apply elem_of_remove_dups, (by_reporter_dom rs t). apply list_elem_of_fmap in Hk as ([k' v] & -> & Hkv%elem_of_map_to_list). by exists v.
Qed.

Lemma filter_inside_replicate b n : filter (fun x => ~ inside b b x) (replicate n b) = [].
Proof. induction n as [|n IH]; [done|]. cbn [replicate]. rewrite filter_cons_False by (unfold inside; lia). done. Qed.

(** One key is enough to make up the reporters: whoever sends more reports in
    new names than there are reporters in the buffer sets the bucket of any
    peer at the next rebuild. *)
Theorem invented_reporters_decide sk g t b names now s :
  let e := current_wall_clock_bucket now in
  NoDup names -> t ∉ names -> (forall n, n ∈ names -> n ∉ reporter <$> buffer s) ->
  (2 <= length names)%nat -> (length (remove_dups (reporter <$> buffer s)) < length names)%nat ->
  (length (buffer s) + length names <= MAX_BUFFERED_REPORTS)%nat ->
  let s' := fold_left (fun s n => process_latency_canon_message g (report_to_json (forged sk e g t b n)) s) names s in
  lookup_bucket g t (rebuild_latency_canon_table now s').2 = Some b.
Proof.
  intros e Hnd Ht Hfresh Htwo Hmore Hcap s'.
  assert (Hbuf : buffer s' = buffer s ++ (forged sk e g t b <$> names)).
  { subst s'. replace (fold_left _ names s) with (fold_left (fun s r => ingest_report r s) (forged sk e g t b <$> names) s).
    - rewrite buffer_is_last_512, length_app, length_fmap by lia. by replace (length (buffer s) + length names - MAX_BUFFERED_REPORTS)%nat with 0%nat by lia.
    - clear Hnd Ht Hfresh Htwo Hmore Hcap. revert s. induction names as [|n names IH]; intros s; [done|]. cbn [fmap list_fmap fold_left]. rewrite IH. f_equal. symmetry. by apply process_signed. }
  unfold rebuild_latency_canon_table, rebuild, rebuild_with. cbn [snd]. fold e. unfold lookup_bucket, store_table, table_of. cbn [cached mbind option_bind].
  unfold lookup_latency. rewrite table_entries, Hbuf. cbv zeta.
  assert (Hw : group_reports (windowed (buffer s ++ (forged sk e g t b <$> names)) e WINDOW_SIZE) g =
    group_reports (windowed (buffer s) e WINDOW_SIZE) g ++ (forged sk e g t b <$> names)).
  { unfold group_reports, windowed. rewrite filter_app, (filter_keep_all _ (forged sk e g t b <$> names)), filter_app, (filter_keep_all _ (forged sk e g t b <$> names));
      [done|apply Forall_fmap, Forall_forall; intros n _..]; [done|].
    cbn. unfold too_old. cbn. by rewrite Z.eqb_refl, andb_false_r. }
  rewrite Hw. set (rs := group_reports _ g). rewrite bool_decide_eq_true_2.
  2: { destruct names as [|n names]; [simpl in Htwo; lia|]. apply Exists_app. right. cbn. left. cbn. left. }
  cbn [mjoin option_join].
  assert (Hsub : forall n, n ∈ reporter <$> rs -> n ∈ reporter <$> buffer s).
  { intros n (r & -> & Hr)%list_elem_of_fmap. apply list_elem_of_filter in Hr as [_ Hr]. apply list_elem_of_filter in Hr as [_ Hr]. by apply list_elem_of_fmap_2. }
  assert (Hm : measured (rs ++ (forged sk e g t b <$> names)) t ≡ₚ replicate (length names) b ++ measured rs t).
  { unfold measured at 1, by_reporter. rewrite fold_left_app. apply values_forged; [done|done|]. intros n Hn.
    apply eq_None_not_Some. intros Hk%by_reporter_dom. by apply (Hfresh n Hn), Hsub. }
  assert (Hlen : (length (measured rs t) < length names)%nat).
  { eapply Nat.le_lt_trans; [apply length_measured|]. eapply Nat.le_lt_trans; [|exact Hmore]. apply submseteq_length, NoDup_submseteq; [apply NoDup_remove_dups|].
    intros n. rewrite !elem_of_remove_dups. apply Hsub. }
  destruct (compute_canonical_bucket _ t) as [b'|] eqn:Hc.
  - pose proof (canonical_spec (rs ++ (forged sk e g t b <$> names)) t) as Hs. rewrite Hc in Hs. destruct Hs as (l & Hl & Hsort & Hi).
    enough (inside b b b') as [? ?] by (f_equal; lia). apply (median_inside l); [done|done|]. rewrite Hl, Hm, filter_app, !length_app, length_replicate.
    rewrite filter_inside_replicate. cbn [length].
    pose proof (length_filter (fun x => ~ inside b b x) (measured rs t)). lia.
  - pose proof (canonical_spec (rs ++ (forged sk e g t b <$> names)) t) as Hs. rewrite Hc in Hs. rewrite <- length_map_to_list in Hs.
    apply Permutation_length in Hm. unfold measured in Hm at 1. rewrite length_fmap, length_app, length_replicate in Hm. unfold MIN_REPORTERS in Hs. lia.
Qed.
End Handlers.

(** *** A concrete attack

    Two honest reports, then three reports of one key in the names x, y and
    z: the peer is the slowest of its group.  The encoding of a report is
    the binary numeral of its countable encoding, a signature repeats its
    message. *)

Fixpoint bits (p : positive) : bytes := match p with xH => [] | xO p => x00 :: bits p | xI p => x01 :: bits p end.
Fixpoint of_bits (l : bytes) : positive := match l with [] => xH | x00 :: l => xO (of_bits l) | _ :: l => xI (of_bits l) end.
Lemma of_bits_bits p : of_bits (bits p) = p.
Proof. induction p as [p IH|p IH|]; cbn; by rewrite ?IH. Qed.
Definition tuple_of (r : LatencyReport) :=
  (round r, group_id r, reporter r, (fun o => (peer_id o, rtt_ms_bucket o, samples o)) <$> observations r, nonce r, reporter_pubkey r, signature r).
Definition report_of (x : Z * string * string * list (string * Z * Z) * Z * bytes * bytes) : LatencyReport :=
  let '(a, b, c, l, d, e, f) := x in mkReport a b c ((fun o : string * Z * Z => mkObs o.1.1 o.1.2 o.2) <$> l) d e f.
#[local] Instance bits_json : ReportJson := {| report_to_json := fun r => bits (encode (tuple_of r)); report_from_json := fun b => report_of <$> decode (of_bits b) |}.
#[local] Instance bits_json_laws : ReportJsonLaws.
Proof.
  constructor. intros [a b c l d e f]. cbn. rewrite of_bits_bits, decode_encode. cbn. f_equal. unfold tuple_of, report_of. cbn. f_equal.
  rewrite <- list_fmap_compose. induction l as [|[x y z] l IH]; [done|]. cbn. by rewrite IH.
Qed.
#[local] Instance repeat_verify : Ed25519 := {| ed25519_verify := fun pk msg sig => bool_decide (sig = pk ++ msg) |}.
#[local] Instance repeat_sign : Ed25519Sign := {| public_key := fun sk => sk; ed25519_sign := fun sk msg => sk ++ msg |}.
#[local] Instance repeat_laws : Ed25519SignLaws.
Proof. constructor. intros. by apply bool_decide_eq_true_2. Qed.
#[local] Instance in_order : HashOrder := {| hash_order := fun _ l => l |}.
#[local] Instance in_order_laws : HashOrderLaws.
Proof. constructor. done. Qed.

Definition honest (name : string) : LatencyReport := mkReport 100 "g" name [mkObs "victim" 4 10] 0 [] [].
Definition two_honest : LatencyCanonState := ingest_report (honest "b") (ingest_report (honest "a") new).

Lemma invented_reporters_decide_witness :
  lookup_score "g" "victim" (rebuild_latency_canon_table 1000 two_honest).2 = 980 /\
  (let s' := fold_left (fun s n => process_latency_canon_message "g" (report_to_json (forged [x07] 100 "g" "victim" 255 n)) s) ["x"; "y"; "z"] two_honest in
   lookup_bucket "g" "victim" (rebuild_latency_canon_table 1000 s').2 = Some 255 /\ bucket_to_score 255 = 0).
Proof.
  split; [vm_compute; reflexivity|]. cbv zeta. split; [|vm_compute; reflexivity].
  apply (invented_reporters_decide [x07] "g" "victim" 255 ["x"; "y"; "z"] 1000 two_honest).
  - repeat constructor; set_solver.
  - set_solver.
  - intros n Hn. vm_compute in Hn |- *. set_solver.
  - cbn. lia.
  - vm_compute. lia.
  - vm_compute. lia.
Defined.
End LatStateC.
