(* ===== verification/NonceResolve.v ===== *)
(** * The resolver of nonce conflicts

    [savitri-mempool/src/executor/nonce_conflict_resolver.rs]: of the
    transactions with one sender and nonce a strategy keeps one.  The choice is
    cached as an index into the list of transactions.  Indexing out of the
    list panics, here the error [OutOfBounds]; an [Instant] is a number of
    milliseconds, as in [QueuedPool], and [now] the reading of the clock. *)

From Stdlib Require Import Strings.Byte.
From S2P Require Import Prelude OrdMap QueuedPool MempoolCore BlockStore BlockStm Float64.

Module Resolve.
Import Core.

Inductive Strategy :=
| FeePriority
| TemporalPriority
| WeightedScore (fee_weight time_weight : F64.f64)
| ClassPriority.

Abbreviation conflict_key := (bytes * Z)%type.

Record Stats := mkStats {
  total_conflicts_resolved : Z;
  fee_priority_wins : Z;
  temporal_priority_wins : Z;
  weighted_score_wins : Z;
  class_priority_wins : Z;
  conflicts_per_sender : gmap bytes Z;
}.
Definition Stats_default : Stats := mkStats 0 0 0 0 0 ∅.
Record Resolver := mkResolver {
  strategy : Strategy;
  resolution_cache : gmap conflict_key nat;
  stats : Stats;
}.
Inductive Panic := OutOfBounds.
Definition R (A : Type) : Type := M Resolver Panic A.

Definition with_strategy (s : Strategy) : Resolver := mkResolver s ∅ Stats_default.
Definition new : Resolver := with_strategy FeePriority.
Definition reset_stats (r : Resolver) : Resolver := mkResolver (strategy r) (resolution_cache r) Stats_default.
Definition clear_cache (r : Resolver) : Resolver := mkResolver (strategy r) ∅ (stats r).
Definition set_strategy (s : Strategy) (r : Resolver) : Resolver := clear_cache (mkResolver s (resolution_cache r) (stats r)).

Definition upd_stats (f : Stats -> Stats) : R unit := modify (fun r => mkResolver (strategy r) (resolution_cache r) (f (stats r))).
Definition cache_winner (k : conflict_key) (i : nat) : R unit :=
  modify (fun r => mkResolver (strategy r) (<[k := i]> (resolution_cache r)) (stats r)).
Definition count_win (s : Strategy) (st : Stats) : Stats :=
  let w := wrap U64_MAX in
  match s with
  | FeePriority => mkStats (total_conflicts_resolved st) (w (fee_priority_wins st + 1)) (temporal_priority_wins st) (weighted_score_wins st) (class_priority_wins st) (conflicts_per_sender st)
  | TemporalPriority => mkStats (total_conflicts_resolved st) (fee_priority_wins st) (w (temporal_priority_wins st + 1)) (weighted_score_wins st) (class_priority_wins st) (conflicts_per_sender st)
  | WeightedScore _ _ => mkStats (total_conflicts_resolved st) (fee_priority_wins st) (temporal_priority_wins st) (w (weighted_score_wins st + 1)) (class_priority_wins st) (conflicts_per_sender st)
  | ClassPriority => mkStats (total_conflicts_resolved st) (fee_priority_wins st) (temporal_priority_wins st) (weighted_score_wins st) (w (class_priority_wins st + 1)) (conflicts_per_sender st)
  end.
Definition count_conflict (a : bytes) (st : Stats) : Stats :=
  mkStats (wrap U64_MAX (total_conflicts_resolved st + 1)) (fee_priority_wins st) (temporal_priority_wins st) (weighted_score_wins st) (class_priority_wins st)
    (<[a := wrap U64_MAX (default 0 (conflicts_per_sender st !! a) + 1)]> (conflicts_per_sender st)).

Definition tx_key (t : MempoolTx) : conflict_key := (m_sender_address t, m_nonce t).

Definition get_class_priority (c : TxClass) : Z :=
  match c with System => 4 | Financial => 3 | FederatedUpdate => 2 | IoTData => 1 end.

(** [Duration::as_secs_f64] of milliseconds. *)
Definition as_secs_f64 (ms : Z) : F64.f64 :=
  F64.add (F64.of_Z (ms / 1000)) (F64.div (F64.of_Z (ms mod 1000 * 1000000)) (F64.of_Z 1000000000)).
Definition calculate_weighted_score (now : Z) (t : MempoolTx) (fee_weight time_weight : F64.f64) : F64.f64 :=
  let fee_score := F64.div (F64.of_Z (fee t)) (F64.of_Z 1000000000000000) in
  let time_score := if received_at t <=? now then F64.mul (as_secs_f64 (now - received_at t)) (F64.div F64.one (F64.of_Z 1000)) else F64.zero in
  F64.add (F64.mul fee_score fee_weight) (F64.mul time_score time_weight).

(** The loop of each strategy: the best so far, with what is compared, and the
    next transaction. *)
Definition beats (now : Z) (s : Strategy) (best t : MempoolTx) : bool :=
  match s with
  | FeePriority => (fee best <? fee t) || ((fee t =? fee best) && (received_at t <? received_at best))
  | TemporalPriority => received_at t <? received_at best
  | WeightedScore fw tw => F64.ltb (calculate_weighted_score now best fw tw) (calculate_weighted_score now t fw tw)
  | ClassPriority =>
      (get_class_priority (m_class best) <? get_class_priority (m_class t))
      || ((get_class_priority (m_class t) =? get_class_priority (m_class best)) && (fee best <? fee t))
  end.

Definition tx_at (txs : list MempoolTx) (i : nat) : R MempoolTx := lift (ok_or (txs !! i) OutOfBounds).

Fixpoint best_of (now : Z) (s : Strategy) (txs : list MempoolTx) (best : nat) (indices : list nat) : R nat :=
  match indices with
  | [] => mret best
  | i :: indices =>
      b ← tx_at txs best;
      t ← tx_at txs i;
      best_of now s txs (if beats now s b t then i else best) indices
  end.

Definition resolve_single_conflict (now : Z) (txs : list MempoolTx) (indices : list nat) (k : conflict_key) : R nat :=
  r ← get;
  match resolution_cache r !! k with
  | Some i => mret i
  | None =>
      first ← lift (ok_or (head indices) OutOfBounds);
      i ← best_of now (strategy r) txs first (tail indices);
      upd_stats (count_win (strategy r));;
      cache_winner k i;;
      mret i
  end.

(** The indices of the transactions by key. *)
Definition conflicts_of (txs : list MempoolTx) : gmap conflict_key (list nat) :=
  fold_left (fun m (p : nat * MempoolTx) => partial_alter (fun o => Some (default [] o ++ [p.1])) (tx_key p.2) m)
    (imap (fun i t => (i, t)) txs) ∅.

Section Order.
Context `{HashOrder}.

Definition resolve_one (now : Z) (txs : list MempoolTx) (c : conflict_key * list nat) : R nat :=
  match c.2 with
  | [i] => mret i
  | l =>
      i ← resolve_single_conflict now txs l c.1;
      upd_stats (count_conflict c.1.1);;
      mret i
  end.
Fixpoint resolve_all (now : Z) (txs : list MempoolTx) (cs : list (conflict_key * list nat)) : R (list nat) :=
  match cs with
  | [] => mret []
  | c :: cs => i ← resolve_one now txs c; l ← resolve_all now txs cs; mret (i :: l)
  end.
Definition resolve_conflicts (now : Z) (txs : list MempoolTx) : R (list nat) :=
  resolve_all now txs (hash_order (map_to_list (conflicts_of txs))).

Fixpoint pick_all (txs : list MempoolTx) (l : list nat) : R (list MempoolTx) :=
  match l with
  | [] => mret []
  | i :: l => t ← tx_at txs i; ts ← pick_all txs l; mret (t :: ts)
  end.
Definition filter_conflicts (now : Z) (txs : list MempoolTx) : R (list MempoolTx) :=
  match txs with
  | [] => mret []
  | _ => l ← resolve_conflicts now txs; pick_all txs l
  end.

(** [analyze_conflicts]. *)
Record ConflictAnalysis := mkAnalysis {
  total_transactions : nat;
  total_conflicts : nat;
  max_conflict_size : nat;
  avg_conflict_size : F64.f64;
  conflict_sizes : list nat;
}.
Definition analyze_conflicts (txs : list MempoolTx) : ConflictAnalysis :=
  let counts := fold_left (fun m t => <[tx_key t := S (default 0%nat (m !! tx_key t))]> m) txs (∅ : gmap conflict_key nat) in
  let sizes := filter (fun n => (1 < n)%nat) (hash_order (map_to_list counts)).*2 in
  mkAnalysis (length txs) (length sizes) (fold_left Nat.max sizes 0%nat)
    (if bool_decide (sizes = []) then F64.zero else F64.div (F64.of_nat (sum_list sizes)) (F64.of_nat (length sizes))) sizes.
Definition conflict_rate (a : ConflictAnalysis) : F64.f64 :=
  if (total_transactions a =? 0)%nat then F64.zero
  else F64.mul (F64.div (F64.of_nat (total_conflicts a)) (F64.of_nat (total_transactions a))) (F64.of_Z 100).
Definition has_significant_conflicts (a : ConflictAnalysis) : bool :=
  (0 <? total_conflicts a)%nat && ((2 <? max_conflict_size a)%nat || F64.ltb (F64.percent 150) (avg_conflict_size a)).
End Order.
End Resolve.

(** ** What the resolver of nonce conflicts promises

    With an empty cache it keeps, of every sender and nonce, one transaction
    that pays most, the earliest of those; but the choice is cached as an index
    and used again for other lists of transactions. *)

#[local] Instance MempoolTx_eq_dec : EqDecision MempoolCore.Core.MempoolTx.
Proof. solve_decision. Defined.

Module ResC.
Import Core Resolve.

(** *** The groups of one key *)

Lemma conflicts_fold (ps : list (nat * MempoolTx)) (m : gmap conflict_key (list nat)) (k : conflict_key) :
  fold_left (fun m (p : nat * MempoolTx) => partial_alter (fun o => Some (default [] o ++ [p.1])) (tx_key p.2) m) ps m !! k =
  match (filter (fun p : nat * MempoolTx => tx_key p.2 = k) ps).*1 with [] => m !! k | l => Some (default [] (m !! k) ++ l) end.
Proof.
  revert m. induction ps as [|p ps IH]; intros m; [done|]. cbn [fold_left]. rewrite IH, filter_cons.
  destruct (decide (tx_key p.2 = k)) as [->|Hne].
  - rewrite lookup_partial_alter_eq. cbn [fmap list_fmap]. destruct ((filter _ ps).*1) as [|i l]; [done|]. simpl. by rewrite <- app_assoc.
  - by rewrite lookup_partial_alter_ne.
Qed.

(** The indices of the transactions with key [k]. *)
Definition indices_of (txs : list MempoolTx) (k : conflict_key) : list nat :=
  (filter (fun p : nat * MempoolTx => tx_key p.2 = k) (imap (fun i t => (i, t)) txs)).*1.
Lemma elem_of_indices txs k i : i ∈ indices_of txs k <-> exists t, txs !! i = Some t /\ tx_key t = k.
Proof.
  unfold indices_of. rewrite list_elem_of_fmap. split.
  - intros ([j t] & -> & [Hk Hin]%list_elem_of_filter). apply elem_of_lookup_imap in Hin as (j' & t' & [= -> ->] & Ht). by exists t'.
  - intros (t & Ht & Hk). exists (i, t). split; [done|]. apply list_elem_of_filter. split; [done|]. apply elem_of_lookup_imap. by exists i, t.
Qed.
Lemma conflicts_lookup txs k :
  conflicts_of txs !! k = match indices_of txs k with [] => None | l => Some l end.
Proof. unfold conflicts_of. rewrite conflicts_fold, lookup_empty. fold (indices_of txs k). by destruct (indices_of txs k). Qed.

(** *** The choice *)

(** [w] pays more than [t], or as much and was received no later. *)
Definition at_least (w t : MempoolTx) : Prop := fee t < fee w \/ (fee t = fee w /\ received_at w <= received_at t).

Lemma beats_spec now b t : beats now FeePriority b t = false <-> at_least b t.
Proof.
  unfold beats, at_least. rewrite orb_false_iff, andb_false_iff, Z.ltb_ge, Z.eqb_neq, Z.ltb_ge. lia.
Qed.
Lemma at_least_trans a b c : at_least a b -> at_least b c -> at_least a c.
Proof. unfold at_least. lia. Qed.

Lemma best_of_spec now txs best l b r :
  txs !! best = Some b -> Forall (fun i => is_Some (txs !! i)) l ->
  exists w t, best_of now FeePriority txs best l r = (Ok w, r) /\ w ∈ best :: l /\ txs !! w = Some t /\ at_least t b /\
    Forall (fun i => forall u, txs !! i = Some u -> at_least t u) l.
Proof.
  intros Hb Hl. revert best b Hb. induction Hl as [|i l [t Ht] Hl IH]; intros best b Hb; cbn [best_of].
  - exists best, b. split_and!; [done|left|done|unfold at_least; lia|done].
  - unfold tx_at, lift, mbind, M_bind. rewrite Hb, Ht. cbn [ok_or]. cbv beta iota. destruct (beats now FeePriority b t) eqn:E.
    + destruct (IH i t Ht) as (w & u & Hw & Hin & Hu & Ha & Hall). exists w, u. split_and!; [exact Hw|by right|done| |].
      * eapply at_least_trans; [exact Ha|]. destruct (decide (at_least t b)) as [|Hn]; [done|]. exfalso.
        assert (Hbt : at_least b t) by (unfold at_least in *; lia). apply (beats_spec now) in Hbt. congruence.
      * constructor; [|done]. intros u' Hu'. rewrite Ht in Hu'. by injection Hu' as <-.
    + apply beats_spec in E. destruct (IH best b Hb) as (w & u & Hw & Hin & Hu & Ha & Hall). exists w, u.
      split_and!; [exact Hw| |done|done|].
      * apply elem_of_cons in Hin as [->|Hin]; [left|by right; right].
      * constructor; [|done]. intros u' Hu'. rewrite Ht in Hu'. injection Hu' as <-. by eapply at_least_trans.
Qed.

(** The best transaction of a key. *)
Definition best_tx (txs : list MempoolTx) (k : conflict_key) (w : MempoolTx) : Prop :=
  w ∈ txs /\ tx_key w = k /\ forall t, t ∈ txs -> tx_key t = k -> at_least w t.

Lemma resolve_one_fresh now txs k r :
  strategy r = FeePriority -> resolution_cache r !! k = None -> indices_of txs k <> [] ->
  exists i w r', resolve_one now txs (k, indices_of txs k) r = (Ok i, r') /\ strategy r' = FeePriority /\
    (forall k', k' <> k -> resolution_cache r' !! k' = resolution_cache r !! k') /\ txs !! i = Some w /\ best_tx txs k w.
Proof.
  intros Hs Hc Hne. remember (indices_of txs k) as l0 eqn:El0.
  assert (Hval : forall i, i ∈ l0 -> is_Some (txs !! i)).
  { intros i Hi. rewrite El0 in Hi. apply elem_of_indices in Hi as (t & Ht & _). by eexists. }
  destruct l0 as [|first l]; [done|]. destruct (Hval first) as [b Hb]; [left|].
  destruct (best_of_spec now txs first l b r Hb) as (w & t & Hw & Hin & Ht & Hab & Hall).
  { apply Forall_forall. intros i Hi. apply Hval. by right. }
  assert (Hbest : best_tx txs k t).
  { assert (Hwk : w ∈ indices_of txs k) by (by rewrite <- El0). apply elem_of_indices in Hwk as (t' & Ht' & Hk). rewrite Ht in Ht'. injection Ht' as <-.
    split_and!; [by eapply list_elem_of_lookup_2|done|]. intros u [j Hj]%list_elem_of_lookup Hku.
    assert (Hjk : j ∈ indices_of txs k) by (apply elem_of_indices; by exists u). rewrite <- El0 in Hjk.
    apply elem_of_cons in Hjk as [->|Hjk]; [rewrite Hb in Hj; by injection Hj as <-|]. rewrite Forall_forall in Hall. by apply (Hall j). }
  unfold resolve_one. cbn [snd fst]. destruct l as [|second l].
  - exists first, t, r. apply list_elem_of_singleton in Hin as ->. split_and!; done.
  - unfold resolve_single_conflict, cache_winner, upd_stats, mbind, M_bind, get, lift, modify, mret, M_ret. rewrite Hc. cbn [head ok_or tail].
    cbv beta iota. rewrite Hs, Hw. cbv beta iota zeta. eexists w, t, _. split_and!; [reflexivity|by simpl| |done|done].
    intros k' Hk'. simpl. by rewrite lookup_insert_ne.
Qed.

Lemma resolve_all_fresh now txs cs r :
  strategy r = FeePriority -> NoDup cs.*1 -> Forall (fun c => c.2 = indices_of txs c.1 /\ c.2 <> [] /\ resolution_cache r !! c.1 = None) cs ->
  exists l r', resolve_all now txs cs r = (Ok l, r') /\
    Forall2 (fun i (c : conflict_key * list nat) => exists w, txs !! i = Some w /\ best_tx txs c.1 w) l cs.
Proof.
  revert r. induction cs as [|[k l] cs IH]; intros r Hs Hnd Hf; [by exists [], r|].
  apply NoDup_cons in Hnd as [Hnk Hnd]. apply Forall_cons in Hf as [(El & Hne & Hc) Hf]. cbn [fst snd] in *. subst l.
  destruct (resolve_one_fresh now txs k r Hs Hc Hne) as (i & w & r1 & H1 & Hs1 & Hc1 & Hi & Hb).
  destruct (IH r1 Hs1 Hnd) as (l & r2 & H2 & Hl).
  { rewrite Forall_forall in Hf |- *. intros c Hin. destruct (Hf c Hin) as (? & ? & Hn). split_and!; [done|done|]. rewrite Hc1; [done|].
    intros E. apply Hnk. rewrite <- E. by apply list_elem_of_fmap_2. }
  exists (i :: l), r2. split; [|constructor; [by exists w|done]]. cbn [resolve_all]. unfold mbind, M_bind, mret, M_ret. by rewrite H1, H2.
Qed.

Lemma pick_all_spec txs l (cs : list (conflict_key * list nat)) r :
  Forall2 (fun i (c : conflict_key * list nat) => exists w, txs !! i = Some w /\ best_tx txs c.1 w) l cs ->
  exists out, pick_all txs l r = (Ok out, r) /\ Forall2 (fun w (c : conflict_key * list nat) => best_tx txs c.1 w) out cs.
Proof.
  induction 1 as [|i c l cs (w & Hi & Hw) Hl (out & Ho & Hf)]; [by exists []|]. exists (w :: out). split; [|by constructor].
  cbn [pick_all]. unfold tx_at, lift, mbind, M_bind, mret, M_ret. rewrite Hi. cbn [ok_or]. cbv beta iota. by rewrite Ho.
Qed.

Section Order.
Context `{HashOrder, !HashOrderLaws}.

(** With the strategy of fees and no cached choices, filtering keeps exactly
    one transaction of every sender and nonce: one of the given ones that pays
    most, the earliest received of those. *)
Theorem fresh_resolution now txs r :
  strategy r = FeePriority -> resolution_cache r = ∅ ->
  exists out r', filter_conflicts now txs r = (Ok out, r') /\ NoDup (tx_key <$> out) /\ (forall w, w ∈ out -> w ∈ txs) /\
    (forall t, t ∈ txs -> exists w, w ∈ out /\ tx_key w = tx_key t /\ at_least w t).
Proof.
  intros Hs Hc. destruct txs as [|t0 txs']; [exists [], r; split_and!; [done|constructor|done|]; by intros t ?%not_elem_of_nil|].
  set (txs := t0 :: txs'). set (cs := hash_order (map_to_list (conflicts_of txs))).
  assert (Hcs : cs ≡ₚ map_to_list (conflicts_of txs)) by apply hash_order_perm.
  assert (Hnd : NoDup cs.*1) by (rewrite Hcs; apply NoDup_fst_map_to_list).
  destruct (resolve_all_fresh now txs cs r Hs Hnd) as (l & r' & Hr & Hl).
  { apply Forall_forall. intros [k l] Hin. rewrite Hcs, elem_of_map_to_list, conflicts_lookup in Hin. cbn [fst snd]. rewrite Hc, lookup_empty.
    destruct (indices_of txs k); [done|]. injection Hin as <-. done. }
  destruct (pick_all_spec txs l cs r' Hl) as (out & Ho & Hf). exists out, r'.
  assert (Hkeys : tx_key <$> out = cs.*1).
  { clear -Hf. induction Hf as [|w c out cs (_ & Hk & _) Hf IH]; [done|]. cbn [fmap list_fmap]. by rewrite Hk, IH. }
  split_and!.
  - unfold filter_conflicts, resolve_conflicts. fold txs. fold cs. unfold txs at 1. unfold mbind, M_bind. by rewrite Hr, Ho.
  - by rewrite Hkeys.
  - intros w Hw. apply list_elem_of_lookup in Hw as [j Hj]. destruct (Forall2_lookup_l _ _ _ _ _ Hf Hj) as (c & _ & Hin & _). done.
  - intros t Ht. assert (Hk : tx_key t ∈ cs.*1).
    { apply list_elem_of_lookup in Ht as Ht'. destruct Ht' as [j Hj]. assert (Hj' : j ∈ indices_of txs (tx_key t)) by (apply elem_of_indices; by exists t).
      apply list_elem_of_fmap. exists (tx_key t, indices_of txs (tx_key t)). split; [done|]. rewrite Hcs, elem_of_map_to_list, conflicts_lookup.
      destruct (indices_of txs (tx_key t)); [by apply not_elem_of_nil in Hj'|done]. }
    rewrite <- Hkeys in Hk. apply list_elem_of_fmap in Hk as (w & Hwk & Hw). exists w. split_and!; [done|done|].
    apply list_elem_of_lookup in Hw as [j Hj]. destruct (Forall2_lookup_l _ _ _ _ _ Hf Hj) as (c & _ & _ & Hck & Hall). apply Hall; [done|congruence].
Qed.

(** A cached choice decides a conflict of its key whatever the transactions
    are: the index is returned, and no other one is looked at. *)
Theorem cached_index_decides now txs r k i l :
  resolution_cache r !! k = Some i -> (2 <= length l)%nat -> (resolve_one now txs (k, l) r).1 = Ok i.
Proof.
  intros Hc Hl. unfold resolve_one. cbn [fst snd]. destruct l as [|a [|b l]]; [simpl in Hl; lia..|].
  unfold resolve_single_conflict, mbind, M_bind, get, mret, M_ret, upd_stats, modify. by rewrite Hc.
Qed.
End Order.

(** *** Concrete batches *)

#[local] Instance in_order : HashOrder := {| hash_order := fun _ l => l |}.
#[local] Instance in_order_laws : HashOrderLaws.
Proof. constructor. done. Qed.

Definition a_tx (sender : byte) (nonce f received : Z) : MempoolTx :=
  mkTx 0 nonce f 0 Financial None 0 None [sender] [] 0 f received false.
(** Three bids for one nonce, and another sender. *)
Definition bids : list MempoolTx := [a_tx x01 7 10 0; a_tx x02 7 1 0; a_tx x01 7 20 3; a_tx x01 7 20 2].

Lemma fresh_resolution_witness :
  exists out r', filter_conflicts 0 bids new = (Ok out, r') /\ NoDup (tx_key <$> out) /\ a_tx x01 7 20 2 ∈ out.
Proof.
  destruct (fresh_resolution 0 bids new) as (out & r' & Ho & Hnd & Hin & Hall); [reflexivity|reflexivity|].
  exists out, r'. split; [exact Ho|]. split; [exact Hnd|]. assert (E : filter_conflicts 0 bids new = (Ok [a_tx x01 7 20 2; a_tx x02 7 1 0], (filter_conflicts 0 bids new).2)
    \/ filter_conflicts 0 bids new = (Ok [a_tx x02 7 1 0; a_tx x01 7 20 2], (filter_conflicts 0 bids new).2)) by (vm_compute; auto).
  rewrite Ho in E. destruct E as [[= ->]|[= ->]]; [left|right; left].
Defined.

(** The next batch of the same resolver: the choice of the first one, the
    fourth transaction, is taken again.  The cheaper bid wins; with fewer
    transactions the resolver panics. *)
Definition after_bids : Resolver := (filter_conflicts 0 bids new).2.
Theorem stale_choice :
  (exists out r', filter_conflicts 0 [a_tx x01 7 90 0; a_tx x03 1 1 0; a_tx x03 2 1 0; a_tx x01 7 1 0] after_bids = (Ok out, r') /\
     a_tx x01 7 90 0 ∉ out /\ a_tx x01 7 1 0 ∈ out) /\
  (filter_conflicts 0 [a_tx x01 7 90 0; a_tx x01 7 1 0] after_bids).1 = Err OutOfBounds.
Proof.
  split; [|by vm_compute].
  eexists _, _. split; [vm_compute; reflexivity|].
  split; [apply (bool_decide_eq_true_1 (_ ∉ _)); vm_compute; reflexivity|apply (bool_decide_eq_true_1 (_ ∈ _)); vm_compute; reflexivity].
Qed.
End ResC.
