(* ===== verification/Registers.v ===== *)
(** * The treasury and the vote tokens of the storage crate

    [savitri-storage/src/storage/treasury.rs] and [vote_tokens.rs]: two
    registers that keep their records in memory and, when they have a storage,
    write them through.  A record stands for its [bincode] bytes; the classes
    [RegBincode] and [TokenBincode] give the lengths, which the reads limit.
    [puts] tells whether the storage accepts a write of a key. *)

From stdpp Require Import gmap pretty strings sorting.
From Stdlib Require Import Strings.Byte.
From S2P Require Import Prelude OrdMap Codec BlockStore BlockStm GovStore.

Module Reg.

Definition MAX_BINCODE_SIZE : Z := GovStore.MAX_BINCODE_SIZE.

(** *** The treasury *)

Inductive RewardType := BlockReward | StakeReward | GovernanceReward | NetworkReward | IncentiveReward.
#[global] Instance RewardType_eq_dec : EqDecision RewardType.
Proof. solve_decision. Defined.
Inductive TreasuryTransactionType :=
| Deposit (from : bytes) (amount : Z) (reason : string)
| Withdrawal (to : bytes) (amount : Z) (proposal_id : option Z) (reason : string)
| Reward (to : bytes) (amount : Z) (reward_type : RewardType)
| Slash (from : bytes) (amount : Z) (reason : string)
| Burn (amount : Z) (reason : string).
Inductive TransactionStatus := Pending | Approved | Executed | Rejected | Failed.
#[global] Instance TransactionStatus_eq_dec : EqDecision TransactionStatus.
Proof. solve_decision. Defined.

Record TreasuryTransaction := mkTx {
  t_id : Z;
  tx_type : TreasuryTransactionType;
  t_amount : Z;
  t_timestamp : Z;
  t_block_height : Z;
  executor : bytes;
  t_signature : option bytes;
  t_status : TransactionStatus;
  memo : string;
}.
Record TreasurySnapshot := mkSnapshot {
  total_balance : Z;
  available_balance : Z;
  locked_balance : Z;
  pending_transactions : Z;
  total_deposits : Z;
  total_withdrawals : Z;
  total_rewards : Z;
  total_slashes : Z;
  s_timestamp : Z;
  s_block_height : Z;
}.
Definition TreasurySnapshot_default (now : Z) : TreasurySnapshot := mkSnapshot 0 0 0 0 0 0 0 0 now 0.

(** The part of the storage that holds the treasury. *)
Record TreasuryDb := mkTreasuryDb { db_txs : gmap Z TreasuryTransaction; db_balance : option TreasurySnapshot }.
Record Treasury := mkTreasury {
  t_storage : option TreasuryDb;
  next_transaction_id : Z;
  t_cache : gmap Z TreasuryTransaction;
  balance_cache : TreasurySnapshot;
}.

Inductive RegError := InsufficientTreasury | InsufficientToBurn | WriteFailed | InsufficientToLock | InsufficientToUnlock.

Class RegBincode := { tx_len : TreasuryTransaction -> Z }.

Section Treasury.
Context `{RegBincode, HashOrder}.
Context (puts : string -> bool).

Definition T (A : Type) : Type := M Treasury RegError A.

Definition new_treasury (now : Z) : Treasury := mkTreasury None 1 ∅ (TreasurySnapshot_default now).
Definition with_storage (db : TreasuryDb) (now : Z) : Treasury := mkTreasury (Some db) 1 ∅ (TreasurySnapshot_default now).

Definition get_balance (s : Treasury) : Z := available_balance (balance_cache s).
Definition get_snapshot (s : Treasury) : TreasurySnapshot := balance_cache s.

Definition set_snapshot (f : TreasurySnapshot -> TreasurySnapshot) : T unit :=
  modify (fun s => mkTreasury (t_storage s) (next_transaction_id s) (t_cache s) (f (balance_cache s))).
(** A write to the storage, when there is one. *)
Definition put (key : string) (f : Treasury -> TreasuryDb -> TreasuryDb) : T unit :=
  s ← get;
  match t_storage s with
  | Some db =>
      bail_if (negb (puts key)) WriteFailed;;
      modify (fun s => mkTreasury (Some (f s db)) (next_transaction_id s) (t_cache s) (balance_cache s))
  | None => mret tt
  end.
Definition put_balance : T unit := put "treasury:balance" (fun s db => mkTreasuryDb (db_txs db) (Some (balance_cache s))).

Definition set_balance (now balance : Z) : T unit :=
  set_snapshot (fun c => mkSnapshot balance balance (locked_balance c) (pending_transactions c) (total_deposits c) (total_withdrawals c)
    (total_rewards c) (total_slashes c) now (s_block_height c));;
  put_balance.

Definition save_transaction (t : TreasuryTransaction) : T unit :=
  modify (fun s => mkTreasury (t_storage s) (next_transaction_id s) (<[t_id t := t]> (t_cache s)) (balance_cache s));;
  put ("treasury:tx:" +:+ pretty (t_id t)) (fun _ db => mkTreasuryDb (<[t_id t := t]> (db_txs db)) (db_balance db)).

Definition update_balance_on_deposit (now amount : Z) : T unit :=
  set_snapshot (fun c => mkSnapshot (wrap U128_MAX (total_balance c + amount)) (wrap U128_MAX (available_balance c + amount)) (locked_balance c)
    (pending_transactions c) (wrap U128_MAX (total_deposits c + amount)) (total_withdrawals c) (total_rewards c) (total_slashes c) now (s_block_height c));;
  put_balance.
Definition update_balance_on_withdrawal (now amount : Z) : T unit :=
  set_snapshot (fun c => mkSnapshot (saturating_sub (total_balance c) amount) (saturating_sub (available_balance c) amount) (locked_balance c)
    (pending_transactions c) (total_deposits c) (wrap U128_MAX (total_withdrawals c + amount)) (total_rewards c) (total_slashes c) now (s_block_height c));;
  put_balance.

(** [next_transaction_id.fetch_add(1)]. *)
Definition fetch_id : T Z :=
  s ← get;
  modify (fun s => mkTreasury (t_storage s) (wrap U64_MAX (next_transaction_id s + 1)) (t_cache s) (balance_cache s));;
  mret (next_transaction_id s).

Definition record (now : Z) (ty : TreasuryTransactionType) (amount : Z) (st : TransactionStatus) : T Z :=
  id ← fetch_id;
  save_transaction (mkTx id ty amount now 0 [] None st "");;
  mret id.

Definition deposit (now : Z) (from : bytes) (amount : Z) (reason : string) : T Z :=
  id ← record now (Deposit from amount reason) amount Pending;
  update_balance_on_deposit now amount;;
  mret id.
Definition withdraw (now : Z) (to : bytes) (amount : Z) (proposal_id : option Z) (reason : string) : T Z :=
  s ← get;
  bail_if (available_balance (balance_cache s) <? amount) InsufficientTreasury;;
  id ← record now (Withdrawal to amount proposal_id reason) amount Pending;
  update_balance_on_withdrawal now amount;;
  mret id.
Definition distribute_reward (now : Z) (to : bytes) (amount : Z) (ty : RewardType) : T Z :=
  id ← record now (Reward to amount ty) amount Approved;
  update_balance_on_withdrawal now amount;;
  mret id.
Definition slash (now : Z) (from : bytes) (amount : Z) (reason : string) : T Z :=
  id ← record now (Slash from amount reason) amount Approved;
  update_balance_on_deposit now amount;;
  mret id.
Definition burn (now amount : Z) (reason : string) : T Z :=
  s ← get;
  bail_if (available_balance (balance_cache s) <? amount) InsufficientToBurn;;
  id ← record now (Burn amount reason) amount Approved;
  update_balance_on_withdrawal now amount;;
  mret id.

(** A read: the memory, then the storage, whose record is kept in memory. *)
Definition get_transaction (id : Z) : T (option TreasuryTransaction) :=
  s ← get;
  match t_cache s !! id with
  | Some t => mret (Some t)
  | None =>
      match (db ← t_storage s; db_txs db !! id) with
      | Some t =>
          if tx_len t <=? MAX_BINCODE_SIZE then
            modify (fun s => mkTreasury (t_storage s) (next_transaction_id s) (<[id := t]> (t_cache s)) (balance_cache s));; mret (Some t)
          else mret None
      | None => mret None
      end
  end.

Record TreasuryStats := mkTStats {
  daily_volume : Z;
  weekly_volume : Z;
  monthly_volume : Z;
  total_transactions : Z;
  successful_transactions : Z;
  failed_transactions : Z;
  average_transaction_size : Z;
  top_withdrawals : list (bytes * Z);
  reward_distribution : list (RewardType * Z);
}.
Definition add_reward (ty : RewardType) (amount : Z) (l : list (RewardType * Z)) : list (RewardType * Z) :=
  if existsb (fun p : RewardType * Z => bool_decide (p.1 = ty)) l
  then (fun p : RewardType * Z => if bool_decide (p.1 = ty) then (p.1, wrap U128_MAX (p.2 + amount)) else p) <$> l
  else l ++ [(ty, amount)].
(** One transaction of [get_statistics]. *)
Definition add_stats (now : Z) (s : TreasuryStats) (t : TreasuryTransaction) : TreasuryStats :=
  let w := wrap U128_MAX in
  let age := wrap U64_MAX (now - t_timestamp t) in
  let volume (span v : Z) := if age <=? span then w (v + t_amount t) else v in
  mkTStats (volume 86400 (daily_volume s)) (volume 604800 (weekly_volume s)) (volume 2592000 (monthly_volume s))
    (wrap U64_MAX (total_transactions s + 1))
    (match t_status t with Executed | Approved => wrap U64_MAX (successful_transactions s + 1) | _ => successful_transactions s end)
    (match t_status t with Failed | Rejected => wrap U64_MAX (failed_transactions s + 1) | _ => failed_transactions s end)
    (w (average_transaction_size s + t_amount t) / 2)
    (match tx_type t with Withdrawal to amount _ _ => top_withdrawals s ++ [(to, amount)] | _ => top_withdrawals s end)
    (match tx_type t with Reward _ amount ty => add_reward ty amount (reward_distribution s) | _ => reward_distribution s end).
Definition by_amount (a b : bytes * Z) : Prop := b.2 <= a.2.
#[global] Instance by_amount_dec a b : Decision (by_amount a b).
Proof. unfold by_amount. apply _. Defined.
Definition get_statistics (now : Z) (s : Treasury) : TreasuryStats :=
  let st := fold_left (add_stats now) (hash_order (map_to_list (t_cache s))).*2 (mkTStats 0 0 0 0 0 0 0 [] []) in
  mkTStats (daily_volume st) (weekly_volume st) (monthly_volume st) (total_transactions st) (successful_transactions st) (failed_transactions st)
    (average_transaction_size st) (take 10 (merge_sort by_amount (top_withdrawals st))) (reward_distribution st).
End Treasury.

(** *** Vote tokens *)

Record VoteToken := mkToken {
  address : bytes;
  balance : Z;
  locked_amount : Z;
  voting_power : Z;
  last_vote_block : Z;
  delegate_to : option bytes;
  created_at : Z;
  updated_at : Z;
}.
Definition new_token (now : Z) (a : bytes) : VoteToken := mkToken a 0 0 0 0 None now now.
Definition calculate_voting_power (t : VoteToken) : Z := wrap U128_MAX (balance t + wrap U128_MAX (locked_amount t * 2)).
Definition update_voting_power (now : Z) (t : VoteToken) : VoteToken :=
  mkToken (address t) (balance t) (locked_amount t) (calculate_voting_power t) (last_vote_block t) (delegate_to t) (created_at t) now.
Definition set_amounts (b l : Z) (t : VoteToken) : VoteToken :=
  mkToken (address t) b l (voting_power t) (last_vote_block t) (delegate_to t) (created_at t) (updated_at t).

Class TokenBincode := { token_len : VoteToken -> Z }.

(** [VoteTokenManager]: the storage, when there is one, and the memory. *)
Record TokenManager := mkManager { v_storage : option (gmap bytes VoteToken); v_cache : gmap bytes VoteToken }.
Definition new_manager : TokenManager := mkManager None ∅.
Definition manager_with_storage (db : gmap bytes VoteToken) : TokenManager := mkManager (Some db) ∅.

Section Tokens.
Context `{TokenBincode, HashOrder, Hex}.
Context (puts : string -> bool).

Definition V (A : Type) : Type := M TokenManager RegError A.

Definition cache_token (a : bytes) (t : VoteToken) : V unit := modify (fun s => mkManager (v_storage s) (<[a := t]> (v_cache s))).
(** The token of an address: the memory, then the storage. *)
Definition find_token (a : bytes) : V (option VoteToken) :=
  s ← get;
  match v_cache s !! a with
  | Some t => mret (Some t)
  | None =>
      match (db ← v_storage s; db !! a) with
      | Some t => if token_len t <=? MAX_BINCODE_SIZE then cache_token a t;; mret (Some t) else mret None
      | None => mret None
      end
  end.
Definition get_token_balance (a : bytes) : V Z := t ← find_token a; mret (match t with Some t => balance t | None => 0 end).
Definition get_voting_power (a : bytes) : V Z := t ← find_token a; mret (match t with Some t => voting_power t | None => 0 end).
Definition get_delegated_power (a : bytes) : V Z := get_voting_power a.

Definition get_or_create_token (now : Z) (a : bytes) : V VoteToken :=
  t ← find_token a;
  match t with
  | Some t => mret t
  | None => cache_token a (new_token now a);; mret (new_token now a)
  end.
Definition save_token (t : VoteToken) : V unit :=
  cache_token (address t) t;;
  s ← get;
  match v_storage s with
  | Some db =>
      bail_if (negb (puts ("vote_token:" +:+ hex_encode (address t)))) WriteFailed;;
      modify (fun s => mkManager (Some (<[address t := t]> db)) (v_cache s))
  | None => mret tt
  end.

Definition set_token_balance (now : Z) (a : bytes) (b : Z) : V unit :=
  t ← get_or_create_token now a;
  save_token (update_voting_power now (set_amounts b (locked_amount t) t)).
Definition lock_tokens (now : Z) (a : bytes) (amount : Z) : V unit :=
  t ← get_or_create_token now a;
  bail_if (balance t <? amount) InsufficientToLock;;
  save_token (update_voting_power now (set_amounts (balance t - amount) (wrap U128_MAX (locked_amount t + amount)) t)).
Definition unlock_tokens (now : Z) (a : bytes) (amount : Z) : V unit :=
  t ← get_or_create_token now a;
  bail_if (locked_amount t <? amount) InsufficientToUnlock;;
  save_token (update_voting_power now (set_amounts (wrap U128_MAX (balance t + amount)) (locked_amount t - amount) t)).
Definition delegate (now : Z) (from to : bytes) : V unit :=
  t ← get_or_create_token now from;
  save_token (update_voting_power now
    (mkToken (address t) (balance t) (locked_amount t) (voting_power t) (last_vote_block t) (Some to) (created_at t) (updated_at t))).

Definition get_total_voting_power (s : TokenManager) : Z :=
  fold_left (fun acc t => wrap U128_MAX (acc + voting_power t)) (hash_order (map_to_list (v_cache s))).*2 0.
Definition by_power (a b : bytes * Z) : Prop := b.2 <= a.2.
#[global] Instance by_power_dec a b : Decision (by_power a b).
Proof. unfold by_power. apply _. Defined.
Definition get_top_holders (limit : nat) (s : TokenManager) : list (bytes * Z) :=
  take limit (merge_sort by_power ((fun p : bytes * VoteToken => (p.1, voting_power p.2)) <$> hash_order (map_to_list (v_cache s)))).
End Tokens.
End Reg.

(** ** What the treasury and the vote tokens promise

    Balances follow the recorded flows and voting power the amounts, over any
    operations; rewards are paid without funds, a restart forgets the
    treasury and the total of the voting power, and delegating moves nothing. *)

Module RegC.
Import Reg.

Section Treasury.
Context `{RegBincode, HashOrder}.
Context (puts : string -> bool).

Inductive TOp :=
| TSet (now balance : Z)
| TDeposit (now : Z) (from : bytes) (amount : Z) (reason : string)
| TWithdraw (now : Z) (to : bytes) (amount : Z) (id : option Z) (reason : string)
| TReward (now : Z) (to : bytes) (amount : Z) (ty : RewardType)
| TSlash (now : Z) (from : bytes) (amount : Z) (reason : string)
| TBurn (now amount : Z) (reason : string).
Definition exec (o : TOp) : T unit :=
  match o with
  | TSet now b => set_balance puts now b
  | TDeposit now f a r => deposit puts now f a r;; mret tt
  | TWithdraw now t a i r => withdraw puts now t a i r;; mret tt
  | TReward now t a ty => distribute_reward puts now t a ty;; mret tt
  | TSlash now f a r => slash puts now f a r;; mret tt
  | TBurn now a r => burn puts now a r;; mret tt
  end.
Definition run (l : list TOp) (s : Treasury) : Treasury := fold_left (fun s o => (exec o s).2) l s.

(** *** What holds of every treasury *)

Definition book (s : Treasury) : Prop :=
  let c := balance_cache s in
  total_balance c = available_balance c /\ locked_balance c = 0 /\ total_rewards c = 0 /\ total_slashes c = 0.

Lemma put_keeps (P : TreasurySnapshot -> Prop) key f : keeps (fun s => P (balance_cache s)) (put puts key f).
Proof. unfold put. keep; intros; first [by apply (keeps_modify (E:=RegError))|by intros ?]. Qed.
Lemma record_keeps (P : TreasurySnapshot -> Prop) now ty a st : keeps (fun s => P (balance_cache s)) (record puts now ty a st).
Proof. unfold record, fetch_id, save_transaction. keep; intros; first [by apply (keeps_modify (E:=RegError))|by intros ?|apply put_keeps]. Qed.
Lemma flow_keeps (P : TreasurySnapshot -> Prop) f :
  (forall c, P c -> P (f c)) -> keeps (fun s => P (balance_cache s)) (set_snapshot f;; put_balance puts).
Proof. intros Hf. apply keeps_bind; [apply (keeps_modify (E:=RegError)); intros s; apply Hf|intros _; apply put_keeps]. Qed.

(** Over any operations, failed writes included: the two balances agree, and
    nothing is ever recorded as locked, rewarded or slashed. *)
Theorem books_agree l s : book s -> book (run l s).
Proof.
  revert s. induction l as [|o l IH]; intros s Hs; [done|]. cbn [run fold_left]. apply IH. revert s Hs. clear IH.
  set (P := fun c : TreasurySnapshot => total_balance c = available_balance c /\ locked_balance c = 0 /\ total_rewards c = 0 /\ total_slashes c = 0).
  change (keeps (fun s => P (balance_cache s)) (exec o)).
  assert (Hr : forall now ty a st, keeps (fun s => P (balance_cache s)) (record puts now ty a st)) by (intros; apply record_keeps).
  assert (Hd : forall now a, keeps (fun s => P (balance_cache s)) (update_balance_on_deposit puts now a)).
  { intros. apply flow_keeps. unfold P. cbn. by intros c (-> & -> & -> & ->). }
  assert (Hw : forall now a, keeps (fun s => P (balance_cache s)) (update_balance_on_withdrawal puts now a)).
  { intros. apply flow_keeps. unfold P. cbn. by intros c (-> & -> & -> & ->). }
  destruct o; cbn [exec].
  1: { apply flow_keeps. unfold P. cbn. by intros c (_ & -> & -> & ->). }
  all: unfold deposit, withdraw, distribute_reward, slash, burn; keep; intros; first [by auto|by intros ?].
Qed.

(** *** Flows *)

(** A treasury without a storage, so that no write fails. *)
Lemma no_storage_record now ty a st s :
  t_storage s = None -> exists s', record puts now ty a st s = (Ok (next_transaction_id s), s') /\ t_storage s' = None /\ balance_cache s' = balance_cache s.
Proof. intros Hs. unfold record, fetch_id, save_transaction, put, mbind, M_bind, get, modify, mret, M_ret. simpl. rewrite Hs. by eexists. Qed.

(** A reward is granted and approved whatever the treasury holds; what is
    missing is written off. *)
Theorem reward_without_funds now to a ty s :
  t_storage s = None -> (distribute_reward puts now to a ty s).1 = Ok (next_transaction_id s) /\
  get_balance (distribute_reward puts now to a ty s).2 = Z.max 0 (get_balance s - a).
Proof.
  intros Hs. unfold distribute_reward, mbind, M_bind. destruct (no_storage_record now (Reward to a ty) a Approved s Hs) as (s' & -> & Hs' & Hc).
  unfold update_balance_on_withdrawal, put_balance, put, set_snapshot, mbind, M_bind, get, modify, mret, M_ret. simpl. rewrite Hs'. simpl.
  unfold get_balance. simpl. by rewrite Hc.
Qed.

(** The amounts of an operation that succeeds: what enters, what leaves. *)
Definition flows (o : TOp) : Z :=
  match o with
  | TSet _ _ => 0
  | TDeposit _ _ a _ | TSlash _ _ a _ => a
  | TWithdraw _ _ a _ _ | TReward _ _ a _ | TBurn _ a _ => - a
  end.
(** Neither sets the balance nor rewards what is not there. *)
Definition funded (o : TOp) (s : Treasury) : Prop :=
  match o with
  | TSet _ _ => False
  | TReward _ _ a _ => 0 <= a <= available_balance (balance_cache s)
  | TDeposit _ _ a _ | TWithdraw _ _ a _ _ | TSlash _ _ a _ | TBurn _ a _ => 0 <= a
  end.
Definition balanced (s : Treasury) : Prop :=
  let c := balance_cache s in t_storage s = None /\ total_balance c = available_balance c /\ 0 <= available_balance c /\
  total_deposits c = available_balance c + total_withdrawals c /\ 0 <= total_withdrawals c.

Lemma exec_balanced o s :
  balanced s -> funded o s -> total_deposits (balance_cache s) + Z.max 0 (flows o) <= U128_MAX -> balanced (exec o s).2.
Proof.
  intros (Hst & Ht & Hnn & Hd & Hw) Hf Hb.
  assert (Hin : forall now a s1, t_storage s1 = None -> balance_cache s1 = balance_cache s -> 0 <= a -> total_deposits (balance_cache s) + a <= U128_MAX ->
    balanced (update_balance_on_deposit puts now a s1).2).
  { intros now a s1 Hs1 Hc Ha Hle. unfold update_balance_on_deposit, put_balance, put, set_snapshot, mbind, M_bind, get, modify, mret, M_ret. simpl. rewrite Hs1, Hc.
    unfold balanced. simpl. rewrite !wrap_id by (unfold in_range; lia). split_and!; [done|lia..]. }
  assert (Hout : forall now a s1, t_storage s1 = None -> balance_cache s1 = balance_cache s -> 0 <= a <= available_balance (balance_cache s) ->
    balanced (update_balance_on_withdrawal puts now a s1).2).
  { intros now a s1 Hs1 Hc Ha. unfold update_balance_on_withdrawal, put_balance, put, set_snapshot, mbind, M_bind, get, modify, mret, M_ret. simpl. rewrite Hs1, Hc.
    unfold balanced, saturating_sub. simpl. rewrite !wrap_id by (unfold in_range; lia). split_and!; [done|lia..]. }
  assert (Hrun : forall now ty a st (k : T unit), (forall s1, t_storage s1 = None -> balance_cache s1 = balance_cache s -> balanced (k s1).2) ->
    balanced ((id ← (id ← record puts now ty a st; k;; mret id); mret tt) s).2).
  { intros now ty a st k Hk. unfold mbind at 1 2, M_bind. destruct (no_storage_record now ty a st s Hst) as (s1 & -> & H1 & H2). specialize (Hk s1 H1 H2).
    unfold mbind, M_bind. destruct (k s1) as [[u|e] s2]; exact Hk. }
  destruct o; cbn [exec flows funded] in *; [done|..].
  - unfold deposit. apply Hrun. intros. apply Hin; [done|done|lia|lia].
  - unfold withdraw. unfold mbind at 1 2, M_bind at 1 2. cbn [get]. destruct (Z.ltb_spec (available_balance (balance_cache s)) amount); cbn [bail_if fail]; [by cbn|].
    apply Hrun. intros. apply Hout; [done|done|lia].
  - unfold distribute_reward. apply Hrun. intros. apply Hout; [done|done|lia].
  - unfold slash. apply Hrun. intros. apply Hin; [done|done|lia|lia].
  - unfold burn. unfold mbind at 1 2, M_bind at 1 2. cbn [get]. destruct (Z.ltb_spec (available_balance (balance_cache s)) amount); cbn [bail_if fail]; [by cbn|].
    apply Hrun. intros. apply Hout; [done|done|lia].
Qed.

Fixpoint all_funded (l : list TOp) (s : Treasury) : Prop :=
  match l with
  | [] => True
  | o :: l => funded o s /\ total_deposits (balance_cache s) + Z.max 0 (flows o) <= U128_MAX /\ all_funded l (exec o s).2
  end.

(** As long as rewards are covered and the deposits fit their width, the
    balance of a treasury is what was deposited and slashed, less what was
    withdrawn, rewarded and burnt. *)
Theorem balance_is_its_flows l s : balanced s -> all_funded l s -> balanced (run l s).
Proof.
  revert s. induction l as [|o l IH]; intros s Hs Hl; [done|]. cbn [run fold_left]. destruct Hl as (Hf & Hb & Hl).
  apply IH; [by apply exec_balanced|done].
Qed.

(** A treasury opened on a storage starts empty and counts from one again: the
    first deposit replaces the stored transaction 1 and the stored balance. *)
Theorem restart_forgets db now now' from amount reason :
  puts ("treasury:tx:" +:+ pretty 1) = true -> puts "treasury:balance" = true -> 0 <= amount <= U128_MAX ->
  let s := with_storage db now in
  get_balance s = 0 /\
  exists db', t_storage (deposit puts now' from amount reason s).2 = Some db' /\
    db_txs db' = <[1 := mkTx 1 (Deposit from amount reason) amount now' 0 [] None Pending ""]> (db_txs db) /\
    available_balance <$> db_balance db' = Some amount.
Proof.
  intros H1 H2 Ha s. split; [done|].
  unfold deposit, record, fetch_id, save_transaction, update_balance_on_deposit, put_balance, put, set_snapshot, mbind, M_bind, get, modify, mret, M_ret.
  cbn [s with_storage t_storage next_transaction_id t_id]. rewrite H1. cbn [negb bail_if mret M_ret t_storage]. rewrite H2.
  eexists. split; [reflexivity|]. split; [done|]. cbn. by rewrite wrap_id.
Qed.
End Treasury.

(** *** Vote tokens *)

Section Tokens.
Context `{TokenBincode, HashOrder, Hex}.
Context (puts : string -> bool).

Inductive VOp :=
| VSet (now : Z) (a : bytes) (b : Z)
| VLock (now : Z) (a : bytes) (amount : Z)
| VUnlock (now : Z) (a : bytes) (amount : Z)
| VDelegate (now : Z) (from to : bytes)
| VPower (a : bytes).
Definition vexec (o : VOp) : V unit :=
  match o with
  | VSet now a b => set_token_balance puts now a b
  | VLock now a n => lock_tokens puts now a n
  | VUnlock now a n => unlock_tokens puts now a n
  | VDelegate now f t => delegate puts now f t
  | VPower a => get_voting_power a;; mret tt
  end.
Definition vrun (l : list VOp) (s : TokenManager) : TokenManager := fold_left (fun s o => (vexec o s).2) l s.

(** Every token, in memory and stored, is under its own address and has the
    power of its amounts. *)
Definition token_ok (a : bytes) (t : VoteToken) : Prop := address t = a /\ voting_power t = calculate_voting_power t.
Definition tokens_ok (s : TokenManager) : Prop :=
  map_Forall token_ok (v_cache s) /\ (forall db, v_storage s = Some db -> map_Forall token_ok db).

Lemma wp_find_token a s : tokens_ok s ->
  wp (find_token a) (fun o s' => tokens_ok s' /\ v_storage s' = v_storage s /\ forall t, o = Some t -> token_ok a t) (fun _ _ => False) s.
Proof.
  intros [Hc Hd]. unfold find_token. apply wp_bind, wp_get. destruct (v_cache s !! a) as [t|] eqn:Ha.
  { apply wp_ret. split_and!; [done|done|]. intros ? [= <-]. by apply Hc. }
  destruct (v_storage s) as [db|] eqn:Es; simpl; [|by apply wp_ret; split_and!; [split; [done|]; rewrite Es|done|]].
  destruct (db !! a) as [t|] eqn:Hdb; [|by apply wp_ret; split_and!; [split; [done|]; rewrite Es|done|]].
  assert (Ht : token_ok a t) by (by apply (Hd db)).
  destruct (_ <=? _); [|by apply wp_ret; split_and!; [split; [done|]; rewrite Es|done|]].
  apply wp_bind, wp_modify, wp_ret. split_and!; [split; simpl|done|].
  - by apply map_Forall_insert_2.
  - intros db' Hdb'. rewrite Es in Hdb'. by apply Hd.
  - by intros ? [= <-].
Qed.
Lemma wp_get_or_create now a s : tokens_ok s ->
  wp (get_or_create_token now a) (fun t s' => tokens_ok s' /\ token_ok a t) (fun _ _ => False) s.
Proof.
  intros Hs. unfold get_or_create_token. apply wp_bind. eapply wp_mono; [by apply wp_find_token| |done].
  intros [t|] s1 ([Hc Hd] & _ & Ht); [apply wp_ret; split; [done|by apply Ht]|].
  apply wp_bind, wp_modify, wp_ret. assert (token_ok a (new_token now a)) by done. split; [split; simpl; [by apply map_Forall_insert_2|done]|done].
Qed.
Lemma save_ok t s : tokens_ok s -> token_ok (address t) t -> tokens_ok (save_token puts t s).2.
Proof.
  intros [Hc Hd] Ht. unfold save_token, cache_token, mbind, M_bind, get, modify, mret, M_ret. simpl.
  assert (Hc' : map_Forall token_ok (<[address t := t]> (v_cache s))) by by apply map_Forall_insert_2.
  destruct (v_storage s) as [db|] eqn:Es; simpl; [|by split].
  destruct (puts _); simpl; (split; simpl; [done|]).
  - intros db' [= <-]. apply map_Forall_insert_2; [done|by apply Hd].
  - intros db' [= <-]. by apply Hd.
Qed.

(** Over any operations, refused and failed ones included, a token has the
    power of its amounts: one for a free unit, two for a locked one. *)
Theorem power_is_of_amounts l s : tokens_ok s -> tokens_ok (vrun l s).
Proof.
  revert s. induction l as [|o l IH]; intros s Hs; [done|]. cbn [vrun fold_left]. apply IH. clear IH.
  assert (Hup : forall now t, address (update_voting_power now t) = address t /\ token_ok (address t) (update_voting_power now t)) by done.
  assert (Hstep : forall now a (k : VoteToken -> V unit), (forall t s1, tokens_ok s1 -> token_ok a t -> tokens_ok (k t s1).2) ->
    tokens_ok ((t ← get_or_create_token now a; k t) s).2).
  { intros now a k Hk. pose proof (wp_get_or_create now a s Hs) as Hw. unfold wp in Hw. unfold mbind, M_bind.
    destruct (get_or_create_token now a s) as [[t|e] s1]; [|done]. destruct Hw. by apply Hk. }
  destruct o; cbn [vexec].
  - apply Hstep. intros t s1 Hs1 [Ha _]. by apply save_ok.
  - apply Hstep. intros t s1 Hs1 [Ha _]. unfold mbind, M_bind. destruct (balance t <? amount); [exact Hs1|]. by apply save_ok.
  - apply Hstep. intros t s1 Hs1 [Ha _]. unfold mbind, M_bind. destruct (locked_amount t <? amount); [exact Hs1|]. by apply save_ok.
  - apply Hstep. intros t s1 Hs1 [Ha _]. by apply save_ok.
  - unfold get_voting_power. pose proof (wp_find_token a s Hs) as Hw. unfold wp in Hw. unfold mbind, M_bind.
    destruct (find_token a s) as [[t|e] s1]; [by destruct Hw|done].
Qed.

Lemma get_cached now a t s : v_cache s !! a = Some t -> get_or_create_token now a s = (Ok t, s).
Proof. intros Ha. unfold get_or_create_token, find_token, mbind, M_bind, get, mret, M_ret. by rewrite Ha. Qed.
Lemma save_none t s : v_storage s = None -> save_token puts t s = (Ok tt, mkManager None (<[address t := t]> (v_cache s))).
Proof. intros Hs. unfold save_token, cache_token, mbind, M_bind, get, modify, mret, M_ret. cbn. by rewrite Hs. Qed.

Lemma get_fresh now a s : v_storage s = None -> v_cache s !! a = None ->
  get_or_create_token now a s = (Ok (new_token now a), mkManager None (<[a := new_token now a]> (v_cache s))).
Proof. intros Hs Ha. unfold get_or_create_token, find_token, cache_token, mbind, M_bind, get, modify, mret, M_ret. rewrite Ha, Hs. cbn. by rewrite Hs. Qed.

(** Without a storage: locking and unlocking keep the sum of free and locked. *)
Definition amounts (s : TokenManager) (a : bytes) : Z * Z := match v_cache s !! a with Some t => (balance t, locked_amount t) | None => (0, 0) end.
Theorem lock_moves now a amount s t :
  v_storage s = None -> v_cache s !! a = Some t -> address t = a -> 0 <= amount <= balance t -> 0 <= locked_amount t -> balance t + locked_amount t <= U128_MAX ->
  amounts (lock_tokens puts now a amount s).2 a = (balance t - amount, locked_amount t + amount) /\
  amounts (unlock_tokens puts now a amount (lock_tokens puts now a amount s).2).2 a = (balance t, locked_amount t).
Proof.
  intros Hs Ha Hadr Ham Hl Hb.
  assert (Hlock : (lock_tokens puts now a amount s).2 =
    mkManager None (<[a := update_voting_power now (set_amounts (balance t - amount) (locked_amount t + amount) t)]> (v_cache s))).
  { unfold lock_tokens, mbind, M_bind. rewrite (get_cached now a t) by done. destruct (Z.ltb_spec (balance t) amount); [lia|]. cbn [bail_if mret M_ret].
    rewrite wrap_id by (unfold in_range; lia). rewrite save_none by done. cbn. by rewrite Hadr. }
  rewrite Hlock. split; [unfold amounts; cbn; by rewrite lookup_insert_eq|]. unfold unlock_tokens, mbind, M_bind.
  rewrite (get_cached now a (update_voting_power now (set_amounts (balance t - amount) (locked_amount t + amount) t))) by apply lookup_insert_eq.
  cbn [balance locked_amount update_voting_power set_amounts]. destruct (Z.ltb_spec (locked_amount t + amount) amount); [lia|]. cbn [bail_if mret M_ret].
  rewrite wrap_id by (unfold in_range; lia). rewrite save_none by done. unfold amounts. cbn. rewrite Hadr, lookup_insert_eq. cbn. f_equal; lia.
Qed.

(** Delegating moves no power. *)
Theorem delegation_moves_nothing now from to s t :
  v_storage s = None -> v_cache s !! to = Some t -> from <> to ->
  (forall u, v_cache s !! from = Some u -> address u = from) ->
  (get_delegated_power to (delegate puts now from to s).2).1 = (get_delegated_power to s).1.
Proof.
  intros Hs Ht Hne Hf. assert (Hpow : forall s', v_cache s' !! to = Some t -> (get_delegated_power to s').1 = Ok (voting_power t)).
  { intros s' Ht'. unfold get_delegated_power, get_voting_power, find_token, mbind, M_bind, get, mret, M_ret. by rewrite Ht'. }
  rewrite (Hpow s Ht). apply Hpow. unfold delegate, mbind, M_bind. destruct (v_cache s !! from) as [u|] eqn:Hu.
  - rewrite (get_cached now from u s Hu), save_none by done. cbn. rewrite (Hf u) by done. by rewrite lookup_insert_ne.
  - rewrite get_fresh by done. rewrite save_none by done. cbn. by rewrite !lookup_insert_ne.
Qed.

(** A manager opened on a storage counts no power until its tokens are read. *)
Theorem restart_counts_no_power `{!BlockStm.HashOrderLaws} db : get_total_voting_power (manager_with_storage db) = 0 /\ get_top_holders 10 (manager_with_storage db) = [].
Proof.
  unfold get_total_voting_power, get_top_holders. simpl. rewrite map_to_list_empty.
  assert (He : forall A, hash_order ([] : list A) = []) by (intros A; apply Permutation_nil_r, BlockStm.hash_order_perm).
  rewrite !He. done.
Qed.
End Tokens.
End RegC.
