(* ===== verification/Upgrade.v ===== *)
(** * Contract upgrades

    [Savitri-contracts/src/contracts/upgrade.rs], every function of
    [UpgradeSystem], and [BaseContract::upgrade] of [base.rs], which calls it.
    The state joins the database of contracts, the governance records and the
    execution of the calling contract; the meter is present, as in a call. *)

From Stdlib Require Import Strings.Byte.
From S2P Require Import Prelude Gas ContractStorage Codec BaseContract StorageRoot CallExec GovStore.

Module Upgrade.
Import GovStore.GovStore.

Inductive UpErr :=
| BadCodeHashLength (len : nat)
| BadProposalIdLength (len : nat)
| ZeroProposalId
| UpgradePaused
| NoExecutionContext
| ProposalMissing
| ProposalTooLarge
| NotAnUpgrade
| AddressMismatch
| CodeHashMismatch
| NotApproved (st : ProposalStatus)
| QuorumNotReached
| ApprovalNotReached
| Expired (voting_end now : Z)
| ContractFailed (e : Call.CallErr)
| EmptyNewCode
| VersionOverflow
| SameCode
| CodeTooSmall (len : nat)
| ReservedSlot (slot : Z)
| OnStorage (e : ContractError)
| OnGovernance (e : GovError).

Record Upg := mkUpg { u_db : Root.Db; u_gov : GovState; u_es : ExecState }.

Definition MIN_BYTECODE_SIZE : nat := 4.
Definition MAX_PROPOSAL_SIZE : Z := 4194304.
Definition BASE_CONTRACT_SLOT_START : Z := 0.
Definition BASE_CONTRACT_SLOT_END : Z := 99.

(** [slice::windows]. *)
Definition windows (n : nat) (l : bytes) : list bytes :=
  (fun i => take n (drop i l)) <$> seq 0 (length l + 1 - n).

Definition writes_slot (n : nat) (slot : Z) (code : bytes) : bool :=
  existsb (fun w => bool_decide (w = to_le_bytes n slot) || bool_decide (w = rev (to_le_bytes n slot))) (windows n code).
Definition validate_storage_layout (code : bytes) : result UpErr unit :=
  if bool_decide (code = []) then Err EmptyNewCode
  else if (length code <? MIN_BYTECODE_SIZE)%nat then Err (CodeTooSmall (length code))
  else
    let touched slot := writes_slot 8 slot code || writes_slot 4 slot code || writes_slot 2 slot code in
    match List.find touched (seqZ BASE_CONTRACT_SLOT_START (BASE_CONTRACT_SLOT_END + 1)) with
    | Some slot => Err (ReservedSlot slot)
    | None => Ok tt
    end.

Definition is_governance_controlled (proposal_id : Z) : bool := true.

Section Ops.
Context `{Hex, Keccak, InfoBincode, GovBincode}.

Definition U (A : Type) : Type := M Upg UpErr A.

(** An operation on the storage of the running contract. *)
Definition on_es {A} (op : Storage -> X A) : U A :=
  s ← get;
  zoom u_es (fun e s => mkUpg (u_db s) (u_gov s) e) OnStorage (op (Root.as_storage (u_db s))).
(** The same on another storage, with the meter of the call. *)
Definition on_fresh {A} (cs : ContractStorage) (op : Storage -> X A) : U A :=
  s ← get;
  zoom (fun s => mkES cs (es_gas (u_es s)) (es_events (u_es s)) (es_custom (u_es s)))
    (fun e s => mkUpg (u_db s) (u_gov s) (mkES (es_cs (u_es s)) (es_gas e) (es_events (u_es s)) (es_custom (u_es s))))
    OnStorage (op (Root.as_storage (u_db s))).
Definition on_gov {A} (op : G A) : U A := zoom u_gov (fun g s => mkUpg (u_db s) g (u_es s)) OnGovernance op.
Definition contracts {A} (r : result Call.CallErr A) : U A := lift (match r with Ok a => Ok a | Err e => Err (ContractFailed e) end).

(** [storage.update_contract_code(..)]: the code replaces the record. *)
Definition update_contract_code (address code : bytes) : U unit :=
  modify (fun s => mkUpg (Root.mkDb (<[address := code]> (Root.db_contracts (u_db s))) (Root.db_accounts (u_db s)) (Root.db_slots (u_db s)))
                     (u_gov s) (u_es s)).

Definition upgrade_contract (contract_address : string) (new_bytecode : bytes) : U unit :=
  address ← contracts (Call.decode_hex_address contract_address);
  s ← get;
  info ← contracts (Call.load_contract (u_db s) address);
  bail_if (bool_decide (new_bytecode = [])) EmptyNewCode;;
  cs ← contracts (Call.new_storage address);
  paused ← on_fresh cs Base.is_paused;
  bail_if paused UpgradePaused;;
  bail_if (U64_MAX <? ci_version info + 1) VersionOverflow;;
  bail_if (bool_decide (ci_code_hash info = keccak256 new_bytecode)) SameCode;;
  update_contract_code address new_bytecode.

Definition check_action (action : ProposalAction) (contract_address new_code_hash : bytes) : U unit :=
  match action with
  | ContractUpgrade prop_address prop_code_hash _ =>
      bail_if (negb (bool_decide (prop_address = contract_address))) AddressMismatch;;
      bail_if (negb (bool_decide (prop_code_hash = new_code_hash))) CodeHashMismatch
  | _ => fail NotAnUpgrade
  end.
Definition validate_governance_proposal (proposal_id : Z) (contract_address new_code_hash : bytes) (current_timestamp : Z) : U unit :=
  o ← on_gov (get_proposal_raw proposal_id);
  p ← lift (ok_or o ProposalMissing);
  bail_if (MAX_PROPOSAL_SIZE <? proposal_len p) ProposalTooLarge;;
  check_action (p_action p) contract_address new_code_hash;;
  bail_if (negb (bool_decide (p_status p = Approved))) (NotApproved (p_status p));;
  quorum ← on_gov (check_proposal_quorum proposal_id);
  bail_if (negb quorum) QuorumNotReached;;
  approval ← on_gov (check_proposal_approval proposal_id);
  bail_if (negb approval) ApprovalNotReached;;
  bail_if (p_voting_end p <? current_timestamp) (Expired (p_voting_end p) current_timestamp).

Definition upgrade_contract_with_validation (contract_address : string) (new_bytecode : bytes) : U unit :=
  lift (validate_storage_layout new_bytecode);;
  upgrade_contract contract_address new_bytecode.

Definition upgrade_contract_governance_controlled (contract_address : string) (new_bytecode : bytes) (proposal_id current_timestamp : Z) : U unit :=
  address ← contracts (Call.decode_hex_address contract_address);
  validate_governance_proposal proposal_id address (keccak256 new_bytecode) current_timestamp;;
  lift (validate_storage_layout new_bytecode);;
  upgrade_contract contract_address new_bytecode.

(** *** [BaseContract::upgrade] *)

(** The reads of the contract record there do not refuse empty code. *)
Definition contract_info (db : Root.Db) (address : bytes) : result Call.CallErr ContractInfo :=
  match Root.db_contracts db !! address with
  | None => Err Call.ContractNotFound
  | Some raw =>
      if Call.MAX_CONTRACT_INFO_SIZE <? Z.of_nat (length raw) then Err (Call.InfoTooLarge (length raw))
      else ok_or (deserialize_info raw) Call.BadContractInfo
  end.

Definition upgrade (rt : Runtime) (new_code_hash proposal_id : bytes) : U bool :=
  bail_if (negb (length new_code_hash =? 32)%nat && negb (length new_code_hash =? 64)%nat) (BadCodeHashLength (length new_code_hash));;
  bail_if (negb (length proposal_id =? 32)%nat) (BadProposalIdLength (length proposal_id));;
  paused ← on_es Base.is_paused;
  bail_if paused UpgradePaused;;
  address ← lift (ok_or (CS.current_contract_address rt) NoExecutionContext);
  let proposal_id_u64 := from_le_bytes (take 8 proposal_id) in
  bail_if (proposal_id_u64 =? 0) ZeroProposalId;;
  let new_code_hash_array := take 32 new_code_hash in
  let current_timestamp := block_timestamp rt in
  validate_governance_proposal proposal_id_u64 address new_code_hash_array current_timestamp;;
  current_version ← on_es Base.get_version;
  bail_if (U64_MAX <? current_version + 1) VersionOverflow;;
  on_es (fun st => Base.set_version st (current_version + 1));;
  on_es (fun _ => CS.emit_standard_event (EvUpgraded (hex_encode address) (current_version + 1)));;
  s ← get;
  info ← contracts (contract_info (u_db s) address);
  upgrade_contract_governance_controlled (hex_encode address) (ci_code info) proposal_id_u64 current_timestamp;;
  mret true.
End Ops.

(** ** What the layout check refuses *)

Lemma elem_windows n l w : w ∈ windows n l <-> exists i, (i + n <= length l)%nat /\ w = take n (drop i l).
Proof.
  unfold windows. rewrite list_elem_of_fmap. split.
  - intros (i & -> & Hi%elem_of_seq). exists i. split; [lia|done].
  - intros (i & Hi & ->). exists i. split; [done|]. apply elem_of_seq. lia.
Qed.

Lemma writes_slot_spec n slot code :
  writes_slot n slot code = true <->
  exists i, (i + n <= length code)%nat /\ (take n (drop i code) = to_le_bytes n slot \/ take n (drop i code) = rev (to_le_bytes n slot)).
Proof.
  unfold writes_slot. rewrite existsb_exists. setoid_rewrite orb_true_iff. setoid_rewrite bool_decide_eq_true. setoid_rewrite <- list_elem_of_In.
  setoid_rewrite elem_windows. naive_solver.
Qed.

Lemma take_le_bytes k n z : (k <= n)%nat -> take k (to_le_bytes n z) = to_le_bytes k z.
Proof.
  revert n z. induction k as [|k IH]; intros n z Hk; [done|]. destruct n as [|n]; [lia|].
  cbn [to_le_bytes take]. by rewrite IH by lia.
Qed.

(** The longer patterns contain the pattern of two bytes. *)
Lemma writes_slot_two n slot code : (2 <= n)%nat -> writes_slot n slot code = true -> writes_slot 2 slot code = true.
Proof.
  intros Hn. rewrite !writes_slot_spec. intros (i & Hi & [Hw|Hw]).
  - exists i. split; [lia|]. left. rewrite <- (take_le_bytes 2 n slot) by done. rewrite <- Hw, take_take. f_equal. lia.
  - exists (i + (n - 2))%nat. split; [lia|]. right. rewrite <- drop_drop, <- (take_le_bytes 2 n slot) by done.
    assert (Hl : length (to_le_bytes n slot) = n) by apply length_to_le_bytes.
    assert (Hr : rev (take 2 (to_le_bytes n slot)) = drop (n - 2) (rev (to_le_bytes n slot))).
    { rewrite skipn_rev, Hl. do 2 f_equal. lia. }
    rewrite Hr, <- Hw, skipn_firstn_comm. f_equal. lia.
Qed.

Lemma two_bytes slot : 0 <= slot < 256 -> to_le_bytes 2 slot = [byte_of_Z slot; x00].
Proof. intros H. cbn [to_le_bytes]. rewrite Z.div_small by lia. done. Qed.

(** A pair of neighbours that reads as a reserved slot in either order. *)
Definition reserved_pair (a b : byte) : Prop := (b = x00 /\ byte_to_Z a <= 99) \/ (a = x00 /\ byte_to_Z b <= 99).

Lemma take_two (l : bytes) i a b : (i + 2 <= length l)%nat -> take 2 (drop i l) = [a; b] <-> l !! i = Some a /\ l !! S i = Some b.
Proof.
  intros Hi. destruct (lookup_lt_is_Some_2 l i) as [x Hx]; [lia|]. destruct (lookup_lt_is_Some_2 l (S i)) as [y Hy]; [lia|].
  rewrite (drop_S _ x), (drop_S _ y) by done. cbn. rewrite take_0, Hx, Hy. naive_solver.
Qed.

(** The layout check accepts exactly the codes of at least four bytes in which
    no two neighbours are a zero and a byte of at most 99, whatever they mean
    in the code; of the eight, four and two byte patterns only the last
    matters.  In particular no code with two zero bytes in a row passes. *)
Theorem layout_exact code :
  validate_storage_layout code = Ok tt <->
  (4 <= length code)%nat /\ forall i a b, code !! i = Some a -> code !! S i = Some b -> ~ reserved_pair a b.
Proof.
  unfold validate_storage_layout, MIN_BYTECODE_SIZE. case_bool_decide as He; [subst; cbn; split; [done|lia]|].
  destruct (Nat.ltb_spec (length code) 4); [split; [done|lia]|].
  set (touched := fun slot => _). transitivity (forall slot, 0 <= slot < 100 -> writes_slot 2 slot code = false).
  - destruct (List.find touched _) as [slot|] eqn:Hf.
    + apply List.find_some in Hf as [Hin Ht]. split; [done|]. intros Hn. exfalso. rewrite <- list_elem_of_In, elem_of_seqZ in Hin.
      unfold BASE_CONTRACT_SLOT_START, BASE_CONTRACT_SLOT_END in Hin. assert (Hw : writes_slot 2 slot code = true); [|by rewrite Hn in Hw by lia].
      unfold touched in Ht. apply orb_true_iff in Ht as [Ht|]; [|done]. apply orb_true_iff in Ht as [Ht|Ht]; (eapply writes_slot_two; [|exact Ht]; lia).
    + split; [|done]. intros _ slot Hs. assert (Ht : touched slot = false).
      { apply (List.find_none _ _ Hf). rewrite <- list_elem_of_In, elem_of_seqZ. unfold BASE_CONTRACT_SLOT_START, BASE_CONTRACT_SLOT_END. lia. }
      unfold touched in Ht. by apply orb_false_iff in Ht as [_ ?].
  - split.
    + intros Hn. split; [lia|]. intros i a b Ha Hb Hr. pose proof (byte_to_Z_range a). pose proof (byte_to_Z_range b).
      assert (Hi : (i + 2 <= length code)%nat) by (apply lookup_lt_Some in Hb; lia).
      assert (Hw : forall slot, 0 <= slot < 100 -> [a; b] = to_le_bytes 2 slot \/ [a; b] = rev (to_le_bytes 2 slot) -> False).
      { intros slot Hs He'. assert (Ht : writes_slot 2 slot code = true); [|by rewrite Hn in Ht]. apply writes_slot_spec. exists i. split; [done|].
        by rewrite (proj2 (take_two code i a b Hi) (conj Ha Hb)). }
      destruct Hr as [[-> Hz]|[-> Hz]]; [apply (Hw (byte_to_Z a)); [lia|left]|apply (Hw (byte_to_Z b)); [lia|right]];
        by rewrite two_bytes, byte_of_to_Z by lia.
    + intros [_ Hn] slot Hs. apply not_true_iff_false. rewrite writes_slot_spec. intros (i & Hi & Hw). rewrite two_bytes in Hw by lia.
      assert (Hb : byte_to_Z (byte_of_Z slot) = slot) by (rewrite byte_to_of_Z; apply Z.mod_small; lia).
      destruct Hw as [Hw|Hw]; apply take_two in Hw as [Ha Hc]; try done; apply (Hn i _ _ Ha Hc); [left|right]; (split; [done|lia]).
Qed.

(** ** What an upgrade does *)

Section Facts.
Context `{Hex, Keccak, InfoBincode, GovBincode}.

(** The database is written by [update_contract_code] only. *)
Definition same_db (db : Root.Db) (s : Upg) : Prop := u_db s = db.

Lemma on_es_same db {A} (op : Storage -> X A) : keeps (same_db db) (on_es op).
Proof. intros s Hs. unfold on_es, zoom, mbind, M_bind, get. by destruct (op _ _) as [[?|?] ?]. Qed.
Lemma on_fresh_same db {A} cs (op : Storage -> X A) : keeps (same_db db) (on_fresh cs op).
Proof. intros s Hs. unfold on_fresh, zoom, mbind, M_bind, get. by destruct (op _ _) as [[?|?] ?]. Qed.
Lemma on_gov_same db {A} (op : G A) : keeps (same_db db) (on_gov op).
Proof. intros s Hs. unfold on_gov, zoom. by destruct (op _) as [[?|?] ?]. Qed.
Lemma contracts_same db {A} (r : result Call.CallErr A) : keeps (same_db db) (contracts r).
Proof. by intros s. Qed.
#[local] Hint Resolve on_es_same on_fresh_same on_gov_same contracts_same : keeps.

Lemma validate_same db id a h now : keeps (same_db db) (validate_governance_proposal id a h now).
Proof. unfold validate_governance_proposal, check_action. keep. Qed.
#[local] Hint Resolve validate_same : keeps.

(** Continue after a computation that does not write the database. *)
Lemma wp_same db {A B} (m : U A) (f : A -> U B) (Q : B -> Upg -> Prop) (R : UpErr -> Upg -> Prop) s :
  keeps (same_db db) m -> u_db s = db -> (forall a s', u_db s' = db -> wp (f a) Q R s') -> (forall e s', u_db s' = db -> R e s') -> wp (m ≫= f) Q R s.
Proof.
  intros Hm Hs Hf HR. apply wp_bind. eapply wp_mono; [apply (keeps_wp (same_db db)); [exact Hm|exact Hs]|..].
  - intros a s' Hs'. by apply Hf.
  - intros e s' Hs'. by apply HR.
Qed.

(** What a successful upgrade writes. *)
Definition with_code (address code : bytes) (db : Root.Db) : Root.Db :=
  Root.mkDb (<[address := code]> (Root.db_contracts db)) (Root.db_accounts db) (Root.db_slots db).

Lemma wp_upgrade_contract a code s :
  wp (upgrade_contract a code)
    (fun _ s' => exists address info, Call.decode_hex_address a = Ok address /\ Call.load_contract (u_db s) address = Ok info /\
       ci_code_hash info <> keccak256 code /\ code <> [] /\ u_db s' = with_code address code (u_db s))
    (fun _ s' => u_db s' = u_db s) s.
Proof.
  unfold upgrade_contract. apply wp_bind. unfold contracts at 1. apply wp_lift; [|by intros].
  intros address Ha. destruct (Call.decode_hex_address a) as [address'|] eqn:Hd; [|done]. injection Ha as ->.
  apply wp_bind, wp_get. apply wp_bind. unfold contracts at 1. apply wp_lift; [|by intros].
  intros info Hi. destruct (Call.load_contract (u_db s) address) as [info'|] eqn:Hl; [|done]. injection Hi as ->.
  apply wp_bind, wp_bail_if; [done|intros Hc%bool_decide_eq_false].
  apply (wp_same (u_db s)); [auto with keeps|done| |done]. intros cs s1 Hs1. apply (wp_same (u_db s)); [auto with keeps|done| |done]. intros paused s2 Hs2.
  apply wp_bind, wp_bail_if; [done|intros _]. apply wp_bind, wp_bail_if; [done|intros _]. apply wp_bind, wp_bail_if; [done|intros Hh%bool_decide_eq_false].
  apply wp_modify. exists address, info. split_and!; [done..|]. cbn. by rewrite Hs2.
Qed.

(** A successful upgrade writes the code where the record of the contract was.
    The next call of the contract reads the code as a record: it fails, except
    when the code happens to encode one. *)
Theorem upgrade_replaces_record a code s s' :
  upgrade_contract a code s = (Ok tt, s') ->
  exists address, Call.decode_hex_address a = Ok address /\ u_db s' = with_code address code (u_db s) /\
    (deserialize_info code = None -> exists e, Call.load_contract (u_db s') address = Err e).
Proof.
  intros Hu. destruct (wp_ok _ _ _ _ _ _ (wp_upgrade_contract a code s) Hu) as (address & info & Hd & _ & _ & _ & Hdb).
  exists address. split_and!; [done|done|]. intros Hn. rewrite Hdb. unfold Call.load_contract, with_code. cbn [Root.db_contracts].
  rewrite lookup_insert_eq, Hn. case_match; by eexists.
Qed.

Lemma run_bail {A} c e (k : U A) s a : ((bail_if c e;; k) s).1 = Ok a <-> c = false /\ (k s).1 = Ok a.
Proof. unfold mbind, M_bind. destruct c; cbn; naive_solver. Qed.
Lemma run_read {A B} (op : G A) (f : A -> U B) b s : op (u_gov s) = (Ok b, u_gov s) -> (on_gov op ≫= f) s = f b s.
Proof. intros Ho. unfold on_gov, zoom, mbind, M_bind. rewrite Ho. by destruct s. Qed.

Definition quorum_reached (p : Proposal) (total : Z) : bool := negb (total =? 0) && (cast_total p >=? saturating_mul U128_MAX total 1000 / 10000).

Lemma read_quorum id p g : proposals g !! id = Some p -> proposal_len p <= MAX_BINCODE_SIZE ->
  check_proposal_quorum id g = (Ok (quorum_reached p (default 0 (total_tokens g))), g).
Proof.
  intros Hp Hl. unfold check_proposal_quorum, get_proposal_raw, gets, mbind, M_bind. rewrite Hp. unfold safe. rewrite (proj2 (Z.leb_le _ _) Hl).
  unfold get_total_vote_tokens, gets, quorum_reached. by destruct (default 0 (total_tokens g) =? 0).
Qed.
Lemma read_approval id p g : proposals g !! id = Some p -> proposal_len p <= MAX_BINCODE_SIZE ->
  check_proposal_approval id g = (Ok (quorum_reached p (default 0 (total_tokens g)) && (p_yes_votes p >? p_no_votes p)), g).
Proof.
  intros Hp Hl. unfold check_proposal_approval. unfold mbind at 1, M_bind at 1. rewrite (read_quorum id p g Hp Hl). destruct (quorum_reached _ _); [|done].
  cbn [negb andb]. unfold get_proposal_raw, gets, mbind, M_bind. rewrite Hp. unfold safe. by rewrite (proj2 (Z.leb_le _ _) Hl).
Qed.

Lemma run_action {A} act a h (k : U A) s r :
  ((check_action act a h;; k) s).1 = Ok r <-> (exists d, act = ContractUpgrade a h d) /\ (k s).1 = Ok r.
Proof.
  unfold check_action, mbind, M_bind. destruct act; try (split; [done|naive_solver]).
  repeat case_bool_decide; subst; cbn; (split; [try done|]); naive_solver.
Qed.

(** The checks of a proposal, all of them and no other. *)
Theorem proposal_validated_iff id a h now s :
  (validate_governance_proposal id a h now s).1 = Ok tt <->
  exists p description, proposals (u_gov s) !! id = Some p /\ proposal_len p <= 4194304 /\
    p_action p = ContractUpgrade a h description /\ p_status p = Approved /\
    quorum_reached p (default 0 (total_tokens (u_gov s))) = true /\ p_no_votes p < p_yes_votes p /\ now <= p_voting_end p.
Proof.
  unfold validate_governance_proposal. rewrite (run_read _ _ (proposals (u_gov s) !! id)) by done.
  destruct (proposals (u_gov s) !! id) as [p|] eqn:Hp; [|split; [done|naive_solver]].
  change (lift (ok_or (Some p) ProposalMissing) ≫= ?f) with (f p). cbv beta. rewrite run_bail, Z.ltb_ge. unfold MAX_PROPOSAL_SIZE.
  destruct (decide (proposal_len p <= 4194304)) as [Hl|]; [|naive_solver].
  assert (Hl' : proposal_len p <= MAX_BINCODE_SIZE) by (unfold MAX_BINCODE_SIZE; lia).
  rewrite run_action, run_bail, negb_false_iff, bool_decide_eq_true, (run_read _ _ _ _ (read_quorum id p _ Hp Hl')), run_bail, negb_false_iff.
  rewrite (run_read _ _ _ _ (read_approval id p _ Hp Hl')), run_bail, negb_false_iff, andb_true_iff, Z.gtb_lt.
  unfold bail_if. destruct (Z.ltb_spec (p_voting_end p) now); [split; [naive_solver|naive_solver lia]|]. naive_solver.
Qed.

(** [BaseContract::upgrade] replaces the code of a contract by its own code,
    which the upgrade refuses: on a contract whose record has the hash of its
    code no call of it ever succeeds, whatever was voted, and no code is ever
    written. *)
Theorem base_upgrade_never_succeeds `{!HexLaws} rt new_code_hash proposal_id address s :
  CS.current_contract_address rt = Some address -> length address = 32%nat ->
  (forall info, contract_info (u_db s) address = Ok info -> ci_code_hash info = keccak256 (ci_code info)) ->
  exists e, (upgrade rt new_code_hash proposal_id s).1 = Err e /\ u_db (upgrade rt new_code_hash proposal_id s).2 = u_db s.
Proof.
  intros Hrt Hlen Hcons. set (R := fun (_ : UpErr) (s' : Upg) => u_db s' = u_db s).
  assert (Hw : wp (upgrade rt new_code_hash proposal_id) (fun _ _ => False) R s).
  2: { unfold wp in Hw. destruct (upgrade _ _ _ s) as [[?|e] s']; [done|]. by exists e. }
  unfold upgrade. apply wp_bind, wp_bail_if; [done|intros _]. apply wp_bind, wp_bail_if; [done|intros _].
  apply (wp_same (u_db s)); [auto with keeps|done| |done]. intros paused s1 Hs1. apply wp_bind, wp_bail_if; [done|intros _].
  apply wp_bind, wp_lift; [|by intros]. rewrite Hrt. intros ? [= <-]. apply wp_bind, wp_bail_if; [done|intros _].
  apply (wp_same (u_db s)); [auto with keeps|done| |done]. intros [] s2 Hs2. apply (wp_same (u_db s)); [auto with keeps|done| |done]. intros v s3 Hs3.
  apply wp_bind, wp_bail_if; [done|intros _]. apply (wp_same (u_db s)); [auto with keeps|done| |done]. intros [] s4 Hs4.
  apply (wp_same (u_db s)); [auto with keeps|done| |done]. intros [] s5 Hs5. apply wp_bind, wp_get. rewrite Hs5.
  apply wp_bind. unfold contracts at 1. apply wp_lift; [|intros; exact Hs5]. intros info Hi.
  destruct (contract_info (u_db s) address) as [info'|] eqn:Hc; [|done]. injection Hi as ->. specialize (Hcons _ eq_refl).
  apply wp_bind. unfold upgrade_contract_governance_controlled. apply (wp_same (u_db s)); [auto with keeps|done| |done]. intros a s6 Hs6.
  apply (wp_same (u_db s)); [auto with keeps|done| |done]. intros [] s7 Hs7. apply (wp_same (u_db s)); [by intros ?|done| |done]. intros [] s8 Hs8.
  eapply wp_mono; [apply wp_upgrade_contract|..]; [|intros e s' Hs'; unfold R; by rewrite Hs', Hs8].
  intros [] s' (address' & info' & Hd & Hl & Hne & _). exfalso. rewrite Hs8 in Hl.
  unfold Call.decode_hex_address in Hd. rewrite (proj1 (decode_encode_address _ Hlen)) in Hd. injection Hd as <-.
  unfold Call.load_contract in Hl. unfold contract_info in Hc. destruct (Root.db_contracts (u_db s) !! address); [|done].
  destruct (Call.MAX_CONTRACT_INFO_SIZE <? _); [done|]. destruct (deserialize_info _); [|done]. injection Hc as ->. case_bool_decide; [done|].
  injection Hl as ->. done.
Qed.
End Facts.

(** ** A contract whose upgrade was voted

    The proposal names the hash of the code the contract has, as the check
    inside demands: every check passes, the version moves and the event is
    emitted, and then the code is found unchanged. *)

#[local] Existing Instance keccak_toy.
Definition info_of (code : bytes) : ContractInfo :=
  mkInfo [] code (toy_hash code) [] [] 1 0 Active 0 0 0 0 (Build_ContractMetadata "" "" [] "" [] [] false false).
#[local] Instance info_demo : InfoBincode := {| serialize_info := ci_code; deserialize_info := fun b => Some (info_of b) |}.
#[local] Instance gov_demo : GovBincode := {| proposal_len := fun _ => 100; vote_len := fun _ => 100; params_len := fun _ => 100; enc_action := fun _ => [] |}.
Definition code1 : bytes := bytes_of_string "transfer".
Definition approved1 : Proposal := mkProposal 1 Base.alice 0 "" (ContractUpgrade CS.addr0 (toy_hash code1) "") Approved 0 0 100 80 20 0.
Definition runtime1 : Runtime := Base.runtime_of CS.addr0 Base.alice.
Definition voted : Upg :=
  mkUpg (Root.mkDb {[ CS.addr0 := code1 ]} ∅ ∅) (mkGov ∅ (Some 1000) None {[ 1 := approved1 ]} ∅ ∅ None ∅) Base.deployed.

Lemma base_upgrade_never_succeeds_witness :
  (upgrade runtime1 (toy_hash code1) (to_le_bytes 32 1) voted).1 = Err SameCode /\
  (on_es Base.get_version voted).1 = Ok 1 /\
  (on_es Base.get_version (upgrade runtime1 (toy_hash code1) (to_le_bytes 32 1) voted).2).1 = Ok 2 /\
  u_db (upgrade runtime1 (toy_hash code1) (to_le_bytes 32 1) voted).2 = u_db voted.
Proof.
  split; [vm_compute; reflexivity|]. split; [vm_compute; reflexivity|]. split; [vm_compute; reflexivity|].
  destruct (base_upgrade_never_succeeds runtime1 (toy_hash code1) (to_le_bytes 32 1) CS.addr0 voted) as (e & _ & Hdb); [vm_compute; reflexivity..| |exact Hdb].
  intros info. replace (contract_info (u_db voted) CS.addr0) with (Ok (E := Call.CallErr) (info_of code1)) by (vm_compute; reflexivity). by intros [= <-].
Defined.

Lemma upgrade_replaces_record_witness :
  let code2 := bytes_of_string "transferring" in
  u_db (upgrade_contract (hex_encode CS.addr0) code2 voted).2 = with_code CS.addr0 code2 (u_db voted).
Proof.
  cbv zeta. destruct (upgrade_contract (hex_encode CS.addr0) (bytes_of_string "transferring") voted) as [r s'] eqn:Hu.
  assert (r = Ok tt) as -> by (apply (f_equal fst) in Hu; vm_compute in Hu; by symmetry).
  destruct (upgrade_replaces_record _ _ _ _ Hu) as (a & Ha & Hdb & _). revert Ha. vm_compute (Call.decode_hex_address _). intros [= <-]. exact Hdb.
Defined.
End Upgrade.
